(* ===== verification/_CoqProject ===== *)
-Q . S2P
Prelude.v
Kernel.v
GobiQmi.v
Ring.v
FifoPhy.v
FifoHal.v
RecvRing.v
AtTok.v
Sblock.v
SblockLink.v
SblockRecover.v
Smsg.v
SmsgLink.v
SmsgProps.v
Sbuf.v
SbufLink.v
SbufProps.v
Power.v
PowerInv.v
PowerProps.v
Mhi.v
MhiPm.v
MhiXfer.v
MhiExample.v
MhiPmProps.v
MhiSafe.v
MhiRing.v
MhiSpec.v
MhiQueues.v
MhiRefine.v
MhiStart.v
MhiEvents.v
MhiProps.v
QmiDev.v
QmiClient.v
QmiLists.v
QmiWait.v
QmiRuns.v
QmiExchange.v
QmiInv.v
QmiRelease.v
QmiProps.v
GobiSkb.v
GobiNet.v
GobiDrv.v
GobiExample.v
GobiFrames.v
GobiRx.v
GobiAgg.v
GobiTx.v
GobiLife.v
GobiLink.v
GobiProps.v
CmMsg.v
CmDev.v
CmReq.v
CmMain.v
CmFrame.v
CmLink.v
CmWire.v
CmTyped.v
CmExchange.v
CmDial.v
CmFaults.v
CmModem.v
CmProps.v
