(* ===== verification/Prelude.v ===== *)
(** * Verification of the WWAN packages

    This library models the parts of the repository's C code that carry its own
    logic, and proves what makes them correct: message encodings, hardware
    register accessors, rings, the channels between two processors, power
    management, the host side of the Modem Host Interface, a network device with
    its control channel, and the program that dials.

    ** The program

    The repository packages kernel drivers for cellular modules and the daemons
    that dial with them.  [src/drivers/quectel-gobinet] is a USB network driver
    that configures the module with QMI messages and passes them between
    programs and the module; [src/drivers/quectel-sprd-pcie] drives a module on
    PCIe: packets go through the hardware FIFOs of the SIPA
    layer ([src/sipa]), control traffic through shared memory with the SIPC
    layer ([src/sipc]), and its users keep the modem awake through
    [src/power_manager]; [src/drivers/quectel-mhi-pcie] drives modules that speak
    the Modem Host Interface; [src/utils/quectel-cm] is the connection manager,
    which sets up data calls with QMI messages (or MBIM, or AT commands) and
    runs the DHCP client for them.

    ** Files

    - [Prelude]: machine integers, the [outcome] of a run, byte buffers with
      checked accesses, iteration, shared lemmas and the hint database [buf].
    - [Kernel]: the state monad [stm] of the drivers, the kernel's waits, and the
      logics [runs] (total), [ends] (partial) and [hangs].
    - [GobiQmi] (module [Qmi]): [quectel-gobinet/src/QMI.c].  [FillQMUX] and
      [ParseQMUX], the TLV search [GetTLV], [ValidQMIMessage],
      [GetQMIMessageID], the builders [QMI...Req] and the parsers [QMI...Resp],
      each under its C name.
    - [Ring]: the representation of a queue by an array of [2^k] slots with
      free-running 32-bit pointers, shared by [RecvRing] and [Sblock].
    - [FifoPhy]: [sipa/sipa_phy_v0/sipa_fifo_phy.h], the accessors
      [ipa_phy_...] of the FIFO registers.  The device is a parameter: class
      [Mmio] has its register reads and writes, class [RegisterFile] the laws of
      an ordinary register; a finite map is an instance.
    - [FifoHal]: [sipa/sipa_phy_v0/sipa_common_fifo_hal.c], the operations
      [ipa_common_fifo_hal_...] over [FifoPhy], proved against the interface
      only.
    - [RecvRing]: [put_recv_array_node], [get_recv_array_node],
      [create_recv_array], [destroy_recv_array] of [sipa/sipa_skb_recv.c].
    - [AtTok]: [quectel-cm/src/at_tok.c], the tokenizer of AT responses.
    - [Sblock]: [sipc/sblock.c] and [sblock.h], block channels over shared
      memory: the operations [sblock_...] on one side.  [SblockLink]: two sides
      joined by the memory they share, and the abstract channel;
      [SblockRecover]: recovery, resources and waits.
    - [Smsg]: [sipc/smsg.c], the messages of 8 bytes that all channels share:
      the table of channels, sending, the interrupt, opening and closing, over a
      heap of channels.  [SmsgLink]: two processors, and the abstract wire;
      [SmsgProps]: what follows for one channel.
    - [Sbuf]: [sipc/sbuf.c], byte streams over shared memory; [SbufLink]: two
      ends and the abstract streams; [SbufProps]: creation, reopening, waits.
    - [Power]: [power_manager/power_manager.c], the managers and the sources that
      keep the modem busy; [PowerInv]: its invariant; [PowerProps]: any sequence
      of calls, timers and work items.
    - [Mhi]: rings, data and doorbells of [quectel-mhi-pcie/src/core]
      ([mhi_internal.h], [mhi.h], the first part of [mhi_main.c]); [MhiPm]:
      [mhi_pm.c], the power states; [MhiXfer]: queueing, completions, event
      rings, commands, start and stop of channels.  [MhiExample]: a small
      controller for the witnesses.  [MhiPmProps]: the transition table;
      [MhiSafe]: register accesses; [MhiRing]: a ring is a bounded queue;
      [MhiSpec]: channels as an abstract machine; [MhiQueues], [MhiRefine]: the
      operations implement it; [MhiStart]: the start of a channel; [MhiEvents]:
      event rings; [MhiProps]: stray events.

    - [QmiDev], [QmiClient]: [quectel-gobinet/src/QMIDevice.c], the clients of the
      QMI channel: [QmiDev] has the lists of messages, waiting threads and URBs of
      a client, the callbacks of the URBs, [ReadSync] and [WriteSync]; [QmiClient]
      the driver's own requests over [GobiQmi], registration, removal and the file
      operations.  [QmiLists]: lemmas on the table of clients; [QmiRuns]: what a
      run of the basic operations does; [QmiExchange]: a whole request;
      [QmiWait]: any number of threads that read; [QmiInv]: the invariant of the
      table; [QmiRelease]: the release of a client; [QmiProps]: delivery, the link
      status callback, errors.
    - [GobiSkb], [GobiNet], [GobiDrv]: [quectel-gobinet/src/GobiUSBNet.c], the
      network device around the QMI clients.  [GobiSkb]: socket buffers, Ethernet
      and QMAP headers ([add_qhdr], [add_qhdr_v5]); [GobiNet]: the state (with a
      [qmi_dev] inside), bridge mode, the queues, aggregation
      ([rmnet_usb_tx_agg], its timer and its work) and transmission; [GobiDrv]: the
      receiver ([_rmnet_usb_rx_handler]), attributes, ioctl, the devices of the
      channels, probing and removal.  [GobiExample]: a modem for the witnesses.
      [GobiFrames]: frames are written and read back; [GobiRx]: the receiver;
      [GobiAgg]: one channel's aggregation; [GobiTx]: all channels and the other
      end; [GobiLife]: registration and removal; [GobiLink]: link state and
      queues; [GobiProps]: the properties.
    - [CmMsg], [CmDev], [CmReq], [CmMain]: the connection manager with its QMI
      backend.  [CmMsg]: the messages of [quectel-cm/src/QMIThread.c] (search for
      a TLV, composition, the functions that fill in each request); [CmDev]:
      [QmiWwanCM.c] and the exchange of a request for a response, the device
      thread, the client ids; [CmReq]: the requests of [qmi_request_ops]; [CmMain]:
      [qmi_main] of [main.c], with the handlers of its signals.  The table of
      operations is a record, and the theorems on the main loop are proved for
      any table with the property [CmFrame.OpsFrame].  [CmFrame]: what the
      requests leave alone; [CmLink]: the invariant of the main loop; [CmWire]:
      messages as lists of TLVs; [CmTyped]: every request is a message;
      [CmExchange]: a request and its response; [CmDial]: dialling with a modem
      that answers; [CmFaults]: silent and lost devices; [CmModem]: modems for the
      witnesses; [CmProps]: the properties.

    ** Modelling

    Integers are [Z]; the conversions of the code are [u8], [u16], [u32], [s32],
    [u64], and [s8] of a plain [char], written wherever a value may leave its
    type.  A pointer to bytes is a
    list of the bytes behind it, a pointer into a ring its address; reading or
    writing outside, dividing by zero and indexing past an array give
    [OutOfBounds].  Stateful code is a function from a state to an outcome with
    the new state, composed in a monad ([io] on the device, [hal] on the SIPA
    state, [Kernel.stm] on the drivers' states).  The code between taking and
    releasing a lock is one step; interleavings are sequences of such steps: the
    [..._run] functions of the links, [PowerInv.run_events], [MhiSafe.run_op],
    [MhiSpec.run_all].  Shared objects that are freed or aliased (the channels of
    [Smsg], the sources of [Power]) live in a heap or table with handles.

    Kernel services and what other contexts do are data of the environment: the
    results of resource requests, allocations and DMA mappings, and during a wait
    the sequence of states that other contexts leave ([Kernel.wake]s), or the
    events that happen in it ([QmiDev.event]: completions of URBs, the release of
    the client, the removal of the device).  For the connection manager the
    device, the clock and the allocator are the class [CmDev.Env]; the device
    answers a request with the list of what happens while it waits
    ([CmDev.happening]).  Calls of functions outside a component are recorded in its state ([smsg_send] of the
    channels, [Mhi.output]); register reads of [Mhi] are a function of the
    address.  The contracts of the MHI channels speak of a part of the state, its
    [MhiSpec.view].  The host is little endian and the kernel's log is left out.

    ** Fuel

    [GetTLV]: its 16-bit position can wrap around.  The fuel is [messageLen + 1]
    iterations; [GobiQmi.Qmi.GetTLV_fuel_exact] proves that a search that needs
    more never ends.  [Smsg.process_loop] has as many turns as a transmit ring has
    slots.  [Sbuf.write_loop] and [Sbuf.read_loop] have two turns, one for each
    part of a buffer that wraps around.  The loops of [MhiXfer] over a ring
    ([complete_loop], [reset_loop], [stale_loop], the event loops) have a turn per
    element.  [SmsgLink.smsg_link_refines], [SbufLink.sbuf_link_refines],
    [MhiRefine.channels_refine_queues] and [MhiEvents.data_events_in_order] prove
    that the runs end; [MhiProps.stray_event_never_ends] that beyond their
    hypotheses no fuel is enough.  In [QmiDev] and [QmiClient] a loop that empties
    a list has a turn more than the list has elements, [callback_fuel] a turn more
    than there are messages, [ReadSync_loop] a turn per wait of the environment
    and one more, [QMIReady_loop] a turn per interval of its timeout;
    [QmiProps.QMIWDSCallback_drains], [QmiRelease.ReleaseClientID_cleanup_spec]
    and [QmiExchange.GetClientID_exchange] prove that they end.  [GobiNet.tx_agg_loop]
    has two turns, since the second finds nothing waiting ([GobiProps.tx_groups]);
    [GobiDrv.rx_frames] a turn per byte of the buffer, of which every turn takes four
    at least ([GobiProps.rx_handler_ends]).  In the connection manager
    [CmMsg.GetTLV_search] has a turn per byte of the message and one more, of
    which each TLV takes three at least ([CmWire.GetTLV_search_ends]),
    [sys_info_loop] likewise; [get_profile] and [sim_loop], which the modem can
    keep going, and [main_loop], which ends only on a signal, have their turns as
    arguments, and the theorems hold for any number of them.  The other loops are structural: over a
    buffer, a pool, a format string, the slots of an array, or the ticks of a timed
    wait.

    ** What the theorems show

    - Messages ([GobiQmi]): every builder writes exactly the specified bytes
      ([fill_spec]) and refuses a short buffer ([fill_refuses_short_buffers],
      with the exception that [data_format_qmap_overflows] exhibits); what is
      built is found again by the search ([request_roundtrip],
      [QMUX_roundtrip]); every response parser returns the values of the TLVs of
      any well-formed response and the documented errors otherwise (the
      [..._spec] theorems).  [GetTLV_hangs] and [GetTLV_overread] show what an
      ill-formed message does.
    - Registers ([FifoPhy]): every field that can be set reads back and leaves
      the other fields alone ([phy_set_get]), refuses values that do not fit
      ([phy_set_refuses]); the interrupt bits, the addresses, the flow control,
      and the accessors that fall outside this scheme.
    - FIFOs ([FifoHal]): opening gives an empty FIFO with the configured depths
      and addresses ([open_spec]); nodes are appended to the receive ring in
      order, at most as many as fit, across the end of the array
      ([put_node_to_rx_fifo_spec], [set_rx_fifo_wr_spec]); consuming advances
      the transmit ring ([tx_consume_spec]); invalid identifiers change nothing
      ([invalid_id_spec]); the functions whose checks are inverted.
    - Rings and block channels: [RecvRing.recv_ring_refines_queue] relates the
      buffer ring to a bounded queue.  [SblockLink.init_link_rep] and
      [SblockLink.link_refines_channel] show that the two ends of a channel, from
      their initialisation on, behave as one abstract channel in which every
      block is free, held by one user, or queued, through any number of 32-bit
      overflows; [SblockRecover.recover_spec], [SblockRecover.resource_balance],
      [SblockLink.ringpos_consecutive_iff] cover recovery, the memory resource
      and the choice of the block count; [SblockRecover.timed_get_ignores_idle]
      and [SblockRecover.recover_hands_out_held_block] two flaws.
    - Messages between processors: [SmsgLink.smsg_link_refines] relates two
      processors to an abstract wire, [SmsgProps.smsg_channel_fifo] derives the
      order on one channel, [SmsgProps.smsg_channels_invariant] the soundness of
      the table under any sequence of calls, [SmsgProps.channel2index_spec] the
      index of channels; [SmsgProps.smsg_ch_open_waits] and
      [SmsgProps.invalid_channel_out_of_bounds] are flaws.
    - Byte streams: [SbufProps.sbuf_create_rep] and [SbufLink.sbuf_link_refines]
      relate two ends to two bounded streams, [SbufProps.sbuf_stream_bytes]
      concludes that what is read is what was written; then reopening
      ([SbufProps.sbuf_reopen_spec]), balanced resources
      ([SbufProps.sbuf_create_balanced]) and two flaws.
    - Power management: [PowerProps.power_manager_invariant] (the counts of
      managers, sources and wake locks agree after any sequence of events, and
      the modem is busy while one is used),
      [PowerProps.wakelock_period_spec], and flaws: [PowerProps.destroy_leaks_power],
      [PowerProps.deactive_timer_runs_early], [PowerProps.overlapping_relaxes] (the
      race on [awake], which [PowerInv.run_event] excludes) and
      [PowerProps.request_lost_to_timer].
    - Modem Host Interface: [MhiPmProps.tryset_documented] compares the table of
      transitions with its documentation; [MhiSafe.register_writes_allowed]
      bounds the register accesses of its list of operations, with the
      exception of [MhiSafe.wake_doorbell_on_dead_link];
      [MhiRefine.channels_refine_queues] relates the channels to bounded queues
      while clients and device keep to the contract [MhiRefine.legal],
      [MhiEvents.data_events_in_order] carries this to the event rings,
      [MhiStart.prepare_channel_starts] and [MhiStart.prepare_channel_fails] to
      the start of a channel (up to the device's answer, on the failing side);
      [MhiProps.stray_event_never_ends] shows what an event outside the contract
      does.
    - Clients of the GobiNet driver: [QmiInv.client_table_invariant] (any sequence
      of calls, with anything happening while a call sleeps, keeps the table well
      formed and gives the lock back); [QmiExchange.GetClientID_exchange] (a
      request, from the caller to the wire and back);
      [QmiProps.ReadCallback_delivers]; [QmiWait.no_lost_wakeup] (a thread whose
      message has arrived does not sleep on, in any interleaving), with the
      exception [QmiWait.mixed_waiters_lost_wakeup];
      [QmiRelease.ReleaseClientID_cleanup_spec]; [QmiProps.QMIWDSCallback_drains];
      the error paths [QmiProps.ReadSync_gives_up] and
      [QmiProps.StartRead_all_or_nothing].
    - Network device of the GobiNet driver: [GobiProps.tx_groups] (whatever the order
      of transmissions, timers and works, what is sent are the frames of the channels
      in order, in groups within the negotiated limits, and what waits is going to be
      sent); [GobiProps.qmap_loopback] joins transmission and reception;
      [GobiProps.register_channels] leads to their hypotheses;
      [GobiProps.rx_handler_ends]; [GobiProps.link_state_invariant];
      [GobiProps.release_wakes_channels].  Flaws: [GobiProps.rx_header_unchecked],
      [GobiProps.too_many_channels], [GobiProps.removed_channel_fault],
      [GobiProps.agg_work_wakes_nobody], [GobiProps.probe_without_memory].
    - Connection manager: [CmProps.link_invariant] (the DHCP client runs exactly for
      the state of the link, in every state of the whole program, and the link is
      down at its end) and [CmProps.check_follows_calls] (the link follows the data
      calls); [CmProps.dial_connects] (with a modem that answers a call is set
      up); [CmProps.redial_backoff]; [CmProps.response_matches];
      [CmProps.composed_well_formed] and [CmProps.start_request_roundtrip] on the
      messages.  Flaws: [CmProps.start_request_overflow],
      [CmProps.redial_after_wrap], [CmProps.hangup_reported_connected],
      [CmProps.profile_timeout_fault].
    - AT responses ([AtTok]): [scanf_roundtrip] reads back every line of
      integers, hexadecimal numbers, booleans and quoted strings that was
      printed for its format; [scanf_safe] bounds its conversions.

    ** Not modelled

    In the modelled files: debugfs and statistics; the creation and destruction
    of channel managers and the channel thread of [sblock.c]; the mailbox variant
    of [smsg.c]; skb allocation and threads of [sipa_skb_recv.c]; power-up,
    firmware download, device creation, time synchronisation, the monitor and
    bounce buffers of the MHI core; and that the strings returned by
    [at_tok_scanf] live in a static buffer; in [QMIDevice.c] the wait for the users
    of the character device at the end of the removal; in [GobiUSBNet.c] the binding
    to USB endpoints; and variants for old kernels or with macros that are not
    defined; in [power_manager.c] the windows inside an unlocked test and change
    of [awake] or [active_cnt]; in [mhi_pm.c] [mhi_async_power_up],
    [mhi_force_rddm_mode] and the windows inside an operation; in the connection
    manager the MBIM and AT backends but for the tokenizer, the GobiNet transport
    ([GobiNetCM.c]), the proxies, [udhcpc.c], the detection of devices, the command
    line and [main], the kernel's sockets and threads, and what is compiled only
    with a [CONFIG_] macro that is off by default.  Other parts of the repository -
    USB, PCI and network-device glue, the other daemons, the user interface and
    third-party code - are not modelled. *)

From stdpp Require Export base tactics list list_numbers numbers option finite.
From Stdlib Require Export ZArith Lia.

Declare Scope c_scope.
Delimit Scope c_scope with c.

(** ** C notations and machine integers *)

Notation "x &' y" := (Z.land x y) (at level 40, left associativity) : c_scope.
Notation "x |' y" := (Z.lor x y) (at level 50, left associativity) : c_scope.

#[local] Open Scope Z_scope.
#[local] Open Scope c_scope.

(** Conversions to the unsigned and signed types of the code: the value modulo
    [2^w], the signed ones in two's complement. *)
Definition u8 (x : Z) : Z := x mod 2 ^ 8.
Definition u16 (x : Z) : Z := x mod 2 ^ 16.
Definition u32 (x : Z) : Z := x mod 2 ^ 32.
Definition s8 (x : Z) : Z := (x + 2 ^ 7) mod 2 ^ 8 - 2 ^ 7.
Definition s32 (x : Z) : Z := (x + 2 ^ 31) mod 2 ^ 32 - 2 ^ 31.

(** The errno values the modelled functions return (negated). *)
Definition EIO : Z := 5.
Definition EAGAIN : Z := 11.
Definition ENOMEM : Z := 12.
Definition EFAULT : Z := 14.
Definition EBUSY : Z := 16.
Definition ENODEV : Z := 19.
Definition EINVAL : Z := 22.
Definition ENOSPC : Z := 28.
Definition ENOMSG : Z := 42.
Definition ENODATA : Z := 61.
Definition ETIME : Z := 62.

(** ** Results of a run

    A C function that reads and writes through pointers either finishes with
    a value, or accesses memory outside the object it was given (undefined
    behaviour), or, for a loop whose exit is not guaranteed, uses up the fuel
    it was run with. *)
Inductive outcome (A : Type) : Type :=
| Done (a : A)
| OutOfBounds
| OutOfFuel.
Arguments Done {A} a.
Arguments OutOfBounds {A}.
Arguments OutOfFuel {A}.

#[export] Instance outcome_ret : MRet outcome := @Done.
#[export] Instance outcome_bind : MBind outcome := λ A B f m,
  match m with
  | Done a => f a
  | OutOfBounds => OutOfBounds
  | OutOfFuel => OutOfFuel
  end.
#[export] Instance outcome_eq_dec `{EqDecision A} : EqDecision (outcome A).
Proof. solve_decision. Defined.

Lemma outcome_bind_Done {A B} (a : A) (f : A → outcome B) : Done a ≫= f = f a.
Proof. reflexivity. Qed.

Lemma outcome_bind_assoc {A B C} (m : outcome A) (f : A → outcome B) (g : B → outcome C) :
  (m ≫= f) ≫= g = m ≫= (λ a, f a ≫= g).
Proof. by destruct m. Qed.

Lemma outcome_bind_inv {A B} (m : outcome A) (f : A → outcome B) b :
  m ≫= f = Done b → ∃ a, m = Done a ∧ f a = Done b.
Proof. destruct m; naive_solver. Qed.

(** ** Byte buffers

    An object in memory is the list of its bytes, each in [0, 256); an access
    at an offset outside the list is [OutOfBounds]. *)
Definition bytes_ok (b : list Z) : Prop := Forall (λ x, 0 ≤ x < 256) b.

Definition in_range (b : list Z) (off n : Z) : bool :=
  (0 <=? off) && (off + n <=? Z.of_nat (length b)).

Definition get_bytes (b : list Z) (off n : Z) : outcome (list Z) :=
  if in_range b off n
  then Done (take (Z.to_nat n) (drop (Z.to_nat off) b)) else OutOfBounds.

Definition put_bytes (b : list Z) (off : Z) (bs : list Z) : outcome (list Z) :=
  if in_range b off (Z.of_nat (length bs))
  then Done (take (Z.to_nat off) b ++ bs ++ drop (Z.to_nat off + length bs) b)
  else OutOfBounds.

(** Little-endian images of integers. *)
Fixpoint le_bytes (n : nat) (v : Z) : list Z :=
  match n with
  | O => []
  | S n => v mod 256 :: le_bytes n (v / 256)
  end.

Fixpoint le_val (bs : list Z) : Z :=
  match bs with
  | [] => 0
  | b :: bs => b + 256 * le_val bs
  end.

Definition get8 (b : list Z) (off : Z) : outcome Z :=
  bs ← get_bytes b off 1; Done (le_val bs).
Definition get_le16 (b : list Z) (off : Z) : outcome Z :=
  bs ← get_bytes b off 2; Done (le_val bs).

Definition put8 (b : list Z) (off v : Z) : outcome (list Z) :=
  put_bytes b off (le_bytes 1 v).
Definition put_le16 (b : list Z) (off v : Z) : outcome (list Z) :=
  put_bytes b off (le_bytes 2 v).
Definition put_le32 (b : list Z) (off v : Z) : outcome (list Z) :=
  put_bytes b off (le_bytes 4 v).

(** ** Tactics *)

(** Case analysis on the tests of the code, with the arithmetic facts. *)
Ltac case_bools :=
  repeat match goal with
  | |- context [?a <? ?b] => destruct (Z.ltb_spec a b)
  | |- context [?a <=? ?b] => destruct (Z.leb_spec a b)
  | |- context [?a =? ?b] => destruct (Z.eqb_spec a b)
  end.

Ltac bool_to_prop :=
  repeat match goal with
  | H : (_ && _)%bool = true |- _ => apply andb_true_iff in H as [? ?]
  | H : (_ && _)%bool = false |- _ => apply andb_false_iff in H
  | H : (_ || _)%bool = false |- _ => apply orb_false_iff in H as [? ?]
  | H : (_ || _)%bool = true |- _ => apply orb_true_iff in H
  | H : negb _ = true |- _ => apply negb_true_iff in H
  | H : negb _ = false |- _ => apply negb_false_iff in H
  | H : (_ <? _) = true |- _ => apply Z.ltb_lt in H
  | H : (_ <? _) = false |- _ => apply Z.ltb_ge in H
  | H : (_ <=? _) = true |- _ => apply Z.leb_le in H
  | H : (_ <=? _) = false |- _ => apply Z.leb_gt in H
  | H : (_ =? _) = true |- _ => apply Z.eqb_eq in H
  | H : (_ =? _) = false |- _ => apply Z.eqb_neq in H
  end.

(** ** Lemmas on machine integers *)

Lemma u8_range x : 0 ≤ u8 x < 256.
Proof. apply Z.mod_pos_bound; lia. Qed.
Lemma u16_range x : 0 ≤ u16 x < 65536.
Proof. apply Z.mod_pos_bound; lia. Qed.
Lemma u32_range x : 0 ≤ u32 x < 4294967296.
Proof. apply Z.mod_pos_bound; lia. Qed.
Lemma s32_range x : -2147483648 ≤ s32 x < 2147483648.
Proof. unfold s32. pose proof (Z.mod_pos_bound (x + 2 ^ 31) (2 ^ 32)). lia. Qed.

Lemma u8_small x : 0 ≤ x < 256 → u8 x = x.
Proof. apply Z.mod_small. Qed.
Lemma u16_small x : 0 ≤ x < 65536 → u16 x = x.
Proof. apply Z.mod_small. Qed.
Lemma u32_small x : 0 ≤ x < 4294967296 → u32 x = x.
Proof. apply Z.mod_small. Qed.
Lemma s32_small x : -2147483648 ≤ x < 2147483648 → s32 x = x.
Proof. intros. unfold s32. rewrite Z.mod_small; lia. Qed.

(** ** Lemmas on buffers *)

Create HintDb buf.

Lemma length_le_bytes n v : length (le_bytes n v) = n.
Proof. revert v; induction n; intros; simpl; auto. Qed.

Lemma le_bytes_ok n v : bytes_ok (le_bytes n v).
Proof.
  revert v; induction n; intros; constructor; [|apply IHn].
  apply Z.mod_pos_bound; lia.
Qed.

Lemma le_val_le_bytes n v : le_val (le_bytes n v) = v mod 2 ^ (8 * Z.of_nat n).
Proof.
  revert v; induction n as [|n IH]; intros v.
  { simpl. by rewrite Z.mod_1_r. }
  simpl le_val. rewrite IH.
  replace (8 * Z.of_nat (S n)) with (8 + 8 * Z.of_nat n) by lia.
  rewrite Z.pow_add_r, Z.rem_mul_r by (try apply Z.pow_nonzero; lia). done.
Qed.

Lemma le_val_range bs : bytes_ok bs → 0 ≤ le_val bs < 2 ^ (8 * Z.of_nat (length bs)).
Proof.
  induction 1 as [|b bs Hb _ IH]; [simpl; lia|].
  simpl length. replace (8 * Z.of_nat (S (length bs))) with (8 + 8 * Z.of_nat (length bs)) by lia.
  rewrite Z.pow_add_r by lia. simpl le_val. nia.
Qed.

Lemma le_bytes_le_val bs : bytes_ok bs → le_bytes (length bs) (le_val bs) = bs.
Proof.
  induction 1 as [|b bs Hb _ IH]; [done|]. simpl.
  rewrite (Z.mul_comm 256), Z_mod_plus_full, Z.mod_small by lia.
  rewrite Z.div_add, Z.div_small by lia. by rewrite Z.add_0_l, IH.
Qed.

Lemma bytes_ok_app b1 b2 : bytes_ok (b1 ++ b2) ↔ bytes_ok b1 ∧ bytes_ok b2.
Proof. apply Forall_app. Qed.

Lemma bytes_ok_take n b : bytes_ok b → bytes_ok (take n b).
Proof. apply Forall_take. Qed.
Lemma bytes_ok_drop n b : bytes_ok b → bytes_ok (drop n b).
Proof. apply Forall_drop. Qed.

Lemma bytes_ok_cons x b : 0 ≤ x < 256 → bytes_ok b → bytes_ok (x :: b).
Proof. by constructor. Qed.
Lemma bytes_ok_nil : bytes_ok [].
Proof. constructor. Qed.
Lemma bytes_ok_app_2 b1 b2 : bytes_ok b1 → bytes_ok b2 → bytes_ok (b1 ++ b2).
Proof. intros. by apply Forall_app. Qed.

#[export] Hint Resolve le_bytes_ok bytes_ok_app_2 bytes_ok_nil bytes_ok_take bytes_ok_drop : buf.
#[export] Hint Extern 1 (bytes_ok (_ :: _)) => apply bytes_ok_cons; [lia|] : buf.

Lemma in_range_true b off n :
  in_range b off n = true ↔ 0 ≤ off ∧ off + n ≤ Z.of_nat (length b).
Proof. unfold in_range. rewrite andb_true_iff, !Z.leb_le. done. Qed.

Lemma put_bytes_Done b off bs :
  0 ≤ off → off + Z.of_nat (length bs) ≤ Z.of_nat (length b) →
  put_bytes b off bs =
    Done (take (Z.to_nat off) b ++ bs ++ drop (Z.to_nat off + length bs) b).
Proof. intros. unfold put_bytes. by rewrite (proj2 (in_range_true _ _ _)). Qed.

Lemma get_bytes_Done b off n :
  0 ≤ off → off + n ≤ Z.of_nat (length b) →
  get_bytes b off n = Done (take (Z.to_nat n) (drop (Z.to_nat off) b)).
Proof. intros. unfold get_bytes. by rewrite (proj2 (in_range_true _ _ _)). Qed.

Lemma get_bytes_oob b off n :
  0 ≤ off → Z.of_nat (length b) < off + n → get_bytes b off n = OutOfBounds.
Proof.
  intros. unfold get_bytes, in_range.
  replace (off + n <=? _) with false by lia. by rewrite andb_false_r.
Qed.

Lemma put_bytes_length b off bs b' :
  put_bytes b off bs = Done b' → length b' = length b.
Proof.
  unfold put_bytes. destruct (in_range _ _ _) eqn:E; intros; simplify_eq.
  apply in_range_true in E. rewrite !length_app, length_take, length_drop. lia.
Qed.

(** Two stores at adjacent offsets are one store of the concatenation. *)
Lemma put_bytes_app b off bs1 bs2 :
  0 ≤ off →
  off + Z.of_nat (length bs1) + Z.of_nat (length bs2) ≤ Z.of_nat (length b) →
  (b' ← put_bytes b off bs1; put_bytes b' (off + Z.of_nat (length bs1)) bs2)
  = put_bytes b off (bs1 ++ bs2).
Proof.
  intros. rewrite (put_bytes_Done b off bs1), outcome_bind_Done by lia.
  rewrite !put_bytes_Done;
    rewrite ?length_app, ?length_take, ?length_drop; try lia.
  f_equal. replace (Z.to_nat (off + Z.of_nat (length bs1)))
    with (Z.to_nat off + length bs1)%nat by lia.
  rewrite (app_assoc _ bs1), take_app_le by (rewrite length_app, length_take; lia).
  rewrite take_ge by (rewrite length_app, length_take; lia).
  rewrite <- !app_assoc. do 3 f_equal.
  rewrite !drop_app, !length_take, drop_drop.
  rewrite (drop_ge (take _ _)), (drop_ge bs1) by (rewrite ?length_take; lia).
  simpl. f_equal. lia.
Qed.

(** A store is undone by reading the same range. *)
Lemma get_put_bytes b off bs b' :
  put_bytes b off bs = Done b' →
  get_bytes b' off (Z.of_nat (length bs)) = Done bs.
Proof.
  intros Hp. pose proof (put_bytes_length _ _ _ _ Hp) as Hl.
  unfold put_bytes in Hp. destruct (in_range _ _ _) eqn:E; simplify_eq.
  apply in_range_true in E as [??].
  rewrite get_bytes_Done by lia. f_equal.
  rewrite Nat2Z.id, drop_app_le, drop_ge by (rewrite length_take; lia).
  simpl. by rewrite take_app_length.
Qed.

Lemma put_bytes_bind_app {A} b off off' bs1 bs2 (k : list Z → outcome A) :
  0 ≤ off → off' = off + Z.of_nat (length bs1) →
  off' + Z.of_nat (length bs2) ≤ Z.of_nat (length b) →
  (b' ← put_bytes b off bs1; b'' ← put_bytes b' off' bs2; k b'')
  = (b'' ← put_bytes b off (bs1 ++ bs2); k b'').
Proof.
  intros ? -> ?. rewrite <- put_bytes_app by lia. by rewrite outcome_bind_assoc.
Qed.

Lemma put_bytes_app' b off off' bs1 bs2 :
  0 ≤ off → off' = off + Z.of_nat (length bs1) →
  off' + Z.of_nat (length bs2) ≤ Z.of_nat (length b) →
  (b' ← put_bytes b off bs1; put_bytes b' off' bs2) = put_bytes b off (bs1 ++ bs2).
Proof. intros ? -> ?. by apply put_bytes_app. Qed.

(** A chain of stores faults as soon as its continuation does on every buffer
    of the same size. *)
Lemma put_bytes_bind_oob {A} b off bs (k : list Z → outcome A) :
  (∀ b', length b' = length b → k b' = OutOfBounds) →
  put_bytes b off bs ≫= k = OutOfBounds.
Proof.
  intros Hk. destruct (put_bytes b off bs) as [b'| |] eqn:E; simpl; [|done|].
  - apply Hk. by eapply put_bytes_length.
  - unfold put_bytes in E. by case_match.
Qed.

Lemma put_bytes_oob b off bs :
  Z.of_nat (length b) < off + Z.of_nat (length bs) → put_bytes b off bs = OutOfBounds.
Proof.
  intros. unfold put_bytes, in_range.
  replace (off + _ <=? _) with false by lia. by rewrite andb_false_r.
Qed.

(** [merge_puts] turns a chain of stores at adjacent offsets into one store. *)
Ltac merge_puts :=
  unfold put8, put_le16, put_le32;
  repeat (rewrite put_bytes_bind_app;
    [| lia
     | rewrite ?length_app, ?length_le_bytes; lia
     | rewrite ?length_app, ?length_le_bytes; lia ]).

(** Reading a range of a buffer given in pieces. *)
Lemma get_bytes_app_mid pre mid rest off n :
  off = Z.of_nat (length pre) → n = Z.of_nat (length mid) →
  get_bytes (pre ++ mid ++ rest) off n = Done mid.
Proof.
  intros -> ->. rewrite get_bytes_Done by (rewrite ?length_app; lia).
  by rewrite !Nat2Z.id, drop_app_length, take_app_length.
Qed.

Lemma get_bytes_app_front mid rest n :
  n = Z.of_nat (length mid) → get_bytes (mid ++ rest) 0 n = Done mid.
Proof. intros. by apply (get_bytes_app_mid [] mid). Qed.

(** Accesses inside a known prefix do not depend on the rest. *)
Lemma get_bytes_prefix p rest off n :
  0 ≤ off → 0 ≤ n → off + n ≤ Z.of_nat (length p) →
  get_bytes (p ++ rest) off n = get_bytes p off n.
Proof.
  intros. rewrite !get_bytes_Done by (rewrite ?length_app; lia).
  by rewrite drop_app_le, take_app_le by (rewrite ?length_drop; lia).
Qed.
Lemma get8_prefix p rest off :
  0 ≤ off → off + 1 ≤ Z.of_nat (length p) → get8 (p ++ rest) off = get8 p off.
Proof. intros. unfold get8. by rewrite get_bytes_prefix. Qed.
Lemma get_le16_prefix p rest off :
  0 ≤ off → off + 2 ≤ Z.of_nat (length p) → get_le16 (p ++ rest) off = get_le16 p off.
Proof. intros. unfold get_le16. by rewrite get_bytes_prefix. Qed.

Lemma put_bytes_whole bs b n :
  length bs = n → (n ≤ length b)%nat →
  put_bytes b 0 bs = Done (bs ++ drop n b).
Proof. intros <- ?. rewrite put_bytes_Done by lia. done. Qed.

(** ** Loops as iterated partial functions

    [f x = Some y] when the body run in state [x] continues with [y], [None]
    when it leaves the loop. *)
Section Loops.
Context (f : Z → option Z).

Fixpoint iterate (n : nat) (x : Z) : option Z :=
  match n with
  | O => Some x
  | S n => y ← f x; iterate n y
  end.

Lemma iterate_S n x : iterate (S n) x = y ← f x; iterate n y.
Proof. done. Qed.

Lemma iterate_add a b x : iterate (a + b) x = iterate a x ≫= iterate b.
Proof.
  revert x; induction a as [|a IH]; intros x; [done|].
  simpl. destruct (f x) as [y|]; simpl; [apply IH|done].
Qed.

Lemma iterate_le m n x : (m ≤ n)%nat → is_Some (iterate n x) → is_Some (iterate m x).
Proof.
  intros ? Hn. replace n with (m + (n - m))%nat in Hn by lia.
  rewrite iterate_add in Hn. destruct (iterate m x); [done|by destruct Hn].
Qed.

(** A state that recurs makes the loop run forever. *)
Lemma iterate_cycle i j x y :
  (i < j)%nat → iterate i x = Some y → iterate j x = Some y →
  ∀ m, is_Some (iterate m x).
Proof.
  intros Hij Hi Hj m. induction (lt_wf m) as [m _ IH].
  destruct (decide (m ≤ j)%nat) as [Hle|Hgt].
  { apply (iterate_le m j x); [done|by rewrite Hj]. }
  replace m with (j + (m - j))%nat by lia.
  rewrite iterate_add, Hj. simpl.
  destruct (IH (i + (m - j))%nat) as [z Hz]; [lia|].
  rewrite iterate_add, Hi in Hz. simpl in Hz. by rewrite Hz.
Qed.

(** When every state the loop continues from is in [0, N), a run of more
    than [N] iterations never ends. *)
Lemma iterate_forever (N : nat) x :
  (∀ y, is_Some (f y) → 0 ≤ y < Z.of_nat N) →
  is_Some (iterate (S N) x) → ∀ m, is_Some (iterate m x).
Proof.
  intros HN Hrun.
  assert (∀ i, (i < S N)%nat → ∃ y, iterate i x = Some y ∧ 0 ≤ y < Z.of_nat N) as Hst.
  { intros i Hi. destruct (iterate_le i (S N) x) as [y Hy]; [lia|done|].
    exists y; split; [done|]. apply HN.
    destruct (iterate_le (i + 1)%nat (S N) x) as [z Hz]; [lia|done|].
    rewrite iterate_add, Hy in Hz. simpl in Hz. by destruct (f y). }
  destruct (nat_pigeonhole (λ i, Z.to_nat (default 0 (iterate i x))) (S N) N)
    as (i & j & Hij & Heq).
  { lia. }
  { intros i Hi. destruct (Hst i Hi) as (y & -> & ?). simpl. lia. }
  destruct (Hst i) as (y & Hy & ?); [lia|].
  destruct (Hst j) as (z & Hz & ?); [lia|].
  rewrite Hy, Hz in Heq. simpl in Heq. assert (y = z) as <- by lia.
  apply (iterate_cycle i j x y); [lia|done|done].
Qed.
End Loops.
