(* ===== verification/Kernel.v ===== *)
(** * Stateful code and kernel services

    What the components of the SIPC layer share: a monad of state and outcome
    for code that reads and writes shared structures, two logics for it
    ([runs]: the code ends and its result is right; [ends]: if it ends, its
    result is right), and the kernel's interruptible waits. *)

From S2P Require Import Prelude.

#[local] Open Scope Z_scope.

(** ** The monad *)

Definition stm (S A : Type) : Type := S → outcome (A * S).
#[export] Instance stm_ret {S} : MRet (stm S) := λ A a s, Done (a, s).
#[export] Instance stm_bind {S} : MBind (stm S) := λ A B f m s,
  '(a, s') ← m s; f a s'.

#[export] Instance stm_fmap {S} : FMap (stm S) := λ A B f m, a ← m; mret (f a).

Definition get_state {S} : stm S S := λ s, Done (s, s).
Definition modify {S} (f : S → S) : stm S () := λ s, Done ((), f s).
Definition lift {S A} (m : outcome A) : stm S A := λ s, a ← m; Done (a, s).

(** A call whose result is not used. *)
Definition ignore {S A} (prog : stm S A) : stm S () := prog;; mret ().

(** An access outside an object. *)
Definition fault {S A} : stm S A := λ _, OutOfBounds.

(** Code that does not come to an end. *)
Definition hang {S A} : stm S A := λ _, OutOfFuel.

(** [arr[pos]] is inside the array. *)
Definition check_index {S A} (arr : list A) (pos : Z) : stm S () :=
  if (0 <=? pos) && (pos <? Z.of_nat (length arr)) then mret () else fault.

(** ** Waits *)

Definition ERESTARTSYS : Z := 512.

(** What may happen during a wait: other contexts change the state and wake the
    sleeper, or a signal does. *)
Inductive wake (S : Type) := Wake (s : S) | Signal (s : S).
Arguments Wake {S}. Arguments Signal {S}.

Section Waits.
Context {S : Type} (cond : S → bool).

(** [wait_event_interruptible]: 0 once the condition holds, [-ERESTARTSYS] on a
    signal; a wait that nothing ends is [OutOfFuel]. *)
Fixpoint wait_event_interruptible (h : list (wake S)) : stm S Z := λ w,
  if cond w then Done (0, w) else
  match h with
  | [] => OutOfFuel
  | Wake w' :: h => wait_event_interruptible h w'
  | Signal w' :: _ => if cond w' then Done (0, w') else Done (- ERESTARTSYS, w')
  end.

(** [wait_event_interruptible_timeout]: the time left (at least 1) once the
    condition holds, 0 when the time is up; one tick passes per event. *)
Fixpoint wait_event_interruptible_timeout (h : list (wake S)) (timeout : nat) : stm S Z := λ w,
  if cond w then Done (Z.max 1 (Z.of_nat timeout), w) else
  match timeout, h with
  | O, _ => Done (0, w)
  | Datatypes.S t, [] => Done (0, w)
  | Datatypes.S t, Wake w' :: h => wait_event_interruptible_timeout h t w'
  | Datatypes.S t, Signal w' :: _ =>
    if cond w' then Done (Z.max 1 (Z.of_nat t), w') else Done (- ERESTARTSYS, w')
  end.

(** [wait_event_timeout]: the same, without signals. *)
Fixpoint wait_event_timeout (h : list S) (timeout : nat) : stm S Z := λ w,
  if cond w then Done (Z.max 1 (Z.of_nat timeout), w) else
  match timeout, h with
  | Datatypes.S t, w' :: h => wait_event_timeout h t w'
  | _, _ => Done (0, w)
  end.

Lemma wait_now h w : cond w = true → wait_event_interruptible h w = Done (0, w).
Proof. intros Hw. by destruct h; simpl; rewrite Hw. Qed.

Lemma wait_timeout_now h t w :
  cond w = true → wait_event_interruptible_timeout h t w = Done (Z.max 1 (Z.of_nat t), w).
Proof. intros Hw. by destruct h, t; simpl; rewrite Hw. Qed.

(** A wait that ends with 0 has met its condition. *)
Lemma wait_met h w w' : wait_event_interruptible h w = Done (0, w') → cond w' = true.
Proof.
  revert w. induction h as [|[s|s] h IH]; intros w; simpl; destruct (cond w) eqn:E.
  - by intros [= <-].
  - done.
  - by intros [= <-].
  - apply IH.
  - by intros [= <-].
  - destruct (cond s) eqn:E'; [by intros [= <-]|done].
Qed.
End Waits.

(** ** Total correctness

    [runs m w Φ]: from [w], [m] ends without leaving memory, with a result and
    a state that satisfy [Φ]. *)

Definition runs {S A} (m : stm S A) (w : S) (Φ : A → S → Prop) : Prop :=
  ∃ a w', m w = Done (a, w') ∧ Φ a w'.

Section Runs.
Context {S : Type}.
Implicit Types w : S.

Lemma runs_ret {A} (a : A) w (Φ : A → S → Prop) : Φ a w → runs (mret a) w Φ.
Proof. intros. by exists a, w. Qed.

Lemma runs_bind {A B} (m : stm S A) (f : A → stm S B) w Φ :
  runs m w (λ a w', runs (f a) w' Φ) → runs (m ≫= f) w Φ.
Proof.
  intros (a&w'&E&b&w''&E'&HΦ). exists b, w''. split; [|done].
  unfold mbind, stm_bind. by rewrite E.
Qed.

Lemma runs_fmap {A B} (f : A → B) (m : stm S A) w (Φ : B → S → Prop) :
  runs m w (λ x w', Φ (f x) w') → runs (f <$> m) w Φ.
Proof.
  intros H. apply runs_bind. destruct H as (x & w' & E & H). exists x, w'.
  split; [done|]. by apply runs_ret.
Qed.

Lemma runs_exact {A} (m : stm S A) w a w' (Φ : A → S → Prop) :
  m w = Done (a, w') → Φ a w' → runs m w Φ.
Proof. intros. by exists a, w'. Qed.

Lemma runs_done {A} (m : stm S A) w a w' :
  runs m w (λ b w'', (b, w'') = (a, w')) → m w = Done (a, w').
Proof. by intros (b&w''&->&->). Qed.

Lemma runs_mono {A} (m : stm S A) w (Φ Ψ : A → S → Prop) :
  runs m w Φ → (∀ b w', Φ b w' → Ψ b w') → runs m w Ψ.
Proof. intros (b&w'&E&H) HΦ. exists b, w'. auto. Qed.

Lemma runs_lift {A} (o : outcome A) a w (Φ : A → S → Prop) :
  o = Done a → Φ a w → runs (lift o) w Φ.
Proof. intros -> ?. by exists a, w. Qed.

Lemma runs_get w (Φ : S → S → Prop) : Φ w w → runs get_state w Φ.
Proof. intros. by exists w, w. Qed.

Lemma runs_modify f w (Φ : () → S → Prop) : Φ () (f w) → runs (modify f) w Φ.
Proof. intros. by eexists _, _. Qed.

Lemma runs_check {A} (l : list A) pos w (Φ : () → S → Prop) :
  0 ≤ pos < Z.of_nat (length l) → Φ () w → runs (check_index l pos) w Φ.
Proof.
  intros Hp H. unfold check_index. rewrite (proj2 (Z.leb_le 0 _)), (proj2 (Z.ltb_lt _ _)) by lia.
  by apply runs_ret.
Qed.
End Runs.

(** ** Code that does not end *)

Definition hangs {S A} (m : stm S A) (w : S) : Prop := m w = OutOfFuel.

Lemma hangs_left {S A B} (m : stm S A) (f : A → stm S B) w : hangs m w → hangs (m ≫= f) w.
Proof. unfold hangs, mbind, stm_bind. by intros ->. Qed.

Lemma hangs_bind {S A B} (m : stm S A) (f : A → stm S B) w :
  runs m w (λ a w', hangs (f a) w') → hangs (m ≫= f) w.
Proof. intros (a & w' & E & H). unfold hangs, mbind, stm_bind. by rewrite E. Qed.

(** ** Partial correctness

    [ends m w Φ]: whenever [m] comes to an end from [w], the result and the
    state satisfy [Φ]. *)

Definition ends {S A} (m : stm S A) (w : S) (Φ : A → S → Prop) : Prop :=
  ∀ a w', m w = Done (a, w') → Φ a w'.

Section Ends.
Context {S : Type}.
Implicit Types w : S.

Lemma ends_ret {A} (a : A) w (Φ : A → S → Prop) : Φ a w → ends (mret a) w Φ.
Proof. intros ? b w' [= <- <-]. done. Qed.

Lemma ends_bind {A B} (m : stm S A) (f : A → stm S B) w Φ :
  ends m w (λ a w', ends (f a) w' Φ) → ends (m ≫= f) w Φ.
Proof.
  intros H b w'. unfold mbind, stm_bind. destruct (m w) as [[a w1]| |] eqn:E; [|done..].
  intros E'. by apply (H a w1).
Qed.

Lemma ends_get w (Φ : S → S → Prop) : Φ w w → ends get_state w Φ.
Proof. intros H a w' [= <- <-]. done. Qed.

Lemma ends_modify f w (Φ : () → S → Prop) : Φ () (f w) → ends (modify f) w Φ.
Proof. intros H a w' [= <- <-]. done. Qed.

Lemma ends_lift {A} (o : outcome A) w (Φ : A → S → Prop) :
  (∀ a, o = Done a → Φ a w) → ends (lift o) w Φ.
Proof. intros H a w' E. unfold lift in E. destruct o; [|done..]. injection E as <- <-. by apply H. Qed.

Lemma ends_fault {A} w (Φ : A → S → Prop) : ends fault w Φ.
Proof. by intros ? ?. Qed.

Lemma ends_mono {A} (m : stm S A) w (Φ Ψ : A → S → Prop) :
  ends m w Φ → (∀ b w', Φ b w' → Ψ b w') → ends m w Ψ.
Proof. intros H HΦ a w' E. auto. Qed.
End Ends.

(** ** Busy waiting *)

(** [while (!cond) ;]: other contexts change the state between two tests. *)
Fixpoint spin_until {S} (cond : S → bool) (h : list S) : stm S () := λ w,
  if cond w then Done ((), w) else
  match h with
  | [] => OutOfFuel
  | w' :: h => spin_until cond h w'
  end.

Lemma spin_now {S} (cond : S → bool) h w : cond w = true → spin_until cond h w = Done ((), w).
Proof. intros Hw. by destruct h; simpl; rewrite Hw. Qed.

(** ** Loops over a range *)

Fixpoint for_each {S A} (l : list A) (f : A → stm S ()) : stm S () :=
  match l with [] => mret () | x :: l => f x;; for_each l f end.

Lemma runs_for_each {S A} (l : list A) (f : A → stm S ()) (I : list A → S → Prop) w :
  I l w → (∀ x l w, I (x :: l) w → runs (f x) w (λ _ w', I l w')) →
  runs (for_each l f) w (λ _ w', I [] w').
Proof.
  intros Hw Hf. revert w Hw. induction l as [|x l IH]; intros w Hw; [by apply runs_ret|].
  apply runs_bind. eapply runs_mono; [by apply Hf|]. intros [] w'. apply IH.
Qed.
