(* ===== verification/GobiQmi.v ===== *)
(** * QMI messages of the GobiNet driver

    Model of [src/drivers/quectel-gobinet/src/QMI.c]: the QMUX header
    ([FillQMUX], [ParseQMUX]), the TLV search ([GetTLV]), the request builders
    and the response parsers.  A pointer argument is [None] for NULL and
    [Some bytes] otherwise, where [bytes] are the bytes that may be accessed
    through it; an access past them is [OutOfBounds].  The host is little
    endian, so an integer object and its little-endian image coincide. *)

From S2P Require Import Prelude.

#[local] Open Scope Z_scope.
#[local] Open Scope c_scope.

Module Qmi.

(** ** Sizes of the requests *)

Definition SIZEOF_QMUX : Z := 6.

Definition QMUXHeaderSize : Z := SIZEOF_QMUX.
Definition QMICTLGetClientIDReqSize : Z := SIZEOF_QMUX + 10.
Definition QMICTLReleaseClientIDReqSize : Z := SIZEOF_QMUX + 11.
Definition QMICTLReadyReqSize : Z := SIZEOF_QMUX + 6.
Definition QMIWDSSetEventReportReqSize : Z := SIZEOF_QMUX + 15.
Definition QMIWDSGetPKGSRVCStatusReqSize : Z := SIZEOF_QMUX + 7.
Definition QMIDMSGetMEIDReqSize : Z := SIZEOF_QMUX + 7.

(** The packed structures of the data-format request: sizes and the offset of
    each TLV in the message. *)
Definition SIZEOF_DATA_FORMAT_TLV_QOS : Z := 1 + 2 + 1.
Definition SIZEOF_DATA_FORMAT_TLV : Z := 1 + 2 + 4.
Definition SIZEOF_ENDPOINT_TLV : Z := 1 + 2 + 4 + 4.

Definition OFF_QosDataFormatTlv : Z := 1 + 2 + 2 + 2.
Definition OFF_UnderlyingLinkLayerProtocolTlv : Z :=
  OFF_QosDataFormatTlv + SIZEOF_DATA_FORMAT_TLV_QOS.
Definition OFF_UplinkDataAggregationProtocolTlv : Z :=
  OFF_UnderlyingLinkLayerProtocolTlv + SIZEOF_DATA_FORMAT_TLV.
Definition OFF_DownlinkDataAggregationProtocolTlv : Z :=
  OFF_UplinkDataAggregationProtocolTlv + SIZEOF_DATA_FORMAT_TLV.
Definition OFF_DownlinkDataAggregationMaxDatagramsTlv : Z :=
  OFF_DownlinkDataAggregationProtocolTlv + SIZEOF_DATA_FORMAT_TLV.
Definition OFF_DownlinkDataAggregationMaxSizeTlv : Z :=
  OFF_DownlinkDataAggregationMaxDatagramsTlv + SIZEOF_DATA_FORMAT_TLV.
Definition OFF_epTlv : Z :=
  OFF_DownlinkDataAggregationMaxSizeTlv + SIZEOF_DATA_FORMAT_TLV.
Definition OFF_dl_minimum_padding : Z := OFF_epTlv + SIZEOF_ENDPOINT_TLV.
Definition OFF_UplinkDataAggregationMaxDatagramsTlv : Z :=
  OFF_dl_minimum_padding + SIZEOF_DATA_FORMAT_TLV.
Definition OFF_UplinkDataAggregationMaxSizeTlv : Z :=
  OFF_UplinkDataAggregationMaxDatagramsTlv + SIZEOF_DATA_FORMAT_TLV.
Definition SIZEOF_SET_DATA_FORMAT_REQ_MSG : Z :=
  OFF_UplinkDataAggregationMaxSizeTlv + SIZEOF_DATA_FORMAT_TLV.

Definition QMIWDASetDataFormatReqSize (qmap_version : Z) : Z :=
  if negb (qmap_version =? 0)
  then SIZEOF_QMUX + SIZEOF_SET_DATA_FORMAT_REQ_MSG
  else SIZEOF_QMUX + 18.

Definition QMICTLSyncReqSize : Z := SIZEOF_QMUX + 6.

(** ** The QMUX header

    [sQMUX] is packed: mTF at 0, mLength at 1, mCtrlFlag at 3, mQMIService at
    4, mQMIClientID at 5. *)

(** The result is the return value and, when it is written, [*pClientID]. *)
Definition ParseQMUX (pBuffer : option (list Z)) (buffSize : Z)
  : outcome (Z * option Z) :=
  match pBuffer with
  | None => Done (- ENOMEM, None)
  | Some buf =>
    if buffSize <? 12 then Done (- ENOMEM, None) else
    mTF ← get8 buf 0;
    if negb (mTF =? 1) then Done (- EINVAL, None) else
    mLength ← get_le16 buf 1;
    if negb (mLength =? buffSize - 1) then Done (- EINVAL, None) else
    mCtrlFlag ← get8 buf 3;
    if negb (mCtrlFlag =? 0x80) then Done (- EINVAL, None) else
    mQMIClientID ← get8 buf 5;
    mQMIService ← get8 buf 4;
    Done (SIZEOF_QMUX, Some (u16 (mQMIClientID ≪ 8 + mQMIService)))
  end.

Definition FillQMUX (clientID : Z) (pBuffer : option (list Z)) (buffSize : Z)
  : outcome (Z * option (list Z)) :=
  match pBuffer with
  | None => Done (- ENOMEM, None)
  | Some buf =>
    if buffSize <? SIZEOF_QMUX then Done (- ENOMEM, Some buf) else
    b ← put8 buf 0 1;
    b ← put_le16 b 1 (buffSize - 1);
    b ← put8 b 3 0;
    b ← put8 b 4 (clientID &' 0xff);
    b ← put8 b 5 (clientID ≫ 8);
    Done (0, Some b)
  end.

(** ** Generic QMI functions *)

(** The copy loop of [GetTLV]: bytes [cpyCount .. cpyCount + n) of the value at
    [src] are copied one at a time. *)
Fixpoint GetTLV_copy (n : nat) (msg : list Z) (src cpyCount : Z) (out : list Z)
  : outcome (list Z) :=
  match n with
  | O => Done out
  | S n =>
    c ← get8 msg (src + cpyCount);
    out ← put8 out cpyCount c;
    GetTLV_copy n msg src (cpyCount + 1) out
  end.

(** The search loop; [pos] is a [u16]. *)
Fixpoint GetTLV_loop (fuel : nat) (msg : list Z) (messageLen type : Z)
    (out : list Z) (bufferLen pos : Z) : outcome (Z * list Z) :=
  match fuel with
  | O => OutOfFuel
  | S fuel =>
    if pos + 3 <? messageLen then
      tlvSize ← get_le16 msg (pos + 1);
      t ← get8 msg pos;
      if t =? type then
        if bufferLen <? tlvSize then Done (- ENOMEM, out)
        else
          out ← GetTLV_copy (Z.to_nat tlvSize) msg (pos + 3) 0 out;
          Done (tlvSize, out)
      else GetTLV_loop fuel msg messageLen type out bufferLen (u16 (pos + (tlvSize + 3)))
    else Done (- ENOMSG, out)
  end.

(** [messageLen] iterations are enough for every run that ends, see
    [GetTLV_fuel_exact]. *)
Definition GetTLV (pQMIMessage : option (list Z)) (messageLen type : Z)
    (pOutDataBuf : option (list Z)) (bufferLen : Z)
  : outcome (Z * option (list Z)) :=
  match pQMIMessage, pOutDataBuf with
  | Some msg, Some out =>
    '(r, out) ← GetTLV_loop (S (Z.to_nat messageLen)) msg messageLen type out bufferLen 4;
    Done (r, Some out)
  | _, _ => Done (- ENOMEM, pOutDataBuf)
  end.

(** [GetTLV] on a local array or an output object, which is never NULL. *)
Definition GetTLV_into (msg : list Z) (messageLen type : Z) (out : list Z)
    (bufferLen : Z) : outcome (Z * list Z) :=
  '(r, o) ← GetTLV (Some msg) messageLen type (Some out) bufferLen;
  Done (r, default out o).

(** The local [mandTLV] is only read after [GetTLV] has filled its 4 bytes.  It is an
    array of [char], so that [get_unaligned(&mandTLV[2])] is one byte, with its sign
    ([char] is signed on the hosts considered), which [le16_to_cpu] makes 16 bits wide. *)
Definition ValidQMIMessage (msg : list Z) (messageLen : Z) : outcome Z :=
  '(r, mandTLV) ← GetTLV_into msg messageLen 2 (replicate 4 0) 4;
  if r =? 4 then
    lo ← get_le16 mandTLV 0;
    if negb (lo =? 0) then c ← get8 mandTLV 2; Done (u16 (s8 c)) else Done 0
  else Done (- ENOMSG).

Definition GetQMIMessageID (msg : list Z) (messageLen : Z) : outcome Z :=
  if messageLen <? 2 then Done (- ENODATA) else get_le16 msg 0.

(** ** Filling buffers with QMI requests

    Each builder returns its return value and the buffer. *)

Definition fill_result : Type := outcome (Z * option (list Z)).

Definition QMICTLGetClientIDReq (pBuffer : option (list Z))
    (buffSize transactionID serviceType : Z) : fill_result :=
  match pBuffer with
  | None => Done (- ENOMEM, None)
  | Some b =>
    if buffSize <? QMICTLGetClientIDReqSize then Done (- ENOMEM, Some b) else
    b ← put8 b SIZEOF_QMUX 0x00;
    b ← put8 b (SIZEOF_QMUX + 1) transactionID;
    b ← put_le16 b (SIZEOF_QMUX + 2) 0x0022;
    b ← put_le16 b (SIZEOF_QMUX + 4) 0x0004;
    b ← put8 b (SIZEOF_QMUX + 6) 0x01;
    b ← put_le16 b (SIZEOF_QMUX + 7) 0x0001;
    b ← put8 b (SIZEOF_QMUX + 9) serviceType;
    Done (SIZEOF_QMUX + 10, Some b)
  end.

Definition QMICTLReleaseClientIDReq (pBuffer : option (list Z))
    (buffSize transactionID clientID : Z) : fill_result :=
  match pBuffer with
  | None => Done (- ENOMEM, None)
  | Some b =>
    if buffSize <? QMICTLReleaseClientIDReqSize then Done (- ENOMEM, Some b) else
    b ← put8 b SIZEOF_QMUX 0x00;
    b ← put8 b (SIZEOF_QMUX + 1) transactionID;
    b ← put_le16 b (SIZEOF_QMUX + 2) 0x0023;
    b ← put_le16 b (SIZEOF_QMUX + 4) 0x0005;
    b ← put8 b (SIZEOF_QMUX + 6) 0x01;
    b ← put_le16 b (SIZEOF_QMUX + 7) 0x0002;
    b ← put_le16 b (SIZEOF_QMUX + 9) clientID;
    Done (SIZEOF_QMUX + 11, Some b)
  end.

Definition QMICTLReadyReq (pBuffer : option (list Z)) (buffSize transactionID : Z)
  : fill_result :=
  match pBuffer with
  | None => Done (- ENOMEM, None)
  | Some b =>
    if buffSize <? QMICTLReadyReqSize then Done (- ENOMEM, Some b) else
    b ← put8 b SIZEOF_QMUX 0x00;
    b ← put8 b (SIZEOF_QMUX + 1) transactionID;
    b ← put_le16 b (SIZEOF_QMUX + 2) 0x0021;
    b ← put_le16 b (SIZEOF_QMUX + 4) 0x0000;
    Done (SIZEOF_QMUX + 6, Some b)
  end.

Definition QMIWDSSetEventReportReq (pBuffer : option (list Z))
    (buffSize transactionID : Z) : fill_result :=
  match pBuffer with
  | None => Done (- ENOMEM, None)
  | Some b =>
    if buffSize <? QMIWDSSetEventReportReqSize then Done (- ENOMEM, Some b) else
    b ← put8 b SIZEOF_QMUX 0x00;
    b ← put_le16 b (SIZEOF_QMUX + 1) transactionID;
    b ← put_le16 b (SIZEOF_QMUX + 3) 0x0001;
    b ← put_le16 b (SIZEOF_QMUX + 5) 0x0008;
    b ← put8 b (SIZEOF_QMUX + 7) 0x11;
    b ← put_le16 b (SIZEOF_QMUX + 8) 0x0005;
    b ← put8 b (SIZEOF_QMUX + 10) 0x01;
    b ← put_le32 b (SIZEOF_QMUX + 11) 0x000000ff;
    Done (SIZEOF_QMUX + 15, Some b)
  end.

Definition QMIWDSGetPKGSRVCStatusReq (pBuffer : option (list Z))
    (buffSize transactionID : Z) : fill_result :=
  match pBuffer with
  | None => Done (- ENOMEM, None)
  | Some b =>
    if buffSize <? QMIWDSGetPKGSRVCStatusReqSize then Done (- ENOMEM, Some b) else
    b ← put8 b SIZEOF_QMUX 0x00;
    b ← put_le16 b (SIZEOF_QMUX + 1) transactionID;
    b ← put_le16 b (SIZEOF_QMUX + 3) 0x0022;
    b ← put_le16 b (SIZEOF_QMUX + 5) 0x0000;
    Done (SIZEOF_QMUX + 7, Some b)
  end.

Definition QMIDMSGetMEIDReq (pBuffer : option (list Z)) (buffSize transactionID : Z)
  : fill_result :=
  match pBuffer with
  | None => Done (- ENOMEM, None)
  | Some b =>
    if buffSize <? QMIDMSGetMEIDReqSize then Done (- ENOMEM, Some b) else
    b ← put8 b SIZEOF_QMUX 0x00;
    b ← put_le16 b (SIZEOF_QMUX + 1) transactionID;
    b ← put_le16 b (SIZEOF_QMUX + 3) 0x0025;
    b ← put_le16 b (SIZEOF_QMUX + 5) 0x0000;
    Done (SIZEOF_QMUX + 7, Some b)
  end.

(** A [QMIWDS_ADMIN_SET_DATA_FORMAT_TLV] member of the message at [pMUXMsg]. *)
Definition put_data_format_tlv (b : list Z) (off type value : Z) : outcome (list Z) :=
  b ← put8 b (SIZEOF_QMUX + off) type;
  b ← put_le16 b (SIZEOF_QMUX + off + 1) 4;
  put_le32 b (SIZEOF_QMUX + off + 3) value.

(** The branch for a QMAP version: neither [pBuffer] nor [buffSize] is tested. *)
Definition QMIWDASetDataFormatReq_qmap (pBuffer : option (list Z))
    (qmap_version rx_size transactionID : Z) : fill_result :=
  match pBuffer with
  | None => OutOfBounds
  | Some b =>
    b ← put8 b SIZEOF_QMUX 0x00;
    b ← put_le16 b (SIZEOF_QMUX + 1) transactionID;
    b ← put_le16 b (SIZEOF_QMUX + 3) 0x0020;
    b ← put_le16 b (SIZEOF_QMUX + 5) (SIZEOF_SET_DATA_FORMAT_REQ_MSG - 7);
    b ← put8 b (SIZEOF_QMUX + OFF_QosDataFormatTlv) 0x10;
    b ← put_le16 b (SIZEOF_QMUX + OFF_QosDataFormatTlv + 1) 0x0001;
    b ← put8 b (SIZEOF_QMUX + OFF_QosDataFormatTlv + 3) 0;
    b ← put_data_format_tlv b OFF_UnderlyingLinkLayerProtocolTlv 0x11 0x02;
    b ← put_data_format_tlv b OFF_UplinkDataAggregationProtocolTlv 0x12 qmap_version;
    b ← put_data_format_tlv b OFF_DownlinkDataAggregationProtocolTlv 0x13 qmap_version;
    b ← put_data_format_tlv b OFF_DownlinkDataAggregationMaxDatagramsTlv 0x15 (rx_size / 1024);
    b ← put_data_format_tlv b OFF_DownlinkDataAggregationMaxSizeTlv 0x16 rx_size;
    b ← put8 b (SIZEOF_QMUX + OFF_epTlv) 0x17;
    b ← put_le16 b (SIZEOF_QMUX + OFF_epTlv + 1) 8;
    b ← put_le32 b (SIZEOF_QMUX + OFF_epTlv + 3) 0x02;
    b ← put_le32 b (SIZEOF_QMUX + OFF_epTlv + 7) 0x04;
    b ← put_data_format_tlv b OFF_dl_minimum_padding 0x19 0;
    b ← put_data_format_tlv b OFF_UplinkDataAggregationMaxDatagramsTlv 27 11;
    b ← put_data_format_tlv b OFF_UplinkDataAggregationMaxSizeTlv 28 (8 * 1024);
    Done (QMIWDASetDataFormatReqSize qmap_version, Some b)
  end.

Definition QMIWDASetDataFormatReq (pBuffer : option (list Z)) (buffSize : Z)
    (bRawIPMode : bool) (qmap_version rx_size transactionID : Z) : fill_result :=
  if negb (qmap_version =? 0)
  then QMIWDASetDataFormatReq_qmap pBuffer qmap_version rx_size transactionID
  else
  match pBuffer with
  | None => Done (- ENOMEM, None)
  | Some b =>
    if buffSize <? QMIWDASetDataFormatReqSize qmap_version
    then Done (- ENOMEM, Some b) else
    b ← put8 b SIZEOF_QMUX 0x00;
    b ← put_le16 b (SIZEOF_QMUX + 1) transactionID;
    b ← put_le16 b (SIZEOF_QMUX + 3) 0x0020;
    b ← put_le16 b (SIZEOF_QMUX + 5) 0x000b;
    b ← put8 b (SIZEOF_QMUX + 7) 0x10;
    b ← put_le16 b (SIZEOF_QMUX + 8) 0x0001;
    b ← put8 b (SIZEOF_QMUX + 10) 0;
    b ← put8 b (SIZEOF_QMUX + 11) 0x11;
    b ← put_le16 b (SIZEOF_QMUX + 12) 0x0004;
    b ← put_le32 b (SIZEOF_QMUX + 14) (if bRawIPMode then 0x00000002 else 0x00000001);
    Done (QMIWDASetDataFormatReqSize qmap_version, Some b)
  end.

(** The transaction id is a [u16] parameter stored in one byte. *)
Definition QMICTLSyncReq (pBuffer : option (list Z)) (buffSize transactionID : Z)
  : fill_result :=
  match pBuffer with
  | None => Done (- ENOMEM, None)
  | Some b =>
    if buffSize <? QMICTLSyncReqSize then Done (- ENOMEM, Some b) else
    b ← put8 b SIZEOF_QMUX 0x00;
    b ← put8 b (SIZEOF_QMUX + 1) transactionID;
    b ← put_le16 b (SIZEOF_QMUX + 2) 0x0027;
    b ← put_le16 b (SIZEOF_QMUX + 4) 0x0000;
    Done (SIZEOF_QMUX + 6, Some b)
  end.

(** ** Parsing QMI responses

    [pBuffer + offset] is the buffer less its first [offset] bytes. *)

(** [pClientID] is the 2-byte object of the caller's [u16]. *)
Definition QMICTLGetClientIDResp (pBuffer : option (list Z)) (buffSize : Z)
    (pClientID : list Z) : outcome (Z * list Z) :=
  let offset := SIZEOF_QMUX + 2 in
  match pBuffer with
  | None => Done (- ENOMEM, pClientID)
  | Some buf =>
    if buffSize <? offset then Done (- ENOMEM, pClientID) else
    let msg := drop (Z.to_nat offset) buf in
    let buffSize := buffSize - offset in
    result ← GetQMIMessageID msg buffSize;
    if negb (result =? 0x22) then Done (- EFAULT, pClientID) else
    result ← ValidQMIMessage msg buffSize;
    if negb (result =? 0) then Done (- EFAULT, pClientID) else
    '(result, pClientID) ← GetTLV_into msg buffSize 0x01 pClientID 2;
    if negb (result =? 2) then Done (- EFAULT, pClientID) else
    Done (0, pClientID)
  end.

Definition QMICTLReleaseClientIDResp (pBuffer : option (list Z)) (buffSize : Z)
  : outcome Z :=
  let offset := SIZEOF_QMUX + 2 in
  match pBuffer with
  | None => Done (- ENOMEM)
  | Some buf =>
    if buffSize <? offset then Done (- ENOMEM) else
    let msg := drop (Z.to_nat offset) buf in
    let buffSize := buffSize - offset in
    result ← GetQMIMessageID msg buffSize;
    if negb (result =? 0x23) then Done (- EFAULT) else
    result ← ValidQMIMessage msg buffSize;
    if negb (result =? 0) then Done (- EFAULT) else
    Done 0
  end.

(** The output objects of [QMIWDSEventResp]: the counters by their bytes (4 or
    8 of them), the two flags by their value. *)
Record wds_event := WdsEvent {
  pTXOk : list Z;
  pRXOk : list Z;
  pTXErr : list Z;
  pRXErr : list Z;
  pTXOfl : list Z;
  pRXOfl : list Z;
  pTXBytesOk : list Z;
  pRXBytesOk : list Z;
  pbLinkState : bool;
  pbReconfigure : bool;
}.

(** [out] is [None] when one of the ten output pointers is NULL.  On a
    little-endian host [le32_to_cpu] and [le64_to_cpu] are the identity. *)
Definition QMIWDSEventResp (pBuffer : option (list Z)) (buffSize : Z)
    (out : option wds_event) : outcome (Z * option wds_event) :=
  let offset := SIZEOF_QMUX + 3 in
  match pBuffer, out with
  | Some buf, Some o =>
    if buffSize <? offset then Done (- ENOMEM, out) else
    let msg := drop (Z.to_nat offset) buf in
    let buffSize := buffSize - offset in
    result ← GetQMIMessageID msg buffSize;
    if result =? 0x01 then
      '(_, tx_ok) ← GetTLV_into msg buffSize 0x10 (pTXOk o) 4;
      '(_, rx_ok) ← GetTLV_into msg buffSize 0x11 (pRXOk o) 4;
      '(_, tx_err) ← GetTLV_into msg buffSize 0x12 (pTXErr o) 4;
      '(_, rx_err) ← GetTLV_into msg buffSize 0x13 (pRXErr o) 4;
      '(_, tx_ofl) ← GetTLV_into msg buffSize 0x14 (pTXOfl o) 4;
      '(_, rx_ofl) ← GetTLV_into msg buffSize 0x15 (pRXOfl o) 4;
      '(_, tx_bytes) ← GetTLV_into msg buffSize 0x19 (pTXBytesOk o) 8;
      '(_, rx_bytes) ← GetTLV_into msg buffSize 0x1A (pRXBytesOk o) 8;
      Done (0, Some (WdsEvent tx_ok rx_ok tx_err rx_err tx_ofl rx_ofl
                       tx_bytes rx_bytes (pbLinkState o) (pbReconfigure o)))
    else if result =? 0x22 then
      '(result, pktStatusRead) ← GetTLV_into msg buffSize 0x01 (replicate 2 0) 2;
      s0 ← get8 pktStatusRead 0;
      s1 ← get8 pktStatusRead 1;
      let link := if 1 <=? result then s0 =? 0x02 else pbLinkState o in
      let reconf := if result =? 2 then s1 =? 0x01 else pbReconfigure o in
      Done (if result <? 0 then result else 0,
            Some (WdsEvent (pTXOk o) (pRXOk o) (pTXErr o) (pRXErr o) (pTXOfl o)
                    (pRXOfl o) (pTXBytesOk o) (pRXBytesOk o) link reconf))
    else Done (- EFAULT, out)
  | _, _ => Done (- ENOMEM, out)
  end.

(** [pMEID] is the object at the caller's pointer, [meidSize] its claimed size. *)
Definition QMIDMSGetMEIDResp (pBuffer : option (list Z)) (buffSize : Z)
    (pMEID : list Z) (meidSize : Z) : outcome (Z * list Z) :=
  let offset := SIZEOF_QMUX + 3 in
  match pBuffer with
  | None => Done (- ENOMEM, pMEID)
  | Some buf =>
    if (buffSize <? offset) || (meidSize <? 14) then Done (- ENOMEM, pMEID) else
    let msg := drop (Z.to_nat offset) buf in
    let buffSize := buffSize - offset in
    result ← GetQMIMessageID msg buffSize;
    if negb (result =? 0x25) then Done (- EFAULT, pMEID) else
    result ← ValidQMIMessage msg buffSize;
    if negb (result =? 0) then Done (- EFAULT, pMEID) else
    '(result, pMEID) ← GetTLV_into msg buffSize 0x12 pMEID 14;
    if negb (result =? 14) then Done (- EFAULT, pMEID) else
    Done (0, pMEID)
  end.

(** [QMAP_SETTING], its 4-byte members by their bytes. *)
Record QMAP_SETTING := QmapSetting {
  qmap_enabled : list Z;
  dl_data_aggregation_max_datagrams : list Z;
  dl_data_aggregation_max_size : list Z;
  ul_data_aggregation_max_datagrams : list Z;
  ul_data_aggregation_max_size : list Z;
  dl_minimum_padding : list Z;
}.

(** The objects [QMIWDASetDataFormatResp] writes: three [int]s and, unless
    [set] is NULL, the settings. *)
Record data_format_out := DataFormatOut {
  df_qmap_version : list Z;
  df_rx_size : list Z;
  df_tx_size : list Z;
  df_set : option QMAP_SETTING;
}.

Definition read_qmap_setting (msg : list Z) (buffSize : Z) (s : QMAP_SETTING)
  : outcome QMAP_SETTING :=
  '(_, dl_n) ← GetTLV_into msg buffSize 0x15 (dl_data_aggregation_max_datagrams s) 4;
  '(_, dl_sz) ← GetTLV_into msg buffSize 0x16 (dl_data_aggregation_max_size s) 4;
  '(_, ul_n) ← GetTLV_into msg buffSize 0x17 (ul_data_aggregation_max_datagrams s) 4;
  '(_, ul_sz) ← GetTLV_into msg buffSize 0x18 (ul_data_aggregation_max_size s) 4;
  '(_, pad) ← GetTLV_into msg buffSize 0x1a (dl_minimum_padding s) 4;
  Done (QmapSetting (qmap_enabled s) dl_n dl_sz ul_n ul_sz pad).

Definition QMIWDASetDataFormatResp (pBuffer : option (list Z)) (buffSize : Z)
    (bRawIPMode : bool) (out : data_format_out) : outcome (Z * data_format_out) :=
  let offset := SIZEOF_QMUX + 3 in
  match pBuffer with
  | None => Done (- ENOMEM, out)
  | Some buf =>
    if buffSize <? offset then Done (- ENOMEM, out) else
    let msg := drop (Z.to_nat offset) buf in
    let buffSize := buffSize - offset in
    result ← GetQMIMessageID msg buffSize;
    if negb (result =? 0x20) then Done (- EFAULT, out) else
    result ← ValidQMIMessage msg buffSize;
    if negb (result =? 0) then Done (0, out) else
    '(result, pktLinkProtocol) ← GetTLV_into msg buffSize 0x11 (replicate 4 0) 4;
    if negb (result =? 4) then Done (0, out) else
    link ← get8 pktLinkProtocol 0;
    if negb (link =? (if bRawIPMode then 2 else 1)) then Done (link, out) else
    '(_, ver) ← GetTLV_into msg buffSize 0x12 (df_qmap_version out) 4;
    ver ← (if negb (le_val ver =? 0)
           then '(_, v) ← GetTLV_into msg buffSize 0x13 ver 4; Done v
           else Done ver);
    '(_, rx) ← GetTLV_into msg buffSize 0x16 (df_rx_size out) 4;
    '(_, tx) ← GetTLV_into msg buffSize 0x18 (df_tx_size out) 4;
    set ← (match df_set out with
           | Some s => s ← read_qmap_setting msg buffSize s; Done (Some s)
           | None => Done None
           end);
    Done (link, DataFormatOut ver rx tx set)
  end.

Definition QMICTLSyncResp (pBuffer : option (list Z)) (buffSize : Z) : outcome Z :=
  let offset := SIZEOF_QMUX + 2 in
  match pBuffer with
  | None => Done (- ENOMEM)
  | Some buf =>
    if buffSize <? offset then Done (- ENOMEM) else
    let msg := drop (Z.to_nat offset) buf in
    let buffSize := buffSize - offset in
    result ← GetQMIMessageID msg buffSize;
    if negb (result =? 0x27) then Done (- EFAULT) else
    ValidQMIMessage msg buffSize
  end.

(** ** Specification side: messages as lists of TLVs *)

Record tlv := Tlv { tlv_type : Z; tlv_value : list Z }.

Definition tlv_ok (t : tlv) : Prop :=
  0 ≤ tlv_type t < 256 ∧ bytes_ok (tlv_value t) ∧
  Z.of_nat (length (tlv_value t)) < 65536.

Definition encode_tlv (t : tlv) : list Z :=
  tlv_type t :: le_bytes 2 (Z.of_nat (length (tlv_value t))) ++ tlv_value t.

Definition encode_tlvs (ts : list tlv) : list Z := mjoin (encode_tlv <$> ts).

Arguments encode_tlv : simpl never.
Arguments encode_tlvs : simpl never.

(** A message less its SDU header: id, length of the TLVs, TLVs. *)
Definition encode_msg (id : Z) (ts : list tlv) : list Z :=
  le_bytes 2 id ++ le_bytes 2 (Z.of_nat (length (encode_tlvs ts))) ++ encode_tlvs ts.

(** The first TLV of a type.  The loop of [GetTLV] stops 3 bytes before the end
    of the message, so an empty TLV in last place is not seen. *)
Fixpoint find_tlv (type : Z) (ts : list tlv) : option (list Z) :=
  match ts with
  | [] => None
  | t :: ts =>
    if match ts, tlv_value t with [], [] => true | _, _ => false end then None
    else if tlv_type t =? type then Some (tlv_value t) else find_tlv type ts
  end.

(** What [GetTLV] is to return on a message made of [ts]. *)
Definition GetTLV_result (ts : list tlv) (type bufferLen : Z) (out : list Z)
  : Z * list Z :=
  match find_tlv type ts with
  | None => (- ENOMSG, out)
  | Some v =>
    if bufferLen <? Z.of_nat (length v) then (- ENOMEM, out)
    else (Z.of_nat (length v), v ++ drop (length v) out)
  end.

(** *** The copy loop *)

Lemma get8_mid pre c rest off :
  off = Z.of_nat (length pre) → get8 (pre ++ c :: rest) off = Done c.
Proof.
  intros ->. unfold get8. change (c :: rest) with ([c] ++ rest).
  rewrite (get_bytes_app_mid pre [c] rest) by done. simpl. f_equal. lia.
Qed.

Lemma get8_0 c rest : get8 (c :: rest) 0 = Done c.
Proof. by apply (get8_mid []). Qed.
Lemma get8_1 a c rest : get8 (a :: c :: rest) 1 = Done c.
Proof. by apply (get8_mid [a]). Qed.

Lemma GetTLV_copy_spec pre v rest out cpy src :
  bytes_ok v → src + cpy = Z.of_nat (length pre) → 0 ≤ cpy →
  cpy + Z.of_nat (length v) ≤ Z.of_nat (length out) →
  GetTLV_copy (length v) (pre ++ v ++ rest) src cpy out = put_bytes out cpy v.
Proof.
  intros Hv. revert pre out cpy. induction Hv as [|c v Hc Hv IH]; intros pre out cpy ???.
  { simpl. rewrite put_bytes_Done by (simpl; lia). simpl.
    by rewrite Nat.add_0_r, take_drop. }
  simpl length in *. simpl GetTLV_copy. change ((c :: v) ++ rest) with (c :: v ++ rest).
  rewrite get8_mid, outcome_bind_Done by lia.
  unfold put8. simpl le_bytes. rewrite Z.mod_small by lia.
  change (put_bytes out cpy (c :: v)) with (put_bytes out cpy ([c] ++ v)).
  rewrite <- put_bytes_app by (simpl; lia).
  destruct (put_bytes out cpy [c]) as [out'| |] eqn:E; [|done|done].
  rewrite !outcome_bind_Done. apply put_bytes_length in E.
  replace (pre ++ c :: v ++ rest) with ((pre ++ [c]) ++ v ++ rest)
    by by rewrite <- app_assoc.
  apply IH; rewrite ?length_app; simpl; lia.
Qed.

(** The copy of more bytes than the source holds faults. *)
Lemma GetTLV_copy_oob pre v out cpy src n :
  bytes_ok v → src + cpy = Z.of_nat (length pre) → 0 ≤ cpy →
  cpy + Z.of_nat (length v) ≤ Z.of_nat (length out) →
  GetTLV_copy (length v + S n) (pre ++ v) src cpy out = OutOfBounds.
Proof.
  intros Hv. revert pre out cpy. induction Hv as [|c v Hc Hv IH]; intros pre out cpy ???.
  { simpl. unfold get8. rewrite get_bytes_oob; rewrite ?length_app; simpl; lia || done. }
  simpl length in *. simpl GetTLV_copy.
  rewrite get8_mid, outcome_bind_Done by lia.
  destruct (put8 out cpy c) as [out'| |] eqn:E; [|done|].
  2: { unfold put8, put_bytes in E. by case_match. }
  rewrite !outcome_bind_Done. apply put_bytes_length in E.
  replace (pre ++ c :: v) with ((pre ++ [c]) ++ v) by by rewrite <- app_assoc.
  apply IH; rewrite ?length_app; simpl; lia.
Qed.

Lemma length_encode_tlv t : length (encode_tlv t) = (3 + length (tlv_value t))%nat.
Proof. unfold encode_tlv. by rewrite length_cons, length_app, length_le_bytes. Qed.

Lemma encode_tlvs_cons t ts : encode_tlvs (t :: ts) = encode_tlv t ++ encode_tlvs ts.
Proof. done. Qed.

(** *** The search loop on a message made of TLVs *)

Lemma GetTLV_loop_S fuel msg messageLen type out bufferLen pos :
  GetTLV_loop (S fuel) msg messageLen type out bufferLen pos =
  if pos + 3 <? messageLen then
    tlvSize ← get_le16 msg (pos + 1);
    t ← get8 msg pos;
    if t =? type then
      if bufferLen <? tlvSize then Done (- ENOMEM, out)
      else
        out ← GetTLV_copy (Z.to_nat tlvSize) msg (pos + 3) 0 out;
        Done (tlvSize, out)
    else GetTLV_loop fuel msg messageLen type out bufferLen (u16 (pos + (tlvSize + 3)))
  else Done (- ENOMSG, out).
Proof. reflexivity. Qed.

Lemma GetTLV_loop_spec ts tail type bufferLen out :
  Forall tlv_ok ts → bufferLen ≤ Z.of_nat (length out) →
  ∀ fuel pre messageLen,
  (length ts < fuel)%nat →
  messageLen = Z.of_nat (length pre + length (encode_tlvs ts)) →
  messageLen < 65536 →
  GetTLV_loop fuel (pre ++ encode_tlvs ts ++ tail) messageLen type out bufferLen
    (Z.of_nat (length pre))
  = Done (GetTLV_result ts type bufferLen out).
Proof.
  intros Hts Hout. unfold GetTLV_result.
  induction Hts as [|t ts (Hty & Hv & Hl) Hts IH]; intros [|fuel] pre mlen Hf -> Hm;
    simpl length in Hf; try lia; rewrite GetTLV_loop_S.
  { change (length (encode_tlvs [])) with O. by rewrite (proj2 (Z.ltb_ge _ _)) by lia. }
  rewrite encode_tlvs_cons in *. rewrite length_app, length_encode_tlv in *.
  match goal with |- context [if ?a <? ?b then _ else _] => destruct (Z.ltb_spec a b) as [Hlt|Hge] end.
  2: { simpl. destruct ts as [|t' ts]; [|exfalso].
       - destruct (tlv_value t); [done|simpl length in *; lia].
       - rewrite encode_tlvs_cons, length_app, length_encode_tlv in Hge. lia. }
  assert (match ts, tlv_value t with [], [] => true | _, _ => false end = false) as Hvis.
  { destruct ts; [|done]. destruct (tlv_value t); [simpl in *; lia|done]. }
  assert (get_le16 (pre ++ (encode_tlv t ++ encode_tlvs ts) ++ tail)
            (Z.of_nat (length pre) + 1) = Done (Z.of_nat (length (tlv_value t)))) as ->.
  { unfold get_le16, encode_tlv.
    replace (pre ++ _) with ((pre ++ [tlv_type t]) ++
      le_bytes 2 (Z.of_nat (length (tlv_value t))) ++
      (tlv_value t ++ encode_tlvs ts ++ tail))
      by (rewrite <- !app_assoc; simpl; by rewrite <- ?app_assoc).
    rewrite get_bytes_app_mid by (rewrite ?length_app; simpl; lia).
    rewrite outcome_bind_Done, le_val_le_bytes, Z.mod_small; [done|lia]. }
  rewrite outcome_bind_Done.
  assert (get8 (pre ++ (encode_tlv t ++ encode_tlvs ts) ++ tail)
            (Z.of_nat (length pre)) = Done (tlv_type t)) as ->.
  { unfold encode_tlv. rewrite <- app_assoc. by apply get8_mid. }
  rewrite outcome_bind_Done. simpl find_tlv. rewrite Hvis.
  destruct (Z.eqb_spec (tlv_type t) type) as [He|He].
  - destruct (bufferLen <? _) eqn:Hb; [done|]. bool_to_prop. rewrite Nat2Z.id.
    replace (pre ++ _) with ((pre ++ tlv_type t ::
      le_bytes 2 (Z.of_nat (length (tlv_value t)))) ++ tlv_value t ++ encode_tlvs ts ++ tail)
      by (unfold encode_tlv; rewrite <- !app_assoc; simpl; by rewrite <- ?app_assoc).
    rewrite GetTLV_copy_spec by (rewrite ?length_app; simpl; try done; lia).
    rewrite put_bytes_whole with (n := length (tlv_value t)) by (done || lia).
    done.
  - replace (u16 _) with (Z.of_nat (length (pre ++ encode_tlv t)))
      by (rewrite u16_small; rewrite ?length_app, ?length_encode_tlv; lia).
    replace (pre ++ _) with ((pre ++ encode_tlv t) ++ encode_tlvs ts ++ tail)
      by by rewrite <- !app_assoc.
    apply IH; rewrite ?length_app, ?length_encode_tlv; lia.
Qed.

Lemma length_encode_tlvs_ge ts : (length ts ≤ length (encode_tlvs ts))%nat.
Proof.
  induction ts as [|t ts IH]; [done|].
  rewrite encode_tlvs_cons, length_app, length_encode_tlv. simpl. lia.
Qed.

Lemma GetTLV_into_spec hdr ts tail type bufferLen out messageLen :
  Forall tlv_ok ts → length hdr = 4%nat → bufferLen ≤ Z.of_nat (length out) →
  messageLen = Z.of_nat (4 + length (encode_tlvs ts)) → messageLen < 65536 →
  GetTLV_into (hdr ++ encode_tlvs ts ++ tail) messageLen type out bufferLen
  = Done (GetTLV_result ts type bufferLen out).
Proof.
  intros Hts Hh Ho -> Hm. unfold GetTLV_into, GetTLV.
  pose proof (length_encode_tlvs_ge ts).
  pose proof (GetTLV_loop_spec ts tail type bufferLen out Hts Ho
    (S (Z.to_nat (Z.of_nat (4 + length (encode_tlvs ts))))) hdr
    (Z.of_nat (4 + length (encode_tlvs ts)))) as E.
  rewrite Hh in E. change (Z.of_nat 4) with 4 in E. rewrite E by lia.
  rewrite outcome_bind_Done. by destruct (GetTLV_result _ _ _ _).
Qed.

(** *** Termination of the search loop *)

(** The position the loop continues with, if it does. *)
Definition GetTLV_next (msg : list Z) (messageLen type pos : Z) : option Z :=
  if pos + 3 <? messageLen then
    match get_le16 msg (pos + 1), get8 msg pos with
    | Done tlvSize, Done t =>
      if t =? type then None else Some (u16 (pos + (tlvSize + 3)))
    | _, _ => None
    end
  else None.

Lemma get_bytes_ends b off n : get_bytes b off n ≠ OutOfFuel.
Proof. unfold get_bytes. by case_match. Qed.
Lemma put_bytes_ends b off bs : put_bytes b off bs ≠ OutOfFuel.
Proof. unfold put_bytes. by case_match. Qed.
Lemma get_le16_ends b off : get_le16 b off ≠ OutOfFuel.
Proof. unfold get_le16, get_bytes. by case_match. Qed.
Lemma get8_ends b off : get8 b off ≠ OutOfFuel.
Proof. unfold get8, get_bytes. by case_match. Qed.

Lemma GetTLV_copy_ends n msg src cpy out : GetTLV_copy n msg src cpy out ≠ OutOfFuel.
Proof.
  revert cpy out; induction n as [|n IH]; intros cpy out; simpl; [done|].
  pose proof (get8_ends msg (src + cpy)).
  destruct (get8 msg (src + cpy)) as [c| |]; simpl; [|done|done].
  pose proof (put_bytes_ends out cpy (le_bytes 1 c)). unfold put8.
  destruct (put_bytes _ _ _); simpl; [apply IH|done|done].
Qed.

Lemma GetTLV_loop_runs fuel msg messageLen type out bufferLen pos :
  GetTLV_loop fuel msg messageLen type out bufferLen pos = OutOfFuel ↔
  is_Some (iterate (GetTLV_next msg messageLen type) fuel pos).
Proof.
  assert (∀ r : Z * list Z, Done r = OutOfFuel ↔ is_Some (@None Z)) as HDone
    by (intros r; split; [done|by intros [? [=]]]).
  assert (@OutOfBounds (Z * list Z) = OutOfFuel ↔ is_Some (@None Z)) as Hoob
    by (split; [done|by intros [? [=]]]).
  revert pos; induction fuel as [|fuel IH]; intros pos; [done|].
  rewrite GetTLV_loop_S, iterate_S.
  set (K := iterate (GetTLV_next msg messageLen type) fuel) in *. unfold GetTLV_next.
  destruct (_ <? messageLen); simpl; [|apply HDone].
  pose proof (get_le16_ends msg (pos + 1)). pose proof (get8_ends msg pos).
  destruct (get_le16 msg (pos + 1)) as [sz| |]; simpl; [|apply Hoob|done].
  destruct (get8 msg pos) as [t| |]; simpl; [|apply Hoob|done].
  destruct (t =? type); simpl; [|apply IH].
  destruct (bufferLen <? sz); [apply HDone|].
  pose proof (GetTLV_copy_ends (Z.to_nat sz) msg (pos + 3) 0 out).
  destruct (GetTLV_copy _ _ _ _ _); simpl; [apply HDone|apply Hoob|done].
Qed.

Lemma GetTLV_next_range msg messageLen type pos :
  is_Some (GetTLV_next msg messageLen type pos) →
  0 ≤ pos < messageLen.
Proof.
  unfold GetTLV_next, get8, get_bytes. intros [y Hy].
  destruct (Z.ltb_spec (pos + 3) messageLen); [|done].
  destruct (get_le16 _ _); [|done|done].
  destruct (in_range msg pos 1) eqn:E; [|done].
  apply in_range_true in E. lia.
Qed.

(** The fuel of [GetTLV] is exact: a search that has not ended after
    [messageLen + 1] iterations is in a cycle and never ends, whatever the
    number of iterations.  So [OutOfFuel] of [GetTLV] means that the C loop
    hangs, and every search that ends is covered by the model. *)
Theorem GetTLV_fuel_exact msg messageLen type out bufferLen :
  0 ≤ messageLen →
  GetTLV (Some msg) messageLen type (Some out) bufferLen = OutOfFuel →
  ∀ fuel, GetTLV_loop fuel msg messageLen type out bufferLen 4 = OutOfFuel.
Proof.
  intros Hm HG fuel. apply GetTLV_loop_runs.
  assert (GetTLV_loop (S (Z.to_nat messageLen)) msg messageLen type out bufferLen 4
          = OutOfFuel) as HL.
  { unfold GetTLV in HG. by destruct (GetTLV_loop _ _ _ _ _ _ _) as [[]| |]. }
  apply GetTLV_loop_runs in HL. eapply iterate_forever; [|exact HL].
  intros y Hy%GetTLV_next_range. lia.
Qed.

(** A message whose first TLV has another type and the length 0xfffd. *)
Definition hanging_message (id : Z) (t : Z) (body : list Z) : list Z :=
  le_bytes 2 id ++ le_bytes 2 (Z.of_nat (length body) + 3) ++ [t; 0xfd; 0xff] ++ body.

(** [GetTLV] does not terminate on every message: a first TLV of another
    type whose length field is 0xfffd brings the 16-bit position back to
    itself, since [4 + 0xfffd + 3] wraps to 4, and the search runs forever. *)
Theorem GetTLV_hangs id t body type out bufferLen fuel :
  t ≠ type → (1 ≤ length body)%nat →
  GetTLV_loop fuel (hanging_message id t body)
    (Z.of_nat (length (hanging_message id t body))) type out bufferLen 4 = OutOfFuel.
Proof.
  intros Ht Hb. apply GetTLV_loop_runs.
  assert (GetTLV_next (hanging_message id t body)
    (Z.of_nat (length (hanging_message id t body))) type 4 = Some 4) as Hn.
  { unfold GetTLV_next.
    match goal with |- context [if ?a <? ?b then _ else _] =>
      destruct (Z.ltb_spec a b) as [_|Hlen] end.
    2: { unfold hanging_message in Hlen. rewrite !length_app in Hlen.
         rewrite !length_le_bytes in Hlen. simpl in Hlen. lia. }
    assert (get_le16 (hanging_message id t body) (4 + 1) = Done 0xfffd) as ->.
    { unfold get_le16. change (hanging_message id t body)
        with ((le_bytes 2 id ++ le_bytes 2 (Z.of_nat (length body) + 3) ++ [t])
              ++ [0xfd; 0xff] ++ body).
      by rewrite get_bytes_app_mid by done. }
    assert (get8 (hanging_message id t body) 4 = Done t) as ->.
    { change (hanging_message id t body)
        with ((le_bytes 2 id ++ le_bytes 2 (Z.of_nat (length body) + 3))
              ++ t :: [0xfd; 0xff] ++ body).
      by rewrite get8_mid by done. }
    by rewrite (proj2 (Z.eqb_neq t type)) by done. }
  induction fuel as [|fuel IH]; [by exists 4|]. by rewrite iterate_S, Hn.
Qed.

(** [GetTLV] trusts the length field of the TLV it finds: when the TLV
    claims more bytes than the message object holds and the caller's buffer
    could take them, the copy reads past the end of the message. *)
Theorem GetTLV_overread hdr type n body out bufferLen messageLen :
  length hdr = 4%nat → (1 ≤ length body)%nat → bytes_ok body →
  messageLen = Z.of_nat (7 + length body) →
  Z.of_nat (length body) < n → n < 65536 → n ≤ bufferLen →
  bufferLen ≤ Z.of_nat (length out) →
  GetTLV (Some (hdr ++ type :: le_bytes 2 n ++ body)) messageLen type
    (Some out) bufferLen = OutOfBounds.
Proof.
  intros Hh Hb Hok -> Hn Hn' Hbl Hout. unfold GetTLV. rewrite GetTLV_loop_S.
  rewrite (proj2 (Z.ltb_lt (4 + 3) _)) by lia.
  assert (get_le16 (hdr ++ type :: le_bytes 2 n ++ body) (4 + 1) = Done n) as ->.
  { unfold get_le16. replace (hdr ++ type :: le_bytes 2 n ++ body)
      with ((hdr ++ [type]) ++ le_bytes 2 n ++ body) by by rewrite <- app_assoc.
    rewrite get_bytes_app_mid by (rewrite ?length_app; simpl; lia).
    rewrite outcome_bind_Done, le_val_le_bytes, Z.mod_small; [done|lia]. }
  rewrite outcome_bind_Done, (get8_mid hdr type) by lia.
  rewrite outcome_bind_Done, Z.eqb_refl, (proj2 (Z.ltb_ge _ _)) by lia.
  replace (Z.to_nat n) with (length body + S (Z.to_nat (n - Z.of_nat (length body) - 1)))%nat
    by lia.
  replace (hdr ++ type :: le_bytes 2 n ++ body)
    with ((hdr ++ type :: le_bytes 2 n) ++ body) by by rewrite <- app_assoc.
  rewrite GetTLV_copy_oob; rewrite ?length_app; simpl; try done; lia.
Qed.

(** *** The requests as messages *)

Inductive request :=
| GetClientID (transactionID serviceType : Z)
| ReleaseClientID (transactionID clientID : Z)
| Ready (transactionID : Z)
| SetEventReport (transactionID : Z)
| GetPKGSRVCStatus (transactionID : Z)
| GetMEID (transactionID : Z)
| SetDataFormat (bRawIPMode : bool) (qmap_version rx_size transactionID : Z)
| Sync (transactionID : Z).

(** The builder and the size function the driver uses for each request. *)
Definition fill (r : request) (pBuffer : option (list Z)) (buffSize : Z) : fill_result :=
  match r with
  | GetClientID t s => QMICTLGetClientIDReq pBuffer buffSize t s
  | ReleaseClientID t c => QMICTLReleaseClientIDReq pBuffer buffSize t c
  | Ready t => QMICTLReadyReq pBuffer buffSize t
  | SetEventReport t => QMIWDSSetEventReportReq pBuffer buffSize t
  | GetPKGSRVCStatus t => QMIWDSGetPKGSRVCStatusReq pBuffer buffSize t
  | GetMEID t => QMIDMSGetMEIDReq pBuffer buffSize t
  | SetDataFormat raw v rx t => QMIWDASetDataFormatReq pBuffer buffSize raw v rx t
  | Sync t => QMICTLSyncReq pBuffer buffSize t
  end.

Definition request_size (r : request) : Z :=
  match r with
  | GetClientID _ _ => QMICTLGetClientIDReqSize
  | ReleaseClientID _ _ => QMICTLReleaseClientIDReqSize
  | Ready _ => QMICTLReadyReqSize
  | SetEventReport _ => QMIWDSSetEventReportReqSize
  | GetPKGSRVCStatus _ => QMIWDSGetPKGSRVCStatusReqSize
  | GetMEID _ => QMIDMSGetMEIDReqSize
  | SetDataFormat _ v _ _ => QMIWDASetDataFormatReqSize v
  | Sync _ => QMICTLSyncReqSize
  end.

(** The SDU header: flags and a transaction id, of one byte for the control
    service and of two for the others. *)
Definition request_sdu (r : request) : list Z :=
  match r with
  | GetClientID t _ | ReleaseClientID t _ | Ready t | Sync t => 0 :: le_bytes 1 t
  | SetEventReport t | GetPKGSRVCStatus t | GetMEID t
  | SetDataFormat _ _ _ t => 0 :: le_bytes 2 t
  end.

Definition request_id (r : request) : Z :=
  match r with
  | GetClientID _ _ => 0x22
  | ReleaseClientID _ _ => 0x23
  | Ready _ => 0x21
  | SetEventReport _ => 0x01
  | GetPKGSRVCStatus _ => 0x22
  | GetMEID _ => 0x25
  | SetDataFormat _ _ _ _ => 0x20
  | Sync _ => 0x27
  end.

Definition request_tlvs (r : request) : list tlv :=
  match r with
  | GetClientID _ s => [Tlv 1 (le_bytes 1 s)]
  | ReleaseClientID _ c => [Tlv 1 (le_bytes 2 c)]
  | SetEventReport _ => [Tlv 0x11 (1 :: le_bytes 4 0xff)]
  | SetDataFormat raw v rx _ =>
    if negb (v =? 0) then
      [Tlv 0x10 [0]; Tlv 0x11 (le_bytes 4 2); Tlv 0x12 (le_bytes 4 v);
       Tlv 0x13 (le_bytes 4 v); Tlv 0x15 (le_bytes 4 (rx / 1024));
       Tlv 0x16 (le_bytes 4 rx); Tlv 0x17 (le_bytes 4 2 ++ le_bytes 4 4);
       Tlv 0x19 (le_bytes 4 0); Tlv 27 (le_bytes 4 11); Tlv 28 (le_bytes 4 8192)]
    else [Tlv 0x10 [0]; Tlv 0x11 (le_bytes 4 (if raw then 2 else 1))]
  | _ => []
  end.

Definition request_bytes (r : request) : list Z :=
  request_sdu r ++ encode_msg (request_id r) (request_tlvs r).

Lemma put_bytes_at_qmux (buf bs : list Z) (n : nat) (size : Z) :
  n = length bs → (6 + n ≤ length buf)%nat →
  (b ← put_bytes buf SIZEOF_QMUX bs; Done (size, Some b))
  = Done (size, Some (take 6 buf ++ bs ++ drop (6 + n) buf)).
Proof. intros -> ?. unfold SIZEOF_QMUX. by rewrite put_bytes_Done by lia. Qed.

#[local] Ltac unfold_sizes :=
  unfold QMICTLGetClientIDReqSize, QMICTLReleaseClientIDReqSize, QMICTLReadyReqSize,
    QMIWDSSetEventReportReqSize, QMIWDSGetPKGSRVCStatusReqSize, QMIDMSGetMEIDReqSize,
    QMICTLSyncReqSize, SIZEOF_SET_DATA_FORMAT_REQ_MSG,
    OFF_UplinkDataAggregationMaxSizeTlv, OFF_UplinkDataAggregationMaxDatagramsTlv,
    OFF_dl_minimum_padding, OFF_epTlv, OFF_DownlinkDataAggregationMaxSizeTlv,
    OFF_DownlinkDataAggregationMaxDatagramsTlv, OFF_DownlinkDataAggregationProtocolTlv,
    OFF_UplinkDataAggregationProtocolTlv, OFF_UnderlyingLinkLayerProtocolTlv,
    OFF_QosDataFormatTlv, SIZEOF_ENDPOINT_TLV, SIZEOF_DATA_FORMAT_TLV,
    SIZEOF_DATA_FORMAT_TLV_QOS, SIZEOF_QMUX in *.

#[local] Ltac fill_request := merge_puts; rewrite <- ?app_assoc;
  erewrite put_bytes_at_qmux by (rewrite ?length_app, ?length_le_bytes; lia || done);
  reflexivity.

Lemma put_data_format_tlv_bytes b off type value :
  0 ≤ off → SIZEOF_QMUX + off + 7 ≤ Z.of_nat (length b) →
  put_data_format_tlv b off type value =
  put_bytes b (SIZEOF_QMUX + off) (le_bytes 1 type ++ le_bytes 2 4 ++ le_bytes 4 value).
Proof.
  intros. unfold put_data_format_tlv, put8, put_le16, put_le32, SIZEOF_QMUX in *.
  rewrite put_bytes_bind_app by (rewrite ?length_le_bytes; lia).
  rewrite put_bytes_app' by (rewrite ?length_app, ?length_le_bytes; lia).
  by rewrite <- app_assoc.
Qed.

Lemma put_bytes_bind_tlv {A} b off o bs type value (k : list Z → outcome A) :
  0 ≤ off → 0 ≤ o → SIZEOF_QMUX + o = off + Z.of_nat (length bs) →
  SIZEOF_QMUX + o + 7 ≤ Z.of_nat (length b) →
  (b' ← put_bytes b off bs; b'' ← put_data_format_tlv b' o type value; k b'')
  = (b'' ← put_bytes b off
       (bs ++ (le_bytes 1 type ++ le_bytes 2 4 ++ le_bytes 4 value)); k b'').
Proof.
  intros ?? Ho ?. rewrite <- put_bytes_app by (rewrite ?length_app, ?length_le_bytes; lia).
  rewrite outcome_bind_assoc.
  destruct (put_bytes b off bs) as [b'| |] eqn:E; [|done|done]. simpl.
  apply put_bytes_length in E. by rewrite put_data_format_tlv_bytes, Ho by lia.
Qed.

#[local] Ltac merge_tlvs :=
  unfold put8, put_le16, put_le32;
  repeat (first [rewrite put_bytes_bind_app | rewrite put_bytes_bind_tlv];
    [| unfold_sizes; rewrite ?length_app, ?length_le_bytes; simpl length; lia .. ]).

Lemma put_data_format_tlv_bind_oob {A} b off type value (k : list Z → outcome A) :
  (∀ b', length b' = length b → k b' = OutOfBounds) →
  put_data_format_tlv b off type value ≫= k = OutOfBounds.
Proof.
  intros Hk. unfold put_data_format_tlv, put8, put_le16, put_le32.
  rewrite !outcome_bind_assoc. apply put_bytes_bind_oob. intros b1 Hb1.
  rewrite outcome_bind_assoc. apply put_bytes_bind_oob. intros b2 Hb2.
  apply put_bytes_bind_oob. intros b3 Hb3. apply Hk. congruence.
Qed.

Lemma put_data_format_tlv_oob b off type value :
  Z.of_nat (length b) < SIZEOF_QMUX + off + 7 →
  put_data_format_tlv b off type value = OutOfBounds.
Proof.
  intros. unfold put_data_format_tlv, put8, put_le16, put_le32.
  apply put_bytes_bind_oob. intros b1 Hb1. apply put_bytes_bind_oob. intros b2 Hb2.
  apply put_bytes_oob. rewrite length_le_bytes. lia.
Qed.

Lemma fill_data_format raw v rx t buf buffSize :
  QMIWDASetDataFormatReqSize v ≤ buffSize → buffSize ≤ Z.of_nat (length buf) →
  QMIWDASetDataFormatReq (Some buf) buffSize raw v rx t =
  Done (QMIWDASetDataFormatReqSize v,
        Some (take 6 buf ++ request_bytes (SetDataFormat raw v rx t)
              ++ drop (Z.to_nat (QMIWDASetDataFormatReqSize v)) buf)).
Proof.
  intros Hs Hb. unfold QMIWDASetDataFormatReq, QMIWDASetDataFormatReq_qmap,
    QMIWDASetDataFormatReqSize, request_bytes, request_tlvs in *.
  destruct (v =? 0); simpl negb in *; cbn iota in *.
  - rewrite (proj2 (Z.ltb_ge _ _)) by lia. unfold_sizes. fill_request.
  - merge_tlvs. unfold_sizes.
    erewrite put_bytes_at_qmux by (rewrite ?length_app, ?length_le_bytes; lia || done).
    reflexivity.
Qed.

(** C35: Every request builder, given a buffer of at least the size its size
    function announces, returns that size and writes exactly the message of the
    request (header, id, length of the TLVs, TLVs) after the QMUX header,
    leaving the header and the bytes after the message as they were. *)
Theorem fill_spec r buf buffSize :
  request_size r ≤ buffSize → buffSize ≤ Z.of_nat (length buf) →
  fill r (Some buf) buffSize =
  Done (request_size r,
        Some (take 6 buf ++ request_bytes r ++ drop (Z.to_nat (request_size r)) buf)).
Proof.
  intros Hs Hb. destruct r as [t s|t c|t|t|t|t|raw v rx t|t];
    cbn [fill request_size] in *; [..|exact (fill_data_format raw v rx t buf buffSize Hs Hb)|];
    unfold QMICTLGetClientIDReq, QMICTLReleaseClientIDReq, QMICTLReadyReq,
      QMIWDSSetEventReportReq, QMIWDSGetPKGSRVCStatusReq, QMIDMSGetMEIDReq, QMICTLSyncReq;
    rewrite (proj2 (Z.ltb_ge _ _)) by lia; unfold_sizes; fill_request.
Qed.

(** A NULL buffer, or one announced shorter than the size function says,
    is refused with -ENOMEM and nothing is written, for every request but the
    data-format request of a QMAP version. *)
Theorem fill_refuses_short_buffers r pBuffer buffSize :
  (∀ raw v rx t, r = SetDataFormat raw v rx t → v = 0) →
  pBuffer = None ∨ buffSize < request_size r →
  fill r pBuffer buffSize = Done (- ENOMEM, pBuffer).
Proof.
  intros Hv Hs. destruct r as [t s|t c|t|t|t|t|raw v rx t|t]; cbn [fill request_size] in *;
    [..|rewrite (Hv _ _ _ _ eq_refl) in *|];
    unfold QMICTLGetClientIDReq, QMICTLReleaseClientIDReq, QMICTLReadyReq,
      QMIWDSSetEventReportReq, QMIWDSGetPKGSRVCStatusReq, QMIDMSGetMEIDReq, QMICTLSyncReq,
      QMIWDASetDataFormatReq; simpl negb; cbn iota;
    destruct pBuffer as [b|]; try done; destruct Hs as [Hs|Hs]; try done;
    by rewrite (proj2 (Z.ltb_lt _ _)) by lia.
Qed.

(** The data-format request of a QMAP version tests neither the pointer
    nor the size: on a NULL or short buffer it writes out of bounds, whatever
    size the caller announced. *)
Theorem data_format_qmap_overflows raw v rx t pBuffer buffSize :
  v ≠ 0 →
  Z.of_nat (length (default [] pBuffer)) < QMIWDASetDataFormatReqSize v →
  fill (SetDataFormat raw v rx t) pBuffer buffSize = OutOfBounds.
Proof.
  intros Hv Hl. cbn [fill]. unfold QMIWDASetDataFormatReq, QMIWDASetDataFormatReqSize in *.
  rewrite (proj2 (Z.eqb_neq v 0)) in * by done. simpl negb in *. cbn iota in *.
  destruct pBuffer as [b|]; [|done]. simpl default in Hl.
  unfold QMIWDASetDataFormatReq_qmap, put8, put_le16, put_le32.
  do 18 (first [apply put_bytes_bind_oob | apply put_data_format_tlv_bind_oob]; intros ? ?).
  rewrite put_data_format_tlv_oob; [done|]. unfold_sizes. lia.
Qed.

(** The bytes of the messages are bytes, and the TLVs fit their length fields. *)
Lemma request_tlvs_ok r : Forall tlv_ok (request_tlvs r).
Proof.
  destruct r; cbn [request_tlvs]; [..|case_match|];
    repeat (apply Forall_cons; split); try apply Forall_nil_2;
    (split_and!; [simpl; lia|simpl; lia| |simpl; lia]); cbn [tlv_value]; auto with buf.
Qed.

Lemma request_size_bytes r :
  request_size r = SIZEOF_QMUX + Z.of_nat (length (request_bytes r)).
Proof.
  destruct r as [t s|t c|t|t|t|t|raw v rx t|t]; [reflexivity..| |reflexivity].
  unfold request_size, QMIWDASetDataFormatReqSize, request_bytes, request_tlvs.
  by destruct (v =? 0).
Qed.

(** *** Messages seen by the parsers *)

Lemma GetQMIMessageID_spec id ts tail messageLen :
  0 ≤ id < 65536 → 2 ≤ messageLen →
  GetQMIMessageID (encode_msg id ts ++ tail) messageLen = Done id.
Proof.
  intros. unfold GetQMIMessageID. rewrite (proj2 (Z.ltb_ge _ _)) by lia.
  unfold get_le16, encode_msg. rewrite <- app_assoc.
  rewrite get_bytes_app_front by done.
  rewrite outcome_bind_Done, le_val_le_bytes, Z.mod_small; [done|simpl; lia].
Qed.

Lemma length_encode_msg id ts : length (encode_msg id ts) = (4 + length (encode_tlvs ts))%nat.
Proof. unfold encode_msg. rewrite !length_app, !length_le_bytes. lia. Qed.

Lemma GetTLV_msg id ts tail type bufferLen out messageLen :
  Forall tlv_ok ts → bufferLen ≤ Z.of_nat (length out) →
  messageLen = Z.of_nat (length (encode_msg id ts)) → messageLen < 65536 →
  GetTLV_into (encode_msg id ts ++ tail) messageLen type out bufferLen
  = Done (GetTLV_result ts type bufferLen out).
Proof.
  intros Hts Ho -> Hm. rewrite length_encode_msg in *.
  replace (encode_msg id ts ++ tail) with
    ((le_bytes 2 id ++ le_bytes 2 (Z.of_nat (length (encode_tlvs ts))))
     ++ encode_tlvs ts ++ tail) by (unfold encode_msg; by rewrite <- !app_assoc).
  by apply GetTLV_into_spec.
Qed.

(** The value of the result TLV: 0 when its first half is 0, else the low byte of the
    error code in its second half, with its sign. *)
Definition result_code (ts : list tlv) : Z :=
  match find_tlv 2 ts with
  | Some [a; b; c; d] => if le_val [a; b] =? 0 then 0 else u16 (s8 c)
  | _ => - ENOMSG
  end.

(** What the driver takes for success: no error, or an error whose code is a multiple
    of 256. *)
Lemma result_code_accepts ts a b c d :
  find_tlv 2 ts = Some [a; b; c; d] → bytes_ok [a; b; c; d] →
  result_code ts = 0 ↔ le_val [a; b] = 0 ∨ c = 0.
Proof.
  intros E Hb. unfold result_code. rewrite E. apply Forall_cons in Hb as [_ Hb]. apply Forall_cons in Hb as [_ Hb].
  apply Forall_cons in Hb as [Hc _]. destruct (Z.eqb_spec (le_val [a; b]) 0) as [->|Hn]; [tauto|].
  assert (u16 (s8 c) = 0 ↔ c = 0) as ->; [|tauto]. unfold u16, s8. change (2 ^ 7) with 128.
  change (2 ^ 8) with 256. change (2 ^ 16) with 65536. destruct (Z.le_gt_cases 128 c).
  - replace (c + 128) with (c - 128 + 1 * 256) by lia. rewrite Z.mod_add, (Z.mod_small (c - 128)) by lia.
    replace (c - 128 - 128) with (c - 256 + 65536 + (-1) * 65536) by lia.
    rewrite Z.mod_add, Z.mod_small by lia. lia.
  - rewrite (Z.mod_small (c + 128)) by lia. replace (c + 128 - 128) with c by lia. rewrite Z.mod_small; lia.
Qed.

Lemma ValidQMIMessage_spec id ts tail messageLen :
  Forall tlv_ok ts → messageLen = Z.of_nat (length (encode_msg id ts)) →
  messageLen < 65536 →
  ValidQMIMessage (encode_msg id ts ++ tail) messageLen = Done (result_code ts).
Proof.
  intros Hts Hm Hm'. unfold ValidQMIMessage, result_code.
  rewrite (GetTLV_msg id) by done. simpl mbind. unfold GetTLV_result.
  destruct (find_tlv 2 ts) as [v|]; [|done].
  destruct v as [|a [|b [|c [|d [|e v]]]]]; try done.
  - change (4 <? Z.of_nat (length [a; b; c; d])) with false.
    change (Z.of_nat (length [a; b; c; d])) with 4.
    cbv beta iota. change (4 =? 4) with true. cbv beta iota.
    change ([a; b; c; d] ++ _) with [a; b; c; d].
    change (get_le16 [a; b; c; d] 0) with (Done (le_val [a; b])).
    rewrite outcome_bind_Done. destruct (le_val [a; b] =? 0); [done|]. cbn [negb]. cbv iota.
    unfold get8. change (get_bytes [a; b; c; d] 2 1) with (Done [c]).
    rewrite !outcome_bind_Done. simpl le_val. by rewrite Z.add_0_r.
  - rewrite (proj2 (Z.ltb_lt _ _)) by (simpl length; lia). done.
Qed.

(** C36: Round trip of the requests: the message a peer finds in a built
    request has the request's id, and searching it for any TLV type gives what
    the request's TLV list says. *)
Theorem request_roundtrip r buf buffSize n b type out bufferLen :
  request_size r ≤ buffSize → buffSize ≤ Z.of_nat (length buf) → 0 ≤ bufferLen →
  bufferLen ≤ Z.of_nat (length out) →
  fill r (Some buf) buffSize = Done (n, Some b) →
  let hdr := (6 + length (request_sdu r))%nat in
  GetQMIMessageID (drop hdr b) (n - Z.of_nat hdr) = Done (request_id r) ∧
  GetTLV_into (drop hdr b) (n - Z.of_nat hdr) type out bufferLen
    = Done (GetTLV_result (request_tlvs r) type bufferLen out).
Proof.
  intros Hs Hb Hbl Ho Hf. rewrite fill_spec in Hf by done. simplify_eq. intros hdr.
  pose proof (request_size_bytes r) as Hsz. unfold SIZEOF_QMUX, request_bytes in Hsz.
  rewrite length_app in Hsz.
  replace (drop hdr _) with (encode_msg (request_id r) (request_tlvs r)
    ++ drop (Z.to_nat (request_size r)) buf).
  2: { subst hdr. unfold request_bytes. rewrite <- !app_assoc, drop_app_add'.
       - by rewrite drop_app_length.
       - rewrite length_take. lia. }
  pose proof (length_encode_msg (request_id r) (request_tlvs r)).
  split.
  - apply GetQMIMessageID_spec; [destruct r; simpl; lia|lia].
  - apply GetTLV_msg; [apply request_tlvs_ok|done|lia|].
    replace (request_size r - Z.of_nat hdr)
      with (Z.of_nat (length (encode_msg (request_id r) (request_tlvs r)))) by lia.
    destruct r as [| | | | | |raw v rx t|]; try (vm_compute; done).
    cbn [request_id request_tlvs]. destruct (v =? 0); vm_compute; done.
Qed.

(** The header by its fields. *)
Definition qmux_header (tf len flag service client : Z) : list Z :=
  tf :: le_bytes 2 len ++ [flag; service; client].

Lemma FillQMUX_spec clientID buf buffSize :
  6 ≤ buffSize → (6 ≤ length buf)%nat →
  FillQMUX clientID (Some buf) buffSize =
  Done (0, Some (qmux_header 1 (buffSize - 1) 0 (u8 (clientID &' 0xff))
                   (u8 (clientID ≫ 8)) ++ drop 6 buf)).
Proof.
  intros. unfold FillQMUX, SIZEOF_QMUX. rewrite (proj2 (Z.ltb_ge _ _)) by lia.
  merge_puts. erewrite put_bytes_whole; [|reflexivity|simpl; lia].
  rewrite outcome_bind_Done. reflexivity.
Qed.

Lemma ParseQMUX_header tf len flag service client rest buffSize :
  12 ≤ buffSize → 0 ≤ len < 65536 →
  ParseQMUX (Some (qmux_header tf len flag service client ++ rest)) buffSize =
  if (tf =? 1) && (len =? buffSize - 1) && (flag =? 0x80)
  then Done (6, Some (u16 (client ≪ 8 + service))) else Done (- EINVAL, None).
Proof.
  intros Hb Hl. unfold ParseQMUX. rewrite (proj2 (Z.ltb_ge _ _)) by lia.
  rewrite !get8_prefix, get_le16_prefix by (simpl; lia).
  assert (∀ x, x = x + 256 * 0) as H0 by lia.
  change (get8 _ 0) with (Done (tf + 256 * 0)). change (get8 _ 3) with (Done (flag + 256 * 0)).
  change (get8 _ 4) with (Done (service + 256 * 0)).
  change (get8 _ 5) with (Done (client + 256 * 0)).
  change (get_le16 _ 1) with (Done (le_val (le_bytes 2 len))).
  rewrite <- !H0, le_val_le_bytes, Z.mod_small by (simpl; lia).
  rewrite !outcome_bind_Done. by destruct (tf =? 1), (len =? buffSize - 1), (flag =? 0x80).
Qed.

(** Round trip of the QMUX header: a header filled for a client, with its
    control flag set to the service side's 0x80, is parsed back to that client;
    as filled, with the control flag 0, it is not a service frame and is
    rejected. *)
Theorem QMUX_roundtrip clientID buf buffSize b :
  0 ≤ clientID < 65536 → 12 ≤ buffSize < 65536 → buffSize ≤ Z.of_nat (length buf) →
  FillQMUX clientID (Some buf) buffSize = Done (0, Some b) →
  ParseQMUX (Some b) buffSize = Done (- EINVAL, None) ∧
  ∃ b', put8 b 3 0x80 = Done b' ∧
        ParseQMUX (Some b') buffSize = Done (6, Some clientID).
Proof.
  intros Hc Hs Hb Hf. rewrite FillQMUX_spec in Hf by lia.
  assert (b = qmux_header 1 (buffSize - 1) 0 (u8 (clientID &' 0xff)) (u8 (clientID ≫ 8))
    ++ drop 6 buf) as -> by congruence. split.
  - rewrite ParseQMUX_header by lia. by rewrite andb_false_r.
  - exists (qmux_header 1 (buffSize - 1) 0x80 (u8 (clientID &' 0xff)) (u8 (clientID ≫ 8))
      ++ drop 6 buf). split.
    + unfold put8. rewrite put_bytes_Done by (simpl; lia). reflexivity.
    + rewrite ParseQMUX_header, !Z.eqb_refl by lia. simpl andb. do 3 f_equal.
      change 0xff with (Z.ones 8). rewrite Z.land_ones, Z.shiftl_mul_pow2, Z.shiftr_div_pow2
        by lia.
      unfold u8, u16. rewrite Z.mod_mod by lia.
      change (2 ^ 8) with 256. change (2 ^ 16) with 65536.
      rewrite (Z.mod_small (clientID / 256)) by (Z.div_mod_to_equations; lia).
      replace (clientID / 256 * 256 + clientID mod 256) with clientID
        by (Z.div_mod_to_equations; lia).
      by apply Z.mod_small.
Qed.

(** *** The response parsers

    A frame: the QMUX and SDU headers [hdr], a message, and what follows it in
    the receive buffer. *)
Section Responses.
Context (hdr : list Z) (id : Z) (ts : list tlv) (tail : list Z).
Hypothesis Hid : 0 ≤ id < 65536.
Hypothesis Hts : Forall tlv_ok ts.

Definition frame : list Z := hdr ++ encode_msg id ts ++ tail.
Definition frame_size : Z := Z.of_nat (length hdr + length (encode_msg id ts)).

Hypothesis Hsize : frame_size < 65536.

Lemma frame_open (n : Z) :
  n = Z.of_nat (length hdr) →
  drop (Z.to_nat n) frame = encode_msg id ts ++ tail ∧
  frame_size - n = Z.of_nat (length (encode_msg id ts)) ∧
  (frame_size <? n) = false.
Proof.
  intros ->. unfold frame, frame_size. rewrite Nat2Z.id, drop_app_length.
  split_and!; [done|lia|]. apply Z.ltb_ge. lia.
Qed.

Lemma frame_id messageLen :
  messageLen = Z.of_nat (length (encode_msg id ts)) →
  GetQMIMessageID (encode_msg id ts ++ tail) messageLen = Done id.
Proof.
  intros ->. pose proof (length_encode_msg id ts). apply GetQMIMessageID_spec; lia.
Qed.

Lemma frame_valid messageLen :
  messageLen = Z.of_nat (length (encode_msg id ts)) →
  ValidQMIMessage (encode_msg id ts ++ tail) messageLen = Done (result_code ts).
Proof. intros ->. apply ValidQMIMessage_spec; unfold frame_size in Hsize; done || lia. Qed.

Lemma frame_tlv messageLen type bufferLen out :
  messageLen = Z.of_nat (length (encode_msg id ts)) →
  bufferLen ≤ Z.of_nat (length out) →
  GetTLV_into (encode_msg id ts ++ tail) messageLen type out bufferLen
  = Done (GetTLV_result ts type bufferLen out).
Proof. intros -> ?. apply GetTLV_msg; unfold frame_size in Hsize; done || lia. Qed.

#[local] Ltac open_frame n Hh :=
  let Hd := fresh in let Hl := fresh in let Ht := fresh in
  destruct (frame_open n Hh) as (Hd & Hl & Ht);
  rewrite Ht; cbv zeta; rewrite Hd, frame_id by done;
  rewrite outcome_bind_Done.

(** [QMICTLGetClientIDResp] accepts a frame exactly when its message id
    is that of the get-client-id response, its result TLV reports success and
    its TLV 1 has two bytes, which become the client id (service in the low
    byte); in every other case it returns -EFAULT. *)
Theorem GetClientIDResp_spec cid :
  length hdr = 8%nat → length cid = 2%nat →
  QMICTLGetClientIDResp (Some frame) frame_size cid =
  Done (if negb (id =? 0x22) || negb (result_code ts =? 0) then (- EFAULT, cid)
        else match find_tlv 1 ts with
             | Some [] => (- EFAULT, cid)
             | Some [s] => (- EFAULT, s :: drop 1 cid)
             | Some [s; c] => (0, [s; c])
             | _ => (- EFAULT, cid)
             end).
Proof.
  intros Hh Hc. unfold QMICTLGetClientIDResp, SIZEOF_QMUX.
  open_frame (6 + 2) (eq_sym (f_equal Z.of_nat Hh)).
  destruct (id =? 0x22); [|done]. cbn [negb orb].
  rewrite frame_valid, outcome_bind_Done by done.
  destruct (result_code ts =? 0); [|done]. cbn [negb].
  rewrite frame_tlv, outcome_bind_Done by (done || lia). unfold GetTLV_result.
  destruct cid as [|c0 [|c1 [|]]]; try done.
  destruct (find_tlv 1 ts) as [[|s [|c [|x v]]]|]; try done.
  rewrite (proj2 (Z.ltb_lt _ _)) by (simpl length; lia). done.
Qed.

(** The release and sync responses are accepted (result 0) exactly when
    the message id is theirs and the result TLV reports success; a failed
    sync returns the error code of the result TLV. *)
Theorem ReleaseClientID_Sync_Resp_spec :
  length hdr = 8%nat →
  QMICTLReleaseClientIDResp (Some frame) frame_size =
    Done (if (id =? 0x23) && (result_code ts =? 0) then 0 else - EFAULT) ∧
  QMICTLSyncResp (Some frame) frame_size =
    Done (if id =? 0x27 then result_code ts else - EFAULT).
Proof.
  intros Hh. unfold QMICTLReleaseClientIDResp, QMICTLSyncResp, SIZEOF_QMUX. split.
  - open_frame (6 + 2) (eq_sym (f_equal Z.of_nat Hh)).
    destruct (id =? 0x23); [|done]. cbn [negb andb].
    rewrite frame_valid, outcome_bind_Done by done. by destruct (result_code ts =? 0).
  - open_frame (6 + 2) (eq_sym (f_equal Z.of_nat Hh)).
    destruct (id =? 0x27); [|done]. cbn [negb]. by apply frame_valid.
Qed.

(** The output object after a [GetTLV] whose result is ignored. *)
Definition tlv_update (type n : Z) (old : list Z) : list Z :=
  (GetTLV_result ts type n old).2.

Definition wds_event_wf (o : wds_event) : Prop :=
  Forall (λ x, length x = 4%nat) [pTXOk o; pRXOk o; pTXErr o; pRXErr o; pTXOfl o; pRXOfl o] ∧
  Forall (λ x, length x = 8%nat) [pTXBytesOk o; pRXBytesOk o].

Definition with_link (o : wds_event) (link reconf : bool) : wds_event :=
  WdsEvent (pTXOk o) (pRXOk o) (pTXErr o) (pRXErr o) (pTXOfl o) (pRXOfl o)
    (pTXBytesOk o) (pRXBytesOk o) link reconf.

(** [QMIWDSEventResp]: an event report stores each counter whose TLV is
    present and leaves the others as they were; a packet-service status sets
    the link state from its first byte and the reconfigure flag only when a
    second byte is present, and reports a missing or oversized TLV as an
    error without touching the flags; any other message is -EFAULT. *)
Theorem WDSEventResp_spec o :
  length hdr = 9%nat → wds_event_wf o →
  QMIWDSEventResp (Some frame) frame_size (Some o) =
  Done (if id =? 0x01 then
          (0, Some (WdsEvent
             (tlv_update 0x10 4 (pTXOk o)) (tlv_update 0x11 4 (pRXOk o))
             (tlv_update 0x12 4 (pTXErr o)) (tlv_update 0x13 4 (pRXErr o))
             (tlv_update 0x14 4 (pTXOfl o)) (tlv_update 0x15 4 (pRXOfl o))
             (tlv_update 0x19 8 (pTXBytesOk o)) (tlv_update 0x1A 8 (pRXBytesOk o))
             (pbLinkState o) (pbReconfigure o)))
        else if id =? 0x22 then
          match find_tlv 1 ts with
          | None => (- ENOMSG, Some o)
          | Some [] => (0, Some o)
          | Some [s] => (0, Some (with_link o (s =? 2) (pbReconfigure o)))
          | Some [s; r] => (0, Some (with_link o (s =? 2) (r =? 1)))
          | Some _ => (- ENOMEM, Some o)
          end
        else (- EFAULT, Some o)).
Proof.
  intros Hh [H4 H8]. unfold QMIWDSEventResp, SIZEOF_QMUX.
  open_frame (6 + 3) (eq_sym (f_equal Z.of_nat Hh)).
  destruct (id =? 1).
  { decompose_Forall_hyps.
    assert (∀ type n out (k : Z * list Z → outcome (Z * option wds_event)),
      n = Z.of_nat (length out) →
      GetTLV_into (encode_msg id ts ++ tail) (frame_size - (6 + 3)) type out n ≫= k
      = k ((GetTLV_result ts type n out).1, tlv_update type n out)) as Hk.
    { intros. rewrite frame_tlv by (done || lia). unfold tlv_update.
      by destruct (GetTLV_result _ _ _ _). }
    do 8 (rewrite Hk by lia). done. }
  destruct (id =? 0x22); [|done].
  rewrite frame_tlv, outcome_bind_Done by (done || (simpl; lia)). unfold GetTLV_result.
  destruct o. destruct (find_tlv 1 ts) as [[|s [|r [|x v]]]|]; try done.
  - change (2 <? Z.of_nat (length [s])) with false. cbv iota beta.
    change ([s] ++ _) with [s; 0]. by rewrite get8_0, get8_1.
  - change (2 <? Z.of_nat (length [s; r])) with false. cbv iota beta.
    change ([s; r] ++ _) with [s; r]. by rewrite get8_0, get8_1.
  - rewrite (proj2 (Z.ltb_lt _ _)) by (simpl length; lia). done.
Qed.

(** [QMIDMSGetMEIDResp] never writes outside an object of the size it
    is told: with a frame of the right id, a success result and a 14-byte TLV
    0x12 it stores the MEID and returns 0, otherwise it returns -EFAULT. *)
Theorem GetMEIDResp_spec meid meidSize :
  length hdr = 9%nat → 14 ≤ meidSize → meidSize ≤ Z.of_nat (length meid) →
  QMIDMSGetMEIDResp (Some frame) frame_size meid meidSize =
  Done (if negb (id =? 0x25) || negb (result_code ts =? 0) then (- EFAULT, meid)
        else match find_tlv 0x12 ts with
             | Some v => (if (length v =? 14)%nat then 0 else - EFAULT,
                          if (14 <? length v)%nat then meid else v ++ drop (length v) meid)
             | None => (- EFAULT, meid)
             end).
Proof.
  intros Hh Hm Hl. unfold QMIDMSGetMEIDResp, SIZEOF_QMUX.
  rewrite (proj2 (Z.ltb_ge meidSize 14)) by lia. rewrite orb_false_r.
  open_frame (6 + 3) (eq_sym (f_equal Z.of_nat Hh)).
  destruct (id =? 0x25); [|done]. cbn [negb orb].
  rewrite frame_valid, outcome_bind_Done by done.
  destruct (result_code ts =? 0); [|done]. cbn [negb].
  rewrite frame_tlv, outcome_bind_Done by (done || lia). unfold GetTLV_result.
  destruct (find_tlv 0x12 ts) as [v|]; [|done].
  destruct (Nat.eqb_spec (length v) 14), (Nat.ltb_spec 14 (length v)),
    (Z.ltb_spec 14 (Z.of_nat (length v))); try lia; cbv iota beta;
    destruct (Z.eqb_spec (Z.of_nat (length v)) 14); done || lia.
Qed.

Definition data_format_wf (out : data_format_out) : Prop :=
  Forall (λ x, length x = 4%nat) [df_qmap_version out; df_rx_size out; df_tx_size out] ∧
  match df_set out with
  | None => True
  | Some s => Forall (λ x, length x = 4%nat)
      [dl_data_aggregation_max_datagrams s; dl_data_aggregation_max_size s;
       ul_data_aggregation_max_datagrams s; ul_data_aggregation_max_size s;
       dl_minimum_padding s]
  end.

(** What an accepted data-format response stores: the downlink protocol
    replaces the uplink one only when that is not 0. *)
Definition data_format_update (out : data_format_out) : data_format_out :=
  let v := tlv_update 0x12 4 (df_qmap_version out) in
  DataFormatOut
    (if le_val v =? 0 then v else tlv_update 0x13 4 v)
    (tlv_update 0x16 4 (df_rx_size out)) (tlv_update 0x18 4 (df_tx_size out))
    (match df_set out with
     | None => None
     | Some s => Some (QmapSetting (qmap_enabled s)
         (tlv_update 0x15 4 (dl_data_aggregation_max_datagrams s))
         (tlv_update 0x16 4 (dl_data_aggregation_max_size s))
         (tlv_update 0x17 4 (ul_data_aggregation_max_datagrams s))
         (tlv_update 0x18 4 (ul_data_aggregation_max_size s))
         (tlv_update 0x1a 4 (dl_minimum_padding s)))
     end).

Lemma tlv_update_length type n old :
  Z.of_nat (length old) = n → length (tlv_update type n old) = length old.
Proof.
  intros Hn. unfold tlv_update, GetTLV_result.
  destruct (find_tlv type ts) as [v|]; [|done].
  destruct (Z.ltb_spec n (Z.of_nat (length v))); simpl; [done|].
  rewrite length_app, length_drop. lia.
Qed.

(** [QMIWDASetDataFormatResp] returns the link protocol the device
    reports; the settings are stored only when it is the requested one.  A
    response whose result TLV reports failure, or without a 4-byte link
    protocol, is reported as 0, not as an error. *)
Theorem SetDataFormatResp_spec raw out :
  length hdr = 9%nat → data_format_wf out →
  QMIWDASetDataFormatResp (Some frame) frame_size raw out =
  Done (if negb (id =? 0x20) then (- EFAULT, out)
        else if negb (result_code ts =? 0) then (0, out)
        else match find_tlv 0x11 ts with
             | Some [link; _; _; _] =>
               (link, if link =? (if raw then 2 else 1) then data_format_update out else out)
             | _ => (0, out)
             end).
Proof.
  intros Hh [Hint Hset]. unfold QMIWDASetDataFormatResp, SIZEOF_QMUX.
  open_frame (6 + 3) (eq_sym (f_equal Z.of_nat Hh)).
  destruct (id =? 0x20); [|done]. cbn [negb].
  rewrite frame_valid, outcome_bind_Done by done.
  destruct (result_code ts =? 0); [|done]. cbn [negb].
  rewrite (frame_tlv _ 0x11), outcome_bind_Done by (done || (simpl; lia)).
  unfold GetTLV_result at 1.
  destruct (find_tlv 0x11 ts) as [v|]; [|done].
  destruct v as [|link [|b [|c [|d [|e v]]]]]; try done.
  2: { rewrite (proj2 (Z.ltb_lt _ _)) by (simpl length; lia). done. }
  change (4 <? Z.of_nat (length [link; b; c; d])) with false. cbv iota beta.
  change (negb (Z.of_nat (length [link; b; c; d]) =? 4)) with false. cbv iota.
  change ([link; b; c; d] ++ _) with [link; b; c; d].
  rewrite get8_0, outcome_bind_Done.
  destruct (link =? _); [|done]. cbn [negb]. cbv iota.
  unfold data_format_update, read_qmap_setting.
  assert (∀ A type x (k : Z * list Z → outcome A), length x = 4%nat →
    GetTLV_into (encode_msg id ts ++ tail) (frame_size - (6 + 3)) type x 4 ≫= k
    = k ((GetTLV_result ts type 4 x).1, tlv_update type 4 x)) as Hk.
  { intros. rewrite frame_tlv by (done || lia). unfold tlv_update.
    by destruct (GetTLV_result _ _ _ _). }
  rewrite !Forall_cons in Hint. destruct Hint as (?&?&?&_). rewrite Hk by done.
  assert (length (tlv_update 0x12 4 (df_qmap_version out)) = 4%nat) as Hv.
  { rewrite tlv_update_length by lia. done. }
  set (v := tlv_update 0x12 4 (df_qmap_version out)) in *. cbv beta iota.
  assert ((if negb (le_val v =? 0)
           then '(_, w) ← GetTLV_into (encode_msg id ts ++ tail) (frame_size - (6 + 3)) 0x13 v 4;
                Done w
           else Done v)
          = Done (if le_val v =? 0 then v else tlv_update 0x13 4 v)) as ->.
  { destruct (le_val v =? 0); [done|]. cbn [negb]. by rewrite Hk. }
  rewrite outcome_bind_Done. do 2 (rewrite Hk by done). cbv beta iota.
  destruct out as [ov orx otx [st|]]; [|done]. cbn [df_set] in *.
  rewrite !Forall_cons in Hset. destruct Hset as (?&?&?&?&?&_).
  rewrite !outcome_bind_assoc.
  do 5 (rewrite Hk by done; cbv beta iota). done.
Qed.
End Responses.

(** ** Witnesses: the theorems applied to concrete messages *)

Lemma GetTLV_fuel_exact_witness :
  GetTLV (Some (hanging_message 1 0x10 [7])) 8 0x11 (Some [0; 0]) 2 = OutOfFuel ∧
  ∀ fuel, GetTLV_loop fuel (hanging_message 1 0x10 [7]) 8 0x11 [0; 0] 2 4 = OutOfFuel.
Proof.
  split; [vm_compute; reflexivity|].
  apply GetTLV_fuel_exact; [lia|vm_compute; reflexivity].
Defined.

Lemma GetTLV_hangs_witness :
  GetTLV_loop 1000 (hanging_message 0x22 0x10 [7; 8]) 9 0x11 [0; 0] 2 4 = OutOfFuel.
Proof. apply (GetTLV_hangs 0x22 0x10 [7; 8] 0x11 [0; 0] 2 1000); simpl; lia. Defined.

Lemma GetTLV_overread_witness :
  GetTLV (Some ([0x25; 0; 6; 0] ++ 0x12 :: le_bytes 2 14 ++ [0x41; 0x42; 0x43])) 10 0x12
    (Some (replicate 14 0)) 14 = OutOfBounds.
Proof.
  apply (GetTLV_overread [0x25; 0; 6; 0] 0x12 14 [0x41; 0x42; 0x43] (replicate 14 0) 14 10);
    auto with buf; simpl; lia.
Defined.

Lemma fill_spec_witness :
  fill (GetClientID 5 3) (Some (replicate 16 0)) 16 =
  Done (16, Some ([0; 0; 0; 0; 0; 0] ++ [0; 5; 0x22; 0; 4; 0; 1; 1; 0; 3])).
Proof.
  rewrite (fill_spec (GetClientID 5 3) (replicate 16 0) 16); [reflexivity|done|done].
Defined.

Lemma fill_refuses_short_buffers_witness :
  fill (Sync 1) (Some [1; 2; 3]) 3 = Done (- ENOMEM, Some [1; 2; 3]).
Proof. apply (fill_refuses_short_buffers (Sync 1)); [by intros|by right]. Defined.

Lemma data_format_qmap_overflows_witness :
  fill (SetDataFormat true 5 4096 1) (Some (replicate 24 0)) 24 = OutOfBounds.
Proof. apply (data_format_qmap_overflows true 5 4096 1); done. Defined.

Lemma request_roundtrip_witness :
  GetTLV_into (drop 8 [0; 0; 0; 0; 0; 0; 0; 5; 0x23; 0; 5; 0; 1; 2; 0; 3; 9]) 9 1 [0; 0] 2
  = Done (2, [3; 9]).
Proof.
  apply (request_roundtrip (ReleaseClientID 5 0x0903) (replicate 17 0) 17 17
    [0; 0; 0; 0; 0; 0; 0; 5; 0x23; 0; 5; 0; 1; 2; 0; 3; 9] 1 [0; 0] 2);
    first [reflexivity | simpl; lia | done].
Defined.

Lemma QMUX_roundtrip_witness :
  ParseQMUX (Some [1; 11; 0; 0; 3; 9; 0; 0; 0; 0; 0; 0]) 12 = Done (- EINVAL, None) ∧
  ∃ b', put8 [1; 11; 0; 0; 3; 9; 0; 0; 0; 0; 0; 0] 3 0x80 = Done b' ∧
        ParseQMUX (Some b') 12 = Done (6, Some 0x0903).
Proof.
  apply (QMUX_roundtrip 0x0903 (replicate 12 0) 12); [lia|lia|simpl; lia|reflexivity].
Defined.

Definition success_tlv : tlv := Tlv 2 [0; 0; 0; 0].

Lemma GetClientIDResp_spec_witness :
  QMICTLGetClientIDResp
    (Some (frame (replicate 8 0) 0x22 [success_tlv; Tlv 1 [3; 9]] [])) 24 [0; 0]
  = Done (0, [3; 9]).
Proof.
  apply (GetClientIDResp_spec (replicate 8 0) 0x22 [success_tlv; Tlv 1 [3; 9]] []);
    [lia| |reflexivity|reflexivity|reflexivity].
  repeat constructor; simpl; lia.
Defined.

Lemma ReleaseClientID_Sync_Resp_spec_witness :
  QMICTLReleaseClientIDResp (Some (frame (replicate 8 0) 0x23 [success_tlv] [1])) 19 = Done 0 ∧
  QMICTLSyncResp (Some (frame (replicate 8 0) 0x23 [success_tlv] [1])) 19 = Done (- EFAULT).
Proof.
  apply (ReleaseClientID_Sync_Resp_spec (replicate 8 0) 0x23 [success_tlv] [1]);
    [lia| |reflexivity|reflexivity].
  repeat constructor; simpl; lia.
Defined.

Definition zero_event : wds_event :=
  WdsEvent (replicate 4 0) (replicate 4 0) (replicate 4 0) (replicate 4 0) (replicate 4 0)
    (replicate 4 0) (replicate 8 0) (replicate 8 0) false false.

Lemma WDSEventResp_spec_witness :
  QMIWDSEventResp (Some (frame (replicate 9 0) 0x22 [Tlv 1 [2; 1]] [])) 18 (Some zero_event)
  = Done (0, Some (with_link zero_event true true)).
Proof.
  apply (WDSEventResp_spec (replicate 9 0) 0x22 [Tlv 1 [2; 1]] []);
    [lia| |reflexivity|reflexivity|].
  - repeat constructor; simpl; lia.
  - split; repeat constructor.
Defined.

Lemma GetMEIDResp_spec_witness :
  QMIDMSGetMEIDResp
    (Some (frame (replicate 9 0) 0x25 [success_tlv; Tlv 0x12 (replicate 14 0x41)] [])) 37
    (replicate 15 0) 14
  = Done (0, replicate 14 0x41 ++ [0]).
Proof.
  apply (GetMEIDResp_spec (replicate 9 0) 0x25 [success_tlv; Tlv 0x12 (replicate 14 0x41)] []);
    [lia| |reflexivity|reflexivity|lia|simpl; lia].
  repeat constructor; simpl; lia.
Defined.

Definition zero_format : data_format_out :=
  DataFormatOut (replicate 4 0) (replicate 4 0) (replicate 4 0) None.

Lemma SetDataFormatResp_spec_witness :
  QMIWDASetDataFormatResp
    (Some (frame (replicate 9 0) 0x20
       [success_tlv; Tlv 0x11 [2; 0; 0; 0]; Tlv 0x12 [5; 0; 0; 0]; Tlv 0x13 [9; 0; 0; 0]] []))
    41 true zero_format
  = Done (2, DataFormatOut [9; 0; 0; 0] (replicate 4 0) (replicate 4 0) None).
Proof.
  apply (SetDataFormatResp_spec (replicate 9 0) 0x20
    [success_tlv; Tlv 0x11 [2; 0; 0; 0]; Tlv 0x12 [5; 0; 0; 0]; Tlv 0x13 [9; 0; 0; 0]] []);
    [lia| |reflexivity|reflexivity|].
  - repeat constructor; simpl; lia.
  - split; repeat constructor.
Defined.

End Qmi.
