(* ===== verification/Ring.v ===== *)
(** * Rings with free-running 32-bit pointers

    The representation of a queue by an array of [n = 2^k] slots, a read and a
    write pointer that run freely over 32 bits and are masked on access.  The
    rings of [RecvRing] and [Sblock] are instances. *)

From S2P Require Import Prelude.

#[local] Open Scope Z_scope.
#[local] Open Scope c_scope.

(** The array [a] with pointers [rd] and [wt] holds the queue [q]. *)
Record ring_rep {A} (n rd wt : Z) (a q : list A) : Prop := {
  rep_size : ∃ k, 0 ≤ k ≤ 31 ∧ n = 2 ^ k;
  rep_rd : 0 ≤ rd < 2 ^ 32;
  rep_wt : wt = u32 (rd + Z.of_nat (length q));
  rep_cap : Z.of_nat (length q) ≤ n;
  rep_length : Z.of_nat (length a) = n;
  rep_slots : ∀ i x, q !! i = Some x → a !! Z.to_nat ((rd + Z.of_nat i) mod n) = Some x;
}.

Lemma pow2_mask k x : 0 ≤ k ≤ 31 → x &' u32 (2 ^ k - 1) = x mod 2 ^ k.
Proof.
  intros Hk. assert (0 < 2 ^ k) by (apply Z.pow_pos_nonneg; lia).
  assert (2 ^ k ≤ 2 ^ 31) by (apply Z.pow_le_mono_r; lia).
  rewrite u32_small by lia. rewrite <- Z.land_ones by lia. by rewrite Z.ones_equiv.
Qed.

Lemma u32_mod_pow2 k x : 0 ≤ k ≤ 31 → u32 x mod 2 ^ k = x mod 2 ^ k.
Proof.
  intros. unfold u32. apply Z.mod_mod_divide. exists (2 ^ (32 - k)).
  rewrite <- Z.pow_add_r by lia. f_equal. lia.
Qed.

Lemma mod_near d i j : 0 < d → i < j < i + d → i mod d ≠ j mod d.
Proof.
  intros Hd Hij E. assert ((j - i) mod d = 0) as E'
    by (by rewrite Zminus_mod, E, Z.sub_diag, Zmod_0_l).
  rewrite Z.mod_small in E'; lia.
Qed.

Lemma u32_add_idemp x y : u32 (u32 x + y) = u32 (x + y).
Proof. unfold u32. apply Zplus_mod_idemp_l. Qed.

Section Ring.
Context {A : Type}.
Implicit Types (a q : list A) (n rd wt : Z).

Lemma rep_bounds n rd wt a q : ring_rep n rd wt a q → 0 < n ≤ 2 ^ 31.
Proof.
  intros [(k&?&->) _ _ _ _ _]. split; [apply Z.pow_pos_nonneg; lia|].
  apply Z.pow_le_mono_r; lia.
Qed.

(** Masking gives a slot of the array, also past a 32-bit overflow. *)
Lemma rep_pos n rd wt a q (x : Z) :
  ring_rep n rd wt a q → x &' u32 (n - 1) = x mod n ∧ u32 x mod n = x mod n.
Proof. intros [(k&?&->) _ _ _ _ _]. auto using pow2_mask, u32_mod_pow2. Qed.

(** The 32-bit difference of the pointers is the number of queued elements,
    also when they have wrapped around. *)
Lemma rep_count n rd wt a q : ring_rep n rd wt a q → u32 (wt - rd) = Z.of_nat (length q).
Proof.
  intros Hr. pose proof (rep_bounds _ _ _ _ _ Hr). destruct Hr as [_ ? -> ? _ _].
  unfold u32. rewrite Zminus_mod_idemp_l.
  replace (rd + _ - rd) with (Z.of_nat (length q)) by lia. apply Z.mod_small. lia.
Qed.

Lemma rep_wt_range n rd wt a q : ring_rep n rd wt a q → 0 ≤ wt < 2 ^ 32.
Proof. intros [_ _ -> _ _ _]. apply u32_range. Qed.

Lemma rep_empty n rd wt a q : ring_rep n rd wt a q → (rd =? wt) = bool_decide (q = []).
Proof.
  intros Hr. pose proof (rep_count _ _ _ _ _ Hr) as Hc.
  destruct q as [|x q].
  - rewrite bool_decide_true by done. apply Z.eqb_eq.
    destruct Hr as [_ ? -> _ _ _]. simpl. rewrite Z.add_0_r, u32_small; lia.
  - rewrite bool_decide_false by done. apply Z.eqb_neq. intros ->.
    rewrite Z.sub_diag in Hc. change (u32 0) with 0 in Hc. rewrite length_cons in Hc. lia.
Qed.

Lemma rep_pop n rd wt a x q :
  ring_rep n rd wt a (x :: q) →
  a !! Z.to_nat (rd mod n) = Some x ∧ ring_rep n (u32 (rd + 1)) wt a q.
Proof.
  intros [Hn Hrd Hwt Hcap Hlen Hq]. split.
  { rewrite <- (Z.add_0_r rd). by apply (Hq 0%nat). }
  split; [done|apply u32_range| |rewrite length_cons in Hcap; lia|done|].
  - rewrite u32_add_idemp, Hwt, length_cons. f_equal. lia.
  - intros i y Hi. destruct Hn as (k&Hk&->). specialize (Hq (S i) y Hi). rewrite <- Hq.
    do 2 f_equal. rewrite Zplus_mod, u32_mod_pow2, <- Zplus_mod by done. f_equal. lia.
Qed.

(** Writing one slot leaves the others. *)
Lemma rep_other n rd a (i j : Z) (x y : A) :
  0 < n → i < j < i + n ∨ j < i < j + n →
  a !! Z.to_nat (i mod n) = Some y →
  <[Z.to_nat (j mod n) := x]> a !! Z.to_nat (i mod n) = Some y.
Proof.
  intros Hn Hij Hi. rewrite list_lookup_insert_ne; [done|].
  pose proof (Z.mod_pos_bound i n Hn). pose proof (Z.mod_pos_bound j n Hn).
  assert (i mod n ≠ j mod n) by
    (destruct Hij; [by apply mod_near|by apply not_eq_sym, mod_near]). lia.
Qed.

Lemma rep_push n rd wt a q x :
  ring_rep n rd wt a q → Z.of_nat (length q) < n →
  ring_rep n rd (u32 (wt + 1)) (<[Z.to_nat (wt mod n) := x]> a) (q ++ [x]).
Proof.
  intros Hr Hl. pose proof (rep_bounds _ _ _ _ _ Hr) as Hb.
  destruct Hr as [Hn Hrd Hwt Hcap Hlen Hq].
  assert (Epos : wt mod n = (rd + Z.of_nat (length q)) mod n).
  { destruct Hn as (k&Hk&->). by rewrite Hwt, u32_mod_pow2. }
  pose proof (Z.mod_pos_bound wt n) as Hpos.
  split; [done|done| |rewrite length_app; simpl; lia|by rewrite length_insert|].
  - rewrite Hwt, u32_add_idemp, length_app. f_equal. simpl. lia.
  - intros i y Hi. rewrite Epos in *. apply lookup_app_Some in Hi as [Hi|[Hge Hi]].
    + pose proof (lookup_lt_Some _ _ _ Hi). apply (rep_other n rd); [lia|lia|by apply Hq].
    + assert (i = length q) as -> by (apply lookup_lt_Some in Hi; simpl in Hi; lia).
      rewrite Nat.sub_diag in Hi. injection Hi as <-.
      apply list_lookup_insert_eq. lia.
Qed.

Lemma rep_push_front n rd wt a q x :
  ring_rep n rd wt a q → Z.of_nat (length q) < n →
  ring_rep n (u32 (rd - 1)) wt (<[Z.to_nat (u32 (rd - 1) mod n) := x]> a) (x :: q).
Proof.
  intros Hr Hl. pose proof (rep_bounds _ _ _ _ _ Hr) as Hb.
  destruct Hr as [Hn Hrd Hwt Hcap Hlen Hq].
  assert (Epos : ∀ i, (u32 (rd - 1) + i) mod n = (rd - 1 + i) mod n).
  { intros i. destruct Hn as (k&Hk&->).
    by rewrite Zplus_mod, u32_mod_pow2, <- Zplus_mod. }
  pose proof (Epos 0) as Epos0. rewrite !Z.add_0_r in Epos0. rewrite Epos0.
  pose proof (Z.mod_pos_bound (rd - 1) n) as Hpos.
  split; [done|apply u32_range| |rewrite length_cons; lia|by rewrite length_insert|].
  - rewrite u32_add_idemp, Hwt, length_cons. f_equal. lia.
  - intros i y Hi. rewrite Epos. destruct i as [|i]; simpl in Hi.
    + injection Hi as <-. rewrite Z.add_0_r. apply list_lookup_insert_eq. lia.
    + pose proof (lookup_lt_Some _ _ _ Hi).
      replace (rd - 1 + Z.of_nat (S i)) with (rd + Z.of_nat i) by lia.
      apply (rep_other n rd); [lia|lia|by apply Hq].
Qed.

Lemma rep_empty_intro n k rd a :
  0 ≤ k ≤ 31 → n = 2 ^ k → 0 ≤ rd < 2 ^ 32 → Z.of_nat (length a) = n →
  ring_rep n rd rd a [].
Proof.
  intros Hk -> Hrd Hl. split; [by exists k|done| |simpl; lia|done|done].
  simpl. rewrite Z.add_0_r, u32_small; lia.
Qed.

(** An array filled from slot 0 by pointers that start at 0. *)
Lemma rep_full_intro n k a :
  0 ≤ k ≤ 31 → n = 2 ^ k → Z.of_nat (length a) = n → ring_rep n 0 n a a.
Proof.
  intros Hk Hn Hl. assert (n ≤ 2 ^ 31) by (subst n; apply Z.pow_le_mono_r; lia).
  split; [by exists k|lia| |lia|done|].
  - rewrite Z.add_0_l, u32_small; lia.
  - intros i x Hi. pose proof (lookup_lt_Some _ _ _ Hi).
    rewrite Z.add_0_l, Z.mod_small by lia. by rewrite Nat2Z.id.
Qed.

(** A full array read from any pointer holds its elements in rotated order. *)
Lemma rep_rotate_intro n k rd a :
  0 ≤ k ≤ 31 → n = 2 ^ k → 0 ≤ rd < 2 ^ 32 → Z.of_nat (length a) = n →
  ring_rep n rd (u32 (rd + n)) a (rotate (Z.to_nat (rd mod n)) a).
Proof.
  intros Hk Hn Hrd Hl. assert (0 < n) by (subst n; apply Z.pow_pos_nonneg; lia).
  pose proof (Z.mod_pos_bound rd n ltac:(done)).
  split; [by exists k|done|by rewrite length_rotate, Hl|rewrite length_rotate; lia|done|].
  intros i x [Hx Hi]%lookup_rotate_r_Some. rewrite <- Hx. f_equal.
  rewrite rotate_nat_add_add_mod, Nat.mod_small, rotate_nat_add_alt by lia.
  rewrite <- Zplus_mod_idemp_l. case_decide.
  - rewrite Z.mod_small; lia.
  - rewrite <- (Z_mod_plus_full _ (-1)), Z.mod_small; lia.
Qed.

(** Several elements at once. *)
Lemma rep_pop_many n rd wt a l q :
  ring_rep n rd wt a (l ++ q) →
  (∀ i x, l !! i = Some x → a !! Z.to_nat ((rd + Z.of_nat i) mod n) = Some x)
  ∧ ring_rep n (u32 (rd + Z.of_nat (length l))) wt a q.
Proof.
  intros [Hn Hrd Hwt Hcap Hlen Hq]. rewrite length_app in *. split.
  { intros i x Hi. apply Hq. by apply lookup_app_l_Some. }
  split; [done|apply u32_range| |lia|done|].
  - rewrite u32_add_idemp, Hwt. f_equal. lia.
  - intros i y Hi. rewrite <- (Hq (length l + i)%nat y).
    + do 2 f_equal. destruct Hn as (k&Hk&->).
      rewrite Zplus_mod, u32_mod_pow2, <- Zplus_mod by done. f_equal. lia.
    + rewrite lookup_app_r by lia. by replace (length l + i - length l)%nat with i by lia.
Qed.

Lemma rep_push_many n rd wt a a' q l :
  ring_rep n rd wt a q → Z.of_nat (length q + length l) ≤ n → length a' = length a →
  (∀ i x, l !! i = Some x → a' !! Z.to_nat ((wt + Z.of_nat i) mod n) = Some x) →
  (∀ j : Z, 0 ≤ j < n → (∀ i, (i < length l)%nat → j ≠ (wt + Z.of_nat i) mod n) →
    a' !! Z.to_nat j = a !! Z.to_nat j) →
  ring_rep n rd (u32 (wt + Z.of_nat (length l))) a' (q ++ l).
Proof.
  intros Hr Hcap' Hlen' Hnew Hold. pose proof (rep_bounds _ _ _ _ _ Hr) as Hb.
  destruct Hr as [Hn Hrd Hwt Hcap Hlen Hq].
  assert (Epos : ∀ i, (wt + i) mod n = (rd + (Z.of_nat (length q) + i)) mod n).
  { intros i. destruct Hn as (k&Hk&->). rewrite Hwt, Zplus_mod, u32_mod_pow2, <- Zplus_mod by done.
    f_equal. lia. }
  split; [done|done| |rewrite length_app; lia|lia|].
  - rewrite Hwt, u32_add_idemp, length_app. f_equal. lia.
  - intros i y Hi. apply lookup_app_Some in Hi as [Hi|[Hge Hi]].
    + pose proof (lookup_lt_Some _ _ _ Hi). rewrite Hold; [by apply Hq|apply Z.mod_pos_bound; lia|].
      intros i' Hi'. rewrite Epos. apply mod_near; lia.
    + rewrite <- (Hnew _ _ Hi), Epos. do 3 f_equal. lia.
Qed.
End Ring.
