(* ===== verification/FifoPhy.v ===== *)
(** * Registers of the SIPA common FIFO

    Model of [src/drivers/quectel-sprd-pcie/src/sipa/sipa_phy_v0/sipa_fifo_phy.h]:
    the accessors of the memory-mapped registers of one FIFO.  The device is a
    parameter: a type [D] of device states with [readl] and [writel] (class
    [Mmio]); what the hardware is relied on for is the class [RegisterFile],
    which [gmap_device] implements. *)

From S2P Require Import Prelude.
From stdpp Require Import gmap.

#[local] Open Scope Z_scope.
#[local] Open Scope c_scope.

(** ** Register offsets *)

Definition IPA_COMMON_RX_FIFO_DEPTH : Z := 0x00.
Definition IPA_COMMON_RX_FIFO_WR : Z := 0x04.
Definition IPA_COMMON_RX_FIFO_RD : Z := 0x08.
Definition IPA_COMMON_TX_FIFO_DEPTH : Z := 0x0C.
Definition IPA_COMMON_TX_FIFO_WR : Z := 0x10.
Definition IPA_COMMON_TX_FIFO_RD : Z := 0x14.
Definition IPA_COMMON_RX_FIFO_ADDRL : Z := 0x18.
Definition IPA_COMMON_RX_FIFO_ADDRH : Z := 0x1C.
Definition IPA_COMMON_TX_FIFO_ADDRL : Z := 0x20.
Definition IPA_COMMON_TX_FIFO_ADDRH : Z := 0x24.
Definition IPA_PERFETCH_FIFO_CTL : Z := 0x28.
Definition IPA_INT_GEN_CTL_TX_FIFO_VALUE : Z := 0x2C.
Definition IPA_INT_GEN_CTL_EN : Z := 0x30.
Definition IPA_DROP_PACKET_CNT : Z := 0x34.
Definition IPA_FLOW_CTRL_CONFIG : Z := 0x38.
Definition IPA_TX_FIFO_FLOW_CTRL : Z := 0x3C.
Definition IPA_RX_FIFO_FLOW_CTRL : Z := 0x40.
Definition IPA_INT_GEN_CTL_CLR : Z := 0x48.
Definition IPA_TX_FIFO_WR_INIT : Z := 0x60.
Definition IPA_COMMON_RX_FIFO_AXI_STS : Z := 0x64.

Definition BIT (n : Z) : Z := 1 ≪ n.

Definition IPA_TXFIFO_INT_THRESHOLD_ONESHOT_EN : Z := BIT 11.
Definition IPA_TXFIFO_INT_THRESHOLD_SW_EN : Z := BIT 10.
Definition IPA_TXFIFO_INT_DELAY_TIMER_SW_EN : Z := BIT 9.
Definition IPA_TXFIFO_FULL_INT_EN : Z := BIT 8.
Definition IPA_TXFIFO_OVERFLOW_EN : Z := BIT 7.
Definition IPA_ERRORCODE_IN_TX_FIFO_EN : Z := BIT 6.
Definition IPA_DROP_PACKET_OCCUR_INT_EN : Z := BIT 5.
Definition IPA_RX_FIFO_INT_EXIT_FLOW_CTRL_EN : Z := BIT 4.
Definition IPA_RX_FIFO_INT_ENTER_FLOW_CTRL_EN : Z := BIT 3.
Definition IPA_TX_FIFO_INTR_SW_BIT_EN : Z := BIT 2.
Definition IPA_TX_FIFO_THRESHOLD_EN : Z := BIT 1.
Definition IPA_TX_FIFO_DELAY_TIMER_EN : Z := BIT 0.
Definition IPA_INT_EN_BIT_GROUP : Z := 0x00000FFF.

Definition IPA_INT_STS_GROUP : Z := 0x5FF000.

Definition IPA_TX_FIFO_TIMER_CLR_BIT : Z := BIT 0.
Definition IPA_TX_FIFO_THRESHOLD_CLR_BIT : Z := BIT 1.

(** ** The device *)

Class Mmio (D : Type) := {
  readl : D → Z → Z;
  writel : Z → Z → D → D;
}.

(** What the driver relies on, for the FIFO at [base], while the hardware is not
    itself moving data: registers are 32 bits wide; the writable bits of a
    register read back as written, and a write to one register leaves the
    writable bits of the others alone.  [rw off] are the writable bits of the
    register at offset [off]; the other bits are status, and free to change at
    any write. *)
Class RegisterFile (D : Type) `{Mmio D} (rw : Z → Z) (base : Z) := {
  readl_range d a : 0 ≤ readl d a < 2 ^ 32;
  readl_same d off v :
    readl (writel v (base + off) d) (base + off) &' rw off = u32 v &' rw off;
  readl_other d off off' v :
    off ≠ off' →
    readl (writel v (base + off) d) (base + off') &' rw off'
    = readl d (base + off') &' rw off';
}.

(** The writable bits, by the header's use of the registers. *)
Definition rw_field (off : Z) : Z :=
  if bool_decide (off ∈ [IPA_COMMON_RX_FIFO_DEPTH; IPA_COMMON_RX_FIFO_WR;
                         IPA_COMMON_RX_FIFO_RD; IPA_COMMON_TX_FIFO_DEPTH;
                         IPA_COMMON_TX_FIFO_RD]) then 0xFFFF0000
  else if bool_decide (off ∈ [IPA_COMMON_RX_FIFO_ADDRL; IPA_COMMON_RX_FIFO_ADDRH;
                              IPA_COMMON_TX_FIFO_ADDRL; IPA_COMMON_TX_FIFO_ADDRH;
                              IPA_INT_GEN_CTL_TX_FIFO_VALUE; IPA_TX_FIFO_FLOW_CTRL;
                              IPA_RX_FIFO_FLOW_CTRL; IPA_TX_FIFO_WR_INIT]) then 0xFFFFFFFF
  else if off =? IPA_PERFETCH_FIFO_CTL then 0x0003FFFF
  else if off =? IPA_INT_GEN_CTL_EN then IPA_INT_EN_BIT_GROUP
  else if off =? IPA_FLOW_CTRL_CONFIG then 0x0000000F
  else 0.

Section Phy.
Context {D : Type} `{Mmio D}.

(** Register operations act on the device state. *)
Definition io (A : Type) : Type := D → A * D.
#[global] Instance io_ret : MRet io := λ A a d, (a, d).
#[global] Instance io_bind : MBind io := λ A B f m d, let '(a, d') := m d in f a d'.

Definition readl_relaxed (addr : Z) : io Z := λ d, (readl d addr, d).
Definition writel_relaxed (v addr : Z) : io () := λ d, ((), writel v addr d).

(** *** Depths, pointers and addresses *)

Definition ipa_phy_set_rx_fifo_total_depth (fifo_base depth : Z) : io Z :=
  if 0xFFFF <? depth then mret (- EINVAL) else
  tmp ← readl_relaxed (fifo_base + IPA_COMMON_RX_FIFO_DEPTH);
  let tmp := tmp &' 0x0000FFFF in
  let tmp := tmp |' u32 (depth ≪ 16) in
  writel_relaxed tmp (fifo_base + IPA_COMMON_RX_FIFO_DEPTH);;
  tmp ← readl_relaxed (fifo_base + IPA_COMMON_RX_FIFO_DEPTH);
  mret (if (tmp &' 0xFFFF0000) =? tmp then 0 else - EINVAL).

Definition ipa_phy_get_rx_fifo_total_depth (fifo_base : Z) : io Z :=
  tmp ← readl_relaxed (fifo_base + IPA_COMMON_RX_FIFO_DEPTH);
  mret ((tmp ≫ 16) &' 0x0000FFFF).

Definition ipa_phy_get_rx_fifo_filled_depth (fifo_base : Z) : io Z :=
  tmp ← readl_relaxed (fifo_base + IPA_COMMON_RX_FIFO_DEPTH);
  mret (tmp &' 0x0000FFFF).

Definition ipa_phy_get_rx_fifo_full_status (fifo_base : Z) : io Z :=
  tmp ← readl_relaxed (fifo_base + IPA_COMMON_RX_FIFO_WR);
  mret (tmp &' 0x1).

Definition ipa_phy_update_rx_fifo_wptr (fifo_base wptr : Z) : io Z :=
  let fifo_reg_addr := fifo_base + IPA_COMMON_RX_FIFO_WR in
  if 0xFFFF <? wptr then mret (- EINVAL) else
  tmp ← readl_relaxed fifo_reg_addr;
  let tmp := tmp &' 0x0000FFFF in
  let tmp := tmp |' u32 (wptr ≪ 16) in
  writel_relaxed tmp fifo_reg_addr;;
  tmp ← readl_relaxed fifo_reg_addr;
  mret (if (tmp ≫ 16) =? wptr then 0 else - EIO).

Definition ipa_phy_get_rx_fifo_wptr (fifo_base : Z) : io Z :=
  tmp ← readl_relaxed (fifo_base + IPA_COMMON_RX_FIFO_WR);
  mret (tmp ≫ 16).

Definition ipa_phy_update_rx_fifo_rptr (fifo_base rptr : Z) : io Z :=
  let fifo_reg_addr := fifo_base + IPA_COMMON_RX_FIFO_RD in
  if 0xFFFF <? rptr then mret (- EINVAL) else
  tmp ← readl_relaxed fifo_reg_addr;
  let tmp := tmp &' 0x0000FFFF in
  let tmp := tmp |' u32 (rptr ≪ 16) in
  writel_relaxed tmp fifo_reg_addr;;
  tmp ← readl_relaxed fifo_reg_addr;
  mret (if (tmp ≫ 16) =? rptr then 0 else - EIO).

Definition ipa_phy_get_rx_fifo_rptr (fifo_base : Z) : io Z :=
  tmp ← readl_relaxed (fifo_base + IPA_COMMON_RX_FIFO_RD);
  mret (tmp ≫ 16).

Definition ipa_phy_get_rx_fifo_empty_status (fifo_base : Z) : io Z :=
  tmp ← readl_relaxed (fifo_base + IPA_COMMON_RX_FIFO_RD);
  mret (tmp &' 0x1).

Definition ipa_phy_set_tx_fifo_total_depth (fifo_base depth : Z) : io Z :=
  let fifo_reg_addr := fifo_base + IPA_COMMON_TX_FIFO_DEPTH in
  if 0xFFFF <? depth then mret (- EINVAL) else
  tmp ← readl_relaxed fifo_reg_addr;
  let tmp := tmp &' 0x0000FFFF in
  let tmp := tmp |' u32 (depth ≪ 16) in
  writel_relaxed tmp fifo_reg_addr;;
  tmp ← readl_relaxed fifo_reg_addr;
  mret (if (tmp ≫ 16) =? depth then 0 else - EIO).

Definition ipa_phy_get_tx_fifo_total_depth (fifo_base : Z) : io Z :=
  tmp ← readl_relaxed (fifo_base + IPA_COMMON_TX_FIFO_DEPTH);
  mret ((tmp ≫ 16) &' 0x0000FFFF).

Definition ipa_phy_get_tx_fifo_filled_depth (fifo_base : Z) : io Z :=
  tmp ← readl_relaxed (fifo_base + IPA_COMMON_TX_FIFO_DEPTH);
  mret (tmp &' 0x0000FFFF).

Definition ipa_phy_get_tx_fifo_full_status (fifo_base : Z) : io Z :=
  tmp ← readl_relaxed (fifo_base + IPA_COMMON_TX_FIFO_WR);
  mret (tmp &' 0x1).

Definition ipa_phy_get_tx_fifo_empty_status (fifo_base : Z) : io Z :=
  tmp ← readl_relaxed (fifo_base + IPA_COMMON_TX_FIFO_RD);
  mret (tmp &' 0x1).

(** The initial write pointer goes through its own register: the value, then
    a pulse on bit 1. *)
Definition ipa_phy_update_tx_fifo_wptr (fifo_base wptr : Z) : io Z :=
  let fifo_reg_addr := fifo_base + IPA_TX_FIFO_WR_INIT in
  if 0xFFFF <? wptr then mret (- EINVAL) else
  tmp ← readl_relaxed fifo_reg_addr;
  let tmp := tmp &' 0x0000FFFF in
  let tmp := tmp |' u32 (wptr ≪ 16) in
  writel_relaxed tmp fifo_reg_addr;;
  tmp ← readl_relaxed fifo_reg_addr;
  let tmp := tmp |' 0x2 in
  writel_relaxed tmp fifo_reg_addr;;
  tmp ← readl_relaxed fifo_reg_addr;
  let tmp := tmp &' 0xFFFFFFFD in
  writel_relaxed tmp fifo_reg_addr;;
  tmp ← readl_relaxed fifo_reg_addr;
  mret (if (tmp ≫ 16) =? wptr then 0 else - EIO).

Definition ipa_phy_get_tx_fifo_wptr (fifo_base : Z) : io Z :=
  tmp ← readl_relaxed (fifo_base + IPA_COMMON_TX_FIFO_WR);
  mret (tmp ≫ 16).

Definition ipa_phy_update_tx_fifo_rptr (fifo_base rptr : Z) : io Z :=
  let fifo_reg_addr := fifo_base + IPA_COMMON_TX_FIFO_RD in
  if 0xFFFF <? rptr then mret (- EINVAL) else
  tmp ← readl_relaxed fifo_reg_addr;
  let tmp := tmp &' 0x0000FFFF in
  let tmp := tmp |' u32 (rptr ≪ 16) in
  writel_relaxed tmp fifo_reg_addr;;
  tmp ← readl_relaxed fifo_reg_addr;
  mret (if (tmp ≫ 16) =? rptr then 0 else - EIO).

Definition ipa_phy_get_tx_fifo_rptr (fifo_base : Z) : io Z :=
  tmp ← readl_relaxed (fifo_base + IPA_COMMON_TX_FIFO_RD);
  mret (tmp ≫ 16).

Definition ipa_phy_set_rx_fifo_addr (fifo_base addr_l addr_h : Z) : io Z :=
  writel_relaxed addr_l (fifo_base + IPA_COMMON_RX_FIFO_ADDRL);;
  writel_relaxed addr_h (fifo_base + IPA_COMMON_RX_FIFO_ADDRH);;
  tmp_l ← readl_relaxed (fifo_base + IPA_COMMON_RX_FIFO_ADDRL);
  tmp_h ← readl_relaxed (fifo_base + IPA_COMMON_RX_FIFO_ADDRH);
  mret (if (tmp_l =? addr_l) && (tmp_h =? addr_h) then 0 else - EIO).

Definition ipa_phy_get_rx_fifo_addr (fifo_base : Z) : io (Z * Z) :=
  addr_l ← readl_relaxed (fifo_base + IPA_COMMON_RX_FIFO_ADDRL);
  addr_h ← readl_relaxed (fifo_base + IPA_COMMON_RX_FIFO_ADDRH);
  mret (addr_l, addr_h).

Definition ipa_phy_set_tx_fifo_addr (fifo_base addr_l addr_h : Z) : io Z :=
  writel_relaxed addr_l (fifo_base + IPA_COMMON_TX_FIFO_ADDRL);;
  writel_relaxed addr_h (fifo_base + IPA_COMMON_TX_FIFO_ADDRH);;
  tmp_l ← readl_relaxed (fifo_base + IPA_COMMON_TX_FIFO_ADDRL);
  tmp_h ← readl_relaxed (fifo_base + IPA_COMMON_TX_FIFO_ADDRH);
  mret (if (tmp_l =? addr_l) && (tmp_h =? addr_h) then 0 else - EIO).

Definition ipa_phy_get_tx_fifo_addr (fifo_base : Z) : io (Z * Z) :=
  addr_l ← readl_relaxed (fifo_base + IPA_COMMON_TX_FIFO_ADDRL);
  addr_h ← readl_relaxed (fifo_base + IPA_COMMON_TX_FIFO_ADDRH);
  mret (addr_l, addr_h).

(** *** Interrupts *)

Definition ipa_phy_enable_int_bit (fifo_base int_bit : Z) : io Z :=
  let fifo_reg_addr := fifo_base + IPA_INT_GEN_CTL_EN in
  tmp ← readl_relaxed fifo_reg_addr;
  let tmp := tmp |' int_bit in
  writel_relaxed tmp fifo_reg_addr;;
  tmp ← readl_relaxed fifo_reg_addr;
  mret (if (tmp &' int_bit) =? int_bit then 0 else - EIO).

Definition ipa_phy_disable_int_bit (fifo_base int_bit : Z) : io Z :=
  let fifo_reg_addr := fifo_base + IPA_INT_GEN_CTL_EN in
  tmp ← readl_relaxed fifo_reg_addr;
  let tmp := tmp &' u32 (Z.lnot int_bit) in
  writel_relaxed tmp fifo_reg_addr;;
  tmp ← readl_relaxed fifo_reg_addr;
  let tmp := tmp &' int_bit in
  mret (if negb (tmp =? 0) then - EIO else 0).

Definition ipa_phy_get_all_intr_enable_status (fifo_base : Z) : io Z :=
  tmp ← readl_relaxed (fifo_base + IPA_INT_GEN_CTL_EN);
  mret (tmp &' IPA_INT_EN_BIT_GROUP).

Definition ipa_phy_get_fifo_int_sts (fifo_base sts : Z) : io Z :=
  tmp ← readl_relaxed (fifo_base + IPA_INT_GEN_CTL_EN);
  mret (if negb ((tmp &' sts) =? 0) then 0 else - EIO).

Definition ipa_phy_get_fifo_all_int_sts (fifo_base : Z) : io Z :=
  tmp ← readl_relaxed (fifo_base + IPA_INT_GEN_CTL_EN);
  mret (tmp &' IPA_INT_STS_GROUP).

Definition ipa_phy_clear_int (fifo_base clr_bit : Z) : io () :=
  writel_relaxed clr_bit (fifo_base + IPA_INT_GEN_CTL_CLR).

Definition ipa_phy_get_drop_packet_cnt (fifo_base : Z) : io Z :=
  readl_relaxed (fifo_base + IPA_DROP_PACKET_CNT).

Definition ipa_phy_get_tx_fifo_interrupt_threshold (fifo_base : Z) : io Z :=
  tmp ← readl_relaxed (fifo_base + IPA_INT_GEN_CTL_TX_FIFO_VALUE);
  mret (tmp ≫ 16).

Definition ipa_phy_set_tx_fifo_interrupt_threshold (fifo_base threshold : Z) : io Z :=
  let fifo_reg_addr := fifo_base + IPA_INT_GEN_CTL_TX_FIFO_VALUE in
  if 0xFFFF <? threshold then mret (- EINVAL) else
  tmp ← readl_relaxed fifo_reg_addr;
  let tmp := tmp &' 0x0000FFFF in
  let tmp := tmp |' u32 (threshold ≪ 16) in
  writel_relaxed tmp fifo_reg_addr;;
  tmp ← readl_relaxed fifo_reg_addr;
  mret (if (tmp ≫ 16) =? threshold then 0 else - EIO).

Definition ipa_phy_get_tx_fifo_interrupt_delay_timer (fifo_base : Z) : io Z :=
  tmp ← readl_relaxed (fifo_base + IPA_INT_GEN_CTL_TX_FIFO_VALUE);
  mret (tmp &' 0x0000FFFF).

Definition ipa_phy_set_tx_fifo_interrupt_delay_timer (fifo_base threshold : Z) : io Z :=
  let fifo_reg_addr := fifo_base + IPA_INT_GEN_CTL_TX_FIFO_VALUE in
  if 0xFFFF <? threshold then mret (- EINVAL) else
  tmp ← readl_relaxed fifo_reg_addr;
  let tmp := tmp &' 0xFFFF0000 in
  let tmp := tmp |' threshold in
  writel_relaxed tmp fifo_reg_addr;;
  tmp ← readl_relaxed fifo_reg_addr;
  mret (if (tmp &' 0x0000FFFF) =? threshold then 0 else - EIO).

(** *** Terminals and prefetch *)

Definition ipa_phy_get_cur_term_num (fifo_base : Z) : io Z :=
  tmp ← readl_relaxed (fifo_base + IPA_PERFETCH_FIFO_CTL);
  mret ((tmp &' 0x0003E000) ≫ 13).

Definition ipa_phy_set_cur_term_num (fifo_base num : Z) : io Z :=
  let fifo_reg_addr := fifo_base + IPA_PERFETCH_FIFO_CTL in
  if 0x1F <? num then mret (- EINVAL) else
  tmp ← readl_relaxed fifo_reg_addr;
  let tmp := tmp &' 0xFFFC1FFF in
  let tmp := tmp |' u32 (num ≪ 13) in
  writel_relaxed tmp fifo_reg_addr;;
  tmp ← readl_relaxed fifo_reg_addr;
  mret (if ((tmp &' 0x0003E000) ≫ 13) =? num then 0 else - EIO).

Definition ipa_phy_get_dst_term_num (fifo_base : Z) : io Z :=
  tmp ← readl_relaxed (fifo_base + IPA_PERFETCH_FIFO_CTL);
  mret ((tmp &' 0x00001F00) ≫ 8).

Definition ipa_phy_set_dst_term_num (fifo_base num : Z) : io Z :=
  let fifo_reg_addr := fifo_base + IPA_PERFETCH_FIFO_CTL in
  if 0x1F <? num then mret (- EINVAL) else
  tmp ← readl_relaxed fifo_reg_addr;
  let tmp := tmp &' 0xFFFFE0FF in
  let tmp := tmp |' u32 (num ≪ 8) in
  writel_relaxed tmp fifo_reg_addr;;
  tmp ← readl_relaxed fifo_reg_addr;
  mret (if ((tmp &' 0x00001F00) ≫ 8) =? num then 0 else - EIO).

Definition ipa_phy_get_prefetch_fifo_priority (fifo_base : Z) : io Z :=
  tmp ← readl_relaxed (fifo_base + IPA_PERFETCH_FIFO_CTL);
  mret ((tmp &' 0x000000F0) ≫ 4).

Definition ipa_phy_set_prefetch_fifo_priority (fifo_base pri : Z) : io Z :=
  let fifo_reg_base := fifo_base + IPA_PERFETCH_FIFO_CTL in
  if 0xF <? pri then mret (- EINVAL) else
  tmp ← readl_relaxed fifo_reg_base;
  let tmp := tmp &' 0xFFFFFF0F in
  let tmp := tmp |' u32 (pri ≪ 4) in
  writel_relaxed tmp fifo_reg_base;;
  tmp ← readl_relaxed fifo_reg_base;
  mret (if ((tmp &' 0x000000F0) ≫ 4) =? pri then 0 else - EIO).

Definition ipa_phy_get_prefetch_threshold (fifo_base : Z) : io Z :=
  tmp ← readl_relaxed (fifo_base + IPA_PERFETCH_FIFO_CTL);
  mret (tmp &' 0xF).

Definition ipa_phy_set_prefetch_threshold (fifo_base threshold : Z) : io Z :=
  let fifo_reg_addr := fifo_base + IPA_PERFETCH_FIFO_CTL in
  if 0xF <? threshold then mret (- EINVAL) else
  tmp ← readl_relaxed fifo_reg_addr;
  let tmp := tmp &' 0xFFFFFFF0 in
  let tmp := tmp |' threshold in
  writel_relaxed tmp fifo_reg_addr;;
  tmp ← readl_relaxed fifo_reg_addr;
  mret (if (tmp &' 0xF) =? threshold then 0 else - EIO).

(** *** Flow control *)

Definition ipa_phy_stop_receive (fifo_base : Z) : io Z :=
  let fifo_reg_addr := fifo_base + IPA_FLOW_CTRL_CONFIG in
  tmp ← readl_relaxed fifo_reg_addr;
  let tmp := tmp |' 0x8 in
  writel_relaxed tmp fifo_reg_addr;;
  tmp ← readl_relaxed fifo_reg_addr;
  mret (if negb ((tmp &' 0x8) =? 0) then 0 else - EIO).

Definition ipa_phy_clear_stop_receive (fifo_base : Z) : io Z :=
  let fifo_reg_addr := fifo_base + IPA_FLOW_CTRL_CONFIG in
  tmp ← readl_relaxed fifo_reg_addr;
  let tmp := tmp &' 0xFFFFFFF7 in
  writel_relaxed tmp fifo_reg_addr;;
  tmp ← readl_relaxed fifo_reg_addr;
  mret (if (tmp &' 0x8) =? 0 then 0 else - EIO).

Definition ipa_phy_flow_ctrl_recover (fifo_base : Z) : io Z :=
  let fifo_reg_addr := fifo_base + IPA_FLOW_CTRL_CONFIG in
  tmp ← readl_relaxed fifo_reg_addr;
  let tmp := tmp |' 0x4 in
  writel_relaxed tmp fifo_reg_addr;;
  tmp ← readl_relaxed fifo_reg_addr;
  if negb ((tmp &' 0x4) =? 0) then
    let tmp := tmp &' 0xFFFFFFFB in
    writel_relaxed tmp fifo_reg_addr;;
    tmp ← readl_relaxed fifo_reg_addr;
    mret (if (tmp &' 0x4) =? 0 then 0 else - EIO)
  else mret (- EINVAL).

Definition ipa_phy_set_flow_ctrl_config (fifo_base config : Z) : io Z :=
  let fifo_reg_addr := fifo_base + IPA_FLOW_CTRL_CONFIG in
  tmp ← readl_relaxed fifo_reg_addr;
  let tmp := tmp &' 0xFFFFFFFC in
  let tmp := tmp |' config in
  writel_relaxed tmp fifo_reg_addr;;
  tmp ← readl_relaxed fifo_reg_addr;
  mret (if (tmp &' 0x00000003) =? config then 0 else - EIO).

Definition ipa_phy_get_flow_ctrl_config (fifo_base : Z) : io Z :=
  tmp ← readl_relaxed (fifo_base + IPA_FLOW_CTRL_CONFIG);
  mret (tmp &' 0x00000003).

Definition ipa_phy_set_tx_fifo_exit_flow_ctrl_watermark (fifo_base watermark : Z) : io Z :=
  let fifo_reg_addr := fifo_base + IPA_TX_FIFO_FLOW_CTRL in
  tmp ← readl_relaxed fifo_reg_addr;
  let tmp := tmp &' 0x0000FFFF in
  let tmp := tmp |' u32 (watermark ≪ 16) in
  writel_relaxed tmp fifo_reg_addr;;
  tmp ← readl_relaxed fifo_reg_addr;
  mret (if (tmp ≫ 16) =? watermark then 0 else - EIO).

Definition ipa_phy_get_tx_fifo_exit_flow_ctrl_watermark (fifo_base : Z) : io Z :=
  tmp ← readl_relaxed (fifo_base + IPA_TX_FIFO_FLOW_CTRL);
  mret (tmp ≫ 16).

Definition ipa_phy_set_tx_fifo_entry_flow_ctrl_watermark (fifo_base watermark : Z) : io Z :=
  let fifo_reg_addr := fifo_base + IPA_TX_FIFO_FLOW_CTRL in
  tmp ← readl_relaxed fifo_reg_addr;
  let tmp := tmp &' 0xFFFF0000 in
  let tmp := tmp |' watermark in
  writel_relaxed tmp fifo_reg_addr;;
  tmp ← readl_relaxed fifo_reg_addr;
  mret (if (tmp &' 0x0000FFFF) =? watermark then 0 else - EIO).

Definition ipa_phy_get_tx_fifo_entry_flow_ctrl_watermark (fifo_base : Z) : io Z :=
  tmp ← readl_relaxed (fifo_base + IPA_TX_FIFO_FLOW_CTRL);
  mret (tmp &' 0x0000FFFF).

Definition ipa_phy_set_rx_fifo_exit_flow_ctrl_watermark (fifo_base watermark : Z) : io Z :=
  let fifo_reg_addr := fifo_base + IPA_RX_FIFO_FLOW_CTRL in
  tmp ← readl_relaxed fifo_reg_addr;
  let tmp := tmp &' 0x0000FFFF in
  let tmp := tmp |' u32 (watermark ≪ 16) in
  writel_relaxed tmp fifo_reg_addr;;
  tmp ← readl_relaxed fifo_reg_addr;
  mret (if (tmp ≫ 16) =? watermark then 0 else - EIO).

Definition ipa_phy_get_rx_fifo_exit_flow_ctrl_watermark (fifo_base : Z) : io Z :=
  tmp ← readl_relaxed (fifo_base + IPA_RX_FIFO_FLOW_CTRL);
  mret (tmp ≫ 16).

Definition ipa_phy_set_rx_fifo_entry_flow_ctrl_watermark (fifo_base watermark : Z) : io Z :=
  let fifo_reg_addr := fifo_base + IPA_RX_FIFO_FLOW_CTRL in
  tmp ← readl_relaxed fifo_reg_addr;
  let tmp := tmp &' 0xFFFF0000 in
  let tmp := tmp |' watermark in
  writel_relaxed tmp fifo_reg_addr;;
  tmp ← readl_relaxed fifo_reg_addr;
  mret (if (tmp &' 0x0000FFFF) =? watermark then 0 else - EIO).

Definition ipa_phy_get_rx_fifo_entry_flow_ctrl_watermark (fifo_base : Z) : io Z :=
  tmp ← readl_relaxed (fifo_base + IPA_RX_FIFO_FLOW_CTRL);
  mret (tmp &' 0x0000FFFF).

Definition ipa_phy_get_rx_fifo_axi_sts (fifo_base : Z) : io Z :=
  tmp ← readl_relaxed (fifo_base + IPA_COMMON_RX_FIFO_AXI_STS);
  mret (tmp &' 0x00000003).
End Phy.
Arguments io D A : clear implicits.

(** ** Specification: bit fields

    A field is [f_len] bits from bit [f_lo] of the register at [f_off]. *)

Record field := Field { f_off : Z; f_lo : Z; f_len : Z }.

Definition field_mask (f : field) : Z := Z.ones (f_len f) ≪ f_lo f.
Definition field_of (f : field) (x : Z) : Z := (x ≫ f_lo f) &' Z.ones (f_len f).
Definition field_update (f : field) (x v : Z) : Z :=
  Z.ldiff x (field_mask f) |' (v ≪ f_lo f).

Definition field_ok (f : field) : Prop :=
  0 ≤ f_lo f ∧ 0 < f_len f ∧ f_lo f + f_len f ≤ 32.

#[export] Instance field_eq_dec : EqDecision field.
Proof. solve_decision. Defined.

(** Bitwise equality of [Z]s, with hypotheses on masks used bit by bit. *)
Ltac zbits :=
  apply Z.bits_inj'; let i := fresh "i" in intros i ?;
  repeat match goal with
  | E : @eq Z ?a ?b |- _ =>
    lazymatch a with
    | Z.land _ _ => apply (f_equal (λ z, Z.testbit z i)) in E
    | Z.ldiff _ _ => apply (f_equal (λ z, Z.testbit z i)) in E
    end
  end;
  repeat progress
    (rewrite ?Z.land_spec, ?Z.lor_spec, ?Z.ldiff_spec, ?Z.bits_0 in *;
     rewrite ?Z.lnot_spec in * by assumption);
  repeat match goal with
  | |- context [Z.testbit ?x i] => destruct (Z.testbit x i)
  | E : context [Z.testbit ?x i] |- _ => destruct (Z.testbit x i)
  end; simpl in *; congruence.

Lemma land_submask a b r m : m &' r = m → a &' r = b &' r → a &' m = b &' m.
Proof. intros Hm Hr. rewrite <- Hm, (Z.land_comm m), !Z.land_assoc. by rewrite Hr. Qed.

Lemma land_clear t g m c : m &' g = Z.ldiff g c → (t &' m) &' g = Z.ldiff (t &' g) c.
Proof. intros Hm. rewrite <- Z.land_assoc, Hm. zbits. Qed.

Lemma land_narrow x y g m : g &' m = m → x &' g = y → x &' m = y &' m.
Proof. intros Hm <-. by rewrite <- Z.land_assoc, Hm. Qed.

Lemma update_land_same x m v : v &' m = v → (Z.ldiff x m |' v) &' m = v.
Proof. intros Hv. zbits. Qed.

Lemma update_land_disjoint x m v g :
  v &' m = v → m &' g = 0 → (Z.ldiff x m |' v) &' g = x &' g.
Proof. intros Hv Hd. zbits. Qed.

Lemma field_of_land f x : 0 ≤ f_lo f → field_of f x = (x &' field_mask f) ≫ f_lo f.
Proof.
  intros. unfold field_of, field_mask. rewrite Z.shiftr_land, Z.shiftr_shiftl_l by lia.
  by rewrite Z.sub_diag, Z.shiftl_0_r.
Qed.

Lemma field_value_land f v :
  field_ok f → 0 ≤ v < 2 ^ f_len f → (v ≪ f_lo f) &' field_mask f = v ≪ f_lo f.
Proof.
  intros (?&?&?) Hv. unfold field_mask. rewrite <- Z.shiftl_land, Z.land_ones by lia.
  by rewrite Z.mod_small.
Qed.

Lemma u32_land x : u32 x = x &' Z.ones 32.
Proof. unfold u32. by rewrite Z.land_ones by lia. Qed.

Lemma field_mask_32 f : field_ok f → field_mask f &' Z.ones 32 = field_mask f.
Proof.
  intros (?&?&?). unfold field_mask. rewrite Z.land_ones by lia.
  rewrite Z.mod_small; [done|]. rewrite Z.shiftl_mul_pow2, Z.ones_equiv by lia.
  assert (2 ^ 32 = 2 ^ (f_len f + f_lo f) * 2 ^ (32 - (f_len f + f_lo f))) as ->
    by (rewrite <- Z.pow_add_r by lia; f_equal; lia).
  rewrite Z.pow_add_r by lia.
  assert (0 < 2 ^ f_len f) by (apply Z.pow_pos_nonneg; lia).
  assert (0 < 2 ^ f_lo f) by (apply Z.pow_pos_nonneg; lia).
  assert (0 < 2 ^ (32 - (f_len f + f_lo f))) by (apply Z.pow_pos_nonneg; lia).
  nia.
Qed.

Section FieldSpec.
Context {D : Type} `{Mmio D}.

Definition field_get (f : field) (base : Z) : io D Z :=
  tmp ← readl_relaxed (base + f_off f); mret (field_of f tmp).

(** A read-modify-write with the read-back check of the driver. *)
Definition field_set (f : field) (base v : Z) : io D Z :=
  tmp ← readl_relaxed (base + f_off f);
  writel_relaxed (field_update f tmp v) (base + f_off f);;
  tmp ← readl_relaxed (base + f_off f);
  mret (if field_of f tmp =? v then 0 else - EIO).

Definition disjoint_fields (f g : field) : bool :=
  negb (f_off f =? f_off g) || (field_mask f &' field_mask g =? 0).

Context (rw : Z → Z) (base : Z) `{!RegisterFile D rw base}.

(** The field is made of writable bits. *)
Definition writable (f : field) : Prop := field_mask f &' rw (f_off f) = field_mask f.

Lemma field_of_after_write f v d w :
  field_ok f → writable f →
  w &' field_mask f = v ≪ f_lo f →
  field_of f (readl (writel w (base + f_off f) d) (base + f_off f)) = v.
Proof.
  intros Hf Hw Hv. pose proof Hf as (Hlo&?&?). rewrite field_of_land by done.
  rewrite (land_submask _ (u32 w) _ _ Hw (readl_same d (f_off f) w)).
  rewrite u32_land, <- Z.land_assoc, (Z.land_comm (Z.ones 32)), field_mask_32 by done.
  by rewrite Hv, Z.shiftr_shiftl_l, Z.sub_diag, Z.shiftl_0_r by lia.
Qed.

Lemma field_set_run f v d :
  field_set f base v d =
  let d' := writel (field_update f (readl d (base + f_off f)) v) (base + f_off f) d in
  (if field_of f (readl d' (base + f_off f)) =? v then 0 else - EIO, d').
Proof. done. Qed.

Lemma field_get_run f d :
  field_get f base d = (field_of f (readl d (base + f_off f)), d).
Proof. done. Qed.

Lemma field_set_ok f v d :
  field_ok f → writable f → 0 ≤ v < 2 ^ f_len f →
  (field_set f base v d).1 = 0 ∧ (field_get f base (field_set f base v d).2).1 = v.
Proof.
  intros Hf Hw Hv. rewrite field_set_run, field_get_run. cbn -[Z.eqb field_of].
  rewrite (field_of_after_write f v); [by rewrite Z.eqb_refl|done|done|].
  unfold field_update. by apply update_land_same, field_value_land.
Qed.

Lemma field_set_frame f g v d :
  field_ok f → field_ok g → writable g → 0 ≤ v < 2 ^ f_len f →
  disjoint_fields f g = true →
  (field_get g base (field_set f base v d).2).1 = (field_get g base d).1.
Proof.
  intros Hf Hg Hw Hv Hd. rewrite field_set_run, !field_get_run. cbn -[field_of].
  pose proof Hg as (?&?&?). rewrite !field_of_land by done. f_equal.
  unfold disjoint_fields in Hd. destruct (Z.eqb_spec (f_off f) (f_off g)) as [Ho|Ho].
  - simpl in Hd. apply Z.eqb_eq in Hd. rewrite Ho.
    rewrite (land_submask _ _ _ _ Hw (readl_same d (f_off g) _)).
    rewrite u32_land, <- Z.land_assoc, (Z.land_comm (Z.ones 32)), field_mask_32 by done.
    unfold field_update. rewrite update_land_disjoint; [done| |done].
    by apply field_value_land.
  - eapply land_submask; [exact Hw|]. by apply readl_other.
Qed.
End FieldSpec.

(** ** The fields of the register block

    Every setting that is a field, with the accessors of the header. *)

Inductive phy_field :=
  | TxFifoDepth | RxFifoWptr | RxFifoRptr | TxFifoRptr
  | IntThreshold | IntDelayTimer
  | CurTermNum | DstTermNum | PrefetchPriority | PrefetchThreshold
  | FlowCtrlConfig
  | TxExitWatermark | TxEntryWatermark | RxExitWatermark | RxEntryWatermark.

#[export] Instance phy_field_eq_dec : EqDecision phy_field.
Proof. solve_decision. Defined.

Definition all_phy_fields : list phy_field :=
  [TxFifoDepth; RxFifoWptr; RxFifoRptr; TxFifoRptr; IntThreshold; IntDelayTimer;
   CurTermNum; DstTermNum; PrefetchPriority; PrefetchThreshold; FlowCtrlConfig;
   TxExitWatermark; TxEntryWatermark; RxExitWatermark; RxEntryWatermark].

Definition phy_layout (k : phy_field) : field :=
  match k with
  | TxFifoDepth => Field IPA_COMMON_TX_FIFO_DEPTH 16 16
  | RxFifoWptr => Field IPA_COMMON_RX_FIFO_WR 16 16
  | RxFifoRptr => Field IPA_COMMON_RX_FIFO_RD 16 16
  | TxFifoRptr => Field IPA_COMMON_TX_FIFO_RD 16 16
  | IntThreshold => Field IPA_INT_GEN_CTL_TX_FIFO_VALUE 16 16
  | IntDelayTimer => Field IPA_INT_GEN_CTL_TX_FIFO_VALUE 0 16
  | CurTermNum => Field IPA_PERFETCH_FIFO_CTL 13 5
  | DstTermNum => Field IPA_PERFETCH_FIFO_CTL 8 5
  | PrefetchPriority => Field IPA_PERFETCH_FIFO_CTL 4 4
  | PrefetchThreshold => Field IPA_PERFETCH_FIFO_CTL 0 4
  | FlowCtrlConfig => Field IPA_FLOW_CTRL_CONFIG 0 2
  | TxExitWatermark => Field IPA_TX_FIFO_FLOW_CTRL 16 16
  | TxEntryWatermark => Field IPA_TX_FIFO_FLOW_CTRL 0 16
  | RxExitWatermark => Field IPA_RX_FIFO_FLOW_CTRL 16 16
  | RxEntryWatermark => Field IPA_RX_FIFO_FLOW_CTRL 0 16
  end.

(** The accessors that refuse a value wider than the field. *)
Definition range_checked (k : phy_field) : bool :=
  match k with
  | FlowCtrlConfig | TxExitWatermark | TxEntryWatermark | RxExitWatermark
  | RxEntryWatermark => false
  | _ => true
  end.

Section PhyFields.
Context {D : Type} `{Mmio D}.

Definition phy_set (k : phy_field) : Z → Z → io D Z :=
  match k with
  | TxFifoDepth => ipa_phy_set_tx_fifo_total_depth
  | RxFifoWptr => ipa_phy_update_rx_fifo_wptr
  | RxFifoRptr => ipa_phy_update_rx_fifo_rptr
  | TxFifoRptr => ipa_phy_update_tx_fifo_rptr
  | IntThreshold => ipa_phy_set_tx_fifo_interrupt_threshold
  | IntDelayTimer => ipa_phy_set_tx_fifo_interrupt_delay_timer
  | CurTermNum => ipa_phy_set_cur_term_num
  | DstTermNum => ipa_phy_set_dst_term_num
  | PrefetchPriority => ipa_phy_set_prefetch_fifo_priority
  | PrefetchThreshold => ipa_phy_set_prefetch_threshold
  | FlowCtrlConfig => ipa_phy_set_flow_ctrl_config
  | TxExitWatermark => ipa_phy_set_tx_fifo_exit_flow_ctrl_watermark
  | TxEntryWatermark => ipa_phy_set_tx_fifo_entry_flow_ctrl_watermark
  | RxExitWatermark => ipa_phy_set_rx_fifo_exit_flow_ctrl_watermark
  | RxEntryWatermark => ipa_phy_set_rx_fifo_entry_flow_ctrl_watermark
  end.

Definition phy_get (k : phy_field) : Z → io D Z :=
  match k with
  | TxFifoDepth => ipa_phy_get_tx_fifo_total_depth
  | RxFifoWptr => ipa_phy_get_rx_fifo_wptr
  | RxFifoRptr => ipa_phy_get_rx_fifo_rptr
  | TxFifoRptr => ipa_phy_get_tx_fifo_rptr
  | IntThreshold => ipa_phy_get_tx_fifo_interrupt_threshold
  | IntDelayTimer => ipa_phy_get_tx_fifo_interrupt_delay_timer
  | CurTermNum => ipa_phy_get_cur_term_num
  | DstTermNum => ipa_phy_get_dst_term_num
  | PrefetchPriority => ipa_phy_get_prefetch_fifo_priority
  | PrefetchThreshold => ipa_phy_get_prefetch_threshold
  | FlowCtrlConfig => ipa_phy_get_flow_ctrl_config
  | TxExitWatermark => ipa_phy_get_tx_fifo_exit_flow_ctrl_watermark
  | TxEntryWatermark => ipa_phy_get_tx_fifo_entry_flow_ctrl_watermark
  | RxExitWatermark => ipa_phy_get_rx_fifo_exit_flow_ctrl_watermark
  | RxEntryWatermark => ipa_phy_get_rx_fifo_entry_flow_ctrl_watermark
  end.
End PhyFields.

Ltac unfold_setters :=
  unfold ipa_phy_set_tx_fifo_total_depth, ipa_phy_update_rx_fifo_wptr,
    ipa_phy_update_rx_fifo_rptr, ipa_phy_update_tx_fifo_rptr,
    ipa_phy_set_tx_fifo_interrupt_threshold,
    ipa_phy_set_tx_fifo_interrupt_delay_timer, ipa_phy_set_cur_term_num,
    ipa_phy_set_dst_term_num, ipa_phy_set_prefetch_fifo_priority,
    ipa_phy_set_prefetch_threshold, ipa_phy_set_flow_ctrl_config,
    ipa_phy_set_tx_fifo_exit_flow_ctrl_watermark,
    ipa_phy_set_tx_fifo_entry_flow_ctrl_watermark,
    ipa_phy_set_rx_fifo_exit_flow_ctrl_watermark,
    ipa_phy_set_rx_fifo_entry_flow_ctrl_watermark.

(** The arithmetic of the accessors, as field operations. *)

Lemma land_ldiff x m m' :
  0 ≤ x < 2 ^ 32 → m = Z.ldiff (Z.ones 32) m' → x &' m = Z.ldiff x m'.
Proof.
  intros Hx ->. rewrite <- (Z.mod_small x (2 ^ 32)) by done.
  rewrite <- Z.land_ones by lia. zbits.
Qed.

Lemma field_of_high f x :
  0 ≤ x < 2 ^ 32 → 0 ≤ f_lo f → f_lo f + f_len f = 32 → 0 < f_len f →
  field_of f x = x ≫ f_lo f.
Proof.
  intros Hx ???. unfold field_of. rewrite Z.land_ones by lia. apply Z.mod_small.
  rewrite Z.shiftr_div_pow2 by lia. split; [apply Z.div_pos; lia|].
  apply Z.div_lt_upper_bound; [lia|]. rewrite <- Z.pow_add_r by lia.
  replace (f_lo f + f_len f) with 32 by lia. lia.
Qed.

Lemma field_of_low f x : f_lo f = 0 → field_of f x = x &' Z.ones (f_len f).
Proof. intros Hlo. unfold field_of. by rewrite Hlo, Z.shiftr_0_r. Qed.

Lemma u32_shiftl v lo len :
  0 ≤ lo → 0 ≤ len → lo + len ≤ 32 → 0 ≤ v < 2 ^ len → u32 (v ≪ lo) = v ≪ lo.
Proof.
  intros. unfold u32. rewrite Z.mod_small; [done|]. rewrite Z.shiftl_mul_pow2 by lia.
  assert (2 ^ 32 = 2 ^ (len + lo) * 2 ^ (32 - (len + lo))) as ->
    by (rewrite <- Z.pow_add_r by lia; f_equal; lia).
  rewrite Z.pow_add_r by lia.
  assert (0 < 2 ^ lo) by (apply Z.pow_pos_nonneg; lia).
  assert (0 < 2 ^ (32 - (len + lo))) by (apply Z.pow_pos_nonneg; lia).
  assert (v * 2 ^ lo < 2 ^ len * 2 ^ lo) by nia. nia.
Qed.

Lemma phy_layout_ok k : field_ok (phy_layout k).
Proof. destruct k; unfold field_ok; simpl; lia. Qed.

Lemma phy_layout_writable k : writable rw_field (phy_layout k).
Proof. destruct k; vm_compute; reflexivity. Qed.

(** No two settings share a bit. *)
Lemma phy_layout_disjoint k k' :
  k ≠ k' → disjoint_fields (phy_layout k) (phy_layout k') = true.
Proof. destruct k, k'; intros ?; first [done|vm_compute; reflexivity]. Qed.

Lemma field_update_spelled f x v m w :
  0 ≤ x < 2 ^ 32 → m = Z.ldiff (Z.ones 32) (field_mask f) → w = v ≪ f_lo f →
  (x &' m) |' w = field_update f x v.
Proof. intros Hx Hm ->. unfold field_update. by rewrite (land_ldiff _ _ _ Hx Hm). Qed.

Section PhyFieldTheory.
Context {D : Type} `{Mmio D} (base : Z) `{!RegisterFile D rw_field base}.

Ltac field_of_goal :=
  first [ reflexivity
        | rewrite field_of_high by (simpl; lia || apply readl_range || assumption); reflexivity
        | rewrite field_of_low by done; reflexivity
        | rewrite field_of_land by (simpl; lia); reflexivity ].

Lemma phy_get_field k d : phy_get k base d = field_get (phy_layout k) base d.
Proof. rewrite field_get_run. destruct k; field_of_goal. Qed.

(** An accessor's read-modify-write, spelled with any mask and shift. *)
Definition spelled_set (off m : Z) (w : Z) (g : Z → Z) (v : Z) : io D Z :=
  tmp ← readl_relaxed (base + off);
  writel_relaxed ((tmp &' m) |' w) (base + off);;
  tmp ← readl_relaxed (base + off);
  mret (if g tmp =? v then 0 else - EIO).

Lemma spelled_set_field f m w g v d :
  m = Z.ldiff (Z.ones 32) (field_mask f) → w = v ≪ f_lo f →
  (∀ x, 0 ≤ x < 2 ^ 32 → g x = field_of f x) →
  spelled_set (f_off f) m w g v d = field_set f base v d.
Proof.
  intros Hm Hw Hg. rewrite field_set_run. unfold spelled_set.
  cbv [mbind mret io_bind io_ret readl_relaxed writel_relaxed].
  rewrite (field_update_spelled f _ v m w) by (done || apply readl_range).
  rewrite Hg by apply readl_range. reflexivity.
Qed.

Lemma phy_set_field k v d :
  0 ≤ v < 2 ^ f_len (phy_layout k) →
  phy_set k base v d = field_set (phy_layout k) base v d.
Proof.
  intros Hv. pose proof (phy_layout_ok k) as (?&?&?).
  pose proof (u32_shiftl v (f_lo (phy_layout k)) (f_len (phy_layout k))) as Hu.
  destruct k; cbn [phy_set phy_layout f_lo f_len] in *;
    unfold_setters;
    rewrite ?(proj2 (Z.ltb_ge _ v)) by lia;
    (match goal with
    |- (_ ≫= λ x, writel_relaxed ((x &' ?m) |' ?w) _ ≫= λ _,
        _ ≫= λ y, mret (if @?g y =? _ then _ else _)) d = field_set ?f base v d =>
      apply (spelled_set_field f m w g v d)
    end;
    [ reflexivity
    | first [by apply Hu|by rewrite Z.shiftl_0_r]
    | intros x ?; symmetry; field_of_goal ]).
Qed.
End PhyFieldTheory.

(** ** A register file in memory

    [gmap Z Z] as a device whose FIFO registers start at address 0: a write
    changes the writable bits and leaves the status bits as they are. *)

#[export] Instance gmap_mmio : Mmio (gmap Z Z) := {
  readl d a := u32 (default 0 (d !! a));
  writel v a d :=
    <[a := (u32 v &' rw_field a) |' Z.ldiff (u32 (default 0 (d !! a))) (rw_field a)]> d;
}.

Lemma rw_field_32 off : rw_field off &' Z.ones 32 = rw_field off.
Proof. unfold rw_field. repeat case_match; reflexivity. Qed.

#[export] Instance gmap_register_file : RegisterFile (gmap Z Z) rw_field 0.
Proof.
  split.
  - intros d a. apply u32_range.
  - intros d off v. rewrite Z.add_0_l. unfold readl, writel; simpl.
    rewrite lookup_insert_eq; simpl. pose proof (rw_field_32 off).
    rewrite !u32_land. zbits.
  - intros d off off' v Ho. rewrite !Z.add_0_l. unfold readl, writel; simpl.
    by rewrite lookup_insert_ne by done.
Qed.

(** ** Properties *)

Section PhyTheory.
Context {D : Type} `{Mmio D} (base : Z) `{!RegisterFile D rw_field base}.

(** C39: For the fifteen settings of [phy_field] - the transmit depth, the read and
    write pointers of the receive FIFO and the read pointer of the transmit FIFO,
    the threshold and the delay timer of the transmit interrupt, the current and
    the destination terminal, the priority and the threshold of the prefetch, the
    flow control, and the four watermarks - setting a value that fits returns 0,
    the getter then returns the value, and no other of these settings changes.
    The receive depth is not among them: its setter refuses values that fit. *)
Theorem phy_set_get k v d :
  0 ≤ v < 2 ^ f_len (phy_layout k) →
  let '(ret, d') := phy_set k base v d in
  ret = 0 ∧ (phy_get k base d').1 = v
  ∧ ∀ k', k' ≠ k → (phy_get k' base d').1 = (phy_get k' base d).1.
Proof.
  intros Hv. rewrite (phy_set_field base) by done.
  destruct (field_set (phy_layout k) base v d) as [ret d'] eqn:E.
  pose proof (field_set_ok rw_field base _ v d (phy_layout_ok k)
    (phy_layout_writable k) Hv) as Hok. rewrite E in Hok.
  split_and!; [apply Hok|by rewrite (phy_get_field base); apply Hok|].
  intros k' Hk. rewrite !(phy_get_field base).
  replace d' with (field_set (phy_layout k) base v d).2 by (by rewrite E).
  apply (field_set_frame rw_field base);
    auto using phy_layout_ok, phy_layout_writable, phy_layout_disjoint, not_eq_sym.
Qed.

(** A range-checked setter refuses a wider value and touches nothing. *)
Theorem phy_set_refuses k v d :
  range_checked k = true → 2 ^ f_len (phy_layout k) ≤ v →
  phy_set k base v d = (- EINVAL, d).
Proof.
  intros Hk Hv. destruct k; try discriminate Hk; cbn [phy_layout f_len phy_set] in *;
    unfold_setters; by rewrite (proj2 (Z.ltb_lt _ v)) by lia.
Qed.

(** Writable bits of a register, just after a write to it or to another. *)
Lemma readback_same m off w d :
  m &' rw_field off = m →
  readl (writel w (base + off) d) (base + off) &' m = w &' m.
Proof.
  intros Hm. rewrite (land_submask _ (u32 w) _ _ Hm (readl_same d off w)).
  rewrite u32_land, <- Z.land_assoc, (Z.land_comm (Z.ones 32)).
  rewrite <- Hm, <- (Z.land_assoc m), rw_field_32. done.
Qed.

Lemma readback_other m off off' w d :
  m &' rw_field off' = m → off ≠ off' →
  readl (writel w (base + off) d) (base + off') &' m = readl d (base + off') &' m.
Proof. intros Hm Ho. apply (land_submask _ _ _ _ Hm). by apply readl_other. Qed.

Lemma phy_get_other k off w d :
  off ≠ f_off (phy_layout k) →
  (phy_get k base (writel w (base + off) d)).1 = (phy_get k base d).1.
Proof.
  intros Ho. pose proof (phy_layout_ok k) as (?&?&?).
  rewrite !(phy_get_field base), !field_get_run; simpl.
  rewrite !field_of_land by done. f_equal.
  apply readback_other; [apply phy_layout_writable|done].
Qed.

(** The depth of the receive FIFO is programmed for every 16-bit value, but
    the call reports success exactly when the FIFO is empty afterwards: the
    read-back check compares the whole register with its depth field. *)
Theorem rx_total_depth_status depth d :
  0 ≤ depth ≤ 0xFFFF →
  let '(ret, d') := ipa_phy_set_rx_fifo_total_depth base depth d in
  (ipa_phy_get_rx_fifo_total_depth base d').1 = depth
  ∧ ret = (if (ipa_phy_get_rx_fifo_filled_depth base d').1 =? 0 then 0 else - EINVAL).
Proof.
  intros Hd. unfold ipa_phy_set_rx_fifo_total_depth.
  rewrite (proj2 (Z.ltb_ge _ _)) by lia.
  cbv [mbind mret io_bind io_ret readl_relaxed writel_relaxed fst
       ipa_phy_get_rx_fifo_total_depth ipa_phy_get_rx_fifo_filled_depth].
  rewrite (u32_shiftl depth 16 16) by lia.
  set (d' := writel _ _ _).
  set (r := readl d' (base + IPA_COMMON_RX_FIFO_DEPTH)).
  assert (Hr : 0 ≤ r < 2 ^ 32) by apply readl_range.
  split.
  - pose proof (field_of_land (Field IPA_COMMON_RX_FIFO_DEPTH 16 16) r) as E.
    unfold field_of in E; simpl in E. change (Z.ones 16) with 65535 in E.
    rewrite E by lia. change (field_mask _) with 0xFFFF0000. subst r d'.
    rewrite readback_same by reflexivity.
    replace (_ &' 0xFFFF0000) with (depth ≪ 16).
    { by rewrite Z.shiftr_shiftl_l, Z.shiftl_0_r by lia. }
    symmetry. rewrite Z.land_lor_distr_l, <- Z.land_assoc, Z.land_0_r, Z.lor_0_l.
    apply (field_value_land (Field IPA_COMMON_RX_FIFO_DEPTH 16 16));
      unfold field_ok; simpl; lia.
  - assert (E : r &' 0xFFFF0000 = r ↔ r &' 0xFFFF = 0).
    { assert (Hs : r = r &' Z.ones 32) by (rewrite Z.land_ones, Z.mod_small by lia; lia).
      split; intros E.
      - rewrite <- E, <- Z.land_assoc. apply Z.land_0_r.
      - rewrite Hs at 2. change (Z.ones 32) with (0xFFFF0000 |' 0xFFFF).
        by rewrite Z.land_lor_distr_r, E, Z.lor_0_r. }
    destruct (Z.eqb_spec (r &' 0xFFFF) 0), (Z.eqb_spec (r &' 0xFFFF0000) r); tauto.
Qed.

(** Enabling adds exactly the given interrupts to the enabled set, disabling
    removes exactly them; both report success, and leave every setting. *)
Theorem int_bits_spec bits d :
  bits &' IPA_INT_EN_BIT_GROUP = bits →
  let enabled d := (ipa_phy_get_all_intr_enable_status base d).1 in
  let '(r1, d1) := ipa_phy_enable_int_bit base bits d in
  let '(r2, d2) := ipa_phy_disable_int_bit base bits d in
  r1 = 0 ∧ r2 = 0
  ∧ enabled d1 = (enabled d |' bits)
  ∧ enabled d2 = Z.ldiff (enabled d) bits
  ∧ ∀ k, (phy_get k base d1).1 = (phy_get k base d).1
       ∧ (phy_get k base d2).1 = (phy_get k base d).1.
Proof.
  intros Hb. cbv [mbind mret io_bind io_ret readl_relaxed writel_relaxed fst
    ipa_phy_get_all_intr_enable_status ipa_phy_enable_int_bit ipa_phy_disable_int_bit].
  assert (Hrw : IPA_INT_EN_BIT_GROUP &' rw_field IPA_INT_GEN_CTL_EN = IPA_INT_EN_BIT_GROUP)
    by reflexivity.
  assert (Hb' : bits &' rw_field IPA_INT_GEN_CTL_EN = bits) by exact Hb.
  rewrite !readback_same by done.
  set (t := readl d _). rewrite u32_land.
  assert (H32 : IPA_INT_EN_BIT_GROUP &' Z.ones 32 = IPA_INT_EN_BIT_GROUP) by reflexivity.
  split_and!.
  - replace ((t |' bits) &' bits) with bits by zbits. by rewrite Z.eqb_refl.
  - rewrite <- !Z.land_assoc, (Z.land_comm (Z.ones 32)), (Z.land_assoc (Z.lnot bits)).
    by rewrite (Z.land_comm (Z.lnot bits)), Z.land_lnot_diag, Z.land_0_r.
  - zbits.
  - zbits.
  - intros k. split; apply phy_get_other; destruct k; discriminate.
Qed.

(** Both halves of a FIFO's base address are programmed and read back; the
    two FIFOs' addresses and the settings do not disturb each other. *)
Theorem fifo_addr_spec lo hi d :
  0 ≤ lo < 2 ^ 32 → 0 ≤ hi < 2 ^ 32 →
  let '(r1, d1) := ipa_phy_set_rx_fifo_addr base lo hi d in
  let '(r2, d2) := ipa_phy_set_tx_fifo_addr base lo hi d in
  r1 = 0 ∧ r2 = 0
  ∧ (ipa_phy_get_rx_fifo_addr base d1).1 = (lo, hi)
  ∧ (ipa_phy_get_tx_fifo_addr base d2).1 = (lo, hi)
  ∧ (ipa_phy_get_tx_fifo_addr base d1).1 = (ipa_phy_get_tx_fifo_addr base d).1
  ∧ (ipa_phy_get_rx_fifo_addr base d2).1 = (ipa_phy_get_rx_fifo_addr base d).1.
Proof.
  intros Hlo Hhi. cbv [mbind mret io_bind io_ret readl_relaxed writel_relaxed fst
    ipa_phy_set_rx_fifo_addr ipa_phy_set_tx_fifo_addr
    ipa_phy_get_rx_fifo_addr ipa_phy_get_tx_fifo_addr].
  assert (Hsame : ∀ off v d, rw_field off = Z.ones 32 → 0 ≤ v < 2 ^ 32 →
    readl (writel v (base + off) d) (base + off) = v).
  { intros off v d' Hoff Hv.
    rewrite <- (Z.mod_small (readl _ _) (2 ^ 32)) by apply readl_range.
    rewrite <- Z.land_ones, readback_same by (lia || by rewrite Hoff).
    rewrite Z.land_ones by lia. by apply Z.mod_small. }
  assert (Hother : ∀ off off' v d, rw_field off' = Z.ones 32 → off ≠ off' →
    readl (writel v (base + off) d) (base + off') = readl d (base + off')).
  { intros off off' v d' Hoff Hv.
    rewrite <- (Z.mod_small (readl _ _) (2 ^ 32)) by apply readl_range.
    rewrite <- Z.land_ones, readback_other by (lia || done || by rewrite Hoff).
    rewrite Z.land_ones by lia. apply Z.mod_small, readl_range. }
  repeat first [rewrite Hsame by done | rewrite Hother by done].
  by rewrite !Z.eqb_refl.
Qed.

(** Bit 3 of the flow-control register stops reception, bit 2 pulsed resumes
    it; each call succeeds and leaves the mode bits alone. *)
Theorem flow_ctrl_spec d :
  let ctl d := readl d (base + IPA_FLOW_CTRL_CONFIG) &' 0xF in
  let '(r1, d1) := ipa_phy_stop_receive base d in
  let '(r2, d2) := ipa_phy_clear_stop_receive base d in
  let '(r3, d3) := ipa_phy_flow_ctrl_recover base d in
  r1 = 0 ∧ ctl d1 = (ctl d |' 0x8)
  ∧ r2 = 0 ∧ ctl d2 = Z.ldiff (ctl d) 0x8
  ∧ r3 = 0 ∧ ctl d3 = Z.ldiff (ctl d) 0x4
  ∧ ∀ k, (phy_get k base d1).1 = (phy_get k base d).1
       ∧ (phy_get k base d2).1 = (phy_get k base d).1
       ∧ (phy_get k base d3).1 = (phy_get k base d).1.
Proof.
  cbv [mbind mret io_bind io_ret readl_relaxed writel_relaxed fst
    ipa_phy_stop_receive ipa_phy_clear_stop_receive ipa_phy_flow_ctrl_recover].
  set (t := readl d _).
  set (d1 := writel (t |' 8) _ d). set (d2 := writel (t &' _) _ d).
  set (d3 := writel (t |' 4) _ d).
  assert (E4 : (readl d3 (base + IPA_FLOW_CTRL_CONFIG) &' 4) = 4)
    by (subst d3; rewrite readback_same by reflexivity; zbits).
  rewrite E4. cbn [negb Z.eqb].
  set (d4 := writel _ _ d3).
  assert (E1 : readl d1 (base + IPA_FLOW_CTRL_CONFIG) &' 15 = ((t &' 15) |' 8))
    by (subst d1; rewrite readback_same by reflexivity; by rewrite Z.land_lor_distr_l).
  assert (E2 : readl d2 (base + IPA_FLOW_CTRL_CONFIG) &' 15 = Z.ldiff (t &' 15) 8)
    by (subst d2; rewrite readback_same by reflexivity; by apply land_clear).
  assert (E3 : readl d4 (base + IPA_FLOW_CTRL_CONFIG) &' 15 = Z.ldiff (t &' 15) 4).
  { subst d4. rewrite readback_same, (land_clear _ 15 _ 4) by reflexivity.
    subst d3. rewrite readback_same by reflexivity. zbits. }
  rewrite (land_narrow _ _ 15 8 eq_refl E1), (land_narrow _ _ 15 8 eq_refl E2),
    (land_narrow _ _ 15 4 eq_refl E3), E1, E2, E3.
  split_and!; try reflexivity.
  - by replace (_ &' 8) with 8 by zbits.
  - by replace (_ &' 8) with 0 by zbits.
  - by replace (_ &' 4) with 0 by zbits.
  - intros k. destruct (decide (k = FlowCtrlConfig)) as [->|Hk].
    + cbv [phy_get ipa_phy_get_flow_ctrl_config mbind mret io_bind io_ret
           readl_relaxed fst].
      fold t. rewrite (land_narrow _ _ 15 3 eq_refl E1), (land_narrow _ _ 15 3 eq_refl E2),
        (land_narrow _ _ 15 3 eq_refl E3), (land_narrow t _ 15 3 eq_refl eq_refl).
      split_and!.
      * rewrite Z.land_lor_distr_l, <- Z.land_assoc. apply Z.lor_0_r.
      * by rewrite !Z.ldiff_land, <- !Z.land_assoc.
      * by rewrite !Z.ldiff_land, <- !Z.land_assoc.
    + assert (IPA_FLOW_CTRL_CONFIG ≠ f_off (phy_layout k))
        by (destruct k; first [discriminate|congruence]).
      split_and!; [by apply phy_get_other..|].
      transitivity (phy_get k base d3).1; by apply phy_get_other.
Qed.

(** The entry watermark is not range checked: a value above 16 bits is
    reported as an error, but has by then been written, its high half or-ed
    into the exit watermark. *)
Theorem entry_watermark_unchecked (tx : bool) w d :
  0xFFFF < w < 2 ^ 32 →
  let entry := if tx then TxEntryWatermark else RxEntryWatermark in
  let exit := if tx then TxExitWatermark else RxExitWatermark in
  let '(ret, d') := phy_set entry base w d in
  ret = - EIO
  ∧ (phy_get entry base d').1 = w &' 0xFFFF
  ∧ (phy_get exit base d').1 = ((phy_get exit base d).1 |' (w ≫ 16)).
Proof.
  intros Hw entry exit.
  assert (Hlow : ∀ t, ((t &' 0xFFFF0000) |' w) &' 0xFFFF = w &' 0xFFFF).
  { intros t. rewrite Z.land_lor_distr_l, <- Z.land_assoc. by rewrite Z.land_0_r. }
  assert (Hne : w &' 0xFFFF ≠ w).
  { change 0xFFFF with (Z.ones 16). rewrite Z.land_ones by lia.
    pose proof (Z.mod_pos_bound w (2 ^ 16)). lia. }
  assert (Hhigh : ∀ r t, 0 ≤ t < 2 ^ 32 → 0 ≤ r < 2 ^ 32 →
    r &' Z.ones 32 = (((t &' 0xFFFF0000) |' w) &' Z.ones 32) →
    r ≫ 16 = ((t ≫ 16) |' (w ≫ 16))).
  { intros r t Ht Hr E. rewrite !Z.land_ones, (Z.mod_small r) in E by lia.
    assert (0 ≤ (t &' 0xFFFF0000) |' w) by
      (apply Z.lor_nonneg; split; [apply Z.land_nonneg|]; lia).
    rewrite <- Z.land_ones, Z.land_lor_distr_l, <- Z.land_assoc in E by lia.
    rewrite (Z.land_ones w), (Z.mod_small w) in E by lia.
    rewrite E, Z.shiftr_lor, Z.shiftr_land. f_equal.
    apply (field_of_high (Field 0 16 16) t); simpl; lia. }
  destruct tx; subst entry exit;
    cbv [phy_set phy_get mbind mret io_bind io_ret readl_relaxed writel_relaxed fst
      ipa_phy_set_tx_fifo_entry_flow_ctrl_watermark
      ipa_phy_get_tx_fifo_entry_flow_ctrl_watermark
      ipa_phy_get_tx_fifo_exit_flow_ctrl_watermark
      ipa_phy_set_rx_fifo_entry_flow_ctrl_watermark
      ipa_phy_get_rx_fifo_entry_flow_ctrl_watermark
      ipa_phy_get_rx_fifo_exit_flow_ctrl_watermark];
    rewrite readback_same, Hlow by reflexivity;
    rewrite (proj2 (Z.eqb_neq _ _) Hne);
    (split_and!; [done|done|]);
    (apply Hhigh; [apply readl_range|apply readl_range|by apply readback_same]).
Qed.
End PhyTheory.

(** ** Sequences of settings *)

Section Settle.
Context {D : Type} `{Mmio D} (base : Z) `{!RegisterFile D rw_field base}.

(** From [d] to [d'], the field [f] gets the value [v] and every disjoint
    field keeps its own. *)
Definition settle (f : field) (v : Z) (d d' : D) : Prop :=
  (field_get f base d').1 = v
  ∧ ∀ g, field_ok g → writable rw_field g → disjoint_fields f g = true →
      (field_get g base d').1 = (field_get g base d).1.

Inductive settles : list (field * Z) → D → D → Prop :=
  | settles_nil d : settles [] d d
  | settles_cons f v l d d1 d2 :
      settle f v d d1 → settles l d1 d2 → settles ((f, v) :: l) d d2.

Definition field_good (f : field) : Prop := field_ok f ∧ writable rw_field f.

Lemma settles_frame l d d' g :
  settles l d d' → field_good g →
  Forall (λ p, disjoint_fields p.1 g = true) l →
  (field_get g base d').1 = (field_get g base d).1.
Proof.
  intros Hs [??]. induction Hs as [|f v l d d1 d2 [_ Hf] _ IH]; [done|].
  intros [? Hl]%Forall_cons. rewrite IH by done. by apply Hf.
Qed.

(** After a sequence of settings of pairwise disjoint fields, every one of
    them holds. *)
Lemma settles_get l d d' :
  settles l d d' → Forall (λ p, field_good p.1) l →
  ForallOrdPairs (λ p q, disjoint_fields q.1 p.1 = true) l →
  Forall (λ p, (field_get p.1 base d').1 = p.2) l.
Proof.
  induction 1 as [|f v l d d1 d2 [Hv _] Hs IH]; [done|].
  intros [Hf Hl]%Forall_cons Hp. inversion_clear Hp as [|?? Hd Hp'].
  constructor; cbn [fst snd]; [|by apply IH].
  by rewrite (settles_frame l d1 d2 f).
Qed.

Lemma settle_write f w v d :
  field_ok f → writable rw_field f →
  w &' field_mask f = v ≪ f_lo f →
  Z.ldiff (w &' rw_field (f_off f)) (field_mask f)
    = Z.ldiff (readl d (base + f_off f) &' rw_field (f_off f)) (field_mask f) →
  settle f v d (writel w (base + f_off f) d).
Proof.
  intros Hf Hw Hv Hrest. split.
  { rewrite field_get_run. by apply (field_of_after_write rw_field base f v). }
  intros g Hg Hwg Hd. rewrite !field_get_run. simpl.
  pose proof Hg as (?&?&?). rewrite !field_of_land by done. f_equal.
  unfold disjoint_fields in Hd. destruct (Z.eqb_spec (f_off f) (f_off g)) as [Ho|Ho].
  - simpl in Hd. apply Z.eqb_eq in Hd. rewrite <- Ho in *. unfold writable in Hwg.
    rewrite <- Ho in Hwg. rewrite readback_same by done. clear - Hd Hrest Hwg.
    set (x := readl d _) in *. clearbody x. zbits.
  - by apply readback_other.
Qed.

Lemma settle_field_set f v d :
  field_ok f → writable rw_field f → 0 ≤ v < 2 ^ f_len f →
  settle f v d (field_set f base v d).2.
Proof.
  intros Hf Hw Hv. split; [by apply (field_set_ok rw_field)|].
  intros g ???. by apply (field_set_frame rw_field).
Qed.

Lemma settle_phy k v d :
  0 ≤ v < 2 ^ f_len (phy_layout k) → settle (phy_layout k) v d (phy_set k base v d).2.
Proof.
  intros Hv. rewrite (phy_set_field base) by done.
  apply settle_field_set; auto using phy_layout_ok, phy_layout_writable.
Qed.

Definition RxFifoDepthField : field := Field IPA_COMMON_RX_FIFO_DEPTH 16 16.
Definition StopReceiveField : field := Field IPA_FLOW_CTRL_CONFIG 3 1.
Definition WordField (off : Z) : field := Field off 0 32.

Lemma settle_word off v d :
  rw_field off = Z.ones 32 → 0 ≤ v < 2 ^ 32 →
  settle (WordField off) v d (writel v (base + off) d).
Proof.
  intros Hoff Hv. apply (settle_write (WordField off)); unfold field_ok, writable; simpl.
  - lia.
  - by rewrite Hoff.
  - unfold field_mask; simpl. rewrite !Z.shiftl_0_r, Z.land_ones by lia.
    by apply Z.mod_small.
  - rewrite Hoff. unfold field_mask; simpl. rewrite Z.shiftl_0_r.
    rewrite !Z.ldiff_land, <- !Z.land_assoc. by rewrite !Z.land_0_r.
Qed.

Lemma settle_rx_depth v d :
  0 ≤ v < 2 ^ 16 →
  settle RxFifoDepthField v d (ipa_phy_set_rx_fifo_total_depth base v d).2.
Proof.
  intros Hv. unfold ipa_phy_set_rx_fifo_total_depth.
  rewrite (proj2 (Z.ltb_ge _ v)) by lia. simpl.
  rewrite (u32_shiftl v 16 16) by lia.
  assert (Hok : field_ok RxFifoDepthField) by (unfold field_ok; simpl; lia).
  pose proof (field_value_land _ v Hok Hv) as E. simpl in E.
  apply (settle_write RxFifoDepthField); [done|done| |]; simpl.
  - rewrite Z.land_lor_distr_l, <- Z.land_assoc, Z.land_0_r, Z.lor_0_l. exact E.
  - set (x := readl _ _). set (m := field_mask _) in *.
    assert (m &' 0xFFFF = 0) by reflexivity. change (rw_field _) with m.
    clearbody x m. clear Hv Hok. rewrite !Z.ldiff_land, <- !Z.land_assoc.
    by rewrite Z.land_lnot_diag, !Z.land_0_r.
Qed.

Lemma settle_clear_stop d :
  settle StopReceiveField 0 d (ipa_phy_clear_stop_receive base d).2.
Proof.
  apply (settle_write StopReceiveField); [unfold field_ok; simpl; lia|done| |]; simpl.
  - rewrite <- Z.land_assoc. apply Z.land_0_r.
  - rewrite !Z.ldiff_land, <- !Z.land_assoc. done.
Qed.

Lemma settles_rx_addr lo hi d :
  0 ≤ lo < 2 ^ 32 → 0 ≤ hi < 2 ^ 32 →
  settles [(WordField IPA_COMMON_RX_FIFO_ADDRL, lo); (WordField IPA_COMMON_RX_FIFO_ADDRH, hi)]
    d (ipa_phy_set_rx_fifo_addr base lo hi d).2.
Proof.
  intros ??. eapply settles_cons; [by apply settle_word|].
  eapply settles_cons; [by apply settle_word|]. apply settles_nil.
Qed.

Lemma settles_tx_addr lo hi d :
  0 ≤ lo < 2 ^ 32 → 0 ≤ hi < 2 ^ 32 →
  settles [(WordField IPA_COMMON_TX_FIFO_ADDRL, lo); (WordField IPA_COMMON_TX_FIFO_ADDRH, hi)]
    d (ipa_phy_set_tx_fifo_addr base lo hi d).2.
Proof.
  intros ??. eapply settles_cons; [by apply settle_word|].
  eapply settles_cons; [by apply settle_word|]. apply settles_nil.
Qed.

Lemma settles_app l1 l2 d d1 d2 :
  settles l1 d d1 → settles l2 d1 d2 → settles (l1 ++ l2) d d2.
Proof. induction 1; simpl; [done|]. intros. eapply settles_cons; eauto. Qed.

Lemma settles_one f v d d' : settle f v d d' → settles [(f, v)] d d'.
Proof. intros. eapply settles_cons; [done|apply settles_nil]. Qed.

Lemma settle_again f v v' d d1 d2 : settle f v d d1 → settle f v' d1 d2 → settle f v' d d2.
Proof.
  intros [_ H1] [? H2]. split; [done|]. intros g ???. by rewrite H2, H1.
Qed.

Lemma settle_word_read off v d d' :
  settle (WordField off) v d d' → readl d' (base + off) = v.
Proof.
  intros [<- _]. rewrite field_get_run. simpl. rewrite field_of_low by done. simpl.
  rewrite Z.land_ones by lia. symmetry. apply Z.mod_small, readl_range.
Qed.

Lemma lor_range a b n : 0 ≤ n → 0 ≤ a < 2 ^ n → 0 ≤ b < 2 ^ n → 0 ≤ (a |' b) < 2 ^ n.
Proof.
  intros Hn Ha Hb. assert ((a |' b) = (a |' b) mod 2 ^ n) as ->.
  { rewrite <- Z.land_ones, Z.land_lor_distr_l, !Z.land_ones, !Z.mod_small by lia. done. }
  apply Z.mod_pos_bound, Z.pow_pos_nonneg; lia.
Qed.

Lemma land_range a b n : 0 ≤ n → 0 ≤ b < 2 ^ n → 0 ≤ (a &' b) < 2 ^ n.
Proof.
  intros Hn Hb. assert ((a &' b) = (a &' b) mod 2 ^ n) as ->.
  { rewrite <- Z.land_ones, <- Z.land_assoc, (Z.land_ones b), (Z.mod_small b) by lia. done. }
  apply Z.mod_pos_bound, Z.pow_pos_nonneg; lia.
Qed.

(** The transmit write pointer is loaded by its value and a pulse of bit 1. *)
Lemma settle_tx_wptr w d :
  0 ≤ w < 2 ^ 16 →
  ∃ x, settle (WordField IPA_TX_FIFO_WR_INIT) x d (ipa_phy_update_tx_fifo_wptr base w d).2
    ∧ (ipa_phy_update_tx_fifo_wptr base w d).1 = 0 ∧ x ≫ 16 = w ∧ x &' 2 = 0.
Proof.
  intros Hw. unfold ipa_phy_update_tx_fifo_wptr.
  rewrite (proj2 (Z.ltb_ge _ w)) by lia.
  rewrite (u32_shiftl w 16 16) by lia.
  cbv [mbind mret io_bind io_ret readl_relaxed writel_relaxed fst snd].
  set (t := readl d _).
  set (x1 := (t &' 65535) |' (w ≪ 16)).
  assert (R1 : 0 ≤ x1 < 2 ^ 32).
  { apply lor_range; [lia|apply land_range; lia|].
    rewrite Z.shiftl_mul_pow2 by lia. lia. }
  pose proof (settle_word IPA_TX_FIFO_WR_INIT x1 d eq_refl R1) as S1.
  rewrite (settle_word_read _ _ _ _ S1).
  assert (R2 : 0 ≤ (x1 |' 2) < 2 ^ 32) by (apply lor_range; lia).
  pose proof (settle_word IPA_TX_FIFO_WR_INIT _ (writel x1 (base + IPA_TX_FIFO_WR_INIT) d)
    eq_refl R2) as S2.
  rewrite (settle_word_read _ _ _ _ S2).
  assert (R3 : 0 ≤ ((x1 |' 2) &' 4294967293) < 2 ^ 32) by (apply land_range; lia).
  pose proof (settle_word IPA_TX_FIFO_WR_INIT _
    (writel (x1 |' 2) (base + IPA_TX_FIFO_WR_INIT)
       (writel x1 (base + IPA_TX_FIFO_WR_INIT) d)) eq_refl R3) as S3.
  rewrite (settle_word_read _ _ _ _ S3).
  assert (((x1 |' 2) &' 4294967293) ≫ 16 = w) as Ew.
  { rewrite Z.shiftr_land, Z.shiftr_lor. subst x1. rewrite Z.shiftr_lor, Z.shiftr_land.
    rewrite Z.shiftr_shiftl_l, Z.shiftl_0_r by lia. change (65535 ≫ 16) with 0.
    rewrite Z.land_0_r, Z.lor_0_l. change (2 ≫ 16) with 0. rewrite Z.lor_0_r.
    change (4294967293 ≫ 16) with (Z.ones 16). rewrite Z.land_ones by lia.
    by apply Z.mod_small. }
  eexists. split; [|split_and!; [by rewrite Ew, Z.eqb_refl|done|]].
  - eapply settle_again; [exact S1|]. eapply settle_again; [exact S2|exact S3].
  - rewrite <- Z.land_assoc. apply Z.land_0_r.
Qed.
End Settle.

(** ** Examples *)

Lemma phy_set_get_witness :
  (phy_set CurTermNum 0 9 (∅ : gmap Z Z)).1 = 0.
Proof.
  pose proof (phy_set_get 0 CurTermNum 9 (∅ : gmap Z Z)) as Hs.
  assert (Hv : 0 ≤ 9 < 2 ^ f_len (phy_layout CurTermNum)) by (simpl; lia).
  specialize (Hs Hv). destruct (phy_set CurTermNum 0 9 ∅) as [r d'].
  apply Hs.
Defined.

Lemma phy_set_refuses_witness :
  phy_set DstTermNum 0 32 (∅ : gmap Z Z) = (-22, ∅).
Proof. apply (phy_set_refuses 0 DstTermNum 32 ∅); [reflexivity|simpl; lia]. Defined.

Lemma rx_total_depth_status_witness :
  (ipa_phy_set_rx_fifo_total_depth 0 128 (<[0 := 5]> (∅ : gmap Z Z))).1 = -22.
Proof.
  pose proof (rx_total_depth_status 0 128 (<[0 := 5]> (∅ : gmap Z Z))) as Hs.
  assert (Hv : 0 ≤ 128 ≤ 0xFFFF) by lia. specialize (Hs Hv).
  destruct (ipa_phy_set_rx_fifo_total_depth 0 128 _) as [r d'] eqn:E.
  vm_compute in E. injection E as <- <-. apply Hs.
Defined.

Lemma int_bits_spec_witness :
  (ipa_phy_disable_int_bit 0 6 (<[0x30 := 0xF]> (∅ : gmap Z Z))).1 = 0.
Proof.
  pose proof (int_bits_spec 0 6 (<[0x30 := 0xF]> (∅ : gmap Z Z)) eq_refl) as Hs.
  cbv zeta in Hs.
  destruct (ipa_phy_enable_int_bit 0 6 _) as [r1 d1].
  destruct (ipa_phy_disable_int_bit 0 6 _) as [r2 d2]. apply Hs.
Defined.

Lemma fifo_addr_spec_witness :
  (ipa_phy_set_rx_fifo_addr 0 0x80001000 1 (∅ : gmap Z Z)).1 = 0.
Proof.
  assert (H1 : 0 ≤ 0x80001000 < 2 ^ 32) by lia. assert (H2 : 0 ≤ 1 < 2 ^ 32) by lia.
  pose proof (fifo_addr_spec 0 0x80001000 1 (∅ : gmap Z Z) H1 H2) as Hs.
  destruct (ipa_phy_set_rx_fifo_addr 0 0x80001000 1 _) as [r1 d1].
  destruct (ipa_phy_set_tx_fifo_addr 0 0x80001000 1 _) as [r2 d2]. apply Hs.
Defined.

Lemma flow_ctrl_spec_witness :
  (ipa_phy_stop_receive 0 (∅ : gmap Z Z)).1 = 0.
Proof.
  pose proof (flow_ctrl_spec 0 (∅ : gmap Z Z)) as Hs. cbv zeta in Hs.
  destruct (ipa_phy_stop_receive 0 _) as [r1 d1].
  destruct (ipa_phy_clear_stop_receive 0 _) as [r2 d2].
  destruct (ipa_phy_flow_ctrl_recover 0 _) as [r3 d3]. apply Hs.
Defined.

Lemma entry_watermark_unchecked_witness :
  (phy_set TxEntryWatermark 0 0x10001 (∅ : gmap Z Z)).1 = -5.
Proof.
  assert (Hw : 0xFFFF < 0x10001 < 2 ^ 32) by lia.
  pose proof (entry_watermark_unchecked 0 true 0x10001 (∅ : gmap Z Z) Hw) as Hs.
  cbv zeta in Hs. destruct (phy_set TxEntryWatermark 0 0x10001 _) as [r d]. apply Hs.
Defined.
