(* ===== verification/FifoHal.v ===== *)
(** * The SIPA common FIFO layer

    Model of [src/drivers/quectel-sprd-pcie/src/sipa/sipa_phy_v0/sipa_common_fifo_hal.c]
    over the register accessors of [FifoPhy].  An operation runs on the FIFO
    configurations, the memory of the node arrays, the ranges handed to the DMA
    layer and the device; messages to the kernel log are left out. *)

From S2P Require Import Prelude FifoPhy.
From stdpp Require Import gmap.

#[local] Open Scope Z_scope.
#[local] Open Scope c_scope.

(** ** Data *)

(** [struct sipa_node_description_tag]: bit fields of one 16-byte packet
    descriptor. *)
Record node := Node {
  address : Z; length_ : Z; offset : Z; net_id : Z; src : Z; dst_ : Z;
  prio : Z; bear_id : Z; intr : Z; indx : Z; err_code : Z; reserved : Z;
}.

#[export] Instance node_eq_dec : EqDecision node.
Proof. solve_decision. Defined.

Definition node_size : Z := 16.

(** [struct sipa_cmn_fifo_tag] *)
Record fifo_tag := FifoTag {
  depth : Z; wr : Z; rd : Z;
  fifo_base_addr_l : Z; fifo_base_addr_h : Z;
  virtual_addr : Z;
}.

(** [struct sipa_cmn_fifo_cfg_tag] *)
Record fifo_cfg := FifoCfg {
  fifo_name : Z;
  state : bool;
  dst : Z;
  cur : Z;
  fifo_reg_base : Z;
  rx_fifo : fifo_tag;
  tx_fifo : fifo_tag;
}.

Definition SIPA_FIFO_PCIE_DL : Z := 0.
Definition SIPA_FIFO_PCIE_UL : Z := 1.
Definition SIPA_FIFO_MAX : Z := 2.

Definition set_wr (w : Z) (t : fifo_tag) : fifo_tag :=
  FifoTag (depth t) w (rd t) (fifo_base_addr_l t) (fifo_base_addr_h t) (virtual_addr t).
Definition set_rd (r : Z) (t : fifo_tag) : fifo_tag :=
  FifoTag (depth t) (wr t) r (fifo_base_addr_l t) (fifo_base_addr_h t) (virtual_addr t).

Definition on_rx (f : fifo_tag → fifo_tag) (c : fifo_cfg) : fifo_cfg :=
  FifoCfg (fifo_name c) (state c) (dst c) (cur c) (fifo_reg_base c)
    (f (rx_fifo c)) (tx_fifo c).
Definition on_tx (f : fifo_tag → fifo_tag) (c : fifo_cfg) : fifo_cfg :=
  FifoCfg (fifo_name c) (state c) (dst c) (cur c) (fifo_reg_base c)
    (rx_fifo c) (f (tx_fifo c)).
Definition set_state (b : bool) (c : fifo_cfg) : fifo_cfg :=
  FifoCfg (fifo_name c) b (dst c) (cur c) (fifo_reg_base c) (rx_fifo c) (tx_fifo c).
Definition set_fifo_name (n : Z) (c : fifo_cfg) : fifo_cfg :=
  FifoCfg n (state c) (dst c) (cur c) (fifo_reg_base c) (rx_fifo c) (tx_fifo c).

(** The state an operation runs on.  [mem] maps the address of a node to the
    node: an address outside it is not the address of an allocated node.
    [synced] lists the [dma_sync_single_for_device] calls, latest first. *)
Record hal_state (D : Type) := HalState {
  cfg_base : list fifo_cfg;
  mem : gmap Z node;
  synced : list (Z * Z);
  dev : D;
}.
Arguments HalState {D}. Arguments cfg_base {D}. Arguments mem {D}.
Arguments synced {D}. Arguments dev {D}.

Definition PTR_MASK (depth : Z) : Z := depth |' u32 (depth - 1).

Section Hal.
Context {D : Type} `{Mmio D}.

Definition hal (A : Type) : Type := hal_state D → outcome (A * hal_state D).
#[global] Instance hal_ret : MRet hal := λ A a s, Done (a, s).
#[global] Instance hal_bind : MBind hal := λ A B f m s,
  '(a, s') ← m s; f a s'.

(** A register access. *)
Definition phy {A} (m : io D A) : hal A := λ s,
  let '(a, d) := m (dev s) in
  Done (a, HalState (cfg_base s) (mem s) (synced s) d).

(** [cfg_base + id], read and updated in place. *)
Definition cfg_at (id : Z) : hal fifo_cfg := λ s,
  match cfg_base s !! Z.to_nat id with
  | Some c => Done (c, s)
  | None => OutOfBounds
  end.
Definition upd_cfg (id : Z) (f : fifo_cfg → fifo_cfg) : hal () := λ s,
  Done ((), HalState (alter f (Z.to_nat id) (cfg_base s)) (mem s) (synced s) (dev s)).

(** [memcpy(dst, &desc[from], n * node_size)] *)
Fixpoint store_nodes (m : gmap Z node) (a : Z) (l : list node) : outcome (gmap Z node) :=
  match l with
  | [] => Done m
  | x :: l =>
    match m !! a with
    | Some _ => store_nodes (<[a := x]> m) (a + node_size) l
    | None => OutOfBounds
    end
  end.
Definition in_range_nodes (desc : list node) (from n : Z) : bool :=
  (0 <=? from) && (from + n <=? Z.of_nat (length desc)).
Definition memcpy_nodes (a : Z) (desc : list node) (from n : Z) : hal () := λ s,
  if in_range_nodes desc from n then
    m ← store_nodes (mem s) a (take (Z.to_nat n) (drop (Z.to_nat from) desc));
    Done ((), HalState (cfg_base s) m (synced s) (dev s))
  else OutOfBounds.

Definition dma_sync_single_for_device (a n : Z) : hal () := λ s,
  Done ((), HalState (cfg_base s) (mem s) ((a, n) :: synced s) (dev s)).

(** *** Packets to the receive FIFO *)

Definition ipa_put_pkt_to_cache_rx_fifo (id : Z) (desc : list node) (num : Z) : hal Z :=
  fifo_cfg ← cfg_at id;
  filled ← phy (ipa_phy_get_rx_fifo_filled_depth (fifo_reg_base fifo_cfg));
  let left_cnt := u32 (depth (rx_fifo fifo_cfg) - filled) in
  if left_cnt =? 0 then mret (- ENOSPC) else
  let num := if left_cnt <? num then left_cnt else num in
  let node := virtual_addr (rx_fifo fifo_cfg) in
  let index := wr (rx_fifo fifo_cfg) &' u32 (depth (rx_fifo fifo_cfg) - 1) in
  (if u32 (index + num) <=? depth (rx_fifo fifo_cfg) then
     memcpy_nodes (node + node_size * index) desc 0 num
   else
     let tmp := u32 (depth (rx_fifo fifo_cfg) - index) in
     memcpy_nodes (node + node_size * index) desc 0 tmp;;
     let tmp1 := u32 (num - tmp) in
     memcpy_nodes node desc tmp tmp1);;
  let w := u32 (wr (rx_fifo fifo_cfg) + num) &' PTR_MASK (depth (rx_fifo fifo_cfg)) in
  upd_cfg id (on_rx (set_wr w));;
  phy (ipa_phy_update_rx_fifo_wptr (fifo_reg_base fifo_cfg) w);;
  mret (s32 num).

Definition ipa_recv_pkts_from_tx_fifo (fifo_cfg : fifo_cfg) : hal Z :=
  phy (ipa_phy_get_tx_fifo_filled_depth (fifo_reg_base fifo_cfg)).

(** *** Opening and closing *)

Definition ipa_common_fifo_hal_open (id cookie : Z) : hal Z :=
  if id <? SIPA_FIFO_MAX then
    ipa_term_fifo ← cfg_at id;
    if state ipa_term_fifo then mret (- EBUSY) else
    let base := fifo_reg_base ipa_term_fifo in
    phy (ipa_phy_set_rx_fifo_total_depth base (depth (rx_fifo ipa_term_fifo)));;
    phy (ipa_phy_set_rx_fifo_addr base (fifo_base_addr_l (rx_fifo ipa_term_fifo))
                                       (fifo_base_addr_h (rx_fifo ipa_term_fifo)));;
    phy (ipa_phy_set_tx_fifo_total_depth base (depth (tx_fifo ipa_term_fifo)));;
    phy (ipa_phy_set_tx_fifo_addr base (fifo_base_addr_l (tx_fifo ipa_term_fifo))
                                       (fifo_base_addr_h (tx_fifo ipa_term_fifo)));;
    phy (ipa_phy_set_cur_term_num base (cur ipa_term_fifo));;
    phy (ipa_phy_set_dst_term_num base (dst ipa_term_fifo));;
    phy (ipa_phy_update_rx_fifo_rptr base 0);;
    phy (ipa_phy_update_rx_fifo_wptr base 0);;
    phy (ipa_phy_update_tx_fifo_rptr base 0);;
    phy (ipa_phy_update_tx_fifo_wptr base 0);;
    phy (ipa_phy_clear_stop_receive base);;
    upd_cfg id (on_rx (set_rd 0));;
    upd_cfg id (on_rx (set_wr 0));;
    upd_cfg id (on_tx (set_rd 0));;
    upd_cfg id (on_tx (set_wr 0));;
    upd_cfg id (set_fifo_name cookie);;
    upd_cfg id (set_state true);;
    mret 0
  else mret (- EINVAL).

Definition ipa_common_fifo_hal_close (id : Z) : hal Z :=
  if id <? SIPA_FIFO_MAX then
    ipa_term_fifo ← cfg_at id;
    let base := fifo_reg_base ipa_term_fifo in
    phy (ipa_phy_set_rx_fifo_total_depth base 0);;
    phy (ipa_phy_set_tx_fifo_total_depth base 0);;
    phy (ipa_phy_update_rx_fifo_rptr base 0);;
    phy (ipa_phy_update_rx_fifo_wptr base 0);;
    phy (ipa_phy_update_tx_fifo_rptr base 0);;
    phy (ipa_phy_update_tx_fifo_wptr base 0);;
    upd_cfg id (on_rx (set_rd 0));;
    upd_cfg id (on_rx (set_wr 0));;
    upd_cfg id (on_tx (set_rd 0));;
    upd_cfg id (on_tx (set_wr 0));;
    upd_cfg id (set_state false);;
    mret 0
  else mret (- EINVAL).

(** *** Depths *)

Definition ipa_common_fifo_hal_set_rx_depth (id depth_ : Z) : hal Z :=
  if id <? SIPA_FIFO_MAX then
    ipa_term_fifo ← cfg_at id;
    phy (ipa_phy_set_rx_fifo_total_depth (fifo_reg_base ipa_term_fifo) depth_)
  else mret (- EINVAL).

Definition ipa_common_fifo_hal_get_rx_depth (id : Z) : hal Z :=
  if id <? SIPA_FIFO_MAX then
    ipa_term_fifo ← cfg_at id;
    phy (ipa_phy_get_rx_fifo_total_depth (fifo_reg_base ipa_term_fifo))
  else mret 0.

Definition ipa_common_fifo_hal_set_tx_depth (id depth_ : Z) : hal Z :=
  if id <? SIPA_FIFO_MAX then
    ipa_term_fifo ← cfg_at id;
    phy (ipa_phy_set_tx_fifo_total_depth (fifo_reg_base ipa_term_fifo) depth_)
  else mret 0.

Definition ipa_common_fifo_hal_get_tx_depth (id : Z) : hal Z :=
  if id <? SIPA_FIFO_MAX then
    ipa_term_fifo ← cfg_at id;
    phy (ipa_phy_get_tx_fifo_total_depth (fifo_reg_base ipa_term_fifo))
  else mret 0.

(** *** Interrupts and terminals *)

Definition ipa_common_fifo_hal_set_intr_drop_packet (id enable : Z) : hal Z :=
  if id <? SIPA_FIFO_MAX then
    ipa_term_fifo ← cfg_at id;
    if negb (enable =? 0)
    then phy (ipa_phy_enable_int_bit (fifo_reg_base ipa_term_fifo) IPA_DROP_PACKET_OCCUR_INT_EN)
    else phy (ipa_phy_disable_int_bit (fifo_reg_base ipa_term_fifo) IPA_DROP_PACKET_OCCUR_INT_EN)
  else mret (- EINVAL).

Definition ipa_common_fifo_hal_set_intr_error_code (id enable : Z) : hal Z :=
  if id <? SIPA_FIFO_MAX then
    ipa_term_fifo ← cfg_at id;
    if negb (enable =? 0)
    then phy (ipa_phy_enable_int_bit (fifo_reg_base ipa_term_fifo) IPA_ERRORCODE_IN_TX_FIFO_EN)
    else phy (ipa_phy_disable_int_bit (fifo_reg_base ipa_term_fifo) IPA_ERRORCODE_IN_TX_FIFO_EN)
  else mret (- EINVAL).

Definition ipa_common_fifo_hal_set_intr_timeout (id enable time : Z) : hal Z :=
  if id <? SIPA_FIFO_MAX then
    ipa_term_fifo ← cfg_at id;
    if negb (enable =? 0) then
      ret ← phy (ipa_phy_set_tx_fifo_interrupt_delay_timer (fifo_reg_base ipa_term_fifo) time);
      if negb (ret =? 0) then
        phy (ipa_phy_enable_int_bit (fifo_reg_base ipa_term_fifo) IPA_TXFIFO_INT_DELAY_TIMER_SW_EN)
      else mret ret
    else phy (ipa_phy_disable_int_bit (fifo_reg_base ipa_term_fifo) IPA_TXFIFO_INT_DELAY_TIMER_SW_EN)
  else mret (- EINVAL).

Definition ipa_common_fifo_hal_set_hw_intr_timeout (id enable time : Z) : hal Z :=
  if id <? SIPA_FIFO_MAX then
    ipa_term_fifo ← cfg_at id;
    if negb (enable =? 0) then
      ret ← phy (ipa_phy_set_tx_fifo_interrupt_delay_timer (fifo_reg_base ipa_term_fifo) time);
      if ret =? 0 then
        phy (ipa_phy_enable_int_bit (fifo_reg_base ipa_term_fifo) IPA_TX_FIFO_DELAY_TIMER_EN)
      else mret ret
    else phy (ipa_phy_disable_int_bit (fifo_reg_base ipa_term_fifo) IPA_TX_FIFO_DELAY_TIMER_EN)
  else mret (- EINVAL).

Definition ipa_common_fifo_hal_set_intr_threshold (id enable cnt : Z) : hal Z :=
  if id <? SIPA_FIFO_MAX then
    ipa_term_fifo ← cfg_at id;
    if negb (enable =? 0) then
      ret ← phy (ipa_phy_set_tx_fifo_interrupt_threshold (fifo_reg_base ipa_term_fifo) cnt);
      if ret =? 0 then
        phy (ipa_phy_enable_int_bit (fifo_reg_base ipa_term_fifo) IPA_TXFIFO_INT_THRESHOLD_ONESHOT_EN)
      else mret ret
    else phy (ipa_phy_disable_int_bit (fifo_reg_base ipa_term_fifo) IPA_TXFIFO_INT_THRESHOLD_ONESHOT_EN)
  else mret (- EINVAL).

Definition ipa_common_fifo_hal_set_hw_intr_thres (id enable cnt : Z) : hal Z :=
  if id <? SIPA_FIFO_MAX then
    ipa_term_fifo ← cfg_at id;
    if negb (enable =? 0) then
      ret ← phy (ipa_phy_set_tx_fifo_interrupt_threshold (fifo_reg_base ipa_term_fifo) cnt);
      if ret =? 0 then
        phy (ipa_phy_enable_int_bit (fifo_reg_base ipa_term_fifo) IPA_TX_FIFO_THRESHOLD_EN)
      else mret ret
    else phy (ipa_phy_disable_int_bit (fifo_reg_base ipa_term_fifo) IPA_TX_FIFO_THRESHOLD_EN)
  else mret (- EINVAL).

Definition ipa_common_fifo_hal_set_src_dst_term (id src dst_ : Z) : hal Z :=
  if id <? SIPA_FIFO_MAX then
    ipa_term_fifo ← cfg_at id;
    ret ← phy (ipa_phy_set_cur_term_num (fifo_reg_base ipa_term_fifo) src);
    if negb (ret =? 0) then mret ret else
    ret ← phy (ipa_phy_set_dst_term_num (fifo_reg_base ipa_term_fifo) dst_);
    if negb (ret =? 0) then mret ret else
    mret 0
  else mret (- EINVAL).

Definition ipa_common_fifo_hal_enable_local_flowctrl_intr (id enable irq_mode : Z) : hal Z :=
  if id <? SIPA_FIFO_MAX then
    ipa_term_fifo ← cfg_at id;
    let irq :=
      if irq_mode =? 0 then Some IPA_RX_FIFO_INT_EXIT_FLOW_CTRL_EN
      else if irq_mode =? 1 then Some IPA_RX_FIFO_INT_ENTER_FLOW_CTRL_EN
      else if irq_mode =? 2 then
        Some (IPA_RX_FIFO_INT_EXIT_FLOW_CTRL_EN |' IPA_RX_FIFO_INT_ENTER_FLOW_CTRL_EN)
      else None in
    match irq with
    | None => mret (- EINVAL)
    | Some irq =>
      if negb (enable =? 0)
      then phy (ipa_phy_enable_int_bit (fifo_reg_base ipa_term_fifo) irq)
      else phy (ipa_phy_disable_int_bit (fifo_reg_base ipa_term_fifo) irq)
    end
  else mret (- EINVAL).

Definition ipa_common_fifo_hal_enable_remote_flowctrl_intr (id work_mode tx_entry tx_exit rx_entry rx_exit : Z) : hal Z :=
  if id <? SIPA_FIFO_MAX then
    ipa_term_fifo ← cfg_at id;
    let base := fifo_reg_base ipa_term_fifo in
    ret ← phy (ipa_phy_set_tx_fifo_exit_flow_ctrl_watermark base tx_exit);
    if ret =? 0 then mret ret else
    ret ← phy (ipa_phy_set_tx_fifo_entry_flow_ctrl_watermark base tx_entry);
    if ret =? 0 then mret ret else
    ret ← phy (ipa_phy_set_rx_fifo_exit_flow_ctrl_watermark base rx_exit);
    if ret =? 0 then mret ret else
    ret ← phy (ipa_phy_set_rx_fifo_entry_flow_ctrl_watermark base rx_entry);
    if ret =? 0 then mret ret else
    phy (ipa_phy_set_flow_ctrl_config base work_mode)
  else mret (- EINVAL).

Definition ipa_common_fifo_hal_set_interrupt_intr (id enable : Z) : hal Z :=
  if id <? SIPA_FIFO_MAX then
    ipa_term_fifo ← cfg_at id;
    if negb (enable =? 0)
    then phy (ipa_phy_enable_int_bit (fifo_reg_base ipa_term_fifo) IPA_TX_FIFO_INTR_SW_BIT_EN)
    else phy (ipa_phy_disable_int_bit (fifo_reg_base ipa_term_fifo) IPA_TX_FIFO_INTR_SW_BIT_EN)
  else mret (- EINVAL).

Definition ipa_common_fifo_hal_set_intr_txfifo_overflow (id enable : Z) : hal Z :=
  if id <? SIPA_FIFO_MAX then
    ipa_term_fifo ← cfg_at id;
    if negb (enable =? 0)
    then phy (ipa_phy_enable_int_bit (fifo_reg_base ipa_term_fifo) IPA_TXFIFO_OVERFLOW_EN)
    else phy (ipa_phy_disable_int_bit (fifo_reg_base ipa_term_fifo) IPA_TXFIFO_OVERFLOW_EN)
  else mret (- EINVAL).

Definition ipa_common_fifo_hal_set_intr_txfifo_full (id enable : Z) : hal Z :=
  if id <? SIPA_FIFO_MAX then
    ipa_term_fifo ← cfg_at id;
    if negb (enable =? 0)
    then phy (ipa_phy_enable_int_bit (fifo_reg_base ipa_term_fifo) IPA_TXFIFO_FULL_INT_EN)
    else phy (ipa_phy_disable_int_bit (fifo_reg_base ipa_term_fifo) IPA_TXFIFO_FULL_INT_EN)
  else mret (- EINVAL).

(** *** Data path *)

Definition ipa_common_fifo_hal_put_node_to_rx_fifo (id : Z) (node : list node) (num : Z)
    : hal Z :=
  if id <? SIPA_FIFO_MAX then ipa_put_pkt_to_cache_rx_fifo id node num
  else mret (- EINVAL).

Definition ipa_common_fifo_hal_get_left_cnt (id : Z) : hal Z :=
  if id <? SIPA_FIFO_MAX then
    ipa_term_fifo ← cfg_at id;
    total ← phy (ipa_phy_get_tx_fifo_total_depth (fifo_reg_base ipa_term_fifo));
    filled ← phy (ipa_phy_get_tx_fifo_filled_depth (fifo_reg_base ipa_term_fifo));
    mret (u32 (total - filled))
  else mret 0.

Definition ipa_common_fifo_hal_recv_node_from_tx_fifo (id : Z) : hal Z :=
  if id <? SIPA_FIFO_MAX then
    ipa_term_fifo ← cfg_at id;
    ipa_recv_pkts_from_tx_fifo ipa_term_fifo
  else mret 0.

(** A value stored through [p] when [p] is not null. *)
Definition store_if (p : bool) (m : io D Z) : hal (option Z) :=
  if p then v ← phy m; mret (Some v) else mret None.

Definition ipa_common_fifo_hal_get_rx_ptr (id : Z) (wr_p rd_p : bool)
    : hal (option Z * option Z) :=
  if id <? SIPA_FIFO_MAX then
    ipa_term_fifo ← cfg_at id;
    rd_v ← store_if rd_p (ipa_phy_get_rx_fifo_rptr (fifo_reg_base ipa_term_fifo));
    wr_v ← store_if wr_p (ipa_phy_get_rx_fifo_wptr (fifo_reg_base ipa_term_fifo));
    mret (wr_v, rd_v)
  else mret (None, None).

Definition ipa_common_fifo_hal_get_tx_ptr (id : Z) (wr_p rd_p : bool)
    : hal (option Z * option Z) :=
  if id <? SIPA_FIFO_MAX then
    ipa_term_fifo ← cfg_at id;
    rd_v ← store_if rd_p (ipa_phy_get_tx_fifo_rptr (fifo_reg_base ipa_term_fifo));
    wr_v ← store_if wr_p (ipa_phy_get_tx_fifo_wptr (fifo_reg_base ipa_term_fifo));
    mret (wr_v, rd_v)
  else mret (None, None).

Definition ipa_common_fifo_hal_get_filled_depth (id : Z) (rx_p tx_p : bool)
    : hal (option Z * option Z) :=
  if id <? SIPA_FIFO_MAX then
    ipa_term_fifo ← cfg_at id;
    tx_v ← store_if tx_p (ipa_phy_get_tx_fifo_filled_depth (fifo_reg_base ipa_term_fifo));
    rx_v ← store_if rx_p (ipa_phy_get_rx_fifo_filled_depth (fifo_reg_base ipa_term_fifo));
    mret (rx_v, tx_v)
  else mret (None, None).

Definition ipa_common_fifo_hal_get_tx_full_status (id : Z) : hal Z :=
  if id <? SIPA_FIFO_MAX then
    ipa_term_fifo ← cfg_at id;
    phy (ipa_phy_get_tx_fifo_full_status (fifo_reg_base ipa_term_fifo))
  else mret 0.

Definition ipa_common_fifo_hal_get_tx_empty_status (id : Z) : hal Z :=
  if id <? SIPA_FIFO_MAX then
    ipa_term_fifo ← cfg_at id;
    phy (ipa_phy_get_tx_fifo_empty_status (fifo_reg_base ipa_term_fifo))
  else mret 0.

Definition ipa_common_fifo_hal_get_rx_full_status (id : Z) : hal Z :=
  if id <? SIPA_FIFO_MAX then
    ipa_term_fifo ← cfg_at id;
    phy (ipa_phy_get_rx_fifo_full_status (fifo_reg_base ipa_term_fifo))
  else mret 0.

Definition ipa_common_fifo_hal_get_rx_empty_status (id : Z) : hal Z :=
  if id <? SIPA_FIFO_MAX then
    ipa_term_fifo ← cfg_at id;
    phy (ipa_phy_get_rx_fifo_empty_status (fifo_reg_base ipa_term_fifo))
  else mret 0.

(** *** Pointers *)

Definition ipa_common_fifo_hal_set_rx_fifo_wptr (id wptr : Z) : hal bool :=
  if id <? SIPA_FIFO_MAX then
    ipa_term_fifo ← cfg_at id;
    rx_wptr ← phy (ipa_phy_get_rx_fifo_wptr (fifo_reg_base ipa_term_fifo));
    if negb (wptr =? rx_wptr) then
      let wptr := wptr &' PTR_MASK (depth (rx_fifo ipa_term_fifo)) in
      upd_cfg id (on_rx (set_wr wptr));;
      ret ← phy (ipa_phy_update_rx_fifo_wptr (fifo_reg_base ipa_term_fifo) wptr);
      mret (if u32 ret =? 0 then false else true)
    else mret true
  else mret false.

Definition ipa_common_fifo_hal_set_tx_fifo_wptr (id wptr : Z) : hal bool :=
  if id <? SIPA_FIFO_MAX then
    ipa_term_fifo ← cfg_at id;
    tx_wptr ← phy (ipa_phy_get_tx_fifo_wptr (fifo_reg_base ipa_term_fifo));
    if negb (wptr =? tx_wptr) then
      let wptr := wptr &' PTR_MASK (depth (rx_fifo ipa_term_fifo)) in
      upd_cfg id (on_tx (set_wr wptr));;
      ret ← phy (ipa_phy_update_tx_fifo_wptr (fifo_reg_base ipa_term_fifo) wptr);
      mret (if u32 ret =? 0 then false else true)
    else mret true
  else mret false.

Definition ipa_common_fifo_hal_set_rx_tx_fifo_ptr (id rx_rd rx_wr tx_rd tx_wr : Z)
    : hal Z :=
  if id <? SIPA_FIFO_MAX then
    ipa_term_fifo ← cfg_at id;
    let base := fifo_reg_base ipa_term_fifo in
    let mask := PTR_MASK (depth (rx_fifo ipa_term_fifo)) in
    tx_wptr ← phy (ipa_phy_get_tx_fifo_wptr base);
    tx_rptr ← phy (ipa_phy_get_tx_fifo_rptr base);
    rx_wptr ← phy (ipa_phy_get_rx_fifo_wptr base);
    rx_rptr ← phy (ipa_phy_get_rx_fifo_rptr base);
    ret1 ← (if negb (rx_rd =? rx_rptr) then
              upd_cfg id (on_rx (set_rd (rx_rd &' mask)));;
              ret ← phy (ipa_phy_update_rx_fifo_rptr base (rx_rd &' mask));
              mret (if ret =? 0 then - EIO else 0)
            else mret 0);
    ret1 ← (if negb (rx_wr =? rx_wptr) then
              upd_cfg id (on_rx (set_wr (rx_wr &' mask)));;
              ret ← phy (ipa_phy_update_rx_fifo_wptr base (rx_wr &' mask));
              mret (if ret =? 0 then - EIO else ret1)
            else mret ret1);
    ret1 ← (if negb (tx_rd =? tx_rptr) then
              upd_cfg id (on_tx (set_rd (tx_rd &' mask)));;
              ret ← phy (ipa_phy_update_tx_fifo_rptr base (tx_rd &' mask));
              mret (if ret =? 0 then - EIO else ret1)
            else mret ret1);
    ret1 ← (if negb (tx_wr =? tx_wptr) then
              upd_cfg id (on_tx (set_wr (tx_wr &' mask)));;
              ret ← phy (ipa_phy_update_tx_fifo_wptr base (tx_wr &' mask));
              mret (if ret =? 0 then - EIO else ret1)
            else mret ret1);
    mret ret1
  else mret (- EINVAL).

Definition ipa_common_fifo_hal_ctrl_receive (id : Z) (stop : bool) : hal Z :=
  if id <? SIPA_FIFO_MAX then
    ipa_term_fifo ← cfg_at id;
    if stop then phy (ipa_phy_stop_receive (fifo_reg_base ipa_term_fifo))
    else phy (ipa_phy_clear_stop_receive (fifo_reg_base ipa_term_fifo))
  else mret (- EINVAL).

(** The address of a node, [None] for a null pointer. *)
Definition ipa_common_fifo_hal_get_tx_fifo_rp (id index : Z) : hal (option Z) :=
  if SIPA_FIFO_MAX <=? id then mret None else
  fifo_cfg ← cfg_at id;
  let node := virtual_addr (tx_fifo fifo_cfg) in
  if node =? 0 then mret None else
  let tmp := u32 (rd (tx_fifo fifo_cfg) + index) &' u32 (depth (tx_fifo fifo_cfg) - 1) in
  mret (Some (node + node_size * tmp)).

Definition ipa_common_fifo_hal_get_rx_fifo_wr (id index : Z) : hal (option Z) :=
  if SIPA_FIFO_MAX <=? id then mret None else
  fifo_cfg ← cfg_at id;
  let node := virtual_addr (rx_fifo fifo_cfg) in
  if node =? 0 then mret None else
  if depth (rx_fifo fifo_cfg) <=? index then mret None else
  let tmp := u32 (wr (rx_fifo fifo_cfg) + index) &' u32 (depth (rx_fifo fifo_cfg) - 1) in
  mret (Some (node + node_size * tmp)).

Definition ipa_common_fifo_hal_set_tx_fifo_rp (id tx_rd : Z) : hal Z :=
  if SIPA_FIFO_MAX <=? id then mret (- EINVAL) else
  fifo_cfg ← cfg_at id;
  let r := u32 (rd (tx_fifo fifo_cfg) + tx_rd) &' PTR_MASK (depth (tx_fifo fifo_cfg)) in
  upd_cfg id (on_tx (set_rd r));;
  ret ← phy (ipa_phy_update_tx_fifo_rptr (fifo_reg_base fifo_cfg) r);
  mret (if negb (ret =? 0) then - EINVAL else 0).

Definition ipa_common_fifo_hal_set_rx_fifo_wr (id num : Z) : hal Z :=
  if SIPA_FIFO_MAX <=? id then mret (- EINVAL) else
  fifo_cfg ← cfg_at id;
  let dma_addr := fifo_base_addr_l (rx_fifo fifo_cfg) in
  filled ← phy (ipa_phy_get_rx_fifo_filled_depth (fifo_reg_base fifo_cfg));
  let left_cnt := u32 (depth (rx_fifo fifo_cfg) - filled) in
  if left_cnt =? 0 then mret (- ENOSPC) else
  let num := if left_cnt <? num then left_cnt else num in
  let index := wr (rx_fifo fifo_cfg) &' u32 (depth (rx_fifo fifo_cfg) - 1) in
  (if u32 (index + num) <=? depth (rx_fifo fifo_cfg) then
     dma_sync_single_for_device (dma_addr + index * node_size) (node_size * num)
   else
     let tmp := u32 (depth (rx_fifo fifo_cfg) - index) in
     dma_sync_single_for_device (dma_addr + index * node_size) (node_size * tmp);;
     let tmp1 := u32 (num - tmp) in
     dma_sync_single_for_device dma_addr (node_size * tmp1));;
  let w := u32 (wr (rx_fifo fifo_cfg) + num) &' PTR_MASK (depth (rx_fifo fifo_cfg)) in
  upd_cfg id (on_rx (set_wr w));;
  ret ← phy (ipa_phy_update_rx_fifo_wptr (fifo_reg_base fifo_cfg) w);
  mret (if negb (ret =? 0) then - EIO else 0).

Definition ipa_common_fifo_set_intr_eb (id : Z) (eb : bool) (type : Z) : hal Z :=
  if SIPA_FIFO_MAX <=? id then mret (- EINVAL) else
  fifo_cfg ← cfg_at id;
  if eb then phy (ipa_phy_enable_int_bit (fifo_reg_base fifo_cfg) type)
  else phy (ipa_phy_disable_int_bit (fifo_reg_base fifo_cfg) type).

Definition ipa_common_fifo_clr_tout_th_intr (id : Z) : hal () :=
  if SIPA_FIFO_MAX <=? id then mret () else
  fifo_cfg ← cfg_at id;
  phy (ipa_phy_clear_int (fifo_reg_base fifo_cfg)
         (IPA_TX_FIFO_TIMER_CLR_BIT |' IPA_TX_FIFO_THRESHOLD_CLR_BIT)).
End Hal.
Arguments hal D A : clear implicits.

(** ** Pointer arithmetic of a ring of [2^k] nodes

    Read and write pointers count modulo [2 * depth], so that a full ring and
    an empty one differ. *)

Definition ring_depth (dep : Z) : Prop := ∃ k, 0 ≤ k ≤ 15 ∧ dep = 2 ^ k.

Lemma ring_depth_bounds dep : ring_depth dep → 0 < dep ≤ 0x8000.
Proof.
  intros (k&?&->). split; [apply Z.pow_pos_nonneg; lia|].
  change 0x8000 with (2 ^ 15). apply Z.pow_le_mono_r; lia.
Qed.

Lemma ring_index dep x : ring_depth dep → x &' u32 (dep - 1) = x mod dep.
Proof.
  intros Hd. pose proof (ring_depth_bounds _ Hd). rewrite u32_small by lia.
  destruct Hd as (k&?&->). rewrite <- Z.land_ones by lia. by rewrite Z.ones_equiv.
Qed.

Lemma PTR_MASK_land dep x : ring_depth dep → x &' PTR_MASK dep = x mod (2 * dep).
Proof.
  intros Hd. assert (PTR_MASK dep = 2 * dep - 1) as ->.
  { assert (forallb (λ k, PTR_MASK (2 ^ k) =? 2 * 2 ^ k - 1) (seqZ 0 16) = true)
      as Hall by reflexivity.
    rewrite List.forallb_forall in Hall. destruct Hd as (k&?&->).
    apply Z.eqb_eq, Hall, list_elem_of_In, elem_of_seqZ. lia. }
  destruct Hd as (k&?&->). rewrite <- Z.pow_succ_r by lia.
  rewrite <- Z.land_ones by lia. by rewrite Z.ones_equiv.
Qed.

(** A pointer modulo [2 * depth] indexes the same slot. *)
Lemma ring_mod_step dep x i : 0 < dep → (x mod (2 * dep) + i) mod dep = (x + i) mod dep.
Proof.
  intros Hd. rewrite Zplus_mod, (Zplus_mod x). do 2 f_equal.
  apply Z.mod_mod_divide. exists 2. lia.
Qed.

(** ** The ring as a queue *)

Definition slot (va dep i : Z) : Z := va + node_size * (i mod dep).

(** The nodes at [n] consecutive positions from [start]. *)
Definition ring (va dep : Z) (m : gmap Z node) (start n : Z) : list (option node) :=
  (λ i, m !! slot va dep i) <$> seqZ start n.

Fixpoint ring_store (va dep : Z) (m : gmap Z node) (start : Z) (l : list node)
    : gmap Z node :=
  match l with
  | [] => m
  | x :: l => ring_store va dep (<[slot va dep start := x]> m) (start + 1) l
  end.

Definition allocated (va dep : Z) (m : gmap Z node) : Prop :=
  ∀ i, is_Some (m !! slot va dep i).

Section Ring.
Context (va dep : Z) (Hdep : 0 < dep).

Lemma slot_inj i j : slot va dep i = slot va dep j ↔ i mod dep = j mod dep.
Proof. unfold slot, node_size. lia. Qed.

Lemma slot_add_mul i q : slot va dep (i + q * dep) = slot va dep i.
Proof. unfold slot. by rewrite Z.mod_add by lia. Qed.

Lemma slot_near i j : i < j < i + dep → slot va dep i ≠ slot va dep j.
Proof.
  rewrite slot_inj. intros Hij E.
  assert ((j - i) mod dep = 0) as E' by (by rewrite Zminus_mod, E, Z.sub_diag, Zmod_0_l).
  rewrite Z.mod_small in E'; lia.
Qed.

Lemma ring_store_other m start l j :
  j < start → start + Z.of_nat (length l) ≤ j + dep →
  ring_store va dep m start l !! slot va dep j = m !! slot va dep j.
Proof.
  revert m start. induction l as [|x l IH]; intros m start ?; [done|].
  intros Hl. rewrite length_cons in Hl. simpl. rewrite IH by lia.
  apply lookup_insert_ne, not_eq_sym, slot_near. lia.
Qed.

Lemma ring_store_lookup m start l i x :
  Z.of_nat (length l) ≤ dep → l !! i = Some x →
  ring_store va dep m start l !! slot va dep (start + Z.of_nat i) = Some x.
Proof.
  revert m start i. induction l as [|y l IH]; intros m start i Hl Hi; [done|].
  rewrite length_cons in Hl. destruct i as [|i]; simpl in *.
  - rewrite Z.add_0_r, ring_store_other by lia. rewrite lookup_insert_eq. congruence.
  - replace (start + Z.of_nat (S i)) with (start + 1 + Z.of_nat i) by lia. apply IH; [lia|done].
Qed.

Lemma ring_app m start n1 n2 :
  0 ≤ n1 → 0 ≤ n2 →
  ring va dep m start (n1 + n2) = ring va dep m start n1 ++ ring va dep m (start + n1) n2.
Proof. intros. unfold ring. by rewrite seqZ_app, fmap_app by done. Qed.

Lemma ring_stored m start l :
  Z.of_nat (length l) ≤ dep →
  ring va dep (ring_store va dep m start l) start (Z.of_nat (length l)) = Some <$> l.
Proof.
  intros Hl. apply list_eq. intros i. unfold ring. rewrite !list_lookup_fmap.
  destruct (l !! i) as [x|] eqn:E.
  - pose proof (lookup_lt_Some _ _ _ E).
    rewrite lookup_seqZ_lt by lia. simpl. by rewrite (ring_store_lookup _ _ _ _ x).
  - apply lookup_ge_None in E. by rewrite lookup_seqZ_ge by lia.
Qed.

Lemma ring_kept m start n l :
  n + Z.of_nat (length l) ≤ dep →
  ring va dep (ring_store va dep m (start + n) l) start n = ring va dep m start n.
Proof.
  intros Hl. unfold ring. apply list_fmap_ext. intros i j Hj.
  apply lookup_seqZ in Hj as [-> ?]. apply ring_store_other; lia.
Qed.

Lemma ring_store_shift m start q l :
  ring_store va dep m (start + q * dep) l = ring_store va dep m start l.
Proof.
  revert m start. induction l as [|x l IH]; intros m start; [done|]. simpl.
  rewrite slot_add_mul. replace (start + q * dep + 1) with (start + 1 + q * dep) by lia.
  apply IH.
Qed.

Lemma ring_store_app m start l1 l2 :
  ring_store va dep m start (l1 ++ l2)
  = ring_store va dep (ring_store va dep m start l1) (start + Z.of_nat (length l1)) l2.
Proof.
  revert m start. induction l1 as [|x l1 IH]; intros m start; simpl.
  { by rewrite Z.add_0_r. }
  rewrite IH. f_equal. lia.
Qed.

Lemma ring_store_allocated m start l :
  allocated va dep m → allocated va dep (ring_store va dep m start l).
Proof.
  revert m start. induction l as [|x l IH]; intros m start Hm; [done|]. simpl.
  apply IH. intros i. destruct (decide (slot va dep start = slot va dep i)) as [->|].
  - by rewrite lookup_insert_eq.
  - by rewrite lookup_insert_ne.
Qed.

(** A copy of nodes that does not pass the end of the array. *)
Lemma store_nodes_ring m index l :
  0 ≤ index → index + Z.of_nat (length l) ≤ dep → allocated va dep m →
  store_nodes m (va + node_size * index) l = Done (ring_store va dep m index l).
Proof.
  revert m index. induction l as [|x l IH]; intros m index ? Hl Hm; [done|].
  rewrite length_cons in Hl. simpl.
  assert (slot va dep index = va + node_size * index) as Es
    by (unfold slot; by rewrite Z.mod_small by lia).
  destruct (Hm index) as [y Hy]. rewrite Es in Hy. rewrite Hy, Es.
  replace (va + node_size * index + node_size) with (va + node_size * (index + 1)) by lia.
  apply IH; [lia|lia|]. rewrite <- Es. apply (ring_store_allocated m index [x] Hm).
Qed.
End Ring.

(** ** Properties *)

Section HalTheory.
Context {D : Type} `{Mmio D}.
Implicit Types (s : hal_state D) (c : fifo_cfg).

Definition with_mem (m : gmap Z node) s : hal_state D :=
  HalState (cfg_base s) m (synced s) (dev s).

Lemma hal_bind_Done {A B} (m : hal D A) (f : A → hal D B) s a s' :
  m s = Done (a, s') → (m ≫= f) s = f a s'.
Proof. intros E. unfold mbind, hal_bind. by rewrite E. Qed.

Lemma cfg_at_Done id s c :
  cfg_base s !! Z.to_nat id = Some c → cfg_at id s = Done (c, s).
Proof. intros E. unfold cfg_at. by rewrite E. Qed.

Lemma memcpy_ring va dep index desc from n s :
  0 < dep → allocated va dep (mem s) →
  0 ≤ index → 0 ≤ n → index + n ≤ dep → 0 ≤ from → from + n ≤ Z.of_nat (length desc) →
  memcpy_nodes (va + node_size * index) desc from n s
  = Done ((), with_mem (ring_store va dep (mem s) index
                (take (Z.to_nat n) (drop (Z.to_nat from) desc))) s).
Proof.
  intros. unfold memcpy_nodes, in_range_nodes.
  rewrite (proj2 (Z.leb_le 0 from)), (proj2 (Z.leb_le (from + n) _)) by lia. simpl.
  rewrite (store_nodes_ring va dep)
    by (done || (rewrite length_take, length_drop; lia)). done.
Qed.

(** The two-part copy of the driver is one store at the ring's positions. *)
Lemma copy_ring va dep w desc n s :
  ring_depth dep → allocated va dep (mem s) → 0 ≤ w →
  0 ≤ n ≤ dep → n ≤ Z.of_nat (length desc) →
  (if u32 (w mod dep + n) <=? dep then
     memcpy_nodes (va + node_size * (w mod dep)) desc 0 n
   else
     memcpy_nodes (va + node_size * (w mod dep)) desc 0 (u32 (dep - w mod dep));;
     memcpy_nodes va desc (u32 (dep - w mod dep)) (u32 (n - u32 (dep - w mod dep)))) s
  = Done ((), with_mem (ring_store va dep (mem s) w (take (Z.to_nat n) desc)) s).
Proof.
  intros Hd Ha Hw Hn Hl. pose proof (ring_depth_bounds _ Hd).
  assert (0 ≤ w mod dep < dep) by (apply Z.mod_pos_bound; lia). set (index := w mod dep) in *.
  assert (Hshift : ∀ m l, ring_store va dep m w l = ring_store va dep m index l).
  { intros m l. rewrite (Z.div_mod w dep) at 1 by lia.
    rewrite Z.add_comm, Z.mul_comm. apply ring_store_shift. lia. }
  rewrite Hshift, (u32_small (index + n)) by lia.
  destruct (Z.leb_spec (index + n) dep).
  { rewrite (memcpy_ring _ dep) by (done || lia). done. }
  rewrite (u32_small (dep - index)) by lia.
  rewrite (u32_small (n - (dep - index))) by lia.
  erewrite hal_bind_Done by (apply (memcpy_ring va dep); done || lia).
  replace va with (va + node_size * 0) at 1 by lia.
  rewrite (memcpy_ring _ dep); try done; try lia.
  2: by apply ring_store_allocated.
  unfold with_mem. simpl. do 3 f_equal.
  replace (Z.to_nat n) with (Z.to_nat (dep - index) + Z.to_nat (n - (dep - index)))%nat by lia.
  rewrite <- take_take_drop, ring_store_app.
  rewrite length_take_le by lia.
  replace (index + Z.of_nat (Z.to_nat (dep - index))) with (0 + 1 * dep) by lia.
  by rewrite ring_store_shift by lia.
Qed.

(** The FIFO [id] has the configuration [c], whose receive ring is set up. *)
Record rx_ready id c s : Prop := {
  rx_id : 0 ≤ id < SIPA_FIFO_MAX;
  rx_cfg : cfg_base s !! Z.to_nat id = Some c;
  rx_depth : ring_depth (depth (rx_fifo c));
  rx_wr : 0 ≤ wr (rx_fifo c) < 2 * depth (rx_fifo c);
  rx_mem : allocated (virtual_addr (rx_fifo c)) (depth (rx_fifo c)) (mem s);
}.

Definition rx_filled c s : Z :=
  (ipa_phy_get_rx_fifo_filled_depth (fifo_reg_base c) (dev s)).1.

(** The [n] nodes before position [w] of the receive ring of [c]. *)
Definition rx_queue c s (w n : Z) : list (option node) :=
  ring (virtual_addr (rx_fifo c)) (depth (rx_fifo c)) (mem s) (w - n) n.

Lemma filled_run c s :
  phy (ipa_phy_get_rx_fifo_filled_depth (fifo_reg_base c)) s = Done (rx_filled c s, s).
Proof. by destruct s. Qed.

(** C38: Putting nodes appends the first [min num left] of them to the queue of
    the receive FIFO, moves the write pointer (in memory and in the device)
    by as many positions and returns the count; a full FIFO is refused with
    [-ENOSPC] and nothing changes. *)
Theorem put_node_to_rx_fifo_spec id c s desc num
    `{!RegisterFile D rw_field (fifo_reg_base c)} :
  rx_ready id c s → rx_filled c s ≤ depth (rx_fifo c) →
  0 ≤ num ≤ Z.of_nat (length desc) →
  let left := depth (rx_fifo c) - rx_filled c s in
  let n := Z.min num left in
  let w := wr (rx_fifo c) in
  let w' := (w + n) mod (2 * depth (rx_fifo c)) in
  if left =? 0 then
    ipa_common_fifo_hal_put_node_to_rx_fifo id desc num s = Done (- ENOSPC, s)
  else ∃ s',
    ipa_common_fifo_hal_put_node_to_rx_fifo id desc num s = Done (n, s')
    ∧ cfg_base s' = alter (on_rx (set_wr w')) (Z.to_nat id) (cfg_base s)
    ∧ rx_queue c s' (w + n) (rx_filled c s + n)
      = rx_queue c s w (rx_filled c s) ++ (Some <$> take (Z.to_nat n) desc)
    ∧ (phy_get RxFifoWptr (fifo_reg_base c) (dev s')).1 = w'
    ∧ synced s' = synced s.
Proof.
  intros [Hid Hc Hd Hw Ha] Hf Hn left n w w'.
  pose proof (ring_depth_bounds _ Hd) as Hb.
  assert (H0 : 0 ≤ rx_filled c s).
  { unfold rx_filled, ipa_phy_get_rx_fifo_filled_depth. simpl.
    apply Z.land_nonneg. lia. }
  unfold ipa_common_fifo_hal_put_node_to_rx_fifo, ipa_put_pkt_to_cache_rx_fifo.
  rewrite (proj2 (Z.ltb_lt id _)) by lia.
  erewrite hal_bind_Done by (by apply cfg_at_Done).
  erewrite hal_bind_Done by apply filled_run. cbv zeta.
  rewrite (u32_small (depth _ - _)) by lia. fold left.
  destruct (Z.eqb_spec left 0) as [|Hl]; [done|].
  assert ((if left <? num then left else num) = n) as ->
    by (subst n; destruct (Z.ltb_spec left num); lia).
  rewrite ring_index by done. fold w.
  erewrite hal_bind_Done.
  2: { rewrite copy_ring; try done; subst n w left; lia. }
  rewrite (u32_small (w + n)) by (subst n w left; lia).
  rewrite PTR_MASK_land by done. fold w'.
  assert (Hw' : 0 ≤ w' < 2 ^ 16).
  { pose proof (Z.mod_pos_bound (w + n) (2 * depth (rx_fifo c))). subst w'. lia. }
  pose proof (phy_set_get (fifo_reg_base c) RxFifoWptr w' (dev s) Hw') as Hset.
  simpl in Hset. cbv [mbind hal_bind upd_cfg phy mret hal_ret outcome_bind with_mem]. simpl.
  destruct (ipa_phy_update_rx_fifo_wptr (fifo_reg_base c) w' (dev s)) as [r d'].
  destruct Hset as (_&Hget&_).
  assert (s32 n = n) as -> by (unfold s32; rewrite Z.mod_small; subst n left; lia).
  eexists. split; [reflexivity|]. split_and!; [done| |done|done].
  unfold rx_queue. simpl. fold w.
  set (va := virtual_addr (rx_fifo c)) in *. set (dep := depth (rx_fifo c)) in *.
  replace (w + n - (rx_filled c s + n)) with (w - rx_filled c s) by lia.
  rewrite ring_app by (subst n left; lia).
  replace (w - rx_filled c s + rx_filled c s) with w by lia.
  assert (Hlen : Z.of_nat (length (take (Z.to_nat n) desc)) = n)
    by (rewrite length_take; subst n left; lia).
  f_equal.
  - replace w with (w - rx_filled c s + rx_filled c s) at 1 by lia.
    apply ring_kept; subst n left; lia.
  - rewrite <- Hlen at 2. apply ring_stored; subst n left; lia.
Qed.

Definition with_dev (d : D) s : hal_state D :=
  HalState (cfg_base s) (mem s) (synced s) d.

Lemma phy_run {A} (m : io D A) s :
  phy m s = Done ((m (dev s)).1, with_dev (m (dev s)).2 s).
Proof. unfold phy. by destruct (m (dev s)). Qed.

(** The registers an opened FIFO has been programmed with. *)
Definition opened_fields c : list (field * Z) :=
  [ (RxFifoDepthField, depth (rx_fifo c));
    (WordField IPA_COMMON_RX_FIFO_ADDRL, fifo_base_addr_l (rx_fifo c));
    (WordField IPA_COMMON_RX_FIFO_ADDRH, fifo_base_addr_h (rx_fifo c));
    (phy_layout TxFifoDepth, depth (tx_fifo c));
    (WordField IPA_COMMON_TX_FIFO_ADDRL, fifo_base_addr_l (tx_fifo c));
    (WordField IPA_COMMON_TX_FIFO_ADDRH, fifo_base_addr_h (tx_fifo c));
    (phy_layout CurTermNum, cur c);
    (phy_layout DstTermNum, dst c);
    (phy_layout RxFifoRptr, 0);
    (phy_layout RxFifoWptr, 0);
    (phy_layout TxFifoRptr, 0);
    (StopReceiveField, 0) ].

Definition opened_cfg cookie c : fifo_cfg :=
  FifoCfg cookie true (dst c) (cur c) (fifo_reg_base c)
    (set_wr 0 (set_rd 0 (rx_fifo c))) (set_wr 0 (set_rd 0 (tx_fifo c))).

Record cfg_in_range c : Prop := {
  range_rx_depth : 0 ≤ depth (rx_fifo c) < 2 ^ 16;
  range_tx_depth : 0 ≤ depth (tx_fifo c) < 2 ^ 16;
  range_rx_lo : 0 ≤ fifo_base_addr_l (rx_fifo c) < 2 ^ 32;
  range_rx_hi : 0 ≤ fifo_base_addr_h (rx_fifo c) < 2 ^ 32;
  range_tx_lo : 0 ≤ fifo_base_addr_l (tx_fifo c) < 2 ^ 32;
  range_tx_hi : 0 ≤ fifo_base_addr_h (tx_fifo c) < 2 ^ 32;
  range_cur : 0 ≤ cur c < 2 ^ 5;
  range_dst : 0 ≤ dst c < 2 ^ 5;
}.

(** One register operation of a configuration sequence. *)
Lemma phy_settle {A B} base acc l (m : io D A) (k : A → hal D B) s d0 :
  settles base acc d0 (dev s) → settles base l (dev s) (m (dev s)).2 →
  ∃ a s1, (phy m ≫= k) s = k a s1 ∧ settles base (acc ++ l) d0 (dev s1)
    ∧ cfg_base s1 = cfg_base s ∧ mem s1 = mem s ∧ synced s1 = synced s.
Proof.
  intros Hacc Hl. eexists _, (with_dev _ s). split.
  - apply hal_bind_Done, phy_run.
  - split_and!; try done. by eapply settles_app.
Qed.

Ltac settle_step l lem :=
  lazymatch goal with
  | Hs : settles ?base ?acc ?d0 (dev ?s), Hc : cfg_base ?s = _, Hm : mem ?s = _
    |- context [(phy ?m ≫= ?k) ?s] =>
    let a := fresh "a" in let s1 := fresh "s1" in
    let Hs1 := fresh "Hs" in let Hc1 := fresh "Hc" in let Hm1 := fresh "Hm" in
    destruct (phy_settle base acc l m k s d0 Hs) as (a&s1&->&Hs1&Hc1&Hm1&_);
    [lem|rewrite Hc in Hc1; rewrite Hm in Hm1; clear Hs Hc Hm; try clear a; try clear s]
  end.

Ltac settle_step_field k v :=
  settle_step [(phy_layout k, v)]
    ltac:(apply settles_one;
          let Hk := fresh in
          match goal with |- settle ?base _ _ _ _ =>
            pose proof (settle_phy base k v) as Hk end;
          cbn [phy_set phy_layout f_len] in Hk; apply Hk; lia).

Lemma open_run id c s cookie L M d0 `{!RegisterFile D rw_field (fifo_reg_base c)} :
  0 ≤ id < SIPA_FIFO_MAX → L !! Z.to_nat id = Some c →
  state c = false → cfg_in_range c →
  cfg_base s = L → mem s = M → settles (fifo_reg_base c) [] d0 (dev s) →
  ∃ s' x, ipa_common_fifo_hal_open id cookie s = Done (0, s')
    ∧ cfg_base s' = <[Z.to_nat id := opened_cfg cookie c]> L
    ∧ mem s' = M
    ∧ settles (fifo_reg_base c)
        (take 11 (opened_fields c) ++
         [(WordField IPA_TX_FIFO_WR_INIT, x); (StopReceiveField, 0)]) d0 (dev s').
Proof.
  intros Hid HL Hst [] Hc Hm Hs.
  unfold ipa_common_fifo_hal_open. rewrite (proj2 (Z.ltb_lt id _)) by lia.
  erewrite hal_bind_Done by (apply cfg_at_Done; by rewrite Hc). rewrite Hst. cbv beta iota zeta.
  set (base := fifo_reg_base c) in *.
  settle_step [(RxFifoDepthField, depth (rx_fifo c))]
    ltac:(apply settles_one, settle_rx_depth; done).
  settle_step [(WordField IPA_COMMON_RX_FIFO_ADDRL, fifo_base_addr_l (rx_fifo c));
               (WordField IPA_COMMON_RX_FIFO_ADDRH, fifo_base_addr_h (rx_fifo c))]
    ltac:(apply settles_rx_addr; done).
  settle_step_field TxFifoDepth (depth (tx_fifo c)).
  settle_step [(WordField IPA_COMMON_TX_FIFO_ADDRL, fifo_base_addr_l (tx_fifo c));
               (WordField IPA_COMMON_TX_FIFO_ADDRH, fifo_base_addr_h (tx_fifo c))]
    ltac:(apply settles_tx_addr; done).
  settle_step_field CurTermNum (cur c).
  settle_step_field DstTermNum (dst c).
  settle_step_field RxFifoRptr 0.
  settle_step_field RxFifoWptr 0.
  settle_step_field TxFifoRptr 0.
  match goal with |- context [(phy ?m ≫= ?k) ?s] =>
    destruct (settle_tx_wptr base 0 (dev s)) as (x&Hx&_); [lia|] end.
  settle_step [(WordField IPA_TX_FIFO_WR_INIT, x)] ltac:(apply settles_one; exact Hx).
  settle_step [(StopReceiveField, 0)] ltac:(apply settles_one, settle_clear_stop; exact _).
  eexists. exists x. split; [reflexivity|]. simpl. split_and!; [|done|by match goal with Hs : settles _ _ _ _ |- _ => exact Hs end].
  subst L. apply list_eq. intros i. destruct (decide (i = Z.to_nat id)) as [->|].
  - rewrite !list_lookup_alter_eq, list_lookup_insert_eq, HL; [done|].
    by eapply lookup_lt_Some.
  - by rewrite !list_lookup_alter_ne, list_lookup_insert_ne by done.
Qed.

(** Opening a closed FIFO programs its depths, addresses and terminals,
    resets its pointers on both sides, lets it receive, and marks it open;
    opening it again is refused with [-EBUSY] and changes nothing. *)
Theorem open_spec id c s cookie cookie' `{!RegisterFile D rw_field (fifo_reg_base c)} :
  0 ≤ id < SIPA_FIFO_MAX → cfg_base s !! Z.to_nat id = Some c →
  state c = false → cfg_in_range c →
  ∃ s', ipa_common_fifo_hal_open id cookie s = Done (0, s')
    ∧ cfg_base s' = <[Z.to_nat id := opened_cfg cookie c]> (cfg_base s)
    ∧ mem s' = mem s
    ∧ Forall (λ p, (field_get p.1 (fifo_reg_base c) (dev s')).1 = p.2) (opened_fields c)
    ∧ ipa_common_fifo_hal_open id cookie' s' = Done (- EBUSY, s').
Proof.
  intros Hid Hc Hst Hr.
  destruct (open_run id c s cookie _ _ (dev s) Hid Hc Hst Hr eq_refl eq_refl)
    as (s'&x&Hrun&Hcfg&Hmem&Hs); [apply settles_nil|].
  exists s'. split_and!; [done..| |].
  - apply settles_get in Hs; cycle 1.
    + repeat constructor; vm_compute; intros; congruence.
    + repeat constructor.
    + unfold opened_fields in *. cbn [take app] in Hs.
      repeat (apply Forall_cons in Hs as [? Hs] || apply Forall_cons_2); done.
  - unfold ipa_common_fifo_hal_open. rewrite (proj2 (Z.ltb_lt id _)) by lia.
    erewrite hal_bind_Done.
    2: { apply cfg_at_Done. rewrite Hcfg, list_lookup_insert_eq; [done|].
         by eapply lookup_lt_Some. }
    done.
Qed.

(** *** Zero-copy reception and consumption *)

(** The descriptors a DMA range covers. *)
Definition range_nodes (r : Z * Z) : list Z :=
  (λ i, r.1 + node_size * i) <$> seqZ 0 (r.2 / node_size).

Lemma range_nodes_slots dma dep w n index :
  0 < dep → 0 ≤ index → 0 ≤ n → index + n ≤ dep → w mod dep = index →
  range_nodes (dma + index * node_size, node_size * n) = slot dma dep <$> seqZ w n.
Proof.
  intros Hd Hi Hn Hl Hw. unfold range_nodes, node_size. cbn [fst snd].
  rewrite (Z.mul_comm 16 n), Z.div_mul by lia.
  apply list_eq. intros j. rewrite !list_lookup_fmap.
  destruct (decide (Z.of_nat j < n)).
  - rewrite !lookup_seqZ_lt by lia. simpl. f_equal. unfold slot, node_size.
    rewrite Zplus_mod, Hw, Zplus_mod_idemp_r, Z.mod_small by lia. lia.
  - by rewrite !lookup_seqZ_ge by lia.
Qed.

Lemma sync_ring dma dep w n s :
  ring_depth dep → 0 ≤ w → 0 ≤ n ≤ dep →
  ∃ l,
    (if u32 (w mod dep + n) <=? dep then
       dma_sync_single_for_device (dma + w mod dep * node_size) (node_size * n)
     else
       dma_sync_single_for_device (dma + w mod dep * node_size)
         (node_size * u32 (dep - w mod dep));;
       dma_sync_single_for_device dma (node_size * u32 (n - u32 (dep - w mod dep)))) s
    = Done ((), HalState (cfg_base s) (mem s) (l ++ synced s) (dev s))
    ∧ concat (range_nodes <$> reverse l) = slot dma dep <$> seqZ w n.
Proof.
  intros Hd Hw Hn. pose proof (ring_depth_bounds _ Hd).
  assert (0 ≤ w mod dep < dep) by (apply Z.mod_pos_bound; lia).
  rewrite (u32_small (w mod dep + n)) by lia.
  destruct (Z.leb_spec (w mod dep + n) dep).
  { eexists [_]. split; [reflexivity|]. cbn. rewrite app_nil_r.
    apply range_nodes_slots; lia. }
  rewrite (u32_small (dep - w mod dep)) by lia.
  rewrite (u32_small (n - (dep - w mod dep))) by lia.
  eexists [_; _]. split; [reflexivity|]. cbn. rewrite app_nil_r.
  rewrite (range_nodes_slots _ dep w) by lia.
  replace dma with (dma + 0 * node_size) at 2 by lia.
  rewrite (range_nodes_slots _ dep (w + (dep - w mod dep)) _ 0); try lia.
  - rewrite <- fmap_app, <- seqZ_app by lia. do 2 f_equal. lia.
  - replace (w + (dep - w mod dep)) with ((w / dep + 1) * dep)
      by (pose proof (Z.div_mod w dep); lia).
    apply Z.mod_mul. lia.
Qed.

(** Handing [num] filled-in descriptors to the device: the write pointer
    moves by [n = min num left], and the descriptors handed to the DMA layer
    are those the driver got from [get_rx_fifo_wr], in order. *)
Theorem set_rx_fifo_wr_spec id c s num `{!RegisterFile D rw_field (fifo_reg_base c)} :
  rx_ready id c s → rx_filled c s < depth (rx_fifo c) →
  virtual_addr (rx_fifo c) ≠ 0 → 0 ≤ num →
  let dep := depth (rx_fifo c) in
  let w := wr (rx_fifo c) in
  let n := Z.min num (dep - rx_filled c s) in
  let w' := (w + n) mod (2 * dep) in
  (∀ i, 0 ≤ i < n →
     ipa_common_fifo_hal_get_rx_fifo_wr id i s
     = Done (Some (slot (virtual_addr (rx_fifo c)) dep (w + i)), s))
  ∧ ∃ s' l, ipa_common_fifo_hal_set_rx_fifo_wr id num s = Done (0, s')
    ∧ cfg_base s' = alter (on_rx (set_wr w')) (Z.to_nat id) (cfg_base s)
    ∧ (phy_get RxFifoWptr (fifo_reg_base c) (dev s')).1 = w'
    ∧ mem s' = mem s
    ∧ synced s' = l ++ synced s
    ∧ concat (range_nodes <$> reverse l)
      = slot (fifo_base_addr_l (rx_fifo c)) dep <$> seqZ w n.
Proof.
  intros [Hid Hc Hd Hw Ha] Hf Hva Hn dep w n w'.
  pose proof (ring_depth_bounds _ Hd) as Hb.
  assert (H0 : 0 ≤ rx_filled c s).
  { unfold rx_filled, ipa_phy_get_rx_fifo_filled_depth. simpl.
    apply Z.land_nonneg. lia. }
  assert (Hindex : 0 ≤ w mod dep < dep) by (apply Z.mod_pos_bound; subst dep; lia).
  assert (Hw' : 0 ≤ w' < 2 ^ 16).
  { pose proof (Z.mod_pos_bound (w + n) (2 * dep)). subst w' dep. lia. }
  split.
  { intros i Hi. unfold ipa_common_fifo_hal_get_rx_fifo_wr.
    rewrite (proj2 (Z.leb_gt _ id)) by lia.
    erewrite hal_bind_Done by (by apply cfg_at_Done). cbv zeta.
    rewrite (proj2 (Z.eqb_neq _ 0)), (proj2 (Z.leb_gt _ i)) by (subst n dep; lia).
    rewrite u32_small by (subst n dep; lia). by rewrite ring_index by done. }
  unfold ipa_common_fifo_hal_set_rx_fifo_wr. rewrite (proj2 (Z.leb_gt _ id)) by lia.
  erewrite hal_bind_Done by (by apply cfg_at_Done). cbv zeta.
  erewrite hal_bind_Done by apply filled_run. fold dep w.
  rewrite (u32_small (dep - _)) by (subst dep; lia).
  rewrite (proj2 (Z.eqb_neq (dep - _) 0)) by (subst dep; lia).
  assert ((if dep - rx_filled c s <? num then dep - rx_filled c s else num) = n) as ->
    by (subst n; destruct (Z.ltb_spec (dep - rx_filled c s) num); lia).
  rewrite ring_index by done.
  destruct (sync_ring (fifo_base_addr_l (rx_fifo c)) dep w n s) as (l&Hrun&Hl);
    [done|subst w; lia|subst n dep; lia|].
  erewrite hal_bind_Done by exact Hrun.
  rewrite (u32_small (w + n)) by (subst n dep w; lia).
  rewrite PTR_MASK_land by done. fold w'.
  pose proof (phy_set_get (fifo_reg_base c) RxFifoWptr w' (dev s) Hw') as Hset.
  simpl in Hset. cbv [mbind hal_bind upd_cfg phy mret hal_ret outcome_bind]. simpl.
  destruct (ipa_phy_update_rx_fifo_wptr (fifo_reg_base c) w' (dev s)) as [r d'].
  destruct Hset as (->&Hget&_).
  eexists _, l. split; [reflexivity|]. done.
Qed.

Lemma u32_mod_depth dep x : ring_depth dep → u32 x mod dep = x mod dep.
Proof.
  intros (k&?&->). unfold u32. apply Z.mod_mod_divide.
  exists (2 ^ (32 - k)). rewrite <- Z.pow_add_r by lia. f_equal. lia.
Qed.

Lemma u32_mod_2depth dep x : ring_depth dep → u32 x mod (2 * dep) = x mod (2 * dep).
Proof.
  intros (k&?&->). rewrite <- Z.pow_succ_r by lia. unfold u32. apply Z.mod_mod_divide.
  exists (2 ^ (31 - k)). rewrite <- Z.pow_add_r by lia. f_equal. lia.
Qed.

Record tx_ready id c s : Prop := {
  tx_id : 0 ≤ id < SIPA_FIFO_MAX;
  tx_cfg : cfg_base s !! Z.to_nat id = Some c;
  tx_depth : ring_depth (depth (tx_fifo c));
  tx_mem : virtual_addr (tx_fifo c) ≠ 0;
}.

(** The driver reads the transmit FIFO through [get_tx_fifo_rp] and consumes
    with [set_tx_fifo_rp]: consuming [n] nodes reports success, moves the
    device's read pointer, and the node then at index [i] is the one that was
    at [n + i]. *)
Theorem tx_consume_spec id c s n `{!RegisterFile D rw_field (fifo_reg_base c)} :
  tx_ready id c s → 0 ≤ n →
  let dep := depth (tx_fifo c) in
  let r' := (rd (tx_fifo c) + n) mod (2 * dep) in
  ∃ s', ipa_common_fifo_hal_set_tx_fifo_rp id n s = Done (0, s')
    ∧ cfg_base s' = alter (on_tx (set_rd r')) (Z.to_nat id) (cfg_base s)
    ∧ (phy_get TxFifoRptr (fifo_reg_base c) (dev s')).1 = r'
    ∧ mem s' = mem s
    ∧ ∀ i, 0 ≤ i → ∃ a,
        ipa_common_fifo_hal_get_tx_fifo_rp id (n + i) s = Done (Some a, s)
        ∧ ipa_common_fifo_hal_get_tx_fifo_rp id i s' = Done (Some a, s').
Proof.
  intros [Hid Hc Hd Hva] Hn dep r'. pose proof (ring_depth_bounds _ Hd) as Hb.
  assert (Hr' : 0 ≤ r' < 2 ^ 16).
  { pose proof (Z.mod_pos_bound (rd (tx_fifo c) + n) (2 * dep)). subst r' dep. lia. }
  unfold ipa_common_fifo_hal_set_tx_fifo_rp. rewrite (proj2 (Z.leb_gt _ id)) by lia.
  erewrite hal_bind_Done by (by apply cfg_at_Done). cbv zeta.
  rewrite PTR_MASK_land, u32_mod_2depth by done. fold dep r'.
  pose proof (phy_set_get (fifo_reg_base c) TxFifoRptr r' (dev s) Hr') as Hset.
  simpl in Hset. cbv [mbind hal_bind upd_cfg phy mret hal_ret outcome_bind]. simpl.
  destruct (ipa_phy_update_tx_fifo_rptr (fifo_reg_base c) r' (dev s)) as [r d'].
  destruct Hset as (->&Hget&_).
  eexists. split; [reflexivity|]. split_and!; [done|done|done|]. intros i Hi.
  exists (slot (virtual_addr (tx_fifo c)) dep (rd (tx_fifo c) + n + i)).
  unfold ipa_common_fifo_hal_get_tx_fifo_rp. rewrite (proj2 (Z.leb_gt _ id)) by lia.
  split.
  - erewrite hal_bind_Done by (by apply cfg_at_Done). cbv zeta.
    rewrite (proj2 (Z.eqb_neq _ 0)) by done.
    rewrite ring_index, u32_mod_depth, Z.add_assoc by done. done.
  - erewrite hal_bind_Done.
    2: { apply cfg_at_Done. simpl. by rewrite list_lookup_alter_eq, Hc. }
    cbn [on_tx tx_fifo virtual_addr set_rd depth rd]. cbv zeta.
    rewrite (proj2 (Z.eqb_neq _ 0)) by done.
    rewrite ring_index, u32_mod_depth by done. unfold slot. subst r'. fold dep.
    rewrite ring_mod_step by (subst dep; lia). done.
Qed.

(** *** Inverted checks of the register calls' results *)

(** [enable_remote_flowctrl_intr] takes a register call's success for a
    failure: with a watermark that fits it stops after the first one,
    reporting success, and the other watermarks and the flow-control mode
    stay as they were. *)
Theorem remote_flowctrl_stops_early id c s mode tx_entry tx_exit rx_entry rx_exit
    `{!RegisterFile D rw_field (fifo_reg_base c)} :
  id < SIPA_FIFO_MAX → cfg_base s !! Z.to_nat id = Some c → 0 ≤ tx_exit < 2 ^ 16 →
  ∃ s', ipa_common_fifo_hal_enable_remote_flowctrl_intr id mode
          tx_entry tx_exit rx_entry rx_exit s = Done (0, s')
    ∧ (phy_get TxExitWatermark (fifo_reg_base c) (dev s')).1 = tx_exit
    ∧ ∀ k, k ≠ TxExitWatermark →
        (phy_get k (fifo_reg_base c) (dev s')).1 = (phy_get k (fifo_reg_base c) (dev s)).1.
Proof.
  intros Hid Hc Hv. unfold ipa_common_fifo_hal_enable_remote_flowctrl_intr.
  rewrite (proj2 (Z.ltb_lt id _)) by done.
  erewrite hal_bind_Done by (by apply cfg_at_Done). cbv zeta.
  erewrite hal_bind_Done by apply phy_run.
  pose proof (phy_set_get (fifo_reg_base c) TxExitWatermark tx_exit (dev s) Hv) as Hset.
  cbn [phy_set] in Hset.
  destruct (ipa_phy_set_tx_fifo_exit_flow_ctrl_watermark _ _ _) as [r d'].
  destruct Hset as (->&Hget&Hframe). cbn [fst snd]. rewrite Z.eqb_refl.
  eexists. split; [reflexivity|]. by split.
Qed.

Definition enabled_ints c s : Z :=
  (ipa_phy_get_all_intr_enable_status (fifo_reg_base c) (dev s)).1.

Definition delay_timer c s : Z :=
  (ipa_phy_get_tx_fifo_interrupt_delay_timer (fifo_reg_base c) (dev s)).1.

(** Setting the delay timer does not touch the interrupt enables, and the
    reverse. *)
Lemma delay_timer_set c s time `{!RegisterFile D rw_field (fifo_reg_base c)} :
  0 ≤ time ≤ 0xFFFF →
  let m := ipa_phy_set_tx_fifo_interrupt_delay_timer (fifo_reg_base c) time in
  let s' := with_dev (m (dev s)).2 s in
  (m (dev s)).1 = 0 ∧ delay_timer c s' = time ∧ enabled_ints c s' = enabled_ints c s.
Proof.
  intros Ht m s'. assert (Hv : 0 ≤ time < 2 ^ 16) by lia.
  pose proof (phy_set_get (fifo_reg_base c) IntDelayTimer time (dev s) Hv) as Hset.
  cbn [phy_set] in Hset. fold m in Hset.
  subst s'. unfold delay_timer, enabled_ints. cbn [dev with_dev].
  assert (enabled_frame : (ipa_phy_get_all_intr_enable_status (fifo_reg_base c) (m (dev s)).2).1
    = (ipa_phy_get_all_intr_enable_status (fifo_reg_base c) (dev s)).1).
  { subst m. unfold ipa_phy_set_tx_fifo_interrupt_delay_timer.
    rewrite (proj2 (Z.ltb_ge _ _)) by lia. simpl.
    apply readback_other; done. }
  destruct (m (dev s)) as [r d']. destruct Hset as (->&Hget&_). done.
Qed.

(** [set_intr_timeout] tests the timer call the wrong way round: when the
    time is programmed the interrupt is not enabled, and a time that is
    refused enables the interrupt and reports success.  Its hardware variant
    [set_hw_intr_timeout] programs, enables and reports as meant. *)
Theorem set_intr_timeout_inverted id c s time `{!RegisterFile D rw_field (fifo_reg_base c)} :
  id < SIPA_FIFO_MAX → cfg_base s !! Z.to_nat id = Some c → 0 ≤ time →
  ∃ s1 r2 s2,
    ipa_common_fifo_hal_set_intr_timeout id 1 time s = Done (0, s1)
    ∧ ipa_common_fifo_hal_set_hw_intr_timeout id 1 time s = Done (r2, s2)
    ∧ (time ≤ 0xFFFF →
         delay_timer c s1 = time ∧ enabled_ints c s1 = enabled_ints c s
         ∧ r2 = 0 ∧ delay_timer c s2 = time
         ∧ enabled_ints c s2 = (enabled_ints c s |' IPA_TX_FIFO_DELAY_TIMER_EN))
    ∧ (0xFFFF < time →
         delay_timer c s1 = delay_timer c s
         ∧ enabled_ints c s1 = (enabled_ints c s |' IPA_TXFIFO_INT_DELAY_TIMER_SW_EN)
         ∧ r2 = - EINVAL ∧ s2 = s).
Proof.
  intros Hid Hc Ht. unfold ipa_common_fifo_hal_set_intr_timeout,
    ipa_common_fifo_hal_set_hw_intr_timeout.
  rewrite (proj2 (Z.ltb_lt id _)) by done.
  erewrite !hal_bind_Done by (by apply cfg_at_Done). cbv beta zeta. cbn [negb Z.eqb].
  erewrite !(hal_bind_Done (phy _)) by apply phy_run.
  set (m := ipa_phy_set_tx_fifo_interrupt_delay_timer (fifo_reg_base c) time).
  pose proof (λ bit d, int_bits_spec (fifo_reg_base c) bit d) as Hen. cbv zeta in Hen.
  destruct (Z.le_gt_cases time 0xFFFF) as [Hle|Hgt].
  - destruct (delay_timer_set c s time ltac:(lia)) as (Hr&Htime&Hints).
    fold m in Hr, Htime, Hints. rewrite Hr. cbn [Z.eqb negb].
    rewrite phy_run. do 3 eexists. split; [reflexivity|]. split; [reflexivity|].
    split; [|lia]. intros _.
    specialize (Hen IPA_TX_FIFO_DELAY_TIMER_EN (m (dev s)).2 eq_refl).
    unfold delay_timer, enabled_ints in *. cbn [dev with_dev] in *.
    destruct (ipa_phy_enable_int_bit _ _ _) as [r1 d1].
    destruct (ipa_phy_disable_int_bit _ _ _) as [r2 d2].
    destruct Hen as (->&_&He&_&Hk). cbn [fst snd]. rewrite He, Hints.
    split_and!; try done. destruct (Hk IntDelayTimer) as [Hk1 _]. simpl in Hk1, Htime.
    simpl. congruence.
  - assert (Em : m (dev s) = (- EINVAL, dev s)).
    { apply (phy_set_refuses (fifo_reg_base c) IntDelayTimer); [done|simpl; lia]. }
    rewrite Em. cbn [fst snd]. change (- EINVAL =? 0) with false. cbn [negb].
    rewrite phy_run.
    specialize (Hen IPA_TXFIFO_INT_DELAY_TIMER_SW_EN (dev s) eq_refl).
    cbn [dev with_dev].
    destruct (ipa_phy_enable_int_bit _ _ _) as [r1 d1] eqn:E1.
    destruct (ipa_phy_disable_int_bit _ _ _) as [r2 d2].
    destruct Hen as (->&_&He&_&Hk). cbn [fst snd].
    do 3 eexists. split; [reflexivity|]. split; [reflexivity|].
    split; [lia|]. intros _. split_and!; try done.
    + apply (Hk IntDelayTimer).
    + by destruct s.
Qed.

(** The calls that move a pointer succeed on every masked value. *)
Lemma pointer_calls_succeed base v d `{!RegisterFile D rw_field base} :
  0 ≤ v < 2 ^ 16 →
  (ipa_phy_update_rx_fifo_rptr base v d).1 = 0
  ∧ (ipa_phy_update_rx_fifo_wptr base v d).1 = 0
  ∧ (ipa_phy_update_tx_fifo_rptr base v d).1 = 0
  ∧ (ipa_phy_update_tx_fifo_wptr base v d).1 = 0.
Proof.
  intros Hv.
  pose proof (phy_set_get base RxFifoRptr v d Hv) as H1. cbn [phy_set] in H1.
  pose proof (phy_set_get base RxFifoWptr v d Hv) as H2. cbn [phy_set] in H2.
  pose proof (phy_set_get base TxFifoRptr v d Hv) as H3. cbn [phy_set] in H3.
  destruct (settle_tx_wptr base v d Hv) as (?&_&?&_).
  destruct (ipa_phy_update_rx_fifo_rptr base v d), (ipa_phy_update_rx_fifo_wptr base v d),
    (ipa_phy_update_tx_fifo_rptr base v d).
  destruct H1 as [-> _], H2 as [-> _], H3 as [-> _]. by split_and!.
Qed.

Lemma read_run {A} (m : io D A) s :
  (m (dev s)).2 = dev s → phy m s = Done ((m (dev s)).1, s).
Proof. intros E. rewrite phy_run, E. by destruct s. Qed.

(** One pointer of [set_rx_tx_fifo_ptr]. *)
Lemma move_bind {B} id c0 s a b e (f : fifo_cfg → fifo_cfg) (m : io D Z)
    (g : Z → hal D B) (Φ : outcome (B * hal_state D) → Prop) :
  cfg_base s !! Z.to_nat id = Some c0 → (∀ d, (m d).1 = 0) →
  (∀ s', cfg_base s' !! Z.to_nat id = Some (if a =? b then c0 else f c0) →
    Φ (g (if a =? b then e else - EIO) s')) →
  Φ (((if negb (a =? b) then
         upd_cfg id f;; ret ← phy m; mret (if ret =? 0 then - EIO else e)
       else mret e) ≫= g) s).
Proof.
  intros Hc Hm HΦ. destruct (a =? b); simpl; [by apply HΦ|].
  cbv [mbind hal_bind upd_cfg phy mret hal_ret outcome_bind]. simpl.
  specialize (Hm (dev s)). destruct (m (dev s)) as [r d]. simpl in Hm. subst r.
  apply HΦ. simpl. by rewrite list_lookup_alter_eq, Hc.
Qed.

(** The pointers the device shows for [c]: those of the receive FIFO, then
    those of the transmit FIFO, read before write. *)
Definition device_pointers c s : Z * Z * (Z * Z) :=
  let base := fifo_reg_base c in
  ((ipa_phy_get_rx_fifo_rptr base (dev s)).1, (ipa_phy_get_rx_fifo_wptr base (dev s)).1,
   ((ipa_phy_get_tx_fifo_rptr base (dev s)).1, (ipa_phy_get_tx_fifo_wptr base (dev s)).1)).

(** [set_rx_tx_fifo_ptr] reports [-EIO] exactly when it has to move a pointer
    of the device, though every move succeeds; the software copies of the
    moved pointers are the requested ones modulo twice the receive depth, the
    transmit pointers included. *)
Theorem set_rx_tx_fifo_ptr_spec id c s rx_rd rx_wr tx_rd tx_wr
    `{!RegisterFile D rw_field (fifo_reg_base c)} :
  id < SIPA_FIFO_MAX → cfg_base s !! Z.to_nat id = Some c →
  ring_depth (depth (rx_fifo c)) →
  let '(rr, rw, (tr, tw)) := device_pointers c s in
  let mask := 2 * depth (rx_fifo c) in
  let moved old new cur := if new =? old then cur else new mod mask in
  ∃ s' c',
    ipa_common_fifo_hal_set_rx_tx_fifo_ptr id rx_rd rx_wr tx_rd tx_wr s
    = Done (if (rx_rd =? rr) && (rx_wr =? rw) && (tx_rd =? tr) && (tx_wr =? tw)
            then 0 else - EIO, s')
    ∧ cfg_base s' !! Z.to_nat id = Some c'
    ∧ rd (rx_fifo c') = moved rr rx_rd (rd (rx_fifo c))
    ∧ wr (rx_fifo c') = moved rw rx_wr (wr (rx_fifo c))
    ∧ rd (tx_fifo c') = moved tr tx_rd (rd (tx_fifo c))
    ∧ wr (tx_fifo c') = moved tw tx_wr (wr (tx_fifo c)).
Proof.
  intros Hid Hc Hd. destruct (device_pointers c s) as [[rr rw] [tr tw]] eqn:Ep.
  pose proof (f_equal (λ p, p.1.1) Ep) as E1. pose proof (f_equal (λ p, p.1.2) Ep) as E2.
  pose proof (f_equal (λ p, p.2.1) Ep) as E3. pose proof (f_equal (λ p, p.2.2) Ep) as E4.
  cbn [fst snd device_pointers] in E1, E2, E3, E4. clear Ep. cbv zeta.
  pose proof (ring_depth_bounds _ Hd) as Hb.
  assert (Hm : ∀ x, 0 ≤ x mod (2 * depth (rx_fifo c)) < 2 ^ 16).
  { intros x. pose proof (Z.mod_pos_bound x (2 * depth (rx_fifo c))). lia. }
  pattern (ipa_common_fifo_hal_set_rx_tx_fifo_ptr id rx_rd rx_wr tx_rd tx_wr s).
  match goal with |- ?P _ => set (Φ := P) end.
  unfold ipa_common_fifo_hal_set_rx_tx_fifo_ptr. rewrite (proj2 (Z.ltb_lt id _)) by done.
  erewrite hal_bind_Done by (by apply cfg_at_Done). cbv beta zeta.
  rewrite !PTR_MASK_land by done.
  do 4 (erewrite (hal_bind_Done (phy _)) by (by apply read_run)).
  rewrite E1, E2, E3, E4. clear E1 E2 E3 E4.
  set (mask := 2 * depth (rx_fifo c)) in *.
  pose proof (λ x d, pointer_calls_succeed (fifo_reg_base c) (x mod mask) d (Hm x)) as Hcalls.
  do 4 (eapply move_bind; [eassumption|intros d; apply Hcalls|intros ? ?]).
  subst Φ. cbv beta. eexists _, _. split; [|split; [eassumption|]];
    by destruct (rx_rd =? rr), (rx_wr =? rw), (tx_rd =? tr), (tx_wr =? tw).
Qed.
End HalTheory.

(** ** Operations on a FIFO that does not exist *)

(** Every operation on an index past the last FIFO leaves the state alone.  The
    setters answer [-EINVAL], except [set_tx_depth], whose answer 0 is that of a
    success. *)
Theorem invalid_id_spec {D : Type} `{Mmio D} id n m l (s : hal_state D) :
  SIPA_FIFO_MAX ≤ id →
  Forall (λ op : hal D Z, op s = Done (- EINVAL, s))
    [ ipa_common_fifo_hal_open id n; ipa_common_fifo_hal_close id;
      ipa_common_fifo_hal_set_rx_depth id n;
      ipa_common_fifo_hal_set_intr_drop_packet id n;
      ipa_common_fifo_hal_set_intr_error_code id n;
      ipa_common_fifo_hal_set_intr_timeout id n m;
      ipa_common_fifo_hal_set_hw_intr_timeout id n m;
      ipa_common_fifo_hal_set_intr_threshold id n m;
      ipa_common_fifo_hal_set_hw_intr_thres id n m;
      ipa_common_fifo_hal_set_src_dst_term id n m;
      ipa_common_fifo_hal_enable_local_flowctrl_intr id n m;
      ipa_common_fifo_hal_enable_remote_flowctrl_intr id n m n m n;
      ipa_common_fifo_hal_set_interrupt_intr id n;
      ipa_common_fifo_hal_set_intr_txfifo_overflow id n;
      ipa_common_fifo_hal_set_intr_txfifo_full id n;
      ipa_common_fifo_hal_put_node_to_rx_fifo id l n;
      ipa_common_fifo_hal_set_rx_tx_fifo_ptr id n m n m;
      ipa_common_fifo_hal_ctrl_receive id true;
      ipa_common_fifo_hal_set_tx_fifo_rp id n;
      ipa_common_fifo_hal_set_rx_fifo_wr id n;
      ipa_common_fifo_set_intr_eb id true n ]
  ∧ Forall (λ op : hal D Z, op s = Done (0, s))
      [ ipa_common_fifo_hal_set_tx_depth id n; ipa_common_fifo_hal_get_rx_depth id;
        ipa_common_fifo_hal_get_tx_depth id; ipa_common_fifo_hal_get_left_cnt id;
        ipa_common_fifo_hal_recv_node_from_tx_fifo id;
        ipa_common_fifo_hal_get_tx_full_status id;
        ipa_common_fifo_hal_get_tx_empty_status id;
        ipa_common_fifo_hal_get_rx_full_status id;
        ipa_common_fifo_hal_get_rx_empty_status id ]
  ∧ ipa_common_fifo_hal_set_rx_fifo_wptr id n s = Done (false, s)
  ∧ ipa_common_fifo_hal_set_tx_fifo_wptr id n s = Done (false, s)
  ∧ ipa_common_fifo_hal_get_tx_fifo_rp id n s = Done (None, s)
  ∧ ipa_common_fifo_hal_get_rx_fifo_wr id n s = Done (None, s)
  ∧ ipa_common_fifo_clr_tout_th_intr id s = Done ((), s).
Proof.
  intros Hid.
  assert (E1 : (id <? SIPA_FIFO_MAX) = false) by (apply Z.ltb_ge; lia).
  assert (E2 : (SIPA_FIFO_MAX <=? id) = true) by (apply Z.leb_le; lia).
  unfold ipa_common_fifo_hal_open, ipa_common_fifo_hal_close, ipa_common_fifo_hal_set_rx_depth,
    ipa_common_fifo_hal_set_intr_drop_packet, ipa_common_fifo_hal_set_intr_error_code,
    ipa_common_fifo_hal_set_intr_timeout, ipa_common_fifo_hal_set_hw_intr_timeout,
    ipa_common_fifo_hal_set_intr_threshold, ipa_common_fifo_hal_set_hw_intr_thres,
    ipa_common_fifo_hal_set_src_dst_term, ipa_common_fifo_hal_enable_local_flowctrl_intr,
    ipa_common_fifo_hal_enable_remote_flowctrl_intr, ipa_common_fifo_hal_set_interrupt_intr,
    ipa_common_fifo_hal_set_intr_txfifo_overflow, ipa_common_fifo_hal_set_intr_txfifo_full,
    ipa_common_fifo_hal_put_node_to_rx_fifo, ipa_common_fifo_hal_set_rx_tx_fifo_ptr,
    ipa_common_fifo_hal_ctrl_receive, ipa_common_fifo_hal_set_tx_fifo_rp,
    ipa_common_fifo_hal_set_rx_fifo_wr, ipa_common_fifo_set_intr_eb,
    ipa_common_fifo_hal_set_tx_depth, ipa_common_fifo_hal_get_rx_depth,
    ipa_common_fifo_hal_get_tx_depth, ipa_common_fifo_hal_get_left_cnt,
    ipa_common_fifo_hal_recv_node_from_tx_fifo, ipa_common_fifo_hal_get_tx_full_status,
    ipa_common_fifo_hal_get_tx_empty_status, ipa_common_fifo_hal_get_rx_full_status,
    ipa_common_fifo_hal_get_rx_empty_status, ipa_common_fifo_hal_set_rx_fifo_wptr,
    ipa_common_fifo_hal_set_tx_fifo_wptr, ipa_common_fifo_hal_get_tx_fifo_rp,
    ipa_common_fifo_hal_get_rx_fifo_wr, ipa_common_fifo_clr_tout_th_intr.
  split_and!; repeat (apply Forall_nil_2 || apply Forall_cons_2).
  all: rewrite ?E1, ?E2; reflexivity.
Qed.

(** ** Examples *)

Definition example_node (i : Z) : node := Node (4096 * i) 1500 0 1 2 3 0 0 0 0 0 0.

Definition example_cfg : fifo_cfg :=
  FifoCfg 0 false 4 16 0 (FifoTag 4 3 1 0x1000 0 4096) (FifoTag 4 2 1 0x2000 0 8192).

(** Both rings of four nodes are allocated; two nodes are waiting in the
    receive FIFO. *)
Definition example_state : hal_state (gmap Z Z) :=
  HalState [example_cfg; example_cfg]
    (list_to_map ((λ i, (4096 + node_size * i, example_node 0)) <$> seqZ 0 4))
    [] {[IPA_COMMON_RX_FIFO_DEPTH := 0x40002]}.

Lemma example_allocated : allocated 4096 4 (mem example_state).
Proof.
  intros i. unfold slot. pose proof (Z.mod_pos_bound i 4) as Hi.
  assert (i mod 4 = 0 ∨ i mod 4 = 1 ∨ i mod 4 = 2 ∨ i mod 4 = 3) as [->|[->|[->| ->]]] by lia;
    by eexists.
Defined.

Lemma example_ready : rx_ready 0 example_cfg example_state.
Proof.
  split; [done|done|by exists 2|vm_compute; intuition congruence|exact example_allocated].
Defined.

Lemma put_node_to_rx_fifo_spec_witness :
  ∃ s', ipa_common_fifo_hal_put_node_to_rx_fifo 0
          [example_node 1; example_node 2; example_node 3] 3 example_state = Done (2, s').
Proof.
  pose proof (put_node_to_rx_fifo_spec 0 example_cfg example_state
    [example_node 1; example_node 2; example_node 3] 3 example_ready) as Hp.
  destruct Hp as (s'&Hr&_); [vm_compute; congruence|simpl; lia|].
  exists s'. exact Hr.
Defined.

Lemma open_spec_witness :
  ∃ s', ipa_common_fifo_hal_open 0 7 example_state = Done (0, s').
Proof.
  destruct (open_spec 0 example_cfg example_state 7 8) as (s'&Hr&_);
    [vm_compute; intuition congruence|done|done| |by exists s'].
  split; vm_compute; intuition congruence.
Defined.

Lemma set_rx_fifo_wr_spec_witness :
  ∃ s', ipa_common_fifo_hal_set_rx_fifo_wr 0 2 example_state = Done (0, s').
Proof.
  destruct (set_rx_fifo_wr_spec 0 example_cfg example_state 2 example_ready)
    as (_&s'&l&Hr&_); [by vm_compute|done|lia|]. by exists s'.
Defined.

Lemma tx_consume_spec_witness :
  ∃ s', ipa_common_fifo_hal_set_tx_fifo_rp 0 1 example_state = Done (0, s').
Proof.
  destruct (tx_consume_spec 0 example_cfg example_state 1) as (s'&Hr&_);
    [split; [done|done|by exists 2|done]|lia|]. by exists s'.
Defined.

Lemma remote_flowctrl_stops_early_witness :
  ∃ s', ipa_common_fifo_hal_enable_remote_flowctrl_intr 0 1 10 20 30 40 example_state
        = Done (0, s').
Proof.
  destruct (remote_flowctrl_stops_early 0 example_cfg example_state 1 10 20 30 40)
    as (s'&Hr&_); [done|done|lia|]. by exists s'.
Defined.

Lemma set_intr_timeout_inverted_witness :
  ∃ s', ipa_common_fifo_hal_set_intr_timeout 0 1 100 example_state = Done (0, s').
Proof.
  destruct (set_intr_timeout_inverted 0 example_cfg example_state 100)
    as (s1&r2&s2&Hr&_); [done|done|lia|]. by exists s1.
Defined.

Lemma set_rx_tx_fifo_ptr_spec_witness :
  ∃ s', ipa_common_fifo_hal_set_rx_tx_fifo_ptr 0 1 0 0 0 example_state = Done (- EIO, s').
Proof.
  destruct (set_rx_tx_fifo_ptr_spec 0 example_cfg example_state 1 0 0 0)
    as (s'&c'&Hr&_); [done|done|by exists 2|]. by exists s'.
Defined.

Lemma invalid_id_spec_witness :
  ipa_common_fifo_hal_get_tx_fifo_rp 2 0 example_state = Done (None, example_state).
Proof. apply (invalid_id_spec 2 0 0 [] example_state). reflexivity. Defined.
