(* ===== verification/RecvRing.v ===== *)
(** * The ring of receive buffers

    Model of the single-producer single-consumer ring of
    [src/drivers/quectel-sprd-pcie/src/sipa/sipa_skb_recv.c]
    ([put_recv_array_node], [get_recv_array_node], [create_recv_array],
    [destroy_recv_array]) and its refinement to a bounded queue.  The pointers
    [rp] and [wp] run freely over 32 bits. *)

From S2P Require Import Prelude Ring.

#[local] Open Scope Z_scope.
#[local] Open Scope c_scope.

(** [struct sipa_skb_dma_addr_node]: a buffer and its DMA address. *)
Record skb_node := SkbNode { skb : Z; dma_addr : Z }.

(** [struct sipa_skb_array]; [None] is a null [array]. *)
Record skb_array := SkbArray {
  array : option (list skb_node);
  rp : Z;
  wp : Z;
  depth : Z;
}.

Definition put_recv_array_node (p : skb_array) (skb dma_addr : Z)
    : outcome (Z * skb_array) :=
  if u32 (wp p - rp p) <? depth p then
    let pos := wp p &' u32 (depth p - 1) in
    match array p with
    | Some a =>
      if pos <? Z.of_nat (length a) then
        Done (0, SkbArray (Some (<[Z.to_nat pos := SkbNode skb dma_addr]> a))
                   (rp p) (u32 (wp p + 1)) (depth p))
      else OutOfBounds
    | None => OutOfBounds
    end
  else Done (-1, p).

Definition get_recv_array_node (p : skb_array)
    : outcome (Z * option skb_node * skb_array) :=
  if negb (rp p =? wp p) then
    let pos := rp p &' u32 (depth p - 1) in
    match array p ≫= (λ a, a !! Z.to_nat pos) with
    | Some n =>
      Done (0, Some n, SkbArray (array p) (u32 (rp p + 1)) (wp p) (depth p))
    | None => OutOfBounds
    end
  else Done (-1, None, p).

(** [kzalloc] gives zeroed nodes, or fails. *)
Definition create_recv_array (kzalloc_ok : bool) (p : skb_array) (d : Z) : Z * skb_array :=
  if kzalloc_ok
  then (0, SkbArray (Some (replicate (Z.to_nat d) (SkbNode 0 0))) 0 0 d)
  else (- ENOMEM, SkbArray None (rp p) (wp p) (depth p)).

Definition destroy_recv_array (p : skb_array) : skb_array := SkbArray None 0 0 0.

(** ** The bounded queue *)

Inductive op := Put (n : skb_node) | Get.
Inductive res := PutRes (ret : Z) | GetRes (ret : Z) (n : option skb_node).

Definition queue_step (cap : Z) (q : list skb_node) (o : op) : res * list skb_node :=
  match o with
  | Put n => if Z.of_nat (length q) <? cap then (PutRes 0, q ++ [n]) else (PutRes (-1), q)
  | Get => match q with
           | n :: q => (GetRes 0 (Some n), q)
           | [] => (GetRes (-1) None, [])
           end
  end.

Fixpoint queue_run (cap : Z) (q : list skb_node) (ops : list op) : list res :=
  match ops with
  | [] => []
  | o :: ops => let '(r, q') := queue_step cap q o in r :: queue_run cap q' ops
  end.

(** ** The ring under a sequence of calls *)

Definition ring_step (p : skb_array) (o : op) : outcome (res * skb_array) :=
  match o with
  | Put n => '(r, p') ← put_recv_array_node p (skb n) (dma_addr n); Done (PutRes r, p')
  | Get => '(r, n, p') ← get_recv_array_node p; Done (GetRes r n, p')
  end.

Fixpoint ring_run (p : skb_array) (ops : list op) : outcome (list res) :=
  match ops with
  | [] => Done []
  | o :: ops =>
    '(r, p') ← ring_step p o; rs ← ring_run p' ops; Done (r :: rs)
  end.

(** ** Representation *)

Definition recv_rep (p : skb_array) (q : list skb_node) : Prop :=
  ∃ a, array p = Some a ∧ ring_rep (depth p) (rp p) (wp p) a q.

Lemma put_refines p q n :
  recv_rep p q →
  ∃ p', ring_step p (Put n) = Done ((queue_step (depth p) q (Put n)).1, p')
    ∧ depth p' = depth p ∧ recv_rep p' (queue_step (depth p) q (Put n)).2.
Proof.
  intros (a&Ha&Hr). unfold ring_step, put_recv_array_node, queue_step.
  rewrite (rep_count _ _ _ _ _ Hr).
  destruct (Z.ltb_spec (Z.of_nat (length q)) (depth p)) as [Hl|Hl];
    [|exists p; split_and!; [done|done|by exists a]].
  rewrite Ha. destruct (rep_pos _ _ _ _ _ (wp p) Hr) as [-> _].
  pose proof (rep_bounds _ _ _ _ _ Hr). pose proof (Z.mod_pos_bound (wp p) (depth p)).
  rewrite (proj2 (Z.ltb_lt _ _)) by (rewrite (rep_length _ _ _ _ _ Hr); lia).
  eexists. split; [reflexivity|]. split; [done|]. eexists. split; [reflexivity|].
  replace (SkbNode (skb n) (dma_addr n)) with n by (by destruct n). by apply rep_push.
Qed.

Lemma get_refines p q :
  recv_rep p q →
  ∃ p', ring_step p Get = Done ((queue_step (depth p) q Get).1, p')
    ∧ depth p' = depth p ∧ recv_rep p' (queue_step (depth p) q Get).2.
Proof.
  intros (a&Ha&Hr). unfold ring_step, get_recv_array_node.
  rewrite (rep_empty _ _ _ _ _ Hr). destruct q as [|n q].
  { exists p. split_and!; [done|done|by exists a]. }
  destruct (rep_pos _ _ _ _ _ (rp p) Hr) as [-> _].
  destruct (rep_pop _ _ _ _ _ _ Hr) as [Hx Hr'].
  rewrite bool_decide_false by done. rewrite Ha. simpl. rewrite Hx.
  eexists. split; [reflexivity|]. split; [done|]. by exists a.
Qed.

(** C37: From [create_recv_array] on, every sequence of puts and gets gives the
    answers of a queue bounded by the depth: first in, first out, -1 when full
    or empty; no call goes outside the array, however often the 32-bit pointers
    wrap around. *)
Theorem recv_ring_refines_queue k p ops :
  0 ≤ k ≤ 31 →
  ring_run (create_recv_array true p (2 ^ k)).2 ops = Done (queue_run (2 ^ k) [] ops).
Proof.
  intros Hk.
  assert (Hgen : ∀ ops p q, recv_rep p q → ring_run p ops = Done (queue_run (depth p) q ops)).
  { clear. induction ops as [|o ops IH]; intros p q Hr; [done|].
    assert (∃ p', ring_step p o = Done ((queue_step (depth p) q o).1, p')
      ∧ depth p' = depth p ∧ recv_rep p' (queue_step (depth p) q o).2)
      as (p'&E&Hd&Hr') by (destruct o; [by apply put_refines|by apply get_refines]).
    cbn [ring_run queue_run]. rewrite E. cbn [mbind outcome_bind].
    rewrite (IH _ _ Hr'), Hd. by destruct (queue_step (depth p) q o). }
  assert (0 < 2 ^ k) by (apply Z.pow_pos_nonneg; lia).
  rewrite (Hgen _ _ []); [done|]. eexists. split; [reflexivity|].
  apply (rep_empty_intro _ k); simpl; [done|done|lia|]. rewrite length_replicate. lia.
Qed.

Lemma recv_ring_refines_queue_witness :
  ring_run (create_recv_array true (SkbArray None 5 5 5) (2 ^ 1)).2
    [Put (SkbNode 1 10); Put (SkbNode 2 20); Put (SkbNode 3 30); Get; Put (SkbNode 4 40); Get]
  = Done [PutRes 0; PutRes 0; PutRes (-1); GetRes 0 (Some (SkbNode 1 10)); PutRes 0;
          GetRes 0 (Some (SkbNode 2 20))].
Proof. apply (recv_ring_refines_queue 1). lia. Defined.
