(* ===== verification/AtTok.v ===== *)
(** * Tokenizing AT responses

    Model of [src/utils/quectel-cm/src/at_tok.c].  A string is the list of its
    character codes up to the terminating NUL; a cursor [char *] into the line
    is [None] when null, else the rest of the line.  Tokens cut out by
    [strsep] are values: that the pointers stored for [%s] stay inside the
    static line buffer, and are overwritten by the next call, is not modelled. *)

From S2P Require Import Prelude.
From Stdlib Require Import Ascii String.
Close Scope string_scope.
Open Scope list_scope.
#[local] Abbreviation length := Datatypes.length.

#[local] Open Scope Z_scope.

Definition str (s : string) : list Z :=
  (λ c, Z.of_N (N_of_ascii c)) <$> list_ascii_of_string s.

Definition COMMA : Z := 44.
Definition COLON : Z := 58.
Definition QUOTE : Z := 34.
Definition PERCENT : Z := 37.
Definition MINUS : Z := 45.
Definition PLUS : Z := 43.
Definition SPACE : Z := 32.

Definition cursor := option (list Z).

(** ** The C library on such strings *)

(** [isspace] of the C locale. *)
Definition isspace (c : Z) : bool := (c =? SPACE) || ((9 <=? c) && (c <=? 13)).

Fixpoint strchr (s : list Z) (c : Z) : cursor :=
  match s with
  | [] => None
  | x :: r => if x =? c then Some s else strchr r c
  end.

(** [strsep] with one delimiter on a non-null cursor: the token and the new
    cursor. *)
Fixpoint strsep (s : list Z) (delim : Z) : list Z * cursor :=
  match s with
  | [] => ([], None)
  | x :: r => if x =? delim then ([], Some r)
              else let '(t, c) := strsep r delim in (x :: t, c)
  end.

(** The digit a character stands for; 99 for other characters. *)
Definition digit_val (c : Z) : Z :=
  if (48 <=? c) && (c <=? 57) then c - 48
  else if (97 <=? c) && (c <=? 122) then c - 87
  else if (65 <=? c) && (c <=? 90) then c - 55
  else 99.

Fixpoint parse_digits (base acc : Z) (s : list Z) : Z :=
  match s with
  | c :: r => if digit_val c <? base then parse_digits base (acc * base + digit_val c) r
              else acc
  | [] => acc
  end.

Fixpoint skip_spaces (s : list Z) : list Z :=
  match s with
  | c :: r => if isspace c then skip_spaces r else s
  | [] => []
  end.

Definition starts_digit (base : Z) (s : list Z) : bool :=
  match s with c :: _ => digit_val c <? base | [] => false end.

(** Sign and magnitude of the number a string starts with, [None] when it
    starts with no number. *)
Definition parse_number (base : Z) (s : list Z) : option (bool * Z) :=
  let s := skip_spaces s in
  let '(neg, s) :=
    match s with
    | c :: r => if c =? MINUS then (true, r) else if c =? PLUS then (false, r) else (false, s)
    | [] => (false, s)
    end in
  let s :=
    match s with
    | 48 :: x :: r =>
      if (base =? 16) && ((x =? 120) || (x =? 88)) && starts_digit 16 r then r else s
    | _ => s
    end in
  if starts_digit base s then Some (neg, parse_digits base 0 s) else None.

(** [strtol] and [strtoul] with [w]-bit long integers: the value, and whether
    anything was converted ([end != ret]). *)
Definition strtol (w base : Z) (s : list Z) : Z * bool :=
  match parse_number base s with
  | None => (0, false)
  | Some (neg, m) =>
    (Z.max (- 2 ^ (w - 1)) (Z.min (2 ^ (w - 1) - 1) (if neg then - m else m)), true)
  end.

Definition strtoul (w base : Z) (s : list Z) : Z * bool :=
  match parse_number base s with
  | None => (0, false)
  | Some (neg, m) =>
    (if 2 ^ w - 1 <? m then 2 ^ w - 1 else if neg then (- m) mod 2 ^ w else m, true)
  end.

(** ** The tokenizer *)

Definition at_tok_start (p_cur : cursor) : Z * cursor :=
  match p_cur with
  | None => (-1, None)
  | Some s =>
    match strchr s COLON with
    | None => (-1, None)
    | Some r => (0, Some (tail r))
    end
  end.

Definition skipWhiteSpace (p_cur : cursor) : cursor := skip_spaces <$> p_cur.

Fixpoint skip_to_comma (s : list Z) : list Z :=
  match s with
  | c :: r => if c =? COMMA then r else skip_to_comma r
  | [] => []
  end.

Definition skipNextComma (p_cur : cursor) : cursor := skip_to_comma <$> p_cur.

Definition nextTok (p_cur : cursor) : option (list Z) * cursor :=
  match skipWhiteSpace p_cur with
  | None => (None, None)
  | Some s =>
    match s with
    | c :: r =>
      if c =? QUOTE then
        let '(tok, cur) := strsep r QUOTE in (Some tok, skipNextComma cur)
      else let '(tok, cur) := strsep s COMMA in (Some tok, cur)
    | [] => let '(tok, cur) := strsep s COMMA in (Some tok, cur)
    end
  end.

Section Width.
(** The width of [long] of the target. *)
Context (long_bits : Z).

(** Result, value stored in [*p_out] if any, new cursor. *)
Definition at_tok_nextint_base (p_cur : cursor) (base : Z) (uns : bool)
    : Z * option Z * cursor :=
  match p_cur with
  | None => (-1, None, None)
  | Some _ =>
    let '(ret, cur) := nextTok p_cur in
    match ret with
    | None => (-1, None, cur)
    | Some tok =>
      let '(l, converted) :=
        if uns then strtoul long_bits base tok else strtol long_bits base tok in
      (if converted then 0 else -1, Some (s32 l), cur)
    end
  end.

Definition at_tok_nextint (p_cur : cursor) := at_tok_nextint_base p_cur 10 false.
Definition at_tok_nexthexint (p_cur : cursor) := at_tok_nextint_base p_cur 16 true.

Definition at_tok_nextbool (p_cur : cursor) : Z * option Z * cursor :=
  let '(ret, result, cur) := at_tok_nextint p_cur in
  if ret <? 0 then (-1, None, cur) else
  match result with
  | Some r => if (r =? 0) || (r =? 1) then (ret, Some r, cur) else (-1, None, cur)
  | None => (-1, None, cur)
  end.

Definition at_tok_nextstr (p_cur : cursor) : Z * option (list Z) * cursor :=
  match p_cur with
  | None => (-1, None, None)
  | Some _ => let '(tok, cur) := nextTok p_cur in (0, tok, cur)
  end.

Definition at_tok_hasmore (p_cur : cursor) : bool :=
  match p_cur with None | Some [] => false | Some _ => true end.

Definition at_tok_count (in_line : cursor) : Z :=
  match in_line with
  | None => 0
  | Some s => Z.of_nat (length (filter (λ c, c = COMMA) s))
  end.

(** A value stored through one of the pointer arguments of [at_tok_scanf]. *)
Inductive stored := SInt (z : Z) | SBool (z : Z) | SStr (s : list Z).

(** What a conversion leaves in its argument; [None]: not written. *)
Definition outputs := list (option stored).

(** The [switch] on the conversion character: result, value stored, cursor;
    [None] is the default case. *)
Definition convert (k : Z) (line : cursor) : option (Z * option stored * cursor) :=
  if k =? 100 then
    let '(err, v, cur) := at_tok_nextint line in Some (err, SInt <$> v, cur)
  else if k =? 120 then
    let '(err, v, cur) := at_tok_nexthexint line in Some (err, SInt <$> v, cur)
  else if k =? 98 then
    let '(err, v, cur) := at_tok_nextbool line in Some (err, SBool <$> v, cur)
  else if k =? 115 then
    let '(err, v, cur) := at_tok_nextstr line in Some (err, SStr <$> v, cur)
  else None.

(** The loop over the format.  [dests] are the pointer arguments still to be
    fetched ([false] for a null one, whose value goes to [dump]); [n] counts
    the conversions.  Reading an argument or a format character that is not
    there is [OutOfBounds]. *)
Fixpoint scanf_loop (fmt : list Z) (dests : list bool) (line : cursor) (n : Z)
    (out : outputs) : outcome (Z * outputs) :=
  match fmt with
  | [] => Done (n, out)
  | p :: fmt =>
    if (p =? COMMA) || (p =? SPACE) then scanf_loop fmt dests line n out
    else if negb (p =? PERCENT) then Done (n, out)
    else
      match dests with
      | [] => OutOfBounds
      | d :: dests =>
        if negb (at_tok_hasmore line) then Done (n, out) else
        let store (v : option stored) : outputs := out ++ [if d then v else None] in
        match line, fmt with
        | Some (45 :: 44 :: rest), [] => OutOfBounds
        | Some (45 :: 44 :: rest), k :: fmt =>
          scanf_loop fmt dests (Some rest) (n + 1)
            (store (if k =? 100 then Some (SInt (-1)) else None))
        | _, [] => Done (n, out)
        | _, k :: fmt =>
          match convert k line with
          | None => Done (n, out)
          | Some (err, v, cur) =>
            if err <? 0 then Done (n, store v)
            else scanf_loop fmt dests cur (n + 1) (store v)
          end
        end
      end
  end.

(** The line is copied into the static buffer of 1024 bytes, whose last byte
    stays NUL. *)
Definition at_tok_scanf (in_line : cursor) (fmt : list Z) (dests : list bool)
    : outcome (Z * outputs) :=
  match in_line with
  | None => Done (0, [])
  | Some s =>
    let '(err, line) := at_tok_start (Some (take 1023 s)) in
    if err <? 0 then Done (0, []) else scanf_loop fmt dests line 0 []
  end.
End Width.

(** ** Numbers *)

(** Most significant digit first; [fuel] digits are enough for [v < base^fuel]. *)
Fixpoint print_digits (fuel : nat) (base v : Z) : list Z :=
  match fuel with
  | O => []
  | S fuel =>
    let d := v mod base in
    let c := if d <? 10 then 48 + d else 87 + d in
    if v <? base then [c] else print_digits fuel base (v / base) ++ [c]
  end.

Definition print_int (z : Z) : list Z :=
  if z <? 0 then MINUS :: print_digits 32 10 (- z) else print_digits 32 10 z.

Definition is_digit (base c : Z) : Prop := 0 ≤ digit_val c < base.

Lemma print_digit_val base d :
  0 ≤ d < base → base ≤ 16 → digit_val (if d <? 10 then 48 + d else 87 + d) = d.
Proof.
  intros Hd Hb. unfold digit_val. destruct (Z.ltb_spec d 10).
  - rewrite (proj2 (Z.leb_le 48 _)), (proj2 (Z.leb_le _ 57)) by lia. simpl. lia.
  - rewrite (proj2 (Z.leb_gt _ 57)) by lia. rewrite andb_false_r.
    rewrite (proj2 (Z.leb_le 97 _)), (proj2 (Z.leb_le _ 122)) by lia. simpl. lia.
Qed.

Lemma parse_digits_app base acc s t :
  Forall (is_digit base) s →
  parse_digits base acc (s ++ t) = parse_digits base (parse_digits base acc s) t.
Proof.
  intros Hs. revert acc. induction Hs as [|c s [_ Hc] Hs IH]; intros acc; [done|].
  simpl. rewrite (proj2 (Z.ltb_lt _ _)) by done. apply IH.
Qed.

Lemma is_digit_char base c : base ≤ 16 → is_digit base c → 48 ≤ c ≤ 102.
Proof.
  intros Hb [_ Hc]. unfold digit_val in Hc.
  destruct (Z.leb_spec 48 c), (Z.leb_spec c 57), (Z.leb_spec 97 c), (Z.leb_spec c 122),
    (Z.leb_spec 65 c), (Z.leb_spec c 90); simpl in Hc; lia.
Qed.

Lemma print_digits_spec fuel base v :
  2 ≤ base ≤ 16 → 0 ≤ v < base ^ Z.of_nat fuel →
  Forall (is_digit base) (print_digits fuel base v)
  ∧ parse_digits base 0 (print_digits fuel base v) = v
  ∧ (0 < fuel → print_digits fuel base v ≠ [])%nat.
Proof.
  intros Hb. revert v. induction fuel as [|fuel IH]; intros v Hv.
  { simpl in *. split_and!; [constructor|lia|lia]. }
  pose proof (Z.mod_pos_bound v base) as Hm.
  assert (Hd : digit_val (if v mod base <? 10 then 48 + v mod base else 87 + v mod base)
               = v mod base) by (apply (print_digit_val base); lia).
  assert (Hc : Forall (is_digit base)
    [if v mod base <? 10 then 48 + v mod base else 87 + v mod base])
    by (repeat constructor; rewrite Hd; lia).
  cbn [print_digits]. cbv zeta. destruct (Z.ltb_spec v base) as [Hlt|Hge].
  - split_and!; [done| |done]. cbn [parse_digits]. rewrite Hd.
    rewrite (proj2 (Z.ltb_lt _ _)) by lia. rewrite Z.mod_small; lia.
  - destruct (IH (v / base)) as (Hf&Hp&_).
    { split; [apply Z.div_pos; lia|]. apply Z.div_lt_upper_bound; [lia|].
      rewrite <- Z.pow_succ_r by lia. rewrite <- Nat2Z.inj_succ. lia. }
    split_and!; [by apply Forall_app| |by destruct (print_digits _ _ _)].
    rewrite parse_digits_app, Hp by done. cbn [parse_digits]. rewrite Hd.
    rewrite (proj2 (Z.ltb_lt _ _)) by lia. pose proof (Z.div_mod v base). lia.
Qed.

Lemma skip_spaces_digit s c r :
  48 ≤ c → skip_spaces (replicate s SPACE ++ c :: r) = c :: r.
Proof.
  intros Hc. induction s as [|s IH]; [|done]. simpl. unfold isspace.
  rewrite (proj2 (Z.eqb_neq c SPACE)), (proj2 (Z.leb_gt c 13)) by (unfold SPACE; lia).
  by rewrite andb_false_r.
Qed.

(** A printed number is read back; [0x] prefixes are not printed. *)
Lemma parse_number_digits base ds :
  2 ≤ base ≤ 16 → Forall (is_digit base) ds → ds ≠ [] →
  parse_number base ds = Some (false, parse_digits base 0 ds)
  ∧ parse_number base (MINUS :: ds) = Some (true, parse_digits base 0 ds).
Proof.
  intros Hb Hds Hne. destruct ds as [|c r]; [done|]. clear Hne.
  pose proof (Forall_inv Hds) as Hc. pose proof (is_digit_char base c ltac:(lia) Hc) as Hr.
  assert (Hst : starts_digit base (c :: r) = true) by (apply Z.ltb_lt, Hc).
  assert (Hpre : match c :: r with
    | 48 :: x :: r0 =>
      if (base =? 16) && ((x =? 120) || (x =? 88)) && starts_digit 16 r0 then r0 else c :: r
    | _ => c :: r
    end = c :: r).
  { destruct r as [|x r0]; [by repeat case_match|].
    assert (is_digit base x) as Hx by (by apply Forall_inv_tail, Forall_inv in Hds).
    pose proof (is_digit_char base x ltac:(lia) Hx).
    rewrite (proj2 (Z.eqb_neq x 120)) by lia.
    destruct Hx as [_ Hx]. destruct (Z.eqb_spec x 88) as [->|].
    { change (digit_val 88) with 33 in Hx. lia. }
    rewrite andb_false_r. by repeat case_match. }
  unfold parse_number. split.
    assert (skip_spaces (c :: r) = c :: r) as -> by (apply (skip_spaces_digit 0); lia).
    rewrite (proj2 (Z.eqb_neq c MINUS)), (proj2 (Z.eqb_neq c PLUS))
      by (unfold MINUS, PLUS; lia).
    rewrite Hpre, Hst. done.
  - cbn [skip_spaces]. change (isspace MINUS) with false. cbv iota.
    rewrite Z.eqb_refl. rewrite Hpre, Hst. done.
Qed.

(** ** Lines and formats *)

(** A field of a response: a decimal number, a hexadecimal one, a flag, a
    quoted string, or a [-] for a number that is not available. *)
Inductive field :=
  | FInt (z : Z) | FHex (z : Z) | FBool (b : bool) | FStr (s : list Z) | FAbsent.

#[export] Instance field_eq_dec : EqDecision field.
Proof. solve_decision. Defined.

Definition field_ok (f : field) : Prop :=
  match f with
  | FInt z => - 2 ^ 31 ≤ z < 2 ^ 31
  | FHex z => 0 ≤ z < 2 ^ 32
  | FBool _ | FAbsent => True
  | FStr s => Forall (λ c, c ≠ QUOTE) s
  end.

Definition render (f : field) : list Z :=
  match f with
  | FInt z => print_int z
  | FHex z => print_digits 32 16 z
  | FBool b => [if b then 49 else 48]
  | FStr s => QUOTE :: s ++ [QUOTE]
  | FAbsent => [MINUS]
  end.

Definition conversion (f : field) : Z :=
  match f with
  | FInt _ | FAbsent => 100 | FHex _ => 120 | FBool _ => 98 | FStr _ => 115
  end.

Definition value (f : field) : stored :=
  match f with
  | FInt z => SInt z
  | FHex z => SInt (s32 z)
  | FBool b => SBool (if b then 1 else 0)
  | FStr s => SStr s
  | FAbsent => SInt (-1)
  end.

Definition sep (tl : option (list Z)) : list Z :=
  match tl with Some r => COMMA :: r | None => [] end.

Fixpoint join (l : list (list Z)) : list Z :=
  match l with
  | [] => []
  | x :: l => x ++ sep (match l with [] => None | _ => Some (join l) end)
  end.

Lemma strsep_spec t d tl :
  Forall (λ c, c ≠ d) t →
  strsep (t ++ match tl with Some r => d :: r | None => [] end) d = (t, tl).
Proof.
  induction 1 as [|c t Hc _ IH]; simpl.
  - destruct tl; simpl; [by rewrite Z.eqb_refl|done].
  - by rewrite (proj2 (Z.eqb_neq c d)), IH.
Qed.

Lemma skip_spaces_stop n s :
  match s with c :: _ => isspace c = false | [] => True end →
  skip_spaces (replicate n SPACE ++ s) = s.
Proof.
  intros Hs. induction n as [|n IH]; [|done]. destruct s as [|c s]; [done|].
  simpl. by rewrite Hs.
Qed.

Lemma nextTok_plain n c t tl :
  isspace c = false → c ≠ QUOTE → Forall (λ x, x ≠ COMMA) (c :: t) →
  nextTok (Some (replicate n SPACE ++ (c :: t) ++ sep tl)) = (Some (c :: t), tl).
Proof.
  intros Hs Hq Hc. unfold nextTok, skipWhiteSpace. cbn [fmap option_fmap option_map].
  rewrite skip_spaces_stop by done. cbn [app].
  rewrite (proj2 (Z.eqb_neq c QUOTE)) by done.
  pose proof (strsep_spec (c :: t) COMMA tl Hc) as E. cbn [app] in E.
  unfold sep. by rewrite E.
Qed.

Lemma nextTok_quoted n s tl :
  Forall (λ x, x ≠ QUOTE) s →
  nextTok (Some (replicate n SPACE ++ (QUOTE :: s ++ [QUOTE]) ++ sep tl))
  = (Some s, Some (default [] tl)).
Proof.
  intros Hs. unfold nextTok, skipWhiteSpace. cbn [fmap option_fmap option_map].
  rewrite skip_spaces_stop by done. cbn [app]. rewrite Z.eqb_refl, <- app_assoc.
  pose proof (strsep_spec s QUOTE (Some (sep tl)) Hs) as E. cbn [app]. rewrite E.
  by destruct tl.
Qed.

Lemma digits_plain base ds :
  base ≤ 16 → Forall (is_digit base) ds →
  Forall (λ c, 48 ≤ c ≤ 102) ds ∧ Forall (λ x, x ≠ COMMA) ds.
Proof.
  intros Hb Hds. assert (Hr : Forall (λ c, 48 ≤ c ≤ 102) ds)
    by (eapply Forall_impl; [exact Hds|intros; by apply (is_digit_char base)]).
  split; [done|]. eapply Forall_impl; [exact Hr|]. unfold COMMA. lia.
Qed.

Lemma isspace_char c : 45 ≤ c → isspace c = false.
Proof.
  intros. unfold isspace. rewrite (proj2 (Z.eqb_neq c SPACE)) by (unfold SPACE; lia).
  rewrite (proj2 (Z.leb_gt c 13)) by lia. by rewrite andb_false_r.
Qed.

(** The token of a printed number, and the number it is read as. *)
Lemma nextTok_number n tok tl :
  Forall (λ c, 45 ≤ c ≤ 102) tok → tok ≠ [] →
  nextTok (Some (replicate n SPACE ++ tok ++ sep tl)) = (Some tok, tl).
Proof.
  intros Ht Hne. destruct tok as [|c t]; [done|]. apply nextTok_plain.
  - apply Forall_inv in Ht. apply isspace_char. lia.
  - apply Forall_inv in Ht. unfold QUOTE. lia.
  - eapply Forall_impl; [exact Ht|]. unfold COMMA. simpl. lia.
Qed.

Lemma print_int_spec z :
  - 2 ^ 31 ≤ z < 2 ^ 31 →
  Forall (λ c, 45 ≤ c ≤ 102) (print_int z) ∧ print_int z ≠ []
  ∧ parse_number 10 (print_int z) = Some (z <? 0, Z.abs z).
Proof.
  intros Hz. unfold print_int.
  assert (Habs : 0 ≤ Z.abs z < 10 ^ Z.of_nat 32) by (simpl; lia).
  destruct (print_digits_spec 32 10 (Z.abs z)) as (Hd&Hp&Hne); [lia|done|].
  specialize (Hne ltac:(lia)).
  destruct (digits_plain 10 _ ltac:(lia) Hd) as [Hr _].
  destruct (parse_number_digits 10 _ ltac:(lia) Hd Hne) as [E1 E2].
  assert (Hr' : Forall (λ c, 45 ≤ c ≤ 102) (print_digits 32 10 (Z.abs z)))
    by (eapply Forall_impl; [exact Hr|simpl; lia]).
  destruct (Z.ltb_spec z 0).
  - replace (- z) with (Z.abs z) by lia. rewrite E2, Hp.
    split_and!; [|done|done]. constructor; [unfold MINUS; lia|done].
  - replace z with (Z.abs z) at 1 2 3 by lia. rewrite E1, Hp. done.
Qed.

Section Fields.
Context (long_bits : Z) (Hlong : 32 ≤ long_bits).

Lemma pow_long : 2 ^ 32 ≤ 2 ^ long_bits ∧ 2 ^ 31 ≤ 2 ^ (long_bits - 1).
Proof using Hlong. split; apply Z.pow_le_mono_r; lia. Qed.

Lemma nextint_field n z tl :
  - 2 ^ 31 ≤ z < 2 ^ 31 →
  at_tok_nextint long_bits (Some (replicate n SPACE ++ print_int z ++ sep tl))
  = (0, Some z, tl).
Proof using Hlong.
  intros Hz. destruct (print_int_spec z Hz) as (Hc&Hne&Hp).
  unfold at_tok_nextint, at_tok_nextint_base. rewrite nextTok_number by done.
  unfold strtol. rewrite Hp. pose proof pow_long as [_ ?].
  replace (if z <? 0 then - Z.abs z else Z.abs z) with z
    by (destruct (Z.ltb_spec z 0); lia).
  do 3 f_equal. replace (Z.max _ _) with z by lia. unfold s32.
  rewrite Z.mod_small; lia.
Qed.

Lemma convert_field n f tl :
  field_ok f → f ≠ FAbsent →
  ∃ cur, convert long_bits (conversion f)
           (Some (replicate n SPACE ++ render f ++ sep tl)) = Some (0, Some (value f), cur)
    ∧ (∀ r, tl = Some r → cur = Some r).
Proof using Hlong.
  intros Hf Ha. pose proof pow_long as [??].
  destruct f as [z|z|b|s|]; [| | | |done]; unfold convert;
    cbn [conversion render value field_ok Z.eqb Pos.eqb] in *.
  - rewrite nextint_field by done. by exists tl.
  - destruct (print_digits_spec 32 16 z) as (Hd&Hp&Hne); [lia|change (16 ^ Z.of_nat 32) with (2 ^ 128); lia|].
    specialize (Hne ltac:(lia)).
    destruct (digits_plain 16 _ ltac:(lia) Hd) as [Hr _].
    destruct (parse_number_digits 16 _ ltac:(lia) Hd Hne) as [E1 _].
    unfold at_tok_nexthexint, at_tok_nextint_base.
    rewrite nextTok_number;
      [|eapply Forall_impl; [exact Hr|simpl; lia]|done].
    unfold strtoul. rewrite E1, Hp.
    rewrite (proj2 (Z.ltb_ge _ z)) by lia. by exists tl.
  - pose proof (nextint_field n (if b then 1 else 0) tl) as E.
    unfold at_tok_nextbool.
    assert (print_int (if b then 1 else 0) = [if b then 49 else 48]) as E'
      by (by destruct b).
    rewrite <- E'. cbn [app] in *. rewrite E by (destruct b; lia).
    destruct b; simpl; by exists tl.
  - unfold at_tok_nextstr. rewrite (nextTok_quoted n s tl) by done. eexists. split; [reflexivity|].
    by intros r ->.
Qed.

Lemma scanf_step k fmt d dests line n out :
  line ≠ [] → (∀ r, line ≠ MINUS :: COMMA :: r) →
  scanf_loop long_bits (PERCENT :: k :: fmt) (d :: dests) (Some line) n out
  = match convert long_bits k (Some line) with
    | None => Done (n, out)
    | Some (err, v, cur) =>
      if err <? 0 then Done (n, out ++ [if d then v else None])
      else scanf_loop long_bits fmt dests cur (n + 1) (out ++ [if d then v else None])
    end.
Proof.
  intros Hne Hr. cbn [scanf_loop]. change (PERCENT =? COMMA) with false.
  change (PERCENT =? SPACE) with false. rewrite Z.eqb_refl.
  destruct line as [|c1 [|c2 r]]; [done| |]; cbn [at_tok_hasmore orb negb].
  - by repeat case_match.
  - specialize (Hr r). unfold MINUS, COMMA in Hr.
    repeat (case_match; try done); congruence.
Qed.

(** A field with the spaces before it. *)
Definition item : Type := nat * field.

Definition item_ok (it : item) : Prop :=
  field_ok it.2 ∧ (it.2 = FAbsent → it.1 = 0%nat).

Definition render_item (it : item) : list Z := replicate it.1 SPACE ++ render it.2.

Definition line_of (its : list item) : list Z := join (render_item <$> its).
Definition format_of (its : list item) : list Z :=
  join ((λ it : item, [PERCENT; conversion it.2]) <$> its).

Definition expected (dests : list bool) (its : list item) : outputs :=
  zip_with (λ (d : bool) (it : item), if d then Some (value it.2) else None) dests its.

Lemma item_head it s r :
  item_ok it → it.2 ≠ FAbsent →
  render_item it ++ s ≠ [] ∧ render_item it ++ s ≠ MINUS :: COMMA :: r.
Proof.
  intros [Hf _] Ha. unfold render_item. destruct it as [[|n] f]; [|done].
  cbn [fst snd replicate app] in *.
  assert (Hdig : ∀ base ds, base ≤ 16 → Forall (is_digit base) ds → ds ≠ [] →
    ds ++ s ≠ [] ∧ ds ++ s ≠ MINUS :: COMMA :: r
    ∧ (MINUS :: ds) ++ s ≠ MINUS :: COMMA :: r).
  { intros base [|c ds] Hb Hds Hne; [done|]. apply Forall_inv in Hds.
    apply is_digit_char in Hds; [|done]. unfold MINUS, COMMA. cbn [app].
    split_and!; [done|..]; intros E; injection E; lia. }
  destruct f as [z|z|b|t|]; cbn [render field_ok] in *; [..|done].
  - destruct (print_digits_spec 32 10 (Z.abs z)) as (Hd&_&Hne);
      [lia|change (10 ^ Z.of_nat 32) with (10 ^ 32); lia|].
    destruct (Hdig 10 _ ltac:(lia) Hd (Hne ltac:(lia))) as (?&?&?).
    unfold print_int. destruct (Z.ltb_spec z 0).
    + by replace (- z) with (Z.abs z) by lia.
    + replace z with (Z.abs z) by lia. by split.
  - destruct (print_digits_spec 32 16 z) as (Hd&_&Hne);
      [lia|change (16 ^ Z.of_nat 32) with (2 ^ 128); lia|].
    by destruct (Hdig 16 _ ltac:(lia) Hd (Hne ltac:(lia))) as (?&?&?).
  - by destruct b.
  - done.
Qed.

Lemma scanf_loop_fields its dests n out :
  Forall item_ok its → (∀ k, last its ≠ Some (k, FAbsent)) → its ≠ [] →
  length its = length dests →
  scanf_loop long_bits (format_of its) dests (Some (line_of its)) n out
  = Done (n + Z.of_nat (length its), out ++ expected dests its).
Proof using Hlong.
  revert dests n out. induction its as [|it its IH]; intros dests n out Hok Hlast Hne Hd;
    [done|]. clear Hne.
  destruct dests as [|d dests]; [done|]. injection Hd as Hd.
  apply Forall_cons in Hok as [Hit Hok].
  assert (Hfmt : format_of (it :: its)
    = PERCENT :: conversion it.2 :: sep (match its with [] => None | _ => Some (format_of its) end))
    by (by destruct its).
  assert (Hline : line_of (it :: its)
    = render_item it ++ sep (match its with [] => None | _ => Some (line_of its) end))
    by (by destruct its).
  assert (Hrest : ∀ cur v, v = (if d then Some (value it.2) else None) →
    (∀ r, match its with [] => None | _ => Some (line_of its) end = Some r → cur = Some r) →
    scanf_loop long_bits (sep (match its with [] => None | _ => Some (format_of its) end))
      dests cur (n + 1) (out ++ [v])
    = Done (n + Z.of_nat (length (it :: its)), out ++ expected (d :: dests) (it :: its))).
  { intros cur v -> Hcur. destruct its as [|it' its'].
    - destruct dests; [|done]. done.
    - rewrite (Hcur _ eq_refl). cbn [sep scanf_loop]. change (COMMA =? COMMA) with true.
      cbn [orb]. rewrite IH; [|done| |done|done].
      + rewrite <- app_assoc. do 2 f_equal. rewrite !length_cons. lia.
      + intros k Hk. by apply (Hlast k). }
  rewrite Hfmt, Hline. destruct (decide (it.2 = FAbsent)) as [Ha|Ha].
  - destruct Hit as [_ Hn]. specialize (Hn Ha). destruct it as [n' f]. cbn [fst snd] in *.
    subst f n'. destruct its as [|it' its']; [by destruct (Hlast 0%nat)|].
    rewrite <- (Hrest (Some (line_of (it' :: its')))
      (if d then Some (SInt (-1)) else None)) by (done || naive_solver).
    done.
  - destruct (item_head it
      (sep (match its with [] => None | _ => Some (line_of its) end)) [] Hit Ha) as [Hne _].
    rewrite scanf_step; [|done|by intros r; apply item_head].
    destruct (convert_field it.1 it.2
      (match its with [] => None | _ => Some (line_of its) end)) as (cur&Hconv&Hcur);
      [apply Hit|done|].
    unfold render_item. rewrite <- app_assoc, Hconv. cbn [Z.ltb Z.compare].
    by apply Hrest.
Qed.
End Fields.

Lemma strchr_after pre s :
  Forall (λ c, c ≠ COLON) pre → strchr (pre ++ COLON :: s) COLON = Some (COLON :: s).
Proof.
  induction 1 as [|c pre Hc _ IH]; simpl; [done|].
  by rewrite (proj2 (Z.eqb_neq c COLON)).
Qed.

(** C34: Scanning a response line - a prefix, a colon and fields separated by commas,
    at most 1023 characters - against the format of its fields converts every
    field: the result is the number of fields, and each non-null argument
    receives the value of its field.  Any number of spaces may stand before a
    number or a string.  A [-] stands for a missing number: directly behind the
    comma or the colon, and anywhere but at the end of the line. *)
Theorem scanf_roundtrip long_bits pre its dests :
  32 ≤ long_bits →
  Forall (λ c, c ≠ COLON) pre →
  Forall item_ok its → (∀ k, last its ≠ Some (k, FAbsent)) → its ≠ [] →
  length its = length dests →
  Z.of_nat (length (pre ++ COLON :: line_of its)) ≤ 1023 →
  at_tok_scanf long_bits (Some (pre ++ COLON :: line_of its)) (format_of its) dests
  = Done (Z.of_nat (length its), expected dests its).
Proof.
  intros Hw Hpre Hok Hlast Hne Hd Hlen. unfold at_tok_scanf, at_tok_start.
  rewrite take_ge by lia. rewrite strchr_after by done. cbn [tail Z.ltb Z.compare].
  by apply (scanf_loop_fields long_bits Hw).
Qed.

(** ** Safety *)

(** The number of arguments a format fetches, [None] when its last character is
    a [%]; the scan stops at any other character. *)
Fixpoint conversions (fmt : list Z) : option nat :=
  match fmt with
  | [] => Some O
  | p :: fmt =>
    if (p =? COMMA) || (p =? SPACE) then conversions fmt
    else if negb (p =? PERCENT) then Some O
    else match fmt with [] => None | _ :: fmt => S <$> conversions fmt end
  end.

Lemma scanf_loop_safe long_bits fmt dests line n out c :
  conversions fmt = Some c → (c ≤ length dests)%nat → n = Z.of_nat (length out) →
  ∃ n' out', scanf_loop long_bits fmt dests line n out = Done (n', out')
    ∧ n ≤ n' ≤ n + Z.of_nat c ∧ n' ≤ Z.of_nat (length out') ≤ n' + 1.
Proof.
  revert dests line n out c. induction fmt as [fmt IH] using (induction_ltof1 _ (@length Z)).
  unfold ltof in IH. intros dests line n out c Hc Hd Hn.
  destruct fmt as [|p fmt].
  { injection Hc as <-. exists n, out. split; [done|]. lia. }
  cbn [conversions scanf_loop] in *.
  destruct ((p =? COMMA) || (p =? SPACE)) eqn:Esep.
  { apply IH; [simpl; lia|done..]. }
  destruct (negb (p =? PERCENT)).
  { injection Hc as <-. exists n, out. split; [done|]. lia. }
  destruct fmt as [|k fmt]; [done|].
  destruct (conversions fmt) as [c'|] eqn:Ec; [|done]. injection Hc as <-.
  destruct dests as [|d dests]; [simpl in Hd; lia|]. simpl in Hd.
  destruct (negb (at_tok_hasmore line)); [exists n, out; split; [done|lia]|].
  assert (Hgo : ∀ cur v, ∃ n' out',
    scanf_loop long_bits fmt dests cur (n + 1) (out ++ [v]) = Done (n', out')
    ∧ n ≤ n' ≤ n + Z.of_nat (S c') ∧ n' ≤ Z.of_nat (length out') ≤ n' + 1).
  { intros cur v. destruct (IH fmt ltac:(simpl; lia) dests cur (n + 1) (out ++ [v]) c')
      as (n'&out'&E&?&?); [done|lia|rewrite length_app; simpl; lia|].
    exists n', out'. split; [done|lia]. }
  assert (Hconv : ∃ n' out',
    match convert long_bits k line with
    | None => Done (n, out)
    | Some (err, v, cur) =>
      if err <? 0 then Done (n, out ++ [if d then v else None])
      else scanf_loop long_bits fmt dests cur (n + 1) (out ++ [if d then v else None])
    end = Done (n', out')
    ∧ n ≤ n' ≤ n + Z.of_nat (S c') ∧ n' ≤ Z.of_nat (length out') ≤ n' + 1).
  { destruct (convert long_bits k line) as [[[err v] cur]|];
      [|exists n, out; split; [done|lia]].
    destruct (err <? 0); [|by apply Hgo].
    eexists n, _. split; [reflexivity|]. rewrite length_app. simpl. lia. }
  repeat first [exact Hconv | apply Hgo | case_match].
Qed.

(** A scan whose format ends with a complete conversion, and that is given an
    argument for each conversion, reads nothing outside the line, the format
    and the arguments, ends, and returns at most the number of conversions;
    one argument at most is written beyond those counted. *)
Theorem scanf_safe long_bits in_line fmt dests c :
  conversions fmt = Some c → (c ≤ length dests)%nat →
  ∃ n out, at_tok_scanf long_bits in_line fmt dests = Done (n, out)
    ∧ 0 ≤ n ≤ Z.of_nat c ∧ n ≤ Z.of_nat (length out) ≤ n + 1.
Proof.
  intros Hc Hd. unfold at_tok_scanf, at_tok_start.
  destruct in_line as [s|]; [|exists 0, []; split; [done|simpl; lia]].
  destruct (strchr (take 1023 s) COLON) as [r|];
    [|exists 0, []; split; [done|simpl; lia]].
  destruct (scanf_loop_safe long_bits fmt dests (Some (tail r)) 0 [] c)
    as (n&out&E&?&?); [done|done|done|].
  exists n, out. cbn [Z.ltb Z.compare]. split; [exact E|]. lia.
Qed.

(** A format ending in [%] is read past its end when the line shows [-,]. *)
Lemma scanf_dangling_percent long_bits rest d :
  at_tok_scanf long_bits (Some (str "+X:-,"%string ++ rest)) (str "%"%string) [d] = OutOfBounds.
Proof. reflexivity. Qed.

(** ** Numbers out of range *)

(** A number too large for an [int] is not refused: it is cut to 32 bits where
    [long] has 64 (the result may be negative), and becomes the largest [int]
    where [long] has 32. *)
Theorem nextint_overflow z tl :
  2 ^ 31 ≤ z < 2 ^ 63 →
  at_tok_nextint 64 (Some (print_digits 32 10 z ++ sep tl)) = (0, Some (s32 z), tl)
  ∧ at_tok_nextint 32 (Some (print_digits 32 10 z ++ sep tl)) = (0, Some (2 ^ 31 - 1), tl).
Proof.
  intros Hz.
  destruct (print_digits_spec 32 10 z) as (Hd&Hp&Hne);
    [lia|change (10 ^ Z.of_nat 32) with (10 ^ 32); lia|].
  specialize (Hne ltac:(lia)).
  destruct (digits_plain 10 _ ltac:(lia) Hd) as [Hr _].
  destruct (parse_number_digits 10 _ ltac:(lia) Hd Hne) as [E1 _].
  assert (Htok : nextTok (Some (print_digits 32 10 z ++ sep tl))
                 = (Some (print_digits 32 10 z), tl)).
  { apply (nextTok_number 0); [|done]. eapply Forall_impl; [exact Hr|simpl; lia]. }
  unfold at_tok_nextint, at_tok_nextint_base. rewrite Htok. unfold strtol. rewrite E1, Hp.
  split.
  - by replace (Z.max _ _) with z by lia.
  - by replace (Z.max _ _) with (2 ^ 31 - 1) by lia.
Qed.

(** ** Examples *)

Definition example_items : list item :=
  [(1%nat, FInt (-7)); (0%nat, FStr (str "FDD LTE"%string)); (0%nat, FAbsent);
   (0%nat, FHex 0x80000001); (2%nat, FBool true)].

Example example_line :
  str "+QNWINFO"%string ++ COLON :: line_of example_items
  = str "+QNWINFO: -7,"%string ++ [QUOTE] ++ str "FDD LTE"%string ++ [QUOTE]
    ++ str ",-,80000001,  1"%string.
Proof. reflexivity. Qed.

Lemma scanf_roundtrip_witness :
  at_tok_scanf 64 (Some (str "+QNWINFO"%string ++ COLON :: line_of example_items))
    (format_of example_items) [true; true; false; true; true]
  = Done (5, [Some (SInt (-7)); Some (SStr (str "FDD LTE"%string)); None;
              Some (SInt (-2147483647)); Some (SBool 1)]).
Proof.
  apply (scanf_roundtrip 64 (str "+QNWINFO"%string) example_items
    [true; true; false; true; true]); try done.
  - repeat constructor; by vm_compute.
  - repeat constructor; by vm_compute.
Defined.

Lemma scanf_safe_witness :
  ∃ n out, at_tok_scanf 64 (Some (str "+CPIN: READY"%string)) (str "%s,%d"%string) [true; false]
    = Done (n, out) ∧ 0 ≤ n ≤ 2 ∧ n ≤ Z.of_nat (length out) ≤ n + 1.
Proof.
  apply (scanf_safe 64 (Some (str "+CPIN: READY"%string)) (str "%s,%d"%string)
    [true; false] 2); [reflexivity|reflexivity].
Defined.

Lemma nextint_overflow_witness :
  at_tok_nextint 64 (Some (print_digits 32 10 4294967295 ++ sep (Some [49])))
  = (0, Some (-1), Some [49]).
Proof. apply (nextint_overflow 4294967295 (Some [49])). lia. Defined.
