(* ===== verification/Sblock.v ===== *)
(** * Block channels over shared memory

    Model of [src/drivers/quectel-sprd-pcie/src/sipc/sblock.c] and [sblock.h]:
    blocks of shared memory are taken from a pool ([sblock_get]), queued for
    the peer on a ring ([sblock_send]), taken by the peer ([sblock_receive])
    and returned to the pool ([sblock_release]); both the pool and the ring are
    arrays of descriptors with free-running 32-bit pointers in the shared
    memory.  The code between lock and unlock is one step.  Division by zero
    and an index outside an array are [OutOfBounds]. *)

From S2P Require Import Prelude Ring Kernel.

#[local] Open Scope Z_scope.
#[local] Open Scope c_scope.

(** ** Data *)

(** [struct sblock_blks] (a descriptor in shared memory: stored address and
    length) and [struct sblock] (the same block for a user: virtual address). *)
Record blk := Blk { addr : Z; length_ : Z }.

#[export] Instance blk_eq_dec : EqDecision blk.
Proof. solve_decision. Defined.

(** One direction of [struct sblock_ring_header_op] with the array it governs:
    read and write pointer, start address, number and size of the blocks. *)
Record half := Half {
  rd_p : Z; wt_p : Z;
  h_addr : Z; h_count : Z; h_size : Z;
  h_blks : list blk;
}.

Definition SBLOCK_STATE_IDLE : Z := 0.
Definition SBLOCK_STATE_READY : Z := 1.
Definition SBLOCK_BLK_STATE_DONE : Z := 0.
Definition SBLOCK_BLK_STATE_PENDING : Z := 1.
Definition SMSG_EVENT_SBLOCK_SEND : Z := 1.
Definition SMSG_EVENT_SBLOCK_RELEASE : Z := 2.

Definition POLLIN : Z := 0x0001.
Definition POLLOUT : Z := 0x0004.
Definition POLLRDNORM : Z := 0x0040.
Definition POLLWRNORM : Z := 0x0100.

(** [struct sblock_ring]: [ringhd_op] and [poolhd_op] by direction with
    [r_txblks], [r_rxblks], [p_txblks] and [p_rxblks]. *)
Record sblock_ring := SblockRing {
  r_tx : half; r_rx : half; p_tx : half; p_rx : half;
  txblk_virt : Z; rxblk_virt : Z;
  poll_mask : Z;
  txrecord : list Z; rxrecord : list Z;
  yell : Z;
}.

(** [struct sblock_mgr] *)
Record sblock_mgr := SblockMgr {
  state : Z;
  smem_virt : Z; stored_smem_addr : Z;
  txblksz : Z; rxblksz : Z;
  ring : sblock_ring;
}.

(** What an operation runs on: the channel's entry of [sblocks], the events
    sent to the peer (latest first), and how often the memory resources of the
    two directions are held. *)
Record world := World {
  sblocks : option sblock_mgr;
  events : list Z;
  tx_pms : Z; rx_pms : Z;
}.

Definition sblock_get_index (x y : Z) : outcome Z :=
  if y =? 0 then OutOfBounds else Done (x / y).

Definition is_power_of_2 (y : Z) : bool := negb (y =? 0) && ((y &' u32 (y - 1)) =? 0).

Definition sblock_get_ringpos (x y : Z) : outcome Z :=
  if is_power_of_2 y then Done (x &' u32 (y - 1))
  else if y =? 0 then OutOfBounds else Done (x mod y).

(** ** The environment *)

(** [valid]: the channel has an index; [local]: the memory is [SMEM_LOCAL];
    [request] gives the results of the successive resource requests of the
    operation; [sent] that of [smsg_send]; [history] what the operation sees
    while it waits. *)
Record env := Env {
  valid : bool;
  local : bool;
  request1 : Z; request2 : Z;
  sent : Z;
  history : list (wake world);
}.

Abbreviation sb := (stm world).

Definition upd_mgr (f : sblock_mgr → sblock_mgr) : sb () := λ w,
  Done ((), World (f <$> sblocks w) (events w) (tx_pms w) (rx_pms w)).

(** [sipc_smem_request_resource] and [sipc_smem_release_resource]: local memory
    needs no resource. *)
Definition request_tx (e : env) (r : Z) : sb Z := λ w,
  if local e then Done (0, w)
  else Done (r, if r <? 0 then w else
                World (sblocks w) (events w) (tx_pms w + 1) (rx_pms w)).
Definition request_rx (e : env) (r : Z) : sb Z := λ w,
  if local e then Done (0, w)
  else Done (r, if r <? 0 then w else
                World (sblocks w) (events w) (tx_pms w) (rx_pms w + 1)).
Definition release_tx (e : env) : sb () := λ w,
  if local e then Done ((), w)
  else Done ((), World (sblocks w) (events w) (tx_pms w - 1) (rx_pms w)).
Definition release_rx (e : env) : sb () := λ w,
  if local e then Done ((), w)
  else Done ((), World (sblocks w) (events w) (tx_pms w) (rx_pms w - 1)).

Definition smsg_send (e : env) (event : Z) : sb Z := λ w,
  Done (sent e, World (sblocks w) (event :: events w) (tx_pms w) (rx_pms w)).

(** ** Field updates *)

Definition set_state (v : Z) (s : sblock_mgr) : sblock_mgr :=
  SblockMgr v (smem_virt s) (stored_smem_addr s) (txblksz s) (rxblksz s) (ring s).
Definition on_ring (f : sblock_ring → sblock_ring) (s : sblock_mgr) : sblock_mgr :=
  SblockMgr (state s) (smem_virt s) (stored_smem_addr s) (txblksz s) (rxblksz s)
    (f (ring s)).

Definition with_halves (rt rr pt pr : half) (r : sblock_ring) : sblock_ring :=
  SblockRing rt rr pt pr (txblk_virt r) (rxblk_virt r) (poll_mask r)
    (txrecord r) (rxrecord r) (yell r).
Definition on_r_tx (f : half → half) (r : sblock_ring) : sblock_ring :=
  with_halves (f (r_tx r)) (r_rx r) (p_tx r) (p_rx r) r.
Definition on_r_rx (f : half → half) (r : sblock_ring) : sblock_ring :=
  with_halves (r_tx r) (f (r_rx r)) (p_tx r) (p_rx r) r.
Definition on_p_tx (f : half → half) (r : sblock_ring) : sblock_ring :=
  with_halves (r_tx r) (r_rx r) (f (p_tx r)) (p_rx r) r.
Definition on_p_rx (f : half → half) (r : sblock_ring) : sblock_ring :=
  with_halves (r_tx r) (r_rx r) (p_tx r) (f (p_rx r)) r.
Definition on_poll_mask (f : Z → Z) (r : sblock_ring) : sblock_ring :=
  SblockRing (r_tx r) (r_rx r) (p_tx r) (p_rx r) (txblk_virt r) (rxblk_virt r)
    (f (poll_mask r)) (txrecord r) (rxrecord r) (yell r).
Definition on_txrecord (f : list Z → list Z) (r : sblock_ring) : sblock_ring :=
  SblockRing (r_tx r) (r_rx r) (p_tx r) (p_rx r) (txblk_virt r) (rxblk_virt r)
    (poll_mask r) (f (txrecord r)) (rxrecord r) (yell r).
Definition on_rxrecord (f : list Z → list Z) (r : sblock_ring) : sblock_ring :=
  SblockRing (r_tx r) (r_rx r) (p_tx r) (p_rx r) (txblk_virt r) (rxblk_virt r)
    (poll_mask r) (txrecord r) (f (rxrecord r)) (yell r).
Definition set_yell (v : Z) (r : sblock_ring) : sblock_ring :=
  SblockRing (r_tx r) (r_rx r) (p_tx r) (p_rx r) (txblk_virt r) (rxblk_virt r)
    (poll_mask r) (txrecord r) (rxrecord r) v.

Definition set_rd (v : Z) (h : half) : half :=
  Half v (wt_p h) (h_addr h) (h_count h) (h_size h) (h_blks h).
Definition set_wt (v : Z) (h : half) : half :=
  Half (rd_p h) v (h_addr h) (h_count h) (h_size h) (h_blks h).
Definition set_blks (l : list blk) (h : half) : half :=
  Half (rd_p h) (wt_p h) (h_addr h) (h_count h) (h_size h) l.

Definition record_tx (index v : Z) : sb () := λ w,
  match sblocks w with
  | None => OutOfBounds
  | Some s =>
    (check_index (txrecord (ring s)) index;;
     upd_mgr (on_ring (on_txrecord <[Z.to_nat index := v]>))) w
  end.
Definition record_rx (index v : Z) : sb () := λ w,
  match sblocks w with
  | None => OutOfBounds
  | Some s =>
    (check_index (rxrecord (ring s)) index;;
     upd_mgr (on_ring (on_rxrecord <[Z.to_nat index := v]>))) w
  end.

Definition store (sel : (half → half) → sblock_ring → sblock_ring) (h : half)
    (pos : Z) (b : blk) : sb () :=
  check_index (h_blks h) pos;;
  upd_mgr (on_ring (sel (set_blks (<[Z.to_nat pos := b]> (h_blks h))))).

Definition load (h : half) (pos : Z) : sb blk :=
  match h_blks h !! Z.to_nat pos with
  | Some b => if 0 <=? pos then mret b else λ _, OutOfBounds
  | None => λ _, OutOfBounds
  end.

(** ** Operations *)

Definition TX_MASK : Z := POLLOUT |' POLLWRNORM.
Definition RX_MASK : Z := POLLIN |' POLLRDNORM.

Definition sblock_has_data (e : env) (tx : bool) (s : sblock_mgr) : bool :=
  if local e then
    if tx then negb (rd_p (p_tx (ring s)) =? wt_p (p_tx (ring s)))
    else negb (wt_p (r_rx (ring s)) =? rd_p (r_rx (ring s)))
  else
    if tx then negb ((poll_mask (ring s) &' TX_MASK) =? 0)
    else negb ((poll_mask (ring s) &' RX_MASK) =? 0).

(** Put a block back to the pool, in front. *)
Definition sblock_put (e : env) (b : blk) : sb () :=
  if negb (valid e) then mret () else
  w ← get_state;
  match sblocks w with
  | None => mret ()
  | Some s =>
    let h := p_tx (ring s) in
    txpos ← lift (sblock_get_ringpos (u32 (rd_p h - 1)) (h_count h));
    store on_p_tx h txpos
      (Blk (u32 (addr b - smem_virt s + stored_smem_addr s)) (h_size h));;
    upd_mgr (on_ring (on_p_tx (set_rd (u32 (rd_p h - 1)))));;
    index ← lift (sblock_get_index (u32 (addr b - txblk_virt (ring s))) (txblksz s));
    record_tx index SBLOCK_BLK_STATE_DONE;;
    upd_mgr (on_ring (on_poll_mask (λ m, m |' TX_MASK)));;
    release_tx e
  end.

(** The state of the channel when it is looked at again. *)
Definition is_idle (w : world) : bool :=
  match sblocks w with Some s => state s =? SBLOCK_STATE_IDLE | None => false end.
Definition has_data_now (e : env) (tx : bool) (w : world) : bool :=
  match sblocks w with Some s => sblock_has_data e tx s | None => false end.

Definition set_mask (mask : Z) (no_data : bool) (m : Z) : Z :=
  if no_data then m &' u32 (Z.lnot mask) else m |' mask.

(** Get a free block. *)
Definition sblock_get (e : env) (timeout : Z) : sb (Z * option blk) :=
  if negb (valid e) then mret (- EINVAL, None) else
  w ← get_state;
  match sblocks w with
  | None => mret (- ENODEV, None)
  | Some s =>
    if negb (state s =? SBLOCK_STATE_READY) then mret (- EIO, None) else
    rval ← request_tx e (request1 e);
    if rval <? 0 then mret (rval, None) else
    let no_data := rd_p (p_tx (ring s)) =? wt_p (p_tx (ring s)) in
    upd_mgr (on_ring (on_poll_mask (set_mask TX_MASK no_data)));;
    release_tx e;;
    rval ←
      (if negb no_data then mret rval
       else if timeout =? 0 then mret (- ENODATA)
       else if timeout <? 0 then
         rval ← wait_event_interruptible
                  (λ w, has_data_now e true w || is_idle w) (history e);
         w ← get_state;
         mret (if is_idle w then - EIO else rval)
       else
         (* the second disjunct of the source compares the pointer [sblock]
            with [SBLOCK_STATE_IDLE] *)
         rval ← wait_event_interruptible_timeout
                  (λ w, has_data_now e true w || false) (history e) (Z.to_nat timeout);
         let rval := if rval =? 0 then - ETIME else rval in
         w ← get_state;
         mret (if is_idle w then - EIO else rval));
    if rval <? 0 then mret (rval, None) else
    rval ← request_tx e (request2 e);
    if rval <? 0 then mret (rval, None) else
    w ← get_state;
    match sblocks w with
    | None => λ _, OutOfBounds
    | Some s =>
      let h := p_tx (ring s) in
      '(rval, out) ←
        (if negb (rd_p h =? wt_p h) && (state s =? SBLOCK_STATE_READY) then
           txpos ← lift (sblock_get_ringpos (rd_p h) (h_count h));
           b ← load h txpos;
           let a := smem_virt s + u32 (addr b - stored_smem_addr s) in
           upd_mgr (on_ring (on_p_tx (set_rd (u32 (rd_p h + 1)))));;
           index ← lift (sblock_get_index (u32 (a - txblk_virt (ring s))) (txblksz s));
           record_tx index SBLOCK_BLK_STATE_PENDING;;
           mret (rval, Some (Blk a (h_size h)))
         else
           release_tx e;;
           mret (if state s =? SBLOCK_STATE_READY then - EAGAIN else - EIO, None));
      upd_mgr (λ s, on_ring (on_poll_mask
        (set_mask TX_MASK (wt_p (p_tx (ring s)) =? rd_p (p_tx (ring s))))) s);;
      mret (rval, out)
    end
  end.

(** Queue a block for the peer. *)
Definition sblock_send_ex (e : env) (b : blk) (yell_ : bool) : sb Z :=
  if negb (valid e) then mret (- EINVAL) else
  w ← get_state;
  match sblocks w with
  | None => mret (- ENODEV)
  | Some s =>
    if negb (state s =? SBLOCK_STATE_READY) then mret (- EIO) else
    let h := r_tx (ring s) in
    txpos ← lift (sblock_get_ringpos (wt_p h) (h_count h));
    store on_r_tx h txpos
      (Blk (u32 (addr b - smem_virt s + stored_smem_addr s)) (length_ b));;
    upd_mgr (on_ring (on_r_tx (set_wt (u32 (wt_p h + 1)))));;
    let send_event := (state s =? SBLOCK_STATE_READY) && yell_ in
    (if (state s =? SBLOCK_STATE_READY) && negb yell_ && (yell (ring s) =? 0)
        && (s32 (u32 (wt_p h + 1) - rd_p h) =? 1)
     then upd_mgr (on_ring (set_yell 1)) else mret ());;
    index ← lift (sblock_get_index (u32 (addr b - txblk_virt (ring s))) (txblksz s));
    record_tx index SBLOCK_BLK_STATE_DONE;;
    release_tx e;;
    if send_event then smsg_send e SMSG_EVENT_SBLOCK_SEND else mret 0
  end.

Definition sblock_send (e : env) (b : blk) : sb Z := sblock_send_ex e b true.
Definition sblock_send_prepare (e : env) (b : blk) : sb Z := sblock_send_ex e b false.

Definition sblock_send_finish (e : env) : sb Z :=
  if negb (valid e) then mret (- EINVAL) else
  w ← get_state;
  match sblocks w with
  | None => mret (- ENODEV)
  | Some s =>
    if negb (state s =? SBLOCK_STATE_READY) then mret (- EIO) else
    rval ← request_tx e (request1 e);
    if negb (rval =? 0) then mret rval else
    rval ← (if negb (wt_p (r_tx (ring s)) =? rd_p (r_tx (ring s)))
            then smsg_send e SMSG_EVENT_SBLOCK_SEND else mret rval);
    release_tx e;;
    mret rval
  end.

(** Take a block the peer has sent. *)
Definition sblock_receive (e : env) (timeout : Z) : sb (Z * option blk) :=
  if negb (valid e) then mret (- EINVAL, None) else
  w ← get_state;
  match sblocks w with
  | None => mret (- ENODEV, None)
  | Some s =>
    if negb (state s =? SBLOCK_STATE_READY) then mret (- EIO, None) else
    rval ← request_rx e (request1 e);
    if rval <? 0 then mret (rval, None) else
    let no_data := wt_p (r_rx (ring s)) =? rd_p (r_rx (ring s)) in
    upd_mgr (on_ring (on_poll_mask (set_mask RX_MASK no_data)));;
    release_rx e;;
    rval ←
      (if negb no_data then mret rval
       else if timeout =? 0 then mret (- ENODATA)
       else if timeout <? 0 then
         rval ← wait_event_interruptible (has_data_now e false) (history e);
         w ← get_state;
         mret (if is_idle w then - EIO else rval)
       else
         rval ← wait_event_interruptible_timeout
                  (has_data_now e false) (history e) (Z.to_nat timeout);
         let rval := if rval =? 0 then - ETIME else rval in
         w ← get_state;
         mret (if is_idle w then - EIO else rval));
    if rval <? 0 then mret (rval, None) else
    rval ← request_rx e (request2 e);
    if rval <? 0 then mret (rval, None) else
    w ← get_state;
    match sblocks w with
    | None => λ _, OutOfBounds
    | Some s =>
      let h := r_rx (ring s) in
      '(rval, out) ←
        (if negb (wt_p h =? rd_p h) && (state s =? SBLOCK_STATE_READY) then
           rxpos ← lift (sblock_get_ringpos (rd_p h) (h_count h));
           b ← load h rxpos;
           let a := u32 (addr b - stored_smem_addr s) + smem_virt s in
           upd_mgr (on_ring (on_r_rx (set_rd (u32 (rd_p h + 1)))));;
           index ← lift (sblock_get_index (u32 (a - rxblk_virt (ring s))) (rxblksz s));
           record_rx index SBLOCK_BLK_STATE_PENDING;;
           mret (rval, Some (Blk a (length_ b)))
         else
           release_rx e;;
           mret (if state s =? SBLOCK_STATE_READY then - EAGAIN else - EIO, None));
      upd_mgr (λ s, on_ring (on_poll_mask
        (set_mask RX_MASK (wt_p (r_rx (ring s)) =? rd_p (r_rx (ring s))))) s);;
      mret (rval, out)
    end
  end.

Definition sblock_get_arrived_count (e : env) : sb Z :=
  if negb (valid e) then mret (- EINVAL) else
  w ← get_state;
  match sblocks w with
  | None => mret (- ENODEV)
  | Some s =>
    if negb (state s =? SBLOCK_STATE_READY) then mret (- ENODEV) else
    rval ← request_rx e (request1 e);
    if rval <? 0 then mret rval else
    release_rx e;;
    mret (s32 (wt_p (r_rx (ring s)) - rd_p (r_rx (ring s))))
  end.

Definition sblock_get_free_count (e : env) : sb Z :=
  if negb (valid e) then mret (- EINVAL) else
  w ← get_state;
  match sblocks w with
  | None => mret (- ENODEV)
  | Some s =>
    if negb (state s =? SBLOCK_STATE_READY) then mret (- ENODEV) else
    rval ← request_tx e (request1 e);
    if rval <? 0 then mret rval else
    release_tx e;;
    mret (s32 (wt_p (p_tx (ring s)) - rd_p (p_tx (ring s))))
  end.

(** Return a received block to the peer's pool. *)
Definition sblock_release (e : env) (b : blk) : sb Z :=
  if negb (valid e) then mret (- EINVAL) else
  w ← get_state;
  match sblocks w with
  | None => mret (- ENODEV)
  | Some s =>
    if negb (state s =? SBLOCK_STATE_READY) then mret (- ENODEV) else
    let h := p_rx (ring s) in
    rxpos ← lift (sblock_get_ringpos (wt_p h) (h_count h));
    store on_p_rx h rxpos
      (Blk (u32 (addr b - smem_virt s + stored_smem_addr s)) (h_size h));;
    upd_mgr (on_ring (on_p_rx (set_wt (u32 (wt_p h + 1)))));;
    let send_event := (s32 (u32 (wt_p h + 1) - rd_p h) =? 1)
                      && (state s =? SBLOCK_STATE_READY) in
    index ← lift (sblock_get_index (u32 (addr b - rxblk_virt (ring s))) (rxblksz s));
    record_rx index SBLOCK_BLK_STATE_DONE;;
    release_rx e;;
    (if send_event then smsg_send e SMSG_EVENT_SBLOCK_RELEASE else mret 0);;
    mret 0
  end.

Definition sblock_poll_wait (e : env) : sb Z :=
  if negb (valid e) then mret 0 else
  w ← get_state;
  match sblocks w with
  | None => mret 0
  | Some s =>
    if negb (state s =? SBLOCK_STATE_READY) then mret 0 else
    let mask := if sblock_has_data e true s then 0 |' TX_MASK else 0 in
    mret (if sblock_has_data e false s then mask |' RX_MASK else mask)
  end.

Definition sblock_query (e : env) : sb Z :=
  if negb (valid e) then mret (- EINVAL) else
  w ← get_state;
  match sblocks w with
  | None => mret (- ENODEV)
  | Some s => mret (if negb (state s =? SBLOCK_STATE_READY) then - EINVAL else 0)
  end.

Definition sblock_down (e : env) : sb () :=
  if negb (valid e) then mret () else upd_mgr (set_state SBLOCK_STATE_IDLE).

(** *** Recovery *)

(** The loop that refills a pool from slot 0 with the blocks recorded as done:
    [i] runs over the blocks, [j] over the slots. *)
Fixpoint refill (n : nat) (i j : Z) (record : list Z) (sz : Z) (h : half) : outcome half :=
  match n with
  | O => Done h
  | S n =>
    match record !! Z.to_nat i with
    | None => OutOfBounds
    | Some st =>
      if st =? SBLOCK_BLK_STATE_DONE then
        if j <? Z.of_nat (length (h_blks h)) then
          refill n (i + 1) (j + 1) record sz
            (set_wt (u32 (wt_p h + 1))
              (set_blks (<[Z.to_nat j := Blk (u32 (i * sz + h_addr h)) sz]> (h_blks h)) h))
        else OutOfBounds
      else refill n (i + 1) j record sz h
    end
  end.

(** Clean the rings and recover the pools, when the peer has restarted. *)
Definition sblock_recover (e : env) : sb Z :=
  if negb (valid e) then mret (- EINVAL) else
  w ← get_state;
  match sblocks w with
  | None => mret (- ENODEV)
  | Some s =>
    upd_mgr (set_state SBLOCK_STATE_IDLE);;
    rval ← request_rx e (request1 e);
    if rval <? 0 then mret rval else
    upd_mgr (on_ring (on_r_tx (set_wt (rd_p (r_tx (ring s))))));;
    let h := set_rd (wt_p (p_tx (ring s))) (p_tx (ring s)) in
    h ← lift (refill (Z.to_nat (h_count h)) 0 0 (txrecord (ring s)) (txblksz s) h);
    upd_mgr (on_ring (on_p_tx (λ _, h)));;
    upd_mgr (on_ring (on_r_rx (set_rd (wt_p (r_rx (ring s))))));;
    let h := set_wt (rd_p (p_rx (ring s))) (p_rx (ring s)) in
    h ← lift (refill (Z.to_nat (h_count h)) 0 0 (rxrecord (ring s)) (rxblksz s) h);
    upd_mgr (on_ring (on_p_rx (λ _, h)));;
    upd_mgr (on_ring (on_poll_mask (λ m, m |' TX_MASK)));;
    release_rx e;;
    mret 0
  end.

(** ** Creation *)

(** [struct sblock_ring_header], in shared memory. *)
Record ring_header := RingHeader {
  txblk_addr : Z; txblk_count : Z; txblk_size : Z;
  txblk_blks : Z; txblk_rdptr : Z; txblk_wrptr : Z;
  rxblk_addr : Z; rxblk_count : Z; rxblk_size : Z;
  rxblk_blks : Z; rxblk_rdptr : Z; rxblk_wrptr : Z;
}.

(** The shared memory of a channel: [struct sblock_header] and the four arrays
    of descriptors by their stored address. *)
Record shm := Shm {
  ringhd : ring_header;
  poolhd : ring_header;
  arrays : list (Z * list blk);
}.

Definition SIZEOF_HEADER : Z := 96.
Definition SIZEOF_BLKS : Z := 8.

Definition array_at (m : shm) (a : Z) : list blk :=
  match filter (λ p, p.1 = a) (arrays m) with
  | p :: _ => p.2
  | [] => []
  end.

(** What the allocators and mappings return (0 and [false] when they fail), and
    the first result of the resource request. *)
Record resources := Resources {
  smem_alloc : Z;
  vmap1 : Z; vmap2 : Z;
  kcalloc_tx : bool; kcalloc_rx : bool;
  pms_request : Z;
}.

(** What a failing initialisation gives back, in order. *)
Inductive freed := KfreeRx | KfreeTx | ShmemUnmap | SmemFree.

Definition ALIGN (x a : Z) : Z := u32 (x + (a - 1)) &' u32 (Z.lnot (a - 1)).

(** The loop that fills a pool. *)
Fixpoint init_pool (n : nat) (i : Z) (a sz : Z) (arr : list blk) (wrptr : Z)
    : list blk * Z :=
  match n with
  | O => (arr, wrptr)
  | S n => init_pool n (i + 1) a sz (<[Z.to_nat i := Blk (u32 (a + i * sz)) sz]> arr)
             (u32 (wrptr + 1))
  end.

Section Init.
(** [SBLOCK_ALIGN_BYTES] of the target, and what fresh memory contains. *)
Context (align : Z) (junk : Z → blk).

Definition fresh_array (n : Z) : list blk := junk <$> seqZ 0 n.

Definition sblock_host_init (smem_base dst_smem_base : Z) (res : resources)
    (txblocknum txblocksize rxblocknum rxblocksize : Z)
    : Z * option (sblock_mgr * shm) * list freed :=
  let txblocksize := ALIGN txblocksize align in
  let rxblocksize := ALIGN rxblocksize align in
  let hsize := SIZEOF_HEADER in
  let smem_addr := smem_alloc res in
  if smem_addr =? 0 then (- ENOMEM, None, []) else
  let dst_smem_addr := u32 (smem_addr - smem_base + dst_smem_base) in
  let stored := dst_smem_addr in
  let virt := vmap1 res in
  if virt =? 0 then (- ENOMEM, None, [SmemFree]) else
  if negb (kcalloc_tx res) then (- ENOMEM, None, [ShmemUnmap; SmemFree]) else
  if negb (kcalloc_rx res) then (- ENOMEM, None, [KfreeTx; ShmemUnmap; SmemFree]) else
  if pms_request res <? 0
  then (pms_request res, None, [KfreeRx; KfreeTx; ShmemUnmap; SmemFree]) else
  let r_txaddr := u32 (stored + hsize) in
  let r_txblks := u32 (r_txaddr + (txblocknum * txblocksize + rxblocknum * rxblocksize)) in
  let r_rxaddr := u32 (r_txaddr + txblocknum * txblocksize) in
  let r_rxblks := u32 (r_txblks + txblocknum * SIZEOF_BLKS) in
  let p_txaddr := u32 (stored + hsize) in
  let p_txblks := u32 (r_rxblks + rxblocknum * SIZEOF_BLKS) in
  let p_rxaddr := u32 (r_txaddr + txblocknum * txblocksize) in
  let p_rxblks := u32 (p_txblks + txblocknum * SIZEOF_BLKS) in
  let '(p_txarr, p_txwr) :=
    init_pool (Z.to_nat txblocknum) 0 p_txaddr txblocksize (fresh_array txblocknum) 0 in
  let '(p_rxarr, p_rxwr) :=
    init_pool (Z.to_nat rxblocknum) 0 p_rxaddr rxblocksize (fresh_array rxblocknum) 0 in
  let r_txarr := fresh_array txblocknum in
  let r_rxarr := fresh_array rxblocknum in
  let mem := Shm
    (RingHeader r_txaddr txblocknum txblocksize r_txblks 0 0
                r_rxaddr rxblocknum rxblocksize r_rxblks 0 0)
    (RingHeader p_txaddr txblocknum txblocksize p_txblks 0 p_txwr
                p_rxaddr rxblocknum rxblocksize p_rxblks 0 p_rxwr)
    [(r_txblks, r_txarr); (r_rxblks, r_rxarr); (p_txblks, p_txarr); (p_rxblks, p_rxarr)] in
  let rg := SblockRing
    (Half 0 0 r_txaddr txblocknum txblocksize r_txarr)
    (Half 0 0 r_rxaddr rxblocknum rxblocksize r_rxarr)
    (Half 0 p_txwr p_txaddr txblocknum txblocksize p_txarr)
    (Half 0 p_rxwr p_rxaddr rxblocknum rxblocksize p_rxarr)
    (virt + u32 (r_txaddr - stored)) (virt + u32 (r_rxaddr - stored))
    TX_MASK
    (replicate (Z.to_nat txblocknum) SBLOCK_BLK_STATE_DONE)
    (replicate (Z.to_nat rxblocknum) SBLOCK_BLK_STATE_DONE) 0 in
  (0, Some (SblockMgr SBLOCK_STATE_IDLE virt stored txblocksize rxblocksize rg, mem), []).

(** The peer's view of the same memory, with the directions exchanged;
    [smem_addr] is the address the host announced. *)
Definition sblock_client_init (smem_addr : Z) (mem : shm) (res : resources)
    : Z * option sblock_mgr * list freed :=
  if vmap1 res =? 0 then (- ENOMEM, None, []) else
  let txblocknum := rxblk_count (ringhd mem) in
  let txblocksize := rxblk_size (ringhd mem) in
  let rxblocknum := txblk_count (ringhd mem) in
  let rxblocksize := txblk_size (ringhd mem) in
  if smem_alloc res =? 0 then (- ENOMEM, None, []) else
  let stored := smem_addr in
  let virt := vmap2 res in
  if virt =? 0 then (- ENOMEM, None, [SmemFree]) else
  if negb (kcalloc_tx res) then (- ENOMEM, None, [ShmemUnmap; SmemFree]) else
  if negb (kcalloc_rx res) then (- ENOMEM, None, [KfreeTx; ShmemUnmap; SmemFree]) else
  if pms_request res <? 0
  then (pms_request res, None, [KfreeTx; ShmemUnmap; SmemFree]) else
  let r := ringhd mem in
  let p := poolhd mem in
  let rg := SblockRing
    (Half (rxblk_rdptr r) (rxblk_wrptr r) (rxblk_addr r) (rxblk_count r) (rxblk_size r)
          (array_at mem (rxblk_blks r)))
    (Half (txblk_rdptr r) (txblk_wrptr r) (txblk_addr r) (txblk_count r) (txblk_size r)
          (array_at mem (txblk_blks r)))
    (Half (rxblk_rdptr p) (rxblk_wrptr p) (rxblk_addr p) (rxblk_count p) (rxblk_size p)
          (array_at mem (rxblk_blks p)))
    (Half (txblk_rdptr p) (txblk_wrptr p) (txblk_addr p) (txblk_count p) (txblk_size p)
          (array_at mem (txblk_blks p)))
    (virt + u32 (rxblk_addr r - stored)) (virt + u32 (txblk_addr r - stored))
    0
    (replicate (Z.to_nat txblocknum) 0) (replicate (Z.to_nat rxblocknum) 0) 0 in
  (0, Some (SblockMgr SBLOCK_STATE_IDLE virt stored txblocksize rxblocksize rg), []).
End Init.

(** ** Running operations *)

Lemma runs_upd f w s (Φ : () → world → Prop) :
  sblocks w = Some s → (∀ w', sblocks w' = Some (f s) → Φ () w') → runs (upd_mgr f) w Φ.
Proof.
  intros Hs H. eexists _, _. split; [reflexivity|]. apply H. simpl. by rewrite Hs.
Qed.

(** The environment of a call on an existing channel whose memory is, or can be
    made, accessible. *)
Definition good_env (e : env) : Prop :=
  valid e = true ∧ sent e = 0 ∧ (local e = true ∨ request1 e = 0 ∧ request2 e = 0).

Lemma runs_request_tx e r w (Φ : Z → world → Prop) :
  local e = true ∨ r = 0 →
  (∀ w', sblocks w' = sblocks w → Φ 0 w') → runs (request_tx e r) w Φ.
Proof.
  intros Hr H. unfold runs, request_tx. destruct (local e).
  - exists 0, w. auto.
  - destruct Hr as [?| ->]; [congruence|]. eexists 0, _. split; [reflexivity|]. by apply H.
Qed.

Lemma runs_request_rx e r w (Φ : Z → world → Prop) :
  local e = true ∨ r = 0 →
  (∀ w', sblocks w' = sblocks w → Φ 0 w') → runs (request_rx e r) w Φ.
Proof.
  intros Hr H. unfold runs, request_rx. destruct (local e).
  - exists 0, w. auto.
  - destruct Hr as [?| ->]; [congruence|]. eexists 0, _. split; [reflexivity|]. by apply H.
Qed.

Lemma runs_release_tx e w (Φ : () → world → Prop) :
  (∀ w', sblocks w' = sblocks w → Φ () w') → runs (release_tx e) w Φ.
Proof.
  intros H. unfold runs, release_tx. destruct (local e); eexists (), _;
    (split; [reflexivity|by apply H]).
Qed.

Lemma runs_release_rx e w (Φ : () → world → Prop) :
  (∀ w', sblocks w' = sblocks w → Φ () w') → runs (release_rx e) w Φ.
Proof.
  intros H. unfold runs, release_rx. destruct (local e); eexists (), _;
    (split; [reflexivity|by apply H]).
Qed.

Lemma runs_smsg_send e v w (Φ : Z → world → Prop) :
  sent e = 0 → (∀ w', sblocks w' = sblocks w → Φ 0 w') → runs (smsg_send e v) w Φ.
Proof.
  intros He H. eexists _, _. split; [reflexivity|]. rewrite He. by apply H.
Qed.

Lemma runs_record_tx i v w s (Φ : () → world → Prop) :
  sblocks w = Some s → 0 ≤ i < Z.of_nat (length (txrecord (ring s))) →
  (∀ w', sblocks w' = Some (on_ring (on_txrecord <[Z.to_nat i := v]>) s) → Φ () w') →
  runs (record_tx i v) w Φ.
Proof.
  intros Hs Hi H. unfold runs, record_tx. rewrite Hs.
  apply runs_bind, runs_check; [done|]. by eapply runs_upd.
Qed.

Lemma runs_record_rx i v w s (Φ : () → world → Prop) :
  sblocks w = Some s → 0 ≤ i < Z.of_nat (length (rxrecord (ring s))) →
  (∀ w', sblocks w' = Some (on_ring (on_rxrecord <[Z.to_nat i := v]>) s) → Φ () w') →
  runs (record_rx i v) w Φ.
Proof.
  intros Hs Hi H. unfold runs, record_rx. rewrite Hs.
  apply runs_bind, runs_check; [done|]. by eapply runs_upd.
Qed.

Lemma runs_store sel h pos b w s (Φ : () → world → Prop) :
  sblocks w = Some s → 0 ≤ pos < Z.of_nat (length (h_blks h)) →
  (∀ w', sblocks w'
     = Some (on_ring (sel (set_blks (<[Z.to_nat pos := b]> (h_blks h)))) s) → Φ () w') →
  runs (store sel h pos b) w Φ.
Proof.
  intros Hs Hi H. apply runs_bind, runs_check; [done|]. by eapply runs_upd.
Qed.

Lemma runs_load h pos b w (Φ : blk → world → Prop) :
  0 ≤ pos → h_blks h !! Z.to_nat pos = Some b → Φ b w → runs (load h pos) w Φ.
Proof.
  intros Hp Hb H. unfold load. rewrite Hb, (proj2 (Z.leb_le 0 pos)) by done.
  by apply runs_ret.
Qed.

(** ** The blocks of one direction *)

(** Block [i] as stored in the memory, and as a user sees it. *)
Definition stored_blk (A sz : Z) (p : nat * Z) : blk := Blk (A + Z.of_nat p.1 * sz) p.2.
Definition user_blk (virt sz : Z) (p : nat * Z) : blk := Blk (virt + Z.of_nat p.1 * sz) p.2.

(** The geometry of one direction as one side sees it: [n] blocks of [sz] bytes
    from stored address [A], mapped at [virt]. *)
Record geometry (n : nat) (A sz : Z) (s : sblock_mgr) (pool rg : half)
    (virt blksz : Z) (record : list Z) (held : list nat) : Prop := {
  g_pool : h_count pool = Z.of_nat n;
  g_ring : h_count rg = Z.of_nat n;
  g_addr : h_addr pool = A;
  g_size : h_size pool = sz;
  g_blksz : blksz = sz;
  g_pos : 0 < sz;
  g_stored : 0 ≤ stored_smem_addr s ≤ A;
  g_end : A + Z.of_nat n * sz < 2 ^ 32;
  g_virt : virt = smem_virt s + (A - stored_smem_addr s);
  g_record : record = (λ i, if decide (i ∈ held) then SBLOCK_BLK_STATE_PENDING
                            else SBLOCK_BLK_STATE_DONE) <$> seq 0 n;
}.

(** The pool and the ring hold these blocks. *)
Record halves_rep (n : nat) (A sz : Z) (pool rg : half)
    (p : list nat) (r : list (nat * Z)) : Prop := {
  hr_pool : ring_rep (Z.of_nat n) (rd_p pool) (wt_p pool) (h_blks pool)
              ((λ i, stored_blk A sz (i, sz)) <$> p);
  hr_ring : ring_rep (Z.of_nat n) (rd_p rg) (wt_p rg) (h_blks rg) (stored_blk A sz <$> r);
}.

Definition tx_geometry n A sz s held : Prop :=
  geometry n A sz s (p_tx (ring s)) (r_tx (ring s)) (txblk_virt (ring s)) (txblksz s)
    (txrecord (ring s)) held.
Definition rx_geometry n A sz s held : Prop :=
  geometry n A sz s (p_rx (ring s)) (r_rx (ring s)) (rxblk_virt (ring s)) (rxblksz s)
    (rxrecord (ring s)) held.

Lemma ringpos_rep {B} n rd wt (a q : list B) x :
  ring_rep n rd wt a q → sblock_get_ringpos x n = Done (x mod n).
Proof.
  intros Hr. pose proof (rep_bounds _ _ _ _ _ Hr). unfold sblock_get_ringpos, is_power_of_2.
  destruct (rep_pos _ _ _ _ _ n Hr) as [-> _].
  destruct (rep_pos _ _ _ _ _ x Hr) as [-> _].
  rewrite Z.mod_same by lia. by rewrite (proj2 (Z.eqb_neq n 0)) by lia.
Qed.

Lemma get_index_block i sz : 0 < sz → sblock_get_index (i * sz) sz = Done i.
Proof.
  intros Hs. unfold sblock_get_index. rewrite (proj2 (Z.eqb_neq sz 0)) by lia.
  by rewrite Z.div_mul by lia.
Qed.

Section Addresses.
Context (n : nat) (A sz stored virt0 : Z).
Context (Hsz : 0 < sz) (Hst : 0 ≤ stored ≤ A) (Hend : A + Z.of_nat n * sz < 2 ^ 32).

(** Conversions between the two addresses of a block, and its index. *)
Lemma addr_to_user i len : (i < n)%nat →
  virt0 + u32 (addr (stored_blk A sz (i, len)) - stored)
  = addr (user_blk (virt0 + (A - stored)) sz (i, len)).
Proof using Hsz Hst Hend. intros Hi. simpl. rewrite u32_small; nia. Qed.

Lemma addr_to_stored i len : (i < n)%nat →
  u32 (addr (user_blk (virt0 + (A - stored)) sz (i, len)) - virt0 + stored)
  = addr (stored_blk A sz (i, len)).
Proof using Hsz Hst Hend. intros Hi. simpl. rewrite u32_small; nia. Qed.

Lemma addr_to_index i len : (i < n)%nat →
  sblock_get_index (u32 (addr (user_blk (virt0 + (A - stored)) sz (i, len))
    - (virt0 + (A - stored)))) sz = Done (Z.of_nat i).
Proof using Hsz Hst Hend.
  intros Hi. simpl.
  replace (virt0 + (A - stored) + Z.of_nat i * sz - (virt0 + (A - stored)))
    with (Z.of_nat i * sz) by lia.
  rewrite u32_small by nia. by apply get_index_block.
Qed.
End Addresses.

(** Recording a block as taken or as done. *)
Lemma record_pending n held i :
  (i < n)%nat →
  <[i := SBLOCK_BLK_STATE_PENDING]>
    ((λ i, if decide (i ∈ held) then SBLOCK_BLK_STATE_PENDING
           else SBLOCK_BLK_STATE_DONE) <$> seq 0 n)
  = (λ j, if decide (j ∈ i :: held) then SBLOCK_BLK_STATE_PENDING
          else SBLOCK_BLK_STATE_DONE) <$> seq 0 n.
Proof.
  intros Hi. apply list_eq. intros j. destruct (decide (j = i)) as [->|Hne].
  - rewrite list_lookup_insert_eq by (by rewrite length_fmap, length_seq).
    rewrite list_lookup_fmap, lookup_seq_lt by done. simpl. by rewrite decide_True by left.
  - rewrite list_lookup_insert_ne by done. rewrite !list_lookup_fmap.
    destruct (seq 0 n !! j) as [k|] eqn:E; [|done]. apply lookup_seq in E as [-> _].
    simpl. f_equal. apply decide_ext. rewrite elem_of_cons. split; [by right|by intros [?|?]].
Qed.

Lemma record_done n held held' i :
  (i < n)%nat → NoDup held → held ≡ₚ i :: held' →
  <[i := SBLOCK_BLK_STATE_DONE]>
    ((λ i, if decide (i ∈ held) then SBLOCK_BLK_STATE_PENDING
           else SBLOCK_BLK_STATE_DONE) <$> seq 0 n)
  = (λ j, if decide (j ∈ held') then SBLOCK_BLK_STATE_PENDING
          else SBLOCK_BLK_STATE_DONE) <$> seq 0 n.
Proof.
  intros Hi Hnd Hp. rewrite Hp in Hnd. apply NoDup_cons in Hnd as [Hni _].
  apply list_eq. intros j. destruct (decide (j = i)) as [->|Hne].
  - rewrite list_lookup_insert_eq by (by rewrite length_fmap, length_seq).
    rewrite list_lookup_fmap, lookup_seq_lt by done. simpl. by rewrite decide_False.
  - rewrite list_lookup_insert_ne by done. rewrite !list_lookup_fmap.
    destruct (seq 0 n !! j) as [k|] eqn:E; [|done]. apply lookup_seq in E as [-> _].
    simpl. f_equal. apply decide_ext. rewrite Hp, elem_of_cons. split; [by intros [?|?]|by right].
Qed.

(** ** One operation of each kind *)

(** [s'] is [s] up to what the sending side owns, resp. the receiving side. *)
Record same_rx (s s' : sblock_mgr) : Prop := {
  srx_state : state s' = state s;
  srx_virt : smem_virt s' = smem_virt s;
  srx_stored : stored_smem_addr s' = stored_smem_addr s;
  srx_txvirt : txblk_virt (ring s') = txblk_virt (ring s);
  srx_rxvirt : rxblk_virt (ring s') = rxblk_virt (ring s);
  srx_txsz : txblksz s' = txblksz s;
  srx_rxsz : rxblksz s' = rxblksz s;
  srx_r : r_rx (ring s') = r_rx (ring s);
  srx_p : p_rx (ring s') = p_rx (ring s);
  srx_record : rxrecord (ring s') = rxrecord (ring s);
}.

Section Sender.
Context (e : env) (n : nat) (A sz : Z) (He : good_env e).

Lemma run_sblock_get w s held pool rg :
  sblocks w = Some s → state s = SBLOCK_STATE_READY →
  tx_geometry n A sz s held →
  halves_rep n A sz (p_tx (ring s)) (r_tx (ring s)) pool rg →
  Forall (λ i, i < n)%nat pool →
  runs (sblock_get e 0) w (λ res w', ∃ s', sblocks w' = Some s' ∧ same_rx s s' ∧
    match pool with
    | [] => res = (- ENODATA, None) ∧ tx_geometry n A sz s' held
            ∧ halves_rep n A sz (p_tx (ring s')) (r_tx (ring s')) [] rg
    | i :: p => res = (0, Some (user_blk (txblk_virt (ring s)) sz (i, sz)))
            ∧ tx_geometry n A sz s' (i :: held)
            ∧ halves_rep n A sz (p_tx (ring s')) (r_tx (ring s')) p rg
    end).
Proof using He.
  destruct He as (Hv&_&Hreq). intros Hs Hst Hg [Hp Hr] Hlt.
  unfold sblock_get. rewrite Hv. cbn [negb].
  apply runs_bind, runs_get. rewrite Hs, Hst. cbn [negb Z.eqb SBLOCK_STATE_READY Pos.eqb].
  apply runs_bind, runs_request_tx; [tauto|]. intros w1 Hw1. cbn [Z.ltb Z.compare].
  rewrite Hs in Hw1. rewrite (rep_empty _ _ _ _ _ Hp).
  apply runs_bind. eapply runs_upd; [exact Hw1|]. intros w2 Hw2.
  apply runs_bind, runs_release_tx. intros w3 Hw3. rewrite Hw2 in Hw3.
  apply runs_bind. destruct pool as [|i p].
  - rewrite bool_decide_true by done. cbn [negb Z.eqb]. apply runs_ret.
    cbn [Z.ltb Z.compare Z.opp ENODATA]. apply runs_ret.
    eexists. split; [exact Hw3|]. split; [by split|]. split; [done|].
    split; [by destruct Hg; split|by split].
  - rewrite bool_decide_false by done. cbn [negb]. apply runs_ret. cbn [Z.ltb Z.compare].
    apply runs_bind, runs_request_tx; [tauto|]. intros w4 Hw4. rewrite Hw3 in Hw4.
    cbn [Z.ltb Z.compare].
    apply runs_bind, runs_get. rewrite Hw4.
    cbn [ring on_ring on_poll_mask p_tx r_tx smem_virt stored_smem_addr txblk_virt
         txblksz state].
    rewrite (rep_empty _ _ _ _ _ Hp), bool_decide_false, Hst by done.
    cbn [negb andb Z.eqb SBLOCK_STATE_READY Pos.eqb].
    destruct (rep_pop _ _ _ _ _ _ Hp) as [Hload Hp'].
    pose proof (rep_bounds _ _ _ _ _ Hp) as Hn.
    apply Forall_cons in Hlt as [Hi Hlt].
    pose proof Hg as [Ecp Ecr Eaddr Esz Ebsz Hpos Hst' Hend Evirt Erec].
    rewrite Ecp, Ebsz, Esz, Evirt.
    apply runs_bind, runs_bind. eapply runs_lift; [by apply (ringpos_rep _ _ _ _ _ _ Hp)|].
    apply runs_bind. eapply runs_load; [apply Z.mod_pos_bound; lia|exact Hload|].
    rewrite (addr_to_user n) by done.
    apply runs_bind. eapply runs_upd; [exact Hw4|]. intros w5 Hw5.
    apply runs_bind. eapply runs_lift; [by apply (addr_to_index n)|].
    apply runs_bind. eapply runs_record_tx; [exact Hw5| |].
    { cbn. rewrite Erec, length_fmap, length_seq. lia. }
    intros w6 Hw6. apply runs_ret.
    apply runs_bind. eapply runs_upd; [exact Hw6|]. intros w7 Hw7. apply runs_ret.
    eexists. split; [exact Hw7|]. split; [by split|]. split; [done|].
    split; [|by split]. split; cbn; try done.
    rewrite Erec, Nat2Z.id. by apply record_pending.
Qed.

Lemma run_sblock_put w s held held' i len pool rg :
  sblocks w = Some s → state s = SBLOCK_STATE_READY →
  tx_geometry n A sz s held →
  halves_rep n A sz (p_tx (ring s)) (r_tx (ring s)) pool rg →
  (i < n)%nat → NoDup held → held ≡ₚ i :: held' → (length pool < n)%nat →
  runs (sblock_put e (user_blk (txblk_virt (ring s)) sz (i, len))) w (λ _ w', ∃ s',
    sblocks w' = Some s' ∧ same_rx s s' ∧ tx_geometry n A sz s' held'
    ∧ halves_rep n A sz (p_tx (ring s')) (r_tx (ring s')) (i :: pool) rg).
Proof using He.
  destruct He as (Hv&_&_). intros Hs Hst Hg [Hp Hr] Hi Hnd Hperm Hl.
  pose proof Hg as [Ecp Ecr Eaddr Esz Ebsz Hpos Hst' Hend Evirt Erec].
  pose proof (rep_bounds _ _ _ _ _ Hp) as Hn.
  unfold sblock_put. rewrite Hv. cbn [negb].
  apply runs_bind, runs_get. rewrite Hs, Ecp, Esz, Ebsz, Evirt.
  apply runs_bind. eapply runs_lift; [by apply (ringpos_rep _ _ _ _ _ _ Hp)|].
  rewrite (addr_to_stored n) by done.
  apply runs_bind. eapply runs_store; [exact Hs| |].
  { rewrite (rep_length _ _ _ _ _ Hp). apply Z.mod_pos_bound. lia. }
  intros w1 Hw1.
  apply runs_bind. eapply runs_upd; [exact Hw1|]. intros w2 Hw2.
  apply runs_bind. eapply runs_lift; [by apply (addr_to_index n)|].
  apply runs_bind. eapply runs_record_tx; [exact Hw2| |].
  { cbn. rewrite Erec, length_fmap, length_seq. lia. }
  intros w3 Hw3. apply runs_bind. eapply runs_upd; [exact Hw3|]. intros w4 Hw4.
  apply runs_release_tx. intros w5 Hw5. rewrite Hw4 in Hw5.
  eexists. split; [exact Hw5|]. split; [by split|]. split.
  - split; cbn; try done. rewrite Erec, Nat2Z.id. by apply (record_done n held).
  - split; cbn; [|done].
    apply (rep_push_front _ _ _ _ _ (stored_blk A sz (i, sz))) in Hp;
      [exact Hp|rewrite length_fmap; lia].
Qed.

Lemma run_sblock_send w s held held' i len pool rg :
  sblocks w = Some s → state s = SBLOCK_STATE_READY →
  tx_geometry n A sz s held →
  halves_rep n A sz (p_tx (ring s)) (r_tx (ring s)) pool rg →
  (i < n)%nat → NoDup held → held ≡ₚ i :: held' → (length rg < n)%nat →
  runs (sblock_send e (user_blk (txblk_virt (ring s)) sz (i, len))) w (λ rval w', ∃ s',
    sblocks w' = Some s' ∧ same_rx s s' ∧ rval = 0 ∧ tx_geometry n A sz s' held'
    ∧ halves_rep n A sz (p_tx (ring s')) (r_tx (ring s')) pool (rg ++ [(i, len)])).
Proof using He.
  destruct He as (Hv&Hsent&_). intros Hs Hst Hg [Hp Hr] Hi Hnd Hperm Hl.
  pose proof Hg as [Ecp Ecr Eaddr Esz Ebsz Hpos Hst' Hend Evirt Erec].
  pose proof (rep_bounds _ _ _ _ _ Hp) as Hn.
  unfold sblock_send, sblock_send_ex. rewrite Hv. cbn [negb].
  apply runs_bind, runs_get. rewrite Hs, Hst, Ecr, Ebsz, Evirt.
  cbn [negb andb Z.eqb SBLOCK_STATE_READY Pos.eqb].
  apply runs_bind. eapply runs_lift; [by apply (ringpos_rep _ _ _ _ _ _ Hr)|].
  rewrite (addr_to_stored n) by done.
  apply runs_bind. eapply runs_store; [exact Hs| |].
  { rewrite (rep_length _ _ _ _ _ Hr). apply Z.mod_pos_bound. lia. }
  intros w1 Hw1.
  apply runs_bind. eapply runs_upd; [exact Hw1|]. intros w2 Hw2.
  apply runs_bind, runs_ret.
  apply runs_bind. eapply runs_lift; [by apply (addr_to_index n)|].
  apply runs_bind. eapply runs_record_tx; [exact Hw2| |].
  { cbn. rewrite Erec, length_fmap, length_seq. lia. }
  intros w3 Hw3. apply runs_bind, runs_release_tx. intros w4 Hw4. rewrite Hw3 in Hw4.
  apply runs_smsg_send; [done|]. intros w5 Hw5. rewrite Hw4 in Hw5.
  eexists. split; [exact Hw5|]. split; [by split|]. split; [done|]. split.
  - split; cbn; try done. rewrite Erec, Nat2Z.id. by apply (record_done n held).
  - split; cbn; [done|]. rewrite fmap_app.
    apply (rep_push _ _ _ _ _ (stored_blk A sz (i, len))) in Hr;
      [exact Hr|rewrite length_fmap; lia].
Qed.
End Sender.

Record same_tx (s s' : sblock_mgr) : Prop := {
  stx_state : state s' = state s;
  stx_virt : smem_virt s' = smem_virt s;
  stx_stored : stored_smem_addr s' = stored_smem_addr s;
  stx_txvirt : txblk_virt (ring s') = txblk_virt (ring s);
  stx_rxvirt : rxblk_virt (ring s') = rxblk_virt (ring s);
  stx_txsz : txblksz s' = txblksz s;
  stx_rxsz : rxblksz s' = rxblksz s;
  stx_r : r_tx (ring s') = r_tx (ring s);
  stx_p : p_tx (ring s') = p_tx (ring s);
  stx_record : txrecord (ring s') = txrecord (ring s);
}.

Section Receiver.
Context (e : env) (n : nat) (A sz : Z) (He : good_env e).

Lemma run_sblock_receive w s held pool rg :
  sblocks w = Some s → state s = SBLOCK_STATE_READY →
  rx_geometry n A sz s held →
  halves_rep n A sz (p_rx (ring s)) (r_rx (ring s)) pool rg →
  Forall (λ p, p.1 < n)%nat rg →
  runs (sblock_receive e 0) w (λ res w', ∃ s', sblocks w' = Some s' ∧ same_tx s s' ∧
    match rg with
    | [] => res = (- ENODATA, None) ∧ rx_geometry n A sz s' held
            ∧ halves_rep n A sz (p_rx (ring s')) (r_rx (ring s')) pool []
    | p :: rg => res = (0, Some (user_blk (rxblk_virt (ring s)) sz p))
            ∧ rx_geometry n A sz s' (p.1 :: held)
            ∧ halves_rep n A sz (p_rx (ring s')) (r_rx (ring s')) pool rg
    end).
Proof using He.
  destruct He as (Hv&_&Hreq). intros Hs Hst Hg [Hp Hr] Hlt.
  unfold sblock_receive. rewrite Hv. cbn [negb].
  apply runs_bind, runs_get. rewrite Hs, Hst. cbn [negb Z.eqb SBLOCK_STATE_READY Pos.eqb].
  apply runs_bind, runs_request_rx; [tauto|]. intros w1 Hw1. cbn [Z.ltb Z.compare].
  rewrite Hs in Hw1. rewrite (Z.eqb_sym (wt_p _)), (rep_empty _ _ _ _ _ Hr).
  apply runs_bind. eapply runs_upd; [exact Hw1|]. intros w2 Hw2.
  apply runs_bind, runs_release_rx. intros w3 Hw3. rewrite Hw2 in Hw3.
  apply runs_bind. destruct rg as [|[i len] rg].
  - rewrite bool_decide_true by done. cbn [negb Z.eqb]. apply runs_ret.
    cbn [Z.ltb Z.compare Z.opp ENODATA]. apply runs_ret.
    eexists. split; [exact Hw3|]. split; [by split|]. split; [done|].
    split; [by destruct Hg; split|by split].
  - rewrite bool_decide_false by done. cbn [negb]. apply runs_ret. cbn [Z.ltb Z.compare].
    apply runs_bind, runs_request_rx; [tauto|]. intros w4 Hw4. rewrite Hw3 in Hw4.
    cbn [Z.ltb Z.compare]. apply runs_bind, runs_get. rewrite Hw4.
    cbn [ring on_ring on_poll_mask p_rx r_rx smem_virt stored_smem_addr rxblk_virt
         rxblksz state].
    rewrite (Z.eqb_sym (wt_p _)), (rep_empty _ _ _ _ _ Hr), bool_decide_false, Hst by done.
    cbn [negb andb Z.eqb SBLOCK_STATE_READY Pos.eqb].
    destruct (rep_pop _ _ _ _ _ _ Hr) as [Hload Hr'].
    pose proof (rep_bounds _ _ _ _ _ Hr) as Hn.
    apply Forall_cons in Hlt as [Hi Hlt]. cbn [fst] in Hi.
    pose proof Hg as [Ecp Ecr Eaddr Esz Ebsz Hpos Hst' Hend Evirt Erec].
    rewrite Ecr, Ebsz, Evirt.
    apply runs_bind, runs_bind. eapply runs_lift; [by apply (ringpos_rep _ _ _ _ _ _ Hr)|].
    apply runs_bind. eapply runs_load; [apply Z.mod_pos_bound; lia|exact Hload|].
    rewrite (Z.add_comm (u32 _)), (addr_to_user n) by done.
    apply runs_bind. eapply runs_upd; [exact Hw4|]. intros w5 Hw5.
    apply runs_bind. eapply runs_lift; [by apply (addr_to_index n)|].
    apply runs_bind. eapply runs_record_rx; [exact Hw5| |].
    { cbn. rewrite Erec, length_fmap, length_seq. lia. }
    intros w6 Hw6. apply runs_ret.
    apply runs_bind. eapply runs_upd; [exact Hw6|]. intros w7 Hw7. apply runs_ret.
    eexists. split; [exact Hw7|]. split; [by split|]. split; [done|].
    split; [|by split]. split; cbn; try done.
    rewrite Erec, Nat2Z.id. by apply record_pending.
Qed.

Lemma run_sblock_release w s held held' i len pool rg :
  sblocks w = Some s → state s = SBLOCK_STATE_READY →
  rx_geometry n A sz s held →
  halves_rep n A sz (p_rx (ring s)) (r_rx (ring s)) pool rg →
  (i < n)%nat → NoDup held → held ≡ₚ i :: held' → (length pool < n)%nat →
  runs (sblock_release e (user_blk (rxblk_virt (ring s)) sz (i, len))) w (λ rval w', ∃ s',
    sblocks w' = Some s' ∧ same_tx s s' ∧ rval = 0 ∧ rx_geometry n A sz s' held'
    ∧ halves_rep n A sz (p_rx (ring s')) (r_rx (ring s')) (pool ++ [i]) rg).
Proof using He.
  destruct He as (Hv&Hsent&_). intros Hs Hst Hg [Hp Hr] Hi Hnd Hperm Hl.
  pose proof Hg as [Ecp Ecr Eaddr Esz Ebsz Hpos Hst' Hend Evirt Erec].
  pose proof (rep_bounds _ _ _ _ _ Hp) as Hn.
  unfold sblock_release. rewrite Hv. cbn [negb].
  apply runs_bind, runs_get. rewrite Hs, Hst, Ecp, Esz, Ebsz, Evirt.
  cbn [negb Z.eqb SBLOCK_STATE_READY Pos.eqb].
  apply runs_bind. eapply runs_lift; [by apply (ringpos_rep _ _ _ _ _ _ Hp)|].
  rewrite (addr_to_stored n) by done.
  apply runs_bind. eapply runs_store; [exact Hs| |].
  { rewrite (rep_length _ _ _ _ _ Hp). apply Z.mod_pos_bound. lia. }
  intros w1 Hw1.
  apply runs_bind. eapply runs_upd; [exact Hw1|]. intros w2 Hw2.
  apply runs_bind. eapply runs_lift; [by apply (addr_to_index n)|].
  apply runs_bind. eapply runs_record_rx; [exact Hw2| |].
  { cbn. rewrite Erec, length_fmap, length_seq. lia. }
  intros w3 Hw3. apply runs_bind, runs_release_rx. intros w4 Hw4. rewrite Hw3 in Hw4.
  apply runs_bind.
  assert (Hend' : ∀ w5 : world, sblocks w5 = sblocks w4 →
    runs (mret 0 : sb Z) w5 (λ rval w', ∃ s', sblocks w' = Some s' ∧ same_tx s s' ∧ rval = 0
      ∧ rx_geometry n A sz s' held'
      ∧ halves_rep n A sz (p_rx (ring s')) (r_rx (ring s')) (pool ++ [i]) rg)).
  { intros w5 Hw5. rewrite Hw4 in Hw5. apply runs_ret.
    eexists. split; [exact Hw5|]. split; [by split|]. split; [done|]. split.
    - split; cbn; try done. rewrite Erec, Nat2Z.id. by apply (record_done n held).
    - split; cbn; [|done]. rewrite fmap_app.
      apply (rep_push _ _ _ _ _ (stored_blk A sz (i, sz))) in Hp;
        [exact Hp|rewrite length_fmap; lia]. }
  destruct (_ && _).
  - apply runs_smsg_send; [done|]. exact Hend'.
  - apply runs_ret. by apply Hend'.
Qed.
End Receiver.

