(* ===== verification/SblockLink.v ===== *)
(** * A block channel as a whole

    The two ends of a channel of [Sblock], joined by the memory they share: they
    refine one abstract channel in which every block is free, held by one user,
    or queued, from their initialisation on. *)

From S2P Require Import Prelude Ring Kernel Sblock.
From Stdlib Require Zpow_facts Znumtheory.

#[local] Open Scope Z_scope.
#[local] Open Scope c_scope.

(** ** The channel as a whole

    Abstractly, every block is in exactly one place: free in the pool, held by
    the sender, on the ring with the length it was sent with, or held by the
    receiver. *)

Record chan := Chan {
  pool : list nat;
  sender_held : list nat;
  queue : list (nat * Z);
  receiver_held : list nat;
}.

Definition places (c : chan) : list nat :=
  pool c ++ sender_held c ++ (queue c).*1 ++ receiver_held c.

(** No block is lost and none is in two places. *)
Definition conserved (n : nat) (c : chan) : Prop := places c ≡ₚ seq 0 n.

(** Calls of the two users, with the blocks by index. *)
Inductive call := Get | Put (i : nat) | Send (i : nat) (len : Z) | Receive | Release (i : nat).
Inductive answer := ABlk (rval : Z) (b : option blk) | AVal (rval : Z) | ANone.

Definition remove (i : nat) (l : list nat) : list nat := filter (λ j, j ≠ i) l.

(** A user may only give away blocks that it holds. *)
Definition chan_step (vtx vrx sz : Z) (c : chan) (o : call) : option (answer * chan) :=
  match o with
  | Get =>
    match pool c with
    | [] => Some (ABlk (- ENODATA) None, c)
    | i :: p => Some (ABlk 0 (Some (user_blk vtx sz (i, sz))),
                      Chan p (i :: sender_held c) (queue c) (receiver_held c))
    end
  | Put i =>
    if decide (i ∈ sender_held c) then
      Some (ANone, Chan (i :: pool c) (remove i (sender_held c)) (queue c) (receiver_held c))
    else None
  | Send i len =>
    if decide (i ∈ sender_held c) then
      Some (AVal 0, Chan (pool c) (remove i (sender_held c)) (queue c ++ [(i, len)])
                      (receiver_held c))
    else None
  | Receive =>
    match queue c with
    | [] => Some (ABlk (- ENODATA) None, c)
    | p :: q => Some (ABlk 0 (Some (user_blk vrx sz p)),
                      Chan (pool c) (sender_held c) q (p.1 :: receiver_held c))
    end
  | Release i =>
    if decide (i ∈ receiver_held c) then
      Some (AVal 0, Chan (pool c ++ [i]) (sender_held c) (queue c)
                      (remove i (receiver_held c)))
    else None
  end.

Fixpoint chan_run (vtx vrx sz : Z) (c : chan) (ops : list call)
    : option (list answer * chan) :=
  match ops with
  | [] => Some ([], c)
  | o :: ops =>
    '(a, c) ← chan_step vtx vrx sz c o;
    '(l, c) ← chan_run vtx vrx sz c ops;
    Some (a :: l, c)
  end.

(** Two sides of a channel; the sender's transmit pool and ring are the
    receiver's receive pool and ring. *)
Record link := Link { sender : world; receiver : world }.

Definition share (src : sblock_mgr → half * half) (put : half * half → sblock_mgr → sblock_mgr)
    (w w' : world) : world :=
  match sblocks w with
  | Some s => World (put (src s) <$> sblocks w') (events w') (tx_pms w') (rx_pms w')
  | None => w'
  end.

Definition tx_halves (s : sblock_mgr) : half * half := (p_tx (ring s), r_tx (ring s)).
Definition rx_halves (s : sblock_mgr) : half * half := (p_rx (ring s), r_rx (ring s)).
Definition put_tx (h : half * half) (s : sblock_mgr) : sblock_mgr :=
  on_ring (λ r, on_p_tx (λ _, h.1) (on_r_tx (λ _, h.2) r)) s.
Definition put_rx (h : half * half) (s : sblock_mgr) : sblock_mgr :=
  on_ring (λ r, on_p_rx (λ _, h.1) (on_r_rx (λ _, h.2) r)) s.

(** A call on one side, after which the other side sees the shared memory. *)
Definition by_sender {A} (m : sb A) (f : A → answer) (l : link) : outcome (answer * link) :=
  '(a, w) ← m (sender l); Done (f a, Link w (share tx_halves put_rx w (receiver l))).
Definition by_receiver {A} (m : sb A) (f : A → answer) (l : link) : outcome (answer * link) :=
  '(a, w) ← m (receiver l); Done (f a, Link (share rx_halves put_tx w (sender l)) w).

Definition link_step (e : env) (vtx vrx sz : Z) (l : link) (o : call)
    : outcome (answer * link) :=
  match o with
  | Get => by_sender (sblock_get e 0) (λ '(r, b), ABlk r b) l
  | Put i => by_sender (sblock_put e (user_blk vtx sz (i, sz))) (λ _, ANone) l
  | Send i len => by_sender (sblock_send e (user_blk vtx sz (i, len))) AVal l
  | Receive => by_receiver (sblock_receive e 0) (λ '(r, b), ABlk r b) l
  | Release i => by_receiver (sblock_release e (user_blk vrx sz (i, sz))) AVal l
  end.

Fixpoint link_run (e : env) (vtx vrx sz : Z) (l : link) (ops : list call)
    : outcome (list answer * link) :=
  match ops with
  | [] => Done ([], l)
  | o :: ops =>
    '(a, l) ← link_step e vtx vrx sz l o;
    '(r, l) ← link_run e vtx vrx sz l ops;
    Done (a :: r, l)
  end.

(** ** Refinement *)

Record link_rep (n : nat) (A sz vtx vrx : Z) (l : link) (c : chan) : Prop := {
  lr_conserved : conserved n c;
  lr_sender : ∃ s, sblocks (sender l) = Some s ∧ state s = SBLOCK_STATE_READY
    ∧ txblk_virt (ring s) = vtx ∧ tx_geometry n A sz s (sender_held c)
    ∧ halves_rep n A sz (p_tx (ring s)) (r_tx (ring s)) (pool c) (queue c);
  lr_receiver : ∃ s, sblocks (receiver l) = Some s ∧ state s = SBLOCK_STATE_READY
    ∧ rxblk_virt (ring s) = vrx ∧ rx_geometry n A sz s (receiver_held c)
    ∧ halves_rep n A sz (p_rx (ring s)) (r_rx (ring s)) (pool c) (queue c);
}.

Lemma remove_perm i l : NoDup l → i ∈ l → l ≡ₚ i :: remove i l.
Proof.
  intros Hnd Hi. unfold remove. induction l as [|j l IH]; [by apply elem_of_nil in Hi|].
  apply NoDup_cons in Hnd as [Hj Hnd]. destruct (decide (j = i)) as [->|Hne].
  - rewrite filter_cons_False by auto. f_equiv. clear IH Hi.
    induction l as [|k l IH]; [done|]. apply not_elem_of_cons in Hj as [? ?].
    apply NoDup_cons in Hnd as [_ ?]. rewrite filter_cons_True by done. by f_equiv; apply IH.
  - rewrite filter_cons_True by done. apply elem_of_cons in Hi as [?|Hi]; [congruence|].
    rewrite (IH Hnd Hi) at 1. by rewrite Permutation_swap.
Qed.

Lemma conserved_facts n c :
  conserved n c →
  NoDup (sender_held c) ∧ NoDup (receiver_held c)
  ∧ Forall (λ i, i < n)%nat (pool c) ∧ Forall (λ p, p.1 < n)%nat (queue c)
  ∧ Forall (λ i, i < n)%nat (sender_held c) ∧ Forall (λ i, i < n)%nat (receiver_held c)
  ∧ (length (pool c) + length (sender_held c) + length (queue c)
     + length (receiver_held c) = n)%nat.
Proof.
  intros Hc. assert (Hnd : NoDup (places c)) by (rewrite Hc; apply NoDup_seq).
  assert (Hlt : Forall (λ i, i < n)%nat (places c))
    by (rewrite Hc; apply Forall_seq; lia).
  assert (Hlen : length (places c) = n) by (by rewrite Hc, length_seq).
  unfold places in *. rewrite !length_app, length_fmap in Hlen.
  rewrite !Forall_app, Forall_fmap in Hlt. rewrite !NoDup_app in Hnd.
  destruct Hnd as (_&_&?&_&_&_&?). destruct Hlt as (?&?&?&?). split_and!; try done. lia.
Qed.

Lemma share_to_receiver n A sz s r hs hr :
  tx_geometry n A sz s hs → rx_geometry n A sz r hr →
  rx_geometry n A sz (put_rx (tx_halves s) r) hr.
Proof. intros [] []. by split. Qed.

Lemma share_to_sender n A sz s r hs hr :
  tx_geometry n A sz s hs → rx_geometry n A sz r hr →
  tx_geometry n A sz (put_tx (rx_halves r) s) hs.
Proof. intros [] []. by split. Qed.

Section Refinement.
Context (e : env) (n : nat) (A sz vtx vrx : Z) (He : good_env e).

(** A call on the sending side that does to the sender what the abstract step
    does to the channel. *)
Lemma by_sender_refines {B} (m : sb B) (f : B → answer) l c (a : answer) c' :
  link_rep n A sz vtx vrx l c → conserved n c' → receiver_held c' = receiver_held c →
  (∀ s, sblocks (sender l) = Some s → state s = SBLOCK_STATE_READY →
    txblk_virt (ring s) = vtx → tx_geometry n A sz s (sender_held c) →
    halves_rep n A sz (p_tx (ring s)) (r_tx (ring s)) (pool c) (queue c) →
    runs m (sender l) (λ b w', ∃ s', sblocks w' = Some s' ∧ same_rx s s' ∧ f b = a
      ∧ tx_geometry n A sz s' (sender_held c')
      ∧ halves_rep n A sz (p_tx (ring s')) (r_tx (ring s')) (pool c') (queue c'))) →
  ∃ l', by_sender m f l = Done (a, l') ∧ link_rep n A sz vtx vrx l' c'.
Proof.
  intros [Hc (s&Hs&Hst&Hv&Hg&Hh) (r&Hr&Hrt&Hrv&Hrg&_)] Hc' Hrh Hm.
  destruct (Hm s) as (b&w'&E&s'&Hs'&Hsame&Ea&Hg'&Hh'); [done..|].
  unfold by_sender. rewrite E. eexists. split; [cbn; by rewrite Ea|].
  split; [done| |]; cbn [sender receiver].
  - exists s'. destruct Hsame. split_and!; [done|congruence|congruence|done|done].
  - unfold share. rewrite Hs', Hr. eexists. split; [reflexivity|].
    split_and!; [done|done| |done]. rewrite Hrh. by eapply share_to_receiver.
Qed.

Lemma by_receiver_refines {B} (m : sb B) (f : B → answer) l c (a : answer) c' :
  link_rep n A sz vtx vrx l c → conserved n c' → sender_held c' = sender_held c →
  (∀ s, sblocks (receiver l) = Some s → state s = SBLOCK_STATE_READY →
    rxblk_virt (ring s) = vrx → rx_geometry n A sz s (receiver_held c) →
    halves_rep n A sz (p_rx (ring s)) (r_rx (ring s)) (pool c) (queue c) →
    runs m (receiver l) (λ b w', ∃ s', sblocks w' = Some s' ∧ same_tx s s' ∧ f b = a
      ∧ rx_geometry n A sz s' (receiver_held c')
      ∧ halves_rep n A sz (p_rx (ring s')) (r_rx (ring s')) (pool c') (queue c'))) →
  ∃ l', by_receiver m f l = Done (a, l') ∧ link_rep n A sz vtx vrx l' c'.
Proof.
  intros [Hc (s&Hs&Hst&Hv&Hg&_) (r&Hr&Hrt&Hrv&Hrg&Hh)] Hc' Hsh Hm.
  destruct (Hm r) as (b&w'&E&r'&Hr'&Hsame&Ea&Hg'&Hh'); [done..|].
  unfold by_receiver. rewrite E. eexists. split; [cbn; by rewrite Ea|].
  split; [done| |]; cbn [sender receiver].
  - unfold share. rewrite Hr', Hs. eexists. split; [reflexivity|].
    split_and!; [done|done| |done]. rewrite Hsh. by eapply share_to_sender.
  - exists r'. destruct Hsame. split_and!; [done|congruence|congruence|done|done].
Qed.

Lemma conserved_step c o a c' :
  conserved n c → chan_step vtx vrx sz c o = Some (a, c') → conserved n c'.
Proof.
  intros Hc Hstep. destruct (conserved_facts n c Hc) as (Hs&Hr&_).
  unfold conserved in *. rewrite <- Hc. destruct c as [p h q g]. unfold places.
  destruct o as [|i|i len| |i]; simpl in *.
  - destruct p as [|i p]; injection Hstep as <- <-; simpl; [done|].
    symmetry. apply (Permutation_middle p _ i).
  - case_decide as Hi; [|done]. injection Hstep as <- <-. simpl.
    rewrite (remove_perm i h Hs Hi) at 2. apply (Permutation_middle p _ i).
  - case_decide as Hi; [|done]. injection Hstep as <- <-. simpl.
    rewrite (remove_perm i h Hs Hi) at 2. f_equiv. rewrite fmap_app, <- app_assoc. simpl.
    rewrite (app_assoc (remove i h)), <- Permutation_middle, <- app_assoc. done.
  - destruct q as [|[i len] q]; injection Hstep as <- <-; simpl; [done|].
    do 2 f_equiv. symmetry. apply Permutation_middle.
  - case_decide as Hi; [|done]. injection Hstep as <- <-. simpl.
    rewrite (remove_perm i g Hr Hi) at 2. rewrite <- app_assoc. f_equiv. simpl.
    rewrite (app_assoc h), (app_assoc h), <- (Permutation_middle (h ++ q.*1)). done.
Qed.

Lemma link_step_refines l c o a c' :
  link_rep n A sz vtx vrx l c → chan_step vtx vrx sz c o = Some (a, c') →
  ∃ l', link_step e vtx vrx sz l o = Done (a, l') ∧ link_rep n A sz vtx vrx l' c'.
Proof using He.
  intros Hrep Hstep. pose proof (lr_conserved _ _ _ _ _ _ _ Hrep) as Hc.
  pose proof (conserved_step c o a c' Hc Hstep) as Hc'.
  destruct (conserved_facts n c Hc) as (Hs&Hr&Hp&Hq&Hsl&Hrl&Hlen).
  rewrite Forall_forall in Hsl, Hrl.
  assert (Hpos : ∀ i (l : list nat), i ∈ l → (0 < length l)%nat)
    by (intros i [|]; [by intros ?%elem_of_nil|simpl; lia]).
  destruct o as [|i|i len| |i]; cbn [chan_step link_step] in *.
  - apply (by_sender_refines _ _ _ c); [done|done|by destruct (pool c); simplify_eq|].
    intros s ?? <- ??.
    eapply runs_mono; [by eapply run_sblock_get|].
    intros [r b] w' (s'&?&?&Hm). exists s'. split_and!; try done;
      destruct (pool c) as [|i p] eqn:Ep; injection Hstep as <- <-;
      cbn [pool sender_held queue]; rewrite ?Ep; destruct Hm as (?&?&?); by simplify_eq.
  - case_decide as Hi; [|done]. injection Hstep as <- <-.
    apply (by_sender_refines _ _ _ c); [done|done|done|]. intros s ?? <- ??.
    eapply runs_mono; [eapply run_sblock_put; eauto using remove_perm|].
    { specialize (Hpos _ _ Hi). lia. }
    intros b w' (s'&?&?&?&?). by exists s'.
  - case_decide as Hi; [|done]. injection Hstep as <- <-.
    apply (by_sender_refines _ _ _ c); [done|done|done|]. intros s ?? <- ??.
    eapply runs_mono; [eapply run_sblock_send; eauto using remove_perm|].
    { specialize (Hpos _ _ Hi). lia. }
    intros b w' (s'&?&?&->&?&?). by exists s'.
  - apply (by_receiver_refines _ _ _ c); [done|done|by destruct (queue c); simplify_eq|].
    intros s ?? <- ??.
    eapply runs_mono; [by eapply run_sblock_receive|].
    intros [r b] w' (s'&?&?&Hm). exists s'. split_and!; try done;
      destruct (queue c) as [|p q] eqn:Ep; injection Hstep as <- <-;
      cbn [pool receiver_held queue]; rewrite ?Ep; destruct Hm as (?&?&?); by simplify_eq.
  - case_decide as Hi; [|done]. injection Hstep as <- <-.
    apply (by_receiver_refines _ _ _ c); [done|done|done|]. intros s ?? <- ??.
    eapply runs_mono; [eapply run_sblock_release; eauto using remove_perm|].
    { specialize (Hpos _ _ Hi). lia. }
    intros b w' (s'&?&?&->&?&?). by exists s'.
Qed.

(** C1: Whatever sequence of calls the two users make with blocks they hold, the
    two ends answer as the abstract channel does: the pool hands out free
    blocks, the ring delivers the sent blocks in order with their lengths, no
    call leaves the arrays, however often the 32-bit pointers wrap around,
    and afterwards every block is still in exactly one place. *)
Theorem link_refines_channel l c ops answers c' :
  link_rep n A sz vtx vrx l c →
  chan_run vtx vrx sz c ops = Some (answers, c') →
  ∃ l', link_run e vtx vrx sz l ops = Done (answers, l')
    ∧ link_rep n A sz vtx vrx l' c' ∧ conserved n c'.
Proof using He.
  revert l c answers c'. induction ops as [|o ops IH]; intros l c answers c' Hrep Hrun.
  { injection Hrun as <- <-. exists l. split; [done|]. split; [done|by destruct Hrep]. }
  cbn [chan_run] in Hrun. destruct (chan_step vtx vrx sz c o) as [[a c1]|] eqn:Estep; [|done].
  cbn in Hrun. destruct (chan_run vtx vrx sz c1 ops) as [[r c2]|] eqn:Erun; [|done].
  injection Hrun as <- <-.
  destruct (link_step_refines l c o a c1 Hrep Estep) as (l1&E1&Hrep1).
  destruct (IH l1 c1 r c2 Hrep1 Erun) as (l'&E'&Hrep').
  exists l'. split; [|done]. cbn [link_run]. rewrite E1. cbn. by rewrite E'.
Qed.
End Refinement.

(** ** Creation of a channel *)

Lemma init_pool_spec n i a sz arr wr :
  0 ≤ wr < 2 ^ 32 →
  (init_pool n (Z.of_nat i) a sz arr wr).2 = u32 (wr + Z.of_nat n)
  ∧ length (init_pool n (Z.of_nat i) a sz arr wr).1 = length arr
  ∧ ∀ j, (j < length arr)%nat →
      (init_pool n (Z.of_nat i) a sz arr wr).1 !! j
      = if decide (i ≤ j < i + n)%nat then Some (Blk (u32 (a + Z.of_nat j * sz)) sz)
        else arr !! j.
Proof.
  revert i arr wr. induction n as [|n IH]; intros i arr wr Hwr; simpl.
  { rewrite Z.add_0_r, u32_small by lia. split_and!; [done|done|].
    intros j Hj. rewrite decide_False by lia. done. }
  replace (Z.of_nat i + 1) with (Z.of_nat (S i)) by lia.
  destruct (IH (S i) (<[Z.to_nat (Z.of_nat i) := Blk (u32 (a + Z.of_nat i * sz)) sz]> arr)
              (u32 (wr + 1)) (u32_range _)) as (E1&E2&E3).
  rewrite E1, E2, length_insert, u32_add_idemp. split_and!; [f_equal; lia|done|].
  intros j Hj. rewrite E3 by (by rewrite length_insert). rewrite Nat2Z.id.
  destruct (decide (j = i)) as [->|Hne].
  - rewrite decide_False, decide_True by lia. by apply list_lookup_insert_eq.
  - rewrite list_lookup_insert_ne by done. by repeat case_decide; try lia.
Qed.

Lemma init_pool_full n a sz arr :
  length arr = n → 0 ≤ a → 0 < sz → a + Z.of_nat n * sz < 2 ^ 32 →
  init_pool n 0 a sz arr 0
  = ((λ i, stored_blk a sz (i, sz)) <$> seq 0 n, Z.of_nat n).
Proof.
  intros Hl Ha Hsz Hend.
  destruct (init_pool_spec n 0 a sz arr 0 ltac:(lia)) as (E1&E2&E3).
  change (Z.of_nat 0) with 0 in *. destruct (init_pool n 0 a sz arr 0) as [arr' wr].
  simpl in *. rewrite u32_small in E1 by nia. f_equal; [|lia].
  apply list_eq. intros j. rewrite list_lookup_fmap.
  destruct (decide (j < n)%nat) as [Hj|Hj].
  - rewrite E3, decide_True, lookup_seq_lt by lia. simpl. unfold stored_blk. simpl.
    by rewrite u32_small by nia.
  - rewrite !lookup_ge_None_2 by (rewrite ?length_seq; lia). done.
Qed.

Lemma length_fresh junk n : 0 ≤ n → length (fresh_array junk n) = Z.to_nat n.
Proof. intros. unfold fresh_array. by rewrite length_fmap, length_seqZ. Qed.

(** No block of a new channel is held. *)
Lemma fresh_record (m : nat) :
  replicate m 0 = (λ i, if decide (i ∈ []) then
    SBLOCK_BLK_STATE_PENDING else SBLOCK_BLK_STATE_DONE) <$> seq 0 m.
Proof.
  apply list_eq. intros j. rewrite list_lookup_fmap. destruct (decide (j < m)%nat).
  - by rewrite lookup_replicate_2, lookup_seq_lt by done.
  - by rewrite !lookup_ge_None_2 by (rewrite ?length_seq, ?length_replicate; lia).
Qed.

(** The pool and the ring of a new channel. *)
Lemma fresh_halves n k A sz junk (pl rg : half) :
  0 ≤ k ≤ 31 → Z.of_nat n = 2 ^ k →
  rd_p pl = 0 → wt_p pl = Z.of_nat n →
  h_blks pl = (λ i, stored_blk A sz (i, sz)) <$> seq 0 n →
  rd_p rg = 0 → wt_p rg = 0 → h_blks rg = fresh_array junk (Z.of_nat n) →
  halves_rep n A sz pl rg (seq 0 n) [].
Proof.
  intros Hk Hn E1 E2 E3 E4 E5 E6. split; rewrite ?E1, ?E2, ?E3, ?E4, ?E5, ?E6.
  - apply (rep_full_intro _ k); [done|done|]. by rewrite length_fmap, length_seq.
  - apply (rep_empty_intro _ k); [done|done|lia|]. rewrite length_fresh; lia.
Qed.

(** Arrays at different addresses are found. *)
Lemma layout_arrays hd1 hd2 b1 b2 b3 b4 l1 l2 l3 l4 :
  b1 < b3 → b2 < b3 →
  let m := Shm hd1 hd2 [(b1, l1); (b2, l2); (b3, l3); (b4, l4)] in
  array_at m b1 = l1 ∧ array_at m b3 = l3.
Proof.
  intros H1 H2 m. unfold m, array_at. simpl. split.
  - by rewrite filter_cons_True.
  - rewrite !filter_cons_False by (simpl; lia). by rewrite filter_cons_True.
Qed.

(** All allocations, mappings and the resource request succeed. *)
Definition plentiful (r : resources) : Prop :=
  smem_alloc r ≠ 0 ∧ vmap1 r ≠ 0 ∧ vmap2 r ≠ 0 ∧ kcalloc_tx r = true ∧ kcalloc_rx r = true
  ∧ 0 ≤ pms_request r.

(** C2: A channel made by the host's and the client's initialisation, once both are
    ready, is a channel with all blocks free: with the block count a power of
    two and the whole area below 4 GB, the two ends agree on the layout of the
    shared memory. *)
Theorem init_link_rep align junk smem_base dst_base res res' txnum txsize rxnum rxsize k :
  plentiful res → plentiful res' →
  0 ≤ k ≤ 31 → txnum = 2 ^ k → 0 < rxnum →
  let tsz := ALIGN txsize align in
  let rsz := ALIGN rxsize align in
  let stored := u32 (smem_alloc res - smem_base + dst_base) in
  0 < tsz → 0 ≤ rsz →
  stored + SIZEOF_HEADER + (txnum * tsz + rxnum * rsz) + 2 * SIZEOF_BLKS * (txnum + rxnum)
    < 2 ^ 32 →
  ∃ s mem c,
    sblock_host_init align junk smem_base dst_base res txnum txsize rxnum rxsize
      = (0, Some (s, mem), [])
    ∧ sblock_client_init stored mem res' = (0, Some c, [])
    ∧ ∀ w w',
      link_rep (Z.to_nat txnum) (stored + SIZEOF_HEADER) tsz
        (txblk_virt (ring s)) (rxblk_virt (ring c))
        (Link (World (Some (set_state SBLOCK_STATE_READY s)) (events w) (tx_pms w) (rx_pms w))
           (World (Some (set_state SBLOCK_STATE_READY c)) (events w') (tx_pms w') (rx_pms w')))
        (Chan (seq 0 (Z.to_nat txnum)) [] [] []).
Proof.
  intros (H1&H2&H3&H4&H5&H6) (H1'&H2'&H3'&H4'&H5'&H6') Hk Htx Hrx tsz rsz stored Htsz Hrsz Hend.
  assert (Hpos : 0 < txnum) by (subst txnum; apply Z.pow_pos_nonneg; lia).
  assert (Hst : 0 ≤ stored) by apply u32_range.
  assert (Hm : 0 ≤ rxnum * rsz) by nia. assert (Hm' : 0 < txnum * tsz) by nia.
  unfold SIZEOF_HEADER, SIZEOF_BLKS in *.
  unfold sblock_host_init. rewrite (proj2 (Z.eqb_neq _ 0) H1), (proj2 (Z.eqb_neq _ 0) H2), H4, H5.
  rewrite (proj2 (Z.ltb_ge _ _) H6). cbn [negb]. unfold SIZEOF_HEADER, SIZEOF_BLKS.
  fold tsz rsz stored.
  rewrite !(u32_small (stored + 96)) by lia.
  set (b1 := stored + 96 + (txnum * tsz + rxnum * rsz)) in *.
  rewrite !(u32_small b1) by (subst b1; lia).
  rewrite !(u32_small (b1 + txnum * 8)) by (subst b1; lia).
  set (b2 := b1 + txnum * 8) in *.
  rewrite !(u32_small (b2 + rxnum * 8)) by (subst b1 b2; lia).
  set (b3 := b2 + rxnum * 8) in *.
  rewrite !(u32_small (b3 + txnum * 8)) by (subst b1 b2 b3; lia).
  set (b4 := b3 + txnum * 8) in *.
  rewrite (init_pool_full (Z.to_nat txnum)); [|apply length_fresh; lia|lia|done|lia].
  destruct (init_pool (Z.to_nat rxnum) _ _ _ _ _) as [p_rxarr p_rxwr].
  eexists _, _, _. split; [reflexivity|].
  unfold sblock_client_init. cbn [ringhd poolhd rxblk_count rxblk_size txblk_count txblk_size].
  rewrite (proj2 (Z.eqb_neq _ 0) H1'), (proj2 (Z.eqb_neq _ 0) H2'),
    (proj2 (Z.eqb_neq _ 0) H3'), H4', H5', (proj2 (Z.ltb_ge _ _) H6'). cbn [negb].
  split; [reflexivity|].
  intros w w'.
  assert (Hvirt : u32 (stored + 96 - stored) = 96)
    by (replace (stored + 96 - stored) with 96 by lia; by apply u32_small).
  assert (Hhalves := fresh_halves (Z.to_nat txnum) k (stored + 96) tsz junk).
  rewrite Z2Nat.id in Hhalves by lia.
  split.
  - unfold conserved, places. simpl. by rewrite app_nil_r.
  - eexists. split; [reflexivity|]. split_and!; [done|done| |].
    + split; cbn; rewrite ?Z2Nat.id by lia; try done; try lia; apply fresh_record.
    + apply Hhalves; try done; cbn; lia.
  - eexists. split; [reflexivity|]. split_and!; [done|done| |].
    + split; cbn; rewrite ?Z2Nat.id by lia; try done; try lia; apply fresh_record.
    + apply Hhalves; try done; cbn; first [lia|apply layout_arrays; subst b1 b2 b3; lia].
Qed.

(** ** Slots and the 32-bit overflow *)

(** The slots of consecutive pointers are consecutive, also when the pointer
    overflows, exactly when the number of blocks is a power of two: with any
    other number the rings go wrong after [2^32] blocks. *)
Theorem ringpos_consecutive_iff y :
  0 < y < 2 ^ 32 →
  (∀ x p, 0 ≤ x < 2 ^ 32 → sblock_get_ringpos x y = Done p →
     sblock_get_ringpos (u32 (x + 1)) y = Done ((p + 1) mod y))
  ↔ ∃ k, 0 ≤ k ∧ y = 2 ^ k.
Proof.
  intros Hy. split.
  - intros H. destruct (is_power_of_2 y) eqn:Ep.
    + (* the mask is used only for powers of two *)
      unfold is_power_of_2 in Ep. apply andb_true_iff in Ep as [_ Ep%Z.eqb_eq].
      rewrite u32_small in Ep by lia. exists (Z.log2 y). split; [apply Z.log2_nonneg|].
      pose proof (Z.log2_spec y ltac:(lia)) as [Hlo _].
      apply Z.le_antisymm; [|done]. apply Z.nlt_ge. intros Hlt.
      pose proof (Z.log2_nonneg y).
      assert (Hl : Z.log2 (y - 1) = Z.log2 y).
      { apply Z.log2_unique; [done|]. pose proof (Z.log2_spec y ltac:(lia)). lia. }
      assert (Z.testbit (y &' (y - 1)) (Z.log2 y) = true) as Hb.
      { rewrite Z.land_spec, Z.bit_log2 by lia. rewrite <- Hl, Z.bit_log2; [done|].
        assert (0 < 2 ^ Z.log2 y) by (apply Z.pow_pos_nonneg; lia). lia. }
      rewrite Ep, Z.bits_0 in Hb. done.
    + assert (Hpos : ∀ x, sblock_get_ringpos x y = Done (x mod y)).
      { intros x. unfold sblock_get_ringpos. rewrite Ep.
        by rewrite (proj2 (Z.eqb_neq y 0)) by lia. }
      specialize (H (2 ^ 32 - 1) _ ltac:(lia) (Hpos _)). rewrite Hpos in H.
      injection H as H. replace (2 ^ 32 - 1 + 1) with (2 ^ 32) in H by lia.
      change (u32 (2 ^ 32)) with 0 in H. rewrite Zmod_0_l, Zplus_mod_idemp_l in H.
      replace (2 ^ 32 - 1 + 1) with (2 ^ 32) in H by lia.
      destruct (Zpow_facts.Zdivide_power_2 y 2 32) as [m ->];
        [lia|lia|apply Znumtheory.prime_alt, Z.prime_2|apply Z.mod_divide; lia|].
      exists m. split; [|done]. apply Z.nlt_ge. intros Hm.
      rewrite Z.pow_neg_r in Hy; lia.
  - intros (k&Hk&->) x p Hx Hp.
    assert (k ≤ 31).
    { apply Z.nlt_ge. intros Hlt. assert (2 ^ 32 ≤ 2 ^ k) by (apply Z.pow_le_mono_r; lia). lia. }
    assert (Hpos : ∀ x, sblock_get_ringpos x (2 ^ k) = Done (x mod 2 ^ k)).
    { intros x'. unfold sblock_get_ringpos, is_power_of_2. rewrite !pow2_mask by lia.
      rewrite Z.mod_same by lia. by rewrite (proj2 (Z.eqb_neq _ 0)) by lia. }
    rewrite Hpos in *. injection Hp as <-.
    by rewrite u32_mod_pow2, Zplus_mod_idemp_l by lia.
Qed.

(** ** A channel of two blocks *)

(** Two blocks of 64 bytes in each direction, in local memory; the addresses
    are arbitrary. *)
Definition res_ex : resources := Resources 4096 65536 131072 true true 0.
Definition env_ex : env := Env true true 0 0 0 [].
Definition host_ex := sblock_host_init 64 (λ i, Blk i 0) 0 0 res_ex 2 64 2 64.
Definition client_ex : Z * option sblock_mgr * list freed :=
  match host_ex with
  | (_, Some (_, mem), _) => sblock_client_init 4096 mem res_ex
  | _ => (0, None, [])
  end.
Definition up (s : sblock_mgr) : world :=
  World (Some (set_state SBLOCK_STATE_READY s)) [] 0 0.
Definition link_ex : option link :=
  match host_ex, client_ex with
  | (_, Some (s, _), _), (_, Some c, _) => Some (Link (up s) (up c))
  | _, _ => None
  end.

(** ** The theorems at concrete channels *)

Definition fresh_ex : link :=
  match link_ex with Some l => l | None => Link (World None [] 0 0) (World None [] 0 0) end.

Lemma good_env_ex : good_env env_ex.
Proof. split_and!; [done|done|by left]. Qed.

Lemma fresh_halves_ex pl rg :
  rd_p pl = 0 → wt_p pl = 2 → h_blks pl = [Blk 4192 64; Blk 4256 64] →
  rd_p rg = 0 → wt_p rg = 0 → length (h_blks rg) = 2%nat →
  halves_rep 2 4192 64 pl rg [0%nat; 1%nat] [].
Proof.
  intros E1 E2 E3 E4 E5 E6. split; rewrite ?E1, ?E2, ?E3, ?E4, ?E5.
  - by apply (rep_full_intro _ 1).
  - apply (rep_empty_intro _ 1); [done|done|done|lia].
Qed.

Lemma fresh_rep_ex : link_rep 2 4192 64 65632 131168 fresh_ex (Chan [0%nat; 1%nat] [] [] []).
Proof.
  split; [unfold conserved; reflexivity|..]; (eexists; split; [reflexivity|]; split; [reflexivity|];
    split; [reflexivity|]; split; [by split|by apply fresh_halves_ex]).
Qed.

Lemma link_refines_channel_witness :
  ∃ l', link_run env_ex 65632 131168 64 fresh_ex [Get; Send 0 10; Receive; Release 0; Get]
        = Done ([ABlk 0 (Some (Blk 65632 64)); AVal 0; ABlk 0 (Some (Blk 131168 10)); AVal 0;
                 ABlk 0 (Some (Blk 65696 64))], l')
    ∧ link_rep 2 4192 64 65632 131168 l' (Chan [0%nat] [1%nat] [] [])
    ∧ conserved 2 (Chan [0%nat] [1%nat] [] []).
Proof.
  apply (link_refines_channel env_ex 2 4192 64 65632 131168 good_env_ex fresh_ex
           (Chan [0%nat; 1%nat] [] [] [])); [exact fresh_rep_ex|reflexivity].
Defined.

Lemma init_link_rep_witness :
  ∃ s mem c,
    sblock_host_init 64 (λ i, Blk i 0) 0 0 res_ex 2 50 2 50 = (0, Some (s, mem), [])
    ∧ sblock_client_init 4096 mem res_ex = (0, Some c, [])
    ∧ ∀ w w',
      link_rep 2 4192 64 (txblk_virt (ring s)) (rxblk_virt (ring c))
        (Link (World (Some (set_state SBLOCK_STATE_READY s)) (events w) (tx_pms w) (rx_pms w))
           (World (Some (set_state SBLOCK_STATE_READY c)) (events w') (tx_pms w') (rx_pms w')))
        (Chan (seq 0 2) [] [] []).
Proof.
  apply (init_link_rep 64 (λ i, Blk i 0) 0 0 res_ex res_ex 2 50 2 50 1);
    vm_compute; try split_and!; try done; lia.
Defined.

Lemma ringpos_consecutive_iff_witness :
  (∀ x p, 0 ≤ x < 2 ^ 32 → sblock_get_ringpos x 8 = Done p →
     sblock_get_ringpos (u32 (x + 1)) 8 = Done ((p + 1) mod 8))
  ↔ ∃ k, 0 ≤ k ∧ 8 = 2 ^ k.
Proof. apply (ringpos_consecutive_iff 8). lia. Defined.
