(* ===== verification/SblockRecover.v ===== *)
(** * Waiting, recovery and resources of a block channel

    What [sblock_get] does while its pool is empty, what [sblock_recover] leaves
    behind, and how often the operations of [Sblock] hold the memory resource. *)

From S2P Require Import Prelude Ring Kernel Sblock SblockLink.

#[local] Open Scope Z_scope.
#[local] Open Scope c_scope.

(** ** Waiting for a block *)

(** A world in which the channel is down and the pool still empty. *)
Definition idle_empty (w : world) : Prop :=
  is_idle w = true ∧ ∃ s, sblocks w = Some s ∧ rd_p (p_tx (ring s)) = wt_p (p_tx (ring s)).

Lemma idle_no_data e w :
  local e = true → idle_empty w → has_data_now e true w = false ∧ is_idle w = true.
Proof.
  intros He (Hi&s&Hs&Hrd). split; [|done]. unfold has_data_now, sblock_has_data.
  by rewrite Hs, He, Hrd, Z.eqb_refl.
Qed.

Lemma default_last_cons {B} (d d' x : B) l : default d (last (x :: l)) = default d' (last (x :: l)).
Proof. by destruct (last (x :: l)) eqn:E; [|apply last_None in E]. Qed.

Lemma timed_wait_runs_out e ws w :
  local e = true → has_data_now e true w = false → Forall idle_empty ws →
  wait_event_interruptible_timeout (λ w, has_data_now e true w || false)
    (Wake <$> ws) (length ws) w = Done (0, default w (last ws)).
Proof.
  intros He Hw Hws. revert w Hw. induction Hws as [|w' ws Hw' Hws IH]; intros w Hw.
  - simpl. by rewrite Hw.
  - destruct (idle_no_data e w' He Hw') as [Hd _]. cbn [fmap list_fmap length
      wait_event_interruptible_timeout]. rewrite Hw. cbn [orb].
    rewrite (IH w' Hd). destruct ws as [|w2 ws]; [done|].
    by rewrite (default_last_cons w' w).
Qed.

Lemma last_of_cons {B} (d x : B) l : default d (last (x :: l)) = default x (last l).
Proof. destruct l as [|y l]; [done|]. apply (default_last_cons d x y l). Qed.

(** The world in which a caller of [sblock_get] with an empty pool waits. *)
Definition waiting (s : sblock_mgr) (w : world) : world :=
  World (Some (on_ring (on_poll_mask (set_mask TX_MASK true)) s))
    (events w) (tx_pms w) (rx_pms w).

(** A wait that ends in a world where the channel is down gives [-EIO]. *)
Lemma get_waits e s w t wl :
  valid e = true → local e = true → sblocks w = Some s → state s = SBLOCK_STATE_READY →
  rd_p (p_tx (ring s)) = wt_p (p_tx (ring s)) →
  t ≠ 0 → is_idle wl = true →
  (t < 0 ∧ wait_event_interruptible
             (λ w, has_data_now e true w || is_idle w) (history e) (waiting s w) = Done (0, wl))
  ∨ (0 < t ∧ wait_event_interruptible_timeout
             (λ w, has_data_now e true w || false) (history e) (Z.to_nat t) (waiting s w)
           = Done (0, wl)) →
  sblock_get e t w = Done ((- EIO, None), wl).
Proof.
  intros Hv Hl Hs Hst Hrd Ht Hwl Hwait. apply runs_done. unfold sblock_get.
  rewrite Hv. cbn [negb].
  apply runs_bind, runs_get. rewrite Hs, Hst. cbn [negb Z.eqb SBLOCK_STATE_READY Pos.eqb].
  apply runs_bind. eapply runs_exact; [by unfold request_tx; rewrite Hl|].
  cbn [Z.ltb Z.compare]. rewrite Hrd, Z.eqb_refl.
  apply runs_bind. eapply (runs_exact _ _ _ (waiting s w)); [by unfold upd_mgr; rewrite Hs|].
  apply runs_bind. eapply runs_exact; [by unfold release_tx; rewrite Hl|].
  apply runs_bind. cbn [negb]. rewrite (proj2 (Z.eqb_neq t 0)) by done.
  destruct Hwait as [[Hneg Hwait]|[Hp Hwait]].
  - rewrite (proj2 (Z.ltb_lt t 0)) by done.
    apply runs_bind. eapply runs_exact; [exact Hwait|].
    apply runs_bind, runs_get, runs_ret. rewrite Hwl. by apply runs_ret.
  - rewrite (proj2 (Z.ltb_ge t 0)) by lia.
    apply runs_bind. eapply runs_exact; [exact Hwait|]. cbn beta zeta.
    apply runs_bind, runs_get, runs_ret. rewrite Hwl. by apply runs_ret.
Qed.

(** When the channel goes down while a caller waits for a block, a wait without
    time limit ends at once, but a timed wait goes on until its time is up: its
    condition compares the channel's pointer, not its state, with
    [SBLOCK_STATE_IDLE].  Both then answer [-EIO]. *)
Theorem timed_get_ignores_idle e s w w1 ws :
  valid e = true → local e = true → history e = Wake <$> w1 :: ws →
  sblocks w = Some s → state s = SBLOCK_STATE_READY →
  rd_p (p_tx (ring s)) = wt_p (p_tx (ring s)) →
  Forall idle_empty (w1 :: ws) →
  sblock_get e (-1) w = Done ((- EIO, None), w1)
  ∧ sblock_get e (Z.of_nat (length (w1 :: ws))) w
    = Done ((- EIO, None), default w1 (last ws)).
Proof.
  intros Hv Hl Hh Hs Hst Hrd Hws. pose proof (Forall_inv Hws) as Hw1.
  destruct (idle_no_data e w1 Hl Hw1) as [Hd1 Hi1].
  set (w0 := waiting s w).
  assert (Hd0 : has_data_now e true w0 = false).
  { unfold has_data_now, sblock_has_data. simpl. by rewrite Hl, Hrd, Z.eqb_refl. }
  assert (Hi0 : is_idle w0 = false) by (unfold is_idle; simpl; by rewrite Hst).
  split.
  - apply (get_waits e s); try done. left. split; [done|]. rewrite Hh. fold w0.
    rewrite fmap_cons. cbn [wait_event_interruptible]. rewrite Hd0, Hi0. cbn [orb].
    destruct (Wake <$> ws); cbn [wait_event_interruptible]; by rewrite Hi1, orb_true_r.
  - pose proof (timed_wait_runs_out e (w1 :: ws) w0 Hl Hd0 Hws) as Ht.
    rewrite (last_of_cons w0 w1) in Ht. rewrite <- Hh in Ht.
    apply (get_waits e s); try done; [|right; rewrite Nat2Z.id; split; [simpl; lia|exact Ht]].
    destruct (last ws) as [wl|] eqn:El; [|done].
    apply last_Some_elem_of in El. rewrite Forall_forall in Hws.
    apply (Hws wl). by apply elem_of_cons; right.
Qed.

(** ** Recovery *)

(** With all blocks recorded as done the loop fills the pool like the
    initialisation does. *)
Lemma refill_all n i record sz h :
  (i + n ≤ length (h_blks h))%nat → (i + n ≤ length record)%nat →
  Forall (λ st, st = SBLOCK_BLK_STATE_DONE) record →
  refill n (Z.of_nat i) (Z.of_nat i) record sz h
  = Done (let '(arr, wt) := init_pool n (Z.of_nat i) (h_addr h) sz (h_blks h) (wt_p h) in
          set_wt wt (set_blks arr h)).
Proof.
  intros Hl Hr Hall. revert i h Hl Hr. induction n as [|n IH]; intros i h Hl Hr.
  { by destruct h. }
  simpl. rewrite Nat2Z.id.
  destruct (lookup_lt_is_Some_2 record i ltac:(lia)) as [st Hst].
  rewrite Hst. rewrite Forall_lookup in Hall. rewrite (Hall _ _ Hst). cbn [Z.eqb SBLOCK_BLK_STATE_DONE].
  rewrite (proj2 (Z.ltb_lt _ _)) by lia.
  replace (Z.of_nat i + 1) with (Z.of_nat (S i)) by lia.
  rewrite IH by (simpl; rewrite ?length_insert; lia).
  simpl. rewrite (Z.add_comm (h_addr h)).
  by destruct (init_pool _ _ _ _ _ _).
Qed.

Section Recover.
Context (e : env) (He : good_env e).

(** The pool that recovery builds, read from the pointer it starts at. *)
Lemma refill_rep n A sz h rg rec rd s virt blksz :
  geometry n A sz s h rg virt blksz rec [] →
  (∃ k, 0 ≤ k ≤ 31 ∧ Z.of_nat n = 2 ^ k) → 0 ≤ rd < 2 ^ 32 →
  Z.of_nat (length (h_blks h)) = Z.of_nat n →
  ∃ h', refill (Z.to_nat (h_count h)) 0 0 rec blksz (set_rd rd (set_wt rd h)) = Done h'
    ∧ h_count h' = h_count h ∧ h_addr h' = h_addr h ∧ h_size h' = h_size h
    ∧ ring_rep (Z.of_nat n) (rd_p h') (wt_p h') (h_blks h')
        ((λ i, stored_blk A sz (i, sz)) <$> rotate (Z.to_nat (rd mod Z.of_nat n)) (seq 0 n)).
Proof.
  intros [Ec _ Ea Es Eb Hpos Hst Hend _ Erec] (k&Hk&Hn) Hrd Hl. rewrite Ec, Nat2Z.id, Eb.
  assert (Hdone : Forall (λ st, st = SBLOCK_BLK_STATE_DONE) rec).
  { subst rec. apply Forall_fmap, Forall_true. intros j. done. }
  assert (Hlr : length rec = n) by (by subst rec; rewrite length_fmap, length_seq).
  pose proof (refill_all n 0 rec sz (set_rd rd (set_wt rd h)) ltac:(simpl; lia)
                ltac:(lia) Hdone) as Hrefill.
  change (Z.of_nat 0) with 0 in Hrefill. rewrite Hrefill. simpl.
  pose proof (init_pool_spec n 0 (h_addr h) sz (h_blks h) rd Hrd) as (E1&E2&E3).
  change (Z.of_nat 0) with 0 in *.
  destruct (init_pool n 0 (h_addr h) sz (h_blks h) rd) as [arr wt]. simpl in *.
  eexists. split; [reflexivity|]. simpl. split_and!; [done..|].
  assert (Harr : arr = (λ i, stored_blk A sz (i, sz)) <$> seq 0 n).
  { apply list_eq. intros j. rewrite list_lookup_fmap. destruct (decide (j < n)%nat).
    - rewrite E3, decide_True, lookup_seq_lt by lia. simpl. unfold stored_blk. simpl.
      by rewrite Ea, u32_small by nia.
    - by rewrite !lookup_ge_None_2 by (rewrite ?length_seq; lia). }
  rewrite E1. replace (_ <$> rotate _ _) with (rotate (Z.to_nat (rd mod Z.of_nat n)) arr)
    by (subst arr; unfold rotate; by rewrite fmap_app, fmap_drop, fmap_take, length_fmap).
  eapply rep_rotate_intro; [done|done|done|lia].
Qed.
End Recover.

Lemma set_self_tx h : set_rd (wt_p h) h = set_rd (wt_p h) (set_wt (wt_p h) h).
Proof. by destruct h. Qed.
Lemma set_self_rx h : set_wt (rd_p h) h = set_rd (rd_p h) (set_wt (rd_p h) h).
Proof. by destruct h. Qed.

(** C40: The recovery of a channel none of whose blocks is held takes it down, takes
    all blocks off the rings and puts each into its pool once, from whatever
    pointers and contents the pools and rings had. *)
Theorem recover_spec e n A sz m B sz' w s p r p' r' :
  good_env e → sblocks w = Some s →
  tx_geometry n A sz s [] → rx_geometry m B sz' s [] →
  halves_rep n A sz (p_tx (ring s)) (r_tx (ring s)) p r →
  halves_rep m B sz' (p_rx (ring s)) (r_rx (ring s)) p' r' →
  runs (sblock_recover e) w (λ rval w', ∃ s', sblocks w' = Some s' ∧ rval = 0
    ∧ state s' = SBLOCK_STATE_IDLE
    ∧ tx_geometry n A sz s' [] ∧ rx_geometry m B sz' s' []
    ∧ halves_rep n A sz (p_tx (ring s')) (r_tx (ring s'))
        (rotate (Z.to_nat (wt_p (p_tx (ring s)) mod Z.of_nat n)) (seq 0 n)) []
    ∧ halves_rep m B sz' (p_rx (ring s')) (r_rx (ring s'))
        (rotate (Z.to_nat (rd_p (p_rx (ring s)) mod Z.of_nat m)) (seq 0 m)) []).
Proof.
  intros (Hv&_&Hreq) Hs Hg Hg' [Hp Hr] [Hp' Hr'].
  destruct (refill_rep _ _ _ _ _ _ (wt_p (p_tx (ring s))) _ _ _ Hg)
    as (h&Eh&Ec&Ea&Ez&Hh); [apply Hp|by eapply rep_wt_range|by eapply rep_length|].
  destruct (refill_rep _ _ _ _ _ _ (rd_p (p_rx (ring s))) _ _ _ Hg')
    as (h'&Eh'&Ec'&Ea'&Ez'&Hh'); [apply Hp'|apply Hp'|by eapply rep_length|].
  unfold sblock_recover. rewrite Hv. cbn [negb].
  apply runs_bind, runs_get. rewrite Hs.
  apply runs_bind. eapply runs_upd; [exact Hs|]. intros w1 Hw1.
  apply runs_bind, runs_request_rx; [tauto|]. intros w2 Hw2. rewrite Hw1 in Hw2.
  cbn [Z.ltb Z.compare].
  apply runs_bind. eapply runs_upd; [exact Hw2|]. intros w3 Hw3.
  rewrite set_self_tx. apply runs_bind. eapply runs_lift; [exact Eh|].
  apply runs_bind. eapply runs_upd; [exact Hw3|]. intros w4 Hw4.
  apply runs_bind. eapply runs_upd; [exact Hw4|]. intros w5 Hw5.
  rewrite set_self_rx. apply runs_bind. eapply runs_lift; [exact Eh'|].
  apply runs_bind. eapply runs_upd; [exact Hw5|]. intros w6 Hw6.
  apply runs_bind. eapply runs_upd; [exact Hw6|]. intros w7 Hw7.
  apply runs_bind, runs_release_rx. intros w8 Hw8. rewrite Hw7 in Hw8.
  apply runs_ret. eexists. split; [exact Hw8|]. split; [done|]. split; [done|].
  destruct Hg, Hg'. split; [by split; cbn; rewrite ?Ec, ?Ea, ?Ez|].
  split; [by split; cbn; rewrite ?Ec', ?Ea', ?Ez'|].
  destruct (rep_size _ _ _ _ _ Hr) as (k&Hk&Hn). destruct (rep_size _ _ _ _ _ Hr') as (k'&Hk'&Hn').
  split; (split; cbn; [done|]).
  - eapply rep_empty_intro; [exact Hk|done|apply Hr|by eapply rep_length].
  - eapply rep_empty_intro; [exact Hk'|done|by eapply rep_wt_range|by eapply rep_length].
Qed.

(** *** A channel of two blocks *)

(** Two blocks of 64 bytes in each direction, in local memory; the addresses
    are arbitrary. *)
Definition res_ex : resources := Resources 4096 65536 131072 true true 0.
Definition env_ex : env := Env true true 0 0 0 [].
Definition host_ex := sblock_host_init 64 (λ i, Blk i 0) 0 0 res_ex 2 64 2 64.
Definition client_ex : Z * option sblock_mgr * list freed :=
  match host_ex with
  | (_, Some (_, mem), _) => sblock_client_init 4096 mem res_ex
  | _ => (0, None, [])
  end.
Definition up (s : sblock_mgr) : world :=
  World (Some (set_state SBLOCK_STATE_READY s)) [] 0 0.
Definition link_ex : option link :=
  match host_ex, client_ex with
  | (_, Some (s, _), _), (_, Some c, _) => Some (Link (up s) (up c))
  | _, _ => None
  end.

Definition after_get : option (list answer * link) :=
  l ← link_ex;
  match link_run env_ex 65632 131168 64 l [Get; Send 0 64; Receive; Release 0; Get] with
  | Done r => Some r | _ => None end.
Definition recovered : option world :=
  '(_, l) ← after_get;
  match sblock_recover env_ex (sender l) with
  | Done (_, w) => Some (World (set_state SBLOCK_STATE_READY <$> sblocks w) [] 0 0)
  | _ => None end.

(** Recovery while a block is held can hand the same block out again: the pool
    is refilled from slot 0, but read from the old write pointer.  Here the
    sender holds the second block when the peer restarts, and gets it once more
    from the recovered channel. *)
Theorem recover_hands_out_held_block :
  match after_get, recovered with
  | Some (answers, _), Some w =>
    last answers = Some (ABlk 0 (Some (user_blk 65632 64 (1%nat, 64))))
    ∧ ∃ w', sblock_get env_ex 0 w = Done ((0, Some (user_blk 65632 64 (1%nat, 64))), w')
  | _, _ => False
  end.
Proof. vm_compute. split; [done|]. by eexists. Qed.

(** ** Holding the memory resource *)

(** The world [w'] holds the resources [dt] and [dr] times more than [w]. *)
Definition held_more (dt dr : Z) (w w' : world) : Prop :=
  tx_pms w' = tx_pms w + dt ∧ rx_pms w' = rx_pms w + dr.

Section Ends.
Context {A : Type}.

(** Operations that leave the resources as they are. *)
Definition keeps (m : sb A) : Prop := ∀ w, ends m w (λ _, held_more 0 0 w).

Lemma ends_keeps (m : sb A) w w0 dt dr (Φ : A → world → Prop) :
  keeps m → held_more dt dr w0 w → (∀ a w', held_more dt dr w0 w' → Φ a w') → ends m w Φ.
Proof.
  intros Hm [H1 H2] HΦ a w' E. apply HΦ. destruct (Hm w a w' E). split; lia.
Qed.
End Ends.

Lemma keeps_ret {A} (a : A) : keeps (mret a).
Proof. intros w. apply ends_ret. split; lia. Qed.
Lemma keeps_lift {A} (o : outcome A) : keeps (lift o).
Proof. intros w a w' E. unfold lift in E. destruct o; [|done..]. injection E as <- <-. split; lia. Qed.
Lemma keeps_upd f : keeps (upd_mgr f).
Proof. intros w a w' [= <- <-]. split; simpl; lia. Qed.
Lemma keeps_bind {A B} (m : sb A) (f : A → sb B) : keeps m → (∀ a, keeps (f a)) → keeps (m ≫= f).
Proof.
  intros Hm Hf w. apply ends_bind. eapply ends_keeps; [done|by split; rewrite Z.add_0_r|].
  intros a w' H. by eapply ends_keeps; [apply Hf|exact H|].
Qed.
Lemma keeps_fault {A} : keeps (λ _, @OutOfBounds (A * world)).
Proof. by intros w a w'. Qed.
Create HintDb sblock.
#[export] Hint Resolve keeps_ret keeps_lift keeps_upd keeps_fault : sblock.

Lemma keeps_check {A} (l : list A) pos : keeps (check_index l pos).
Proof. unfold check_index. destruct (_ && _); auto with sblock. Qed.
#[export] Hint Resolve keeps_check : sblock.

Lemma keeps_record_tx i v : keeps (record_tx i v).
Proof.
  intros w a w' E. unfold record_tx in E. destruct (sblocks w); [|done].
  revert E. apply (keeps_bind (check_index _ _)); auto with sblock.
Qed.
Lemma keeps_record_rx i v : keeps (record_rx i v).
Proof.
  intros w a w' E. unfold record_rx in E. destruct (sblocks w); [|done].
  revert E. apply (keeps_bind (check_index _ _)); auto with sblock.
Qed.
Lemma keeps_store sel h pos b : keeps (store sel h pos b).
Proof.
  apply keeps_bind; auto with sblock.
Qed.
Lemma keeps_load h pos : keeps (load h pos).
Proof. unfold load. destruct (_ !! _); [destruct (_ <=? _)|]; auto with sblock. Qed.
Lemma keeps_send e v : keeps (smsg_send e v).
Proof. intros w a w' [= <- <-]. split; simpl; lia. Qed.
#[export] Hint Resolve keeps_record_tx keeps_record_rx keeps_store keeps_load keeps_send
  : sblock.

Section Balance.
Context (e : env) (Hl : local e = false).
Implicit Types (w : world) (dt dr : Z).

Lemma ends_request_tx r w w0 dt dr (Φ : Z → world → Prop) :
  held_more dt dr w0 w →
  (∀ w', (r < 0 → held_more dt dr w0 w') → (0 ≤ r → held_more (dt + 1) dr w0 w') → Φ r w') →
  ends (request_tx e r) w Φ.
Proof using Hl.
  intros [H1 H2] HΦ a w' E. unfold request_tx in E. rewrite Hl in E. injection E as <- <-.
  apply HΦ; intros; destruct (Z.ltb_spec r 0); split; simpl; lia.
Qed.

Lemma ends_request_rx r w w0 dt dr (Φ : Z → world → Prop) :
  held_more dt dr w0 w →
  (∀ w', (r < 0 → held_more dt dr w0 w') → (0 ≤ r → held_more dt (dr + 1) w0 w') → Φ r w') →
  ends (request_rx e r) w Φ.
Proof using Hl.
  intros [H1 H2] HΦ a w' E. unfold request_rx in E. rewrite Hl in E. injection E as <- <-.
  apply HΦ; intros; destruct (Z.ltb_spec r 0); split; simpl; lia.
Qed.

Lemma ends_release_tx w w0 dt dr (Φ : () → world → Prop) :
  held_more (dt + 1) dr w0 w → (∀ w', held_more dt dr w0 w' → Φ () w') →
  ends (release_tx e) w Φ.
Proof using Hl.
  intros [H1 H2] HΦ a w' E. unfold release_tx in E. rewrite Hl in E. injection E as <- <-.
  apply HΦ. split; simpl; lia.
Qed.

Lemma ends_release_rx w w0 dt dr (Φ : () → world → Prop) :
  held_more dt (dr + 1) w0 w → (∀ w', held_more dt dr w0 w' → Φ () w') →
  ends (release_rx e) w Φ.
Proof using Hl.
  intros [H1 H2] HΦ a w' E. unfold release_rx in E. rewrite Hl in E. injection E as <- <-.
  apply HΦ. split; simpl; lia.
Qed.
End Balance.

Lemma held_refl w : held_more 0 0 w w.
Proof. split; lia. Qed.

(** Before an operation that gives a resource back. *)
Lemma held_less_tx w : held_more 0 0 w w → held_more (-1 + 1) 0 w w.
Proof. done. Qed.
Lemma held_less_rx w : held_more 0 0 w w → held_more 0 (-1 + 1) w w.
Proof. done. Qed.

(** One step of a balance proof: an operation that keeps the resources, a
    request, a release or a case of the code. *)
Ltac balance :=
  repeat match goal with
  | |- ends (match ?x with _ => _ end) _ _ => destruct x eqn:?
  | |- ends (_ ≫= _) _ _ => apply ends_bind
  | |- ends (λ _, OutOfBounds) _ _ => by intros ? ?
  | |- ends (mret _) _ _ => apply ends_ret
  | |- ends get_state _ _ => apply ends_get
  | E : (?r <? 0) = true, H : ?r < 0 → held_more _ _ _ _ |- _ =>
    specialize (H (proj1 (Z.ltb_lt _ _) E))
  | E : (?r <? 0) = false, H : 0 ≤ ?r → held_more _ _ _ _ |- _ =>
    specialize (H (proj1 (Z.ltb_ge _ _) E))
  | E : negb (?r =? 0) = false, H : 0 ≤ ?r → held_more _ _ _ _ |- _ =>
    specialize (H ltac:(destruct (Z.eqb_spec r 0); [lia|done]))
  | H : held_more _ _ ?w0 ?w |- ends (request_tx _ _) ?w _ =>
    eapply ends_request_tx; [done|exact H|clear H; intros ? ? ?]
  | H : held_more _ _ ?w0 ?w |- ends (request_rx _ _) ?w _ =>
    eapply ends_request_rx; [done|exact H|clear H; intros ? ? ?]
  | H : held_more _ _ ?w0 ?w |- ends (release_tx _) ?w _ =>
    eapply ends_release_tx; [done|exact H|clear H; intros ? ?]
  | H : held_more _ _ ?w0 ?w |- ends (release_rx _) ?w _ =>
    eapply ends_release_rx; [done|exact H|clear H; intros ? ?]
  | H : held_more _ _ ?w0 ?w |- ends _ ?w _ =>
    eapply ends_keeps; [solve [auto with sblock]|exact H|clear H; intros ? ? ?]
  end.

(** The counters of the remote memory's resource balance over every call that
    does not wait: [sblock_get] and [sblock_receive] keep a resource exactly
    when they hand out a block; sending, putting back and releasing a block give
    one back. *)
Theorem resource_balance e w s b y :
  local e = false → valid e = true → sblocks w = Some s → state s = SBLOCK_STATE_READY →
  ends (sblock_get e 0) w (λ r, held_more (if r.2 is Some _ then 1 else 0) 0 w)
  ∧ ends (sblock_receive e 0) w (λ r, held_more 0 (if r.2 is Some _ then 1 else 0) w)
  ∧ ends (sblock_send_ex e b y) w (λ _, held_more (-1) 0 w)
  ∧ ends (sblock_put e b) w (λ _, held_more (-1) 0 w)
  ∧ ends (sblock_release e b) w (λ _, held_more 0 (-1) w).
Proof.
  intros Hl Hv Hs Hst. pose proof (held_refl w) as H0.
  split_and!.
  - unfold sblock_get. rewrite Hv. cbn [negb Z.eqb]. balance; done.
  - unfold sblock_receive. rewrite Hv. cbn [negb Z.eqb]. balance; done.
  - apply (held_less_tx) in H0. unfold sblock_send_ex. rewrite Hv. cbn [negb].
    apply ends_bind, ends_get. rewrite Hs, Hst. cbn [negb Z.eqb SBLOCK_STATE_READY Pos.eqb].
    balance; done.
  - apply (held_less_tx) in H0. unfold sblock_put. rewrite Hv. cbn [negb].
    apply ends_bind, ends_get. rewrite Hs. balance; done.
  - apply (held_less_rx) in H0. unfold sblock_release. rewrite Hv. cbn [negb].
    apply ends_bind, ends_get. rewrite Hs, Hst. cbn [negb Z.eqb SBLOCK_STATE_READY Pos.eqb].
    balance; done.
Qed.

(** ** The theorems at concrete channels *)

Definition sender_ex : sblock_mgr :=
  match sblocks (sender fresh_ex) with
  | Some s => s
  | None => SblockMgr 0 0 0 0 0 (SblockRing (Half 0 0 0 0 0 []) (Half 0 0 0 0 0 [])
              (Half 0 0 0 0 0 []) (Half 0 0 0 0 0 []) 0 0 0 [] [] 0)
  end.

(** A channel whose pool is used up; it goes down while a caller waits. *)
Definition used_up : sblock_mgr := on_ring (on_p_tx (set_rd 2)) sender_ex.
Definition downed : world := World (Some (set_state SBLOCK_STATE_IDLE used_up)) [] 0 0.

Lemma timed_get_ignores_idle_witness :
  let e := Env true true 0 0 0 (Wake <$> [downed; downed; downed]) in
  let w := World (Some used_up) [] 0 0 in
  sblock_get e (-1) w = Done ((- EIO, None), downed)
  ∧ sblock_get e 3 w = Done ((- EIO, None), downed).
Proof.
  intros e w. assert (Hd : idle_empty downed) by (split; [reflexivity|by eexists]).
  apply (timed_get_ignores_idle e used_up w downed [downed; downed]);
    [reflexivity..|by repeat apply Forall_cons_2].
Defined.

Lemma recover_spec_witness :
  runs (sblock_recover env_ex) (sender fresh_ex) (λ rval w', ∃ s', sblocks w' = Some s' ∧ rval = 0
    ∧ state s' = SBLOCK_STATE_IDLE
    ∧ tx_geometry 2 4192 64 s' [] ∧ rx_geometry 2 4320 64 s' []
    ∧ halves_rep 2 4192 64 (p_tx (ring s')) (r_tx (ring s')) [0%nat; 1%nat] []
    ∧ halves_rep 2 4320 64 (p_rx (ring s')) (r_rx (ring s')) [0%nat; 1%nat] []).
Proof.
  apply (recover_spec env_ex 2 4192 64 2 4320 64 (sender fresh_ex) sender_ex
           [0%nat; 1%nat] [] [0%nat; 1%nat] []);
    [exact good_env_ex|reflexivity|by split|by split|by apply fresh_halves_ex|].
  split; [by apply (rep_full_intro _ 1)|apply (rep_empty_intro _ 1); done].
Defined.

Lemma resource_balance_witness :
  let e := Env true false 0 0 0 [] in
  let w := sender fresh_ex in
  let b := Blk 65632 64 in
  ends (sblock_get e 0) w (λ r, held_more (if r.2 is Some _ then 1 else 0) 0 w)
  ∧ ends (sblock_receive e 0) w (λ r, held_more 0 (if r.2 is Some _ then 1 else 0) w)
  ∧ ends (sblock_send_ex e b true) w (λ _, held_more (-1) 0 w)
  ∧ ends (sblock_put e b) w (λ _, held_more (-1) 0 w)
  ∧ ends (sblock_release e b) w (λ _, held_more 0 (-1) w).
Proof. intros e w b. by eapply (resource_balance e w). Defined.
