(* ===== verification/Smsg.v ===== *)
(** * Short messages between two processors

    Model of [src/drivers/quectel-sprd-pcie/src/sipc/smsg.c] with the data of
    [sipc_priv.h] and [include/sipc.h]: messages of eight bytes go through two
    rings of a shared memory page; the interrupt handler sorts the arrived ones
    into a cache per channel, from which [smsg_recv] takes them.

    The state is that of one destination ([smsg_ipcs[dst]]).  Code under a lock,
    the interrupt handler, and the code between two waits are one step; what
    other contexts do during a wait is given by its history.  Channel objects
    live in a heap: a pointer is an index, [None] an object that was freed, and
    following a freed pointer is [OutOfBounds].  Left out: the mailbox variant
    ([CONFIG_SPRD_MAILBOX]), wake locks, the kernel's log and debugfs. *)

From S2P Require Import Prelude Ring Kernel.

#[local] Open Scope Z_scope.
#[local] Open Scope c_scope.

(** ** Data *)

(** [struct smsg] *)
Record smsg := Smsg { channel : Z; type : Z; flag : Z; value : Z }.

#[export] Instance smsg_eq_dec : EqDecision smsg.
Proof. solve_decision. Defined.

(** The channels of [sipc_cfg], in its order. *)
Definition sipc_cfg : list Z :=
  [0; 1; 22; 100; 23; 4; 5; 21; 6; 7; 8; 9; 18; 19; 20; 24; 25; 26; 27; 28; 29; 30; 31;
   10; 11; 12; 13; 130; 14; 15; 16; 17; 131; 2; 3; 151; 41; 120; 40].

Definition SMSG_CH_CTRL : Z := 0.
Definition SMSG_CH_NR : Z := 255.
Definition INVALID_CHANEL_INDEX : Z := SMSG_CH_NR.
Definition SMSG_VALID_CH_NR : Z := Z.of_nat (length sipc_cfg).

Definition SMSG_TYPE_NONE : Z := 0.
Definition SMSG_TYPE_OPEN : Z := 1.
Definition SMSG_TYPE_CLOSE : Z := 2.
Definition SMSG_TYPE_EVENT : Z := 4.
Definition SMSG_TYPE_CMD : Z := 5.
Definition SMSG_TYPE_DONE : Z := 6.
Definition SMSG_TYPE_DIE : Z := 12.
Definition SMSG_TYPE_NR : Z := 17.
Definition SMSG_OPEN_MAGIC : Z := 0xBEEE.
Definition SMSG_CLOSE_MAGIC : Z := 0xEDDD.

Definition CHAN_STATE_UNUSED : Z := 0.
Definition CHAN_STATE_CLIENT_OPENED : Z := 1.
Definition CHAN_STATE_HOST_OPENED : Z := 2.
Definition CHAN_STATE_OPENED : Z := 3.
Definition CHAN_STATE_FREE : Z := 4.

Definition SMSG_CACHE_NR : Z := 256.
Definition SMSG_TXBUF_SIZE : Z := 1024.
Definition SMSG_RXBUF_SIZE : Z := 1024.
Definition SIZEOF_SMSG : Z := 8.

(** [struct smsg_channel]: the receivers' mutex and the message cache. *)
Record smsg_channel := SmsgChannel {
  rxlock : bool;
  wrptr : Z; rdptr : Z;
  caches : list smsg;
}.

(** A message ring of the shared page: pointers and slots. *)
Record sring := Sring { sr_rd : Z; sr_wr : Z; sr_slots : list smsg }.

(** The page at [ring_base]: the rings at [SMSG_TXBUF_ADDR] and
    [SMSG_RXBUF_ADDR], named as the host sees them. *)
Record page := Page { txbuf : sring; rxbuf : sring }.

(** [struct smsg_ipc].  [txbuf_addr], [txbuf_rdptr] and [txbuf_wrptr] point at
    the page's first ring on the host and at its second one on a client, and
    the other way round for the receiving side. *)
Record smsg_ipc := SmsgIpc {
  client : bool;
  ring_base : Z;
  txbuf_size : Z; rxbuf_size : Z;
  channels : list (option nat);
  busy : list Z;
  states : list Z;
}.

(** The shared page, the entry of [smsg_ipcs], the heap of channel objects, the
    messages for which an interrupt was triggered (latest first), the resource
    requests and power-management sources that are held, and
    [g_wakeup_flag]. *)
Record world := World {
  mem : page;
  ipc : option smsg_ipc;
  heap : list (option smsg_channel);
  irqs : list smsg;
  held : Z; sources : Z;
  wakeup : Z;
}.

Abbreviation sm := (stm world).

(** ** Access to the state *)

Definition upd_mem (f : page → page) : sm () := modify (λ w,
  World (f (mem w)) (ipc w) (heap w) (irqs w) (held w) (sources w) (wakeup w)).
Definition upd_ipc (f : smsg_ipc → smsg_ipc) : sm () := modify (λ w,
  World (mem w) (f <$> ipc w) (heap w) (irqs w) (held w) (sources w) (wakeup w)).
Definition upd_heap (f : list (option smsg_channel) → list (option smsg_channel)) : sm () :=
  modify (λ w,
  World (mem w) (ipc w) (f (heap w)) (irqs w) (held w) (sources w) (wakeup w)).
Definition upd_held (d : Z) : sm () := modify (λ w,
  World (mem w) (ipc w) (heap w) (irqs w) (held w + d) (sources w) (wakeup w)).
Definition upd_sources (d : Z) : sm () := modify (λ w,
  World (mem w) (ipc w) (heap w) (irqs w) (held w) (sources w + d) (wakeup w)).
Definition set_wakeup (v : Z) : sm () := modify (λ w,
  World (mem w) (ipc w) (heap w) (irqs w) (held w) (sources w) v).
Definition txirq_trigger (m : smsg) : sm () := modify (λ w,
  World (mem w) (ipc w) (heap w) (m :: irqs w) (held w) (sources w) (wakeup w)).

Definition on_channels (f : list (option nat) → list (option nat)) (i : smsg_ipc) : smsg_ipc :=
  SmsgIpc (client i) (ring_base i) (txbuf_size i) (rxbuf_size i) (f (channels i)) (busy i)
    (states i).
Definition on_busy (f : list Z → list Z) (i : smsg_ipc) : smsg_ipc :=
  SmsgIpc (client i) (ring_base i) (txbuf_size i) (rxbuf_size i) (channels i) (f (busy i))
    (states i).
Definition on_states (f : list Z → list Z) (i : smsg_ipc) : smsg_ipc :=
  SmsgIpc (client i) (ring_base i) (txbuf_size i) (rxbuf_size i) (channels i) (busy i)
    (f (states i)).

(** The rings as one side sees them. *)
Definition tx_ring (i : smsg_ipc) (p : page) : sring := if client i then rxbuf p else txbuf p.
Definition rx_ring (i : smsg_ipc) (p : page) : sring := if client i then txbuf p else rxbuf p.
Definition set_tx_ring (i : smsg_ipc) (r : sring) (p : page) : page :=
  if client i then Page (txbuf p) r else Page r (rxbuf p).
Definition set_rx_ring (i : smsg_ipc) (r : sring) (p : page) : page :=
  if client i then Page r (rxbuf p) else Page (txbuf p) r.

(** [*p] of a pointer that may be null or freed. *)
Definition the_ipc : sm smsg_ipc := λ w,
  match ipc w with Some i => Done (i, w) | None => OutOfBounds end.
Definition deref (p : nat) : sm smsg_channel := λ w,
  match heap w !! p with Some (Some ch) => Done (ch, w) | _ => OutOfBounds end.
Definition write_channel (p : nat) (ch : smsg_channel) : sm () :=
  _ ← deref p; upd_heap <[p := Some ch]>.

(** [arr[idx]]: an array of [smsg_ipc] read at an index. *)
Definition read_at {A} (f : smsg_ipc → list A) (idx : Z) : sm A :=
  i ← the_ipc;
  match f i !! Z.to_nat idx with
  | Some x => if 0 <=? idx then mret x else fault
  | None => fault
  end.

Definition set_channel (idx : Z) (c : option nat) : sm () :=
  _ ← read_at channels idx; upd_ipc (on_channels <[Z.to_nat idx := c]>).
Definition set_state (idx v : Z) : sm () :=
  _ ← read_at states idx; upd_ipc (on_states <[Z.to_nat idx := v]>).
(** [atomic_set], [atomic_inc] and [atomic_dec] of a busy counter. *)
Definition set_busy (idx v : Z) : sm () :=
  _ ← read_at busy idx; upd_ipc (on_busy <[Z.to_nat idx := v]>).
Definition add_busy (idx d : Z) : sm () :=
  b ← read_at busy idx; set_busy idx (b + d).

(** [kzalloc] and [kfree] of a channel. *)
Definition new_channel : smsg_channel :=
  SmsgChannel false 0 0 (replicate (Z.to_nat SMSG_CACHE_NR) (Smsg 0 0 0 0)).
Definition kzalloc : sm nat := λ w,
  Done (length (heap w),
    World (mem w) (ipc w) (heap w ++ [Some new_channel]) (irqs w) (held w) (sources w) (wakeup w)).
Definition kfree (p : nat) : sm () := _ ← deref p; upd_heap <[p := None]>.

(** ** Channel indices *)

(** The inner loop: the first [j] whose channel is [i]. *)
Fixpoint cfg_index (i : Z) (cfg : list Z) (j : Z) : Z :=
  match cfg with
  | [] => j
  | c :: cfg => if c =? i then j else cfg_index i cfg (j + 1)
  end.

Definition smsg_init_channel2index : list Z :=
  (λ i, let j := cfg_index i sipc_cfg 0 in
        if j =? SMSG_VALID_CH_NR then INVALID_CHANEL_INDEX else u8 j)
    <$> seqZ 0 (SMSG_CH_NR + 1).

Definition channel2index : list Z := Eval vm_compute in smsg_init_channel2index.

(** [channel2index[channel]], for a channel of type [u8]. *)
Definition sipc_channel2index (channel : Z) : Z :=
  nth (Z.to_nat (u8 channel)) channel2index INVALID_CHANEL_INDEX.

(** ** Receiving *)

Definition sipc_get_wakeup_flag : sm Z := w ← get_state; mret (wakeup w).
Definition sipc_set_wakeup_flag : sm () := set_wakeup 1.
Definition sipc_clear_wakeup_flag : sm () := set_wakeup 0.

Definition smsg_wakeup_print : sm () :=
  w ← get_state; if negb (wakeup w =? 0) then set_wakeup 0 else mret ().

(** With [debug_enable] a crash of the peer is a panic: the code does not
    return. *)
Definition smsg_die_process (debug_enable : bool) (m : smsg) : sm () :=
  if (type m =? SMSG_TYPE_DIE) && debug_enable then hang else mret ().

(** Put an arrived message into the cache of its channel. *)
Definition smsg_msg_process (debug_enable : bool) (m : smsg) : sm () :=
  smsg_wakeup_print;;
  smsg_die_process debug_enable m;;
  let ch_index := sipc_channel2index (channel m) in
  add_busy ch_index 1;;
  (if SMSG_TYPE_NR <=? type m then mret () else
   c ← read_at channels ch_index;
   match c with
   | None =>
     st ← read_at states ch_index;
     if (st =? CHAN_STATE_UNUSED) && (type m =? SMSG_TYPE_OPEN)
        && (flag m =? SMSG_OPEN_MAGIC)
     then set_state ch_index CHAN_STATE_CLIENT_OPENED
     else mret ()
   | Some p =>
     ch ← deref p;
     if SMSG_CACHE_NR <=? s32 (wrptr ch - rdptr ch) then mret () else
     let wr := wrptr ch &' (SMSG_CACHE_NR - 1) in
     check_index (caches ch) wr;;
     write_channel p (SmsgChannel (rxlock ch) (u32 (wrptr ch + 1)) (rdptr ch)
                        (<[Z.to_nat wr := m]> (caches ch)))
   end);;
  add_busy ch_index (-1).

(** The loop of the interrupt handler; [fuel] bounds its iterations. *)
Fixpoint process_loop (debug_enable : bool) (fuel : nat) : sm () :=
  i ← the_ipc;
  w ← get_state;
  let r := rx_ring i (mem w) in
  if sr_wr r =? sr_rd r then mret () else
  match fuel with
  | O => hang
  | S fuel =>
    let rxpos := sr_rd r &' u32 (rxbuf_size i - 1) in
    match sr_slots r !! Z.to_nat rxpos with
    | None => fault
    | Some msg_recv =>
      smsg_msg_process debug_enable msg_recv;;
      w ← get_state;
      let r := rx_ring i (mem w) in
      upd_mem (set_rx_ring i (Sring (u32 (sr_rd r + 1)) (sr_wr r) (sr_slots r)));;
      process_loop debug_enable fuel
    end
  end.

Definition sipc_process_all_msg (debug_enable : bool) (fuel : nat) : sm Z :=
  process_loop debug_enable fuel;; mret 0.

(** ** Sending *)

Definition smsg_set (channel type flag value : Z) : smsg := Smsg channel type flag value.

(** Write a message to the transmit ring; [-EBUSY] when it is full.  The
    difference is an [int] that is compared with an unsigned size. *)
Definition put_tx (m : smsg) : sm Z :=
  i ← the_ipc;
  w ← get_state;
  let r := tx_ring i (mem w) in
  if txbuf_size i <=? u32 (s32 (sr_wr r - sr_rd r)) then mret (- EBUSY) else
  let txpos := sr_wr r &' u32 (txbuf_size i - 1) in
  check_index (sr_slots r) txpos;;
  upd_mem (set_tx_ring i (Sring (sr_rd r) (u32 (sr_wr r + 1))
                            (<[Z.to_nat txpos := m]> (sr_slots r))));;
  mret 0.

(** [request]: the result of [sprd_pms_request_resource]. *)
Definition smsg_senddie (request : Z) : sm Z :=
  w ← get_state;
  match ipc w with
  | None => mret (- ENODEV)
  | Some i =>
    let msg := Smsg SMSG_CH_CTRL SMSG_TYPE_DIE 0 0 in
    if ring_base i =? 0 then mret 0 else
    if request <? 0 then mret request else
    upd_held 1;;
    rval ← put_tx msg;
    txirq_trigger msg;;
    upd_held (-1);;
    mret (if rval =? 0 then request else rval)
  end.

Definition smsg_send (request : Z) (m : smsg) : sm Z :=
  let ch_index := sipc_channel2index (channel m) in
  if ch_index =? INVALID_CHANEL_INDEX then mret (- EINVAL) else
  w ← get_state;
  match ipc w with
  | None => mret (- ENODEV)
  | Some i =>
    c ← read_at channels ch_index;
    match c with
    | None => mret (- ENODEV)
    | Some p =>
      st ← read_at states ch_index;
      if negb (st =? CHAN_STATE_OPENED) && negb (type m =? SMSG_TYPE_OPEN)
         && negb (type m =? SMSG_TYPE_CLOSE)
      then mret (- EINVAL) else
      _ ← deref p;
      if request <? 0 then mret request else
      upd_held 1;;
      if ring_base i =? 0 then upd_held (-1);; mret (- EINVAL) else
      rval ← put_tx m;
      txirq_trigger m;;
      upd_held (-1);;
      mret (if rval =? 0 then request else rval)
    end
  end.

Definition smsg_open_ack (request channel : Z) : sm () :=
  smsg_send request (smsg_set channel SMSG_TYPE_OPEN SMSG_OPEN_MAGIC 0);; mret ().
Definition smsg_close_ack (request channel : Z) : sm () :=
  smsg_send request (smsg_set channel SMSG_TYPE_CLOSE SMSG_CLOSE_MAGIC 0);; mret ().

(** ** Taking a message *)

(** What a call of [smsg_recv] sees while it waits for the mutex and for a
    message. *)
Record waits := Waits { lock_wait : list (wake world); rx_wait : list (wake world) }.

Definition set_rxlock (p : nat) (v : bool) : sm () :=
  ch ← deref p; write_channel p (SmsgChannel v (wrptr ch) (rdptr ch) (caches ch)).

Definition unlocked (p : nat) (w : world) : bool :=
  match heap w !! p with Some (Some ch) => negb (rxlock ch) | _ => true end.

Definition mutex_trylock (p : nat) : sm bool :=
  ch ← deref p; if rxlock ch then mret false else set_rxlock p true;; mret true.
Definition mutex_lock_interruptible (p : nat) (h : list (wake world)) : sm Z :=
  rval ← wait_event_interruptible (unlocked p) h;
  if rval =? 0 then set_rxlock p true;; mret 0 else mret rval.
Definition mutex_unlock (p : nat) : sm () := set_rxlock p false.

(** The condition of the waits: a message in the cache, or the channel is being
    closed. *)
Definition is_free (ch_index : Z) (w : world) : bool :=
  match ipc w with
  | Some i => nth (Z.to_nat ch_index) (states i) CHAN_STATE_UNUSED =? CHAN_STATE_FREE
  | None => false
  end.
Definition recv_ready (ch_index : Z) (p : nat) (w : world) : bool :=
  match heap w !! p with
  | Some (Some ch) => negb (wrptr ch =? rdptr ch) || is_free ch_index w
  | _ => is_free ch_index w
  end.

Definition smsg_recv (e : waits) (chan timeout : Z) : sm (Z * option smsg) :=
  let ch_index := sipc_channel2index chan in
  if ch_index =? INVALID_CHANEL_INDEX then mret (- EINVAL, None) else
  w ← get_state;
  match ipc w with
  | None => mret (- ENODEV, None)
  | Some _ =>
    add_busy ch_index 1;;
    c ← read_at channels ch_index;
    match c with
    | None => add_busy ch_index (-1);; mret (- ENODEV, None)
    | Some p =>
      locked ← (if timeout =? 0 then mutex_trylock p
                (* the result of the lock is not looked at *)
                else mutex_lock_interruptible p (lock_wait e);; mret true);
      if negb locked then add_busy ch_index (-1);; mret (- EBUSY, None) else
      rval ←
        (if timeout =? 0 then
           ch ← deref p;
           mret (if wrptr ch =? rdptr ch then - ENODATA else 0)
         else if timeout <? 0 then
           rval ← wait_event_interruptible (recv_ready ch_index p) (rx_wait e);
           if rval <? 0 then mret rval else
           w ← get_state;
           mret (if is_free ch_index w then - EIO else rval)
         else
           rval ← wait_event_interruptible_timeout (recv_ready ch_index p) (rx_wait e)
                    (Z.to_nat timeout);
           if rval <? 0 then mret rval
           else if rval =? 0 then mret (- ETIME) else
           w ← get_state;
           mret (if is_free ch_index w then - EIO else rval));
      out ←
        (if rval <? 0 then mret None else
         ch ← deref p;
         let rd := rdptr ch &' (SMSG_CACHE_NR - 1) in
         check_index (caches ch) rd;;
         write_channel p (SmsgChannel (rxlock ch) (wrptr ch) (u32 (rdptr ch + 1)) (caches ch));;
         mret (caches ch !! Z.to_nat rd));
      mutex_unlock p;;
      add_busy ch_index (-1);;
      mret (rval, out)
    end
  end.

(** ** Opening and closing a channel *)

(** [while (atomic_read(&ipc->busy[ch_index])) ;] *)
Definition not_busy (ch_index : Z) (w : world) : bool :=
  match ipc w with Some i => nth (Z.to_nat ch_index) (busy i) 0 =? 0 | None => false end.
Definition wait_unused (ch_index : Z) (h : list world) : sm () :=
  spin_until (not_busy ch_index) h.

(** The end of a failed [smsg_ch_open]. *)
Definition open_failed (ch_index : Z) (p : nat) (spins : list world) (rval : Z) : sm Z :=
  set_state ch_index CHAN_STATE_UNUSED;;
  set_channel ch_index None;;
  add_busy ch_index (-1);;
  wait_unused ch_index spins;;
  kfree p;;
  mret rval.

Definition open_done (ch_index : Z) : sm Z :=
  set_state ch_index CHAN_STATE_OPENED;;
  add_busy ch_index (-1);;
  mret 0.

(** The [do ... while] loop: each iteration takes what its call of [smsg_recv]
    sees from [es]. *)
Fixpoint recv_open (es : list waits) (chan timeout ch_index : Z) (p : nat)
    (spins : list world) : sm Z :=
  match es with
  | [] => hang
  | e :: es =>
    '(rval, mrecv) ← smsg_recv e chan timeout;
    if negb (rval =? 0) then open_failed ch_index p spins rval else
    match mrecv with
    | None => fault
    | Some m =>
      if negb (type m =? SMSG_TYPE_OPEN) || negb (flag m =? SMSG_OPEN_MAGIC)
      then recv_open es chan timeout ch_index p spins
      else open_done ch_index
    end
  end.

(** [memory]: [kzalloc] succeeds. *)
Definition smsg_ch_open (memory : bool) (request : Z) (es : list waits) (spins : list world)
    (chan timeout : Z) : sm Z :=
  let ch_index := sipc_channel2index chan in
  if ch_index =? INVALID_CHANEL_INDEX then mret (- EINVAL) else
  w ← get_state;
  match ipc w with
  | None => mret (- ENODEV)
  | Some _ =>
    if negb memory then mret (- ENOMEM) else
    p ← kzalloc;
    upd_sources 2;;
    set_busy ch_index 1;;
    set_channel ch_index (Some p);;
    rval ← smsg_send request (smsg_set chan SMSG_TYPE_OPEN SMSG_OPEN_MAGIC 0);
    if negb (rval =? 0) then open_failed ch_index p spins rval else
    st ← read_at states ch_index;
    if st =? CHAN_STATE_CLIENT_OPENED then open_done ch_index else
    set_state ch_index CHAN_STATE_HOST_OPENED;;
    recv_open es chan timeout ch_index p spins
  end.

(** [spins], [spins']: what the two busy waits see. *)
Definition smsg_ch_close (request : Z) (spins spins' : list world) (chan : Z) : sm Z :=
  let ch_index := sipc_channel2index chan in
  if ch_index =? INVALID_CHANEL_INDEX then mret (- EINVAL) else
  c ← read_at channels ch_index;
  match c with
  | None => mret 0
  | Some p =>
    smsg_send request (smsg_set chan SMSG_TYPE_CLOSE SMSG_CLOSE_MAGIC 0);;
    set_state ch_index CHAN_STATE_FREE;;
    wait_unused ch_index spins;;
    c ← read_at channels ch_index;
    (match c with
     | Some _ =>
       set_channel ch_index None;;
       wait_unused ch_index spins';;
       upd_sources (-2);;
       kfree p
     | None => mret ()
     end);;
    set_state ch_index CHAN_STATE_UNUSED;;
    mret 0
  end.

Definition smsg_ch_wake_unlock (chan : Z) : sm Z :=
  let ch_index := sipc_channel2index chan in
  if ch_index =? INVALID_CHANEL_INDEX then mret (- EINVAL) else
  w ← get_state;
  match ipc w with
  | None => mret (- ENODEV)
  | Some _ =>
    c ← read_at channels ch_index;
    match c with
    | None => mret (- ENODEV)
    | Some p => _ ← deref p; mret 0
    end
  end.

(** ** Setting up the rings *)

(** What the memory services return: [smem_init], [smem_alloc] and the mapping
    of the page. *)
Record memory_services := MemoryServices { smem_init : Z; smem_alloc : Z; vmap : bool }.

Definition zero_ring (size : Z) : sring :=
  Sring 0 0 (replicate (Z.to_nat (size / SIZEOF_SMSG)) (Smsg 0 0 0 0)).

(** The rings of the page; the registration of the interrupt handler is left
    out. *)
Definition smsg_ipc_smem_init (s : memory_services) : sm Z :=
  if negb (smem_init s =? 0) then mret (smem_init s) else
  i ← the_ipc;
  let base (v : Z) (i : smsg_ipc) := SmsgIpc (client i) v (txbuf_size i) (rxbuf_size i) (channels i) (busy i)
                    (states i) in
  upd_ipc (base (smem_alloc s));;
  if smem_alloc s =? 0 then mret 0 else
  if negb (vmap s) then upd_ipc (base 0);; mret (- ENOMEM) else
  (if negb (client i)
   then upd_mem (λ _, Page (zero_ring SMSG_TXBUF_SIZE) (zero_ring SMSG_RXBUF_SIZE))
   else mret ());;
  let '(txs, rxs) := if client i then (SMSG_RXBUF_SIZE, SMSG_TXBUF_SIZE)
                     else (SMSG_TXBUF_SIZE, SMSG_RXBUF_SIZE) in
  upd_ipc (λ i, SmsgIpc (client i) (ring_base i) (txs / SIZEOF_SMSG) (rxs / SIZEOF_SMSG)
                  (channels i) (busy i) (states i));;
  mret 0.

(** The entry of [smsg_ipcs]; memory behind PCIe is set up later, when the link
    is ready. *)
Definition smsg_ipc_create (i : smsg_ipc) (smem_pcie : bool) (s : memory_services) : sm () :=
  modify (λ w, World (mem w) (Some i) (heap w) (irqs w) (held w) (sources w + 1) (wakeup w));;
  if smem_pcie then mret () else smsg_ipc_smem_init s;; mret ().
