(* ===== verification/SmsgLink.v ===== *)
(** * Two ends of a message link

    The host and the client of [Smsg] joined by the page they share.  They
    refine a link of two lossless queues, one per direction, and a bounded inbox
    per open channel; an invariant of the channel states follows. *)

From S2P Require Import Prelude Ring Kernel Smsg.

#[local] Open Scope Z_scope.
#[local] Open Scope c_scope.

(** ** The abstract link *)

(** One end: the state of each channel and the inboxes of the open ones. *)
Record port := Port { p_states : list Z; p_inbox : list (option (list smsg)) }.

Definition TRANSIT_MAX : Z := 128.
Definition INBOX_MAX : Z := 256.

Definition with_state (k : nat) (v : Z) (p : port) : port :=
  Port (<[k := v]> (p_states p)) (p_inbox p).
Definition with_inbox (k : nat) (v : option (list smsg)) (p : port) : port :=
  Port (p_states p) (<[k := v]> (p_inbox p)).

Definition index (chan : Z) : option nat :=
  let j := sipc_channel2index chan in
  if j =? INVALID_CHANEL_INDEX then None else Some (Z.to_nat j).

(** Send a message on the queue [out]. *)
Definition port_send (p : port) (out : list smsg) (m : smsg) : Z * list smsg :=
  match index (channel m) with
  | None => (- EINVAL, out)
  | Some k =>
    match p_inbox p !! k with
    | Some (Some _) =>
      if negb (nth k (p_states p) 0 =? CHAN_STATE_OPENED)
         && negb (type m =? SMSG_TYPE_OPEN) && negb (type m =? SMSG_TYPE_CLOSE)
      then (- EINVAL, out)
      else if TRANSIT_MAX <=? Z.of_nat (length out) then (- EBUSY, out)
      else (0, out ++ [m])
    | _ => (- ENODEV, out)
    end
  end.

(** A message arrives: it joins the inbox of its channel, opens a channel that
    is not in use, or is dropped. *)
Definition port_deliver (p : port) (m : smsg) : port :=
  match index (channel m) with
  | None => p
  | Some k =>
    if SMSG_TYPE_NR <=? type m then p else
    match p_inbox p !! k with
    | Some (Some l) =>
      if INBOX_MAX <=? Z.of_nat (length l) then p else with_inbox k (Some (l ++ [m])) p
    | _ =>
      if (nth k (p_states p) 0 =? CHAN_STATE_UNUSED) && (type m =? SMSG_TYPE_OPEN)
         && (flag m =? SMSG_OPEN_MAGIC)
      then with_state k CHAN_STATE_CLIENT_OPENED p else p
    end
  end.

Definition port_recv (p : port) (chan : Z) : Z * option smsg * port :=
  match index chan with
  | None => (- EINVAL, None, p)
  | Some k =>
    match p_inbox p !! k with
    | Some (Some []) => (- ENODATA, None, p)
    | Some (Some (m :: l)) => (0, Some m, with_inbox k (Some l) p)
    | _ => (- ENODEV, None, p)
    end
  end.

Definition open_msg (chan : Z) : smsg := Smsg chan SMSG_TYPE_OPEN SMSG_OPEN_MAGIC 0.
Definition close_msg (chan : Z) : smsg := Smsg chan SMSG_TYPE_CLOSE SMSG_CLOSE_MAGIC 0.

(** Open without waiting: it succeeds when the peer has opened before. *)
Definition port_open (p : port) (out : list smsg) (chan : Z) : Z * port * list smsg :=
  match index chan with
  | None => (- EINVAL, p, out)
  | Some k =>
    let closed := with_state k CHAN_STATE_UNUSED (with_inbox k None p) in
    if TRANSIT_MAX <=? Z.of_nat (length out) then (- EBUSY, closed, out)
    else if nth k (p_states p) 0 =? CHAN_STATE_CLIENT_OPENED
    then (0, with_state k CHAN_STATE_OPENED (with_inbox k (Some []) p), out ++ [open_msg chan])
    else (- ENODATA, closed, out ++ [open_msg chan])
  end.

Definition port_close (p : port) (out : list smsg) (chan : Z) : Z * port * list smsg :=
  match index chan with
  | None => (- EINVAL, p, out)
  | Some k =>
    match p_inbox p !! k with
    | Some (Some _) =>
      (0, with_state k CHAN_STATE_UNUSED (with_inbox k None p),
       (port_send p out (close_msg chan)).2)
    | _ => (0, p, out)
    end
  end.

(** ** One end *)

(** The channel object behind a pointer holds the inbox. *)
Definition slot_rep (h : list (option smsg_channel)) (c : option nat)
    (l : option (list smsg)) : Prop :=
  match c, l with
  | None, None => True
  | Some p, Some l => ∃ ch, h !! p = Some (Some ch) ∧ rxlock ch = false
                    ∧ ring_rep SMSG_CACHE_NR (rdptr ch) (wrptr ch) (caches ch) l
  | _, _ => False
  end.

Definition ring_holds (r : sring) (l : list smsg) : Prop :=
  ring_rep TRANSIT_MAX (sr_rd r) (sr_wr r) (sr_slots r) l.

(** Messages whose channel is configured. *)
Definition valid_msg (m : smsg) : Prop := index (channel m) ≠ None.

(** The end [w] represents [p], with [out] and [inn] in the rings of the page
    and the busy counters [b]. *)
Record port_rep (b : list Z) (w : world) (p : port) (out inn : list smsg) (i : smsg_ipc)
  : Prop := {
  pr_ipc : ipc w = Some i;
  pr_base : ring_base i ≠ 0;
  pr_txsize : txbuf_size i = TRANSIT_MAX;
  pr_rxsize : rxbuf_size i = TRANSIT_MAX;
  pr_out : ring_holds (tx_ring i (mem w)) out;
  pr_inn : ring_holds (rx_ring i (mem w)) inn;
  pr_valid_out : Forall valid_msg out;
  pr_valid_inn : Forall valid_msg inn;
  pr_busy : busy i = b;
  pr_lbusy : length b = length sipc_cfg;
  pr_states : states i = p_states p;
  pr_lstates : length (p_states p) = length sipc_cfg;
  pr_slots : Forall2 (slot_rep (heap w)) (channels i) (p_inbox p);
  pr_lslots : length (p_inbox p) = length sipc_cfg;
  pr_inj : ∀ j k q, channels i !! j = Some (Some q) → channels i !! k = Some (Some q) → j = k;
}.

(** ** Running the primitives *)

Lemma index_spec chan :
  match index chan with
  | None => sipc_channel2index chan = INVALID_CHANEL_INDEX
  | Some k => sipc_channel2index chan = Z.of_nat k ∧ (k < length sipc_cfg)%nat
  end.
Proof.
  assert (H : Forall (λ v, v = INVALID_CHANEL_INDEX ∨ 0 ≤ v < SMSG_VALID_CH_NR) channel2index)
    by (apply (bool_decide_unpack _); vm_compute; reflexivity).
  assert (v : ∃ v, sipc_channel2index chan = v
                 ∧ (v = INVALID_CHANEL_INDEX ∨ 0 ≤ v < SMSG_VALID_CH_NR)).
  { eexists; split; [reflexivity|]. unfold sipc_channel2index. rewrite Forall_forall in H.
    apply H, list_elem_of_In, nth_In. pose proof (u8_range chan). change (length _) with 256%nat.
    lia. }
  unfold index. destruct v as (v & -> & [->|Hv]); [done|].
  destruct (Z.eqb_spec v INVALID_CHANEL_INDEX) as [->|]; [done|].
  unfold SMSG_VALID_CH_NR in Hv. lia.
Qed.

Lemma tx_set_tx i r p : tx_ring i (set_tx_ring i r p) = r.
Proof. unfold tx_ring, set_tx_ring. by destruct (client i). Qed.
Lemma rx_set_tx i r p : rx_ring i (set_tx_ring i r p) = rx_ring i p.
Proof. unfold rx_ring, set_tx_ring. by destruct (client i). Qed.
Lemma tx_set_rx i r p : tx_ring i (set_rx_ring i r p) = tx_ring i p.
Proof. unfold tx_ring, set_rx_ring. by destruct (client i). Qed.
Lemma rx_set_rx i r p : rx_ring i (set_rx_ring i r p) = r.
Proof. unfold rx_ring, set_rx_ring. by destruct (client i). Qed.

Definition with_ipc (i : smsg_ipc) (w : world) : world :=
  World (mem w) (Some i) (heap w) (irqs w) (held w) (sources w) (wakeup w).
Definition with_heap (h : list (option smsg_channel)) (w : world) : world :=
  World (mem w) (ipc w) h (irqs w) (held w) (sources w) (wakeup w).

Section Primitives.
Context (w : world) (i : smsg_ipc) (Hi : ipc w = Some i).

Lemma runs_read_at {A} (f : smsg_ipc → list A) k x (Φ : A → world → Prop) :
  f i !! k = Some x → Φ x w → runs (read_at f (Z.of_nat k)) w Φ.
Proof using Hi.
  intros Hk H. apply runs_bind. apply runs_exact with i w; [unfold the_ipc; by rewrite Hi|].
  rewrite Nat2Z.id, Hk, (proj2 (Z.leb_le 0 _)) by lia. by apply runs_ret.
Qed.

Lemma runs_upd_ipc f (Φ : () → world → Prop) :
  Φ () (with_ipc (f i) w) → runs (upd_ipc f) w Φ.
Proof using Hi. intros H. apply runs_modify. rewrite Hi. done. Qed.

Lemma runs_set_state k v (Φ : () → world → Prop) :
  (k < length (states i))%nat → Φ () (with_ipc (on_states <[k := v]> i) w) →
  runs (set_state (Z.of_nat k) v) w Φ.
Proof using Hi.
  intros [x Hx]%lookup_lt_is_Some_2 H. eapply runs_bind, runs_read_at; [done|].
  apply runs_upd_ipc. by rewrite Nat2Z.id.
Qed.

Lemma runs_set_channel k v (Φ : () → world → Prop) :
  (k < length (channels i))%nat → Φ () (with_ipc (on_channels <[k := v]> i) w) →
  runs (set_channel (Z.of_nat k) v) w Φ.
Proof using Hi.
  intros [x Hx]%lookup_lt_is_Some_2 H. eapply runs_bind, runs_read_at; [done|].
  apply runs_upd_ipc. by rewrite Nat2Z.id.
Qed.

Lemma runs_set_busy k v (Φ : () → world → Prop) :
  (k < length (busy i))%nat → Φ () (with_ipc (on_busy <[k := v]> i) w) →
  runs (set_busy (Z.of_nat k) v) w Φ.
Proof using Hi.
  intros [x Hx]%lookup_lt_is_Some_2 H. eapply runs_bind, runs_read_at; [done|].
  apply runs_upd_ipc. by rewrite Nat2Z.id.
Qed.

Lemma runs_add_busy k x d (Φ : () → world → Prop) :
  busy i !! k = Some x → Φ () (with_ipc (on_busy <[k := x + d]> i) w) →
  runs (add_busy (Z.of_nat k) d) w Φ.
Proof using Hi.
  intros Hx H. eapply runs_bind, runs_read_at; [done|].
  apply runs_set_busy; [by apply lookup_lt_Some in Hx|done].
Qed.
End Primitives.

Lemma runs_deref p ch w (Φ : smsg_channel → world → Prop) :
  heap w !! p = Some (Some ch) → Φ ch w → runs (deref p) w Φ.
Proof. intros Hp H. apply runs_exact with ch w; [unfold deref; by rewrite Hp|done]. Qed.

Lemma runs_write p ch c w (Φ : () → world → Prop) :
  heap w !! p = Some (Some c) → Φ () (with_heap (<[p := Some ch]> (heap w)) w) →
  runs (write_channel p ch) w Φ.
Proof. intros Hp H. eapply runs_bind, runs_deref; [done|]. by apply runs_modify. Qed.

Lemma runs_kfree p c w (Φ : () → world → Prop) :
  heap w !! p = Some (Some c) → Φ () (with_heap (<[p := None]> (heap w)) w) →
  runs (kfree p) w Φ.
Proof. intros Hp H. eapply runs_bind, runs_deref; [done|]. by apply runs_modify. Qed.

(** ** Updates of one end *)

Lemma slot_rep_other h q ch c l :
  slot_rep h c l → c ≠ Some q → slot_rep (<[q := ch]> h) c l.
Proof.
  destruct c as [p|], l as [l|]; try done. intros (x & Hx & Hl) Hne.
  exists x. split; [|done]. rewrite list_lookup_insert_ne by congruence. done.
Qed.

Lemma slot_rep_app h x c l : slot_rep h c l → slot_rep (h ++ [x]) c l.
Proof.
  destruct c as [p|], l as [l|]; try done. intros (y & Hy & Hl).
  exists y. split; [|done]. by apply lookup_app_l_Some.
Qed.

Lemma inj_insert (cs : list (option nat)) k c :
  (∀ j k q, cs !! j = Some (Some q) → cs !! k = Some (Some q) → j = k) →
  (∀ j q, c = Some q → cs !! j = Some (Some q) → j = k) →
  ∀ j1 j2 q, <[k := c]> cs !! j1 = Some (Some q) → <[k := c]> cs !! j2 = Some (Some q) → j1 = j2.
Proof.
  intros Hinj Hc j1 j2 q H1 H2.
  apply list_lookup_insert_Some in H1 as [(<- & -> & ?)|[? H1]];
    apply list_lookup_insert_Some in H2 as [(E & E' & ?)|[? H2]]; subst; try done.
  - symmetry. by eapply Hc.
  - by eapply Hc.
  - by eapply Hinj.
Qed.

Section Updates.
Context (b : list Z) (w : world) (p : port) (out inn : list smsg) (i : smsg_ipc).
Context (Hr : port_rep b w p out inn i).

Lemma rep_busy f : length (f b) = length b →
  port_rep (f b) (with_ipc (on_busy f i) w) p out inn (on_busy f i).
Proof using Hr.
  intros Hf. destruct Hr. split; simpl; try done; [by subst|by rewrite Hf].
Qed.

Lemma rep_busy_back k x d b' :
  b !! k = Some (x + d) → b' = <[k := x]> b →
  port_rep b' (with_ipc (on_busy <[k := x + d + - d]> i) w) p out inn
    (on_busy <[k := x + d + - d]> i).
Proof using Hr.
  intros Hk ->. replace (x + d + - d) with x by lia. apply rep_busy. by rewrite length_insert.
Qed.

Lemma rep_state k v :
  port_rep b (with_ipc (on_states <[k := v]> i) w) (with_state k v p) out inn
    (on_states <[k := v]> i).
Proof using Hr.
  destruct Hr. split; simpl; try done; [congruence|by rewrite length_insert].
Qed.

Lemma rep_channel k : (k < length sipc_cfg)%nat →
  ∃ c l x, channels i !! k = Some c ∧ p_inbox p !! k = Some l ∧ slot_rep (heap w) c l
    ∧ states i !! k = Some x ∧ nth k (p_states p) 0 = x ∧ p_states p !! k = Some x.
Proof using Hr.
  intros Hk. destruct Hr.
  destruct (lookup_lt_is_Some_2 (p_inbox p) k) as [l Hl]; [lia|].
  destruct (lookup_lt_is_Some_2 (p_states p) k) as [x Hx]; [lia|].
  destruct (Forall2_lookup_r _ _ _ _ _ pr_slots0 Hl) as (c & Hc & Hs).
  exists c, l, x. rewrite pr_states0. split_and!; try done.
  by apply nth_lookup_Some with (d := 0) in Hx.
Qed.

(** The channel object at [q] is rewritten. *)
Lemma rep_inbox k q ch l :
  channels i !! k = Some (Some q) → (∃ c, heap w !! q = Some (Some c)) →
  rxlock ch = false → ring_rep SMSG_CACHE_NR (rdptr ch) (wrptr ch) (caches ch) l →
  port_rep b (with_heap (<[q := Some ch]> (heap w)) w) (with_inbox k (Some l) p) out inn i.
Proof using Hr.
  intros Hk [c Hq] Hlk Hl. destruct Hr. split; simpl; try done; [|by rewrite length_insert].
  rewrite <- (list_insert_id (channels i) k (Some q)) by done.
  apply Forall2_same_length_lookup_2; [rewrite !length_insert; by eapply Forall2_length|].
  intros j c' l' Hc' Hl'.
  apply list_lookup_insert_Some in Hl' as [(<- & <- & ?)|[Hj Hl']];
    apply list_lookup_insert_Some in Hc' as [(E & <- & ?)|[Hj' Hc']]; try done.
  - exists ch. split; [|done]. apply list_lookup_insert_eq. by eapply lookup_lt_Some.
  - apply slot_rep_other; [by eapply Forall2_lookup_lr|]. intros ->.
    by apply Hj, (pr_inj0 k j q).
Qed.

(** A new channel object for channel [k]. *)
Lemma rep_new k : (k < length sipc_cfg)%nat →
  let i' := on_channels <[k := Some (length (heap w))]> i in
  port_rep b (with_ipc i' (with_heap (heap w ++ [Some new_channel]) w))
    (with_inbox k (Some []) p) out inn i'.
Proof using Hr.
  intros Hk i'. destruct Hr. split; simpl; try done; [| |].
  - apply Forall2_insert.
    + eapply Forall2_impl; [done|]. intros. by apply slot_rep_app.
    + exists new_channel. rewrite lookup_app_r, Nat.sub_diag by done. split_and!; [done..|].
      by apply (rep_empty_intro _ 8).
  - by rewrite length_insert.
  - apply inj_insert; [done|]. intros j q [= <-] Hj. exfalso.
    destruct (Forall2_lookup_l _ _ _ _ _ pr_slots0 Hj) as ([l|] & _ & Hs); [|done].
    destruct Hs as (ch & Hh & _). by apply lookup_lt_Some, Nat.lt_irrefl in Hh.
Qed.

(** The channel object of channel [k] is given up. *)
Lemma rep_drop k q : channels i !! k = Some (Some q) →
  let i' := on_channels <[k := None]> i in
  port_rep b (with_ipc i' (with_heap (<[q := None]> (heap w)) w))
    (with_inbox k None p) out inn i'.
Proof using Hr.
  intros Hk i'. destruct Hr. split; simpl; try done; [| |].
  - apply Forall2_same_length_lookup_2; [rewrite !length_insert; by eapply Forall2_length|].
    intros j c' l' Hc' Hl'.
    apply list_lookup_insert_Some in Hl' as [(<- & <- & ?)|[Hj Hl']];
      apply list_lookup_insert_Some in Hc' as [(E & <- & ?)|[Hj' Hc']]; try done.
    apply slot_rep_other; [by eapply Forall2_lookup_lr|]. intros ->.
    by apply Hj, (pr_inj0 k j q).
  - by rewrite length_insert.
  - by apply inj_insert.
Qed.
End Updates.

Lemma rep_frame b w w' p out inn i :
  mem w' = mem w → ipc w' = ipc w → heap w' = heap w →
  port_rep b w p out inn i → port_rep b w' p out inn i.
Proof. intros Em Ei Eh []. split; rewrite ?Em, ?Ei, ?Eh; done. Qed.

(** Entering and leaving the code that a busy counter protects. *)
Definition busier (k : nat) (b : list Z) : list Z := alter (Z.add 1) k b.

Lemma length_busier k b : length (busier k b) = length b.
Proof. apply length_alter. Qed.

Section Busy.
Context (k : nat) (Hk : (k < length sipc_cfg)%nat).
Context (b : list Z) (w : world) (p : port) (out inn : list smsg) (i : smsg_ipc).

Lemma runs_enter (Φ : () → world → Prop) :
  port_rep b w p out inn i →
  (∀ i', port_rep (busier k b) (with_ipc i' w) p out inn i' → client i' = client i →
         channels i' = channels i → Φ () (with_ipc i' w)) →
  runs (add_busy (Z.of_nat k) 1) w Φ.
Proof using Hk.
  intros Hr H. pose proof Hr as []. destruct (lookup_lt_is_Some_2 b k) as [x Hx]; [lia|].
  eapply runs_add_busy; [done|by rewrite pr_busy0|]. apply H; [|done..].
  assert (E : busier k b = <[k := x + 1]> b).
  { unfold busier. rewrite list_insert_alter. apply list_alter_ext; [|done].
    intros y Hy. rewrite Hx in Hy. injection Hy as <-. lia. }
  rewrite E. apply (rep_busy _ _ _ _ _ _ Hr <[k := x + 1]>). by rewrite length_insert.
Qed.

Lemma runs_leave (Φ : () → world → Prop) :
  port_rep (busier k b) w p out inn i →
  (∀ i', port_rep b (with_ipc i' w) p out inn i' → client i' = client i →
         channels i' = channels i → Φ () (with_ipc i' w)) →
  runs (add_busy (Z.of_nat k) (-1)) w Φ.
Proof using Hk.
  intros Hr H. pose proof Hr as []. rewrite length_busier in pr_lbusy0.
  destruct (lookup_lt_is_Some_2 b k) as [x Hx]; [lia|].
  assert (E : busier k b !! k = Some (1 + x))
    by (unfold busier; by rewrite list_lookup_alter_eq, Hx).
  eapply runs_add_busy; [done|by rewrite pr_busy0|]. apply H; [|done..].
  assert (E' : b = <[k := 1 + x + -1]> (busier k b)).
  { unfold busier. rewrite list_insert_alter, list_alter_alter_eq.
    rewrite <- (list_alter_id id b k) at 1 by done. apply list_alter_ext; [|done].
    intros y Hy. rewrite Hx in Hy. injection Hy as <-. simpl. lia. }
  rewrite E' at 1. apply (rep_busy _ _ _ _ _ _ Hr <[k := 1 + x + -1]>).
  by rewrite length_insert.
Qed.
End Busy.

(** ** One operation of each kind on one end *)

Lemma runs_wakeup_print w (Φ : () → world → Prop) :
  (∀ w', mem w' = mem w → ipc w' = ipc w → heap w' = heap w → Φ () w') →
  runs smsg_wakeup_print w Φ.
Proof.
  intros H. apply runs_bind, runs_get. destruct (negb _); [apply runs_modify|apply runs_ret];
    by apply H.
Qed.

Lemma cache_full ch l : ring_rep SMSG_CACHE_NR (rdptr ch) (wrptr ch) (caches ch) l →
  (SMSG_CACHE_NR <=? s32 (wrptr ch - rdptr ch)) = (INBOX_MAX <=? Z.of_nat (length l)).
Proof.
  intros Hr. pose proof (rep_count _ _ _ _ _ Hr) as Hc. pose proof (rep_cap _ _ _ _ _ Hr) as Hl.
  unfold s32. rewrite <- Zplus_mod_idemp_l. fold (u32 (wrptr ch - rdptr ch)). rewrite Hc.
  unfold SMSG_CACHE_NR in *. rewrite Z.mod_small by lia. f_equal. lia.
Qed.

Lemma runs_msg_process b w p out inn i m (Φ : () → world → Prop) :
  port_rep b w p out inn i → valid_msg m →
  (∀ w' i', port_rep b w' (port_deliver p m) out inn i' → mem w' = mem w →
     client i' = client i → Φ () w') →
  runs (smsg_msg_process false m) w Φ.
Proof.
  intros Hr Hv HΦ. unfold valid_msg, port_deliver in *. pose proof (index_spec (channel m)) as Hx.
  unfold smsg_msg_process. destruct (index (channel m)) as [k|] eqn:Ek; [|done].
  destruct Hx as [-> Hk]. apply runs_bind, runs_wakeup_print. intros w0 Em Ei Eh.
  apply (rep_frame _ _ w0) in Hr; [|done..]. rewrite <- Em in HΦ. clear Em Ei Eh.
  apply runs_bind. unfold smsg_die_process. rewrite andb_false_r. apply runs_ret.
  apply runs_bind. eapply runs_enter; [done|exact Hr|]. intros i1 Hr1 Ec1 _.
  assert (Hend : ∀ w2 i2, port_rep (busier k b) w2 (port_deliver p m) out inn i2 →
      mem w2 = mem w0 → client i2 = client i1 →
      runs (add_busy (Z.of_nat k) (-1)) w2 Φ).
  { intros w2 i2 Hr2 Em2 Ec2. eapply runs_leave; [done|exact Hr2|]. intros i3 Hr3 Ec3 _.
    unfold port_deliver in Hr3. rewrite Ek in Hr3.
    eapply HΦ; [exact Hr3|done|congruence]. }
  clear HΦ. unfold port_deliver in Hend. rewrite Ek in Hend.
  apply runs_bind. destruct (SMSG_TYPE_NR <=? type m); [by apply runs_ret, (Hend _ i1)|].
  destruct (rep_channel _ _ _ _ _ _ Hr1 k Hk) as (c & l & x & Hc & Hl & Hs & Hst & Hst' & _).
  apply runs_bind. eapply runs_read_at; [apply Hr1|exact Hc|].
  rewrite Hl, Hst' in Hend. destruct c as [q|], l as [l|]; try done.
  - destruct Hs as (ch & Hch & Hlk & Hring). apply runs_bind. eapply runs_deref; [exact Hch|].
    rewrite (cache_full _ _ Hring). destruct (INBOX_MAX <=? _) eqn:Hfull;
      [by apply runs_ret, (Hend _ i1)|].
    apply Z.leb_gt in Hfull. pose proof (rep_pos _ _ _ _ _ (wrptr ch) Hring) as [Emask _].
    rewrite u32_small in Emask by (unfold SMSG_CACHE_NR; lia). rewrite Emask.
    pose proof (Z.mod_pos_bound (wrptr ch) SMSG_CACHE_NR ltac:(done)).
    apply runs_bind, runs_check; [by rewrite (rep_length _ _ _ _ _ Hring)|].
    eapply runs_write; [exact Hch|]. eapply (Hend _ i1); [|done..].
    eapply rep_inbox; [exact Hr1|exact Hc|by eexists|done|by apply rep_push].
  - apply runs_bind. eapply runs_read_at; [apply Hr1|exact Hst|].
    destruct (_ && _ && _); [|by apply runs_ret, (Hend _ i1)].
    eapply runs_set_state; [apply Hr1|by eapply lookup_lt_Some|].
    eapply Hend; [by apply rep_state|done..].
Qed.

Definition with_mem (p : page) (w : world) : world :=
  World p (ipc w) (heap w) (irqs w) (held w) (sources w) (wakeup w).

Lemma rep_rx b w p out inn inn' i r :
  port_rep b w p out inn i → ring_holds r inn' → Forall valid_msg inn' →
  port_rep b (with_mem (set_rx_ring i r (mem w)) w) p out inn' i.
Proof.
  intros [] Hr Hv. split; simpl; try done; [by rewrite tx_set_rx|by rewrite rx_set_rx].
Qed.

Lemma rep_tx b w p out out' inn i r :
  port_rep b w p out inn i → ring_holds r out' → Forall valid_msg out' →
  port_rep b (with_mem (set_tx_ring i r (mem w)) w) p out' inn i.
Proof.
  intros [] Hr Hv. split; simpl; try done; [by rewrite tx_set_tx|by rewrite rx_set_tx].
Qed.

Lemma client_rx i i' pg : client i' = client i → rx_ring i' pg = rx_ring i pg.
Proof. unfold rx_ring. by intros ->. Qed.
Lemma client_set_rx i i' r pg : client i' = client i → set_rx_ring i' r pg = set_rx_ring i r pg.
Proof. unfold set_rx_ring. by intros ->. Qed.

Lemma transit_pos rd wt a (l : list smsg) x size :
  ring_rep TRANSIT_MAX rd wt a l → size = TRANSIT_MAX →
  x &' u32 (size - 1) = x mod TRANSIT_MAX ∧ 0 ≤ x mod TRANSIT_MAX < Z.of_nat (length a).
Proof.
  intros Hr ->. pose proof (rep_pos _ _ _ _ _ x Hr) as [H _].
  rewrite u32_small by (unfold TRANSIT_MAX; lia). rewrite (rep_length _ _ _ _ _ Hr).
  split; [done|]. by apply Z.mod_pos_bound.
Qed.

Lemma process_loop_eq dbg n :
  process_loop dbg n =
    (i ← the_ipc;
     w ← get_state;
     let r := rx_ring i (mem w) in
     if sr_wr r =? sr_rd r then mret () else
     match n with
     | O => hang
     | S n =>
       match sr_slots r !! Z.to_nat (sr_rd r &' u32 (rxbuf_size i - 1)) with
       | None => fault
       | Some m =>
         smsg_msg_process dbg m;;
         w ← get_state;
         let r := rx_ring i (mem w) in
         upd_mem (set_rx_ring i (Sring (u32 (sr_rd r + 1)) (sr_wr r) (sr_slots r)));;
         process_loop dbg n
       end
     end).
Proof. by destruct n. Qed.

(** The interrupt handler empties the ring, in at most as many iterations as
    there are messages. *)
Lemma runs_process_loop b out inn : ∀ n w p i (Φ : () → world → Prop),
  port_rep b w p out inn i → (length inn ≤ n)%nat →
  (∀ w' i', port_rep b w' (foldl port_deliver p inn) out [] i' → client i' = client i → Φ () w') →
  runs (process_loop false n) w Φ.
Proof.
  induction inn as [|m inn IH]; intros n w p i Φ Hr Hn HΦ; pose proof Hr as [].
  - assert (E : (sr_wr (rx_ring i (mem w)) =? sr_rd (rx_ring i (mem w))) = true)
      by (rewrite Z.eqb_sym; by rewrite (rep_empty _ _ _ _ _ pr_inn0)).
    rewrite process_loop_eq. apply runs_bind, runs_exact with i w;
      [unfold the_ipc; by rewrite pr_ipc0|]. apply runs_bind, runs_get. cbv beta zeta. rewrite E.
    by eapply runs_ret, HΦ.
  - assert (E : (sr_wr (rx_ring i (mem w)) =? sr_rd (rx_ring i (mem w))) = false)
      by (rewrite Z.eqb_sym; by rewrite (rep_empty _ _ _ _ _ pr_inn0)).
    destruct n as [|n]; simpl in Hn; [lia|]. rewrite process_loop_eq.
    apply runs_bind, runs_exact with i w; [unfold the_ipc; by rewrite pr_ipc0|].
    apply runs_bind, runs_get. cbv beta zeta. rewrite E.
    destruct (transit_pos _ _ _ _ (sr_rd (rx_ring i (mem w))) _ pr_inn0 pr_rxsize0) as [-> _].
    destruct (rep_pop _ _ _ _ _ _ pr_inn0) as [-> Hpop].
    apply Forall_cons in pr_valid_inn0 as [Hm Hv].
    apply runs_bind. eapply runs_msg_process; [exact Hr|done|]. intros w' i' Hr' Em Ec.
    apply runs_bind, runs_get. apply runs_bind, runs_modify. cbv beta zeta.
    fold (with_mem (set_rx_ring i (Sring (u32 (sr_rd (rx_ring i (mem w')) + 1))
      (sr_wr (rx_ring i (mem w'))) (sr_slots (rx_ring i (mem w')))) (mem w')) w').
    rewrite <- (client_rx i i') by done. rewrite <- (client_set_rx i i') by done.
    eapply (IH n); [eapply rep_rx; [exact Hr'| |done]|lia|].
    + rewrite Em, (client_rx i i') by done. done.
    + intros w2 i2 Hr2 Ec2. eapply HΦ; [exact Hr2|congruence].
Qed.

Lemma runs_process_all b w p out inn i n :
  port_rep b w p out inn i → (length inn ≤ n)%nat →
  runs (sipc_process_all_msg false n) w (λ r w', r = 0 ∧ ∃ i',
    port_rep b w' (foldl port_deliver p inn) out [] i' ∧ client i' = client i).
Proof.
  intros Hr Hn. apply runs_bind. eapply runs_process_loop; [done..|]. intros w' i' Hr' Ec.
  apply runs_ret. split; [done|]. by exists i'.
Qed.

(** ** Sending *)

Lemma transit_full rd wt a (l : list smsg) size :
  ring_rep TRANSIT_MAX rd wt a l → size = TRANSIT_MAX →
  (size <=? u32 (s32 (wt - rd))) = (TRANSIT_MAX <=? Z.of_nat (length l)).
Proof.
  intros Hr ->. pose proof (rep_count _ _ _ _ _ Hr) as Hc. pose proof (rep_cap _ _ _ _ _ Hr) as Hl.
  unfold s32. rewrite <- Zplus_mod_idemp_l. fold (u32 (wt - rd)). rewrite Hc.
  unfold TRANSIT_MAX in *. rewrite Z.mod_small by lia.
  replace (Z.of_nat (length l) + 2 ^ 31 - 2 ^ 31) with (Z.of_nat (length l)) by lia.
  by rewrite u32_small by lia.
Qed.

Lemma runs_put_tx b w p out inn i m (Φ : Z → world → Prop) :
  port_rep b w p out inn i → valid_msg m →
  (∀ w', port_rep b w' p (if TRANSIT_MAX <=? Z.of_nat (length out) then out else out ++ [m]) inn i →
         heap w' = heap w →
         Φ (if TRANSIT_MAX <=? Z.of_nat (length out) then - EBUSY else 0) w') →
  runs (put_tx m) w Φ.
Proof.
  intros Hr Hm HΦ. pose proof Hr as []. unfold put_tx.
  apply runs_bind, runs_exact with i w; [unfold the_ipc; by rewrite pr_ipc0|].
  apply runs_bind, runs_get. cbv beta zeta. rewrite (transit_full _ _ _ _ _ pr_out0 pr_txsize0).
  destruct (_ <=? _) eqn:Hfull; [by apply runs_ret, HΦ|]. apply Z.leb_gt in Hfull.
  destruct (transit_pos _ _ _ _ (sr_wr (tx_ring i (mem w))) _ pr_out0 pr_txsize0) as [-> ?].
  apply runs_bind, runs_check; [done|]. apply runs_bind, runs_modify, runs_ret, HΦ; [|done].
  eapply rep_tx; [exact Hr| |by apply Forall_app_2; [|constructor]].
  by apply rep_push.
Qed.

Lemma runs_port_send b w p out inn i m (Φ : Z → world → Prop) :
  port_rep b w p out inn i →
  (∀ w', port_rep b w' p (port_send p out m).2 inn i → heap w' = heap w →
         Φ (port_send p out m).1 w') →
  runs (smsg_send 0 m) w Φ.
Proof.
  intros Hr HΦ. pose proof (index_spec (channel m)) as Hx. unfold smsg_send, port_send in *.
  destruct (index (channel m)) as [k|] eqn:Ek.
  2:{ rewrite Hx. by apply runs_ret, HΦ. }
  destruct Hx as [-> Hk]. destruct (Z.of_nat k =? INVALID_CHANEL_INDEX) eqn:E.
  { apply Z.eqb_eq in E. vm_compute in Hk. unfold INVALID_CHANEL_INDEX, SMSG_CH_NR in E. lia. }
  destruct (rep_channel _ _ _ _ _ _ Hr k Hk) as (c & l & x & Hc & Hl & Hs & Hst & Hst' & _).
  rewrite Hl, Hst' in HΦ. pose proof Hr as [].
  apply runs_bind, runs_get. rewrite pr_ipc0.
  apply runs_bind. eapply runs_read_at; [done|exact Hc|]. destruct c as [q|], l as [l|]; try done.
  2:{ by apply runs_ret, HΦ. }
  destruct Hs as (ch & Hch & _ & _).
  apply runs_bind. eapply runs_read_at; [done|exact Hst|]. cbv beta.
  destruct (negb _ && negb _ && negb _); [by apply runs_ret, HΦ|].
  apply runs_bind. eapply runs_deref; [exact Hch|]. change (0 <? 0) with false.
  apply runs_bind, runs_modify. rewrite (proj2 (Z.eqb_neq _ _) pr_base0).
  apply runs_bind. eapply runs_put_tx.
  { eapply rep_frame; [..|exact Hr]; done. }
  { unfold valid_msg. congruence. }
  intros w' Hr' Eh. apply runs_bind, runs_modify. apply runs_bind, runs_modify, runs_ret.
  destruct (TRANSIT_MAX <=? _); (apply HΦ; [eapply rep_frame; [..|exact Hr']; done|done]).
Qed.

(** ** Receiving *)

Lemma lookup_write (h : list (option smsg_channel)) q ch c :
  h !! q = Some c → <[q := Some ch]> h !! q = Some (Some ch).
Proof. intros Hq. apply list_lookup_insert_eq. by eapply lookup_lt_Some. Qed.

Lemma runs_set_rxlock q v ch w (Φ : () → world → Prop) :
  heap w !! q = Some (Some ch) →
  Φ () (with_heap (<[q := Some (SmsgChannel v (wrptr ch) (rdptr ch) (caches ch))]> (heap w)) w) →
  runs (set_rxlock q v) w Φ.
Proof.
  intros Hq H. eapply runs_bind, runs_deref; [exact Hq|]. by eapply runs_write.
Qed.

Lemma index_valid k : (k < length sipc_cfg)%nat → (Z.of_nat k =? INVALID_CHANEL_INDEX) = false.
Proof.
  intros Hk. apply Z.eqb_neq. vm_compute in Hk. unfold INVALID_CHANEL_INDEX, SMSG_CH_NR. lia.
Qed.

Lemma runs_smsg_recv b w p out inn i e chan (Φ : Z * option smsg → world → Prop) :
  port_rep b w p out inn i →
  (∀ w' i', port_rep b w' (port_recv p chan).2 out inn i' → client i' = client i →
     channels i' = channels i → mem w' = mem w → Φ (port_recv p chan).1 w') →
  runs (smsg_recv e chan 0) w Φ.
Proof.
  intros Hr HΦ. pose proof (index_spec chan) as Hx. unfold smsg_recv, port_recv in *.
  destruct (index chan) as [k|] eqn:Ek.
  2:{ rewrite Hx. by eapply runs_ret, HΦ. }
  destruct Hx as [-> Hk]. rewrite index_valid by done.
  apply runs_bind, runs_get. rewrite (pr_ipc _ _ _ _ _ _ Hr).
  apply runs_bind. eapply runs_enter; [done|exact Hr|]. intros i1 Hr1 Ec1 Ech1.
  assert (Hend : ∀ p' r w2, port_rep (busier k b) w2 p' out inn i1 → mem w2 = mem w →
      (∀ w' i', port_rep b w' p' out inn i' → client i' = client i →
         channels i' = channels i → mem w' = mem w → Φ r w') →
      runs (add_busy (Z.of_nat k) (-1);; mret r) w2 Φ).
  { intros p' r w2 Hr2 Em2 HΦ2. apply runs_bind.
    eapply runs_leave; [done|exact Hr2|]. intros i3 Hr3 Ec3 Ech3.
    apply runs_ret. eapply HΦ2; [exact Hr3|congruence..|done]. }
  destruct (rep_channel _ _ _ _ _ _ Hr1 k Hk) as (c & l & x & Hc & Hl & Hs & _).
  rewrite Hl in HΦ. apply runs_bind. eapply runs_read_at; [apply Hr1|exact Hc|].
  destruct c as [q|], l as [l|]; try done; [|by eapply (Hend p)].
  destruct Hs as (ch & Hch & Hlk & Hring). change (heap w !! q = Some (Some ch)) in Hch.
  simpl Z.eqb. cbn match. apply runs_bind, runs_bind. eapply runs_deref; [exact Hch|].
  rewrite Hlk. apply runs_bind. eapply runs_set_rxlock; [exact Hch|].
  apply runs_ret. simpl negb. cbn match.
  apply runs_bind, runs_bind. eapply runs_deref; [simpl; by eapply lookup_write|].
  apply runs_ret. simpl. rewrite Z.eqb_sym. rewrite (rep_empty _ _ _ _ _ Hring).
  destruct l as [|m l].
  - rewrite bool_decide_true by done. simpl. apply runs_bind, runs_ret.
    apply runs_bind. eapply runs_set_rxlock; [simpl; by eapply lookup_write|].
    eapply (Hend p); [|done|done]. apply (rep_frame _ (with_heap (<[q := Some ch]> (heap w))
      (with_ipc i1 w))); [done..|simpl; rewrite list_insert_insert_eq; by destruct ch; simpl in *; subst|].
    replace p with (with_inbox k (Some []) p) at 1
      by (unfold with_inbox; rewrite list_insert_id by done; by destruct p).
    eapply (rep_inbox _ (with_ipc i1 w)); [exact Hr1|exact Hc|by eexists|done|done].
  - rewrite bool_decide_false by done. simpl. apply runs_bind, runs_bind.
    eapply runs_deref; [simpl; by eapply lookup_write|]. simpl.
    destruct (rep_pop _ _ _ _ _ _ Hring) as [Hslot Hpop].
    pose proof (rep_pos _ _ _ _ _ (rdptr ch) Hring) as [Emask _].
    rewrite u32_small in Emask by (unfold SMSG_CACHE_NR; lia). simpl in Emask. rewrite Emask.
    pose proof (Z.mod_pos_bound (rdptr ch) SMSG_CACHE_NR ltac:(done)).
    apply runs_bind, runs_check; [by rewrite (rep_length _ _ _ _ _ Hring)|].
    apply runs_bind. eapply runs_write; [simpl; by eapply lookup_write|]. apply runs_ret.
    apply runs_bind. eapply runs_set_rxlock; [simpl; eapply lookup_write; by eapply lookup_write|].
    rewrite Hslot. eapply Hend; [|done|exact HΦ].
    eapply rep_frame; [..|eapply (rep_inbox _ _ _ _ _ _ Hr1 k q
      (SmsgChannel false (wrptr ch) (u32 (rdptr ch + 1)) (caches ch)) l);
      [exact Hc|by eexists|done|exact Hpop]]; [done..|].
    simpl. by rewrite !list_insert_insert_eq.
Qed.

(** ** Opening and closing *)

(** No operation in progress. *)
Definition idle : list Z := replicate (length sipc_cfg) 0.

Lemma busier_idle k : (k < length sipc_cfg)%nat → busier k idle = <[k := 1]> idle.
Proof.
  intros Hk. unfold busier. rewrite list_insert_alter. apply list_alter_ext; [|done].
  unfold idle. intros y [-> _]%lookup_replicate. done.
Qed.

Lemma leave_idle k : (k < length sipc_cfg)%nat →
  busier k idle !! k = Some 1 ∧ <[k := 1 + -1]> (busier k idle) = idle.
Proof.
  intros Hk. rewrite busier_idle by done.
  rewrite list_lookup_insert_eq, list_insert_insert_eq, list_insert_id; [done| |].
  - by apply lookup_replicate_2.
  - unfold idle. by rewrite length_replicate.
Qed.

Lemma idle_not_busy w p out inn i k : (k < length sipc_cfg)%nat →
  port_rep idle w p out inn i → not_busy (Z.of_nat k) w = true.
Proof.
  intros Hk []. unfold not_busy. rewrite pr_ipc0, Nat2Z.id, pr_busy0.
  apply Z.eqb_eq. unfold idle. by rewrite nth_lookup, lookup_replicate_2.
Qed.

Lemma lookup_insert_id {A} (l : list A) k x y : l !! k = Some y → <[k := x]> l !! k = Some x.
Proof. intros Hk. apply list_lookup_insert_eq. by eapply lookup_lt_Some. Qed.

Lemma rep_pointer b w p out inn i k q :
  port_rep b w p out inn i → channels i !! k = Some (Some q) →
  ∃ ch, heap w !! q = Some (Some ch).
Proof.
  intros [] Hk. destruct (Forall2_lookup_l _ _ _ _ _ pr_slots0 Hk) as ([l|] & _ & Hs); [|done].
  destruct Hs as (ch & Hch & _). by exists ch.
Qed.

Lemma rep_lengths b w p out inn i k :
  port_rep b w p out inn i → (k < length sipc_cfg)%nat →
  (k < length (states i))%nat ∧ (k < length (channels i))%nat.
Proof.
  intros [] Hk. rewrite pr_states0, (Forall2_length _ _ _ pr_slots0). lia.
Qed.

Lemma runs_open_failed k q spins r w p out inn i (Φ : Z → world → Prop) :
  (k < length sipc_cfg)%nat →
  port_rep (busier k idle) w p out inn i → channels i !! k = Some (Some q) →
  (∀ w' i', port_rep idle w' (with_state k CHAN_STATE_UNUSED (with_inbox k None p)) out inn i' →
     client i' = client i → Φ r w') →
  runs (open_failed (Z.of_nat k) q spins r) w Φ.
Proof.
  intros Hk Hr Hq HΦ. destruct (rep_lengths _ _ _ _ _ _ k Hr Hk) as [Hls Hlc].
  destruct (rep_pointer _ _ _ _ _ _ _ _ Hr Hq) as [ch Hch].
  destruct (leave_idle k Hk) as [Hb Hb'].
  pose proof (rep_drop _ _ _ _ _ _ Hr k q Hq) as Hr2.
  pose proof (rep_state _ _ _ _ _ _ Hr2 k CHAN_STATE_UNUSED) as Hr3.
  pose proof (rep_busy _ _ _ _ _ _ Hr3 <[k := 1 + -1]>) as Hr4.
  rewrite Hb', length_busier in Hr4. specialize (Hr4 eq_refl).
  apply runs_bind. eapply runs_set_state; [apply Hr|done|].
  apply runs_bind. eapply runs_set_channel; [done|done|].
  apply runs_bind. eapply runs_add_busy with (x := 1);
    [done|simpl; by rewrite (pr_busy _ _ _ _ _ _ Hr)|].
  apply runs_bind, runs_exact with () (with_ipc (on_busy <[k := 1 + -1]> (on_channels <[k := None]>
    (on_states <[k := CHAN_STATE_UNUSED]> i))) w).
  { apply spin_now. unfold not_busy. cbn [with_ipc ipc]. rewrite Nat2Z.id.
    pose proof (pr_busy _ _ _ _ _ _ Hr4) as E. simpl in E. simpl. rewrite E. apply Z.eqb_eq. unfold idle.
    by rewrite nth_lookup, lookup_replicate_2. }
  apply runs_bind. eapply runs_kfree; [exact Hch|]. apply runs_ret.
  eapply HΦ; [exact Hr4|done].
Qed.

Lemma runs_open_done k w p out inn i (Φ : Z → world → Prop) :
  (k < length sipc_cfg)%nat → port_rep (busier k idle) w p out inn i →
  (∀ w' i', port_rep idle w' (with_state k CHAN_STATE_OPENED p) out inn i' →
     client i' = client i → Φ 0 w') →
  runs (open_done (Z.of_nat k)) w Φ.
Proof.
  intros Hk Hr HΦ. destruct (rep_lengths _ _ _ _ _ _ k Hr Hk) as [Hls Hlc].
  pose proof (rep_state _ _ _ _ _ _ Hr k CHAN_STATE_OPENED) as Hr2.
  apply runs_bind. eapply runs_set_state; [apply Hr|done|].
  apply runs_bind. eapply runs_leave; [done|exact Hr2|]. intros i' Hr' Ec _.
  apply runs_ret. by eapply HΦ.
Qed.

(** The first half of [smsg_ch_open]: the channel exists and is marked busy. *)
Definition opening (k : nat) (p : port) : port := with_inbox k (Some []) p.

Lemma runs_open_start {A} (f : nat → sm A) k w p out inn i (Φ : A → world → Prop) :
  (k < length sipc_cfg)%nat → port_rep idle w p out inn i →
  (∀ w' i', port_rep (busier k idle) w' (opening k p) out inn i' → client i' = client i →
     channels i' !! k = Some (Some (length (heap w))) → runs (f (length (heap w))) w' Φ) →
  runs (q ← kzalloc; upd_sources 2;; set_busy (Z.of_nat k) 1;;
        set_channel (Z.of_nat k) (Some q);; f q) w Φ.
Proof.
  intros Hk Hr H. destruct (rep_lengths _ _ _ _ _ _ k Hr Hk) as [Hls Hlc].
  pose proof (rep_new _ _ _ _ _ _ Hr k Hk) as Hr2.
  pose proof (rep_busy _ _ _ _ _ _ Hr2 <[k := 1]>) as Hr3.
  rewrite <- busier_idle, length_busier in Hr3 by done. specialize (Hr3 eq_refl).
  pose proof Hr as [].
  apply runs_bind. eapply runs_exact; [reflexivity|]. apply runs_bind, runs_modify.
  apply runs_bind. eapply runs_set_busy; [exact pr_ipc0|rewrite pr_busy0; by rewrite pr_lbusy0|].
  apply runs_bind. eapply runs_set_channel; [reflexivity|done|].
  eapply H; [eapply rep_frame; [..|exact Hr3]; done|done|].
  simpl. by apply list_lookup_insert_eq.
Qed.

Lemma port_send_open p out chan k :
  index chan = Some k → (k < length (p_inbox p))%nat →
  port_send (opening k p) out (open_msg chan)
  = if TRANSIT_MAX <=? Z.of_nat (length out) then (- EBUSY, out) else (0, out ++ [open_msg chan]).
Proof.
  intros Hk Hl. unfold port_send, opening. simpl. rewrite Hk, list_lookup_insert_eq by done.
  by rewrite andb_false_r.
Qed.

Lemma closed_opening k p : with_inbox k None (opening k p) = with_inbox k None p.
Proof. unfold opening, with_inbox. simpl. by rewrite list_insert_insert_eq. Qed.
Lemma state_twice k u v p : with_state k u (with_state k v p) = with_state k u p.
Proof. unfold with_state. simpl. by rewrite list_insert_insert_eq. Qed.
Lemma inbox_state k u v p : with_inbox k u (with_state k v p) = with_state k v (with_inbox k u p).
Proof. done. Qed.

(** The receive loop of an opening that does not wait finds nothing. *)
Lemma runs_recv_open_nodata k chan e es spins w p out inn i q (Φ : Z → world → Prop) :
  index chan = Some k → (k < length sipc_cfg)%nat →
  port_rep (busier k idle) w p out inn i → channels i !! k = Some (Some q) →
  p_inbox p !! k = Some (Some []) →
  (∀ w' i', port_rep idle w' (with_state k CHAN_STATE_UNUSED (with_inbox k None p)) out inn i' →
     client i' = client i → Φ (- ENODATA) w') →
  runs (recv_open (e :: es) chan 0 (Z.of_nat k) q spins) w Φ.
Proof.
  intros Hidx Hk Hr Hq Hin HΦ. apply runs_bind. eapply runs_smsg_recv; [exact Hr|].
  unfold port_recv. rewrite Hidx, Hin. simpl. intros w1 i1 Hr1 Ec1 Ech1 _.
  eapply runs_open_failed; [done|exact Hr1|congruence|].
  intros w2 i2 Hr2 Ec2. eapply HΦ; [exact Hr2|congruence].
Qed.

Lemma runs_smsg_ch_open w p out inn i e es spins chan (Φ : Z → world → Prop) :
  port_rep idle w p out inn i →
  (∀ w' i', let '(r, p', out') := port_open p out chan in
     port_rep idle w' p' out' inn i' → client i' = client i → Φ r w') →
  runs (smsg_ch_open true 0 (e :: es) spins chan 0) w Φ.
Proof.
  intros Hr HΦ. pose proof (index_spec chan) as Hx. unfold smsg_ch_open, port_open in *.
  destruct (index chan) as [k|] eqn:Ek.
  2:{ rewrite Hx. by eapply runs_ret, HΦ. }
  destruct Hx as [-> Hk]. rewrite index_valid by done. pose proof Hr as [].
  destruct (rep_channel _ _ _ _ _ _ Hr k Hk) as (c & l & x & Hc & Hl & _ & Hst & Hst' & Hst'').
  apply runs_bind, runs_get. rewrite pr_ipc0. cbn [negb].
  eapply runs_open_start; [done|exact Hr|]. set (q := length (heap w)). intros w1 i1 Hr1 Ec1 Hq1.
  apply runs_bind. eapply runs_port_send; [exact Hr1|].
  change (smsg_set chan _ _ 0) with (open_msg chan).
  rewrite port_send_open by (done || lia). intros w2. destruct (TRANSIT_MAX <=? _).
  { simpl. intros Hr2 _. eapply runs_open_failed; [done|exact Hr2|exact Hq1|].
    intros w3 i3. rewrite closed_opening. intros Hr3 Ec3. eapply HΦ; [exact Hr3|congruence]. }
  simpl. intros Hr2 _. apply runs_bind. eapply runs_read_at; [apply Hr2| |].
  { by rewrite (pr_states _ _ _ _ _ _ Hr2). }
  rewrite Hst' in HΦ. cbv beta. destruct (x =? CHAN_STATE_CLIENT_OPENED).
  { eapply runs_open_done; [done|exact Hr2|]. intros w3 i3 Hr3 Ec3.
    eapply HΦ; [exact Hr3|congruence]. }
  destruct (rep_lengths _ _ _ _ _ _ k Hr2 Hk) as [Hls Hlc].
  apply runs_bind. eapply runs_set_state; [apply Hr2|done|].
  eapply runs_recv_open_nodata; [done|done|by apply rep_state|exact Hq1| |].
  { simpl. apply list_lookup_insert_eq. lia. }
  intros w3 i3. rewrite inbox_state, state_twice, closed_opening. intros Hr3 Ec3.
  eapply HΦ; [exact Hr3|]. simpl in Ec3. congruence.
Qed.

Lemma spin_idle k spins w p out inn i (Φ : () → world → Prop) :
  (k < length sipc_cfg)%nat → port_rep idle w p out inn i → Φ () w →
  runs (wait_unused (Z.of_nat k) spins) w Φ.
Proof.
  intros Hk Hr H. apply runs_exact with () w; [|done].
  by eapply spin_now, idle_not_busy.
Qed.

(** The second half of closing: the channel object is given up. *)
Lemma runs_close_end k q spins w p out inn i (Φ : Z → world → Prop) :
  (k < length sipc_cfg)%nat → port_rep idle w p out inn i → channels i !! k = Some (Some q) →
  (∀ w' i', port_rep idle w' (with_state k CHAN_STATE_UNUSED (with_inbox k None p)) out inn i' →
     client i' = client i → Φ 0 w') →
  runs (_ ← (set_channel (Z.of_nat k) None;; wait_unused (Z.of_nat k) spins;;
             upd_sources (-2);; kfree q);
        set_state (Z.of_nat k) CHAN_STATE_UNUSED;; mret 0) w Φ.
Proof.
  intros Hk Hr Hq HΦ. destruct (rep_lengths _ _ _ _ _ _ k Hr Hk) as [Hls Hlc].
  destruct (rep_pointer _ _ _ _ _ _ _ _ Hr Hq) as [ch Hch].
  pose proof (rep_drop _ _ _ _ _ _ Hr k q Hq) as Hr2.
  pose proof (rep_state _ _ _ _ _ _ Hr2 k CHAN_STATE_UNUSED) as Hr3.
  apply runs_bind, runs_bind. eapply runs_set_channel; [apply Hr|done|].
  apply runs_bind, runs_exact with () (with_ipc (on_channels <[k := None]> i) w).
  { apply spin_now. by eapply (idle_not_busy _ _ _ _ _ k) in Hr2. }
  apply runs_bind, runs_modify. eapply runs_kfree; [exact Hch|].
  apply runs_bind. eapply runs_set_state; [reflexivity|done|]. apply runs_ret.
  eapply HΦ; [eapply rep_frame; [..|exact Hr3]; done|done].
Qed.

Lemma runs_smsg_ch_close w p out inn i spins spins' chan (Φ : Z → world → Prop) :
  port_rep idle w p out inn i →
  (∀ w' i', let '(r, p', out') := port_close p out chan in
     port_rep idle w' p' out' inn i' → client i' = client i → Φ r w') →
  runs (smsg_ch_close 0 spins spins' chan) w Φ.
Proof.
  intros Hr HΦ. pose proof (index_spec chan) as Hx. unfold smsg_ch_close, port_close in *.
  destruct (index chan) as [k|] eqn:Ek.
  2:{ rewrite Hx. by eapply runs_ret, HΦ. }
  destruct Hx as [-> Hk]. rewrite index_valid by done.
  destruct (rep_channel _ _ _ _ _ _ Hr k Hk) as (c & l & x & Hc & Hl & Hs & _).
  rewrite Hl in HΦ. apply runs_bind. eapply runs_read_at; [apply Hr|exact Hc|].
  destruct c as [q|], l as [l|]; try done; [|by eapply runs_ret, HΦ].
  apply runs_bind. eapply runs_port_send; [exact Hr|].
  change (smsg_set chan _ _ 0) with (close_msg chan). intros w1 Hr1 _.
  destruct (rep_lengths _ _ _ _ _ _ k Hr1 Hk) as [Hls Hlc].
  pose proof (rep_state _ _ _ _ _ _ Hr1 k CHAN_STATE_FREE) as Hr2.
  apply runs_bind. eapply runs_set_state; [apply Hr1|done|].
  apply runs_bind. eapply spin_idle; [done|exact Hr2|].
  apply runs_bind. eapply runs_read_at; [apply Hr2|exact Hc|].
  eapply runs_close_end; [done|exact Hr2|exact Hc|].
  intros w3 i3. rewrite inbox_state, state_twice. intros Hr3 Ec3. eapply HΦ; [exact Hr3|done].
Qed.

(** ** The peer is told that this processor dies *)

Definition die_msg : smsg := Smsg SMSG_CH_CTRL SMSG_TYPE_DIE 0 0.

Definition port_die (out : list smsg) : Z * list smsg :=
  if TRANSIT_MAX <=? Z.of_nat (length out) then (- EBUSY, out) else (0, out ++ [die_msg]).

Lemma runs_smsg_senddie b w p out inn i (Φ : Z → world → Prop) :
  port_rep b w p out inn i →
  (∀ w', port_rep b w' p (port_die out).2 inn i → Φ (port_die out).1 w') →
  runs (smsg_senddie 0) w Φ.
Proof.
  intros Hr HΦ. unfold port_die in HΦ. pose proof Hr as [].
  apply runs_bind, runs_get. rewrite pr_ipc0, (proj2 (Z.eqb_neq _ _) pr_base0).
  change (0 <? 0) with false. apply runs_bind, runs_modify.
  apply runs_bind. eapply runs_put_tx; [eapply rep_frame; [..|exact Hr]; done|done|].
  intros w' Hr' Eh. apply runs_bind, runs_modify. apply runs_bind, runs_modify, runs_ret.
  destruct (TRANSIT_MAX <=? _); apply HΦ; (eapply rep_frame; [..|exact Hr']; done).
Qed.

(** ** The link *)

(** The two ends ([false] is the host, [true] the client) and the page they
    share. *)
Record link := Link { pg : page; host_end : world; client_end : world }.

Definition end_of (s : bool) (l : link) : world :=
  with_mem (pg l) (if s then client_end l else host_end l).
Definition put_end (s : bool) (w : world) (l : link) : link :=
  if s then Link (mem w) (host_end l) w else Link (mem w) w (client_end l).

Inductive call :=
| Send (m : smsg) | Die | Irq | Recv (chan : Z) | Open (chan : Z) | Close (chan : Z).
Inductive answer := ARet (rval : Z) | AMsg (rval : Z) (m : option smsg).

(** A call that does not wait. *)
Definition do_call (c : call) : sm answer :=
  match c with
  | Send m => ARet <$> smsg_send 0 m
  | Die => ARet <$> smsg_senddie 0
  | Irq => ARet <$> sipc_process_all_msg false (Z.to_nat TRANSIT_MAX)
  | Recv chan => (λ r, AMsg r.1 r.2) <$> smsg_recv (Waits [] []) chan 0
  | Open chan => ARet <$> smsg_ch_open true 0 [Waits [] []] [] chan 0
  | Close chan => ARet <$> smsg_ch_close 0 [] [] chan
  end.

Definition link_step (l : link) (c : bool * call) : outcome (answer * link) :=
  '(a, w) ← do_call c.2 (end_of c.1 l); Done (a, put_end c.1 w l).

Fixpoint link_run (l : link) (cs : list (bool * call)) : outcome (list answer * link) :=
  match cs with
  | [] => Done ([], l)
  | c :: cs =>
    '(a, l) ← link_step l c;
    '(answers, l) ← link_run l cs;
    Done (a :: answers, l)
  end.

(** The abstract link: two ports, and the messages on their way from the host
    and from the client. *)
Record wire := Wire { host_port : port; client_port : port; down : list smsg; up : list smsg }.

Definition port_of (s : bool) (a : wire) : port := if s then client_port a else host_port a.
Definition from (s : bool) (a : wire) : list smsg := if s then up a else down a.
Definition put_port (s : bool) (p : port) (a : wire) : wire :=
  if s then Wire (host_port a) p (down a) (up a) else Wire p (client_port a) (down a) (up a).
Definition put_from (s : bool) (q : list smsg) (a : wire) : wire :=
  if s then Wire (host_port a) (client_port a) (down a) q
  else Wire (host_port a) (client_port a) q (up a).

Definition wire_step (a : wire) (c : bool * call) : answer * wire :=
  let '(s, c) := c in
  let p := port_of s a in
  let out := from s a in
  match c with
  | Send m => (ARet (port_send p out m).1, put_from s (port_send p out m).2 a)
  | Die => (ARet (port_die out).1, put_from s (port_die out).2 a)
  | Irq => (ARet 0, put_from (negb s) [] (put_port s (foldl port_deliver p (from (negb s) a)) a))
  | Recv chan =>
    let '(r, m, p') := port_recv p chan in (AMsg r m, put_port s p' a)
  | Open chan =>
    let '(r, p', out') := port_open p out chan in (ARet r, put_from s out' (put_port s p' a))
  | Close chan =>
    let '(r, p', out') := port_close p out chan in (ARet r, put_from s out' (put_port s p' a))
  end.

Fixpoint wire_run (a : wire) (cs : list (bool * call)) : list answer * wire :=
  match cs with
  | [] => ([], a)
  | c :: cs =>
    let '(x, a) := wire_step a c in
    let '(answers, a) := wire_run a cs in
    (x :: answers, a)
  end.

(** ** Refinement *)

Definition link_rep (l : link) (a : wire) : Prop :=
  ∀ s, ∃ i, port_rep idle (end_of s l) (port_of s a) (from s a) (from (negb s) a) i
          ∧ client i = s.

Lemma tx_rx_peer i j pgx : client j = negb (client i) → tx_ring j pgx = rx_ring i pgx.
Proof. unfold tx_ring, rx_ring. intros ->. by destruct (client i). Qed.
Lemma rx_tx_peer i j pgx : client j = negb (client i) → rx_ring j pgx = tx_ring i pgx.
Proof. unfold tx_ring, rx_ring. intros ->. by destruct (client i). Qed.

(** The other end sees what was done to the page. *)
Lemma rep_peer l a s w p out inn i :
  link_rep l a → port_rep idle w p out inn i → client i = s →
  link_rep (put_end s w l) (put_from (negb s) inn (put_from s out (put_port s p a))).
Proof.
  intros Hl Hr Hc s'. destruct (decide (s' = s)) as [->|Hne].
  - exists i. split; [|done]. destruct Hr, s; split; done.
  - assert (s' = negb s) as -> by (by destruct s, s').
    destruct (Hl (negb s)) as (j & Hj & Hcj). exists j. split; [|done].
    assert (Hpeer : client j = negb (client i)) by (by rewrite Hcj, Hc).
    destruct Hr, Hj. split.
    1: by destruct s.
    1-3: done.
    1: rewrite (tx_rx_peer i) by done; by destruct s.
    1: rewrite (rx_tx_peer i) by done; by destruct s.
    all: by destruct s.
Qed.

Lemma rep_self l a s w p out inn i :
  link_rep l a → port_rep idle w p out inn i → client i = s →
  out = from s a → inn = from (negb s) a →
  link_rep (put_end s w l) (put_port s p a).
Proof.
  intros Hl Hr Hc -> ->. pose proof (rep_peer _ _ _ _ _ _ _ _ Hl Hr Hc) as H.
  destruct a, s; exact H.
Qed.

Lemma rep_sent l a s w p out i :
  link_rep l a → port_rep idle w p out (from (negb s) a) i → client i = s →
  link_rep (put_end s w l) (put_from s out (put_port s p a)).
Proof.
  intros Hl Hr Hc. pose proof (rep_peer _ _ _ _ _ _ _ _ Hl Hr Hc) as H. destruct a, s; exact H.
Qed.

Lemma rep_sent_only l a s w out i :
  link_rep l a → port_rep idle w (port_of s a) out (from (negb s) a) i → client i = s →
  link_rep (put_end s w l) (put_from s out a).
Proof.
  intros Hl Hr Hc. pose proof (rep_sent _ _ _ _ _ _ _ Hl Hr Hc) as H. destruct a, s; exact H.
Qed.

Lemma do_call_refines c s l a :
  link_rep l a →
  runs (do_call c) (end_of s l) (λ x w,
    x = (wire_step a (s, c)).1 ∧ link_rep (put_end s w l) (wire_step a (s, c)).2).
Proof.
  intros Hl. destruct (Hl s) as (i & Hr & Hc). destruct c; apply runs_fmap.
  - eapply runs_port_send; [exact Hr|]. intros w' Hr' _. split; [done|].
    by eapply rep_sent_only.
  - eapply runs_smsg_senddie; [exact Hr|]. intros w' Hr'. split; [done|].
    by eapply rep_sent_only.
  - eapply runs_mono.
    { eapply runs_process_all; [exact Hr|]. destruct Hr.
      pose proof (rep_cap _ _ _ _ _ pr_inn0). lia. }
    intros x w' (-> & i' & Hr' & Ec). split; [done|].
    pose proof (rep_peer _ _ _ _ _ _ _ _ Hl Hr' (eq_trans Ec Hc)) as H.
    destruct a, s; exact H.
  - eapply runs_smsg_recv; [exact Hr|]. intros w' i' Hr' Ec _ _. simpl.
    destruct (port_recv (port_of s a) chan) as [[r m] p']. split; [done|].
    eapply rep_self; [done|exact Hr'|by rewrite Ec|done|done].
  - eapply runs_smsg_ch_open; [exact Hr|]. intros w' i'. simpl.
    destruct (port_open (port_of s a) (from s a) chan) as [[r p'] out']. intros Hr' Ec.
    split; [done|]. eapply rep_sent; [done|exact Hr'|by rewrite Ec].
  - eapply runs_smsg_ch_close; [exact Hr|]. intros w' i'. simpl.
    destruct (port_close (port_of s a) (from s a) chan) as [[r p'] out']. intros Hr' Ec.
    split; [done|]. eapply rep_sent; [done|exact Hr'|by rewrite Ec].
Qed.

Lemma wire_step_refines l a c :
  link_rep l a → ∃ l', link_step l c = Done ((wire_step a c).1, l') ∧ link_rep l' (wire_step a c).2.
Proof.
  intros Hl. destruct c as [s c]. destruct (do_call_refines c s l a Hl) as (x & w & E & -> & Hl').
  exists (put_end s w l). split; [|done]. unfold link_step. cbn [fst snd]. by rewrite E.
Qed.

Lemma wire_run_refines cs : ∀ l a, link_rep l a →
  ∃ l', link_run l cs = Done ((wire_run a cs).1, l') ∧ link_rep l' (wire_run a cs).2.
Proof.
  induction cs as [|c cs IH]; intros l a Hl; [by exists l|].
  destruct (wire_step_refines l a c Hl) as (l1 & E & Hl1). simpl. rewrite E. simpl.
  destruct (wire_step a c) as [x a1]. destruct (IH l1 a1 Hl1) as (l2 & E2 & Hl2). rewrite E2.
  exists l2. simpl in *. by destruct (wire_run a1 cs).
Qed.

(** C4: The two ends of a message link, joined by the shared page, behave as the
    abstract link: every sequence of sends, interrupts, receives, openings and
    closings by either side comes to an end without an access outside the
    rings, the caches and the channel table, returns what the abstract link
    returns, and ends in a represented state. *)
Theorem smsg_link_refines l a cs :
  link_rep l a →
  ∃ l', link_run l cs = Done ((wire_run a cs).1, l') ∧ link_rep l' (wire_run a cs).2.
Proof. apply wire_run_refines. Qed.

(** ** Setting up the link *)

(** [struct smsg_ipc] as the driver allocates it. *)
Definition fresh_ipc (client : bool) : smsg_ipc :=
  SmsgIpc client 0 0 0 (replicate (length sipc_cfg) None) idle (replicate (length sipc_cfg) 0).

Definition fresh_world (pg : page) : world := World pg None [] [] 0 0 0.

Definition empty_port : port :=
  Port (replicate (length sipc_cfg) CHAN_STATE_UNUSED) (replicate (length sipc_cfg) None).
Definition empty_wire : wire := Wire empty_port empty_port [] [].

(** First the host sets up the page, then the client. *)
Definition start (h c : memory_services) (junk : page) : outcome link :=
  '(_, wh) ← smsg_ipc_create (fresh_ipc false) false h (fresh_world junk);
  '(_, wc) ← smsg_ipc_create (fresh_ipc true) false c (fresh_world (mem wh));
  Done (Link (mem wc) wh wc).

Lemma zero_ring_empty : ring_holds (zero_ring SMSG_TXBUF_SIZE) [].
Proof. by apply (rep_empty_intro _ 7). Qed.

Lemma no_pointers n (j k q : nat) :
  replicate n (@None nat) !! j = Some (Some q) → replicate n None !! k = Some (Some q) → j = k.
Proof. by intros [? _]%lookup_replicate. Qed.

(** [smsg_ipc_smem_init] when the memory services succeed. *)
Definition set_up (i : smsg_ipc) (s : memory_services) : smsg_ipc :=
  SmsgIpc (client i) (smem_alloc s) TRANSIT_MAX TRANSIT_MAX (channels i) (busy i) (states i).
Definition zero_page : page := Page (zero_ring SMSG_TXBUF_SIZE) (zero_ring SMSG_RXBUF_SIZE).

Lemma runs_create i s w (Φ : () → world → Prop) :
  smem_init s = 0 → smem_alloc s ≠ 0 → vmap s = true →
  Φ () (World (if client i then mem w else zero_page) (Some (set_up i s)) (heap w) (irqs w)
          (held w) (sources w + 1) (wakeup w)) →
  runs (smsg_ipc_create i false s) w Φ.
Proof.
  intros H1 H2 H3 HΦ. apply runs_bind, runs_modify. apply runs_bind.
  unfold smsg_ipc_smem_init. rewrite H1. apply runs_bind. eapply runs_exact; [reflexivity|].
  apply runs_bind, runs_modify. apply Z.eqb_neq in H2. rewrite H2, H3.
  apply runs_bind. apply runs_exact with () (World (if client i then mem w else zero_page)
    (Some (SmsgIpc (client i) (smem_alloc s) (txbuf_size i) (rxbuf_size i) (channels i) (busy i)
      (states i))) (heap w) (irqs w) (held w) (sources w + 1) (wakeup w)).
  { by destruct i as [[] ? ? ? ? ? ?]. }
  destruct (client i) eqn:Ec; apply runs_bind, runs_modify, runs_ret, runs_ret;
    unfold set_up in HΦ; rewrite Ec in HΦ; exact HΦ.
Qed.

Lemma set_up_rep cl s w out inn :
  smem_alloc s ≠ 0 → ipc w = Some (set_up (fresh_ipc cl) s) →
  ring_holds (tx_ring (fresh_ipc cl) (mem w)) out → ring_holds (rx_ring (fresh_ipc cl) (mem w)) inn →
  Forall valid_msg out → Forall valid_msg inn →
  port_rep idle w empty_port out inn (set_up (fresh_ipc cl) s).
Proof.
  intros Hb Hi Ho Hn Hvo Hvi. split; try done.
  - by apply Forall2_replicate.
  - exact (no_pointers _).
Qed.

Lemma start_rep h c junk :
  smem_init h = 0 → smem_alloc h ≠ 0 → vmap h = true →
  smem_init c = 0 → smem_alloc c ≠ 0 → vmap c = true →
  ∃ l, start h c junk = Done l ∧ link_rep l empty_wire.
Proof.
  intros H1 H2 H3 H4 H5 H6.
  destruct (runs_create (fresh_ipc false) h (fresh_world junk) (λ _ w, w =
    World zero_page (Some (set_up (fresh_ipc false) h)) [] [] 0 1 0)) as (? & wh & E & Ewh);
    [done..|].
  destruct (runs_create (fresh_ipc true) c (fresh_world (mem wh)) (λ _ w, w =
    World (mem wh) (Some (set_up (fresh_ipc true) c)) [] [] 0 1 0)) as (? & wc & E' & Ewc);
    [done..|].
  exists (Link (mem wc) wh wc). split.
  { unfold start. rewrite E. cbn [mbind outcome_bind]. by rewrite E'. }
  subst. intros []; eexists; split.
  - apply (set_up_rep true c); try done; try exact zero_ring_empty; by apply Forall_nil.
  - reflexivity.
  - apply (set_up_rep false h); try done; try exact zero_ring_empty; by apply Forall_nil.
  - reflexivity.
Qed.
