(* ===== verification/SmsgProps.v ===== *)
(** * What holds of a message link

    The channel table, the states of the channels, the order of the messages of
    a channel, the opening of a channel that waits for the peer, and two ways in
    which the code of [Smsg] fails. *)

From S2P Require Import Prelude Ring Kernel Smsg SmsgLink.

#[local] Open Scope Z_scope.
#[local] Open Scope c_scope.

(** ** The channel table *)

Lemma cfg_index_find i cfg : ∀ j, 0 ≤ j →
  cfg_index i cfg j
  = j + match list_find (λ c, c = i) cfg with
        | Some (n, _) => Z.of_nat n | None => Z.of_nat (length cfg) end.
Proof.
  induction cfg as [|c cfg IH]; intros j Hj; simpl; [lia|].
  destruct (Z.eqb_spec c i) as [->|Hne]; [rewrite decide_True by done; lia|].
  rewrite decide_False, IH by (done || lia).
  destruct (list_find _ cfg) as [[n d]|]; simpl; lia.
Qed.

(** The table built from the configuration maps every channel number of 8
    bits to its position in [sipc_cfg], and every number that is not configured
    to the invalid index. *)
Theorem channel2index_spec chan :
  0 ≤ chan < 256 →
  sipc_channel2index chan
  = match list_find (λ c, c = chan) sipc_cfg with
    | Some (n, _) => Z.of_nat n | None => INVALID_CHANEL_INDEX end.
Proof.
  intros Hc. unfold sipc_channel2index.
  change channel2index with smsg_init_channel2index. unfold smsg_init_channel2index.
  rewrite u8_small, nth_lookup, list_lookup_fmap, lookup_seqZ_lt by (unfold SMSG_CH_NR; lia).
  cbn [fmap option_fmap option_map default from_option].
  rewrite Z2Nat.id, !Z.add_0_l, cfg_index_find, Z.add_0_l by lia.
  destruct (list_find _ sipc_cfg) as [[n d]|] eqn:E; [|done].
  apply list_find_Some in E as (En & _ & _). apply lookup_lt_Some in En.
  unfold SMSG_VALID_CH_NR. rewrite (proj2 (Z.eqb_neq _ _)) by lia.
  apply u8_small. vm_compute in En. lia.
Qed.

(** ** The states of the channels *)

(** Between operations a channel that does not exist is unused or was opened by
    the peer, and one that exists is open. *)
Definition slot_ok (x : Z) (l : option (list smsg)) : Prop :=
  match l with
  | None => x = CHAN_STATE_UNUSED ∨ x = CHAN_STATE_CLIENT_OPENED
  | Some _ => x = CHAN_STATE_OPENED
  end.

Definition port_ok (p : port) : Prop := Forall2 slot_ok (p_states p) (p_inbox p).

Lemma port_ok_both k x l p : port_ok p → slot_ok x l → port_ok (with_state k x (with_inbox k l p)).
Proof. intros. by apply Forall2_insert. Qed.

Lemma port_ok_inbox k l l' p :
  port_ok p → p_inbox p !! k = Some (Some l) → port_ok (with_inbox k (Some l') p).
Proof.
  intros Hp Hk. destruct (Forall2_lookup_r _ _ _ _ _ Hp Hk) as (x & Hx & Hs).
  unfold port_ok, with_inbox. simpl. rewrite <- (list_insert_id (p_states p) k x) by done.
  by apply Forall2_insert.
Qed.

Lemma port_ok_state k x p :
  port_ok p → p_inbox p !! k = Some None → slot_ok x None → port_ok (with_state k x p).
Proof.
  intros Hp Hk Hx. unfold port_ok, with_state. simpl.
  rewrite <- (list_insert_id (p_inbox p) k None) by done. by apply Forall2_insert.
Qed.

Lemma port_deliver_ok p m :
  port_ok p → length (p_inbox p) = length sipc_cfg → port_ok (port_deliver p m).
Proof.
  intros Hp Hlen. unfold port_deliver. pose proof (index_spec (channel m)) as Hx.
  destruct (index (channel m)) as [k|]; [|done]. destruct Hx as [_ Hk].
  destruct (_ <=? _); [done|]. destruct (p_inbox p !! k) as [[l|]|] eqn:El.
  - destruct (_ <=? _); [done|]. by eapply port_ok_inbox.
  - destruct (_ && _); [|done]. apply port_ok_state; [done|done|by right].
  - apply lookup_ge_None in El. lia.
Qed.

Lemma port_deliver_length p m : length (p_inbox (port_deliver p m)) = length (p_inbox p).
Proof.
  unfold port_deliver. destruct (index _); [|done]. repeat case_match; simpl; try done;
    by rewrite length_insert.
Qed.

Lemma deliver_all_ok inn : ∀ p, port_ok p → length (p_inbox p) = length sipc_cfg →
  port_ok (foldl port_deliver p inn).
Proof.
  induction inn as [|m inn IH]; intros p Hp Hlen; [done|]. simpl.
  apply IH; [by apply port_deliver_ok|by rewrite port_deliver_length].
Qed.

Lemma port_recv_ok p chan : port_ok p → port_ok (port_recv p chan).2.
Proof.
  intros Hp. unfold port_recv. repeat case_match; simpl; try done. by eapply port_ok_inbox.
Qed.
Lemma port_open_ok p out chan : port_ok p → port_ok (port_open p out chan).1.2.
Proof.
  intros Hp. unfold port_open. repeat case_match; simpl; try done; apply port_ok_both; try done.
  all: by left.
Qed.
Lemma port_close_ok p out chan : port_ok p → port_ok (port_close p out chan).1.2.
Proof.
  intros Hp. unfold port_close. repeat case_match; simpl; try done; apply port_ok_both; try done.
  by left.
Qed.

Definition wire_ok (a : wire) : Prop := ∀ s, port_ok (port_of s a).

Lemma wire_ok_put s p a : wire_ok a → port_ok p → wire_ok (put_port s p a).
Proof. intros Ha Hp s'. specialize (Ha s'). by destruct s, s'. Qed.
Lemma wire_ok_from s q a : wire_ok a → wire_ok (put_from s q a).
Proof. intros Ha s'. specialize (Ha s'). by destruct s, s'. Qed.

Lemma wire_step_ok l a c : link_rep l a → wire_ok a → wire_ok (wire_step a c).2.
Proof.
  intros Hl Ha. destruct c as [s []]; simpl.
  - by apply wire_ok_from.
  - by apply wire_ok_from.
  - apply wire_ok_from, wire_ok_put; [done|]. apply deliver_all_ok; [done|].
    destruct (Hl s) as (i & [] & _). done.
  - pose proof (port_recv_ok _ chan (Ha s)) as H.
    destruct (port_recv _ _) as [[r m] p']. by apply wire_ok_put.
  - pose proof (port_open_ok _ (from s a) chan (Ha s)) as H.
    destruct (port_open _ _ _) as [[r p'] out']. by apply wire_ok_from, wire_ok_put.
  - pose proof (port_close_ok _ (from s a) chan (Ha s)) as H.
    destruct (port_close _ _ _) as [[r p'] out']. by apply wire_ok_from, wire_ok_put.
Qed.

(** The states that the two sides reach from their start. *)
Inductive reachable (h c : memory_services) (junk : page) : link → Prop :=
| reachable_start l : start h c junk = Done l → reachable h c junk l
| reachable_step l l' call x :
    reachable h c junk l → link_step l call = Done (x, l') → reachable h c junk l'.

(** What holds of a channel of one side. *)
Definition channel_ok (i : smsg_ipc) (h : list (option smsg_channel)) (k : nat) : Prop :=
  busy i !! k = Some 0
  ∧ (channels i !! k = Some None
     ∧ (states i !! k = Some CHAN_STATE_UNUSED ∨ states i !! k = Some CHAN_STATE_CLIENT_OPENED)
     ∨ ∃ q ch, channels i !! k = Some (Some q) ∧ h !! q = Some (Some ch)
        ∧ states i !! k = Some CHAN_STATE_OPENED ∧ rxlock ch = false
        ∧ u32 (wrptr ch - rdptr ch) ≤ SMSG_CACHE_NR).

Lemma channel_ok_rep w p out inn i k :
  port_rep idle w p out inn i → port_ok p → (k < length sipc_cfg)%nat →
  channel_ok i (heap w) k.
Proof.
  intros Hr Hp Hk.
  destruct (rep_channel _ _ _ _ _ _ Hr k Hk) as (c & l & x & Hc & Hl & Hs & Hst & _ & Hst').
  pose proof (Forall2_lookup_lr _ _ _ _ _ _ Hp Hst' Hl) as Hok. split.
  { rewrite (pr_busy _ _ _ _ _ _ Hr). by apply lookup_replicate_2. }
  rewrite Hst. destruct c as [q|], l as [l|]; try done.
  - right. destruct Hs as (ch & Hch & Hlk & Hring). exists q, ch. simpl in Hok. subst x.
    split_and!; try done. rewrite (rep_count _ _ _ _ _ Hring). apply (rep_cap _ _ _ _ _ Hring).
  - left. simpl in Hok. destruct Hok as [->| ->]; auto.
Qed.

(** In every state that the two sides reach from their start by complete calls that
    do not wait, with memory and resources granted, every channel of either side
    is idle and consistent: either it has no object and is unused or opened by the
    peer only, or it has an object that is allocated, unlocked, holds at most 256
    messages, and its state is "opened".  The states inside a call that waits for
    the peer are not among them; [answered] below describes one. *)
Theorem smsg_channels_invariant h c junk l :
  smem_init h = 0 → smem_alloc h ≠ 0 → vmap h = true →
  smem_init c = 0 → smem_alloc c ≠ 0 → vmap c = true →
  reachable h c junk l →
  ∀ s k, (k < length sipc_cfg)%nat →
  ∃ i, ipc (end_of s l) = Some i ∧ channel_ok i (heap (end_of s l)) k.
Proof.
  intros H1 H2 H3 H4 H5 H6 Hreach.
  assert (∃ a, link_rep l a ∧ wire_ok a) as (a & Hl & Ha).
  { induction Hreach as [l Hl|l l' call x Hreach (a & Hl & Ha) E].
    - destruct (start_rep h c junk) as (l' & E & Hl'); [done..|].
      rewrite Hl in E. injection E as <-. exists empty_wire. split; [done|].
      intros []; apply Forall2_replicate; by left.
    - destruct (wire_step_refines l a call Hl) as (l1 & E1 & Hl1).
      rewrite E in E1. injection E1 as -> ->. exists (wire_step a call).2.
      split; [done|]. by eapply wire_step_ok. }
  intros s k Hk. destruct (Hl s) as (i & Hr & _). exists i. split; [apply Hr|].
  by eapply channel_ok_rep.
Qed.

(** ** Order and completeness of a channel

    Side [s] sends on channel [k], the other side receives.  While the channel
    stays open on the receiving side and not more than [INBOX_MAX] messages are
    outstanding, what is received is what was sent, in order. *)

Section Fifo.
Context (s : bool) (k : nat).

Definition on_k (m : smsg) : Prop := index (channel m) = Some k.
#[local] Instance on_k_dec m : Decision (on_k m) := decide (index (channel m) = Some k).

(** Sent and not yet received. *)
Definition pending (a : wire) : list smsg :=
  default [] (default None (p_inbox (port_of (negb s) a) !! k)) ++ filter on_k (from s a).

(** Calls that neither open nor close the channel, nor send on it a message of
    an unknown type or the death notice. *)
Definition plain (c : bool * call) : Prop :=
  match c.2 with
  | Open chan | Close chan => index chan ≠ Some k
  | Die => index SMSG_CH_CTRL ≠ Some k
  | Send m => type m < SMSG_TYPE_NR
  | _ => True
  end.

Definition sent_by (c : bool * call) (x : answer) : list smsg :=
  match c, x with
  | (s', Send m), ARet r =>
    if decide (s' = s ∧ r = 0 ∧ on_k m) then [m] else []
  | _, _ => []
  end.
Definition received_by (c : bool * call) (x : answer) : list smsg :=
  match c, x with
  | (s', Recv chan), AMsg _ (Some m) =>
    if decide (s' = negb s ∧ index chan = Some k) then [m] else []
  | _, _ => []
  end.

Fixpoint sent_in (cs : list (bool * call)) (xs : list answer) : list smsg :=
  match cs, xs with c :: cs, x :: xs => sent_by c x ++ sent_in cs xs | _, _ => [] end.
Fixpoint received_in (cs : list (bool * call)) (xs : list answer) : list smsg :=
  match cs, xs with c :: cs, x :: xs => received_by c x ++ received_in cs xs | _, _ => [] end.

(** At every point of the run the outstanding messages fit the inbox. *)
Fixpoint uncongested (a : wire) (cs : list (bool * call)) : Prop :=
  Z.of_nat (length (pending a)) ≤ INBOX_MAX
  ∧ match cs with [] => True | c :: cs => uncongested (wire_step a c).2 cs end.

(** The channel is open at the receiver, and only known types are under way. *)
Definition flowing (a : wire) : Prop :=
  (∃ l, p_inbox (port_of (negb s) a) !! k = Some (Some l))
  ∧ Forall (λ m, on_k m → type m < SMSG_TYPE_NR) (from s a).

Lemma deliver_flow inn : ∀ p l,
  p_inbox p !! k = Some (Some l) → Forall (λ m, on_k m → type m < SMSG_TYPE_NR) inn →
  Z.of_nat (length (l ++ filter on_k inn)) ≤ INBOX_MAX →
  p_inbox (foldl port_deliver p inn) !! k = Some (Some (l ++ filter on_k inn)).
Proof.
  induction inn as [|m inn IH]; intros p l Hp Hty Hlen; simpl; [by rewrite app_nil_r|].
  apply Forall_cons in Hty as [Hm Hty]. rewrite filter_cons in Hlen |- *.
  destruct (decide (on_k m)) as [Hk|Hk].
  - rewrite cons_middle, app_assoc in Hlen |- *. apply IH; [|done|done].
    unfold port_deliver. rewrite Hk. specialize (Hm Hk).
    rewrite (proj2 (Z.leb_gt _ _)) by done. rewrite Hp.
    rewrite (proj2 (Z.leb_gt _ _)) by (rewrite !length_app in Hlen; simpl in Hlen; lia).
    simpl. by eapply lookup_insert_id.
  - apply IH; [|done|done]. unfold port_deliver. unfold on_k in Hk.
    destruct (index (channel m)) as [j|]; [|done]. assert (j ≠ k) by congruence.
    repeat case_match; simpl; rewrite ?list_lookup_insert_ne by done; done.
Qed.

Lemma port_other_recv p chan :
  index chan ≠ Some k → p_inbox (port_recv p chan).2 !! k = p_inbox p !! k.
Proof.
  intros Hk. unfold port_recv. destruct (index chan) as [j|]; [|done].
  assert (j ≠ k) by congruence. repeat case_match; simpl;
    rewrite ?list_lookup_insert_ne by done; done.
Qed.
Lemma port_other_open p out chan :
  index chan ≠ Some k → p_inbox (port_open p out chan).1.2 !! k = p_inbox p !! k
    ∧ filter on_k (port_open p out chan).2 = filter on_k out.
Proof.
  intros Hk. unfold port_open. destruct (index chan) as [j|] eqn:Ej; [|done].
  assert (j ≠ k) by congruence. repeat case_match; simpl;
    rewrite ?list_lookup_insert_ne by done; (split; [done|]); try done.
  all: rewrite filter_app, filter_cons_False; [by rewrite filter_nil, app_nil_r|].
  all: unfold on_k; simpl; congruence.
Qed.
Lemma port_other_send p out m :
  ¬ on_k m → filter on_k (port_send p out m).2 = filter on_k out.
Proof.
  intros Hk. unfold port_send. repeat case_match; simpl; try done.
  rewrite filter_app, filter_cons_False by done. by rewrite filter_nil, app_nil_r.
Qed.
Lemma port_other_close p out chan :
  index chan ≠ Some k → p_inbox (port_close p out chan).1.2 !! k = p_inbox p !! k
    ∧ filter on_k (port_close p out chan).2 = filter on_k out.
Proof.
  intros Hk. unfold port_close. destruct (index chan) as [j|] eqn:Ej; [|done].
  assert (j ≠ k) by congruence. repeat case_match; simpl;
    rewrite ?list_lookup_insert_ne by done; (split; [done|]); try done.
  apply port_other_send. unfold on_k. simpl. congruence.
Qed.

Lemma port_of_put_from t t' q a : port_of t (put_from t' q a) = port_of t a.
Proof. by destruct t, t'. Qed.
Lemma from_put_port t t' p a : from t (put_port t' p a) = from t a.
Proof. by destruct t, t'. Qed.
Lemma port_of_put t t' p a : port_of t (put_port t' p a) = if decide (t = t') then p else port_of t a.
Proof. by destruct t, t'. Qed.
Lemma from_put t t' q a : from t (put_from t' q a) = if decide (t = t') then q else from t a.
Proof. by destruct t, t'. Qed.
Lemma not_negb : s ≠ negb s.
Proof. by destruct s. Qed.
Lemma negb_or t : t = s ∨ t = negb s.
Proof. destruct s, t; auto. Qed.

(** A step that changes neither the inbox of the channel nor its messages. *)
Lemma fifo_same a a' :
  p_inbox (port_of (negb s) a') !! k = p_inbox (port_of (negb s) a) !! k →
  filter on_k (from s a') = filter on_k (from s a) →
  (Forall (λ m, on_k m → type m < SMSG_TYPE_NR) (from s a) →
   Forall (λ m, on_k m → type m < SMSG_TYPE_NR) (from s a')) →
  flowing a → flowing a' ∧ pending a' = pending a ++ [].
Proof.
  intros E1 E2 E3 [[l Hl] Hty]. unfold flowing, pending. rewrite E1, E2, app_nil_r. eauto.
Qed.

Lemma typed_filter (q q' : list smsg) :
  filter on_k q' = filter on_k q →
  Forall (λ m, on_k m → type m < SMSG_TYPE_NR) q → Forall (λ m, on_k m → type m < SMSG_TYPE_NR) q'.
Proof.
  intros E H. apply Forall_forall. intros m Hm Hk.
  assert (m ∈ filter on_k q) as [_ Hq]%list_elem_of_filter
    by (rewrite <- E; by apply list_elem_of_filter).
  rewrite Forall_forall in H. auto.
Qed.

Definition flow_step (a : wire) (c : bool * call) : Prop :=
  flowing (wire_step a c).2
  ∧ received_by c (wire_step a c).1 ++ pending (wire_step a c).2
    = pending a ++ sent_by c (wire_step a c).1.

Lemma flow_other a c :
  flowing a → received_by c (wire_step a c).1 = [] → sent_by c (wire_step a c).1 = [] →
  p_inbox (port_of (negb s) (wire_step a c).2) !! k = p_inbox (port_of (negb s) a) !! k →
  filter on_k (from s (wire_step a c).2) = filter on_k (from s a) →
  flow_step a c.
Proof.
  intros Hf E1 E2 E3 E4. unfold flow_step. rewrite E1, E2.
  apply fifo_same; try done. by apply typed_filter.
Qed.

Lemma port_send_cases p out m :
  (∃ r, r ≠ 0 ∧ port_send p out m = (r, out)) ∨ port_send p out m = (0, out ++ [m]).
Proof. unfold port_send. repeat case_match; eauto; left; eexists; (split; [|done]); done. Qed.

Lemma flow_send a m : flowing a → type m < SMSG_TYPE_NR → flow_step a (s, Send m).
Proof.
  intros Hf Hty. pose proof Hf as [[l Hl] Hall]. unfold flow_step, flowing, pending. simpl.
  rewrite port_of_put_from, from_put, decide_True, Hl by done. simpl.
  destruct (port_send_cases (port_of s a) (from s a) m) as [(r & Hr & ->)| ->]; simpl.
  { rewrite decide_False, app_nil_r by intuition congruence. eauto. }
  split; [split; [by eauto|]|].
  - apply Forall_app_2; [done|]. by repeat constructor.
  - rewrite filter_app, app_assoc. f_equal. destruct (decide (on_k m)) as [Hk|Hk].
    + by rewrite filter_cons_True, decide_True.
    + rewrite filter_cons_False, decide_False by intuition congruence. done.
Qed.

Lemma flow_irq a :
  flowing a → Z.of_nat (length (pending a)) ≤ INBOX_MAX → flow_step a (negb s, Irq).
Proof.
  intros [[l Hl] Hall] Hlen. unfold flow_step, flowing, pending in *. rewrite Hl in *. simpl in *.
  rewrite port_of_put_from, port_of_put, decide_True, negb_involutive, from_put by done.
  rewrite decide_True by done. rewrite (deliver_flow _ _ l) by done.
  split; [split; [by eauto|by apply Forall_nil]|]. simpl. by rewrite !app_nil_r.
Qed.

Lemma flow_recv a chan : flowing a → flow_step a (negb s, Recv chan).
Proof.
  intros Hf. pose proof Hf as [[l Hl] Hall].
  destruct (decide (index chan = Some k)) as [Hk|Hk].
  - unfold flow_step, flowing, pending. simpl. unfold port_recv. rewrite Hk, Hl.
    destruct l as [|m l]; simpl; rewrite from_put_port, port_of_put, decide_True by done.
    + rewrite Hl, app_nil_r. eauto.
    + rewrite decide_True by done. simpl. erewrite lookup_insert_id by done.
      rewrite app_nil_r. eauto.
  - pose proof (port_other_recv (port_of (negb s) a) chan Hk) as E.
    apply flow_other; simpl; destruct (port_recv _ _) as [[r m] p'] eqn:Er; simpl in *;
      rewrite ?from_put_port, ?port_of_put, ?decide_True by done; try done.
    destruct m; [|done]. rewrite decide_False by intuition congruence. done.
Qed.

(** A call by side [t] that acts on other channels only. *)
Lemma flow_open a t chan : flowing a → index chan ≠ Some k → flow_step a (t, Open chan).
Proof.
  intros Hf Hk. pose proof (port_other_open (port_of t a) (from t a) chan Hk) as [E1 E2].
  apply flow_other; simpl; destruct (port_open _ _ _) as [[r p'] out'] eqn:Er; simpl in *;
    rewrite ?port_of_put_from, ?from_put, ?from_put_port, ?port_of_put; try done.
  - case_decide; [by subst|done].
  - case_decide; [by subst|done].
Qed.
Lemma flow_close a t chan : flowing a → index chan ≠ Some k → flow_step a (t, Close chan).
Proof.
  intros Hf Hk. pose proof (port_other_close (port_of t a) (from t a) chan Hk) as [E1 E2].
  apply flow_other; simpl; destruct (port_close _ _ _) as [[r p'] out'] eqn:Er; simpl in *;
    rewrite ?port_of_put_from, ?from_put, ?from_put_port, ?port_of_put; try done.
  - case_decide; [by subst|done].
  - case_decide; [by subst|done].
Qed.

Lemma flow_die a t : flowing a → index SMSG_CH_CTRL ≠ Some k → flow_step a (t, Die).
Proof.
  intros Hf Hk. apply flow_other; simpl; rewrite ?port_of_put_from, ?from_put; try done.
  case_decide; [subst|done]. unfold port_die. case_match; [done|]. simpl.
  rewrite filter_app, filter_cons_False, filter_nil, app_nil_r by done. done.
Qed.

Lemma flow_sender a : flowing a → flow_step a (s, Irq) ∧ (∀ chan, flow_step a (s, Recv chan)).
Proof.
  intros Hf. pose proof not_negb as Hn. split; [|intros chan];
    apply flow_other; simpl; try destruct (port_recv _ _) as [[r m] p']; simpl;
    rewrite ?port_of_put_from, ?from_put, ?from_put_port, ?port_of_put; try done;
    try (rewrite decide_False by intuition congruence); try done.
  destruct m; [|done]. by rewrite decide_False by intuition congruence.
Qed.

Lemma flow_peer_send a m : flowing a → flow_step a (negb s, Send m).
Proof.
  intros Hf. pose proof not_negb as Hn. apply flow_other; simpl;
    rewrite ?port_of_put_from, ?from_put; try done.
  - by rewrite decide_False by intuition congruence.
  - by rewrite decide_False by intuition congruence.
Qed.

Lemma flow_any a c :
  flowing a → plain c → Z.of_nat (length (pending a)) ≤ INBOX_MAX → flow_step a c.
Proof.
  intros Hf Hc Hlen. destruct c as [t c]. destruct (flow_sender a Hf) as [Hi Hr].
  destruct c; simpl in Hc; try (by apply flow_die || by apply flow_open || by apply flow_close);
    destruct (negb_or t) as [->| ->].
  - by apply flow_send.
  - by apply flow_peer_send.
  - done.
  - by apply flow_irq.
  - done.
  - by apply flow_recv.
Qed.

Lemma flow_run cs : ∀ a,
  flowing a → Forall plain cs → uncongested a cs →
  received_in cs (wire_run a cs).1 ++ pending (wire_run a cs).2
  = pending a ++ sent_in cs (wire_run a cs).1.
Proof.
  induction cs as [|c cs IH]; intros a Hf Hp Hu; [by rewrite app_nil_r|].
  apply Forall_cons in Hp as [Hc Hp]. destruct Hu as [Hlen Hu].
  destruct (flow_any a c Hf Hc Hlen) as [Hf' E]. specialize (IH _ Hf' Hp Hu). simpl.
  destruct (wire_step a c) as [x a1]. simpl in *. destruct (wire_run a1 cs) as [xs a2].
  simpl in *. by rewrite <- app_assoc, IH, app_assoc, E, app_assoc.
Qed.
End Fifo.

(** On a channel that stays open at the receiver, whose sender neither opens nor
    closes it and sends messages of known types ([plain], [flowing]), and with at
    most 256 messages outstanding, what the receiver gets, followed by what is
    still on its way, is what the sender was told to have sent, in order and
    complete, whatever both sides do on the other channels.  (A message of an
    unknown type is accepted by [smsg_send] and dropped by the receiver.) *)
Theorem smsg_channel_fifo s k l a cs :
  link_rep l a → flowing s k a → Forall (plain k) cs → uncongested s k a cs →
  ∃ answers l' a', link_run l cs = Done (answers, l') ∧ link_rep l' a'
    ∧ received_in s k cs answers ++ pending s k a' = pending s k a ++ sent_in s k cs answers.
Proof.
  intros Hl Hf Hp Hu. destruct (wire_run_refines cs l a Hl) as (l' & E & Hl').
  exists (wire_run a cs).1, l', (wire_run a cs).2. split_and!; [done|done|].
  by apply flow_run.
Qed.

(** ** Opening a channel before the peer does

    [smsg_ch_open] sends its own message, and waits for the peer's. *)

(** What the receive of [smsg_ch_open] meets when it is woken: the peer's
    message is first in the cache, and the channel is as it was left. *)
Record answered (chan : Z) (k q : nat) (w : world) (i : smsg_ipc) (ch : smsg_channel)
  (l : list smsg) : Prop := {
  an_ipc : ipc w = Some i;
  an_channel : channels i !! k = Some (Some q);
  an_busy : busy i !! k = Some 2;
  an_state : states i !! k = Some CHAN_STATE_HOST_OPENED;
  an_heap : heap w !! q = Some (Some ch);
  an_cache : ring_rep SMSG_CACHE_NR (rdptr ch) (wrptr ch) (caches ch) (open_msg chan :: l);
}.

(** The result of a wait that is woken once. *)
Definition woken (timeout : Z) : Z := if timeout <? 0 then 0 else Z.max 1 (timeout - 1).

Section Handshake.
Context (chan timeout : Z) (k q : nat) (w2 : world) (i2 : smsg_ipc) (ch2 : smsg_channel)
  (l : list smsg).
Context (Hidx : index chan = Some k) (Hk : (k < length sipc_cfg)%nat) (Ht : timeout ≠ 0)
  (Hw2 : answered chan k q w2 i2 ch2 l).

Lemma answered_ready : recv_ready (Z.of_nat k) q w2 = true ∧ is_free (Z.of_nat k) w2 = false.
Proof using Hw2.
  destruct Hw2 as [E1 E2 E3 E4 E5 E6]. unfold recv_ready, is_free. rewrite E1, E5.
  rewrite Nat2Z.id, nth_lookup, E4. split; [|done].
  rewrite Z.eqb_sym, (rep_empty _ _ _ _ _ E6). done.
Qed.

(** The wait for the peer's message, whichever kind it is. *)
Lemma wait_answered {A} (f : Z → sm A) w (Φ : A → world → Prop) :
  recv_ready (Z.of_nat k) q w = false →
  (runs (f (woken timeout)) w2 Φ) →
  runs (rval ←
        (if timeout =? 0 then
           ch ← deref q;
           mret (if wrptr ch =? rdptr ch then - ENODATA else 0)
         else if timeout <? 0 then
           rval ← wait_event_interruptible (recv_ready (Z.of_nat k) q) [Wake w2];
           if rval <? 0 then mret rval else
           w ← get_state;
           mret (if is_free (Z.of_nat k) w then - EIO else rval)
         else
           rval ← wait_event_interruptible_timeout (recv_ready (Z.of_nat k) q) [Wake w2]
                    (Z.to_nat timeout);
           if rval <? 0 then mret rval
           else if rval =? 0 then mret (- ETIME) else
           w ← get_state;
           mret (if is_free (Z.of_nat k) w then - EIO else rval)); f rval) w Φ.
Proof using Hw2 Ht Hk.
  intros Hw H. destruct answered_ready as [Hready Hfree].
  rewrite (proj2 (Z.eqb_neq _ _) Ht). apply runs_bind. unfold woken in H.
  destruct (Z.ltb_spec timeout 0).
  - apply runs_bind, runs_exact with 0 w2; [simpl; by rewrite Hw, Hready|].
    apply runs_bind, runs_get. rewrite Hfree. by apply runs_ret.
  - apply runs_bind, runs_exact with (Z.max 1 (timeout - 1)) w2.
    { destruct (Z.to_nat timeout) as [|n] eqn:En; [lia|]. simpl. rewrite Hw.
      replace (Z.of_nat n) with (timeout - 1) by lia. destruct n; by rewrite Hready. }
    replace (Z.max 1 (timeout - 1) <? 0) with false by lia.
    replace (Z.max 1 (timeout - 1) =? 0) with false by lia.
    apply runs_bind, runs_get. rewrite Hfree. by apply runs_ret.
Qed.

(** The state after the message was taken. *)
Definition taken : world :=
  with_ipc (on_busy <[k := 1]> i2)
    (with_heap (<[q := Some (SmsgChannel false (wrptr ch2) (u32 (rdptr ch2 + 1)) (caches ch2))]>
                  (heap w2)) w2).

Lemma runs_recv_answered b w p out inn i (Φ : Z * option smsg → world → Prop) :
  port_rep b w p out inn i → channels i !! k = Some (Some q) →
  p_inbox p !! k = Some (Some []) → states i !! k = Some CHAN_STATE_HOST_OPENED →
  Φ (woken timeout, Some (open_msg chan)) taken →
  runs (smsg_recv (Waits [] [Wake w2]) chan timeout) w Φ.
Proof using Hidx Hk Ht Hw2.
  intros Hr Hq Hin Hst HΦ. pose proof Hw2 as [E1 E2 E3 E4 E5 E6]. unfold smsg_recv.
  pose proof (index_spec chan) as Hx. rewrite Hidx in Hx. destruct Hx as [-> _].
  rewrite index_valid by done. apply runs_bind, runs_get. rewrite (pr_ipc _ _ _ _ _ _ Hr).
  apply runs_bind. eapply runs_enter; [done|exact Hr|]. intros i1 Hr1 _ Ech1.
  destruct (rep_channel _ _ _ _ _ _ Hr1 k Hk) as (c & l' & x & Hc & Hl & Hs & Hst1 & _).
  assert (Hx : x = CHAN_STATE_HOST_OPENED).
  { rewrite (pr_states _ _ _ _ _ _ Hr1) in Hst1. rewrite (pr_states _ _ _ _ _ _ Hr) in Hst.
    congruence. }
  assert (c = Some q) as -> by congruence. assert (l' = Some []) as -> by congruence.
  destruct Hs as (ch & Hch & Hlk & Hring).
  apply runs_bind. eapply runs_read_at; [apply Hr1|exact Hc|].
  cbv beta iota. rewrite (proj2 (Z.eqb_neq _ _) Ht) at 1.
  apply runs_bind, runs_bind, runs_bind, runs_exact with 0 (with_ipc i1 w).
  { apply wait_now. unfold unlocked. change (heap w !! q = Some (Some ch)) in Hch. simpl.
    by rewrite Hch, Hlk. }
  apply runs_bind. eapply runs_set_rxlock; [exact Hch|]. apply runs_ret, runs_ret.
  cbn [negb]. apply (wait_answered (λ rval, _)).
  { unfold recv_ready. simpl. erewrite lookup_write by exact Hch. simpl.
    rewrite Z.eqb_sym, (rep_empty _ _ _ _ _ Hring). unfold is_free. simpl.
    rewrite Nat2Z.id, nth_lookup, Hst1, Hx. done. }
  assert (0 ≤ woken timeout) by (unfold woken; destruct (timeout <? 0); lia).
  rewrite (proj2 (Z.ltb_ge _ _)) by done.
  destruct (rep_pop _ _ _ _ _ _ E6) as [Hslot Hpop].
  pose proof (rep_pos _ _ _ _ _ (rdptr ch2) E6) as [Emask _].
  change (u32 (SMSG_CACHE_NR - 1)) with (SMSG_CACHE_NR - 1) in Emask.
  apply runs_bind, runs_bind. eapply runs_deref; [exact E5|]. cbv zeta. rewrite Emask.
  pose proof (Z.mod_pos_bound (rdptr ch2) SMSG_CACHE_NR ltac:(done)).
  apply runs_bind, runs_check; [by rewrite (rep_length _ _ _ _ _ E6)|].
  apply runs_bind. eapply runs_write; [exact E5|]. apply runs_ret. rewrite Hslot.
  apply runs_bind. eapply runs_set_rxlock; [simpl; by eapply lookup_write|].
  apply runs_bind. eapply runs_add_busy with (x := 2) (i := i2); [exact E1|exact E3|].
  apply runs_ret. simpl. rewrite list_insert_insert_eq. exact HΦ.
Qed.
End Handshake.

(** The end of the opening, after the peer's message was taken. *)
Lemma runs_after_answer chan timeout k q w2 i2 ch2 l (Φ : Z → world → Prop) :
  (k < length sipc_cfg)%nat → answered chan k q w2 i2 ch2 l →
  (∀ w' i', ipc w' = Some i' → busy i' !! k = Some 0 →
     states i' !! k = Some CHAN_STATE_OPENED → channels i' !! k = Some (Some q) →
     woken timeout = 0 → Φ 0 w') →
  (∀ w' i', ipc w' = Some i' → busy i' !! k = Some 0 →
     states i' !! k = Some CHAN_STATE_UNUSED → channels i' !! k = Some None →
     heap w' !! q = Some None → woken timeout ≠ 0 → Φ (woken timeout) w') →
  runs (if negb (woken timeout =? 0) then open_failed (Z.of_nat k) q [] (woken timeout)
        else open_done (Z.of_nat k)) (taken k q w2 i2 ch2) Φ.
Proof.
  intros Hk [E1 E2 E3 E4 E5 E6] Hok Hbad.
  destruct (Z.eqb_spec (woken timeout) 0) as [E0|E0]; simpl negb; cbn match.
  - apply runs_bind. eapply runs_set_state; [reflexivity|by eapply lookup_lt_Some|].
    apply runs_bind. eapply runs_add_busy with (x := 1);
      [reflexivity|simpl; by eapply lookup_insert_id|].
    apply runs_ret. eapply Hok; [reflexivity|simpl|simpl|simpl|done].
    + rewrite list_insert_insert_eq. by eapply lookup_insert_id.
    + by eapply lookup_insert_id.
    + done.
  - assert (Hb : <[k := 1 + -1]> (<[k := 1]> (busy i2)) !! k = Some 0)
      by (rewrite list_insert_insert_eq; by eapply lookup_insert_id).
    apply runs_bind. eapply runs_set_state; [reflexivity|by eapply lookup_lt_Some|].
    apply runs_bind. eapply runs_set_channel; [reflexivity|by eapply lookup_lt_Some|].
    apply runs_bind. eapply runs_add_busy with (x := 1);
      [reflexivity|simpl; by eapply lookup_insert_id|].
    apply runs_bind. eapply runs_exact.
    { apply spin_now. unfold not_busy. simpl. by rewrite Nat2Z.id, nth_lookup, Hb. }
    apply runs_bind. eapply runs_kfree; [simpl; by eapply lookup_write|]. apply runs_ret.
    eapply Hbad; [reflexivity|exact Hb|simpl..|done].
    + by eapply lookup_insert_id.
    + by eapply lookup_insert_id.
    + eapply lookup_insert_id. by eapply lookup_write.
Qed.

Lemma recv_open_answered chan timeout k q w2 i2 ch2 l p out inn w i (Φ : Z → world → Prop) :
  index chan = Some k → (k < length sipc_cfg)%nat → timeout ≠ 0 →
  answered chan k q w2 i2 ch2 l →
  port_rep (busier k idle) w p out inn i → channels i !! k = Some (Some q) →
  p_inbox p !! k = Some (Some []) → states i !! k = Some CHAN_STATE_HOST_OPENED →
  runs (if negb (woken timeout =? 0) then open_failed (Z.of_nat k) q [] (woken timeout)
        else open_done (Z.of_nat k)) (taken k q w2 i2 ch2) Φ →
  runs (recv_open [Waits [] [Wake w2]] chan timeout (Z.of_nat k) q []) w Φ.
Proof.
  intros Hidx Hk Ht Hw2 Hr Hq Hin Hst HΦ. simpl recv_open. apply runs_bind.
  eapply runs_recv_answered; [done..|]. simpl. by destruct (negb (_ =? 0)).
Qed.

(** The side that opens a channel first waits for the peer's message.  With
    no time limit the call returns 0 and the channel is open once the message
    has arrived.  With a time limit the same message makes the call fail: the
    receive returns the remaining time, which is taken for an error, the channel
    is removed, and that time is returned. *)
Theorem smsg_ch_open_waits w p out inn i chan timeout k w2 i2 ch2 l :
  port_rep idle w p out inn i → index chan = Some k →
  Z.of_nat (length out) < TRANSIT_MAX → p_states p !! k ≠ Some CHAN_STATE_CLIENT_OPENED →
  timeout ≠ 0 → answered chan k (length (heap w)) w2 i2 ch2 l →
  runs (smsg_ch_open true 0 [Waits [] [Wake w2]] [] chan timeout) w (λ rval w', ∃ i',
    ipc w' = Some i' ∧ busy i' !! k = Some 0
    ∧ (timeout < 0 → rval = 0 ∧ states i' !! k = Some CHAN_STATE_OPENED
                     ∧ channels i' !! k = Some (Some (length (heap w))))
    ∧ (0 < timeout → rval = Z.max 1 (timeout - 1) ∧ states i' !! k = Some CHAN_STATE_UNUSED
                     ∧ channels i' !! k = Some None ∧ heap w' !! length (heap w) = Some None)).
Proof.
  intros Hr Hidx Hout Hst Ht Hw2. pose proof (index_spec chan) as Hx. unfold smsg_ch_open.
  rewrite Hidx in Hx. destruct Hx as [-> Hk]. rewrite index_valid by done.
  pose proof (pr_lslots _ _ _ _ _ _ Hr) as Hlen. pose proof (pr_lstates _ _ _ _ _ _ Hr) as Hlen'.
  destruct (rep_channel _ _ _ _ _ _ Hr k Hk) as (c & l' & x & _ & _ & _ & _ & _ & Hx).
  apply runs_bind, runs_get. rewrite (pr_ipc _ _ _ _ _ _ Hr). cbn [negb].
  eapply runs_open_start; [done|exact Hr|]. intros w1 i1 Hr1 Ec1 Hq1.
  apply runs_bind. eapply runs_port_send; [exact Hr1|].
  change (smsg_set chan _ _ 0) with (open_msg chan).
  rewrite port_send_open by (done || lia). intros w3.
  rewrite (proj2 (Z.leb_gt _ _)) by done. simpl. intros Hr3 _.
  destruct (rep_lengths _ _ _ _ _ _ k Hr3 Hk) as [Hls Hlc].
  apply runs_bind. eapply runs_read_at; [apply Hr3|by rewrite (pr_states _ _ _ _ _ _ Hr3)|].
  assert (x ≠ CHAN_STATE_CLIENT_OPENED) as Hne%Z.eqb_neq by congruence. cbv beta. rewrite Hne.
  apply runs_bind. eapply runs_set_state; [apply Hr3|done|].
  eapply recv_open_answered; [done|done|done|done|by apply rep_state|done| | |].
  { simpl. apply list_lookup_insert_eq. lia. }
  { simpl. by apply list_lookup_insert_eq. }
  eapply runs_after_answer; [done|exact Hw2| |]; unfold woken;
    intros w' i' H1 H2 H3 H4; [intros H5|intros H5 H6]; exists i';
    destruct (Z.ltb_spec timeout 0); split_and!; try done; lia.
Qed.

(** ** A message on a channel that is not configured *)

(** The interrupt handler does not check the channel of an arriving message:
    one whose channel is not configured makes it write the busy counter at index
    255, outside its array. *)
Theorem invalid_channel_out_of_bounds m w i :
  ipc w = Some i → length (busy i) = length sipc_cfg →
  sipc_channel2index (channel m) = INVALID_CHANEL_INDEX →
  smsg_msg_process false m w = OutOfBounds.
Proof.
  intros Hi Hb Hm. unfold smsg_msg_process. rewrite Hm. unfold smsg_die_process.
  rewrite andb_false_r.
  assert (H : ∀ w', ipc w' = Some i →
            add_busy INVALID_CHANEL_INDEX 1 w' = OutOfBounds).
  { intros w' Hi'. unfold add_busy, read_at, the_ipc, mbind, stm_bind. rewrite Hi', outcome_bind_Done.
    replace (busy i !! Z.to_nat INVALID_CHANEL_INDEX) with (@None Z)
      by (symmetry; apply lookup_ge_None; rewrite Hb; vm_compute; lia). done. }
  unfold smsg_wakeup_print, mbind, stm_bind. simpl. destruct (negb (wakeup w =? 0));
    unfold mret, stm_ret; simpl; unfold mbind, outcome_bind; simpl; by rewrite H.
Qed.

(** ** Power-management sources *)

(** Operations that leave the number of sources as it is. *)
Definition keeps {A} (m : sm A) : Prop := ∀ w, ends m w (λ _ w', sources w' = sources w).

Create HintDb sources.

Lemma keeps_sources_bind {A B} (m : sm A) (f : A → sm B) : keeps m → (∀ a, keeps (f a)) → keeps (m ≫= f).
Proof.
  intros Hm Hf w. apply ends_bind. intros a w1 E1 b w2 E2.
  rewrite (Hf a w1 b w2 E2). by apply (Hm w a).
Qed.
Lemma keeps_sources_ret {A} (a : A) : keeps (mret a).
Proof. intros w b w' [= <- <-]. done. Qed.
Lemma keeps_sources_fault {A} : keeps (@fault world A).
Proof. intros w b w'. done. Qed.
Lemma keeps_get : keeps get_state.
Proof. intros w b w' [= <- <-]. done. Qed.
Lemma keeps_the_ipc : keeps the_ipc.
Proof. intros w b w'. unfold the_ipc. destruct (ipc w); [|done]. by intros [= <- <-]. Qed.
Lemma keeps_deref p : keeps (deref p).
Proof. intros w b w'. unfold deref. destruct (heap w !! p) as [[c|]|]; try done. by intros [= <- <-]. Qed.
Lemma keeps_upd_mem f : keeps (upd_mem f).
Proof. intros w b w' [= <- <-]. done. Qed.
Lemma keeps_upd_ipc f : keeps (upd_ipc f).
Proof. intros w b w' [= <- <-]. done. Qed.
Lemma keeps_upd_heap f : keeps (upd_heap f).
Proof. intros w b w' [= <- <-]. done. Qed.
Lemma keeps_upd_held d : keeps (upd_held d).
Proof. intros w b w' [= <- <-]. done. Qed.
Lemma keeps_trigger m : keeps (txirq_trigger m).
Proof. intros w b w' [= <- <-]. done. Qed.
Lemma keeps_kzalloc : keeps kzalloc.
Proof. intros w b w' [= <- <-]. done. Qed.
Lemma keeps_sources_check {A} (l : list A) pos : keeps (check_index l pos).
Proof. unfold check_index. destruct (_ && _); [apply keeps_sources_ret|apply keeps_sources_fault]. Qed.
Lemma keeps_spin cond : keeps (spin_until cond []).
Proof. intros w b w'. simpl. destruct (cond w); [|done]. by intros [= <- <-]. Qed.
#[export] Hint Resolve keeps_sources_ret keeps_sources_fault keeps_get keeps_the_ipc keeps_deref keeps_upd_mem
  keeps_upd_ipc keeps_upd_heap keeps_upd_held keeps_trigger keeps_kzalloc keeps_sources_check keeps_spin
  : sources.

(** Case analysis along the code of an operation. *)
Ltac keeps :=
  repeat match goal with
  | |- keeps (match ?x with _ => _ end) => destruct x
  | |- keeps (_ ≫= _) => apply keeps_sources_bind; [|intros ?]
  | |- keeps _ => solve [auto with sources]
  end.

Lemma keeps_read_at {A} (f : smsg_ipc → list A) idx : keeps (read_at f idx).
Proof. unfold read_at. keeps. Qed.
#[export] Hint Resolve keeps_read_at : sources.
Lemma keeps_set_state idx v : keeps (set_state idx v).
Proof. unfold set_state. keeps. Qed.
Lemma keeps_set_channel idx v : keeps (set_channel idx v).
Proof. unfold set_channel. keeps. Qed.
Lemma keeps_set_busy idx v : keeps (set_busy idx v).
Proof. unfold set_busy. keeps. Qed.
Lemma keeps_write p ch : keeps (write_channel p ch).
Proof. unfold write_channel. keeps. Qed.
Lemma keeps_kfree p : keeps (kfree p).
Proof. unfold kfree. keeps. Qed.
#[export] Hint Resolve keeps_set_state keeps_set_channel keeps_set_busy keeps_write keeps_kfree
  : sources.
Lemma keeps_add_busy idx d : keeps (add_busy idx d).
Proof. unfold add_busy. keeps. Qed.
Lemma keeps_set_rxlock p v : keeps (set_rxlock p v).
Proof. unfold set_rxlock. keeps. Qed.
#[export] Hint Resolve keeps_add_busy keeps_set_rxlock : sources.
Lemma keeps_put_tx m : keeps (put_tx m).
Proof. unfold put_tx. keeps. Qed.
#[export] Hint Resolve keeps_put_tx : sources.
Lemma keeps_sources_send r m : keeps (smsg_send r m).
Proof. unfold smsg_send. keeps. Qed.
Lemma keeps_trylock p : keeps (mutex_trylock p).
Proof. unfold mutex_trylock. keeps. Qed.
#[export] Hint Resolve keeps_sources_send keeps_trylock : sources.
Lemma keeps_recv e chan : keeps (smsg_recv e chan 0).
Proof. unfold smsg_recv, mutex_unlock. change (0 =? 0) with true. cbn match. keeps. Qed.
#[export] Hint Resolve keeps_recv : sources.
Lemma keeps_open_failed idx p r : keeps (open_failed idx p [] r).
Proof. unfold open_failed, wait_unused. keeps. Qed.
Lemma keeps_open_done idx : keeps (open_done idx).
Proof. unfold open_done. keeps. Qed.
#[export] Hint Resolve keeps_open_failed keeps_open_done : sources.
Lemma keeps_recv_open es chan idx p : keeps (recv_open es chan 0 idx p []).
Proof.
  induction es as [|e es IH]; [by intros w a w'|]. simpl. apply keeps_sources_bind; [auto with sources|].
  intros [rval m]. keeps.
Qed.
#[export] Hint Resolve keeps_recv_open : sources.

(** A failed opening does not give back the two power-management sources it
    created: every call of [smsg_ch_open] on a configured channel that gets its
    memory leaves two more of them, whatever it returns. *)
Theorem open_keeps_sources request es chan w i :
  ipc w = Some i → sipc_channel2index chan ≠ INVALID_CHANEL_INDEX →
  ends (smsg_ch_open true request es [] chan 0) w (λ rval w',
    sources w' = sources w + 2).
Proof.
  intros Hi Hc. unfold smsg_ch_open. rewrite (proj2 (Z.eqb_neq _ _) Hc).
  apply ends_bind, ends_get. rewrite Hi. cbn [negb]. apply ends_bind.
  intros p w1 E1. apply keeps_kzalloc in E1. apply ends_bind, ends_modify.
  intros r w2 E2. transitivity (sources w1 + 2); [|by rewrite E1].
  revert r w2 E2. apply (ends_mono _ _ (λ _ w', sources w' = sources w1 + 2)); [|done].
  match goal with |- ends ?m ?w3 _ => enough (keeps m) as H; [exact (H w3)|] end.
  keeps.
Qed.

(** ** The theorems at a concrete link *)

Definition services_ex : memory_services := MemoryServices 0 4096 true.
Definition page_ex : page := Page (Sring 7 9 []) (Sring 0 0 []).
Definition link_ex : link :=
  match start services_ex services_ex page_ex with
  | Done l => l | _ => Link page_ex (fresh_world page_ex) (fresh_world page_ex) end.

Lemma link_ex_rep : start services_ex services_ex page_ex = Done link_ex ∧ link_rep link_ex empty_wire.
Proof.
  destruct (start_rep services_ex services_ex page_ex) as (l & E & Hl); [done..|].
  unfold link_ex. by rewrite E.
Qed.

(** Both sides open channel 4: the host's first attempt finds no answer. *)
Definition handshake : list (bool * call) :=
  [(false, Open 4); (true, Irq); (true, Open 4); (false, Irq); (false, Open 4); (true, Irq)].
Definition data_ex : smsg := Smsg 4 SMSG_TYPE_EVENT 1 77.

Lemma smsg_link_refines_witness :
  ∃ l', link_run link_ex (handshake ++ [(false, Send data_ex); (true, Irq); (true, Recv 4);
                                        (true, Recv 4); (true, Recv 4); (true, Close 4)])
        = Done ([ARet (- ENODATA); ARet 0; ARet 0; ARet 0; ARet 0; ARet 0; ARet 0; ARet 0;
                 AMsg 0 (Some (open_msg 4)); AMsg 0 (Some data_ex); AMsg (- ENODATA) None;
                 ARet 0], l').
Proof.
  destruct (smsg_link_refines link_ex empty_wire (handshake ++ [(false, Send data_ex);
    (true, Irq); (true, Recv 4); (true, Recv 4); (true, Recv 4); (true, Close 4)])
    (proj2 link_ex_rep)) as (l' & E & _).
  exists l'. rewrite E. reflexivity.
Defined.

Lemma smsg_channels_invariant_witness :
  ∃ i, ipc (end_of true link_ex) = Some i ∧ channel_ok i (heap (end_of true link_ex)) 5.
Proof.
  apply (smsg_channels_invariant services_ex services_ex page_ex link_ex); try done.
  - apply reachable_start, link_ex_rep.
  - vm_compute. lia.
Defined.

Lemma smsg_channel_fifo_witness :
  let a := (wire_run empty_wire handshake).2 in
  ∃ l answers l' a',
    link_run l [(false, Send data_ex); (true, Irq); (false, Send data_ex); (true, Recv 4)]
      = Done (answers, l') ∧ link_rep l' a'
    ∧ received_in false 5 [(false, Send data_ex); (true, Irq); (false, Send data_ex); (true, Recv 4)]
        answers ++ pending false 5 a'
      = [open_msg 4] ++ sent_in false 5 [(false, Send data_ex); (true, Irq); (false, Send data_ex);
                                          (true, Recv 4)] answers.
Proof.
  intros a. destruct (wire_run_refines handshake link_ex empty_wire (proj2 link_ex_rep))
    as (l & _ & Hl). exists l.
  apply (smsg_channel_fifo false 5 l a); [exact Hl|split; [by eexists|by apply Forall_nil]| |].
  - repeat constructor.
  - vm_compute. repeat split; discriminate.
Defined.

Lemma channel2index_spec_witness :
  0 ≤ 22 < 256 ∧ sipc_channel2index 22
    = match list_find (λ c, c = 22) sipc_cfg with
      | Some (n, _) => Z.of_nat n | None => INVALID_CHANEL_INDEX end
  ∧ sipc_channel2index 22 = 2 ∧ sipc_channel2index 99 = 255.
Proof. split; [lia|]. split; [apply channel2index_spec; lia|by split]. Defined.

(** The host while it waits for the answer, and after the client has opened the
    channel and the host has handled the interrupt. *)
Definition waiting_host : outcome link :=
  let w := end_of false link_ex in
  '(_, w) ← (q ← kzalloc; upd_sources 2;; set_busy 5 1;; set_channel 5 (Some q);;
             smsg_send 0 (open_msg 4);; set_state 5 CHAN_STATE_HOST_OPENED;;
             add_busy 5 1;; set_rxlock q true) w;
  Done (put_end false w link_ex).
Definition answered_host : world :=
  match (l ← waiting_host; link_run l [(true, Irq); (true, Open 4); (false, Irq)]) with
  | Done (_, l) => end_of false l | _ => fresh_world page_ex end.
Definition answered_ipc : smsg_ipc :=
  match ipc answered_host with Some i => i | None => fresh_ipc false end.
Definition answered_channel : smsg_channel :=
  match heap answered_host !! 0%nat with Some (Some ch) => ch | _ => new_channel end.

Lemma answered_ex : answered 4 5 0 answered_host answered_ipc answered_channel [].
Proof.
  split; [vm_compute; reflexivity..|].
  change (ring_rep SMSG_CACHE_NR 0 (u32 (0 + 1))
    (<[Z.to_nat (0 mod SMSG_CACHE_NR) := open_msg 4]> (caches new_channel)) ([] ++ [open_msg 4])).
  apply rep_push; [by apply (rep_empty_intro _ 8)|done].
Qed.

Lemma smsg_ch_open_waits_witness :
  let w := end_of false link_ex in
  runs (smsg_ch_open true 0 [Waits [] [Wake answered_host]] [] 4 100) w (λ rval w', ∃ i',
    ipc w' = Some i' ∧ busy i' !! 5%nat = Some 0
    ∧ (100 < 0 → rval = 0 ∧ states i' !! 5%nat = Some CHAN_STATE_OPENED
                     ∧ channels i' !! 5%nat = Some (Some (length (heap w))))
    ∧ (0 < 100 → rval = Z.max 1 (100 - 1) ∧ states i' !! 5%nat = Some CHAN_STATE_UNUSED
                     ∧ channels i' !! 5%nat = Some None ∧ heap w' !! length (heap w) = Some None)).
Proof.
  intros w. destruct (proj2 link_ex_rep false) as (i & Hr & _).
  apply (smsg_ch_open_waits w empty_port [] [] i 4 100 5 answered_host answered_ipc
           answered_channel []); [exact Hr|reflexivity|done|done|done|exact answered_ex].
Defined.

Lemma invalid_channel_out_of_bounds_witness :
  smsg_msg_process false (Smsg 99 SMSG_TYPE_OPEN SMSG_OPEN_MAGIC 0) (end_of false link_ex)
  = OutOfBounds.
Proof.
  apply (invalid_channel_out_of_bounds _ _ (set_up (fresh_ipc false) services_ex)); reflexivity.
Defined.

Lemma open_keeps_sources_witness :
  ends (smsg_ch_open true 0 [Waits [] []] [] 4 0) (end_of false link_ex) (λ rval w',
    sources w' = sources (end_of false link_ex) + 2)
  ∧ ∃ w', smsg_ch_open true 0 [Waits [] []] [] 4 0 (end_of false link_ex) = Done (- ENODATA, w').
Proof.
  split; [|eexists; vm_compute; reflexivity].
  by apply (open_keeps_sources 0 [Waits [] []] 4 _ (set_up (fresh_ipc false) services_ex)).
Defined.
