(* ===== verification/Sbuf.v ===== *)
(** * Byte streams over shared memory

    Model of [src/drivers/quectel-sprd-pcie/src/sipc/sbuf.c] and [sbuf.h]: a
    channel has a number of rings, each with a byte buffer per direction in the
    shared memory.  [sbuf_write] and [sbuf_read] move bytes over free-running
    32-bit pointers and tell the peer by a message when a ring stops being empty
    or full; the channel's thread handles the peer's messages.

    The code between two waits is one step, except where [sbuf_write] decides
    under no lock: there the environment may act ([meanwhile]).  Left out: wake
    locks, debugfs and the recording of the callers' task names. *)

From S2P Require Import Prelude Ring Kernel.
From S2P Require Smsg.
Import Smsg (smsg, Smsg, type, flag, value, smsg_set, SMSG_TYPE_OPEN, SMSG_TYPE_CLOSE,
  SMSG_TYPE_EVENT, SMSG_TYPE_CMD, SMSG_TYPE_DONE, SMSG_OPEN_MAGIC, SMSG_CLOSE_MAGIC).

#[local] Open Scope Z_scope.
#[local] Open Scope c_scope.

(** ** Data *)

Definition SMSG_CMD_SBUF_INIT : Z := 1.
Definition SMSG_DONE_SBUF_INIT : Z := 2.
Definition SMSG_EVENT_SBUF_WRPTR : Z := 1.
Definition SMSG_EVENT_SBUF_RDPTR : Z := 2.
Definition SBUF_NOTIFY_READY : Z := 0.
Definition SBUF_NOTIFY_READ : Z := 1.
Definition SBUF_NOTIFY_WRITE : Z := 2.
Definition SBUF_STATE_IDLE : Z := 0.
Definition SBUF_STATE_READY : Z := 1.

Definition POLLIN : Z := 0x0001.
Definition POLLOUT : Z := 0x0004.
Definition POLLRDNORM : Z := 0x0040.
Definition POLLWRNORM : Z := 0x0100.
Definition TX_MASK : Z := POLLOUT |' POLLWRNORM.
Definition RX_MASK : Z := POLLIN |' POLLRDNORM.

(** One direction of [struct sbuf_ring_header_op] with the buffer it governs. *)
Record dir := Dir { d_rd : Z; d_wt : Z; d_size : Z; d_bytes : list Z }.

(** [struct sbuf_ring]; [handler] is the argument the registered handler is
    called with. *)
Record sbuf_ring := SbufRing {
  tx : dir; rx : dir;
  txbuf_virt : Z; rxbuf_virt : Z;
  txlock : bool; rxlock : bool;
  need_wake_lock : bool;
  poll_mask : Z;
  handler : option Z;
}.

(** [struct sbuf_mgr] *)
Record sbuf_mgr := SbufMgr {
  force_send : bool;
  state : Z;
  smem_virt : Z; smem_addr : Z; smem_size : Z;
  smem_addr_debug : Z; dst_smem_addr : Z;
  ringnr : Z;
  rings : list sbuf_ring;
}.

(** The channel's entry of [sbufs], the messages sent to the peer and the calls
    of handlers (event and argument), both latest first, and how often memory
    resources are held. *)
Record world := World {
  sbufs : option sbuf_mgr;
  sent : list smsg;
  notified : list (Z * Z);
  held : Z;
}.

Abbreviation sb := (stm world).

(** [valid]: the channel has an index; [chan] is its number; [local]: the memory
    is [SMEM_LOCAL]; [request1], [request2]: the results of the two resource
    requests of an operation; [lock_wait] and [history]: what it sees while it
    waits for the mutex and for data; [copy1], [copy2]: the results of the copies
    from or to user space; [meanwhile]: what other contexts do between the test
    of a ring and the update of its poll mask. *)
Record env := Env {
  valid : bool; chan : Z; local : bool;
  request1 : Z; request2 : Z;
  lock_wait : list (wake world); history : list (wake world);
  copy1 : bool; copy2 : bool;
  meanwhile : world → world;
}.

(** ** Access to the state *)

Definition upd_mgr (f : sbuf_mgr → sbuf_mgr) : sb () := modify (λ w,
  World (f <$> sbufs w) (sent w) (notified w) (held w)).
Definition upd_held (d : Z) : sb () := modify (λ w,
  World (sbufs w) (sent w) (notified w) (held w + d)).
Definition smsg_send (m : smsg) : sb () := modify (λ w,
  World (sbufs w) (m :: sent w) (notified w) (held w)).
Definition notify (event data : Z) : sb () := modify (λ w,
  World (sbufs w) (sent w) ((event, data) :: notified w) (held w)).

Definition set_mgr_state (v : Z) (s : sbuf_mgr) : sbuf_mgr :=
  SbufMgr (force_send s) v (smem_virt s) (smem_addr s) (smem_size s) (smem_addr_debug s)
    (dst_smem_addr s) (ringnr s) (rings s).
Definition on_rings (f : list sbuf_ring → list sbuf_ring) (s : sbuf_mgr) : sbuf_mgr :=
  SbufMgr (force_send s) (state s) (smem_virt s) (smem_addr s) (smem_size s)
    (smem_addr_debug s) (dst_smem_addr s) (ringnr s) (f (rings s)).

Definition on_tx (f : dir → dir) (r : sbuf_ring) : sbuf_ring :=
  SbufRing (f (tx r)) (rx r) (txbuf_virt r) (rxbuf_virt r) (txlock r) (rxlock r)
    (need_wake_lock r) (poll_mask r) (handler r).
Definition on_rx (f : dir → dir) (r : sbuf_ring) : sbuf_ring :=
  SbufRing (tx r) (f (rx r)) (txbuf_virt r) (rxbuf_virt r) (txlock r) (rxlock r)
    (need_wake_lock r) (poll_mask r) (handler r).
Definition set_txlock (b : bool) (r : sbuf_ring) : sbuf_ring :=
  SbufRing (tx r) (rx r) (txbuf_virt r) (rxbuf_virt r) b (rxlock r) (need_wake_lock r)
    (poll_mask r) (handler r).
Definition set_rxlock (b : bool) (r : sbuf_ring) : sbuf_ring :=
  SbufRing (tx r) (rx r) (txbuf_virt r) (rxbuf_virt r) (txlock r) b (need_wake_lock r)
    (poll_mask r) (handler r).
Definition set_need_wake_lock (b : bool) (r : sbuf_ring) : sbuf_ring :=
  SbufRing (tx r) (rx r) (txbuf_virt r) (rxbuf_virt r) (txlock r) (rxlock r) b
    (poll_mask r) (handler r).
Definition on_mask (f : Z → Z) (r : sbuf_ring) : sbuf_ring :=
  SbufRing (tx r) (rx r) (txbuf_virt r) (rxbuf_virt r) (txlock r) (rxlock r)
    (need_wake_lock r) (f (poll_mask r)) (handler r).
Definition set_handler (h : option Z) (r : sbuf_ring) : sbuf_ring :=
  SbufRing (tx r) (rx r) (txbuf_virt r) (rxbuf_virt r) (txlock r) (rxlock r)
    (need_wake_lock r) (poll_mask r) h.

(** The manager, and [sbuf->rings[bufid]]; both are followed as pointers. *)
Definition the_mgr : sb sbuf_mgr := λ w,
  match sbufs w with Some s => Done (s, w) | None => OutOfBounds end.
Definition ring_at (bufid : Z) : sb sbuf_ring :=
  s ← the_mgr;
  match rings s !! Z.to_nat bufid with
  | Some r => if 0 <=? bufid then mret r else fault
  | None => fault
  end.
Definition upd_ring (bufid : Z) (f : sbuf_ring → sbuf_ring) : sb () :=
  r ← ring_at bufid; upd_mgr (on_rings <[Z.to_nat bufid := f r]>).

(** [sipc_smem_request_resource] and [sipc_smem_release_resource] *)
Definition request (e : env) (r : Z) : sb Z :=
  if local e then mret 0 else
  if r <? 0 then mret r else upd_held 1;; mret r.
Definition release (e : env) : sb () := if local e then mret () else upd_held (-1).

(** ** Tests *)

(** [(int)(wt - rd)] *)
Definition used (d : dir) : Z := s32 (d_wt d - d_rd d).

(** The difference is an [int] that is compared with an unsigned size. *)
Definition has_room (d : dir) : bool := u32 (used d) <? d_size d.
Definition has_bytes (d : dir) : bool := negb (d_wt d =? d_rd d).

Definition sbuf_has_data (e : env) (is_tx : bool) (r : sbuf_ring) : bool :=
  if local e then if is_tx then has_room (tx r) else has_bytes (rx r)
  else if is_tx then negb ((poll_mask r &' TX_MASK) =? 0)
       else negb ((poll_mask r &' RX_MASK) =? 0).

(** The condition of a waiting caller. *)
Definition is_idle (w : world) : bool :=
  match sbufs w with Some s => state s =? SBUF_STATE_IDLE | None => false end.
Definition ring_ready (e : env) (is_tx : bool) (bufid : Z) (w : world) : bool :=
  match sbufs w with
  | Some s => match rings s !! Z.to_nat bufid with
              | Some r => sbuf_has_data e is_tx r | None => false end
  | None => false
  end.

Definition set_mask (mask : Z) (no_data : bool) (m : Z) : Z :=
  if no_data then m &' u32 (Z.lnot mask) else m |' mask.

(** ** Locks *)

Definition trylock (get : sbuf_ring → bool) (set : bool → sbuf_ring → sbuf_ring) (bufid : Z)
  : sb bool :=
  r ← ring_at bufid; if get r then mret false else upd_ring bufid (set true);; mret true.
Definition lock_free (get : sbuf_ring → bool) (bufid : Z) (w : world) : bool :=
  match sbufs w with
  | Some s => match rings s !! Z.to_nat bufid with Some r => negb (get r) | None => true end
  | None => true
  end.
(** Both callers ignore the result of [mutex_lock_interruptible]. *)
Definition lock_interruptible (get : sbuf_ring → bool) (set : bool → sbuf_ring → sbuf_ring)
    (bufid : Z) (h : list (wake world)) : sb () :=
  rval ← wait_event_interruptible (lock_free get bufid) h;
  if rval =? 0 then upd_ring bufid (set true) else mret ().
Definition take_lock (e : env) get set (bufid timeout : Z) : sb bool :=
  if timeout =? 0 then trylock get set bufid
  else lock_interruptible get set bufid (lock_wait e);; mret true.

(** Wait for room or for bytes. *)
Definition wait_ready (e : env) (is_tx : bool) (bufid timeout : Z) : sb Z :=
  rval ←
    (if timeout <? 0 then
       wait_event_interruptible (λ w, ring_ready e is_tx bufid w || is_idle w) (history e)
     else
       rval ← wait_event_interruptible_timeout
                (λ w, ring_ready e is_tx bufid w || is_idle w) (history e) (Z.to_nat timeout);
       mret (if rval =? 0 then - ETIME else rval));
  w ← get_state;
  mret (if is_idle w then - EIO else rval).

(** ** Writing *)

(** Copy the first [txsize] bytes of [data] to the buffer from [pos] on, the
    last [tail] of them to its beginning. *)
Definition copy_in (bytes data : list Z) (pos txsize tail : Z) : outcome (list Z) :=
  if txsize <? 0 then OutOfBounds
  else if 0 <? tail then
    b ← put_bytes bytes pos (take (Z.to_nat (txsize - tail)) data);
    put_bytes b 0 (take (Z.to_nat tail) (drop (Z.to_nat (txsize - tail)) data))
  else put_bytes bytes pos (take (Z.to_nat txsize) data).

(** The loop; the result is [rval] with the number of bytes that are left. *)
Fixpoint write_loop (e : env) (bufid : Z) (fuel : nat) (data : list Z) (left_ rval : Z)
  : sb (Z * Z) :=
  s ← the_mgr;
  r ← ring_at bufid;
  let d := tx r in
  if negb (left_ =? 0) && has_room d && (state s =? SBUF_STATE_READY) then
    match fuel with
    | O => hang
    | S fuel =>
      if d_size d =? 0 then fault else
      let pos := d_wt d mod d_size d in
      let txsize := Z.min (s32 (d_size d - used d)) left_ in
      let tail := s32 (pos + txsize - d_size d) in
      if negb (copy1 e) || (0 <? tail) && negb (copy2 e) then mret (- EFAULT, left_) else
      bytes ← lift (copy_in (d_bytes d) data pos txsize tail);
      upd_ring bufid (on_tx (λ _, Dir (d_rd d) (u32 (d_wt d + txsize)) (d_size d) bytes));;
      (if force_send s || (u32 (u32 (d_wt d + txsize) - d_rd d) =? u32 txsize)
       then smsg_send (smsg_set (chan e) SMSG_TYPE_EVENT SMSG_EVENT_SBUF_WRPTR bufid)
       else mret ());;
      write_loop e bufid fuel (drop (Z.to_nat txsize) data) (left_ - txsize) rval
    end
  else mret (rval, left_).

(** [buf] and [len] are the list of bytes to write. *)
Definition sbuf_write (e : env) (bufid : Z) (buf : list Z) (timeout : Z) : sb Z :=
  if negb (valid e) then mret (- EINVAL) else
  w ← get_state;
  match sbufs w with
  | None => mret (- ENODEV)
  | Some s =>
    if negb (state s =? SBUF_STATE_READY) then mret (- ENODEV) else
    let len := Z.of_nat (length buf) in
    locked ← take_lock e txlock set_txlock bufid timeout;
    if negb locked then mret (- EBUSY) else
    let unlock := upd_ring bufid (set_txlock false) in
    rval ← request e (request1 e);
    if rval <? 0 then unlock;; mret rval else
    r ← ring_at bufid;
    let no_data := negb (has_room (tx r)) in
    modify (meanwhile e);;
    upd_ring bufid (on_mask (set_mask TX_MASK no_data));;
    release e;;
    rval ← (if negb no_data then mret rval
            else if timeout =? 0 then mret (- EBUSY)
            else wait_ready e true bufid timeout);
    if rval <? 0 then unlock;; mret rval else
    rval ← request e (request2 e);
    if rval <? 0 then unlock;; mret rval else
    '(rval, left_) ← write_loop e bufid 2 buf (s32 len) rval;
    r ← ring_at bufid;
    upd_ring bufid (on_mask (set_mask TX_MASK (negb (has_room (tx r)))));;
    release e;;
    unlock;;
    mret (if len =? u32 left_ then rval else s32 (len - left_))
  end.

(** ** Reading *)

(** The [rxsize] bytes from [pos] on, the last [tail] of them from the beginning
    of the buffer. *)
Definition copy_out (bytes : list Z) (pos rxsize tail : Z) : outcome (list Z) :=
  if rxsize <? 0 then OutOfBounds
  else if 0 <? tail then
    b1 ← get_bytes bytes pos (rxsize - tail);
    b2 ← get_bytes bytes 0 tail;
    Done (b1 ++ b2)
  else get_bytes bytes pos rxsize.

(** The loop; the result is [rval], the bytes that are left and those copied. *)
Fixpoint read_loop (e : env) (bufid : Z) (fuel : nat) (left_ rval : Z) : sb (Z * Z * list Z) :=
  s ← the_mgr;
  r ← ring_at bufid;
  let d := rx r in
  if negb (left_ =? 0) && has_bytes d && (state s =? SBUF_STATE_READY) then
    match fuel with
    | O => hang
    | S fuel =>
      if d_size d =? 0 then fault else
      let pos := d_rd d mod d_size d in
      let rxsize := Z.min (used d) left_ in
      let tail := s32 (pos + rxsize - d_size d) in
      if negb (copy1 e) || (0 <? tail) && negb (copy2 e) then mret (- EFAULT, left_, []) else
      out ← lift (copy_out (d_bytes d) pos rxsize tail);
      let rd := u32 (d_rd d + rxsize) in
      upd_ring bufid (on_rx (λ _, Dir rd (d_wt d) (d_size d) (d_bytes d)));;
      (if u32 (d_wt d - rd) =? u32 (d_size d - rxsize)
       then smsg_send (smsg_set (chan e) SMSG_TYPE_EVENT SMSG_EVENT_SBUF_RDPTR bufid)
       else mret ());;
      '(rval, left_, more) ← read_loop e bufid fuel (left_ - rxsize) rval;
      mret (rval, left_, out ++ more)
    end
  else mret (rval, left_, []).

(** The result is the return value with the bytes written to the buffer. *)
Definition sbuf_read (e : env) (bufid len timeout : Z) : sb (Z * list Z) :=
  if negb (valid e) then mret (- EINVAL, []) else
  w ← get_state;
  match sbufs w with
  | None => mret (- ENODEV, [])
  | Some s =>
    if negb (state s =? SBUF_STATE_READY) then mret (- ENODEV, []) else
    locked ← take_lock e rxlock set_rxlock bufid timeout;
    if negb locked then mret (- EBUSY, []) else
    let unlock := upd_ring bufid (set_rxlock false) in
    rval ← request e (request1 e);
    if rval <? 0 then unlock;; mret (rval, []) else
    r ← ring_at bufid;
    let no_data := negb (has_bytes (rx r)) in
    modify (meanwhile e);;
    upd_ring bufid (on_mask (set_mask RX_MASK no_data));;
    release e;;
    rval ← (if negb no_data then mret rval
            else if timeout =? 0 then mret (- ENODATA)
            else wait_ready e false bufid timeout);
    if rval <? 0 then unlock;; mret (rval, []) else
    rval ← request e (request2 e);
    if rval <? 0 then unlock;; mret (rval, []) else
    '(rval, left_, out) ← read_loop e bufid 2 (s32 len) rval;
    r ← ring_at bufid;
    upd_ring bufid (on_mask (set_mask RX_MASK (negb (has_bytes (rx r)))));;
    release e;;
    unlock;;
    mret (if len =? u32 left_ then rval else s32 (len - left_), out)
  end.

(** ** Queries *)

Definition sbuf_poll_wait (e : env) (bufid : Z) : sb Z :=
  if negb (valid e) then mret 0 else
  w ← get_state;
  match sbufs w with
  | None => mret 0
  | Some s =>
    if negb (state s =? SBUF_STATE_READY) then mret 0 else
    r ← ring_at bufid;
    let mask := if sbuf_has_data e true r then 0 |' TX_MASK else 0 in
    mret (if sbuf_has_data e false r then mask |' RX_MASK else mask)
  end.

Definition sbuf_status (e : env) : sb Z :=
  if negb (valid e) then mret (- EINVAL) else
  w ← get_state;
  match sbufs w with
  | None => mret (- ENODEV)
  | Some s => mret (if negb (state s =? SBUF_STATE_READY) then - ENODEV else 0)
  end.

(** [handler]: the argument of the handler, [None] for a null handler, which the
    code calls like any other. *)
Definition sbuf_register_notifier (e : env) (bufid : Z) (handler : option Z) : sb Z :=
  if negb (valid e) then mret (- EINVAL) else
  w ← get_state;
  match sbufs w with
  | None => mret (- ENODEV)
  | Some s =>
    upd_ring bufid (set_handler handler);;
    (if state s =? SBUF_STATE_READY then
       match handler with Some data => notify SBUF_NOTIFY_READ data | None => fault end
     else mret ());;
    mret 0
  end.

Definition sbuf_set_no_need_wake_lock (e : env) (bufnum : Z) : sb () :=
  if negb (valid e) then mret () else
  w ← get_state;
  match sbufs w with
  | None => mret ()
  | Some s =>
    if ringnr s <=? bufnum then mret () else upd_ring bufnum (set_need_wake_lock false)
  end.

Definition sbuf_down (e : env) : sb () :=
  if negb (valid e) then mret () else upd_mgr (set_mgr_state SBUF_STATE_IDLE).

(** ** The channel's thread *)

(** A restarted peer: what it sent before is dropped. *)
Definition sbuf_skip_old_data (e : env) : sb () :=
  s ← the_mgr;
  _ ← ring_at 0;
  rval ← request e (request1 e);
  if rval <? 0 then mret () else
  for_each (seqZ 0 (ringnr s)) (λ i,
    upd_ring i (λ r, on_mask (λ _, TX_MASK)
      (on_rx (λ d, Dir (d_wt d) (d_wt d) (d_size d) (d_bytes d)) r)));;
  release e.

(** [if (ring->handler) ring->handler(event, ring->data)] *)
Definition call_handler (event : Z) (r : sbuf_ring) : sb () :=
  match handler r with Some data => notify event data | None => mret () end.

(** One message of the thread's loop; [client] is [sipc->client].  The peer's
    ring number is only checked by a warning. *)
Definition sbuf_handle_msg (e : env) (client : bool) (m : smsg) : sb () :=
  s ← the_mgr;
  if type m =? SMSG_TYPE_OPEN then
    if client then mret () else
    (if state s =? SBUF_STATE_READY
     then sbuf_skip_old_data e;; upd_mgr (set_mgr_state SBUF_STATE_IDLE) else mret ());;
    smsg_send (smsg_set (chan e) SMSG_TYPE_OPEN SMSG_OPEN_MAGIC 0)
  else if type m =? SMSG_TYPE_CLOSE then
    sbuf_skip_old_data e;;
    smsg_send (smsg_set (chan e) SMSG_TYPE_CLOSE SMSG_CLOSE_MAGIC 0);;
    upd_mgr (set_mgr_state SBUF_STATE_IDLE)
  else if type m =? SMSG_TYPE_CMD then
    if client then mret () else
    if (state s =? SBUF_STATE_IDLE) && (flag m =? SMSG_CMD_SBUF_INIT) then
      smsg_send (smsg_set (chan e) SMSG_TYPE_DONE SMSG_DONE_SBUF_INIT (dst_smem_addr s));;
      upd_mgr (set_mgr_state SBUF_STATE_READY);;
      for_each (seqZ 0 (ringnr s)) (λ bufid,
        r ← ring_at bufid; call_handler SBUF_NOTIFY_READY r)
    else mret ()
  else if type m =? SMSG_TYPE_EVENT then
    let bufid := s32 (value m) in
    if flag m =? SMSG_EVENT_SBUF_RDPTR then
      upd_ring bufid (on_mask (λ v, v |' TX_MASK));;
      r ← ring_at bufid; call_handler SBUF_NOTIFY_WRITE r
    else if flag m =? SMSG_EVENT_SBUF_WRPTR then
      upd_ring bufid (on_mask (λ v, v |' RX_MASK));;
      r ← ring_at bufid; call_handler SBUF_NOTIFY_READ r
    else mret ()
  else mret ().

(** The loop, over the results of [smsg_recv] until the thread is stopped. *)
Fixpoint sbuf_loop (e : env) (client : bool) (recvs : list (Z * smsg)) : sb Z :=
  match recvs with
  | [] => mret 0
  | (rval, m) :: recvs =>
    (if rval =? - EIO then mret () else sbuf_handle_msg e client m);;
    sbuf_loop e client recvs
  end.

(** ** Creation *)

(** [struct sbuf_ring_header] and [struct sbuf_smem_header] in shared memory. *)
Record ring_header := RingHeader {
  txbuf_addr : Z; txbuf_size : Z; txbuf_rdptr : Z; txbuf_wrptr : Z;
  rxbuf_addr : Z; rxbuf_size : Z; rxbuf_rdptr : Z; rxbuf_wrptr : Z;
}.
Record shm := Shm { sh_ringnr : Z; headers : list ring_header }.

Definition SIZEOF_SMEM_HEADER : Z := 4.
Definition SIZEOF_RING_HEADER : Z := 32.

(** What the allocations and the resource request return. *)
Record resources := Resources {
  smem_alloc : Z; vmap_head : Z; vmap : Z; kcalloc : bool; pms_request : Z }.

(** What an error path gives back. *)
Inductive freed := SmemFree (addr : Z) | ShmemUnmap (virt : Z) | KfreeRings.

Section Init.
(** [at_virt]: the contents of the memory, by virtual address. *)
Context (at_virt : Z → Z).

Definition bytes_from (virt size : Z) : list Z := (λ i, at_virt (virt + i)) <$> seqZ 0 size.

Definition new_ring (t r : dir) (txv rxv : Z) : sbuf_ring :=
  SbufRing t r txv rxv false false true TX_MASK None.

Definition host_header (dst_addr hsize txbufsize rxbufsize i : Z) : ring_header :=
  let txbuf_addr := u32 (dst_addr + hsize + u32 (u32 (txbufsize + rxbufsize) * i)) in
  RingHeader txbuf_addr txbufsize 0 0 (u32 (txbuf_addr + txbufsize)) rxbufsize 0 0.

Definition host_ring (virt hsize txbufsize rxbufsize i : Z) : sbuf_ring :=
  let txv := virt + hsize + u32 (u32 (txbufsize + rxbufsize) * i) in
  let rxv := txv + txbufsize in
  new_ring (Dir 0 0 txbufsize (bytes_from txv txbufsize))
    (Dir 0 0 rxbufsize (bytes_from rxv rxbufsize)) txv rxv.

Definition sbuf_host_init (smem_base dst_smem_base : Z) (force : bool) (res : resources)
    (bufnum txbufsize rxbufsize : Z) : Z * option (sbuf_mgr * shm) * list freed :=
  let hsize := SIZEOF_SMEM_HEADER + SIZEOF_RING_HEADER * bufnum in
  let size := u32 (hsize + u32 (u32 (txbufsize + rxbufsize) * bufnum)) in
  let addr := smem_alloc res in
  if addr =? 0 then (- ENOMEM, None, []) else
  let dst_addr := u32 (addr - smem_base + dst_smem_base) in
  let virt := vmap res in
  if virt =? 0 then (- EFAULT, None, [SmemFree addr]) else
  if negb (kcalloc res) then (- ENOMEM, None, [SmemFree addr; ShmemUnmap virt]) else
  if pms_request res <? 0
  then (pms_request res, None, [SmemFree addr; ShmemUnmap virt; KfreeRings]) else
  (0, Some (SbufMgr force SBUF_STATE_IDLE virt addr size 0 dst_addr bufnum
              (host_ring virt hsize txbufsize rxbufsize <$> seqZ 0 bufnum),
            Shm bufnum (host_header dst_addr hsize txbufsize rxbufsize <$> seqZ 0 bufnum)), []).

Definition client_ring (virt hsize txbufsize rxbufsize : Z) (ih : Z * ring_header) : sbuf_ring :=
  let '(i, h) := ih in
  let rxv := virt + hsize + u32 (u32 (txbufsize + rxbufsize) * i) in
  let txv := rxv + rxbufsize in
  new_ring
    (Dir (rxbuf_rdptr h) (rxbuf_wrptr h) (rxbuf_size h) (bytes_from txv (rxbuf_size h)))
    (Dir (txbuf_rdptr h) (txbuf_wrptr h) (txbuf_size h) (bytes_from rxv (txbuf_size h)))
    txv rxv.

(** [addr] is the address the host sent; the client's transmit side is the
    host's receive side. *)
Definition sbuf_client_init (addr : Z) (force : bool) (mem : shm) (res : resources)
  : Z * option sbuf_mgr * list freed :=
  if vmap_head res =? 0 then (- EFAULT, None, []) else
  let bufnum := sh_ringnr mem in
  match headers mem with
  | [] => (- EFAULT, None, [])
  | h0 :: _ =>
    let txbufsize := rxbuf_size h0 in
    let rxbufsize := txbuf_size h0 in
    let hsize := SIZEOF_SMEM_HEADER + SIZEOF_RING_HEADER * bufnum in
    let size := u32 (hsize + u32 (u32 (txbufsize + rxbufsize) * bufnum)) in
    let debug := smem_alloc res in
    if debug =? 0 then (- ENOMEM, None, []) else
    let virt := vmap res in
    if virt =? 0 then (- EFAULT, None, [SmemFree debug]) else
    if negb (kcalloc res) then (- ENOMEM, None, [SmemFree debug; ShmemUnmap virt]) else
    if pms_request res <? 0
    then (pms_request res, None, [SmemFree addr; ShmemUnmap virt; KfreeRings]) else
    (0, Some (SbufMgr force SBUF_STATE_IDLE virt addr size debug 0 bufnum
                (client_ring virt hsize txbufsize rxbufsize
                   <$> zip (seqZ 0 bufnum) (headers mem))), [])
  end.
End Init.

(** [sbuf_create], with what it frees; [base]: the memory's addresses on the two
    sides; [dst_ok]: the destination exists; [kzalloc]: the manager was allocated;
    [thread]: the error of [kthread_create], or 0.  The thread that is started
    is [sbuf_thread]. *)
Definition sbuf_create (e : env) (at_virt : Z → Z) (base : Z * Z) (client pcie dst_ok kzalloc : bool)
    (thread : Z) (res : resources) (bufnum txbufsize rxbufsize : Z) : sb (Z * list freed) :=
  if negb (valid e) then mret (- EINVAL, []) else
  if negb dst_ok then mret (- EINVAL, []) else
  if negb kzalloc then mret (- ENOMEM, []) else
  let force := pcie && local e in
  let '(ret, init, fr) :=
    if client then (0, Some (SbufMgr force SBUF_STATE_IDLE 0 0 0 0 0 0 []), [])
    else let '(ret, init, fr) :=
           sbuf_host_init at_virt base.1 base.2 force res bufnum txbufsize rxbufsize in
         (ret, fst <$> init, fr) in
  match init with
  | None => mret (ret, fr)
  | Some s =>
    if negb (thread =? 0) then
      mret (thread, if client then []
                    else [KfreeRings; ShmemUnmap (smem_virt s); SmemFree (smem_addr s)])
    else
      modify (λ w, World (Some s) (sent w) (notified w) (held w));;
      mret (0, [])
  end.

(** [close]: [smsg_ch_close] and the stop of the thread.  A null [rings] is the
    empty list. *)
Definition sbuf_destroy (e : env) (client : bool) (close : sb ()) : sb (list freed) :=
  if negb (valid e) then mret [] else
  w ← get_state;
  match sbufs w with
  | None => mret []
  | Some _ =>
    upd_mgr (set_mgr_state SBUF_STATE_IDLE);;
    close;;
    s ← the_mgr;
    modify (λ w, World None (sent w) (notified w) (held w));;
    mret ((if rings s is [] then [] else [KfreeRings])
          ++ (if smem_virt s =? 0 then [] else [ShmemUnmap (smem_virt s)])
          ++ [SmemFree (if client then smem_addr_debug s else smem_addr s)])
  end.

(** The first part of [sbuf_thread]: the client asks for the memory and waits for
    the answer; [recvs] are the results of its receives, and [init] that of
    [sbuf_client_init] at the address it is told. *)
Fixpoint wait_done (recvs : list (Z * smsg)) : outcome (Z * smsg * list (Z * smsg)) :=
  match recvs with
  | [] => OutOfFuel
  | (rval, m) :: recvs =>
    if negb (rval =? 0) then Done (rval, m, recvs)
    else if negb (type m =? SMSG_TYPE_DONE) || negb (flag m =? SMSG_DONE_SBUF_INIT)
    then wait_done recvs else Done (0, m, recvs)
  end.

(** When [sbuf_client_init] fails the thread ends; the fields it has set stay, but
    nothing reads them before [sbuf_destroy]. *)
Definition sbuf_thread (e : env) (client : bool) (open : Z) (recvs : list (Z * smsg))
    (init : Z → Z * option sbuf_mgr * list freed) : sb Z :=
  if negb (open =? 0) then mret open else
  if negb client then sbuf_loop e client recvs else
  smsg_send (smsg_set (chan e) SMSG_TYPE_CMD SMSG_CMD_SBUF_INIT 0);;
  '(rval, m, recvs) ← lift (wait_done recvs);
  if negb (rval =? 0) then mret rval else
  match init (value m) with
  | (0, Some s, _) =>
    upd_mgr (λ _, s);;
    upd_mgr (set_mgr_state SBUF_STATE_READY);;
    sbuf_loop e client recvs
  | _ => mret 0
  end.
