(* ===== verification/SbufLink.v ===== *)
(** * Two ends of a byte stream

    The two sides of a channel of [Sbuf], joined by the memory they share: each
    ring is a pair of bounded byte queues, which [sbuf_write] and [sbuf_read]
    extend and shorten; the peer is told when a queue stops being empty or
    full. *)

From S2P Require Import Prelude Ring Kernel Sbuf.
From S2P Require Smsg.
Import Smsg (smsg, Smsg, type, flag, value, smsg_set, SMSG_TYPE_EVENT).

#[local] Open Scope Z_scope.
#[local] Open Scope c_scope.

(** ** Copies around the end of a buffer *)

Lemma lookup_put {A} (a l : list A) (p j : nat) :
  (p + length l ≤ length a)%nat →
  (take p a ++ l ++ drop (p + length l) a) !! j
  = if decide (p ≤ j < p + length l)%nat then l !! (j - p)%nat else a !! j.
Proof.
  intros Hp. case_decide as Hj.
  - rewrite lookup_app_r, length_take by (rewrite length_take; lia).
    rewrite lookup_app_l by lia. f_equal. lia.
  - destruct (decide (j < p)%nat).
    + rewrite lookup_app_l by (rewrite length_take; lia). by rewrite lookup_take_lt by lia.
    + rewrite lookup_app_r, length_take by (rewrite length_take; lia).
      rewrite lookup_app_r by lia. rewrite lookup_drop. f_equal. lia.
Qed.

Lemma put_bytes_spec b off bs :
  0 ≤ off → off + Z.of_nat (length bs) ≤ Z.of_nat (length b) →
  ∃ b', put_bytes b off bs = Done b' ∧ length b' = length b
    ∧ ∀ j, b' !! j = if decide (Z.to_nat off ≤ j < Z.to_nat off + length bs)%nat
                     then bs !! (j - Z.to_nat off)%nat else b !! j.
Proof.
  intros H1 H2. eexists. rewrite put_bytes_Done by done. split; [done|].
  split; [rewrite !length_app, length_take, length_drop; lia|].
  intros j. apply lookup_put. lia.
Qed.

(** Adding an offset in a ring either stays in place or wraps once. *)
Lemma mod_wrap n x i : 0 < n → 0 ≤ i < n →
  (x + i) mod n = if decide (x mod n + i < n) then x mod n + i else x mod n + i - n.
Proof.
  intros Hn Hi. pose proof (Z.mod_pos_bound x n Hn). rewrite <- Zplus_mod_idemp_l.
  case_decide; [by apply Z.mod_small; lia|].
  rewrite <- (Z_mod_plus_full _ (-1)). apply Z.mod_small. lia.
Qed.

Lemma copy_in_rep n rd wt a q l data :
  ring_rep n rd wt a q → Z.of_nat (length q + length l) ≤ n →
  take (length l) data = l → (length l ≤ length data)%nat →
  ∃ a', copy_in a data (wt mod n) (Z.of_nat (length l)) (wt mod n + Z.of_nat (length l) - n)
          = Done a'
      ∧ ring_rep n rd (u32 (wt + Z.of_nat (length l))) a' (q ++ l).
Proof.
  intros Hr Hcap Htake Hle. pose proof (rep_bounds _ _ _ _ _ Hr) as Hb.
  pose proof (rep_length _ _ _ _ _ Hr) as Hlen.
  pose proof (Z.mod_pos_bound wt n ltac:(lia)) as Hpos. set (p := wt mod n) in *.
  assert (Hl : ∀ x y, length l = (x + y)%nat → take x data = take x l ∧
              take y (drop x data) = drop x l).
  { intros x y E. rewrite <- Htake, E. split.
    - rewrite take_take. f_equal. lia.
    - rewrite <- take_drop_commute. f_equal; lia. }
  unfold copy_in. rewrite (proj2 (Z.ltb_ge _ _)) by lia.
  destruct (Z.ltb_spec 0 (p + Z.of_nat (length l) - n)) as [Hw|Hw].
  - remember (Z.to_nat (n - p)) as x eqn:Hx.
    remember (Z.to_nat (p + Z.of_nat (length l) - n)) as y eqn:Hy.
    replace (Z.to_nat (Z.of_nat (length l) - (p + Z.of_nat (length l) - n))) with x by lia.
    destruct (Hl x y) as [-> ->]; [lia|].
    destruct (put_bytes_spec a p (take x l)) as (a1 & -> & Hl1 & Ha1);
      [lia|rewrite length_take; lia|]. rewrite outcome_bind_Done.
    destruct (put_bytes_spec a1 0 (drop x l)) as (a2 & -> & Hl2 & Ha2);
      [lia|rewrite length_drop; lia|].
    exists a2. split; [done|]. apply (rep_push_many _ _ _ a); [done|done|lia|..].
    + intros i v Hi. pose proof (lookup_lt_Some _ _ _ Hi). rewrite mod_wrap by lia. fold p.
      rewrite Ha2, length_drop, Ha1, length_take.
      destruct (decide (p + Z.of_nat i < n)).
      * rewrite decide_False, decide_True by lia. rewrite lookup_take_lt by lia.
        rewrite <- Hi. f_equal. lia.
      * rewrite decide_True by lia. rewrite lookup_drop, <- Hi. f_equal. lia.
    + intros j Hj Hne. rewrite Ha2, length_drop, Ha1, length_take.
      rewrite !decide_False; [done| |].
      * intros Hin. apply (Hne (Z.to_nat (j - p))); [lia|]. rewrite mod_wrap by lia. fold p.
        rewrite decide_True; lia.
      * intros Hin. apply (Hne (Z.to_nat (j - p + n))); [lia|]. rewrite mod_wrap by lia. fold p.
        rewrite decide_False; lia.
  - rewrite Nat2Z.id, Htake.
    destruct (put_bytes_spec a p l) as (a1 & -> & Hl1 & Ha1); [lia|lia|].
    exists a1. split; [done|]. apply (rep_push_many _ _ _ a); [done|done|lia|..].
    + intros i v Hi. pose proof (lookup_lt_Some _ _ _ Hi). rewrite mod_wrap by lia. fold p.
      rewrite decide_True by lia. rewrite Ha1, decide_True by lia. rewrite <- Hi. f_equal. lia.
    + intros j Hj Hne. rewrite Ha1, decide_False; [done|].
      intros Hin. apply (Hne (Z.to_nat (j - p))); [lia|]. rewrite mod_wrap by lia. fold p.
      rewrite decide_True; lia.
Qed.

Lemma get_bytes_list b off l :
  0 ≤ off → off + Z.of_nat (length l) ≤ Z.of_nat (length b) →
  (∀ i x, l !! i = Some x → b !! (Z.to_nat off + i)%nat = Some x) →
  get_bytes b off (Z.of_nat (length l)) = Done l.
Proof.
  intros H1 H2 Hl. rewrite get_bytes_Done by done. f_equal. rewrite Nat2Z.id.
  apply list_eq. intros i. destruct (decide (i < length l)%nat) as [Hi|Hi].
  - rewrite lookup_take_lt, lookup_drop by done.
    destruct (lookup_lt_is_Some_2 l i Hi) as [x Hx]. rewrite Hx. by apply Hl.
  - rewrite !lookup_ge_None_2; [done|lia|]. rewrite length_take. lia.
Qed.

Lemma copy_out_rep n rd wt a l q :
  ring_rep n rd wt a (l ++ q) →
  copy_out a (rd mod n) (Z.of_nat (length l)) (rd mod n + Z.of_nat (length l) - n) = Done l.
Proof.
  intros Hr. pose proof (rep_bounds _ _ _ _ _ Hr) as Hb.
  pose proof (rep_length _ _ _ _ _ Hr) as Hlen. pose proof (rep_cap _ _ _ _ _ Hr) as Hcap.
  rewrite length_app in Hcap. destruct (rep_pop_many _ _ _ _ _ _ Hr) as [Hl _].
  pose proof (Z.mod_pos_bound rd n ltac:(lia)) as Hpos.
  assert (Hwrap : ∀ i x, l !! i = Some x → a !! Z.to_nat (if decide (rd mod n + Z.of_nat i < n)
      then rd mod n + Z.of_nat i else rd mod n + Z.of_nat i - n) = Some x).
  { intros i x Hi. rewrite <- (Hl _ _ Hi). pose proof (lookup_lt_Some _ _ _ Hi).
    by rewrite mod_wrap by lia. }
  clear Hl. set (p := rd mod n) in *. unfold copy_out.
  rewrite (proj2 (Z.ltb_ge _ _)) by lia.
  destruct (Z.ltb_spec 0 (p + Z.of_nat (length l) - n)) as [Hw|Hw].
  - remember (Z.to_nat (n - p)) as x eqn:Hx.
    replace (Done l) with (Done (take x l ++ drop x l)) by (by rewrite take_drop).
    replace (Z.of_nat (length l) - (p + Z.of_nat (length l) - n)) with (Z.of_nat (length (take x l)))
      by (rewrite length_take; lia).
    replace (p + Z.of_nat (length l) - n) with (Z.of_nat (length (drop x l)))
      by (rewrite length_drop; lia).
    rewrite (get_bytes_list a p (take x l)).
    + rewrite outcome_bind_Done, (get_bytes_list a 0 (drop x l)); [done|lia| |].
      * rewrite length_drop. lia.
      * intros i v Hi. rewrite lookup_drop in Hi. pose proof (lookup_lt_Some _ _ _ Hi).
        rewrite <- (Hwrap _ _ Hi), decide_False by lia. f_equal. lia.
    + lia.
    + rewrite length_take. lia.
    + intros i v [Hi Hix]%lookup_take_Some. rewrite <- (Hwrap _ _ Hi), decide_True by lia.
      f_equal. lia.
  - apply get_bytes_list; [lia|lia|]. intros i x Hi. pose proof (lookup_lt_Some _ _ _ Hi).
    rewrite <- (Hwrap _ _ Hi), decide_True by lia. f_equal. lia.
Qed.

(** ** One end *)

(** A direction holds the bytes [q]; its size is a power of two that an [int]
    can hold. *)
Definition dir_rep (n : Z) (d : dir) (q : list Z) : Prop :=
  n < 2 ^ 31 ∧ d_size d = n ∧ ring_rep n (d_rd d) (d_wt d) (d_bytes d) q.

Lemma dir_used n d q : dir_rep n d q → used d = Z.of_nat (length q).
Proof.
  intros (Hn & _ & Hr). pose proof (rep_count _ _ _ _ _ Hr) as Hc.
  pose proof (rep_cap _ _ _ _ _ Hr). unfold used, s32.
  rewrite <- Zplus_mod_idemp_l. fold (u32 (d_wt d - d_rd d)). rewrite Hc, Z.mod_small; lia.
Qed.

Lemma dir_has_room n d q : dir_rep n d q → has_room d = (Z.of_nat (length q) <? n).
Proof.
  intros H. unfold has_room. rewrite (dir_used _ _ _ H). destruct H as (Hn & -> & Hr).
  pose proof (rep_cap _ _ _ _ _ Hr). by rewrite u32_small by lia.
Qed.

Lemma dir_has_bytes n d q : dir_rep n d q → has_bytes d = negb (bool_decide (q = [])).
Proof. intros (_ & _ & Hr). unfold has_bytes. by rewrite Z.eqb_sym, (rep_empty _ _ _ _ _ Hr). Qed.

Lemma dir_bounds n d q : dir_rep n d q → 0 < n < 2 ^ 31 ∧ 0 ≤ Z.of_nat (length q) ≤ n.
Proof.
  intros (Hn & _ & Hr). pose proof (rep_bounds _ _ _ _ _ Hr). pose proof (rep_cap _ _ _ _ _ Hr). lia.
Qed.

(** How many bytes a write takes, and a read gives. *)
Definition room (n : Z) (q : list Z) : nat := Z.to_nat (n - Z.of_nat (length q)).

(** ** Running the primitives *)

Section Primitives.
Context (i : nat) (s : sbuf_mgr) (Hi : (i < length (rings s))%nat).

(** The world in which ring [i] of [s] is [r]. *)
Definition at_ring (r : sbuf_ring) (snt : list smsg) (nts : list (Z * Z)) (h : Z) : world :=
  World (Some (on_rings <[i := r]> s)) snt nts h.

Implicit Types (r : sbuf_ring) (snt : list smsg) (nts : list (Z * Z)) (h : Z).

Lemma runs_the_mgr r snt nts h (Φ : sbuf_mgr → world → Prop) :
  Φ (on_rings <[i := r]> s) (at_ring r snt nts h) → runs the_mgr (at_ring r snt nts h) Φ.
Proof. intros. by eexists _, _. Qed.

Lemma runs_ring_at r snt nts h (Φ : sbuf_ring → world → Prop) :
  Φ r (at_ring r snt nts h) → runs (ring_at (Z.of_nat i)) (at_ring r snt nts h) Φ.
Proof using Hi.
  intros H. apply runs_bind, runs_the_mgr. simpl. rewrite Nat2Z.id, list_lookup_insert_eq by done.
  rewrite (proj2 (Z.leb_le 0 _)) by lia. by apply runs_ret.
Qed.

Lemma runs_upd_ring f r snt nts h (Φ : () → world → Prop) :
  Φ () (at_ring (f r) snt nts h) → runs (upd_ring (Z.of_nat i) f) (at_ring r snt nts h) Φ.
Proof using Hi.
  intros H. apply runs_bind, runs_ring_at, runs_modify. unfold at_ring in *. simpl.
  unfold on_rings in *. simpl in *. rewrite Nat2Z.id. by rewrite list_insert_insert_eq.
Qed.

Lemma runs_send m r snt nts h (Φ : () → world → Prop) :
  Φ () (at_ring r (m :: snt) nts h) → runs (smsg_send m) (at_ring r snt nts h) Φ.
Proof. intros H. by apply runs_modify. Qed.

Definition held_by (e : env) (h : Z) : Z := if local e then h else h + 1.

Lemma runs_request e r snt nts h (Φ : Z → world → Prop) :
  Φ 0 (at_ring r snt nts (held_by e h)) → runs (request e 0) (at_ring r snt nts h) Φ.
Proof.
  intros H. unfold request, held_by in *. destruct (local e); [by apply runs_ret|].
  apply runs_bind, runs_modify. by apply runs_ret.
Qed.

Lemma runs_release e r snt nts h (Φ : () → world → Prop) :
  Φ () (at_ring r snt nts h) → runs (release e) (at_ring r snt nts (held_by e h)) Φ.
Proof.
  intros H. unfold release, held_by. destruct (local e); [by apply runs_ret|].
  apply runs_modify. unfold at_ring in *. simpl.
  change (h + 1 + -1) with (h + 1 - 1). by rewrite Z.add_simpl_r.
Qed.

Lemma runs_trylock get set r snt nts h (Φ : bool → world → Prop) :
  get r = false → Φ true (at_ring (set true r) snt nts h) →
  runs (trylock get set (Z.of_nat i)) (at_ring r snt nts h) Φ.
Proof using Hi.
  intros Hg H. apply runs_bind, runs_ring_at. rewrite Hg. apply runs_bind, runs_upd_ring.
  by apply runs_ret.
Qed.
End Primitives.

(** The environment of a call that does not wait and meets no error. *)
Record good_env (e : env) : Prop := {
  ge_valid : valid e = true;
  ge_request1 : request1 e = 0;
  ge_request2 : request2 e = 0;
  ge_copy1 : copy1 e = true;
  ge_copy2 : copy2 e = true;
  ge_meanwhile : meanwhile e = id;
}.

(** ** Abstract operations on a queue *)

(** What a write of [data] to the queue [q] of capacity [n] returns, adds, and
    whether the peer is told. *)
Definition queue_write (n : Z) (force : bool) (q data : list Z) : Z * list Z * bool :=
  if n <=? Z.of_nat (length q) then (- EBUSY, [], false)
  else if data is [] then (0, [], false)
  else let l := take (room n q) data in
       (Z.of_nat (length l), l, force || bool_decide (q = [])).

(** What a read of [len] bytes returns, takes, and whether the peer is told. *)
Definition queue_read (n : Z) (q : list Z) (len : nat) : Z * list Z * bool :=
  match q with
  | [] => (- ENODATA, [], false)
  | _ :: _ =>
    if len is O then (0, [], false)
    else let l := take len q in
         (Z.of_nat (length l), l, bool_decide (Z.of_nat (length q) = n))
  end.

(** ** Writing *)

Lemma write_loop_eq e bufid fuel data left_ rval :
  write_loop e bufid fuel data left_ rval =
    (s ← the_mgr;
     r ← ring_at bufid;
     let d := tx r in
     if negb (left_ =? 0) && has_room d && (state s =? SBUF_STATE_READY) then
       match fuel with
       | O => hang
       | S fuel =>
         if d_size d =? 0 then fault else
         let pos := d_wt d mod d_size d in
         let txsize := Z.min (s32 (d_size d - used d)) left_ in
         let tail := s32 (pos + txsize - d_size d) in
         if negb (copy1 e) || (0 <? tail) && negb (copy2 e) then mret (- EFAULT, left_) else
         bytes ← lift (copy_in (d_bytes d) data pos txsize tail);
         upd_ring bufid (on_tx (λ _, Dir (d_rd d) (u32 (d_wt d + txsize)) (d_size d) bytes));;
         (if force_send s || (u32 (u32 (d_wt d + txsize) - d_rd d) =? u32 txsize)
          then smsg_send (smsg_set (chan e) SMSG_TYPE_EVENT SMSG_EVENT_SBUF_WRPTR bufid)
          else mret ());;
         write_loop e bufid fuel (drop (Z.to_nat txsize) data) (left_ - txsize) rval
       end
     else mret (rval, left_)).
Proof. by destruct fuel. Qed.

Definition tx_event (e : env) (i : nat) : smsg :=
  smsg_set (chan e) SMSG_TYPE_EVENT SMSG_EVENT_SBUF_WRPTR (Z.of_nat i).
Definition rx_event (e : env) (i : nat) : smsg :=
  smsg_set (chan e) SMSG_TYPE_EVENT SMSG_EVENT_SBUF_RDPTR (Z.of_nat i).
Definition tell (b : bool) (m : smsg) (l : list smsg) : list smsg := if b then m :: l else l.

Lemma written_value len k : 0 ≤ k ≤ len → len < 2 ^ 31 →
  (if len =? u32 (len - k) then 0 else s32 (len - (len - k))) = k.
Proof.
  intros Hk Hlen. rewrite u32_small by lia. destruct (Z.eqb_spec len (len - k)); [lia|].
  rewrite s32_small; lia.
Qed.

Section Write.
Context (e : env) (i : nat) (s : sbuf_mgr) (Hi : (i < length (rings s))%nat).
Context (He : good_env e) (Hs : state s = SBUF_STATE_READY).

(** The loop has nothing (more) to do. *)
Lemma runs_write_stop n fuel data left_ rval q r snt nts h (Φ : Z * Z → world → Prop) :
  dir_rep n (tx r) q → left_ = 0 ∨ Z.of_nat (length q) = n →
  Φ (rval, left_) (at_ring i s r snt nts h) →
  runs (write_loop e (Z.of_nat i) fuel data left_ rval) (at_ring i s r snt nts h) Φ.
Proof using Hi.
  intros Hd Hstop HΦ. rewrite write_loop_eq. apply runs_bind, runs_the_mgr.
  apply runs_bind, runs_ring_at; [done|]. cbv zeta. rewrite (dir_has_room _ _ _ Hd).
  assert (negb (left_ =? 0) && (Z.of_nat (length q) <? n) = false) as ->.
  { destruct Hstop as [->| ->]; [done|]. rewrite Z.ltb_irrefl. apply andb_false_r. }
  by apply runs_ret.
Qed.

(** The new queue after the bytes [l] were stored. *)
Lemma runs_write_copy n data r q snt nts h l (Φ : list Z → world → Prop) :
  dir_rep n (tx r) q → l = take (length l) data → (length l ≤ length data)%nat →
  Z.of_nat (length q + length l) ≤ n →
  let d := tx r in
  (∀ bytes, dir_rep n (Dir (d_rd d) (u32 (d_wt d + Z.of_nat (length l))) (d_size d) bytes) (q ++ l) →
            Φ bytes (at_ring i s r snt nts h)) →
  runs (lift (copy_in (d_bytes d) data (d_wt d mod d_size d) (Z.of_nat (length l))
    (s32 (d_wt d mod d_size d + Z.of_nat (length l) - d_size d)))) (at_ring i s r snt nts h) Φ.
Proof.
  intros Hd Hl Hle Hcap d HΦ. pose proof (dir_bounds _ _ _ Hd) as [Hn _].
  destruct Hd as (Hn' & Hsz & Hr). unfold d in *. rewrite Hsz in *.
  pose proof (Z.mod_pos_bound (d_wt (tx r)) n ltac:(lia)).
  rewrite s32_small by lia.
  destruct (copy_in_rep _ _ _ _ _ l data Hr) as (a' & E & Hr'); [done|done|done|].
  eapply runs_lift; [exact E|]. apply HΦ. by split.
Qed.


Lemma runs_write_loop n data rval q r snt nts h :
  dir_rep n (tx r) q → Z.of_nat (length data) < 2 ^ 31 →
  let l := take (room n q) data in
  let told := negb (bool_decide (l = [])) && (force_send s || bool_decide (q = [])) in
  runs (write_loop e (Z.of_nat i) 2 data (Z.of_nat (length data)) rval) (at_ring i s r snt nts h)
    (λ res w', res = (rval, Z.of_nat (length data) - Z.of_nat (length l)) ∧ ∃ d',
       w' = at_ring i s (on_tx (λ _, d') r) (tell told (tx_event e i) snt) nts h
       ∧ dir_rep n d' (q ++ l)).
Proof using Hi He Hs.
  intros Hd Hlen l told. pose proof (dir_bounds _ _ _ Hd) as [Hn Hq].
  assert (Hll : length l = Nat.min (room n q) (length data)) by (unfold l; by rewrite length_take).
  destruct (decide (l = [])) as [El|El].
  { eapply runs_write_stop; [exact Hd| |].
    - destruct data; [by left|right]. rewrite El in Hll. unfold room in Hll. simpl in Hll. lia.
    - unfold told. rewrite El, app_nil_r, bool_decide_true by done. simpl.
      rewrite Z.sub_0_r. split; [done|]. exists (tx r). split; [|done].
      unfold at_ring. by destruct r. }
  assert (Hroom : Z.of_nat (room n q) = n - Z.of_nat (length q)) by (unfold room; lia).
  assert (Hl0 : (0 < length l)%nat) by (destruct l; [done|simpl; lia]).
  rewrite write_loop_eq. apply runs_bind, runs_the_mgr.
  apply runs_bind, runs_ring_at; [done|]. cbv zeta.
  rewrite (dir_has_room _ _ _ Hd), (dir_used _ _ _ Hd). cbn [state on_rings]. rewrite Hs.
  rewrite (proj2 (Z.eqb_neq (Z.of_nat (length data)) 0)), (proj2 (Z.ltb_lt _ _)) by lia.
  cbn [negb andb]. change (SBUF_STATE_READY =? SBUF_STATE_READY) with true. cbn match.
  pose proof Hd as (_ & Hsz & Hr).
  rewrite (proj2 (Z.eqb_neq (d_size (tx r)) 0)) by lia.
  replace (Z.min (s32 (d_size (tx r) - Z.of_nat (length q))) (Z.of_nat (length data)))
    with (Z.of_nat (length l)) by (rewrite Hsz, s32_small; lia).
  rewrite (ge_copy1 _ He), (ge_copy2 _ He), andb_false_r. cbn [negb orb].
  apply runs_bind. eapply runs_write_copy; [exact Hd| | |lia|].
  { rewrite Hll, <- take_take. by rewrite (take_ge data) by lia. }
  { lia. }
  intros bytes Hd'. apply runs_bind, runs_upd_ring; [done|].
  assert (Hu : u32 (u32 (d_wt (tx r) + Z.of_nat (length l)) - d_rd (tx r))
               = Z.of_nat (length (q ++ l))).
  { destruct Hd' as (_ & _ & Hr'). by apply rep_count in Hr'. }
  rewrite Hu, (u32_small (Z.of_nat (length l))), length_app by lia.
  assert (Et : force_send s || (Z.of_nat (length q + length l) =? Z.of_nat (length l)) = told).
  { unfold told. rewrite (bool_decide_false (l = [])) by done. cbn [negb andb]. f_equal.
    destruct (decide (q = [])) as [->|Hq0].
    - rewrite bool_decide_true by done. simpl. apply Z.eqb_refl.
    - rewrite bool_decide_false by done. apply Z.eqb_neq. destruct q; [done|simpl; lia]. }
  cbn [force_send on_rings]. rewrite Et.
  eapply runs_bind, (runs_mono _ _ (λ _ w', w' = at_ring i s (on_tx (λ _, Dir (d_rd (tx r))
    (u32 (d_wt (tx r) + Z.of_nat (length l))) (d_size (tx r)) bytes) r)
    (tell told (tx_event e i) snt) nts h)).
  { destruct told; [by apply runs_send|by apply runs_ret]. }
  intros [] w' ->. eapply runs_write_stop; [exact Hd'| |].
  - rewrite length_app. lia.
  - split; [done|]. eexists. split; [reflexivity|exact Hd'].
Qed.

Lemma runs_sbuf_write n data q r snt nts h :
  dir_rep n (tx r) q → Z.of_nat (length data) < 2 ^ 31 → txlock r = false →
  let '(rval, l, told) := queue_write n (force_send s) q data in
  runs (sbuf_write e (Z.of_nat i) data 0) (at_ring i s r snt nts h) (λ v w', v = rval ∧ ∃ r',
    w' = at_ring i s r' (tell told (tx_event e i) snt) nts h
    ∧ txlock r' = false ∧ rxlock r' = rxlock r ∧ rx r' = rx r ∧ dir_rep n (tx r') (q ++ l)).
Proof using Hi He Hs.
  intros Hd Hlen Hlk. pose proof (dir_bounds _ _ _ Hd) as [Hn Hq].
  destruct (queue_write n (force_send s) q data) as [[rval l] told] eqn:Eq.
  unfold sbuf_write. rewrite (ge_valid _ He). apply runs_bind, runs_get. simpl sbufs. cbn match.
  cbn [state on_rings]. rewrite Hs. apply runs_bind, runs_trylock; [done|done|].
  cbn [negb]. rewrite (ge_request1 _ He), (ge_request2 _ He), (ge_meanwhile _ He).
  apply runs_bind, runs_request. change (0 <? 0) with false.
  apply runs_bind, runs_ring_at; [done|]. apply runs_bind, runs_modify.
  apply runs_bind, runs_upd_ring; [done|]. apply runs_bind, runs_release.
  change (tx (set_txlock true r)) with (tx r). rewrite (dir_has_room _ _ _ Hd), negb_involutive.
  unfold queue_write in Eq. destruct (Z.leb_spec n (Z.of_nat (length q))) as [Hfull|Hroom].
  { rewrite (proj2 (Z.ltb_ge _ _)) by done. injection Eq as <- <- <-.
    apply runs_bind, runs_ret. change (- EBUSY <? 0) with true.
    apply runs_bind, runs_upd_ring, runs_ret; [done|]. split; [done|].
    eexists. split; [reflexivity|]. rewrite app_nil_r. by split_and!. }
  rewrite (proj2 (Z.ltb_lt _ _)) by done. apply runs_bind, runs_ret. change (0 <? 0) with false.
  apply runs_bind, runs_request. change (0 <? 0) with false.
  rewrite s32_small by lia. apply runs_bind.
  eapply runs_mono; [by apply (runs_write_loop n)|].
  intros [v left_] w' (E & d' & -> & Hd'). injection E as -> ->.
  apply runs_bind, runs_ring_at; [done|]. apply runs_bind, runs_upd_ring; [done|].
  apply runs_bind, runs_release. apply runs_bind, runs_upd_ring; [done|]. apply runs_ret.
  rewrite (written_value _ (Z.of_nat (length (take (room n q) data))))
    by (rewrite ?length_take; lia).
  assert (Eq' : rval = Z.of_nat (length (take (room n q) data)) ∧ l = take (room n q) data
    ∧ told = negb (bool_decide (take (room n q) data = [])) && (force_send s || bool_decide (q = []))).
  { destruct data as [|x data]; injection Eq as <- <- <-; [by rewrite take_nil|].
    split_and!; try done. rewrite (bool_decide_false (take _ _ = [])); [done|].
    unfold room. destruct (Z.to_nat (n - Z.of_nat (length q))) eqn:E; [lia|done]. }
  destruct Eq' as (-> & -> & ->). split; [done|]. eexists. split; [reflexivity|]. by split_and!.
Qed.
End Write.

(** ** Reading *)

Lemma read_loop_eq e bufid fuel left_ rval :
  read_loop e bufid fuel left_ rval =
    (s ← the_mgr;
     r ← ring_at bufid;
     let d := rx r in
     if negb (left_ =? 0) && has_bytes d && (state s =? SBUF_STATE_READY) then
       match fuel with
       | O => hang
       | S fuel =>
         if d_size d =? 0 then fault else
         let pos := d_rd d mod d_size d in
         let rxsize := Z.min (used d) left_ in
         let tail := s32 (pos + rxsize - d_size d) in
         if negb (copy1 e) || (0 <? tail) && negb (copy2 e) then mret (- EFAULT, left_, []) else
         out ← lift (copy_out (d_bytes d) pos rxsize tail);
         let rd := u32 (d_rd d + rxsize) in
         upd_ring bufid (on_rx (λ _, Dir rd (d_wt d) (d_size d) (d_bytes d)));;
         (if u32 (d_wt d - rd) =? u32 (d_size d - rxsize)
          then smsg_send (smsg_set (chan e) SMSG_TYPE_EVENT SMSG_EVENT_SBUF_RDPTR bufid)
          else mret ());;
         '(rval, left_, more) ← read_loop e bufid fuel (left_ - rxsize) rval;
         mret (rval, left_, out ++ more)
       end
     else mret (rval, left_, [])).
Proof. by destruct fuel. Qed.

Section Read.
Context (e : env) (i : nat) (s : sbuf_mgr) (Hi : (i < length (rings s))%nat).
Context (He : good_env e) (Hs : state s = SBUF_STATE_READY).

Lemma runs_read_stop n fuel left_ rval q r snt nts h (Φ : Z * Z * list Z → world → Prop) :
  dir_rep n (rx r) q → left_ = 0 ∨ q = [] →
  Φ (rval, left_, []) (at_ring i s r snt nts h) →
  runs (read_loop e (Z.of_nat i) fuel left_ rval) (at_ring i s r snt nts h) Φ.
Proof using Hi.
  intros Hd Hstop HΦ. rewrite read_loop_eq. apply runs_bind, runs_the_mgr.
  apply runs_bind, runs_ring_at; [done|]. cbv zeta. rewrite (dir_has_bytes _ _ _ Hd).
  assert (negb (left_ =? 0) && negb (bool_decide (q = [])) = false) as ->.
  { destruct Hstop as [->| ->]; [done|]. rewrite bool_decide_true by done. apply andb_false_r. }
  by apply runs_ret.
Qed.

Lemma runs_read_loop n len rval q r snt nts h :
  dir_rep n (rx r) q → Z.of_nat len < 2 ^ 31 →
  let l := take len q in
  let told := negb (bool_decide (l = [])) && bool_decide (Z.of_nat (length q) = n) in
  runs (read_loop e (Z.of_nat i) 2 (Z.of_nat len) rval) (at_ring i s r snt nts h)
    (λ res w', res = (rval, Z.of_nat len - Z.of_nat (length l), l) ∧ ∃ d',
       w' = at_ring i s (on_rx (λ _, d') r) (tell told (rx_event e i) snt) nts h
       ∧ dir_rep n d' (drop len q)).
Proof using Hi He Hs.
  intros Hd Hlen l told. pose proof (dir_bounds _ _ _ Hd) as [Hn Hq].
  assert (Hll : length l = Nat.min len (length q)) by (unfold l; by rewrite length_take).
  destruct (decide (l = [])) as [El|El].
  { eapply runs_read_stop; [exact Hd| |].
    - rewrite El in Hll. simpl in Hll. destruct q; [by right|left]. simpl in Hll. lia.
    - unfold told. rewrite El, bool_decide_true by done. cbn [negb andb tell length].
      rewrite Z.sub_0_r. split; [done|]. exists (rx r). split.
      + unfold at_ring. by destruct r.
      + rewrite <- (take_drop len q) in Hd. fold l in Hd. rewrite El in Hd. done. }
  assert (Hl0 : (0 < length l)%nat) by (destruct l; [done|simpl; lia]).
  rewrite read_loop_eq. apply runs_bind, runs_the_mgr.
  apply runs_bind, runs_ring_at; [done|]. cbv zeta.
  rewrite (dir_has_bytes _ _ _ Hd), (dir_used _ _ _ Hd). cbn [state on_rings]. rewrite Hs.
  rewrite (proj2 (Z.eqb_neq (Z.of_nat len) 0)) by lia.
  rewrite (bool_decide_false (q = [])) by (intros ->; simpl in Hll; lia).
  cbn [negb andb]. change (SBUF_STATE_READY =? SBUF_STATE_READY) with true. cbn match.
  pose proof Hd as (_ & Hsz & Hr). rewrite (proj2 (Z.eqb_neq (d_size (rx r)) 0)) by lia.
  replace (Z.min (Z.of_nat (length q)) (Z.of_nat len)) with (Z.of_nat (length l)) by lia.
  rewrite (ge_copy1 _ He), (ge_copy2 _ He), andb_false_r. cbn [negb orb]. rewrite Hsz.
  pose proof (Z.mod_pos_bound (d_rd (rx r)) n ltac:(lia)). rewrite s32_small by lia.
  rewrite <- (take_drop len q) in Hr. fold l in Hr.
  apply runs_bind. eapply runs_lift; [eapply copy_out_rep; exact Hr|].
  apply rep_pop_many in Hr as [_ Hr'].
  apply runs_bind, runs_upd_ring; [done|].
  assert (Hu : u32 (d_wt (rx r) - u32 (d_rd (rx r) + Z.of_nat (length l)))
               = Z.of_nat (length (drop len q))) by (by apply rep_count in Hr').
  rewrite Hu, length_drop, u32_small by lia.
  assert (Et : (Z.of_nat (length q - len) =? n - Z.of_nat (length l)) = told).
  { unfold told. rewrite (bool_decide_false (l = [])) by done. cbn [negb andb].
    destruct (decide (Z.of_nat (length q) = n)).
    - rewrite bool_decide_true by done. apply Z.eqb_eq. lia.
    - rewrite bool_decide_false by done. apply Z.eqb_neq. lia. }
  rewrite Et. set (d' := Dir _ _ _ _).
  assert (Hd' : dir_rep n d' (drop len q)) by (split_and!; [lia|done|done]).
  eapply runs_bind, (runs_mono _ _ (λ _ w', w' = at_ring i s (on_rx (λ _, d') r)
    (tell told (rx_event e i) snt) nts h)).
  { destruct told; [by apply runs_send|by apply runs_ret]. }
  intros [] w' ->. eapply runs_bind, runs_read_stop; [exact Hd'| |].
  - destruct (decide (len ≤ length q)%nat); [left; lia|right; apply drop_ge; lia].
  - apply runs_ret. rewrite app_nil_r. split; [done|]. by exists d'.
Qed.

Lemma runs_sbuf_read n len q r snt nts h :
  dir_rep n (rx r) q → Z.of_nat len < 2 ^ 31 → rxlock r = false →
  let '(rval, l, told) := queue_read n q len in
  runs (sbuf_read e (Z.of_nat i) (Z.of_nat len) 0) (at_ring i s r snt nts h) (λ v w',
    v = (rval, l) ∧ ∃ r',
    w' = at_ring i s r' (tell told (rx_event e i) snt) nts h
    ∧ rxlock r' = false ∧ txlock r' = txlock r ∧ tx r' = tx r
    ∧ dir_rep n (rx r') (drop (length l) q)).
Proof using Hi He Hs.
  intros Hd Hlen Hlk. pose proof (dir_bounds _ _ _ Hd) as [Hn Hq].
  destruct (queue_read n q len) as [[rval l] told] eqn:Eq.
  unfold sbuf_read. rewrite (ge_valid _ He). apply runs_bind, runs_get. simpl sbufs. cbn match.
  cbn [state on_rings]. rewrite Hs. apply runs_bind, runs_trylock; [done|done|].
  cbn [negb]. rewrite (ge_request1 _ He), (ge_request2 _ He), (ge_meanwhile _ He).
  apply runs_bind, runs_request. change (0 <? 0) with false.
  apply runs_bind, runs_ring_at; [done|]. apply runs_bind, runs_modify.
  apply runs_bind, runs_upd_ring; [done|]. apply runs_bind, runs_release.
  change (rx (set_rxlock true r)) with (rx r). rewrite (dir_has_bytes _ _ _ Hd), negb_involutive.
  unfold queue_read in Eq. destruct q as [|x q'].
  { injection Eq as <- <- <-. apply runs_bind, runs_ret. change (- ENODATA <? 0) with true.
    apply runs_bind, runs_upd_ring, runs_ret; [done|]. split; [done|].
    eexists. split; [reflexivity|]. by split_and!. }
  rewrite bool_decide_false by done. apply runs_bind, runs_ret. change (0 <? 0) with false.
  apply runs_bind, runs_request. change (0 <? 0) with false.
  rewrite s32_small by lia. apply runs_bind.
  eapply runs_mono; [by apply (runs_read_loop n)|].
  intros [[v left_] out] w' (E & d' & -> & Hd'). injection E as -> -> ->.
  apply runs_bind, runs_ring_at; [done|]. apply runs_bind, runs_upd_ring; [done|].
  apply runs_bind, runs_release. apply runs_bind, runs_upd_ring; [done|]. apply runs_ret.
  rewrite (written_value _ (Z.of_nat (length (take len (x :: q')))))
    by (rewrite ?length_take; lia).
  assert (Eq' : rval = Z.of_nat (length (take len (x :: q'))) ∧ l = take len (x :: q')
    ∧ told = negb (bool_decide (take len (x :: q') = []))
             && bool_decide (Z.of_nat (length (x :: q')) = n)).
  { destruct len as [|len]; injection Eq as <- <- <-; done. }
  destruct Eq' as (-> & -> & ->). split; [done|]. eexists. split; [reflexivity|].
  split_and!; try done. cbn [rx set_rxlock on_mask on_rx].
  replace (drop (length (take len (x :: q'))) (x :: q')) with (drop len (x :: q')); [done|].
  rewrite length_take. destruct (decide (len ≤ length (x :: q'))%nat); [f_equal; lia|].
  rewrite !drop_ge by lia. done.
Qed.
End Read.

(** ** The channel as a whole *)

(** The host ([false]) and the client ([true]) of a channel. *)
Record link := Link { host_end : world; client_end : world }.

Inductive call := Write (bufid : nat) (data : list Z) | Read (bufid len : nat).
Inductive answer := AWrite (rval : Z) | ARead (rval : Z) (out : list Z).

Definition end_of (s : bool) (l : link) : world := if s then client_end l else host_end l.

(** The other side's rings after one side has used the shared memory: its
    transmit side is our receive side. *)
Definition mirror (src dst : sbuf_ring) : sbuf_ring := on_rx (λ _, tx src) (on_tx (λ _, rx src) dst).
Definition share (src dst : world) : world :=
  match sbufs src, sbufs dst with
  | Some s, Some d =>
    World (Some (on_rings (zip_with mirror (rings s)) d)) (sent dst) (notified dst) (held dst)
  | _, _ => dst
  end.
Definition put_end (s : bool) (w : world) (l : link) : link :=
  if s then Link (share w (host_end l)) w else Link w (share w (client_end l)).

Definition do_call (e : env) (c : call) : sb answer :=
  match c with
  | Write bufid data => AWrite <$> sbuf_write e (Z.of_nat bufid) data 0
  | Read bufid len => (λ r, ARead r.1 r.2) <$> sbuf_read e (Z.of_nat bufid) (Z.of_nat len) 0
  end.

Definition link_step (e : env) (l : link) (c : bool * call) : outcome (answer * link) :=
  '(a, w) ← do_call e c.2 (end_of c.1 l); Done (a, put_end c.1 w l).

Fixpoint link_run (e : env) (l : link) (cs : list (bool * call)) : outcome (list answer * link) :=
  match cs with
  | [] => Done ([], l)
  | c :: cs =>
    '(a, l) ← link_step e l c; '(answers, l) ← link_run e l cs; Done (a :: answers, l)
  end.

(** *** The abstract channel *)

(** The queues of each ring, from the host and from the client, and the messages
    each side has sent. *)
Record stream := Stream {
  queues : list (list Z * list Z);
  host_sent : list smsg; client_sent : list smsg;
}.

Section Abstract.
(** Capacities of the two directions and the sides' [force_send]; [ch] is the
    channel's number. *)
Context (ndown nup : Z) (force : bool → bool) (ch : Z).

Definition cap (s : bool) : Z := if s then nup else ndown.
Definition outq (s : bool) (q : list Z * list Z) : list Z := if s then q.2 else q.1.
Definition set_outq (s : bool) (v : list Z) (q : list Z * list Z) : list Z * list Z :=
  if s then (q.1, v) else (v, q.2).
Definition told_by (s told : bool) (m : smsg) (a : stream) : stream :=
  if s then Stream (queues a) (host_sent a) (tell told m (client_sent a))
  else Stream (queues a) (tell told m (host_sent a)) (client_sent a).
Definition set_queue (i : nat) (q : list Z * list Z) (a : stream) : stream :=
  Stream (<[i := q]> (queues a)) (host_sent a) (client_sent a).

Definition event (flag : Z) (i : nat) : smsg := smsg_set ch SMSG_TYPE_EVENT flag (Z.of_nat i).

Definition stream_step (a : stream) (c : bool * call) : option (answer * stream) :=
  let '(s, c) := c in
  match c with
  | Write i data =>
    q ← queues a !! i;
    if decide (Z.of_nat (length data) < 2 ^ 31) then
      let '(v, l, told) := queue_write (cap s) (force s) (outq s q) data in
      Some (AWrite v, told_by s told (event SMSG_EVENT_SBUF_WRPTR i)
                        (set_queue i (set_outq s (outq s q ++ l) q) a))
    else None
  | Read i len =>
    q ← queues a !! i;
    if decide (Z.of_nat len < 2 ^ 31) then
      let '(v, l, told) := queue_read (cap (negb s)) (outq (negb s) q) len in
      Some (ARead v l, told_by s told (event SMSG_EVENT_SBUF_RDPTR i)
                         (set_queue i (set_outq (negb s) (drop (length l) (outq (negb s) q)) q) a))
    else None
  end.

Fixpoint stream_run (a : stream) (cs : list (bool * call)) : option (list answer * stream) :=
  match cs with
  | [] => Some ([], a)
  | c :: cs =>
    '(x, a) ← stream_step a c; '(answers, a) ← stream_run a cs; Some (x :: answers, a)
  end.

(** *** Refinement *)

Record ring_ok (s : bool) (r : sbuf_ring) (q : list Z * list Z) : Prop := {
  ro_tx : dir_rep (cap s) (tx r) (outq s q);
  ro_rx : dir_rep (cap (negb s)) (rx r) (outq (negb s) q);
  ro_txlock : txlock r = false;
  ro_rxlock : rxlock r = false;
}.

Definition sent_of (s : bool) (a : stream) : list smsg := if s then client_sent a else host_sent a.

Record end_rep (s : bool) (w : world) (a : stream) (m : sbuf_mgr) : Prop := {
  er_mgr : sbufs w = Some m;
  er_state : state m = SBUF_STATE_READY;
  er_force : force_send m = force s;
  er_rings : Forall2 (ring_ok s) (rings m) (queues a);
  er_sent : sent w = sent_of s a;
}.

Definition link_rep (l : link) (a : stream) : Prop := ∀ s, ∃ m, end_rep s (end_of s l) a m.

Lemma mirror_ok s r r' q q0 :
  ring_ok s r q → ring_ok (negb s) r' q0 → ring_ok (negb s) (mirror r r') q.
Proof. intros [] []. split; simpl; rewrite ?negb_involutive; done. Qed.

Lemma mirror_rings s rs rs' qs qs0 :
  Forall2 (ring_ok s) rs qs → Forall2 (ring_ok (negb s)) rs' qs0 → length qs = length qs0 →
  Forall2 (ring_ok (negb s)) (zip_with mirror rs rs') qs.
Proof.
  intros H. revert rs' qs0. induction H as [|r q rs qs Hr _ IH]; intros rs' qs0 H' Hl; [constructor|].
  destruct H' as [|r' q0 rs' qs0 Hr' H']; [done|]. simpl. constructor; [by eapply mirror_ok|].
  eapply IH; [done|by injection Hl].
Qed.

(** What one side does to its world, seen by both. *)
Lemma rep_step l a a' s w m :
  link_rep l a → end_rep s w a' m → length (queues a') = length (queues a) →
  sent_of (negb s) a' = sent_of (negb s) a →
  link_rep (put_end s w l) a'.
Proof.
  intros Hl Hw Hlen Hsent t. destruct (decide (t = s)) as [->|Hne].
  - exists m. by destruct s.
  - assert (t = negb s) as -> by (by destruct s, t). destruct (Hl (negb s)) as (d & Hd).
    exists (on_rings (zip_with mirror (rings m)) d).
    assert (E : end_of (negb s) (put_end s w l) = share w (end_of (negb s) l))
      by (by destruct s).
    rewrite E. unfold share. destruct Hw, Hd. rewrite er_mgr0, er_mgr1.
    split; simpl; try done; [by eapply mirror_rings|congruence].
Qed.

Lemma told_length s told m a : length (queues (told_by s told m a)) = length (queues a).
Proof. by destruct s. Qed.
Lemma told_queues s told m a : queues (told_by s told m a) = queues a.
Proof. by destruct s. Qed.
Lemma told_sent s told m a : sent_of s (told_by s told m a) = tell told m (sent_of s a).
Proof. by destruct s. Qed.
Lemma told_other s told m a : sent_of (negb s) (told_by s told m a) = sent_of (negb s) a.
Proof. by destruct s. Qed.
Lemma set_queue_sent s i q a : sent_of s (set_queue i q a) = sent_of s a.
Proof. by destruct s. Qed.

Lemma at_ring_self i m r w :
  sbufs w = Some m → rings m !! i = Some r → w = at_ring i m r (sent w) (notified w) (held w).
Proof.
  intros Hm Hr. destruct w; simpl in *. subst. unfold at_ring, on_rings.
  rewrite list_insert_id by done. by destruct m.
Qed.

(** The new state of one side, after ring [i] has changed. *)
Lemma end_step s w a m i r' q' told ev nts h :
  end_rep s w a m → ring_ok s r' q' →
  end_rep s (at_ring i m r' (tell told ev (sent w)) nts h)
    (told_by s told ev (set_queue i q' a)) (on_rings <[i := r']> m).
Proof.
  intros [] Hr'. split; simpl; try done.
  - rewrite told_queues. by apply Forall2_insert.
  - by rewrite told_sent, set_queue_sent, er_sent0.
Qed.

Lemma outq_set s v q : outq s (set_outq s v q) = v.
Proof. by destruct s. Qed.
Lemma outq_set_other s v q : outq (negb s) (set_outq s v q) = outq (negb s) q.
Proof. by destruct s. Qed.
Lemma outq_set_other' s v q : outq s (set_outq (negb s) v q) = outq s q.
Proof. by destruct s. Qed.

Section Refinement.
Context (e : env) (He : good_env e) (Hch : chan e = ch).

Lemma write_refines s l a i data x a' :
  link_rep l a → stream_step a (s, Write i data) = Some (x, a') →
  runs (do_call e (Write i data)) (end_of s l) (λ y w, y = x ∧ link_rep (put_end s w l) a').
Proof using He Hch.
  intros Hl E. destruct (Hl s) as (m & Hm). pose proof Hm as [].
  simpl in E. apply bind_Some in E as (q & Hq & E). case_decide as Hlen; [|done].
  destruct (Forall2_lookup_r _ _ _ _ _ er_rings0 Hq) as (r & Hr & []).
  destruct (queue_write (cap s) (force s) (outq s q) data) as [[v k] told] eqn:Eq.
  injection E as <- <-. apply runs_fmap.
  rewrite (at_ring_self _ _ _ _ er_mgr0 Hr).
  pose proof (runs_sbuf_write e i m (lookup_lt_Some _ _ _ Hr) He er_state0 (cap s) data (outq s q)
    r (sent (end_of s l)) (notified (end_of s l)) (held (end_of s l)) ro_tx0 Hlen ro_txlock0) as H.
  rewrite er_force0, Eq in H. eapply runs_mono; [exact H|].
  intros v' w' (-> & r' & -> & H1 & H2 & H3 & H4). split; [done|].
  unfold tx_event. rewrite Hch. fold (event SMSG_EVENT_SBUF_WRPTR i). eapply rep_step.
  - exact Hl.
  - apply (end_step s (end_of s l)); [done|]. split; try done; [by rewrite outq_set| |congruence].
    by rewrite H3, outq_set_other.
  - rewrite told_length. simpl. by rewrite length_insert.
  - by rewrite told_other, set_queue_sent.
Qed.

Lemma read_refines s l a i len x a' :
  link_rep l a → stream_step a (s, Read i len) = Some (x, a') →
  runs (do_call e (Read i len)) (end_of s l) (λ y w, y = x ∧ link_rep (put_end s w l) a').
Proof using He Hch.
  intros Hl E. destruct (Hl s) as (m & Hm). pose proof Hm as [].
  simpl in E. apply bind_Some in E as (q & Hq & E). case_decide as Hlen; [|done].
  destruct (Forall2_lookup_r _ _ _ _ _ er_rings0 Hq) as (r & Hr & []).
  destruct (queue_read (cap (negb s)) (outq (negb s) q) len) as [[v k] told] eqn:Eq.
  injection E as <- <-. apply runs_fmap.
  rewrite (at_ring_self _ _ _ _ er_mgr0 Hr).
  pose proof (runs_sbuf_read e i m (lookup_lt_Some _ _ _ Hr) He er_state0 (cap (negb s)) len
    (outq (negb s) q) r (sent (end_of s l)) (notified (end_of s l)) (held (end_of s l))
    ro_rx0 Hlen ro_rxlock0) as H.
  rewrite Eq in H. eapply runs_mono; [exact H|].
  intros v' w' (-> & r' & -> & H1 & H2 & H3 & H4). split; [done|].
  unfold rx_event. rewrite Hch. fold (event SMSG_EVENT_SBUF_RDPTR i). eapply rep_step.
  - exact Hl.
  - apply (end_step s (end_of s l)); [done|]. split; try done; [|by rewrite outq_set|congruence].
    by rewrite H3, outq_set_other'.
  - rewrite told_length. simpl. by rewrite length_insert.
  - by rewrite told_other, set_queue_sent.
Qed.

Lemma stream_step_refines l a c x a' :
  link_rep l a → stream_step a c = Some (x, a') →
  ∃ l', link_step e l c = Done (x, l') ∧ link_rep l' a'.
Proof using He Hch.
  intros Hl E. destruct c as [s c].
  assert (H : runs (do_call e c) (end_of s l) (λ y w, y = x ∧ link_rep (put_end s w l) a'))
    by (destruct c; [by eapply write_refines|by eapply read_refines]).
  destruct H as (y & w & E' & -> & Hl'). exists (put_end s w l). split; [|done].
  unfold link_step. cbn [fst snd]. by rewrite E'.
Qed.

Lemma stream_run_refines cs : ∀ l a answers a',
  link_rep l a → stream_run a cs = Some (answers, a') →
  ∃ l', link_run e l cs = Done (answers, l') ∧ link_rep l' a'.
Proof using He Hch.
  induction cs as [|c cs IH]; intros l a answers a' Hl E.
  { injection E as <- <-. by exists l. }
  simpl in E. apply bind_Some in E as ([x a1] & E1 & E).
  apply bind_Some in E as ([xs a2] & E2 & E). injection E as <- <-.
  destruct (stream_step_refines l a c x a1 Hl E1) as (l1 & El1 & Hl1).
  destruct (IH l1 a1 xs a2 Hl1 E2) as (l2 & El2 & Hl2).
  exists l2. simpl. rewrite El1. simpl. by rewrite El2.
Qed.
End Refinement.
End Abstract.

(** C3: The two sides of a channel, joined by the shared memory, behave as rings
    of two bounded byte queues each: for every sequence of reads and writes by
    either side, at any ring, through any number of overflows of the 32-bit
    pointers, each call returns what the queue gives, no access leaves a buffer,
    and the peer is told exactly when a write meets an empty queue (or always,
    when sending is forced) and a read a full one. *)
Theorem sbuf_link_refines ndown nup force e l a cs answers a' :
  good_env e → link_rep ndown nup force l a →
  stream_run ndown nup force (chan e) a cs = Some (answers, a') →
  ∃ l', link_run e l cs = Done (answers, l') ∧ link_rep ndown nup force l' a'.
Proof. intros He. by apply stream_run_refines. Qed.
