(* ===== verification/SbufProps.v ===== *)
(** * What holds of byte streams

    The bytes that go through a channel of [Sbuf], its creation by the two
    sides, the reopening after a restart of the peer, and the ways in which the
    code fails. *)

From S2P Require Import Prelude Ring Kernel Sbuf SbufLink.
From S2P Require Smsg.
Import Smsg (smsg, Smsg, type, flag, value, smsg_set, SMSG_TYPE_OPEN, SMSG_TYPE_CLOSE,
  SMSG_TYPE_EVENT, SMSG_TYPE_CMD, SMSG_TYPE_DONE, SMSG_OPEN_MAGIC, SMSG_CLOSE_MAGIC).

#[local] Open Scope Z_scope.
#[local] Open Scope c_scope.

(** ** The bytes of one direction of a ring *)

Section Bytes.
Context (ndown nup : Z) (force : bool → bool) (ch : Z) (s : bool) (i : nat).

(** The bytes side [s] was told to have written, and those the other side
    read. *)
Definition written_by (c : bool * call) (x : answer) : list Z :=
  match c, x with
  | (s', Write j data), AWrite v =>
    if decide (s' = s ∧ j = i) then take (Z.to_nat v) data else []
  | _, _ => []
  end.
Definition read_by (c : bool * call) (x : answer) : list Z :=
  match c, x with
  | (s', Read j _), ARead _ out => if decide (s' = negb s ∧ j = i) then out else []
  | _, _ => []
  end.

Fixpoint written_in (cs : list (bool * call)) (xs : list answer) : list Z :=
  match cs, xs with c :: cs, x :: xs => written_by c x ++ written_in cs xs | _, _ => [] end.
Fixpoint read_in (cs : list (bool * call)) (xs : list answer) : list Z :=
  match cs, xs with c :: cs, x :: xs => read_by c x ++ read_in cs xs | _, _ => [] end.

Definition under_way (a : stream) : list Z := default [] (outq s <$> queues a !! i).

Lemma queue_write_take n f q data v l told :
  queue_write n f q data = (v, l, told) → take (Z.to_nat v) data = l.
Proof.
  unfold queue_write. destruct (_ <=? _); [by intros [= <- <- <-]|].
  destruct data as [|x data]; [by intros [= <- <- <-]|]. intros [= <- <- <-].
  rewrite Nat2Z.id, length_take, <- take_take.
  by rewrite (take_ge (x :: data) (length (x :: data))).
Qed.

Lemma queue_read_split n q len v l told :
  queue_read n q len = (v, l, told) → q = l ++ drop (length l) q.
Proof.
  unfold queue_read. destruct q as [|x q]; [by intros [= <- <- <-]|].
  destruct len as [|len]; [by intros [= <- <- <-]|]. intros [= <- <- <-].
  simpl. f_equal. rewrite length_take. destruct (decide (len ≤ length q)%nat).
  - rewrite Nat.min_l by lia. by rewrite take_drop.
  - rewrite Nat.min_r by lia. by rewrite take_ge, drop_ge, app_nil_r by lia.
Qed.

Lemma stream_step_bytes a c x a' :
  stream_step ndown nup force ch a c = Some (x, a') →
  read_by c x ++ under_way a' = under_way a ++ written_by c x.
Proof.
  destruct c as [t [j data|j len]]; simpl; intros E;
    apply bind_Some in E as (q & Hq & E); case_decide; [|done| |done].
  - destruct (queue_write _ _ _ _) as [[v l] told] eqn:Ew. injection E as <- <-.
    unfold under_way. rewrite told_queues. simpl. destruct (decide (j = i)) as [->|Hne].
    + rewrite list_lookup_insert_eq by (by eapply lookup_lt_Some). rewrite Hq. simpl.
      destruct (decide (t = s)) as [->|Ht].
      * rewrite decide_True, outq_set by done. by rewrite (queue_write_take _ _ _ _ _ _ _ Ew).
      * rewrite decide_False by (intros [? _]; done). rewrite app_nil_r.
        by destruct s, t.
    + rewrite list_lookup_insert_ne, decide_False by (done || intros [_ ?]; done).
      by rewrite app_nil_r.
  - destruct (queue_read _ _ _) as [[v l] told] eqn:Er. injection E as <- <-.
    unfold under_way. rewrite told_queues, app_nil_r. simpl.
    apply queue_read_split in Er. destruct (decide (j = i)) as [->|Hne].
    + rewrite list_lookup_insert_eq by (by eapply lookup_lt_Some). rewrite Hq. simpl.
      destruct (decide (t = negb s)) as [->|Ht].
      * rewrite decide_True by done. rewrite negb_involutive in *. by rewrite outq_set.
      * rewrite decide_False by (intros [? _]; done). by destruct s, t.
    + by rewrite list_lookup_insert_ne, decide_False by (done || intros [_ ?]; done).
Qed.

Lemma stream_run_bytes cs : ∀ a answers a',
  stream_run ndown nup force ch a cs = Some (answers, a') →
  read_in cs answers ++ under_way a' = under_way a ++ written_in cs answers.
Proof.
  induction cs as [|c cs IH]; intros a answers a' E; simpl in E.
  { injection E as <- <-. by rewrite app_nil_r. }
  apply bind_Some in E as ([x a1] & E1 & E). apply bind_Some in E as ([xs a2] & E2 & E).
  injection E as <- <-. simpl. apply stream_step_bytes in E1. apply IH in E2.
  by rewrite <- app_assoc, E2, app_assoc, E1, app_assoc.
Qed.
End Bytes.

(** In each direction of each ring the bytes that were read, followed by
    those in the ring, are the bytes that were in the ring before, followed by
    those whose writing was reported: nothing is lost, repeated or reordered,
    whatever the sides do at the same time on other rings or in the other
    direction. *)
Theorem sbuf_stream_bytes ndown nup force e l a cs answers a' s i :
  good_env e → link_rep ndown nup force l a →
  stream_run ndown nup force (chan e) a cs = Some (answers, a') →
  (∃ l', link_run e l cs = Done (answers, l'))
  ∧ read_in s i cs answers ++ under_way s i a' = under_way s i a ++ written_in s i cs answers.
Proof.
  intros He Hl E. split.
  - destruct (stream_run_refines ndown nup force (chan e) e He eq_refl cs l a answers a' Hl E)
      as (l' & El & _). by exists l'.
  - by eapply stream_run_bytes.
Qed.

(** ** Creation *)

Lemma length_bytes_from at_virt virt size : 0 ≤ size →
  length (bytes_from at_virt virt size) = Z.to_nat size.
Proof. intros. unfold bytes_from. by rewrite length_fmap, length_seqZ. Qed.

Lemma new_dir_rep at_virt virt k : 0 ≤ k ≤ 30 →
  dir_rep (2 ^ k) (Dir 0 0 (2 ^ k) (bytes_from at_virt virt (2 ^ k))) [].
Proof.
  intros Hk. assert (0 < 2 ^ k) by (apply Z.pow_pos_nonneg; lia).
  split_and!; [apply Z.pow_lt_mono_r; lia|done|].
  apply (rep_empty_intro _ k); [lia|done|simpl; lia|].
  simpl. rewrite length_bytes_from by lia. lia.
Qed.

Lemma Forall2_replicate_lookup {A B} (P : A → B → Prop) (l : list A) n x :
  length l = n → (∀ i y, l !! i = Some y → P y x) → Forall2 P l (replicate n x).
Proof.
  intros Hl HP. apply Forall2_same_length_lookup_2; [by rewrite length_replicate|].
  intros i y z Hy [-> _]%lookup_replicate. by eapply HP.
Qed.

(** The resources are granted. *)
Definition granted (r : resources) : Prop :=
  smem_alloc r ≠ 0 ∧ vmap_head r ≠ 0 ∧ vmap r ≠ 0 ∧ kcalloc r = true ∧ 0 ≤ pms_request r.

(** The areas of a manager's rings, as offsets from the start of its mapping. *)
Definition tx_area (s : sbuf_mgr) (r : sbuf_ring) : Z * Z :=
  (txbuf_virt r - smem_virt s, d_size (tx r)).
Definition rx_area (s : sbuf_mgr) (r : sbuf_ring) : Z * Z :=
  (rxbuf_virt r - smem_virt s, d_size (rx r)).
(** An area after the header and inside [size] bytes; two areas apart. *)
Definition inside (hsize size : Z) (a : Z * Z) : Prop := hsize ≤ a.1 ∧ a.1 + a.2 ≤ size.
Definition apart (a b : Z * Z) : Prop := a.1 + a.2 ≤ b.1 ∨ b.1 + b.2 ≤ a.1.

Section Creation.
Context (at_host at_client : Z → Z) (base dst_base : Z) (fh fc : bool) (res res' : resources).
Context (bufnum kt kr : Z) (Hb : 1 ≤ bufnum) (Hkt : 0 ≤ kt ≤ 30) (Hkr : 0 ≤ kr ≤ 30).
Context (Hres : granted res) (Hres' : granted res').

Definition hsize : Z := SIZEOF_SMEM_HEADER + SIZEOF_RING_HEADER * bufnum.
Definition total : Z := hsize + (2 ^ kt + 2 ^ kr) * bufnum.
Context (Htotal : total < 2 ^ 32).

Definition dst_addr : Z := u32 (smem_alloc res - base + dst_base).
Definition host_mgr : sbuf_mgr :=
  SbufMgr fh SBUF_STATE_IDLE (vmap res) (smem_alloc res) total 0 dst_addr bufnum
    (host_ring at_host (vmap res) hsize (2 ^ kt) (2 ^ kr) <$> seqZ 0 bufnum).
Definition shared_mem : shm :=
  Shm bufnum (host_header dst_addr hsize (2 ^ kt) (2 ^ kr) <$> seqZ 0 bufnum).
Definition client_mgr : sbuf_mgr :=
  SbufMgr fc SBUF_STATE_IDLE (vmap res') dst_addr total (smem_alloc res') 0 bufnum
    (client_ring at_client (vmap res') hsize (2 ^ kr) (2 ^ kt)
       <$> zip (seqZ 0 bufnum) (headers shared_mem)).

Lemma pow_pos : 0 < 2 ^ kt < 2 ^ 31 ∧ 0 < 2 ^ kr < 2 ^ 31.
Proof using Hkt Hkr.
  repeat split; try (apply Z.pow_pos_nonneg; lia); apply Z.pow_lt_mono_r; lia.
Qed.

Lemma total_u32 : u32 (hsize + u32 (u32 (2 ^ kt + 2 ^ kr) * bufnum)) = total.
Proof using Hb Hkt Hkr Htotal.
  pose proof pow_pos. unfold total, hsize, SIZEOF_SMEM_HEADER, SIZEOF_RING_HEADER in *.
  rewrite (u32_small (2 ^ kt + 2 ^ kr)), (u32_small (_ * bufnum)), u32_small; nia.
Qed.

(** The offset of ring [i]. *)
Lemma offset_u32 i : 0 ≤ i < bufnum →
  u32 (u32 (2 ^ kt + 2 ^ kr) * i) = (2 ^ kt + 2 ^ kr) * i
  ∧ (2 ^ kt + 2 ^ kr) * i + (2 ^ kt + 2 ^ kr) ≤ (2 ^ kt + 2 ^ kr) * bufnum.
Proof using Hb Hkt Hkr Htotal.
  intros Hi. pose proof pow_pos. unfold total, hsize, SIZEOF_SMEM_HEADER, SIZEOF_RING_HEADER in *.
  rewrite (u32_small (2 ^ kt + 2 ^ kr)), u32_small; nia.
Qed.

Lemma host_init_eq :
  sbuf_host_init at_host base dst_base fh res bufnum (2 ^ kt) (2 ^ kr)
  = (0, Some (host_mgr, shared_mem), []).
Proof using Hb Hkt Hkr Hres Htotal.
  destruct Hres as (H1 & _ & H3 & H4 & H5). unfold sbuf_host_init. fold hsize.
  rewrite (proj2 (Z.eqb_neq _ _) H1), (proj2 (Z.eqb_neq _ _) H3), H4.
  rewrite (proj2 (Z.ltb_ge _ _) H5), total_u32. done.
Qed.

Lemma client_init_eq :
  sbuf_client_init at_client dst_addr fc shared_mem res' = (0, Some client_mgr, []).
Proof using Hb Hkt Hkr Hres' Htotal.
  destruct Hres' as (H1 & H2 & H3 & H4 & H5). unfold sbuf_client_init, shared_mem. simpl.
  destruct (host_header dst_addr hsize (2 ^ kt) (2 ^ kr) <$> seqZ 0 bufnum) as [|h0 hs] eqn:E.
  { apply (f_equal length) in E. rewrite length_fmap, length_seqZ in E. simpl in E. lia. }
  assert (h0 = host_header dst_addr hsize (2 ^ kt) (2 ^ kr) 0) as ->.
  { assert (E0 : (host_header dst_addr hsize (2 ^ kt) (2 ^ kr) <$> seqZ 0 bufnum) !! 0%nat
                 = Some h0) by (by rewrite E).
    rewrite list_lookup_fmap, lookup_seqZ_lt in E0 by lia. by injection E0 as <-. }
  rewrite (proj2 (Z.eqb_neq _ _) H1), (proj2 (Z.eqb_neq _ _) H2), (proj2 (Z.eqb_neq _ _) H3), H4.
  rewrite (proj2 (Z.ltb_ge _ _) H5). cbn [rxbuf_size txbuf_size host_header negb].
  fold hsize. rewrite (Z.add_comm (2 ^ kr)), total_u32. unfold client_mgr, shared_mem.
  simpl. by rewrite E.
Qed.

Lemma host_ring_lookup i r : rings host_mgr !! i = Some r →
  0 ≤ Z.of_nat i < bufnum ∧ r = host_ring at_host (vmap res) hsize (2 ^ kt) (2 ^ kr) (Z.of_nat i).
Proof using Hb.
  simpl. intros (z & -> & Hz)%list_lookup_fmap_Some. apply lookup_seqZ in Hz as [-> Hz].
  split; [lia|f_equal; lia].
Qed.

Lemma client_ring_lookup i r : rings client_mgr !! i = Some r →
  0 ≤ Z.of_nat i < bufnum ∧ r = client_ring at_client (vmap res') hsize (2 ^ kr) (2 ^ kt)
    (Z.of_nat i, host_header dst_addr hsize (2 ^ kt) (2 ^ kr) (Z.of_nat i)).
Proof using Hb.
  simpl. intros ([z h] & -> & Hz)%list_lookup_fmap_Some.
  apply lookup_zip_with_Some in Hz as (z' & h' & [= <- <-] & Hz & Hh).
  apply list_lookup_fmap_Some in Hh as (z' & -> & Hz').
  apply lookup_seqZ in Hz as [-> Hz], Hz' as [-> _].
  split; [lia|done].
Qed.

Lemma created_rep w w' :
  sent w = [] → sent w' = [] →
  link_rep (2 ^ kt) (2 ^ kr) (λ s, if s then fc else fh)
    (Link (World (Some (set_mgr_state SBUF_STATE_READY host_mgr)) (sent w) (notified w) (held w))
       (World (Some (set_mgr_state SBUF_STATE_READY client_mgr)) (sent w') (notified w') (held w')))
    (Stream (replicate (Z.to_nat bufnum) ([], [])) [] []).
Proof using Hb Hkt Hkr.
  intros Hw Hw' []; eexists; split; try reflexivity; try done; simpl.
  - apply Forall2_replicate_lookup.
    { rewrite length_fmap, length_zip, length_fmap, length_seqZ. lia. }
    intros i r Hr. apply (client_ring_lookup i) in Hr as [_ ->].
    split; try done; by apply new_dir_rep.
  - apply Forall2_replicate_lookup; [by rewrite length_fmap, length_seqZ|].
    intros i r Hr. apply (host_ring_lookup i) in Hr as [_ ->].
    split; try done; by apply new_dir_rep.
Qed.

(** The two sides agree on the areas, which do not overlap. *)
Lemma areas_agree i r r' : rings host_mgr !! i = Some r → rings client_mgr !! i = Some r' →
  tx_area host_mgr r = rx_area client_mgr r' ∧ rx_area host_mgr r = tx_area client_mgr r'.
Proof using Hb Hkt Hkr Htotal.
  intros [Hi ->]%host_ring_lookup [_ ->]%client_ring_lookup.
  destruct (offset_u32 _ Hi) as [E _]. unfold tx_area, rx_area. simpl.
  rewrite (Z.add_comm (2 ^ kr) (2 ^ kt)), E. split; f_equal; lia.
Qed.

Lemma areas_apart i j r r' : rings host_mgr !! i = Some r → rings host_mgr !! j = Some r' →
  inside hsize total (tx_area host_mgr r) ∧ inside hsize total (rx_area host_mgr r)
  ∧ apart (tx_area host_mgr r) (rx_area host_mgr r')
  ∧ (i ≠ j → apart (tx_area host_mgr r) (tx_area host_mgr r')
           ∧ apart (rx_area host_mgr r) (rx_area host_mgr r')).
Proof using Hb Hkt Hkr Htotal.
  intros [Hi ->]%host_ring_lookup [Hj ->]%host_ring_lookup.
  destruct (offset_u32 _ Hi) as [E Hle], (offset_u32 _ Hj) as [E' Hle'].
  pose proof pow_pos. unfold inside, apart, total, tx_area, rx_area. simpl. rewrite E, E'.
  assert (Hij : Z.of_nat i = Z.of_nat j ∨ Z.of_nat i < Z.of_nat j ∨ Z.of_nat j < Z.of_nat i) by lia.
  split_and!; try nia.
Qed.
End Creation.

(** C33: The host lays out a channel in shared memory and the client takes it over
    from the header: both succeed, their managers, once ready, represent empty
    queues, each transmit area is the other side's receive area, and the areas
    of all rings and directions lie behind the header, inside the memory, and
    apart from each other. *)
Theorem sbuf_create_rep at_host at_client base dst_base fh fc res res' bufnum kt kr :
  1 ≤ bufnum → 0 ≤ kt ≤ 30 → 0 ≤ kr ≤ 30 → granted res → granted res' →
  total bufnum kt kr < 2 ^ 32 →
  ∃ s mem c,
    sbuf_host_init at_host base dst_base fh res bufnum (2 ^ kt) (2 ^ kr) = (0, Some (s, mem), [])
    ∧ sbuf_client_init at_client (dst_smem_addr s) fc mem res' = (0, Some c, [])
    ∧ link_rep (2 ^ kt) (2 ^ kr) (λ b, if b then fc else fh)
        (Link (World (Some (set_mgr_state SBUF_STATE_READY s)) [] [] 0)
              (World (Some (set_mgr_state SBUF_STATE_READY c)) [] [] 0))
        (Stream (replicate (Z.to_nat bufnum) ([], [])) [] [])
    ∧ (∀ i r r', rings s !! i = Some r → rings c !! i = Some r' →
         tx_area s r = rx_area c r' ∧ rx_area s r = tx_area c r')
    ∧ (∀ i j r r', rings s !! i = Some r → rings s !! j = Some r' →
         inside (hsize bufnum) (smem_size s) (tx_area s r)
         ∧ inside (hsize bufnum) (smem_size s) (rx_area s r)
         ∧ apart (tx_area s r) (rx_area s r')
         ∧ (i ≠ j → apart (tx_area s r) (tx_area s r') ∧ apart (rx_area s r) (rx_area s r'))).
Proof.
  intros Hb Hkt Hkr Hres Hres' Ht. exists (host_mgr at_host base dst_base fh res bufnum kt kr).
  eexists _, (client_mgr at_client base dst_base fc res res' bufnum kt kr).
  split_and!; [by apply host_init_eq|by apply client_init_eq| |by apply areas_agree|].
  - by apply (created_rep at_host at_client base dst_base fh fc res res' bufnum kt kr Hb Hkt Hkr
      (World None [] [] 0) (World None [] [] 0)).
  - by apply areas_apart.
Qed.

(** *** What is given back *)

(** What the host's side of a channel holds of what the allocations return, up to
    the first that fails. *)
Definition acquired (res : resources) : list freed :=
  if smem_alloc res =? 0 then [] else SmemFree (smem_alloc res) ::
  if vmap res =? 0 then [] else ShmemUnmap (vmap res) ::
  if kcalloc res then [KfreeRings] else [].

Lemma host_init_error at_virt sb db force res bufnum txs rxs rval fr :
  sbuf_host_init at_virt sb db force res bufnum txs rxs = (rval, None, fr) →
  rval ≠ 0 ∧ fr ≡ₚ acquired res.
Proof.
  unfold sbuf_host_init, acquired. destruct (smem_alloc res =? 0); [by intros [= <- <-]|].
  destruct (vmap res =? 0); [by intros [= <- <-]|].
  destruct (kcalloc res); simpl; [|by intros [= <- <-]].
  destruct (Z.ltb_spec (pms_request res) 0); intros [= <- <-]. split; [lia|done].
Qed.

Lemma host_init_ok at_virt sb db force res bufnum txs rxs rval s mem fr :
  sbuf_host_init at_virt sb db force res bufnum txs rxs = (rval, Some (s, mem), fr) →
  rval = 0 ∧ smem_virt s = vmap res ∧ smem_addr s = smem_alloc res
  ∧ length (rings s) = Z.to_nat bufnum
  ∧ acquired res = [SmemFree (smem_addr s); ShmemUnmap (smem_virt s); KfreeRings]
  ∧ smem_virt s ≠ 0.
Proof.
  unfold sbuf_host_init, acquired. destruct (smem_alloc res =? 0); [done|].
  destruct (Z.eqb_spec (vmap res) 0); [done|]. destruct (kcalloc res); simpl; [|done].
  destruct (pms_request res <? 0); [done|]. intros [= <- <- _ _]. simpl.
  by rewrite length_fmap, length_seqZ.
Qed.

(** On the host, creating a channel either fails, leaves the table of channels
    alone and has given back exactly what it acquired, or succeeds, and then
    [sbuf_destroy] gives back exactly what was acquired and clears the entry. *)
Theorem sbuf_create_balanced e at_virt base pcie dst_ok kzalloc thread res bufnum txs rxs w close :
  valid e = true → dst_ok = true → kzalloc = true → 1 ≤ bufnum →
  (∀ w, runs close w (λ _ w', sbufs w' = sbufs w)) →
  runs (sbuf_create e at_virt base false pcie dst_ok kzalloc thread res bufnum txs rxs) w
    (λ r w', (r.1 ≠ 0 ∧ w' = w ∧ r.2 ≡ₚ acquired res)
      ∨ (r = (0, []) ∧ runs (sbuf_destroy e false close) w' (λ fr w'',
           fr ≡ₚ acquired res ∧ sbufs w'' = None))).
Proof.
  intros Hv -> -> Hb Hclose. unfold sbuf_create. rewrite Hv. cbn [negb]. cbv zeta.
  destruct (sbuf_host_init _ _ _ _ _ _ _ _) as [[rval [[s mem]|]] fr] eqn:E; simpl.
  - apply host_init_ok in E as (-> & Hvirt & Haddr & Hlen & -> & Hne).
    destruct (Z.eqb_spec thread 0) as [->|Ht]; simpl.
    + apply runs_bind, runs_modify, runs_ret. right. split; [done|].
      unfold sbuf_destroy. rewrite Hv. apply runs_bind, runs_get. simpl.
      apply runs_bind, runs_modify. apply runs_bind. eapply runs_mono; [apply Hclose|].
      intros [] w' Hw'. apply runs_bind. eapply runs_exact; [unfold the_mgr; by rewrite Hw'|].
      apply runs_bind, runs_modify, runs_ret. split; [|done]. simpl.
      rewrite (proj2 (Z.eqb_neq _ _) Hne).
      destruct (rings s) as [|r rs]; [simpl in Hlen; lia|]. simpl.
      apply (Permutation_rev [KfreeRings; _; _]).
    + apply runs_ret. left. split_and!; [done|done|].
      apply (Permutation_rev [KfreeRings; _; _]).
  - apply host_init_error in E as [Hr Hf]. apply runs_ret. by left.
Qed.

(** A client whose request for the memory fails gives back the address the
    host sent, which is not its own, and keeps the memory it has allocated. *)
Theorem client_init_frees_wrong_memory at_virt addr force mem res h hs :
  vmap_head res ≠ 0 → headers mem = h :: hs → smem_alloc res ≠ 0 → vmap res ≠ 0 →
  kcalloc res = true → pms_request res < 0 → smem_alloc res ≠ addr →
  ∃ fr, sbuf_client_init at_virt addr force mem res = (pms_request res, None, fr)
    ∧ SmemFree addr ∈ fr ∧ ¬ SmemFree (smem_alloc res) ∈ fr ∧ ¬ SmemFree addr ∈ acquired res.
Proof.
  intros H1 Hh H2 H3 H4 H5 Hne. unfold sbuf_client_init, acquired.
  rewrite (proj2 (Z.eqb_neq _ _) H1), (proj2 (Z.eqb_neq _ _) H2), (proj2 (Z.eqb_neq _ _) H3), H4, Hh.
  rewrite (proj2 (Z.ltb_lt _ _) H5). eexists. split; [done|]. rewrite !list_elem_of_In. simpl. intuition congruence.
Qed.

(** ** A peer that restarts *)

Section Loops.
Context (s : sbuf_mgr).

Definition with_rings (rs : list sbuf_ring) snt nts h : world :=
  World (Some (on_rings (λ _, rs) s)) snt nts h.

Lemma runs_upd_ring_mid f done_ r rest snt nts h (Φ : () → world → Prop) :
  Φ () (with_rings (done_ ++ f r :: rest) snt nts h) →
  runs (upd_ring (Z.of_nat (length done_)) f) (with_rings (done_ ++ r :: rest) snt nts h) Φ.
Proof.
  intros H. apply runs_bind, runs_bind. eapply runs_exact; [reflexivity|]. simpl.
  rewrite Nat2Z.id, list_lookup_middle by done. rewrite (proj2 (Z.leb_le 0 _)) by lia.
  apply runs_ret, runs_modify. unfold with_rings, on_rings in *. simpl.
  rewrite ?Nat2Z.id, insert_app_r_alt, Nat.sub_diag by done. exact H.
Qed.

Lemma runs_upd_all f rest : ∀ done_ snt nts h (Φ : () → world → Prop),
  Φ () (with_rings (done_ ++ (f <$> rest)) snt nts h) →
  runs (for_each (seqZ (Z.of_nat (length done_)) (Z.of_nat (length rest))) (λ i, upd_ring i f))
    (with_rings (done_ ++ rest) snt nts h) Φ.
Proof.
  induction rest as [|r rest IH]; intros done_ snt nts h Φ H; [by apply runs_ret|].
  rewrite length_cons, seqZ_cons by lia. simpl. apply runs_bind, runs_upd_ring_mid.
  rewrite cons_middle, app_assoc. replace (Z.succ (Z.of_nat (length done_)))
    with (Z.of_nat (length (done_ ++ [f r]))) by (rewrite length_app; simpl; lia).
  replace (Z.pred (Z.of_nat (S (length rest)))) with (Z.of_nat (length rest)) by lia.
  apply IH. by rewrite <- app_assoc.
Qed.

(** The calls of the registered handlers, latest first. *)
Definition handler_calls (ev : Z) (rs : list sbuf_ring) : list (Z * Z) :=
  reverse (omap (λ r, pair ev <$> handler r) rs).

Lemma runs_notify_all ev rest : ∀ done_ snt nts h (Φ : () → world → Prop),
  Φ () (with_rings (done_ ++ rest) snt (handler_calls ev rest ++ nts) h) →
  runs (for_each (seqZ (Z.of_nat (length done_)) (Z.of_nat (length rest)))
          (λ i, r ← ring_at i; call_handler ev r))
    (with_rings (done_ ++ rest) snt nts h) Φ.
Proof.
  induction rest as [|r rest IH]; intros done_ snt nts h Φ H; [by apply runs_ret|].
  rewrite length_cons, seqZ_cons by lia. simpl. apply runs_bind, runs_bind.
  eapply runs_exact.
  { unfold ring_at, mbind, stm_bind. simpl. rewrite Nat2Z.id, list_lookup_middle by done.
    rewrite (proj2 (Z.leb_le 0 _)) by lia. reflexivity. }
  apply (runs_mono _ _ (λ _ w, w = with_rings (done_ ++ r :: rest) snt
    (handler_calls ev [r] ++ nts) h)).
  { unfold call_handler, handler_calls. simpl. destruct (handler r); [by apply runs_modify|].
    by apply runs_ret. }
  intros [] w' ->. rewrite cons_middle, app_assoc.
  replace (Z.succ (Z.of_nat (length done_)))
    with (Z.of_nat (length (done_ ++ [r]))) by (rewrite length_app; simpl; lia).
  replace (Z.pred (Z.of_nat (S (length rest)))) with (Z.of_nat (length rest)) by lia.
  apply IH. rewrite <- (app_assoc done_). unfold handler_calls in *. simpl in *.
  destruct (handler r); simpl in *; [|exact H].
  rewrite reverse_cons, <- (app_assoc (reverse _)) in H. exact H.
Qed.
End Loops.

(** What skipping does to a ring. *)
Definition skipped (r : sbuf_ring) : sbuf_ring :=
  on_mask (λ _, TX_MASK) (on_rx (λ d, Dir (d_wt d) (d_wt d) (d_size d) (d_bytes d)) r).

Lemma runs_skip e s rs snt nts h (Φ : () → world → Prop) :
  request1 e = 0 → ringnr s = Z.of_nat (length rs) → rs ≠ [] →
  Φ () (with_rings s (skipped <$> rs) snt nts h) →
  runs (sbuf_skip_old_data e) (with_rings s rs snt nts h) Φ.
Proof.
  intros Hreq Hn Hne H. apply runs_bind. eapply runs_exact; [reflexivity|].
  destruct rs as [|r rs]; [done|]. apply runs_bind. eapply runs_exact; [reflexivity|].
  rewrite Hreq. apply runs_bind.
  apply (runs_mono _ _ (λ v w', v = 0 ∧ w' = with_rings s (r :: rs) snt nts (held_by e h))).
  { unfold request, held_by. destruct (local e); [by apply runs_ret|].
    by apply runs_bind, runs_modify, runs_ret. }
  intros v w' [-> ->]. cbn [Z.ltb Z.compare]. apply runs_bind. cbn [ringnr on_rings].
  rewrite Hn. apply (runs_upd_all s _ (r :: rs) []). simpl app.
  unfold release, held_by. destruct (local e); [by apply runs_ret|].
  apply runs_modify. unfold with_rings in *. simpl in *.
  change (h + 1 + -1) with (h + 1 - 1). by rewrite Z.add_simpl_r.
Qed.

Lemma handler_calls_skipped ev rs : handler_calls ev (skipped <$> rs) = handler_calls ev rs.
Proof.
  unfold handler_calls. f_equal. induction rs as [|r rs IH]; [done|]. simpl.
  destruct (handler r); simpl; [f_equal|]; exact IH.
Qed.

Definition open_ack (e : env) : smsg := smsg_set (chan e) SMSG_TYPE_OPEN SMSG_OPEN_MAGIC 0.
Definition init_cmd (e : env) : smsg := smsg_set (chan e) SMSG_TYPE_CMD SMSG_CMD_SBUF_INIT 0.
Definition init_done (e : env) (s : sbuf_mgr) : smsg :=
  smsg_set (chan e) SMSG_TYPE_DONE SMSG_DONE_SBUF_INIT (dst_smem_addr s).

Lemma runs_reopen e s rs snt nts h :
  request1 e = 0 → ringnr s = Z.of_nat (length rs) → rs ≠ [] → state s = SBUF_STATE_READY →
  runs (sbuf_loop e false [(0, open_ack e); (0, init_cmd e)]) (with_rings s rs snt nts h)
    (λ v w', v = 0 ∧ w' = with_rings s (skipped <$> rs) (init_done e s :: open_ack e :: snt)
       (handler_calls SBUF_NOTIFY_READY (skipped <$> rs) ++ nts) h).
Proof.
  intros Hreq Hn Hne Hs. apply runs_bind. unfold sbuf_handle_msg.
  apply runs_bind. eapply runs_exact; [reflexivity|]. simpl type.
  cbn [state on_rings]. rewrite Hs. apply runs_bind, runs_bind.
  apply runs_skip; [done|done|done|]. apply runs_modify, runs_modify.
  apply runs_bind, runs_bind. eapply runs_exact; [reflexivity|]. simpl type.
  apply runs_bind, runs_modify. apply runs_bind, runs_modify.
  change (World _ _ _ _) with (with_rings (set_mgr_state SBUF_STATE_READY s) (skipped <$> rs)
    (init_done e s :: open_ack e :: snt) nts h).
  cbn [ringnr on_rings set_mgr_state]. rewrite Hn, <- (length_fmap skipped rs).
  apply (runs_notify_all _ _ (skipped <$> rs) []). apply runs_ret. split; [done|].
  unfold with_rings, on_rings, set_mgr_state. simpl. by rewrite <- Hs.
Qed.

(** When the peer restarts, it opens the channel again and asks for the
    memory.  The host acknowledges the opening, drops what the old peer had
    sent, keeps what it has written itself, tells the peer the address of the
    memory, is ready again, and calls the handlers. *)
Theorem sbuf_reopen_spec e s n1 n2 w qs :
  request1 e = 0 → sbufs w = Some s → state s = SBUF_STATE_READY →
  ringnr s = Z.of_nat (length (rings s)) → rings s ≠ [] →
  Forall2 (λ r q, dir_rep n1 (tx r) q.1 ∧ dir_rep n2 (rx r) q.2) (rings s) qs →
  runs (sbuf_loop e false [(0, open_ack e); (0, init_cmd e)]) w (λ v w', v = 0 ∧ ∃ s',
    sbufs w' = Some s' ∧ state s' = SBUF_STATE_READY
    ∧ sent w' = init_done e s :: open_ack e :: sent w
    ∧ notified w' = handler_calls SBUF_NOTIFY_READY (rings s) ++ notified w
    ∧ held w' = held w
    ∧ Forall2 (λ r q, dir_rep n1 (tx r) q.1 ∧ dir_rep n2 (rx r) [] ∧ poll_mask r = TX_MASK)
        (rings s') qs).
Proof.
  intros Hreq Hw Hs Hn Hne Hq.
  assert (w = with_rings s (rings s) (sent w) (notified w) (held w)) as E
    by (destruct w, s; simpl in *; by subst).
  rewrite E at 1. eapply runs_mono; [by apply runs_reopen|]. intros v w' [-> ->]. split; [done|].
  eexists. split; [reflexivity|]. split_and!; try done.
  - simpl. by rewrite handler_calls_skipped.
  - simpl. apply Forall2_fmap_l. eapply Forall2_impl; [done|]. intros r q [Ht Hr].
    split_and!; try done. destruct Hr as (H1 & H2 & H3). split_and!; try done. simpl.
    destruct H3 as [(k & Hk & ->) Hrd Hwt Hcap Hlen _].
    apply (rep_empty_intro _ k); [done|done| |done]. rewrite Hwt. apply u32_range.
Qed.

(** ** A ring number from the peer *)

(** The number of the ring in a message of the peer is only checked by a
    warning: the thread follows it outside the array of rings. *)
Theorem peer_ring_out_of_bounds e client w s m :
  sbufs w = Some s → type m = SMSG_TYPE_EVENT →
  flag m = SMSG_EVENT_SBUF_RDPTR ∨ flag m = SMSG_EVENT_SBUF_WRPTR →
  Z.of_nat (length (rings s)) ≤ value m < 2 ^ 31 →
  sbuf_handle_msg e client m w = OutOfBounds.
Proof.
  intros Hw Ht Hf Hv.
  assert (H : ∀ f, upd_ring (value m) f w = OutOfBounds).
  { intros f. unfold upd_ring, ring_at, the_mgr, mbind, stm_bind. rewrite Hw, outcome_bind_Done.
    by rewrite lookup_ge_None_2 by lia. }
  unfold sbuf_handle_msg, mbind, stm_bind. unfold the_mgr at 1. rewrite Hw, outcome_bind_Done.
  rewrite Ht, s32_small by lia. cbn -[upd_ring]. by destruct Hf as [-> | ->]; cbn -[upd_ring]; rewrite H.
Qed.

(** ** A wake-up that is lost *)

(** The peer takes [k] bytes of ring [i] and tells so; the thread handles the
    message. *)
Definition peer_reads (i : nat) (k : Z) : sb () :=
  upd_ring (Z.of_nat i) (on_tx (λ d, Dir (u32 (d_rd d + k)) (d_wt d) (d_size d) (d_bytes d)));;
  upd_ring (Z.of_nat i) (on_mask (λ v, v |' TX_MASK)).
Definition run_unit (m : sb ()) (w : world) : world :=
  match m w with Done (_, w') => w' | _ => w end.

(** The ring of a writer that waits after that. *)
Definition waiting_ring (k : Z) (r : sbuf_ring) : sbuf_ring :=
  on_mask (set_mask TX_MASK true) (on_mask (λ v, v |' TX_MASK)
    (on_tx (λ d, Dir (u32 (d_rd d + k)) (d_wt d) (d_size d) (d_bytes d)) (set_txlock true r))).

Lemma mask_cleared v : set_mask TX_MASK true v &' TX_MASK = 0.
Proof.
  unfold set_mask. rewrite <- Z.land_assoc. replace (u32 (Z.lnot TX_MASK) &' TX_MASK) with 0
    by reflexivity. apply Z.land_0_r.
Qed.

Lemma peer_reads_at i s k r snt nts h : (i < length (rings s))%nat →
  run_unit (peer_reads i k) (at_ring i s r snt nts h)
  = at_ring i s (on_mask (λ v, v |' TX_MASK)
      (on_tx (λ d, Dir (u32 (d_rd d + k)) (d_wt d) (d_size d) (d_bytes d)) r)) snt nts h.
Proof.
  intros Hi. unfold run_unit.
  assert (runs (peer_reads i k) (at_ring i s r snt nts h) (λ _ w', w' = at_ring i s
    (on_mask (λ v, v |' TX_MASK)
      (on_tx (λ d, Dir (u32 (d_rd d + k)) (d_wt d) (d_size d) (d_bytes d)) r)) snt nts h))
    as (a & w' & -> & ->); [|done].
  apply runs_bind, runs_upd_ring; [done|]. by apply runs_upd_ring.
Qed.

Lemma wait_forever cond (w : world) m :
  cond w = false → wait_event_interruptible cond (replicate m (Wake w)) w = OutOfFuel.
Proof. intros Hc. induction m as [|m IH]; simpl; rewrite Hc; done. Qed.

Lemma not_ready e i s r snt nts h k : (i < length (rings s))%nat →
  local e = false → state s = SBUF_STATE_READY →
  ring_ready e true (Z.of_nat i) (at_ring i s (waiting_ring k r) snt nts h)
  || is_idle (at_ring i s (waiting_ring k r) snt nts h) = false.
Proof.
  intros Hi Hl Hs. unfold ring_ready, is_idle. simpl.
  rewrite Nat2Z.id, list_lookup_insert_eq, Hs by done. unfold sbuf_has_data. rewrite Hl.
  unfold waiting_ring. cbn [poll_mask on_mask]. by rewrite mask_cleared.
Qed.

Lemma peer_made_room n r q k :
  dir_rep n (tx r) q → Z.of_nat (length q) = n → 0 < k ≤ n → has_room (tx (waiting_ring k r)) = true.
Proof.
  intros Hd Hq Hk. pose proof (dir_bounds _ _ _ Hd) as [Hn _].
  assert (Hd' : dir_rep n (tx (waiting_ring k r)) (drop (Z.to_nat k) q)).
  { destruct Hd as (H1 & H2 & H3). split_and!; [done|done|]. simpl.
    rewrite <- (take_drop (Z.to_nat k) q) in H3. apply rep_pop_many in H3 as [_ H3].
    rewrite length_take in H3. replace (Z.of_nat (Z.to_nat k `min` length q)) with k in H3 by lia.
    done. }
  rewrite (dir_has_room _ _ _ Hd'), length_drop. apply Z.ltb_lt. lia.
Qed.

(** Over remote memory a writer can miss the wake-up it waits for.  It finds
    the ring full; before it updates the poll mask, the peer reads and tells so,
    and the thread sets the mask; then the writer clears the mask and waits
    without a time limit, although the ring has room, until the peer sends
    another message. *)
Theorem sbuf_write_lost_wakeup e i s w r n q k data m :
  valid e = true → local e = false → request1 e = 0 →
  sbufs w = Some s → rings s !! i = Some r → state s = SBUF_STATE_READY →
  txlock r = false → dir_rep n (tx r) q → Z.of_nat (length q) = n → 0 < k ≤ n →
  lock_wait e = [] → meanwhile e = run_unit (peer_reads i k) →
  let waiting := at_ring i s (waiting_ring k r) (sent w) (notified w) (held w) in
  history e = replicate m (Wake waiting) →
  sbuf_write e (Z.of_nat i) data (-1) w = OutOfFuel ∧ has_room (tx (waiting_ring k r)) = true.
Proof.
  intros Hv Hl Hreq Hw Hr Hs Hlk Hd Hq Hk Hlw Hm waiting Hh. pose proof (lookup_lt_Some _ _ _ Hr) as Hi.
  split; [|by eapply peer_made_room]. rewrite (at_ring_self i s r w) by done.
  change (World _ _ _ _) with (at_ring i s r (sent w) (notified w) (held w)).
  set (snt := sent w) in *. set (nts := notified w) in *. set (h := held w) in *.
  unfold sbuf_write. rewrite Hv. apply hangs_bind, runs_get. cbn [negb sbufs at_ring].
  change (state (on_rings _ s)) with (state s). rewrite Hs. cbv zeta.
  apply hangs_bind. eapply runs_exact.
  { apply runs_done. unfold take_lock. cbn [Z.eqb]. rewrite Hlw. apply runs_bind, runs_bind.
    eapply runs_exact; [apply wait_now|].
    { unfold lock_free. simpl. rewrite Nat2Z.id, list_lookup_insert_eq by done. by rewrite Hlk. }
    simpl. apply runs_upd_ring; [done|]. by apply runs_ret. }
  cbn [negb]. rewrite Hreq. apply hangs_bind, runs_request. cbn [Z.ltb Z.compare].
  apply hangs_bind, runs_ring_at; [done|].
  change (tx (set_txlock true r)) with (tx r). rewrite (dir_has_room _ _ _ Hd), Hq, Z.ltb_irrefl.
  apply hangs_bind, runs_modify. rewrite Hm, peer_reads_at by done.
  apply hangs_bind, runs_upd_ring; [done|]. apply hangs_bind, runs_release.
  apply hangs_left. unfold wait_ready. cbn [negb Z.eqb]. apply hangs_left.
  change (-1 <? 0) with true. cbv iota. rewrite Hh. apply wait_forever. by apply not_ready.
Qed.

(** ** A concrete channel

    Two rings of 4 bytes from the host and 8 to it. *)

Definition some_resources : resources := Resources 0x10000 0x80000 0x90000 true 0.
Definition local_env : env := Env true 4 true 0 0 [] [] true true id.
Definition zeros (_ : Z) : Z := 0.

Definition created : link :=
  match sbuf_host_init zeros 0x10000 0x50000 false some_resources 2 (2 ^ 2) (2 ^ 3) with
  | (_, Some (s, mem), _) =>
    match sbuf_client_init zeros (dst_smem_addr s) false mem some_resources with
    | (_, Some c, _) =>
      Link (World (Some (set_mgr_state SBUF_STATE_READY s)) [] [] 0)
           (World (Some (set_mgr_state SBUF_STATE_READY c)) [] [] 0)
    | _ => Link (World None [] [] 0) (World None [] [] 0)
    end
  | _ => Link (World None [] [] 0) (World None [] [] 0)
  end.
Definition no_bytes : stream := Stream [([], []); ([], [])] [] [].

Lemma local_env_good : good_env local_env.
Proof. by split. Qed.

Lemma some_granted : granted some_resources.
Proof. done. Qed.

Lemma created_ok : link_rep (2 ^ 2) (2 ^ 3) (λ _, false) created no_bytes.
Proof.
  pose proof (created_rep zeros zeros 0x10000 0x50000 false false some_resources some_resources
    2 2 3 ltac:(lia) ltac:(lia) ltac:(lia) (World None [] [] 0) (World None [] [] 0)
    eq_refl eq_refl) as H.
  intros s. destruct (H s) as (m & []). exists m. by destruct s; split.
Qed.

(** The host writes five bytes, of which four fit; the client reads two of them,
    answers on the other ring, and the host writes again across the end. *)
Definition some_calls : list (bool * call) :=
  [(false, Write 1 [1; 2; 3; 4; 5]); (false, Write 1 [5]); (true, Read 1 2);
   (true, Write 0 [7; 8]); (false, Write 1 [5]); (true, Read 1 9); (false, Read 0 2)].
Definition some_answers : list answer :=
  [AWrite 4; AWrite (- EBUSY); ARead 2 [1; 2]; AWrite 2; AWrite 1; ARead 3 [3; 4; 5];
   ARead 2 [7; 8]].
Definition after_calls : stream :=
  Stream [([], []); ([], [])] [event 4 SMSG_EVENT_SBUF_WRPTR 1]
    [event 4 SMSG_EVENT_SBUF_WRPTR 0; event 4 SMSG_EVENT_SBUF_RDPTR 1].

Lemma some_run :
  stream_run (2 ^ 2) (2 ^ 3) (λ _, false) 4 no_bytes some_calls = Some (some_answers, after_calls).
Proof. reflexivity. Qed.

Example some_run_of_code :
  match link_run local_env created some_calls with
  | Done (answers, l) => answers = some_answers ∧ sent (host_end l) = host_sent after_calls
      ∧ sent (client_end l) = client_sent after_calls
  | _ => False
  end.
Proof. vm_compute. done. Qed.

Lemma sbuf_link_refines_witness : ∃ l',
  link_run local_env created some_calls = Done (some_answers, l')
  ∧ link_rep (2 ^ 2) (2 ^ 3) (λ _, false) l' after_calls.
Proof.
  exact (sbuf_link_refines _ _ _ local_env created no_bytes some_calls some_answers after_calls
    local_env_good created_ok some_run).
Defined.

Lemma sbuf_stream_bytes_witness :
  (∃ l', link_run local_env created some_calls = Done (some_answers, l'))
  ∧ read_in false 1 some_calls some_answers ++ under_way false 1 after_calls
    = under_way false 1 no_bytes ++ written_in false 1 some_calls some_answers.
Proof.
  exact (sbuf_stream_bytes _ _ _ local_env created no_bytes some_calls some_answers after_calls
    false 1%nat local_env_good created_ok some_run).
Defined.

Lemma sbuf_create_rep_witness : ∃ s mem c,
  sbuf_host_init zeros 0x10000 0x50000 false some_resources 2 (2 ^ 2) (2 ^ 3) = (0, Some (s, mem), [])
  ∧ sbuf_client_init zeros (dst_smem_addr s) true mem some_resources = (0, Some c, []).
Proof.
  destruct (sbuf_create_rep zeros zeros 0x10000 0x50000 false true some_resources some_resources
    2 2 3 ltac:(lia) ltac:(lia) ltac:(lia) some_granted some_granted eq_refl)
    as (s & mem & c & Hs & Hc & _). by exists s, mem, c.
Defined.

(** The host's end of the channel. *)
Definition created_host : sbuf_mgr :=
  match sbufs (host_end created) with Some s => s | None => SbufMgr false 0 0 0 0 0 0 0 [] end.
Definition created_ring : sbuf_ring :=
  match rings created_host with r :: _ => r | [] => new_ring (Dir 0 0 0 []) (Dir 0 0 0 []) 0 0 end.

Lemma created_host_rep :
  Forall2 (λ r q, dir_rep (2 ^ 2) (tx r) q.1 ∧ dir_rep (2 ^ 3) (rx r) q.2)
    (rings created_host) [([], []); ([], [])].
Proof.
  destruct (created_ok false) as (m & [Hm _ _ Hr _]).
  assert (m = created_host) as -> by (by injection Hm as <-).
  eapply Forall2_impl; [exact Hr|]. intros r q []. done.
Qed.

Lemma sbuf_reopen_spec_witness :
  runs (sbuf_loop local_env false [(0, open_ack local_env); (0, init_cmd local_env)])
    (host_end created) (λ v _, v = 0).
Proof.
  eapply runs_mono; [exact (sbuf_reopen_spec local_env created_host (2 ^ 2) (2 ^ 3)
    (host_end created) [([], []); ([], [])] eq_refl eq_refl eq_refl eq_refl
    ltac:(done) created_host_rep)|]. by intros v w' [-> _].
Defined.

Lemma peer_ring_out_of_bounds_witness :
  sbuf_handle_msg local_env false (Smsg 4 SMSG_TYPE_EVENT SMSG_EVENT_SBUF_RDPTR 2)
    (host_end created) = OutOfBounds.
Proof.
  apply (peer_ring_out_of_bounds local_env false (host_end created) created_host); [done|done| |].
  - by left.
  - done.
Defined.

(** The host's end over remote memory, after it has filled ring 0. *)
Definition remote_env (meanwhile : world → world) (h : list (wake world)) : env :=
  Env true 4 false 0 0 [] h true true meanwhile.
Definition full_ring : sbuf_ring := on_tx (λ _, Dir 0 4 4 [1; 2; 3; 4]) created_ring.
Definition full_host : sbuf_mgr := on_rings <[0%nat := full_ring]> created_host.
Definition full_world : world := World (Some full_host) [] [] 0.

Lemma full_rep : dir_rep 4 (tx full_ring) [1; 2; 3; 4].
Proof.
  split_and!; [lia|done|].
  change (ring_rep 4 0 (u32 (0 + Z.of_nat (length [1; 2; 3; 4]))) [1; 2; 3; 4] ([] ++ [1; 2; 3; 4])).
  apply (rep_push_many _ _ _ [0; 0; 0; 0]); [|done|simpl; lia|..].
  - apply (rep_empty_intro _ 2); [lia|done|lia|done].
  - intros i v Hi. do 4 (destruct i as [|i]; [exact Hi|]). done.
  - intros j Hj Hne. exfalso. simpl in Hj. apply (Hne (Z.to_nat j)); [simpl; lia|].
    rewrite Z.mod_small by lia. lia.
Qed.

Lemma sbuf_write_lost_wakeup_witness :
  let waiting := at_ring 0 full_host (waiting_ring 2 full_ring) [] [] 0 in
  sbuf_write (remote_env (run_unit (peer_reads 0 2)) (replicate 10 (Wake waiting))) 0 [5] (-1)
    full_world = OutOfFuel.
Proof.
  intros waiting.
  refine (proj1 (sbuf_write_lost_wakeup
    (remote_env (run_unit (peer_reads 0 2)) (replicate 10 (Wake waiting))) 0 full_host full_world
    full_ring 4 [1; 2; 3; 4] 2 [5] 10 _ _ _ _ _ _ _ full_rep _ _ _ _ _)); try reflexivity.
  done.
Defined.

(** A thread that is stopped without trouble. *)
Lemma sbuf_create_balanced_witness :
  runs (sbuf_create local_env zeros (0x10000, 0x50000) false true true true 0 some_resources 2 4 8)
    (World None [] [] 0)
    (λ r w', (r.1 ≠ 0 ∧ w' = World None [] [] 0 ∧ r.2 ≡ₚ acquired some_resources)
      ∨ (r = (0, []) ∧ runs (sbuf_destroy local_env false (mret ())) w' (λ fr w'',
           fr ≡ₚ acquired some_resources ∧ sbufs w'' = None))).
Proof.
  apply (sbuf_create_balanced local_env zeros (0x10000, 0x50000) true true true 0 some_resources
    2 4 8 (World None [] [] 0) (mret ())); try done. intros w. by apply runs_ret.
Defined.

Lemma client_init_frees_wrong_memory_witness :
  ∃ fr, sbuf_client_init zeros 0x50000 false (Shm 1 [RingHeader 0x50024 4 0 0 0x50028 8 0 0])
          (Resources 0x10000 0x80000 0x90000 true (-5)) = (-5, None, fr)
    ∧ SmemFree 0x50000 ∈ fr.
Proof.
  destruct (client_init_frees_wrong_memory zeros 0x50000 false
    (Shm 1 [RingHeader 0x50024 4 0 0 0x50028 8 0 0]) (Resources 0x10000 0x80000 0x90000 true (-5))
    (RingHeader 0x50024 4 0 0 0x50028 8 0 0) [] ltac:(done) eq_refl ltac:(done) ltac:(done)
    eq_refl eq_refl ltac:(done)) as (fr & E & H & _). by exists fr.
Defined.
