(* ===== verification/Power.v ===== *)
(** * The power manager of the modem

    Model of [src/drivers/quectel-sprd-pcie/src/power_manager/power_manager.c]
    with the data of [include/sprd_mpm.h]: users request the modem's resources
    and wake locks through power sources ([pms]); the manager of a destination
    ([mpm]) counts the sources in use, requests the resource when the count
    leaves 0, and gives it back when the count has been 0 for a while.

    Objects live in heaps: a pointer is an index, [None] an object that was
    freed.  The state is that of one destination.  The code under one lock is
    one step; [pms_up], [pms_down], [pms_expired] and the [sprd_mpm_...]
    functions are those steps, and so are [pms_stay_awake] and [pms_relax], which
    no lock protects.  Left out: names, debugfs and the print-out of awake
    sources. *)

From S2P Require Import Prelude Kernel.

#[local] Open Scope Z_scope.
#[local] Open Scope c_scope.

(** ** Time *)

(** The width of a [long] and the kernel's conversion of milliseconds. *)
Class Clock := { BITS_PER_LONG : Z; msecs_to_jiffies : Z → Z }.

(** ** Data *)

Definition SPRD_MPM_IDLE : Z := 0.
Definition SPRD_MPM_BUSY : Z := 1.

(** [struct sprd_pms]; [data] points at the manager, [wake_timer] is the time for
    which the timer is armed. *)
Record sprd_pms := SprdPms {
  multitask : bool;
  data : nat;
  awake : bool; pms_awake_cnt : Z;
  active_cnt : Z;
  pms_expires : Z; wake_timer : option Z;
}.

(** [struct sprd_mpm_data]: the wake-up source, the sources of [pms_list], the
    timer, the counters, which of the resource operations are set, and which of
    the two work items are queued. *)
Record sprd_mpm_data := SprdMpmData {
  ws : bool;
  pms_list : list nat;
  timer : option Z; expires : Z; later_idle : Z;
  up_cnt : Z; awake_cnt : Z; wakelock_cnt : Z;
  mpm_state : Z;
  wait_op : bool; request_op : bool; release_op : bool;
  request_res_work : bool; release_res_work : bool;
}.

(** The entry of [g_sprd_mpm], the objects, the time, and the calls of the
    resource operations ([true]: request), latest first. *)
Record world := World {
  g_sprd_mpm : option nat;
  mpms : list (option sprd_mpm_data);
  pmss : list (option sprd_pms);
  jiffies : Z;
  calls : list bool;
}.

Abbreviation pm := (stm world).

(** ** Access to the state *)

Definition set_mpms (f : list (option sprd_mpm_data) → list (option sprd_mpm_data)) : pm () :=
  modify (λ w, World (g_sprd_mpm w) (f (mpms w)) (pmss w) (jiffies w) (calls w)).
Definition set_pmss (f : list (option sprd_pms) → list (option sprd_pms)) : pm () :=
  modify (λ w, World (g_sprd_mpm w) (mpms w) (f (pmss w)) (jiffies w) (calls w)).
Definition set_g (g : option nat) : pm () :=
  modify (λ w, World g (mpms w) (pmss w) (jiffies w) (calls w)).
Definition call_op (request : bool) : pm () :=
  modify (λ w, World (g_sprd_mpm w) (mpms w) (pmss w) (jiffies w) (request :: calls w)).

(** [*m] and [*p]. *)
Definition mpm_at (m : nat) : pm sprd_mpm_data := λ w,
  match mpms w !! m with Some (Some v) => Done (v, w) | _ => OutOfBounds end.
Definition pms_at (p : nat) : pm sprd_pms := λ w,
  match pmss w !! p with Some (Some v) => Done (v, w) | _ => OutOfBounds end.
Definition upd_mpm (m : nat) (f : sprd_mpm_data → sprd_mpm_data) : pm () :=
  v ← mpm_at m; set_mpms <[m := Some (f v)]>.
Definition upd_pms (p : nat) (f : sprd_pms → sprd_pms) : pm () :=
  v ← pms_at p; set_pmss <[p := Some (f v)]>.

Definition set_awake (a : bool) (p : sprd_pms) : sprd_pms :=
  SprdPms (multitask p) (data p) a (pms_awake_cnt p) (active_cnt p) (pms_expires p) (wake_timer p).
Definition inc_awake_cnt (p : sprd_pms) : sprd_pms :=
  SprdPms (multitask p) (data p) (awake p) (u32 (pms_awake_cnt p + 1)) (active_cnt p)
    (pms_expires p) (wake_timer p).
Definition set_active_cnt (v : Z) (p : sprd_pms) : sprd_pms :=
  SprdPms (multitask p) (data p) (awake p) (pms_awake_cnt p) v (pms_expires p) (wake_timer p).
Definition set_wake_timer (e : Z) (t : option Z) (p : sprd_pms) : sprd_pms :=
  SprdPms (multitask p) (data p) (awake p) (pms_awake_cnt p) (active_cnt p) e t.

Definition set_wakelock (c : Z) (a : Z) (s : bool) (m : sprd_mpm_data) : sprd_mpm_data :=
  SprdMpmData s (pms_list m) (timer m) (expires m) (later_idle m) (up_cnt m) a c (mpm_state m)
    (wait_op m) (request_op m) (release_op m) (request_res_work m) (release_res_work m).
Definition on_list (f : list nat → list nat) (m : sprd_mpm_data) : sprd_mpm_data :=
  SprdMpmData (ws m) (f (pms_list m)) (timer m) (expires m) (later_idle m) (up_cnt m) (awake_cnt m)
    (wakelock_cnt m) (mpm_state m) (wait_op m) (request_op m) (release_op m)
    (request_res_work m) (release_res_work m).
Definition set_timer (e : Z) (t : option Z) (m : sprd_mpm_data) : sprd_mpm_data :=
  SprdMpmData (ws m) (pms_list m) t e (later_idle m) (up_cnt m) (awake_cnt m)
    (wakelock_cnt m) (mpm_state m) (wait_op m) (request_op m) (release_op m)
    (request_res_work m) (release_res_work m).
Definition set_up_cnt (c : Z) (m : sprd_mpm_data) : sprd_mpm_data :=
  SprdMpmData (ws m) (pms_list m) (timer m) (expires m) (later_idle m) c (awake_cnt m)
    (wakelock_cnt m) (mpm_state m) (wait_op m) (request_op m) (release_op m)
    (request_res_work m) (release_res_work m).
Definition set_mpm_state (s : Z) (m : sprd_mpm_data) : sprd_mpm_data :=
  SprdMpmData (ws m) (pms_list m) (timer m) (expires m) (later_idle m) (up_cnt m) (awake_cnt m)
    (wakelock_cnt m) s (wait_op m) (request_op m) (release_op m)
    (request_res_work m) (release_res_work m).
Definition set_ops (wait request release : bool) (m : sprd_mpm_data) : sprd_mpm_data :=
  SprdMpmData (ws m) (pms_list m) (timer m) (expires m) (later_idle m) (up_cnt m) (awake_cnt m)
    (wakelock_cnt m) (mpm_state m) wait request release (request_res_work m) (release_res_work m).
Definition set_works (request release : bool) (m : sprd_mpm_data) : sprd_mpm_data :=
  SprdMpmData (ws m) (pms_list m) (timer m) (expires m) (later_idle m) (up_cnt m) (awake_cnt m)
    (wakelock_cnt m) (mpm_state m) (wait_op m) (request_op m) (release_op m) request release.

(** [mod_timer] and [del_timer] arm and disarm; [schedule_work] queues an item
    that is not queued yet. *)

Section WithClock.
Context `{Clock}.

(** [jiffies + msecs_to_jiffies(msec)], with 0 replaced by 1; and
    [time_after_eq]. *)
Definition deadline (now msec : Z) : Z :=
  let e := (now + msecs_to_jiffies msec) mod 2 ^ BITS_PER_LONG in if e =? 0 then 1 else e.
Definition time_after_eq (a b : Z) : bool :=
  (a - b) mod 2 ^ BITS_PER_LONG <? 2 ^ (BITS_PER_LONG - 1).

(** ** The manager *)

Definition sprd_mpm_request_resource (m : nat) : pm () :=
  v ← mpm_at m;
  if request_op v then upd_mpm m (set_works true (release_res_work v)) else mret ().
Definition sprd_mpm_release_resource (m : nat) : pm () :=
  v ← mpm_at m;
  if release_op v then upd_mpm m (set_works (request_res_work v) true) else mret ().

(** [ret]: the result of the [wait_resource] operation. *)
Definition sprd_mpm_wait_resource (m : nat) (ret : Z) : pm Z :=
  v ← mpm_at m; mret (if wait_op v then ret else 0).

Definition sprd_mpm_active (m : nat) : pm () :=
  upd_mpm m (set_mpm_state SPRD_MPM_BUSY);; sprd_mpm_request_resource m.

Definition sprd_mpm_deactive (m : nat) : pm () :=
  upd_mpm m (set_mpm_state SPRD_MPM_IDLE);;
  upd_mpm m (λ v, set_timer 0 (timer v) v);;
  sprd_mpm_release_resource m.

Definition sprd_mpm_start_deactive (m : nat) : pm () :=
  w ← get_state;
  v ← mpm_at m;
  let e := deadline (jiffies w) (later_idle v) in
  upd_mpm m (set_timer e (Some e)).

(** The work items, run by the kernel after it has dequeued them. *)
Definition sprd_mpm_request_res_work_fn (m : nat) : pm () :=
  v ← mpm_at m; if request_op v then call_op true else fault.
Definition sprd_mpm_release_res_work_fn (m : nat) : pm () :=
  v ← mpm_at m; if release_op v then call_op false else fault.

Definition sprd_mpm_deactive_timer_fn (m : nat) : pm () :=
  v ← mpm_at m; if negb (expires v =? 0) then sprd_mpm_deactive m else mret ().

Definition sprd_pms_cancel_timer (p : nat) : pm () :=
  v ← pms_at p;
  if negb (pms_expires v =? 0) then upd_pms p (set_wake_timer 0 None) else mret ().

Definition sprd_mpm_cancel_timer (m : nat) : pm () :=
  v ← mpm_at m; if negb (expires v =? 0) then upd_mpm m (set_timer 0 None) else mret ().

Definition sprd_mpm_up (m : nat) : pm () :=
  sprd_mpm_cancel_timer m;;
  upd_mpm m (λ v, set_up_cnt (u32 (up_cnt v + 1)) v);;
  v ← mpm_at m;
  if (up_cnt v =? 1) && (mpm_state v =? SPRD_MPM_IDLE) then sprd_mpm_active m else mret ().

Definition sprd_mpm_down (m : nat) (immediately : bool) : pm () :=
  upd_mpm m (λ v, set_up_cnt (u32 (up_cnt v - 1)) v);;
  v ← mpm_at m;
  if up_cnt v =? 0 then
    if negb (later_idle v =? 0) && negb immediately then sprd_mpm_start_deactive m
    else sprd_mpm_deactive m
  else mret ().

Definition sprd_mpm_stay_awake (m : nat) : pm () :=
  upd_mpm m (λ v, set_wakelock (u32 (wakelock_cnt v + 1)) (awake_cnt v) (ws v) v);;
  v ← mpm_at m;
  if wakelock_cnt v =? 1
  then upd_mpm m (λ v, set_wakelock (wakelock_cnt v) (u32 (awake_cnt v + 1)) true v) else mret ().

Definition sprd_mpm_relax (m : nat) : pm () :=
  upd_mpm m (λ v, set_wakelock (u32 (wakelock_cnt v - 1)) (awake_cnt v) (ws v) v);;
  v ← mpm_at m;
  if wakelock_cnt v =? 0
  then upd_mpm m (λ v, set_wakelock (wakelock_cnt v) (awake_cnt v) false v) else mret ().

(** ** Sources *)

(** The part under [active_lock]: the manager and whether the count has left, or
    reached, 0. *)
Definition pms_up (p : nat) : pm (nat * bool) :=
  upd_pms p (λ v, set_active_cnt (u32 (active_cnt v + 1)) v);;
  v ← pms_at p; mret (data v, active_cnt v =? 1).
Definition pms_down (p : nat) : pm (nat * bool) :=
  v ← pms_at p;
  if 0 <? active_cnt v then
    upd_pms p (λ v, set_active_cnt (u32 (active_cnt v - 1)) v);;
    v ← pms_at p; mret (data v, active_cnt v =? 0)
  else mret (data v, false).

Definition sprd_pms_do_up_single (p : nat) : pm () :=
  '(m, active) ← pms_up p; if active : bool then sprd_mpm_up m else mret ().
Definition sprd_pms_do_up_multi (p : nat) : pm () :=
  '(m, active) ← pms_up p; if active : bool then sprd_mpm_up m else mret ().
Definition sprd_pms_do_up (p : nat) : pm () :=
  v ← pms_at p;
  if multitask v then sprd_pms_do_up_multi p else sprd_pms_do_up_single p.

Definition sprd_pms_do_down_single (p : nat) (immediately : bool) : pm () :=
  '(m, deactive) ← pms_down p; if deactive : bool then sprd_mpm_down m immediately else mret ().
Definition sprd_pms_do_down_multi (p : nat) (immediately : bool) : pm () :=
  '(m, deactive) ← pms_down p; if deactive : bool then sprd_mpm_down m immediately else mret ().
Definition sprd_pms_do_down (p : nat) (immediately : bool) : pm () :=
  v ← pms_at p;
  if multitask v then sprd_pms_do_down_multi p immediately
  else sprd_pms_do_down_single p immediately.

(** The part before [mpm_lock]: the manager and whether the source's state has
    changed.  No lock protects [awake]. *)
Definition pms_stay_awake (p : nat) : pm (nat * bool) :=
  upd_pms p inc_awake_cnt;;
  v ← pms_at p;
  if negb (awake v) then upd_pms p (set_awake true);; mret (data v, true)
  else mret (data v, false).
Definition pms_relax (p : nat) : pm (nat * bool) :=
  v ← pms_at p;
  if awake v then upd_pms p (set_awake false);; mret (data v, true)
  else mret (data v, false).

Definition sprd_pms_stay_awake (p : nat) : pm () :=
  '(m, changed) ← pms_stay_awake p; if changed : bool then sprd_mpm_stay_awake m else mret ().
Definition sprd_pms_relax (p : nat) : pm () :=
  '(m, changed) ← pms_relax p; if changed : bool then sprd_mpm_relax m else mret ().

(** The part of the timer's handler under [expires_lock]: whether the time of the
    source has come. *)
Definition pms_expired (p : nat) : pm bool :=
  w ← get_state;
  v ← pms_at p;
  if negb (pms_expires v =? 0) && time_after_eq (jiffies w) (pms_expires v)
  then upd_pms p (λ v, set_wake_timer 0 (wake_timer v) v);; mret true
  else mret false.

Definition sprd_pms_relax_wakelock_timer (p : nat) : pm () :=
  relax ← pms_expired p; if relax : bool then sprd_pms_relax p else mret ().

(** ** Creation and destruction *)

Definition new_mpm (idle : Z) : sprd_mpm_data :=
  SprdMpmData false [] None 0 idle 0 0 0 SPRD_MPM_IDLE false false false false false.
Definition new_pms (multi : bool) (m : nat) : sprd_pms := SprdPms multi m false 0 0 0 None.

(** [dst_ok]: [dst < SIPC_ID_NR]; [memory]: [kzalloc] succeeds. *)
Definition sprd_mpm_create (dst_ok memory : bool) (idle : Z) : pm Z :=
  if negb dst_ok then mret (- EINVAL) else
  if negb memory then mret (- ENOMEM) else
  w ← get_state;
  set_mpms (λ l, l ++ [Some (new_mpm idle)]);;
  set_g (Some (length (mpms w)));;
  mret 0.

Definition sprd_mpm_init_resource_ops (dst_ok wait request release : bool) : pm Z :=
  if negb dst_ok then mret (- EINVAL) else
  w ← get_state;
  match g_sprd_mpm w with
  | None => mret (- ENODEV)
  | Some m => upd_mpm m (set_ops wait request release);; mret 0
  end.

Definition list_del (p m : nat) : pm () :=
  v ← mpm_at m;
  if bool_decide (p ∈ pms_list v) then upd_mpm m (on_list (filter (λ q, q ≠ p))) else fault.

Definition sprd_mpm_destroy (dst_ok : bool) : pm Z :=
  if negb dst_ok then mret (- EINVAL) else
  w ← get_state;
  match g_sprd_mpm w with
  | None => mret (- ENODEV)
  | Some m =>
    sprd_mpm_cancel_timer m;;
    upd_mpm m (set_works false false);;
    v ← mpm_at m;
    for_each (pms_list v) (λ p, sprd_pms_cancel_timer p;; list_del p m);;
    set_mpms <[m := None]>;;
    set_g None;;
    mret 0
  end.

Definition sprd_pms_create (dst_ok memory : bool) (multi : bool) : pm (option nat) :=
  if negb dst_ok then mret None else
  w ← get_state;
  match g_sprd_mpm w with
  | None => mret None
  | Some m =>
    if negb memory then mret None else
    let p := length (pmss w) in
    set_pmss (λ l, l ++ [Some (new_pms multi m)]);;
    upd_mpm m (on_list (cons p));;
    mret (Some p)
  end.

Definition sprd_pms_destroy (pms : option nat) : pm () :=
  match pms with
  | None => mret ()
  | Some p =>
    sprd_pms_cancel_timer p;;
    v ← pms_at p;
    list_del p (data v);;
    set_pmss <[p := None]>
  end.

(** ** The interface of the users *)

Definition sprd_pms_request_resource (pms : option nat) (wait : Z) : pm Z :=
  match pms with
  | None => mret (- EINVAL)
  | Some p =>
    sprd_pms_do_up p;;
    v ← pms_at p;
    ret ← sprd_mpm_wait_resource (data v) wait;
    (if negb (ret =? 0) then sprd_pms_do_down p false else mret ());;
    mret ret
  end.

Definition sprd_pms_release_resource (pms : option nat) : pm () :=
  match pms with None => mret () | Some p => sprd_pms_do_down p false end.

Definition sprd_pms_request_wakelock (pms : option nat) : pm () :=
  match pms with
  | None => mret ()
  | Some p => sprd_pms_cancel_timer p;; sprd_pms_stay_awake p
  end.

Definition sprd_pms_release_wakelock (pms : option nat) : pm () :=
  match pms with
  | None => mret ()
  | Some p => sprd_pms_cancel_timer p;; sprd_pms_relax p
  end.

Definition sprd_pms_release_wakelock_later (pms : option nat) (msec : Z) : pm () :=
  match pms with
  | None => mret ()
  | Some p =>
    w ← get_state;
    let e := deadline (jiffies w) msec in
    upd_pms p (set_wake_timer e (Some e))
  end.

Definition sprd_pms_request_wakelock_period (pms : option nat) (msec : Z) : pm () :=
  sprd_pms_request_wakelock pms;; sprd_pms_release_wakelock_later pms msec.

Definition sprd_pms_power_up (pms : option nat) : pm () :=
  match pms with None => mret () | Some p => sprd_pms_do_up p end.
Definition sprd_pms_power_down (pms : option nat) (immediately : bool) : pm () :=
  match pms with None => mret () | Some p => sprd_pms_do_down p immediately end.
End WithClock.
