(* ===== verification/PowerInv.v ===== *)
(** * The invariant of the power manager

    Tasks use the sources of one manager of [Power] in any interleaving of the
    critical sections, while timers and work items run.  [run_event] is the step
    of this system, [inv] its invariant, which every event preserves. *)

From S2P Require Import Prelude Kernel Power.

#[local] Open Scope Z_scope.
#[local] Open Scope c_scope.

(** ** Sums *)

Fixpoint total (n : nat) (f : nat → Z) : Z :=
  match n with O => 0 | S n => total n f + f n end.

Lemma total_ext n f g : (∀ i, (i < n)%nat → f i = g i) → total n f = total n g.
Proof. induction n as [|n IH]; intros E; simpl; [done|]. rewrite IH, E by auto with lia. done. Qed.

Lemma total_change n f g i : (i < n)%nat → (∀ j, j ≠ i → g j = f j) →
  total n g = total n f - f i + g i.
Proof.
  intros Hi E. induction n as [|n IH]; [lia|]. simpl.
  destruct (decide (i = n)) as [->|Hne].
  - rewrite (total_ext n g f); [lia|]. intros j Hj. apply E. lia.
  - rewrite IH, (E n) by lia. lia.
Qed.

Lemma total_bounds n f : (∀ i, (i < n)%nat → 0 ≤ f i ≤ 1) → 0 ≤ total n f ≤ Z.of_nat n.
Proof.
  induction n as [|n IH]; intros Hf; simpl; [lia|].
  pose proof (IH ltac:(auto with lia)). pose proof (Hf n ltac:(lia)). lia.
Qed.

Lemma total_ge n f i : (∀ j, (j < n)%nat → 0 ≤ f j) → (i < n)%nat → f i ≤ total n f.
Proof.
  intros Hf Hi. induction n as [|n IH]; simpl; [lia|].
  assert (Hn : 0 ≤ total n f).
  { clear IH Hi. induction n as [|n IH]; simpl; [lia|].
    pose proof (Hf n ltac:(lia)). pose proof (IH ltac:(auto with lia)). lia. }
  pose proof (Hf n ltac:(lia)). destruct (decide (i = n)) as [->|]; [lia|].
  pose proof (IH ltac:(auto with lia) ltac:(lia)). lia.
Qed.

Lemma total_pos n f : 0 < total n f → ∃ i, (i < n)%nat ∧ 0 < f i.
Proof.
  induction n as [|n IH]; simpl; [lia|]. intros Hs. destruct (decide (0 < f n)).
  - exists n. auto with lia.
  - destruct IH as (i & ? & ?); [lia|]. exists i. auto with lia.
Qed.

Lemma total_0 n f : (∀ i, (i < n)%nat → f i = 0) → total n f = 0.
Proof. intros E. rewrite (total_ext n f (λ _, 0)) by done. clear E. induction n; simpl; lia. Qed.

(** The sum of [f] over the elements of a list. *)
Fixpoint tally {A} (f : A → Z) (l : list A) : Z :=
  match l with [] => 0 | x :: l => f x + tally f l end.

Lemma tally_insert {A} (f : A → Z) l i x y :
  l !! i = Some x → tally f (<[i := y]> l) = tally f l - f x + f y.
Proof.
  revert i. induction l as [|z l IH]; intros [|i] E; simpl in *; [done|done|by injection E as ->; lia|].
  rewrite (IH _ E). lia.
Qed.

Lemma tally_ge {A} (f : A → Z) l i x : (∀ y, 0 ≤ f y) → l !! i = Some x → f x ≤ tally f l.
Proof.
  intros Hf. assert (Hn : ∀ l, 0 ≤ tally f l).
  { intros l'. induction l' as [|y l' IH]; simpl; [lia|]. pose proof (Hf y). lia. }
  revert i. induction l as [|z l IH]; intros [|i] E; simpl in *; [done|done|..].
  - injection E as ->. pose proof (Hn l). lia.
  - pose proof (IH _ E). pose proof (Hf z). lia.
Qed.

Lemma tally_bounds {A} (f : A → Z) l : (∀ y, 0 ≤ f y ≤ 1) → 0 ≤ tally f l ≤ Z.of_nat (length l).
Proof. intros Hf. induction l as [|y l IH]; simpl; [lia|]. pose proof (Hf y). lia. Qed.

Lemma tally_le {A} (f g : A → Z) l : (∀ y, f y ≤ g y) → tally f l ≤ tally g l.
Proof. intros Hf. induction l as [|y l IH]; simpl; [lia|]. pose proof (Hf y). lia. Qed.

Lemma tally_0 {A} (f : A → Z) l : (∀ y, 0 ≤ f y) → tally f l = 0 → ∀ i x, l !! i = Some x → f x = 0.
Proof. intros Hf E i x Hx. pose proof (tally_ge f l i x Hf Hx). pose proof (Hf x). lia. Qed.

(** ** The operations on one manager and one source *)

Definition put_mpm (m : nat) (v : sprd_mpm_data) (w : world) : world :=
  World (g_sprd_mpm w) (<[m := Some v]> (mpms w)) (pmss w) (jiffies w) (calls w).
Definition put_pms (p : nat) (v : sprd_pms) (w : world) : world :=
  World (g_sprd_mpm w) (mpms w) (<[p := Some v]> (pmss w)) (jiffies w) (calls w).

Section WithClock.
Context `{Clock}.

Definition after_cancel (v : sprd_mpm_data) : sprd_mpm_data :=
  if expires v =? 0 then v else set_timer 0 None v.
Definition after_active (v : sprd_mpm_data) : sprd_mpm_data :=
  let v := set_mpm_state SPRD_MPM_BUSY v in
  if request_op v then set_works true (release_res_work v) v else v.
Definition after_deactive (v : sprd_mpm_data) : sprd_mpm_data :=
  let v := set_mpm_state SPRD_MPM_IDLE v in
  let v := set_timer 0 (timer v) v in
  if release_op v then set_works (request_res_work v) true v else v.
Definition after_up (v : sprd_mpm_data) : sprd_mpm_data :=
  let v := after_cancel v in
  let v := set_up_cnt (u32 (up_cnt v + 1)) v in
  if (up_cnt v =? 1) && (mpm_state v =? SPRD_MPM_IDLE) then after_active v else v.
Definition after_down (now : Z) (immediately : bool) (v : sprd_mpm_data) : sprd_mpm_data :=
  let v := set_up_cnt (u32 (up_cnt v - 1)) v in
  if up_cnt v =? 0 then
    if negb (later_idle v =? 0) && negb immediately
    then set_timer (deadline now (later_idle v)) (Some (deadline now (later_idle v))) v
    else after_deactive v
  else v.
Definition after_handler (v : sprd_mpm_data) : sprd_mpm_data :=
  if expires v =? 0 then v else after_deactive v.
Definition after_stay_awake (v : sprd_mpm_data) : sprd_mpm_data :=
  let v := set_wakelock (u32 (wakelock_cnt v + 1)) (awake_cnt v) (ws v) v in
  if wakelock_cnt v =? 1 then set_wakelock (wakelock_cnt v) (u32 (awake_cnt v + 1)) true v else v.
Definition after_relax (v : sprd_mpm_data) : sprd_mpm_data :=
  let v := set_wakelock (u32 (wakelock_cnt v - 1)) (awake_cnt v) (ws v) v in
  if wakelock_cnt v =? 0 then set_wakelock (wakelock_cnt v) (awake_cnt v) false v else v.

Section OneManager.
Context (m : nat) (w : world) (Hm : (m < length (mpms w))%nat).

Lemma runs_mpm_at v (Φ : sprd_mpm_data → world → Prop) :
  Φ v (put_mpm m v w) → runs (mpm_at m) (put_mpm m v w) Φ.
Proof using Hm.
  intros HΦ. exists v, (put_mpm m v w). split; [|done]. unfold mpm_at. simpl.
  by rewrite list_lookup_insert_eq.
Qed.

Lemma runs_upd_mpm f v (Φ : () → world → Prop) :
  Φ () (put_mpm m (f v) w) → runs (upd_mpm m f) (put_mpm m v w) Φ.
Proof using Hm.
  intros HΦ. apply runs_bind, runs_mpm_at, runs_modify. unfold put_mpm in *. simpl.
  by rewrite list_insert_insert_eq.
Qed.

Lemma runs_cancel v (Φ : () → world → Prop) :
  Φ () (put_mpm m (after_cancel v) w) → runs (sprd_mpm_cancel_timer m) (put_mpm m v w) Φ.
Proof using Hm.
  intros HΦ. apply runs_bind, runs_mpm_at. unfold after_cancel in HΦ.
  destruct (expires v =? 0); [by apply runs_ret|by apply runs_upd_mpm].
Qed.

Lemma runs_active v (Φ : () → world → Prop) :
  Φ () (put_mpm m (after_active v) w) → runs (sprd_mpm_active m) (put_mpm m v w) Φ.
Proof using Hm.
  intros HΦ. apply runs_bind, runs_upd_mpm, runs_bind, runs_mpm_at. unfold after_active in HΦ.
  cbv zeta in HΦ. destruct (request_op _); [by apply runs_upd_mpm|by apply runs_ret].
Qed.

Lemma runs_deactive v (Φ : () → world → Prop) :
  Φ () (put_mpm m (after_deactive v) w) → runs (sprd_mpm_deactive m) (put_mpm m v w) Φ.
Proof using Hm.
  intros HΦ. apply runs_bind, runs_upd_mpm, runs_bind, runs_upd_mpm, runs_bind, runs_mpm_at.
  unfold after_deactive in HΦ. cbv zeta in HΦ.
  destruct (release_op _); [by apply runs_upd_mpm|by apply runs_ret].
Qed.

Lemma runs_mpm_up v (Φ : () → world → Prop) :
  Φ () (put_mpm m (after_up v) w) → runs (sprd_mpm_up m) (put_mpm m v w) Φ.
Proof using Hm.
  intros HΦ. apply runs_bind, runs_cancel, runs_bind, runs_upd_mpm, runs_bind, runs_mpm_at.
  unfold after_up in HΦ. cbv zeta in HΦ.
  destruct (_ && _); [by apply runs_active|by apply runs_ret].
Qed.

Lemma runs_mpm_down v imm (Φ : () → world → Prop) :
  Φ () (put_mpm m (after_down (jiffies w) imm v) w) →
  runs (sprd_mpm_down m imm) (put_mpm m v w) Φ.
Proof using Hm.
  intros HΦ. apply runs_bind, runs_upd_mpm, runs_bind, runs_mpm_at.
  unfold after_down in HΦ. cbv zeta in HΦ. destruct (_ =? 0); [|by apply runs_ret].
  destruct (_ && _); [|by apply runs_deactive].
  apply runs_bind, runs_get, runs_bind, runs_mpm_at. by apply runs_upd_mpm.
Qed.

Lemma runs_handler v (Φ : () → world → Prop) :
  Φ () (put_mpm m (after_handler v) w) → runs (sprd_mpm_deactive_timer_fn m) (put_mpm m v w) Φ.
Proof using Hm.
  intros HΦ. apply runs_bind, runs_mpm_at. unfold after_handler in HΦ.
  destruct (expires v =? 0); [by apply runs_ret|by apply runs_deactive].
Qed.

Lemma runs_mpm_stay_awake v (Φ : () → world → Prop) :
  Φ () (put_mpm m (after_stay_awake v) w) → runs (sprd_mpm_stay_awake m) (put_mpm m v w) Φ.
Proof using Hm.
  intros HΦ. apply runs_bind, runs_upd_mpm, runs_bind, runs_mpm_at.
  unfold after_stay_awake in HΦ. cbv zeta in HΦ.
  destruct (_ =? 1); [by apply runs_upd_mpm|by apply runs_ret].
Qed.

Lemma runs_mpm_relax v (Φ : () → world → Prop) :
  Φ () (put_mpm m (after_relax v) w) → runs (sprd_mpm_relax m) (put_mpm m v w) Φ.
Proof using Hm.
  intros HΦ. apply runs_bind, runs_upd_mpm, runs_bind, runs_mpm_at.
  unfold after_relax in HΦ. cbv zeta in HΦ.
  destruct (_ =? 0); [by apply runs_upd_mpm|by apply runs_ret].
Qed.
End OneManager.

Section OneSource.
Context (p : nat) (w : world) (Hp : (p < length (pmss w))%nat).

Lemma runs_pms_at v (Φ : sprd_pms → world → Prop) :
  Φ v (put_pms p v w) → runs (pms_at p) (put_pms p v w) Φ.
Proof using Hp.
  intros HΦ. exists v, (put_pms p v w). split; [|done]. unfold pms_at. simpl.
  by rewrite list_lookup_insert_eq.
Qed.

Lemma runs_upd_pms f v (Φ : () → world → Prop) :
  Φ () (put_pms p (f v) w) → runs (upd_pms p f) (put_pms p v w) Φ.
Proof using Hp.
  intros HΦ. apply runs_bind, runs_pms_at, runs_modify. unfold put_pms in *. simpl.
  by rewrite list_insert_insert_eq.
Qed.

Lemma runs_pms_up v (Φ : nat * bool → world → Prop) :
  let c := u32 (active_cnt v + 1) in
  Φ (data v, c =? 1) (put_pms p (set_active_cnt c v) w) → runs (pms_up p) (put_pms p v w) Φ.
Proof using Hp. intros c HΦ. by apply runs_bind, runs_upd_pms, runs_bind, runs_pms_at, runs_ret. Qed.

Lemma runs_pms_down v (Φ : nat * bool → world → Prop) :
  0 < active_cnt v →
  let c := u32 (active_cnt v - 1) in
  Φ (data v, c =? 0) (put_pms p (set_active_cnt c v) w) → runs (pms_down p) (put_pms p v w) Φ.
Proof using Hp.
  intros Hc c HΦ. apply runs_bind, runs_pms_at. rewrite (proj2 (Z.ltb_lt _ _)) by done.
  by apply runs_bind, runs_upd_pms, runs_bind, runs_pms_at, runs_ret.
Qed.

Definition pms_cancelled (v : sprd_pms) : sprd_pms :=
  if pms_expires v =? 0 then v else set_wake_timer 0 None v.

Lemma runs_pms_cancel v (Φ : () → world → Prop) :
  Φ () (put_pms p (pms_cancelled v) w) → runs (sprd_pms_cancel_timer p) (put_pms p v w) Φ.
Proof using Hp.
  intros HΦ. apply runs_bind, runs_pms_at. unfold pms_cancelled in HΦ.
  destruct (pms_expires v =? 0); [by apply runs_ret|by apply runs_upd_pms].
Qed.
End OneSource.

(** ** Tasks, timers and work items *)

(** What a task is doing with a source: nothing; it has left [pms_up] and goes on
    to [sprd_mpm_up] if it was the first; it uses the source; it has left
    [pms_down] and goes on to [sprd_mpm_down] if it was the last; it has
    cancelled the source's timer and is about to take the wake lock, or to
    release it (the handler of that timer as well); it has set [awake] and goes
    on to [sprd_mpm_stay_awake], or has cleared it and goes on to
    [sprd_mpm_relax]. *)
Inductive task :=
| Free
| Raising (p m : nat) (active : bool)
| Using (p : nat)
| Lowering (p m : nat) (deactive immediately : bool)
| Requesting (p : nat)
| Releasing (p : nat)
| Waking (p m : nat)
| Relaxing (p m : nat).

(** [fired]: how many expiries of the manager's timer have their handler still to
    run. *)
Record config := Config { wd : world; tasks : list task; fired : nat }.

Definition on_world {A} (prog : pm A) : stm config A := λ c,
  '(a, w) ← prog (wd c); Done (a, Config w (tasks c) (fired c)).
Definition set_task (i : nat) (t : task) : stm config () :=
  modify (λ c, Config (wd c) (<[i := t]> (tasks c)) (fired c)).
Definition set_fired (f : nat → nat) : stm config () :=
  modify (λ c, Config (wd c) (tasks c) (f (fired c))).
Definition skip : stm config () := mret ().

Definition uses (p : nat) (t : task) : Z :=
  match t with Raising q _ _ | Using q => if decide (q = p) then 1 else 0 | _ => 0 end.
Definition raising (p : nat) (t : task) : Z :=
  match t with Raising q _ true => if decide (q = p) then 1 else 0 | _ => 0 end.
Definition lowering (t : task) : Z := match t with Lowering _ _ true _ => 1 | _ => 0 end.

(** How far the manager's count of wake locks is ahead of the sources. *)
Definition ahead (t : task) : Z :=
  match t with Waking _ _ => -1 | Relaxing _ _ => 1 | _ => 0 end.

(** Whether a task is between the two parts of an up or down of source [p], and
    whether it has to do with [p] at all. *)
Definition moving (p : nat) (t : task) : bool :=
  match t with Raising q _ _ | Lowering q _ _ _ => bool_decide (q = p) | _ => false end.
Definition refers (p : nat) (t : task) : bool :=
  match t with
  | Free => false
  | Raising q _ _ | Using q | Lowering q _ _ _ | Requesting q | Releasing q
  | Waking q _ | Relaxing q _ => bool_decide (q = p)
  end.
Definition nobody (f : task → bool) (ts : list task) : bool := forallb (λ t, negb (f t)) ts.

Definition live (p : nat) (w : world) : option sprd_pms :=
  match pmss w !! p with Some o => o | None => None end.

Inductive event :=
| Begin_up (i p : nat)
| Begin_down (i : nat) (immediately : bool)
| Wakelock (i p : nat)
| Relax (i p : nat)
| Relax_later (p : nat) (msec : Z)
| Wake_timer (i p : nat)
| Continue (i : nat)
| Tick
| Expire
| Handler
| Request_work
| Release_work
| Destroy (p : nat).

(** An event of the system; one that cannot happen changes nothing.  Users follow
    the rules of [sprd_mpm.h]: a task gives back only what it has; the operations
    of a source that is not [multitask], whose counter no lock protects, begin
    only when no task is in the middle of another one; a source is destroyed
    only when nobody has to do with it and it is not awake.  The test and the
    change of [awake], which no lock protects either, are one step:
    [overlapping_relaxes] of [PowerProps] is about what this leaves out. *)
Definition run_event (m : nat) (ev : event) : stm config () :=
  c ← get_state;
  let may_move p u := multitask u || nobody (moving p) (tasks c) in
  match ev with
  | Begin_up i p =>
    match tasks c !! i, live p (wd c) with
    | Some Free, Some u =>
      if may_move p u then '(m, a) ← on_world (pms_up p); set_task i (Raising p m a) else skip
    | _, _ => skip
    end
  | Begin_down i imm =>
    match tasks c !! i with
    | Some (Using p) =>
      match live p (wd c) with
      | Some u =>
        if may_move p u then '(m, d) ← on_world (pms_down p); set_task i (Lowering p m d imm)
        else skip
      | None => skip
      end
    | _ => skip
    end
  | Wakelock i p =>
    match tasks c !! i, live p (wd c) with
    | Some Free, Some _ => on_world (sprd_pms_cancel_timer p);; set_task i (Requesting p)
    | _, _ => skip
    end
  | Relax i p =>
    match tasks c !! i, live p (wd c) with
    | Some Free, Some _ => on_world (sprd_pms_cancel_timer p);; set_task i (Releasing p)
    | _, _ => skip
    end
  | Relax_later p msec =>
    match live p (wd c) with
    | Some _ => on_world (sprd_pms_release_wakelock_later (Some p) msec)
    | None => skip
    end
  | Wake_timer i p =>
    match tasks c !! i, live p (wd c) with
    | Some Free, Some _ =>
      relax ← on_world (pms_expired p); if relax : bool then set_task i (Releasing p) else skip
    | _, _ => skip
    end
  | Continue i =>
    match tasks c !! i with
    | Some (Raising p m a) =>
      on_world (if a : bool then sprd_mpm_up m else mret ());; set_task i (Using p)
    | Some (Lowering _ m d imm) =>
      on_world (if d : bool then sprd_mpm_down m imm else mret ());; set_task i Free
    | Some (Requesting p) =>
      '(m, changed) ← on_world (pms_stay_awake p);
      set_task i (if changed : bool then Waking p m else Free)
    | Some (Releasing p) =>
      '(m, changed) ← on_world (pms_relax p);
      set_task i (if changed : bool then Relaxing p m else Free)
    | Some (Waking _ m) => on_world (sprd_mpm_stay_awake m);; set_task i Free
    | Some (Relaxing _ m) => on_world (sprd_mpm_relax m);; set_task i Free
    | _ => skip
    end
  | Tick => on_world (modify (λ w, World (g_sprd_mpm w) (mpms w) (pmss w)
                                     ((jiffies w + 1) mod 2 ^ BITS_PER_LONG) (calls w)))
  | Expire =>
    v ← on_world (mpm_at m);
    match timer v with
    | Some t => if time_after_eq (jiffies (wd c)) t
                then on_world (upd_mpm m (set_timer (expires v) None));; set_fired S
                else skip
    | None => skip
    end
  | Handler =>
    match fired c with
    | S n => on_world (sprd_mpm_deactive_timer_fn m);; set_fired (λ _, n)
    | O => skip
    end
  | Request_work =>
    v ← on_world (mpm_at m);
    if request_res_work v && request_op v
    then on_world (upd_mpm m (λ v, set_works false (release_res_work v) v);;
                   sprd_mpm_request_res_work_fn m) else skip
  | Release_work =>
    v ← on_world (mpm_at m);
    if release_res_work v && release_op v
    then on_world (upd_mpm m (λ v, set_works (request_res_work v) false v);;
                   sprd_mpm_release_res_work_fn m) else skip
  | Destroy p =>
    match live p (wd c) with
    | Some v => if nobody (refers p) (tasks c) && negb (awake v)
                then on_world (sprd_pms_destroy (Some p)) else skip
    | None => skip
    end
  end.

Definition run_events (m : nat) (evs : list event) : stm config () := for_each evs (run_event m).

(** ** The invariant *)

(** Whether a source counts for the manager: it is in use and its first user is
    through with [sprd_mpm_up]. *)
Definition announced (ts : list task) (p : nat) : Z :=
  (if 0 <? tally (uses p) ts then 1 else 0) - tally (raising p) ts.
Definition wake (u : sprd_pms) : Z := if awake u then 1 else 0.
Definition wakes (l : list (option sprd_pms)) (p : nat) : Z :=
  match l !! p with Some (Some v) => wake v | _ => 0 end.

(** Busy while the count is not 0; else idle, or busy with the timer running or
    its handler about to run. *)
Definition mpm_ok (fired : nat) (v : sprd_mpm_data) : Prop :=
  (0 < up_cnt v → mpm_state v = SPRD_MPM_BUSY ∧ expires v = 0)
  ∧ (up_cnt v = 0 → mpm_state v = SPRD_MPM_IDLE ∧ expires v = 0
       ∨ mpm_state v = SPRD_MPM_BUSY ∧ expires v ≠ 0 ∧ (timer v = Some (expires v) ∨ 0 < fired)%nat).

(** The manager has counted [W] wake locks; a relax that overtakes its stay-awake
    takes the count below 0. *)
Definition wake_ok (W : Z) (v : sprd_mpm_data) : Prop :=
  wakelock_cnt v = u32 W ∧ ws v = (0 <? W).

Definition task_ok (m : nat) (w : world) (t : task) : Prop :=
  match t with
  | Free => True
  | Raising p m' _ => m' = m ∧ ∃ v, live p w = Some v
  | Using p | Requesting p | Releasing p => ∃ v, live p w = Some v
  | Lowering _ m' _ _ | Waking _ m' | Relaxing _ m' => m' = m
  end.

Definition wake_total (kw : Z) (c : config) : Z :=
  kw + total (length (pmss (wd c))) (wakes (pmss (wd c))) + tally ahead (tasks c).

(** [k], [kw]: how many uses and wake locks of sources that were destroyed the
    manager still counts. *)
Record inv (m : nat) (k kw : Z) (c : config) : Prop := {
  inv_mpm : ∃ v, mpms (wd c) !! m = Some (Some v) ∧ mpm_ok (fired c) v
    ∧ up_cnt v = k + total (length (pmss (wd c))) (announced (tasks c)) + tally lowering (tasks c)
    ∧ wake_ok (wake_total kw c) v
    ∧ (∀ p u, live p (wd c) = Some u → p ∈ pms_list v);
  inv_pms : ∀ p u, live p (wd c) = Some u →
    data u = m ∧ active_cnt u = tally (uses p) (tasks c);
  inv_tasks : ∀ i t, tasks c !! i = Some t → task_ok m (wd c) t;
  inv_raising : ∀ p, tally (raising p) (tasks c) ≤ 1;
  inv_size : 0 ≤ k ∧ 0 ≤ kw
    ∧ k + kw + Z.of_nat (length (pmss (wd c)) + length (tasks c)) < 2 ^ 31;
}.

(** ** Every event preserves the invariant *)

Lemma runs_on_world {A} (prog : pm A) c (Φ : A → config → Prop) :
  runs prog (wd c) (λ a w, Φ a (Config w (tasks c) (fired c))) → runs (on_world prog) c Φ.
Proof using.
  intros (a & w & E & HΦ). eexists _, _. split; [|exact HΦ]. unfold on_world. by rewrite E.
Qed.

Lemma live_Some p u w : live p w = Some u ↔ pmss w !! p = Some (Some u).
Proof using. unfold live. destruct (pmss w !! p) as [[]|]; naive_solver. Qed.

Lemma live_length p u w : live p w = Some u → (p < length (pmss w))%nat.
Proof using. intros E%live_Some. by eapply lookup_lt_Some. Qed.

Lemma put_mpm_self m v w : mpms w !! m = Some (Some v) → put_mpm m v w = w.
Proof using. intros E. destruct w. unfold put_mpm. simpl in *. by rewrite list_insert_id. Qed.

Lemma put_pms_self p u w : live p w = Some u → put_pms p u w = w.
Proof using. intros E%live_Some. destruct w. unfold put_pms. simpl in *. by rewrite list_insert_id. Qed.

Lemma live_put p q u w : (p < length (pmss w))%nat →
  live q (put_pms p u w) = if decide (q = p) then Some u else live q w.
Proof using.
  intros Hp. unfold live. simpl. case_decide as E; [subst; by rewrite list_lookup_insert_eq|].
  by rewrite list_lookup_insert_ne.
Qed.

Lemma wakes_put p q u l : (p < length l)%nat →
  wakes (<[p := Some u]> l) q = if decide (q = p) then wake u else wakes l q.
Proof using.
  intros Hp. unfold wakes. case_decide as E; [subst; by rewrite list_lookup_insert_eq|].
  by rewrite list_lookup_insert_ne.
Qed.

Lemma wakes_live p u w : live p w = Some u → wakes (pmss w) p = wake u.
Proof using. intros E%live_Some. unfold wakes. by rewrite E. Qed.

Lemma uses_range p t : 0 ≤ uses p t ≤ 1.
Proof using. destruct t; simpl; try case_decide; lia. Qed.
Lemma raising_range p t : 0 ≤ raising p t ≤ uses p t.
Proof using. destruct t as [|? ? []| | | | | |]; simpl; try case_decide; lia. Qed.
Lemma lowering_range t : 0 ≤ lowering t ≤ 1.
Proof using. destruct t as [| | |? ? []| | | |]; simpl; lia. Qed.
Lemma ahead_range t : -1 ≤ ahead t ≤ 1.
Proof using. destruct t; simpl; lia. Qed.
Lemma wake_range u : 0 ≤ wake u ≤ 1.
Proof using. unfold wake. destruct (awake u); lia. Qed.
Lemma wakes_range l p : 0 ≤ wakes l p ≤ 1.
Proof using.
  unfold wakes. destruct (l !! p) as [[u|]|]; [apply wake_range|lia|lia].
Qed.

Section Counts.
Context (ts : list task).

Lemma users_range p : 0 ≤ tally (uses p) ts ≤ Z.of_nat (length ts).
Proof using. apply tally_bounds, uses_range. Qed.
Lemma raisers_range p : 0 ≤ tally (raising p) ts ≤ tally (uses p) ts.
Proof using.
  split; [|apply tally_le; intros t; apply raising_range].
  apply (tally_bounds (raising p) ts). intros t. pose proof (raising_range p t).
  pose proof (uses_range p t). lia.
Qed.
Lemma lowerers_range : 0 ≤ tally lowering ts ≤ Z.of_nat (length ts).
Proof using. apply tally_bounds, lowering_range. Qed.
Lemma ahead_bounds : - Z.of_nat (length ts) ≤ tally ahead ts ≤ Z.of_nat (length ts).
Proof using.
  induction ts as [|t ts' IH]; simpl; [lia|]. pose proof (ahead_range t). lia.
Qed.

Lemma announced_range p : tally (raising p) ts ≤ 1 → 0 ≤ announced ts p ≤ 1.
Proof using.
  intros Hr. pose proof (raisers_range p). pose proof (users_range p). unfold announced.
  destruct (Z.ltb_spec 0 (tally (uses p) ts)); lia.
Qed.

(** The counts after task [i] has changed. *)
Context (i : nat) (t t' : task) (Hi : ts !! i = Some t).

Lemma users_insert p : tally (uses p) (<[i := t']> ts) = tally (uses p) ts - uses p t + uses p t'.
Proof using Hi. by apply tally_insert. Qed.
Lemma raisers_insert p :
  tally (raising p) (<[i := t']> ts) = tally (raising p) ts - raising p t + raising p t'.
Proof using Hi. by apply tally_insert. Qed.
Lemma lowerers_insert : tally lowering (<[i := t']> ts) = tally lowering ts - lowering t + lowering t'.
Proof using Hi. by apply tally_insert. Qed.
Lemma ahead_insert : tally ahead (<[i := t']> ts) = tally ahead ts - ahead t + ahead t'.
Proof using Hi. by apply tally_insert. Qed.

Lemma other_users p : tally (raising p) ts - raising p t ≤ tally (uses p) ts - uses p t.
Proof using Hi.
  rewrite <- (Z.add_0_r (_ - uses p t)), <- (Z.add_0_r (_ - raising p t)).
  change 0 with (uses p Free) at 2. change 0 with (raising p Free) at 1.
  rewrite <- (tally_insert _ _ _ _ Free Hi), <- (tally_insert (uses p) _ _ _ Free Hi).
  apply tally_le. intros y. apply raising_range.
Qed.
End Counts.

(** The manager's fields that only its counts of wake locks and sources use. *)
Definition same_rest (v v' : sprd_mpm_data) : Prop :=
  wakelock_cnt v' = wakelock_cnt v ∧ ws v' = ws v ∧ pms_list v' = pms_list v.

Ltac ok_cases := split_and!; intros; split_and?; try done; try lia.

Lemma after_up_spec f v : mpm_ok f v → 0 ≤ up_cnt v < 2 ^ 32 - 1 →
  mpm_ok f (after_up v) ∧ up_cnt (after_up v) = up_cnt v + 1 ∧ same_rest v (after_up v).
Proof using.
  intros [H1 H2] Hc. unfold mpm_ok, same_rest, after_up, after_cancel, after_active. cbv zeta.
  assert (Hu : up_cnt (if expires v =? 0 then v else set_timer 0 None v) = up_cnt v)
    by (by destruct (_ =? _)). simpl. rewrite Hu, u32_small by lia.
  assert (He : ∀ x, expires (set_up_cnt x (if expires v =? 0 then v else set_timer 0 None v)) = 0).
  { intros x. destruct (Z.eqb_spec (expires v) 0); simpl; done. }
  destruct (Z.eqb_spec (up_cnt v + 1) 1) as [E|E]; simpl.
  - destruct H2 as [[Hs Hx]|(Hs & Hx & _)]; [lia| |].
    + rewrite Hx. simpl. rewrite Hs. simpl. destruct (request_op v); simpl; ok_cases.
    + rewrite (proj2 (Z.eqb_neq _ _) Hx). simpl. rewrite Hs. simpl. ok_cases.
  - destruct H1 as [Hs Hx]; [lia|]. rewrite Hx. simpl. ok_cases.
Qed.

Lemma after_down_spec f now imm v : mpm_ok f v → 1 ≤ up_cnt v < 2 ^ 32 →
  mpm_ok f (after_down now imm v) ∧ up_cnt (after_down now imm v) = up_cnt v - 1
  ∧ same_rest v (after_down now imm v).
Proof using.
  intros [H1 H2] Hc. destruct H1 as [Hs Hx]; [lia|].
  unfold mpm_ok, same_rest, after_down, after_deactive. cbv zeta. simpl.
  rewrite u32_small by lia. destruct (Z.eqb_spec (up_cnt v - 1) 0) as [E|E].
  - assert (deadline now (later_idle v) ≠ 0).
    { unfold deadline. cbv zeta. destruct (Z.eqb_spec ((now + msecs_to_jiffies (later_idle v)) mod 2 ^ BITS_PER_LONG) 0); lia. }
    destruct (_ && _); simpl.
    + ok_cases. right. split_and!; try done. by left.
    + destruct (release_op v); simpl; ok_cases; by left.
  - simpl. ok_cases.
Qed.

Lemma after_handler_spec f v : mpm_ok (S f) v → 0 ≤ up_cnt v →
  mpm_ok f (after_handler v) ∧ up_cnt (after_handler v) = up_cnt v ∧ same_rest v (after_handler v).
Proof using.
  intros [H1 H2] Hc. unfold mpm_ok, same_rest, after_handler, after_deactive. cbv zeta.
  destruct (Z.eqb_spec (expires v) 0) as [Hx|Hx].
  - split_and!; try done. intros E. left. destruct (H2 E) as [?|(? & ? & _)]; done.
  - assert (up_cnt v = 0) as Hu.
    { destruct (decide (0 < up_cnt v)) as [Hp|]; [|lia]. by destruct (H1 Hp). }
    simpl. destruct (release_op v); simpl; ok_cases; by left.
Qed.

Lemma wake_ok_same W v v' : same_rest v v' → wake_ok W v → wake_ok W v'.
Proof using. intros (H1 & H2 & _) [H3 H4]. split; congruence. Qed.

Section Preservation.
Context (m : nat) (k kw : Z).

Lemma task_ok_put_pms w p u u' t : live p w = Some u → task_ok m w t → task_ok m (put_pms p u' w) t.
Proof using.
  intros Hp. pose proof (live_length _ _ _ Hp) as Hl.
  assert (H' : ∀ q, (∃ v, live q w = Some v) → ∃ v, live q (put_pms p u' w) = Some v).
  { intros q [v E]. rewrite live_put by done. case_decide; eauto. }
  destruct t; simpl; try done; [by intros [? ?%H']|by intros ?%H'..].
Qed.

Lemma wakes_change c p u u' : live p (wd c) = Some u →
  total (length (pmss (wd c))) (wakes (<[p := Some u']> (pmss (wd c))))
  = total (length (pmss (wd c))) (wakes (pmss (wd c))) - wake u + wake u'.
Proof using.
  intros Hp. pose proof (live_length _ _ _ Hp) as Hl.
  rewrite (total_change _ (wakes (pmss (wd c))) (wakes (<[p := Some u']> (pmss (wd c)))) p Hl).
  - by rewrite wakes_put, decide_True, (wakes_live _ _ _ Hp) by done.
  - intros q Hne. by rewrite wakes_put, decide_False by done.
Qed.

(** The tasks and one source change, the sums for the manager do not. *)
Lemma inv_source_tasks c ts' p u u' :
  inv m k kw c → live p (wd c) = Some u → data u' = data u → length ts' = length (tasks c) →
  (∀ i t, ts' !! i = Some t → task_ok m (wd c) t) →
  (∀ q, q ≠ p → tally (uses q) ts' = tally (uses q) (tasks c)
              ∧ tally (raising q) ts' = tally (raising q) (tasks c)) →
  active_cnt u' = tally (uses p) ts' → tally (raising p) ts' ≤ 1 →
  announced ts' p + tally lowering ts' = announced (tasks c) p + tally lowering (tasks c) →
  wake u' + tally ahead ts' = wake u + tally ahead (tasks c) →
  inv m k kw (Config (put_pms p u' (wd c)) ts' (fired c)).
Proof using.
  intros [] Hp Hd Hlen Ht Hu Hc Hr Han Hwa. pose proof (live_length _ _ _ Hp) as Hl.
  split; simpl.
  - destruct inv_mpm0 as (v & Hv & Hok & Hup & Hwk & Hlist). exists v. rewrite length_insert.
    split_and!; try done.
    + rewrite Hup. rewrite (total_change _ (announced (tasks c)) (announced ts') p Hl); [lia|].
      intros q Hne. unfold announced. by destruct (Hu q Hne) as [-> ->].
    + unfold wake_total in *. simpl. rewrite length_insert, (wakes_change c p u u' Hp).
      by replace (kw + _ + _) with (kw + total (length (pmss (wd c))) (wakes (pmss (wd c))) + tally ahead (tasks c)) by lia.
    + intros q x. rewrite live_put by done. case_decide; [|by apply Hlist]. subst. eauto.
  - intros q x. rewrite live_put by done. case_decide as E.
    + intros [= <-]. subst. rewrite Hd. split; [by eapply inv_pms0|done].
    + intros Hx. destruct (Hu q E) as [-> _]. by apply inv_pms0.
  - intros j x Hx. eapply task_ok_put_pms; [exact Hp|]. eauto.
  - intros q. destruct (decide (q = p)) as [->|E]; [done|]. destruct (Hu q E) as [_ ->]. done.
  - by rewrite length_insert, Hlen.
Qed.

(** One task and its source change. *)
Lemma inv_source c i t t' p u u' :
  inv m k kw c → live p (wd c) = Some u → data u' = data u →
  tasks c !! i = Some t → task_ok m (wd c) t' →
  (∀ q, q ≠ p → uses q t' = uses q t ∧ raising q t' = raising q t) →
  let ts' := <[i := t']> (tasks c) in
  active_cnt u' = tally (uses p) ts' → tally (raising p) ts' ≤ 1 →
  announced ts' p + lowering t' = announced (tasks c) p + lowering t →
  wake u' + ahead t' = wake u + ahead t →
  inv m k kw (Config (put_pms p u' (wd c)) ts' (fired c)).
Proof using.
  intros Hc Hp Hd Hi Ht Hq ts' Ha Hr Han Hwa.
  apply (inv_source_tasks c ts' p u u'); try done.
  - unfold ts'. by rewrite length_insert.
  - intros j x Hx. apply list_lookup_insert_Some in Hx as [(<- & <- & _)|(_ & Hx)]; [done|].
    by eapply inv_tasks.
  - intros q Hne. destruct (Hq q Hne). unfold ts'.
    rewrite (users_insert _ _ _ _ Hi), (raisers_insert _ _ _ _ Hi). lia.
  - unfold ts' at 2. rewrite (lowerers_insert _ _ _ _ Hi). lia.
  - unfold ts'. rewrite (ahead_insert _ _ _ _ Hi). lia.
Qed.

(** A step of wake locks: the use of the source stays as it is. *)
Lemma inv_wake_step c i t t' p u u' :
  inv m k kw c → live p (wd c) = Some u → data u' = data u → active_cnt u' = active_cnt u →
  tasks c !! i = Some t → task_ok m (wd c) t' →
  (∀ q, uses q t' = uses q t ∧ raising q t' = raising q t) → lowering t' = lowering t →
  wake u' + ahead t' = wake u + ahead t →
  inv m k kw (Config (put_pms p u' (wd c)) (<[i := t']> (tasks c)) (fired c)).
Proof using.
  intros Hc Hp Hd Ha Hi Ht Hq Hl Hwa.
  assert (Hu : tally (uses p) (<[i := t']> (tasks c)) = tally (uses p) (tasks c)
             ∧ tally (raising p) (<[i := t']> (tasks c)) = tally (raising p) (tasks c)).
  { destruct (Hq p). rewrite (users_insert _ _ _ _ Hi), (raisers_insert _ _ _ _ Hi). lia. }
  destruct Hu as [Hu Hr]. apply (inv_source c i t t' p u u'); try done; cbv zeta.
  - rewrite Ha, Hu. by apply (inv_pms _ _ _ _ Hc).
  - rewrite Hr. apply (inv_raising _ _ _ _ Hc).
  - unfold announced. rewrite Hu, Hr. lia.
Qed.

Lemma wake_total_bounds c : inv m k kw c → - 2 ^ 31 < wake_total kw c < 2 ^ 31.
Proof using.
  intros Hc. destruct (inv_size _ _ _ _ Hc) as (? & ? & Hs). rewrite Nat2Z.inj_add in Hs.
  pose proof (ahead_bounds (tasks c)).
  pose proof (total_bounds (length (pmss (wd c))) (wakes (pmss (wd c)))
    ltac:(intros; apply wakes_range)). unfold wake_total. lia.
Qed.

(** One task goes on, the manager changes. *)
Lemma inv_manager c i t t' v v' :
  inv m k kw c → mpms (wd c) !! m = Some (Some v) → mpm_ok (fired c) v' →
  pms_list v' = pms_list v →
  (wake_ok (wake_total kw c) v → wake_ok (wake_total kw c - ahead t + ahead t') v') →
  tasks c !! i = Some t → task_ok m (wd c) t' → (∀ q, uses q t' = uses q t) →
  (∀ q, raising q t' ≤ raising q t) →
  let ts' := <[i := t']> (tasks c) in
  let n := length (pmss (wd c)) in
  up_cnt v' = up_cnt v + (total n (announced ts') - total n (announced (tasks c)))
              + lowering t' - lowering t →
  inv m k kw (Config (put_mpm m v' (wd c)) ts' (fired c)).
Proof using.
  intros [] Hv Hok Hli' Hwk' Hi Ht Hu Hr ts' n Hup'.
  destruct inv_mpm0 as (v0 & Hv0 & _ & Hup & Hwk & Hlist). rewrite Hv in Hv0.
  injection Hv0 as <-. split; simpl.
  - exists v'. rewrite list_lookup_insert_eq by (by eapply lookup_lt_Some).
    split_and!; try done.
    + rewrite Hup', Hup. unfold ts' at 3. rewrite (lowerers_insert _ _ _ _ Hi). fold n. lia.
    + specialize (Hwk' Hwk). unfold wake_total, ts' in *. simpl.
      rewrite (ahead_insert _ _ _ _ Hi).
      by replace (kw + _ + (_ - ahead t + ahead t')) with (kw
        + total (length (pmss (wd c))) (wakes (pmss (wd c))) + tally ahead (tasks c)
        - ahead t + ahead t') by lia.
    + intros q x Hx. rewrite Hli'. by eapply Hlist.
  - intros q x Hx. destruct (inv_pms0 q x Hx) as [-> ->]. split; [done|].
    unfold ts'. rewrite (users_insert _ _ _ _ Hi), Hu. lia.
  - intros j x Hx. apply list_lookup_insert_Some in Hx as [(<- & <- & _)|(_ & Hx)]; [done|].
    by eapply inv_tasks0.
  - intros q. unfold ts'. rewrite (raisers_insert _ _ _ _ Hi). pose proof (Hr q).
    pose proof (inv_raising0 q). lia.
  - unfold ts'. by rewrite length_insert.
Qed.

(** Only the manager changes. *)
Lemma inv_manager_only c v v' f' :
  inv m k kw c → mpms (wd c) !! m = Some (Some v) → mpm_ok f' v' → up_cnt v' = up_cnt v →
  same_rest v v' → inv m k kw (Config (put_mpm m v' (wd c)) (tasks c) f').
Proof using.
  intros [] Hv Hok Hup' Hrest.
  destruct inv_mpm0 as (v0 & Hv0 & _ & Hup & Hwk & Hlist). rewrite Hv in Hv0.
  injection Hv0 as <-. split; simpl; try done.
  exists v'. rewrite list_lookup_insert_eq by (by eapply lookup_lt_Some).
  pose proof (wake_ok_same _ _ _ Hrest Hwk). destruct Hrest as (_ & _ & Hli').
  rewrite Hup', Hli'. by split_and!.
Qed.

(** The manager's counts are small. *)
Lemma inv_bounds c v : inv m k kw c → mpms (wd c) !! m = Some (Some v) →
  0 ≤ up_cnt v < 2 ^ 31 ∧ tally lowering (tasks c) ≤ up_cnt v.
Proof using.
  intros [] Hv. destruct inv_mpm0 as (v0 & Hv0 & _ & Hup & _). rewrite Hv in Hv0.
  injection Hv0 as <-. pose proof (lowerers_range (tasks c)).
  pose proof (total_bounds (length (pmss (wd c))) (announced (tasks c))
    ltac:(intros; by apply announced_range)).
  rewrite Nat2Z.inj_add in inv_size0. lia.
Qed.

Lemma inv_begin_up c i p u : inv m k kw c → tasks c !! i = Some Free → live p (wd c) = Some u →
  runs (pms_up p) (wd c) (λ r w',
    inv m k kw (Config w' (<[i := Raising p r.1 r.2]> (tasks c)) (fired c))).
Proof using.
  intros Hc Hi Hp. pose proof (live_length _ _ _ Hp) as Hl. destruct (inv_pms _ _ _ _ Hc _ _ Hp) as [Hd Ha].
  rewrite <- (put_pms_self p u (wd c)) at 1 by done. apply runs_pms_up; [done|].
  pose proof (users_range (tasks c) p) as Hu. pose proof (raisers_range (tasks c) p) as Hr.
  pose proof (inv_size _ _ _ _ Hc) as (? & ? & Hs). rewrite Nat2Z.inj_add in Hs.
  pose proof (inv_raising _ _ _ _ Hc p). rewrite Ha, u32_small by lia.
  apply (inv_source c i Free _ p u); try done.
  - simpl. by eauto.
  - intros q Hne. simpl. rewrite decide_False by done. by destruct (_ =? 1).
  - simpl. rewrite (users_insert _ _ _ _ Hi). simpl. rewrite decide_True by done. lia.
  - rewrite (raisers_insert _ _ _ _ Hi). simpl. rewrite decide_True by done.
    destruct (Z.eqb_spec (tally (uses p) (tasks c) + 1) 1); lia.
  - unfold announced. rewrite (users_insert _ _ _ _ Hi), (raisers_insert _ _ _ _ Hi). simpl.
    rewrite !decide_True by done. destruct (Z.eqb_spec (tally (uses p) (tasks c) + 1) 1);
      destruct (Z.ltb_spec 0 (tally (uses p) (tasks c))),
        (Z.ltb_spec 0 (tally (uses p) (tasks c) - 0 + 1)); lia.
Qed.

Lemma inv_begin_down c i p imm : inv m k kw c → tasks c !! i = Some (Using p) →
  runs (pms_down p) (wd c) (λ r w',
    inv m k kw (Config w' (<[i := Lowering p r.1 r.2 imm]> (tasks c)) (fired c))).
Proof using.
  intros Hc Hi. destruct (inv_tasks _ _ _ _ Hc _ _ Hi) as (u & Hp).
  pose proof (live_length _ _ _ Hp) as Hl. destruct (inv_pms _ _ _ _ Hc _ _ Hp) as [Hd Ha].
  pose proof (users_range (tasks c) p) as Hu. pose proof (raisers_range (tasks c) p) as Hr.
  pose proof (other_users _ _ _ Hi p) as Ho. simpl in Ho. rewrite decide_True in Ho by done.
  pose proof (inv_size _ _ _ _ Hc) as (? & ? & Hs). rewrite Nat2Z.inj_add in Hs.
  pose proof (inv_raising _ _ _ _ Hc p).
  rewrite <- (put_pms_self p u (wd c)) at 1 by done. apply runs_pms_down; [done|lia|].
  rewrite Ha, u32_small by lia.
  apply (inv_source c i (Using p) _ p u); try done.
  - intros q Hne. simpl. by rewrite decide_False by done.
  - simpl. rewrite (users_insert _ _ _ _ Hi). simpl. rewrite decide_True by done. lia.
  - rewrite (raisers_insert _ _ _ _ Hi). simpl. lia.
  - unfold announced. rewrite (users_insert _ _ _ _ Hi), (raisers_insert _ _ _ _ Hi). simpl.
    rewrite !decide_True by done.
    destruct (Z.ltb_spec 0 (tally (uses p) (tasks c))), (Z.eqb_spec (tally (uses p) (tasks c) - 1) 0),
        (Z.ltb_spec 0 (tally (uses p) (tasks c) - 1 + 0)); lia.
Qed.

Lemma inv_continue_up c i p a : inv m k kw c → tasks c !! i = Some (Raising p m a) →
  runs (if a : bool then sprd_mpm_up m else mret ()) (wd c) (λ _ w',
    inv m k kw (Config w' (<[i := Using p]> (tasks c)) (fired c))).
Proof using.
  intros Hc Hi. destruct (inv_tasks _ _ _ _ Hc _ _ Hi) as (_ & u & Hp).
  pose proof (live_length _ _ _ Hp) as Hl.
  destruct (inv_mpm _ _ _ _ Hc) as (v & Hv & Hok & _).
  pose proof (inv_bounds _ _ Hc Hv) as [Hup _]. pose proof (lookup_lt_Some _ _ _ Hv) as Hm.
  assert (Ht : task_ok m (wd c) (Using p)) by (by exists u).
  rewrite <- (put_mpm_self m v (wd c)) at 1 by done. destruct a.
  - destruct (after_up_spec _ _ Hok ltac:(lia)) as (Hok' & Hup' & Hrest). apply runs_mpm_up; [done|].
    apply (inv_manager c i (Raising p m true) _ v); try done.
    + apply Hrest.
    + simpl. rewrite Z.sub_0_r, Z.add_0_r. by apply wake_ok_same.
    + intros q. simpl. case_decide; lia.
    + rewrite Hup'. simpl.
      rewrite (total_change _ (announced (tasks c)) (announced (<[i := Using p]> (tasks c))) p Hl).
      * unfold announced. rewrite (users_insert _ _ _ _ Hi), (raisers_insert _ _ _ _ Hi). simpl.
        rewrite !decide_True by done. replace (tally (uses p) (tasks c) - 1 + 1)
          with (tally (uses p) (tasks c)) by lia. lia.
      * intros q Hne. unfold announced. rewrite (users_insert _ _ _ _ Hi), (raisers_insert _ _ _ _ Hi).
        simpl. rewrite !decide_False by done. by rewrite !Z.add_0_r, !Z.sub_0_r.
  - apply runs_ret. apply (inv_manager c i (Raising p m false) _ v); try done;
      [by simpl; rewrite Z.sub_0_r, Z.add_0_r|].
    rewrite (total_ext _ (announced (<[i := Using p]> (tasks c))) (announced (tasks c))); [simpl; lia|].
    intros q _. unfold announced. rewrite (users_insert _ _ _ _ Hi), (raisers_insert _ _ _ _ Hi). simpl.
    by rewrite Z.sub_add, Z.add_0_r, Z.sub_0_r.
Qed.

Lemma inv_continue_down c i p d imm : inv m k kw c → tasks c !! i = Some (Lowering p m d imm) →
  runs (if d : bool then sprd_mpm_down m imm else mret ()) (wd c) (λ _ w',
    inv m k kw (Config w' (<[i := Free]> (tasks c)) (fired c))).
Proof using.
  intros Hc Hi. destruct (inv_mpm _ _ _ _ Hc) as (v & Hv & Hok & _).
  pose proof (inv_bounds _ _ Hc Hv) as [Hup Hlow]. pose proof (lookup_lt_Some _ _ _ Hv) as Hm.
  pose proof (tally_ge lowering _ _ _ (λ t, proj1 (lowering_range t)) Hi) as Hd.
  assert (Han : total (length (pmss (wd c))) (announced (<[i := Free]> (tasks c)))
                = total (length (pmss (wd c))) (announced (tasks c))).
  { apply total_ext. intros q _. unfold announced.
    rewrite (users_insert _ _ _ _ Hi), (raisers_insert _ _ _ _ Hi). simpl.
    by rewrite !Z.add_0_r, !Z.sub_0_r. }
  rewrite <- (put_mpm_self m v (wd c)) at 1 by done. destruct d; simpl in Hd.
  - destruct (after_down_spec (fired c) (jiffies (wd c)) imm v Hok ltac:(lia)) as (Hok' & Hup' & Hrest).
    apply runs_mpm_down; [done|].
    apply (inv_manager c i (Lowering p m true imm) _ v); try done.
    + apply Hrest.
    + simpl. rewrite Z.sub_0_r, Z.add_0_r. by apply wake_ok_same.
    + rewrite Hup', Han. simpl. lia.
  - apply runs_ret. apply (inv_manager c i (Lowering p m false imm) _ v); try done.
    + by simpl; rewrite Z.sub_0_r, Z.add_0_r.
    + rewrite Han. simpl. lia.
Qed.

Lemma u32_eqb W n : - 2 ^ 31 ≤ W ≤ 2 ^ 31 → 0 ≤ n ≤ 1 → (u32 W =? n) = (W =? n).
Proof using.
  intros HW Hn. destruct (decide (0 ≤ W)); [by rewrite u32_small by lia|].
  unfold u32. rewrite <- (Z_mod_plus_full W 1), Z.mod_small by lia. lia.
Qed.

(** The counter of wake locks is right modulo [2^32], the wake-up source is active
    exactly when it is above 0. *)
Lemma stay_awake_spec f W v : mpm_ok f v → wake_ok W v → - 2 ^ 31 < W < 2 ^ 31 →
  let v' := after_stay_awake v in
  mpm_ok f v' ∧ up_cnt v' = up_cnt v ∧ pms_list v' = pms_list v ∧ wake_ok (W + 1) v'.
Proof using.
  intros Hok [Hc Hws] HW. unfold after_stay_awake, wake_ok. cbv zeta. rewrite Hc.
  replace (u32 (u32 W + 1)) with (u32 (W + 1)) by (symmetry; apply Zplus_mod_idemp_l).
  pose proof (u32_eqb (W + 1) 1 ltac:(lia) ltac:(lia)) as E.
  cbn [wakelock_cnt set_wakelock]. rewrite E.
  destruct (Z.eqb_spec (W + 1) 1) as [E'|E']; cbn; split_and!; try done.
  - by rewrite E'.
  - rewrite Hws. apply eq_true_iff_eq. rewrite !Z.ltb_lt. lia.
Qed.

Lemma relax_spec f W v : mpm_ok f v → wake_ok W v → - 2 ^ 31 < W < 2 ^ 31 →
  let v' := after_relax v in
  mpm_ok f v' ∧ up_cnt v' = up_cnt v ∧ pms_list v' = pms_list v ∧ wake_ok (W - 1) v'.
Proof using.
  intros Hok [Hc Hws] HW. unfold after_relax, wake_ok. cbv zeta. rewrite Hc.
  replace (u32 (u32 W - 1)) with (u32 (W - 1)) by (symmetry; apply Zminus_mod_idemp_l).
  pose proof (u32_eqb (W - 1) 0 ltac:(lia) ltac:(lia)) as E.
  cbn [wakelock_cnt set_wakelock]. rewrite E.
  destruct (Z.eqb_spec (W - 1) 0) as [E'|E']; cbn; split_and!; try done.
  - by rewrite E'.
  - rewrite Hws. apply eq_true_iff_eq. rewrite !Z.ltb_lt. lia.
Qed.

Lemma cancelled_same u :
  data (pms_cancelled u) = data u ∧ active_cnt (pms_cancelled u) = active_cnt u
  ∧ awake (pms_cancelled u) = awake u.
Proof using. unfold pms_cancelled. by destruct (_ =? _). Qed.

(** What an operation on wake locks leaves. *)
Definition still (c : config) (prog : pm ()) : Prop :=
  runs prog (wd c) (λ _ w', inv m k kw (Config w' (tasks c) (fired c))).

(** The steps of a task in the manager. *)
Lemma inv_wake_manager c i p (up : bool) :
  inv m k kw c → tasks c !! i = Some (if up then Waking p m else Relaxing p m) →
  runs (if up then sprd_mpm_stay_awake m else sprd_mpm_relax m) (wd c) (λ _ w',
    inv m k kw (Config w' (<[i := Free]> (tasks c)) (fired c))).
Proof using.
  intros Hc Hi. destruct (inv_mpm _ _ _ _ Hc) as (v & Hv & Hok & _ & Hwk & _).
  pose proof (lookup_lt_Some _ _ _ Hv) as Hm. pose proof (wake_total_bounds c Hc) as HW.
  assert (Han : total (length (pmss (wd c))) (announced (<[i := Free]> (tasks c)))
                = total (length (pmss (wd c))) (announced (tasks c))).
  { apply total_ext. intros q _. unfold announced.
    rewrite (users_insert _ _ _ _ Hi), (raisers_insert _ _ _ _ Hi).
    destruct up; simpl; by rewrite !Z.add_0_r, !Z.sub_0_r. }
  rewrite <- (put_mpm_self m v (wd c)) at 1 by done. destruct up.
  - destruct (stay_awake_spec (fired c) _ v Hok Hwk HW) as (H1 & H2 & H3 & H4).
    apply runs_mpm_stay_awake; [done|].
    apply (inv_manager c i (Waking p m) _ v); try done; [|by rewrite H2, Han; simpl; lia].
    intros _. simpl. by rewrite Z.add_0_r.
  - destruct (relax_spec (fired c) _ v Hok Hwk HW) as (H1 & H2 & H3 & H4).
    apply runs_mpm_relax; [done|].
    apply (inv_manager c i (Relaxing p m) _ v); try done; [|by rewrite H2, Han; simpl; lia].
    intros _. simpl. by rewrite Z.add_0_r.
Qed.

Section Wakelocks.
Context (c : config) (p : nat) (u : sprd_pms) (Hc : inv m k kw c) (Hp : live p (wd c) = Some u).

(** A change that leaves the counts of a source alone. *)
Lemma inv_pms_only u' : data u' = data u → active_cnt u' = active_cnt u → awake u' = awake u →
  inv m k kw (Config (put_pms p u' (wd c)) (tasks c) (fired c)).
Proof using Hc Hp.
  intros Hd Ha Hw. apply (inv_source_tasks c _ p u u'); try done.
  - by apply (inv_tasks _ _ _ _ Hc).
  - rewrite Ha. by apply (inv_pms _ _ _ _ Hc).
  - apply (inv_raising _ _ _ _ Hc).
  - unfold wake. by rewrite Hw.
Qed.

Lemma inv_release_later msec : still c (sprd_pms_release_wakelock_later (Some p) msec).
Proof using Hc Hp.
  unfold still. rewrite <- (put_pms_self p u (wd c)) at 1 by done.
  apply runs_bind, runs_get, runs_upd_pms; [by eapply live_length|]. by apply inv_pms_only.
Qed.

(** The steps of a free task that begins with a wake lock. *)
Lemma inv_begin_wake i (t : task) : tasks c !! i = Some Free →
  t = Requesting p ∨ t = Releasing p →
  runs (sprd_pms_cancel_timer p) (wd c) (λ _ w',
    inv m k kw (Config w' (<[i := t]> (tasks c)) (fired c))).
Proof using Hc Hp.
  intros Hi Ht. rewrite <- (put_pms_self p u (wd c)) at 1 by done.
  apply runs_pms_cancel; [by eapply live_length|].
  destruct (cancelled_same u) as (? & ? & Hw).
  apply (inv_wake_step c i Free t p u); try done; destruct Ht as [-> | ->]; try done;
    try (by exists u); unfold wake; by rewrite Hw.
Qed.

Lemma inv_expired i : tasks c !! i = Some Free →
  runs (pms_expired p) (wd c) (λ r w', inv m k kw (Config w'
    (if r : bool then <[i := Releasing p]> (tasks c) else tasks c) (fired c))).
Proof using Hc Hp.
  intros Hi. pose proof (live_length _ _ _ Hp) as Hl.
  rewrite <- (put_pms_self p u (wd c)) at 1 by done.
  apply runs_bind, runs_get, runs_bind, runs_pms_at; [done|]. destruct (_ && _).
  - apply runs_bind, runs_upd_pms; [done|]. apply runs_ret.
    apply (inv_wake_step c i Free _ p u); try done. by exists u.
  - apply runs_ret. by apply inv_pms_only.
Qed.

(** The test and the change of [awake]. *)
Lemma inv_requesting i : tasks c !! i = Some (Requesting p) →
  runs (pms_stay_awake p) (wd c) (λ r w',
    r.1 = m ∧ inv m k kw (Config w'
      (<[i := if r.2 : bool then Waking p r.1 else Free]> (tasks c)) (fired c))).
Proof using Hc Hp.
  intros Hi. pose proof (live_length _ _ _ Hp) as Hl.
  destruct (inv_pms _ _ _ _ Hc _ _ Hp) as [Hd _].
  rewrite <- (put_pms_self p u (wd c)) at 1 by done.
  apply runs_bind, runs_upd_pms; [done|]. apply runs_bind, runs_pms_at; [done|].
  cbn [awake inc_awake_cnt data]. destruct (awake u) eqn:Eu; cbn [negb].
  - apply runs_ret. split; [done|]. by apply (inv_wake_step c i (Requesting p) _ p u).
  - apply runs_bind, runs_upd_pms; [done|]. apply runs_ret. split; [done|].
    apply (inv_wake_step c i (Requesting p) _ p u); try done.
    unfold wake. simpl. by rewrite Eu.
Qed.

Lemma inv_releasing i : tasks c !! i = Some (Releasing p) →
  runs (pms_relax p) (wd c) (λ r w',
    r.1 = m ∧ inv m k kw (Config w'
      (<[i := if r.2 : bool then Relaxing p r.1 else Free]> (tasks c)) (fired c))).
Proof using Hc Hp.
  intros Hi. pose proof (live_length _ _ _ Hp) as Hl.
  destruct (inv_pms _ _ _ _ Hc _ _ Hp) as [Hd _].
  rewrite <- (put_pms_self p u (wd c)) at 1 by done.
  apply runs_bind, runs_pms_at; [done|]. destruct (awake u) eqn:Eu.
  - apply runs_bind, runs_upd_pms; [done|]. apply runs_ret. split; [done|].
    apply (inv_wake_step c i (Releasing p) _ p u); try done.
    unfold wake. simpl. by rewrite Eu.
  - apply runs_ret. split; [done|]. by apply (inv_wake_step c i (Releasing p) _ p u).
Qed.

(** The source is gone; [ts']: the tasks without those that used it. *)
Definition without (w : world) (v : sprd_mpm_data) : world :=
  World (g_sprd_mpm w) (<[m := Some (on_list (filter (λ q, q ≠ p)) v)]> (mpms w))
    (<[p := None]> (pmss w)) (jiffies w) (calls w).

Lemma live_without v q x : live q (without (wd c) v) = Some x → q ≠ p ∧ live q (wd c) = Some x.
Proof using Hp.
  pose proof (live_length _ _ _ Hp). unfold live. simpl. destruct (decide (q = p)) as [->|Hne].
  - by rewrite list_lookup_insert_eq.
  - by rewrite list_lookup_insert_ne.
Qed.

Lemma runs_destroy v (Φ : () → world → Prop) : mpms (wd c) !! m = Some (Some v) →
  Φ () (without (wd c) v) → runs (sprd_pms_destroy (Some p)) (wd c) Φ.
Proof using Hc Hp.
  intros Hv HΦ. pose proof (live_length _ _ _ Hp) as Hl. pose proof (lookup_lt_Some _ _ _ Hv) as Hm.
  destruct (cancelled_same u) as (Hd & _). destruct (inv_pms _ _ _ _ Hc _ _ Hp) as [Hdm _].
  destruct (inv_mpm _ _ _ _ Hc) as (v0 & Hv0 & _ & _ & _ & Hlist).
  rewrite Hv in Hv0. injection Hv0 as <-.
  rewrite <- (put_pms_self p u (wd c)) at 1 by done.
  rewrite <- (put_mpm_self m v (wd c)) at 1 by done.
  apply runs_bind, runs_pms_cancel; [done|]. apply runs_bind, runs_pms_at; [done|].
  rewrite Hd, Hdm.
  change (put_pms p ?x (put_mpm m v (wd c))) with (put_mpm m v (put_pms p x (wd c))).
  apply runs_bind, runs_bind, runs_mpm_at; [done|].
  rewrite bool_decide_true by (by eapply Hlist). apply runs_upd_mpm; [done|].
  apply runs_modify. unfold put_mpm, put_pms. simpl. by rewrite list_insert_insert_eq.
Qed.

Lemma inv_without v ts' k' : mpms (wd c) !! m = Some (Some v) → awake u = false →
  (∀ i t, ts' !! i = Some t → refers p t = false) → length ts' = length (tasks c) →
  tally ahead ts' = tally ahead (tasks c) →
  (∀ i t, ts' !! i = Some t → t = Free ∨ tasks c !! i = Some t) →
  (∀ q, q ≠ p → tally (uses q) ts' = tally (uses q) (tasks c)) →
  (∀ q, tally (raising q) ts' ≤ tally (raising q) (tasks c)) →
  k' + total (length (pmss (wd c))) (announced ts') + tally lowering ts'
    = k + total (length (pmss (wd c))) (announced (tasks c)) + tally lowering (tasks c) →
  0 ≤ k' → k' + kw + Z.of_nat (length (pmss (wd c)) + length (tasks c)) < 2 ^ 31 →
  inv m k' kw (Config (without (wd c) v) ts' (fired c)).
Proof using Hc Hp.
  intros Hv Hw Hu Hlen Hah Hts Hq Hr Hsum Hk' Hsize.
  pose proof (live_length _ _ _ Hp) as Hl.
  pose proof (wakes_live _ _ _ Hp) as Hwp. unfold wake in Hwp. rewrite Hw in Hwp.
  pose proof (λ q, live_without v q) as Hlive. destruct Hc as [].
  destruct inv_mpm0 as (v0 & Hv0 & Hok & Hup & Hwk & Hlist). rewrite Hv in Hv0.
  injection Hv0 as <-. pose proof (lookup_lt_Some _ _ _ Hv) as Hm.
  split; cbn [wd tasks fired].
  - exists (on_list (filter (λ q, q ≠ p)) v). simpl.
    rewrite list_lookup_insert_eq, length_insert by done. split_and!; try done; [lia|..].
    + unfold wake_total in *. simpl. rewrite length_insert, Hah.
      rewrite (total_ext _ (wakes (<[p := None]> (pmss (wd c)))) (wakes (pmss (wd c)))); [done|].
      intros q _. unfold wakes. destruct (decide (q = p)) as [->|Hne];
        [by rewrite list_lookup_insert_eq|by rewrite list_lookup_insert_ne].
    + intros q x [Hne Hx]%Hlive. apply list_elem_of_filter. split; [done|]. by eapply Hlist.
  - intros q x [Hne Hx]%Hlive. rewrite Hq by done. by apply inv_pms0.
  - intros i t Ht. destruct (Hts _ _ Ht) as [->|Ht']; [done|].
    pose proof (inv_tasks0 _ _ Ht') as Hok'. pose proof (Hu _ _ Ht) as Hno.
    assert (Hkeep : ∀ q, bool_decide (q = p) = false → (∃ x, live q (wd c) = Some x) →
      ∃ x, live q (without (wd c) v) = Some x).
    { intros q Hne%bool_decide_eq_false [x Hx]. exists x. unfold live. simpl.
      by rewrite list_lookup_insert_ne. }
    destruct t; simpl in Hok', Hno |- *; try done;
      [destruct Hok'; split; [done|]|..]; by apply Hkeep.
  - intros q. pose proof (Hr q). pose proof (inv_raising0 q). lia.
  - simpl. rewrite length_insert, Hlen. lia.
Qed.

Lemma no_uses ts : (∀ i t, ts !! i = Some t → refers p t = false) → tally (uses p) ts = 0.
Proof using.
  intros Hu. induction ts as [|t ts IH]; simpl; [done|].
  rewrite IH by (intros i; apply (Hu (S i))). pose proof (Hu 0%nat t eq_refl) as Ht.
  destruct t; simpl in *; try done; apply bool_decide_eq_false in Ht; by rewrite decide_False.
Qed.

Lemma inv_destroy : (∀ i t, tasks c !! i = Some t → refers p t = false) → awake u = false →
  still c (sprd_pms_destroy (Some p)).
Proof using Hc Hp.
  intros Hu Hw. destruct (inv_mpm _ _ _ _ Hc) as (v & Hv & _).
  pose proof (inv_size _ _ _ _ Hc) as (? & ? & ?).
  eapply runs_destroy; [exact Hv|]. apply inv_without; auto with lia.
Qed.

(** A source that only task [i] uses is destroyed. *)
Lemma inv_destroy_used i v : mpms (wd c) !! m = Some (Some v) → awake u = false →
  tasks c !! i = Some (Using p) →
  (∀ j t, j ≠ i → tasks c !! j = Some t → refers p t = false) →
  k + 1 + kw + Z.of_nat (length (pmss (wd c)) + length (tasks c)) < 2 ^ 31 →
  inv m (k + 1) kw (Config (without (wd c) v) (<[i := Free]> (tasks c)) (fired c)).
Proof using Hc Hp.
  intros Hv Hw Hi Hno Hs. pose proof (inv_size _ _ _ _ Hc) as (? & ? & _).
  assert (Hfree : ∀ j t, <[i := Free]> (tasks c) !! j = Some t → refers p t = false).
  { intros j t Ht. destruct (decide (j = i)) as [->|Hne].
    - rewrite list_lookup_insert_eq in Ht by (by eapply lookup_lt_Some). by injection Ht as <-.
    - rewrite list_lookup_insert_ne in Ht by done. eauto. }
  pose proof (no_uses _ Hfree) as Hu. rewrite (users_insert _ _ _ _ Hi) in Hu. simpl in Hu.
  rewrite decide_True in Hu by done.
  pose proof (other_users _ _ _ Hi p) as Ho. simpl in Ho. rewrite decide_True in Ho by done.
  pose proof (raisers_range (tasks c) p).
  apply inv_without; try done; try lia.
  - by rewrite length_insert.
  - rewrite (ahead_insert _ _ _ _ Hi). simpl. lia.
  - intros j t Ht. apply list_lookup_insert_Some in Ht as [(_ & <- & _)|(_ & Ht)]; auto.
  - intros q Hne. rewrite (users_insert _ _ _ _ Hi). simpl. rewrite decide_False by done. lia.
  - intros q. rewrite (raisers_insert _ _ _ _ Hi). simpl. lia.
  - rewrite (lowerers_insert _ _ _ _ Hi). simpl.
    rewrite (total_change _ (announced (tasks c)) (announced (<[i := Free]> (tasks c))) p)
      by (by eapply live_length || (intros q Hne; unfold announced;
          rewrite (users_insert _ _ _ _ Hi), (raisers_insert _ _ _ _ Hi); simpl;
          by rewrite decide_False, !Z.add_0_r, !Z.sub_0_r by done)).
    unfold announced at 2 3. rewrite (users_insert _ _ _ _ Hi), (raisers_insert _ _ _ _ Hi).
    replace (tally (uses p) (tasks c)) with 1 by lia.
    simpl. rewrite decide_True by done. simpl. lia.
Qed.
End Wakelocks.

Lemma time_passes c w' : inv m k kw c → mpms w' = mpms (wd c) → pmss w' = pmss (wd c) →
  inv m k kw (Config w' (tasks c) (fired c)).
Proof using.
  intros [] Hm Hp. assert (Hl : ∀ p, live p w' = live p (wd c)) by (intros p; unfold live; by rewrite Hp).
  split; simpl; try done.
  - unfold wake_total in *. simpl. rewrite Hm, Hp. destruct inv_mpm0 as (v & ? & ? & ? & ? & Hlist).
    exists v. split_and!; try done. intros q x. rewrite Hl. apply Hlist.
  - intros q x. rewrite Hl. apply inv_pms0.
  - intros i t Ht. pose proof (inv_tasks0 _ _ Ht) as Hok. destruct t; simpl in *; by rewrite ?Hl.
  - by rewrite Hp.
Qed.

Lemma runs_no_event c (Φ : () → config → Prop) : Φ () c → runs skip c Φ.
Proof using. apply runs_ret. Qed.

Lemma runs_still c prog : still c prog → runs (on_world prog) c (λ _ c', inv m k kw c').
Proof using. intros Hs. apply runs_on_world. eapply runs_mono; [exact Hs|]. done. Qed.

Lemma runs_work c v v' (request : bool) :
  inv m k kw c → mpms (wd c) !! m = Some (Some v) → mpm_ok (fired c) v' →
  up_cnt v' = up_cnt v → same_rest v v' → (if request then request_op v' else release_op v') = true →
  runs (if request then sprd_mpm_request_res_work_fn m else sprd_mpm_release_res_work_fn m)
    (put_mpm m v' (wd c)) (λ _ w', inv m k kw (Config w' (tasks c) (fired c))).
Proof using.
  intros Hc Hv Hok Hup Hrest Hop. pose proof (lookup_lt_Some _ _ _ Hv) as Hm.
  pose proof (inv_manager_only c v v' (fired c) Hc Hv Hok Hup Hrest) as Hc'.
  destruct request; apply runs_bind, runs_mpm_at; try done; rewrite Hop; apply runs_modify;
    by apply (time_passes (Config (put_mpm m v' (wd c)) (tasks c) (fired c))).
Qed.

Lemma runs_set_task c i t (prog : pm ()) : runs prog (wd c) (λ _ w',
    inv m k kw (Config w' (<[i := t]> (tasks c)) (fired c))) →
  runs (on_world prog;; set_task i t) c (λ _ c', inv m k kw c').
Proof using.
  intros Hp. apply runs_bind, runs_on_world. eapply runs_mono; [exact Hp|].
  intros [] w' Hw'. by apply runs_modify.
Qed.

Lemma inv_continue c i : inv m k kw c →
  runs (run_event m (Continue i)) c (λ _ c', inv m k kw c').
Proof using.
  intros Hc. apply runs_bind, runs_get. cbv zeta.
  destruct (tasks c !! i) as [t|] eqn:Hi; [|by apply runs_no_event].
  pose proof (inv_tasks _ _ _ _ Hc _ _ Hi) as Ht.
  destruct t as [|p m' a|p|p m' d imm|p|p|p m'|p m']; simpl in Ht; try by apply runs_no_event.
  - destruct Ht as [-> _]. apply runs_set_task. by apply inv_continue_up.
  - subst m'. apply runs_set_task. by apply (inv_continue_down c i p).
  - destruct Ht as [u Hp]. apply runs_bind, runs_on_world.
    eapply runs_mono; [by apply (inv_requesting c p u)|].
    intros [m' ch] w' [Hm Hw']. simpl in Hm. subst m'. by apply runs_modify.
  - destruct Ht as [u Hp]. apply runs_bind, runs_on_world.
    eapply runs_mono; [by apply (inv_releasing c p u)|].
    intros [m' ch] w' [Hm Hw']. simpl in Hm. subst m'. by apply runs_modify.
  - subst m'. apply runs_set_task. by apply (inv_wake_manager c i p true).
  - subst m'. apply runs_set_task. by apply (inv_wake_manager c i p false).
Qed.

Lemma nobody_spec f ts : nobody f ts = true → ∀ i t, ts !! i = Some t → f t = false.
Proof using.
  unfold nobody. rewrite forallb_forall. intros Hf i t Ht.
  apply negb_true_iff, Hf. apply list_elem_of_In. by eapply list_elem_of_lookup_2.
Qed.

Lemma inv_event ev c : inv m k kw c → runs (run_event m ev) c (λ _ c', inv m k kw c').
Proof using.
  intros Hc. destruct (inv_mpm _ _ _ _ Hc) as (v & Hv & Hok & _).
  pose proof (lookup_lt_Some _ _ _ Hv) as Hm. pose proof (inv_bounds _ _ Hc Hv) as [Hup _].
  assert (Hat : ∀ Φ : sprd_mpm_data → config → Prop, Φ v c → runs (on_world (mpm_at m)) c Φ).
  { intros Φ HΦ. apply runs_on_world. eapply runs_exact; [unfold mpm_at; by rewrite Hv|].
    by destruct c. }
  destruct ev as [i p|i imm|i p|i p|p msec|i p|i| | | | | |p]; [..|by apply inv_continue| | | | | |];
    apply runs_bind, runs_get; cbv zeta.
  - destruct (tasks c !! i) as [[]|] eqn:Hi; try by apply runs_no_event.
    destruct (live p (wd c)) as [u|] eqn:Hp; [|by apply runs_no_event].
    destruct (_ || _); [|by apply runs_no_event].
    apply runs_bind, runs_on_world. eapply runs_mono; [by apply (inv_begin_up c i p u)|].
    intros [m' a] w' Hw'. by apply runs_modify.
  - destruct (tasks c !! i) as [[]|] eqn:Hi; try by apply runs_no_event.
    destruct (live p (wd c)) as [u|] eqn:Hp; [|by apply runs_no_event].
    destruct (_ || _); [|by apply runs_no_event].
    apply runs_bind, runs_on_world. eapply runs_mono; [by apply (inv_begin_down c i p imm)|].
    intros [m' d] w' Hw'. by apply runs_modify.
  - destruct (tasks c !! i) as [[]|] eqn:Hi; try by apply runs_no_event.
    destruct (live p (wd c)) as [u|] eqn:Hp; [|by apply runs_no_event].
    apply runs_set_task. eapply inv_begin_wake; eauto.
  - destruct (tasks c !! i) as [[]|] eqn:Hi; try by apply runs_no_event.
    destruct (live p (wd c)) as [u|] eqn:Hp; [|by apply runs_no_event].
    apply runs_set_task. eapply inv_begin_wake; eauto.
  - destruct (live p (wd c)) as [u|] eqn:Hp; [|by apply runs_no_event].
    by eapply runs_still, inv_release_later.
  - destruct (tasks c !! i) as [[]|] eqn:Hi; try by apply runs_no_event.
    destruct (live p (wd c)) as [u|] eqn:Hp; [|by apply runs_no_event].
    apply runs_bind, runs_on_world. eapply runs_mono; [by apply (inv_expired c p u Hc Hp i)|].
    intros [] w' Hw'; [by apply runs_modify|by apply runs_ret].
  - apply runs_on_world, runs_modify. by apply time_passes.
  - apply runs_bind, Hat. destruct (timer v) as [t|] eqn:Et; [|by apply runs_no_event].
    destruct (time_after_eq _ _); [|by apply runs_no_event].
    apply runs_bind, runs_on_world. rewrite <- (put_mpm_self m v (wd c)) at 1 by done.
    apply runs_upd_mpm; [done|]. apply runs_modify. simpl.
    apply (inv_manager_only c v); try done. destruct Hok as [H1 H2]. split; simpl; [done|].
    intros E. destruct (H2 E) as [?|(? & ? & _)]; [by left|right]. split_and!; try done. right. lia.
  - destruct (fired c) as [|n] eqn:Ef; [by apply runs_no_event|].
    destruct (after_handler_spec _ _ Hok ltac:(lia)) as (H1 & H2 & H3).
    apply runs_bind, runs_on_world. rewrite <- (put_mpm_self m v (wd c)) at 1 by done.
    apply runs_handler; [done|]. apply runs_modify. simpl.
    by apply (inv_manager_only c v).
  - apply runs_bind, Hat. destruct (_ && _) eqn:Eb; [|by apply runs_no_event].
    apply andb_true_iff in Eb as [_ Eb]. apply runs_still. unfold still.
    rewrite <- (put_mpm_self m v (wd c)) at 1 by done. apply runs_bind, runs_upd_mpm; [done|].
    by apply (runs_work c v _ true).
  - apply runs_bind, Hat. destruct (_ && _) eqn:Eb; [|by apply runs_no_event].
    apply andb_true_iff in Eb as [_ Eb]. apply runs_still. unfold still.
    rewrite <- (put_mpm_self m v (wd c)) at 1 by done. apply runs_bind, runs_upd_mpm; [done|].
    by apply (runs_work c v _ false).
  - destruct (live p (wd c)) as [u|] eqn:Hp; [|by apply runs_no_event].
    destruct (_ && _) eqn:Eb; [|by apply runs_no_event].
    apply andb_true_iff in Eb as [Eu Ew%negb_true_iff]. eapply runs_still, inv_destroy; try done.
    by apply nobody_spec.
Qed.

Lemma inv_events evs c : inv m k kw c → runs (run_events m evs) c (λ _ c', inv m k kw c').
Proof using.
  intros Hc. unfold run_events.
  eapply runs_mono; [apply (runs_for_each _ _ (λ _ c', inv m k kw c') c Hc)|done].
  intros ev _ c' Hc'. by apply inv_event.
Qed.
End Preservation.
End WithClock.
