(* ===== verification/PowerProps.v ===== *)
(** * What holds of the power manager

    A system of one manager and its sources, from its creation on: the count of
    the manager is the number of sources in use, and the modem is kept awake
    while one is; and where the code fails. *)

From S2P Require Import Prelude Kernel Power PowerInv.

#[local] Open Scope Z_scope.
#[local] Open Scope c_scope.

Section WithClock.
Context `{Clock}.

(** ** A system that was created *)

Definition create_system (idle : Z) (wait request release : bool) (multis : list bool) : pm () :=
  sprd_mpm_create true true idle;;
  sprd_mpm_init_resource_ops true wait request release;;
  for_each multis (λ b, sprd_pms_create true true b;; mret ()).

Definition no_system (now : Z) : world := World None [] [] now [].

Lemma tally_free {A} (f : A → Z) x n : f x = 0 → tally f (replicate n x) = 0.
Proof using. intros E. induction n as [|n IH]; simpl; lia. Qed.

Lemma announced_free n p : announced (replicate n Free) p = 0.
Proof using. unfold announced. by rewrite !tally_free. Qed.

Lemma live_app w p x w' : pmss w' = pmss w ++ [Some x] →
  ∀ u, live p w' = Some u → live p w = Some u ∨ p = length (pmss w) ∧ u = x.
Proof using.
  intros E u. unfold live. rewrite E. destruct (decide (p < length (pmss w))%nat).
  - rewrite lookup_app_l by done. by left.
  - rewrite lookup_app_r by lia. destruct (p - length (pmss w))%nat as [|j] eqn:Ej; [|done].
    intros [= ->]. right. split; [lia|done].
Qed.

Lemma runs_pms_create n b w : g_sprd_mpm w = Some O → inv 0 0 0 (Config w (replicate n Free) 0) →
  Z.of_nat (S (length (pmss w)) + n) < 2 ^ 31 →
  runs (sprd_pms_create true true b) w (λ _ w', g_sprd_mpm w' = Some O
    ∧ length (pmss w') = S (length (pmss w)) ∧ inv 0 0 0 (Config w' (replicate n Free) 0)).
Proof using.
  intros Hg [inv_mpm0 inv_pms0 inv_tasks0 inv_raising0 inv_size0] Hn. simpl in *.
  destruct inv_mpm0 as (v & Hv & Hok & Hup & Hwk & Hlist).
  pose proof (lookup_lt_Some _ _ _ Hv) as Hm.
  apply runs_bind, runs_get. cbn [negb]. rewrite Hg. cbn [negb]. apply runs_bind, runs_modify.
  set (w1 := World _ _ (pmss w ++ _) _ _).
  apply runs_bind. rewrite <- (put_mpm_self 0 v w1) by done. apply runs_upd_mpm; [done|].
  apply runs_ret. split_and!; [done|by simpl; rewrite length_app, Nat.add_comm|].
  set (w2 := put_mpm _ _ _).
  assert (Hlive : ∀ q u, live q w2 = Some u → live q w = Some u ∨ q = length (pmss w) ∧ u = new_pms b 0)
    by (intros q u; by apply live_app).
  split; simpl.
  - exists (on_list (cons (length (pmss w))) v). rewrite list_lookup_insert_eq by done.
    rewrite length_app, Nat.add_comm. simpl. split_and!; try done.
    + by rewrite announced_free, Z.add_0_r.
    + unfold wake_total in *. simpl in *. rewrite length_app, Nat.add_comm. simpl.
      unfold wakes at 2. rewrite lookup_app_r, Nat.sub_diag by done. cbn [lookup list_lookup].
      change (wake _) with 0. rewrite Z.add_0_r.
      rewrite (total_ext _ (wakes (pmss w ++ _)) (wakes (pmss w))); [done|].
      intros q Hq. unfold wakes. by rewrite lookup_app_l.
    + intros q u [Hq|[-> ->]]%Hlive; [right; by eapply Hlist|left].
  - intros q u [Hq|[-> ->]]%Hlive; [by apply inv_pms0|]. by rewrite tally_free.
  - intros i t [-> _]%lookup_replicate. done.
  - done.
  - rewrite length_app. simpl. rewrite length_replicate in *. lia.
Qed.

Lemma runs_create_system idle wait request release multis n now :
  Z.of_nat (length multis + n) < 2 ^ 31 →
  runs (create_system idle wait request release multis) (no_system now)
    (λ _ w, inv 0 0 0 (Config w (replicate n Free) 0)).
Proof using.
  intros Hn. apply runs_bind, runs_bind, runs_get, runs_bind, runs_modify, runs_bind, runs_modify,
    runs_ret. apply runs_bind, runs_bind, runs_get. cbn [negb g_sprd_mpm].
  apply runs_bind. eapply runs_exact; [reflexivity|]. apply runs_ret. simpl.
  eapply runs_mono; [apply (runs_for_each _ _ (λ l w, g_sprd_mpm w = Some O
    ∧ inv 0 0 0 (Config w (replicate n Free) 0)
    ∧ Z.of_nat (length (pmss w) + length l + n) < 2 ^ 31))|by intros _ w (_ & ? & _)].
  - split_and!; [done| |simpl; lia]. split; simpl.
    + eexists. split_and!; [reflexivity|..]; try done.
      * split; simpl; [lia|]. by left.
      * simpl. by rewrite tally_free.
      * unfold wake_total. simpl. by rewrite tally_free.
    + done.
    + intros i t [-> _]%lookup_replicate. done.
    + intros p. rewrite tally_free; [lia|done].
    + rewrite length_replicate. lia.
  - intros b l w (Hg & Hi & Hs). apply runs_bind.
    eapply runs_mono; [apply (runs_pms_create n b w Hg Hi); simpl in Hs; lia|].
    intros _ w' (Hg' & Hl & Hi'). apply runs_ret. split_and!; [done|done|]. simpl in Hs. lia.
Qed.

(** What the invariant says. *)
Lemma inv_summary m c : inv m 0 0 c → ∃ v, mpms (wd c) !! m = Some (Some v)
  ∧ up_cnt v = total (length (pmss (wd c))) (announced (tasks c)) + tally lowering (tasks c)
  ∧ (∀ i p, tasks c !! i = Some (Using p) → tally (raising p) (tasks c) = 0 →
       mpm_state v = SPRD_MPM_BUSY ∧ expires v = 0)
  ∧ ((∀ i t, tasks c !! i = Some t → t = Free) →
       up_cnt v = 0 ∧ (mpm_state v = SPRD_MPM_IDLE ∨ timer v = Some (expires v) ∨ (0 < fired c)%nat))
  ∧ ((∀ i t, tasks c !! i = Some t → ahead t = 0) →
       (ws v = true ↔ ∃ p u, live p (wd c) = Some u ∧ awake u = true)).
Proof using.
  intros Hc. pose proof Hc as [inv_mpm0 inv_pms0 inv_tasks0 inv_raising0 inv_size0].
  destruct inv_mpm0 as (v & Hv & [H1 H2] & Hup & [Hwk Hws] & _).
  exists v. split_and!; [done|lia| | |].
  - intros i p Hi Hr. apply H1. destruct (inv_tasks0 _ _ Hi) as (u & Hu).
    pose proof (live_length _ _ _ Hu) as Hl. pose proof (lowerers_range (tasks c)).
    pose proof (tally_ge (uses p) _ _ _ (λ t, proj1 (uses_range p t)) Hi) as Hge. simpl in Hge.
    rewrite decide_True in Hge by done.
    pose proof (total_ge _ (announced (tasks c)) p
      ltac:(intros; apply announced_range, inv_raising0) Hl) as Ht.
    unfold announced at 1 in Ht. rewrite (proj2 (Z.ltb_lt 0 _)) in Ht by lia. lia.
  - intros Hfree. assert (E : tasks c = replicate (length (tasks c)) Free).
    { apply list_eq. intros i. destruct (tasks c !! i) as [t|] eqn:Et.
      - rewrite (Hfree _ _ Et). symmetry. apply lookup_replicate. split; [done|by eapply lookup_lt_Some].
      - symmetry. apply lookup_replicate_None. by apply lookup_ge_None. }
    assert (Hu0 : up_cnt v = 0).
    { rewrite Hup, E, total_0 by (intros; apply announced_free). by rewrite tally_free. }
    split; [done|]. destruct (H2 Hu0) as [[? _]|(_ & _ & ?)]; auto.
  - intros Ha. assert (tally ahead (tasks c) = 0) as E.
    { clear -Ha. induction (tasks c) as [|t ts IH]; simpl; [done|].
      rewrite IH by (intros i; apply (Ha (S i))). by rewrite (Ha 0%nat t eq_refl). }
    rewrite Hws, Z.ltb_lt. unfold wake_total. rewrite E, Z.add_0_l, Z.add_0_r. split.
    + intros (p & _ & Hp)%total_pos. unfold wakes, wake in Hp.
      destruct (pmss (wd c) !! p) as [[u|]|] eqn:Ep; [|lia..].
      exists p, u. split; [by apply live_Some|]. destruct (awake u); [done|lia].
    + intros (p & u & Hp & Hu). pose proof (live_length _ _ _ Hp) as Hl.
      pose proof (total_ge (length (pmss (wd c))) (wakes (pmss (wd c))) p) as Hge.
      rewrite (wakes_live _ _ _ Hp) in Hge. unfold wake in Hge. rewrite Hu in Hge.
      specialize (Hge ltac:(intros; apply wakes_range) Hl). lia.
Qed.

(** The exact effect of the operations on wake locks, up to the manager. *)
Lemma set_awake_id b u : awake u = b → set_awake b u = u.
Proof using. intros <-. by destruct u. Qed.

Lemma runs_awaken m p u v w (Φ : () → world → Prop) :
  (m < length (mpms w))%nat → (p < length (pmss w))%nat → data u = m →
  (∀ v', Φ () (put_pms p (set_awake true (inc_awake_cnt (pms_cancelled u))) (put_mpm m v' w))) →
  runs (sprd_pms_request_wakelock (Some p)) (put_pms p u (put_mpm m v w)) Φ.
Proof using.
  intros Hm Hp Hd HΦ. destruct (cancelled_same u) as (Hd' & _ & Hw').
  apply runs_bind, runs_pms_cancel; [done|]. apply runs_bind, runs_bind, runs_upd_pms; [done|].
  apply runs_bind, runs_pms_at; [done|]. cbn [awake inc_awake_cnt]. destruct (awake _) eqn:E.
  - apply runs_ret, runs_ret. specialize (HΦ v). by rewrite set_awake_id in HΦ.
  - apply runs_bind, runs_upd_pms; [done|]. apply runs_ret.
    cbn [data inc_awake_cnt]. rewrite Hd', Hd.
    change (put_pms p ?x (put_mpm m v w)) with (put_mpm m v (put_pms p x w)).
    apply runs_mpm_stay_awake; [done|]. apply HΦ.
Qed.

Lemma runs_relaxed m p u v w (Φ : () → world → Prop) :
  (m < length (mpms w))%nat → (p < length (pmss w))%nat → data u = m →
  (∀ v', Φ () (put_pms p (set_awake false u) (put_mpm m v' w))) →
  runs (sprd_pms_relax p) (put_pms p u (put_mpm m v w)) Φ.
Proof using.
  intros Hm Hp Hd HΦ. apply runs_bind, runs_bind, runs_pms_at; [done|].
  destruct (awake u) eqn:E.
  - apply runs_bind, runs_upd_pms; [done|]. apply runs_ret. rewrite Hd.
    change (put_pms p ?x (put_mpm m v w)) with (put_mpm m v (put_pms p x w)).
    apply runs_mpm_relax; [done|]. apply HΦ.
  - apply runs_ret, runs_ret. specialize (HΦ v). by rewrite set_awake_id in HΦ.
Qed.

(** [time_after_eq] of a time and a deadline within half the range. *)
Lemma after_deadline now d t : 1 ≤ BITS_PER_LONG → 0 < d < 2 ^ (BITS_PER_LONG - 1) →
  now ≤ t < now + 2 ^ (BITS_PER_LONG - 1) →
  negb (time_after_eq t (now + d)) = (t <? now + d).
Proof using.
  intros Hb Hd Ht. unfold time_after_eq.
  assert (E : 2 ^ BITS_PER_LONG = 2 * 2 ^ (BITS_PER_LONG - 1)).
  { rewrite <- Z.pow_succ_r by lia. f_equal. lia. }
  destruct (Z.ltb_spec t (now + d)) as [Hlt|Hge].
  - replace ((t - (now + d)) mod 2 ^ BITS_PER_LONG) with (t - (now + d) + 2 ^ BITS_PER_LONG).
    + by rewrite (proj2 (Z.ltb_ge _ _)) by lia.
    + rewrite <- (Z_mod_plus_full _ 1), Z.mod_small; lia.
  - rewrite Z.mod_small by lia. by rewrite (proj2 (Z.ltb_lt _ _)) by lia.
Qed.

(** ** The properties *)

(** C5: Tasks take and give back the sources of a manager and their wake locks,
    interleaved at every section under a lock, while the timers and the work
    items run.  They follow the rules of the header: those of a source that is
    not multitask change its counter one at a time, nobody destroys a source that
    someone has to do with, and the test and change of a source's [awake] is one
    step.  Then no operation fails; the manager's count is the number of sources
    in use whose first user is through plus the pending decrements; a task that
    uses a source, when no task is still raising it, finds the modem busy and the
    idle timer off; when all tasks are free the count is 0 and the modem is
    idle, or its timer runs or has just fired; and when no task is between its
    change of [awake] and the manager, the wake-up source is active exactly when
    some power source is awake. *)
Theorem power_manager_invariant idle wait request release multis n now evs :
  Z.of_nat (length multis + n) < 2 ^ 31 →
  runs (create_system idle wait request release multis) (no_system now) (λ _ w,
    runs (run_events 0 evs) (Config w (replicate n Free) 0) (λ _ c,
      ∃ v, mpms (wd c) !! 0%nat = Some (Some v)
      ∧ up_cnt v = total (length (pmss (wd c))) (announced (tasks c)) + tally lowering (tasks c)
      ∧ (∀ i p, tasks c !! i = Some (Using p) → tally (raising p) (tasks c) = 0 →
           mpm_state v = SPRD_MPM_BUSY ∧ expires v = 0)
      ∧ ((∀ i t, tasks c !! i = Some t → t = Free) →
           up_cnt v = 0
           ∧ (mpm_state v = SPRD_MPM_IDLE ∨ timer v = Some (expires v) ∨ (0 < fired c)%nat))
      ∧ ((∀ i t, tasks c !! i = Some t → ahead t = 0) →
           (ws v = true ↔ ∃ p u, live p (wd c) = Some u ∧ awake u = true)))).
Proof using.
  intros Hn. eapply runs_mono; [by apply (runs_create_system idle wait request release multis n now)|].
  intros [] w Hw. eapply runs_mono; [by apply (inv_events 0 0 0)|].
  intros [] c Hc. by apply inv_summary.
Qed.

(** A source that is destroyed while a task uses it stays counted: whatever
    happens afterwards, the modem is never idle again. *)
Theorem destroy_leaks_power m k kw c i p u v evs :
  inv m k kw c → mpms (wd c) !! m = Some (Some v) → live p (wd c) = Some u → awake u = false →
  tasks c !! i = Some (Using p) →
  (∀ j t, j ≠ i → tasks c !! j = Some t → refers p t = false) →
  k + 1 + kw + Z.of_nat (length (pmss (wd c)) + length (tasks c)) < 2 ^ 31 →
  runs (sprd_pms_destroy (Some p)) (wd c) (λ _ w,
    runs (run_events m evs) (Config w (<[i := Free]> (tasks c)) (fired c)) (λ _ c',
      ∃ v', mpms (wd c') !! m = Some (Some v') ∧ 1 ≤ up_cnt v' ∧ mpm_state v' = SPRD_MPM_BUSY)).
Proof using.
  intros Hc Hv Hp Hw Hi Hu Hs. eapply runs_destroy; [done..|].
  pose proof (inv_destroy_used m k kw c p u Hc Hp i v Hv Hw Hi Hu Hs) as Hc'.
  eapply runs_mono; [by apply (inv_events m (k + 1) kw)|].
  intros [] c' [inv_mpm0 inv_pms0 inv_tasks0 inv_raising0 inv_size0]. destruct inv_mpm0 as (v' & Hv' & [H1 _] & Hup & _). exists v'.
  pose proof (inv_size _ _ _ _ Hc) as (? & _ & _).
  pose proof (total_bounds (length (pmss (wd c'))) (announced (tasks c'))
    ltac:(intros; by apply announced_range)) as Ht.
  pose proof (lowerers_range (tasks c')).
  assert (1 ≤ up_cnt v') by lia. split_and!; [done|done|]. by destruct H1; [lia|].
Qed.

(** A wake lock for a period: the source is awake, and its timer's handler,
    run at any time before the counter of jiffies has come half around, lets it
    go exactly when the period is over. *)
Theorem wakelock_period_spec m k kw c p u msec t :
  inv m k kw c → live p (wd c) = Some u →
  1 ≤ BITS_PER_LONG → 0 < msecs_to_jiffies msec < 2 ^ (BITS_PER_LONG - 1) →
  let now := jiffies (wd c) in
  0 ≤ now → now + msecs_to_jiffies msec < 2 ^ BITS_PER_LONG →
  now ≤ t < now + 2 ^ (BITS_PER_LONG - 1) →
  runs (sprd_pms_request_wakelock_period (Some p) msec) (wd c) (λ _ w,
    (∃ u', live p w = Some u' ∧ awake u' = true)
    ∧ runs (sprd_pms_relax_wakelock_timer p)
        (World (g_sprd_mpm w) (mpms w) (pmss w) t (calls w)) (λ _ w',
        ∃ u', live p w' = Some u' ∧ awake u' = (t <? now + msecs_to_jiffies msec))).
Proof using.
  intros Hc Hp Hb Hms now Hnow Hend Ht. destruct (inv_mpm _ _ _ _ Hc) as (v & Hv & _).
  pose proof (live_length _ _ _ Hp) as Hl. pose proof (lookup_lt_Some _ _ _ Hv) as Hm.
  destruct (inv_pms _ _ _ _ Hc _ _ Hp) as [Hd _]. destruct (cancelled_same u) as (Hd' & _).
  assert (Hdl : deadline now msec = now + msecs_to_jiffies msec).
  { unfold deadline. cbv zeta. rewrite Z.mod_small by lia. by destruct (Z.eqb_spec (now + msecs_to_jiffies msec) 0); [lia|]. }
  rewrite <- (put_pms_self p u (wd c)) at 1 by done.
  rewrite <- (put_mpm_self m v (wd c)) at 1 by done.
  apply runs_bind, runs_awaken; [done..|]. intros v'. apply runs_bind, runs_get.
  cbn [jiffies put_pms put_mpm]. fold now. rewrite Hdl. apply runs_upd_pms; [done|].
  split.
  { eexists. rewrite live_put, decide_True by done. by split. }
  set (u2 := set_wake_timer _ _ _). set (w2 := put_mpm m v' (wd c)).
  change (World _ _ _ t _) with (put_pms p u2 (World (g_sprd_mpm w2) (mpms w2) (pmss w2) t (calls w2))).
  set (w3 := World _ _ _ t _).
  assert (Hv3 : mpms w3 !! m = Some (Some v')) by (simpl; by rewrite list_lookup_insert_eq).
  rewrite <- (put_mpm_self m v' w3) by done.
  apply runs_bind, runs_bind, runs_get, runs_bind, runs_pms_at; [done|].
  cbn [pms_expires set_wake_timer u2 jiffies put_pms put_mpm w3].
  rewrite (proj2 (Z.eqb_neq _ _)) by lia. cbn [negb andb].
  rewrite <- (after_deadline now _ t) by done. destruct (time_after_eq _ _); cbn [negb].
  - apply runs_bind, runs_upd_pms; [done|]. apply runs_ret. apply runs_relaxed; [by simpl; rewrite length_insert|done| |].
    { simpl. congruence. }
    intros v''. eexists. by rewrite live_put, decide_True by done.
  - apply runs_ret, runs_ret. eexists. by rewrite live_put, decide_True by done.
Qed.

(** Two callers of [sprd_pms_relax] on one source, the user and the handler of the
    source's timer for example: both test [awake] before either clears it. *)
Definition two_relaxes (p : nat) : pm () :=
  v1 ← pms_at p; v2 ← pms_at p;
  (if awake v1 then upd_pms p (set_awake false);; sprd_mpm_relax (data v1) else mret ());;
  (if awake v2 then upd_pms p (set_awake false);; sprd_mpm_relax (data v2) else mret ()).

(** The manager gives back two wake locks: the system may suspend while another
    source is awake. *)
Theorem overlapping_relaxes m k kw c p u q u' v :
  inv m k kw c → mpms (wd c) !! m = Some (Some v) → wakelock_cnt v = 2 →
  live p (wd c) = Some u → awake u = true → q ≠ p → live q (wd c) = Some u' → awake u' = true →
  runs (two_relaxes p) (wd c) (λ _ w',
    (∃ v', mpms w' !! m = Some (Some v') ∧ wakelock_cnt v' = 0 ∧ ws v' = false)
    ∧ live q w' = Some u').
Proof using.
  intros Hc Hv H2 Hp Ha Hne Hq Ha'.
  pose proof (live_length _ _ _ Hp) as Hl. pose proof (lookup_lt_Some _ _ _ Hv) as Hm.
  destruct (inv_pms _ _ _ _ Hc _ _ Hp) as [Hd _].
  rewrite <- (put_pms_self p u (wd c)) at 1 by done. rewrite <- (put_mpm_self m v (wd c)) at 1 by done.
  apply runs_bind, runs_pms_at; [done|]. apply runs_bind, runs_pms_at; [done|].
  rewrite Ha, Hd. apply runs_bind, runs_bind, runs_upd_pms; [done|].
  change (put_pms p ?x (put_mpm m v (wd c))) with (put_mpm m v (put_pms p x (wd c))).
  apply runs_mpm_relax; [done|].
  change (put_mpm m ?y (put_pms p ?x (wd c))) with (put_pms p x (put_mpm m y (wd c))).
  apply runs_bind, runs_upd_pms; [done|].
  change (put_pms p ?x (put_mpm m ?y (wd c))) with (put_mpm m y (put_pms p x (wd c))).
  apply runs_mpm_relax; [done|]. split.
  - eexists. simpl. rewrite list_lookup_insert_eq by done.
    unfold after_relax. cbv zeta. simpl. by rewrite H2.
  - unfold live in *. simpl. by rewrite list_lookup_insert_ne.
Qed.

(** The events of a task that takes and gives back source [p]. *)
Definition short_use (i p : nat) : list event :=
  [Begin_up i p; Continue i; Begin_down i false; Continue i].

Lemma nobody_moving p ts i : (∀ j t, ts !! j = Some t → t = Free) →
  nobody (moving p) ts = true ∧ nobody (moving p) (<[i := Using p]> ts) = true.
Proof using.
  revert i. induction ts as [|t ts IH]; intros i Hf; [done|].
  rewrite (Hf 0%nat t eq_refl). destruct (IH (pred i) (λ j, Hf (S j))) as [H1 H2].
  by destruct i.
Qed.

(** The handler of the idle timer does not look at the time.  When it is
    about to run while a task uses a source for a moment, the timer that was
    started anew counts as the one that has fired: the modem becomes idle at
    once, and not [later_idle] milliseconds after the last use. *)
Theorem deactive_timer_runs_early m kw c i p u v n :
  inv m 0 kw c → mpms (wd c) !! m = Some (Some v) → live p (wd c) = Some u →
  (∀ j t, tasks c !! j = Some t → t = Free) → tasks c !! i = Some Free →
  later_idle v ≠ 0 → mpm_state v = SPRD_MPM_BUSY → fired c = S n →
  runs (run_events m (short_use i p ++ [Handler])) c (λ _ c',
    jiffies (wd c') = jiffies (wd c)
    ∧ ∃ v', mpms (wd c') !! m = Some (Some v') ∧ mpm_state v' = SPRD_MPM_IDLE).
Proof using.
  intros Hc Hv Hp Hfree Hi Hlater Hbusy Hf.
  pose proof (live_length _ _ _ Hp) as Hl. pose proof (lookup_lt_Some _ _ _ Hv) as Hm.
  pose proof (lookup_lt_Some _ _ _ Hi) as Hil.
  destruct (inv_pms _ _ _ _ Hc _ _ Hp) as [Hd Ha].
  assert (E : tasks c = replicate (length (tasks c)) Free).
  { apply list_eq. intros j. destruct (tasks c !! j) as [t|] eqn:Et.
    - rewrite (Hfree _ _ Et). symmetry. apply lookup_replicate. split; [done|by eapply lookup_lt_Some].
    - symmetry. apply lookup_replicate_None. by apply lookup_ge_None. }
  rewrite E, tally_free in Ha by done.
  assert (Hup : up_cnt v = 0).
  { destruct (inv_mpm _ _ _ _ Hc) as (v0 & Hv0 & _ & Hup & _). rewrite Hv in Hv0. injection Hv0 as <-.
    rewrite Hup, E, total_0 by (intros; apply announced_free). by rewrite tally_free. }
  destruct (nobody_moving p _ i Hfree) as [Hmay Hmay'].
  destruct c as [w ts f]. simpl in *. subst f. clear E Hc Hfree.
  apply runs_bind, runs_bind, runs_get. cbn [tasks wd]. rewrite Hi, Hp, Hmay, orb_true_r.
  apply runs_bind, runs_on_world. cbn [wd tasks fired].
  rewrite <- (put_pms_self p u w Hp) at 1. rewrite <- (put_mpm_self m v w Hv) at 1.
  apply runs_pms_up; [done|]. rewrite Ha, Hd. change (u32 (0 + 1)) with 1. apply runs_modify.
  apply runs_bind, runs_bind, runs_get. cbn [tasks wd fired].
  rewrite list_lookup_insert_eq by done. apply runs_bind, runs_on_world. cbn [wd tasks fired].
  change (put_pms p ?x (put_mpm m v w)) with (put_mpm m v (put_pms p x w)).
  apply runs_mpm_up; [done|]. apply runs_modify.
  apply runs_bind, runs_bind, runs_get. cbn [tasks wd fired].
  rewrite list_insert_insert_eq, list_lookup_insert_eq by done.
  change (put_mpm m ?y (put_pms p ?x w)) with (put_pms p x (put_mpm m y w)).
  rewrite live_put, decide_True, Hmay', orb_true_r by done.
  apply runs_bind, runs_on_world. cbn [wd tasks fired].
  apply runs_pms_down; [done|done|]. change (u32 (_ - 1)) with 0. rewrite Z.eqb_refl.
  cbn [data set_active_cnt]. rewrite Hd. apply runs_modify.
  apply runs_bind, runs_bind, runs_get. cbn [tasks wd fired].
  rewrite list_insert_insert_eq, list_lookup_insert_eq by done.
  apply runs_bind, runs_on_world. cbn [wd tasks fired].
  change (put_pms p ?x (put_mpm m ?y w)) with (put_mpm m y (put_pms p x w)).
  apply runs_mpm_down; [done|]. apply runs_modify.
  apply runs_bind, runs_bind, runs_get. cbn [tasks wd fired].
  apply runs_bind, runs_on_world. cbn [wd tasks fired].
  apply runs_handler; [done|]. apply runs_modify, runs_ret. split; [done|].
  eexists. split; [simpl; by rewrite list_lookup_insert_eq|].
  assert (Hup1 : after_up v = set_up_cnt 1 (after_cancel v)).
  { unfold after_up. cbv zeta.
    assert (up_cnt (after_cancel v) = 0) as -> by (by unfold after_cancel; destruct (_ =? _)).
    assert (mpm_state (set_up_cnt (u32 (0 + 1)) (after_cancel v)) = SPRD_MPM_BUSY) as ->
      by (by unfold after_cancel; destruct (_ =? _)). done. }
  assert (Hl1 : later_idle (after_cancel v) = later_idle v) by (by unfold after_cancel; destruct (_ =? _)).
  rewrite Hup1. unfold after_handler, after_down. cbv zeta. simpl. rewrite Hl1.
  rewrite (proj2 (Z.eqb_neq _ _) Hlater). simpl.
  assert (deadline (jiffies w) (later_idle v) ≠ 0) as Hdl.
  { unfold deadline. cbv zeta. by destruct (Z.eqb_spec ((jiffies w + msecs_to_jiffies (later_idle v))
      mod 2 ^ BITS_PER_LONG) 0). }
  rewrite (proj2 (Z.eqb_neq _ _) Hdl). unfold after_deactive. cbv zeta. by destruct (release_op _).
Qed.
End WithClock.

(** ** A concrete system

    Two sources, two tasks, jiffies of a millisecond, and two milliseconds until
    the modem is idle. *)

#[local] Instance some_clock : Clock := {| BITS_PER_LONG := 32; msecs_to_jiffies := λ ms, ms |}.

Definition some_system (evs : list event) : config :=
  match create_system 2 true true true [true; false] (no_system 100) with
  | Done (_, w) =>
    match run_events 0 evs (Config w [Free; Free] 0) with
    | Done (_, c) => c
    | _ => Config w [] 0
    end
  | _ => Config (no_system 0) [] 0
  end.

Lemma some_system_inv evs : inv 0 0 0 (some_system evs).
Proof.
  destruct (runs_create_system 2 true true true [true; false] 2 100 ltac:(done)) as (a & w & E & Hw).
  destruct (inv_events 0 0 0 evs _ Hw) as (a' & c & E' & Hc).
  unfold some_system. rewrite E. simpl in E'. by rewrite E'.
Qed.

(** Both tasks use the first source and give it back; the timer runs out; then one
    takes the wake lock of the second source, and the other releases it before
    the first has told the manager. *)
Definition some_events : list event :=
  [Begin_up 0 0; Begin_up 1 0; Continue 1; Continue 0; Request_work;
   Begin_down 0 false; Continue 0; Begin_down 1 false; Continue 1; Tick; Tick; Expire; Handler;
   Release_work; Wakelock 0 1; Continue 0; Relax 1 1; Continue 1; Continue 1; Continue 0;
   Destroy 0].

Example some_system_run :
  let c := some_system some_events in
  calls (wd c) = [false; true] ∧ tasks c = [Free; Free] ∧ live 0 (wd c) = None.
Proof. vm_compute. done. Qed.

Lemma power_manager_invariant_witness :
  runs (create_system 2 true true true [true; false]) (no_system 100) (λ _ w,
    runs (run_events 0 some_events) (Config w [Free; Free] 0) (λ _ c,
      ∃ v, mpms (wd c) !! 0%nat = Some (Some v) ∧ up_cnt v = 0)).
Proof.
  destruct (power_manager_invariant 2 true true true [true; false] 2 100 some_events
    ltac:(done)) as (a & w & E & a' & c & E' & v & Hv & Hup & _ & Hfree & _).
  exists a, w. split; [done|]. exists a', c. split; [exact E'|]. exists v. split; [done|].
  apply Hfree. vm_compute in E. injection E as <- <-. vm_compute in E'. injection E' as <- <-.
  intros [|[|i]] t [= <-]; done.
Defined.

Lemma overlapping_relaxes_witness :
  let c := some_system [Wakelock 0 0; Continue 0; Continue 0; Wakelock 0 1; Continue 0; Continue 0] in
  runs (two_relaxes 0) (wd c) (λ _ w', (∃ v', mpms w' !! 0%nat = Some (Some v') ∧ ws v' = false)
    ∧ ∃ u, live 1 w' = Some u ∧ awake u = true).
Proof.
  intros c. eapply runs_mono; [eapply (overlapping_relaxes 0 0 0 c 0 _ 1 _ _ (some_system_inv _));
    vm_compute; try reflexivity; done|].
  intros [] w' [(v' & Hv & _ & Hws) Hl]. split; [by exists v'|]. eexists. by split; [exact Hl|].
Defined.

Lemma destroy_leaks_power_witness :
  let c := some_system [Begin_up 0 0; Continue 0] in
  runs (sprd_pms_destroy (Some 0%nat)) (wd c) (λ _ w,
    runs (run_events 0 [Tick; Expire; Handler]) (Config w (<[0%nat := Free]> (tasks c)) (fired c))
      (λ _ c', ∃ v', mpms (wd c') !! 0%nat = Some (Some v') ∧ 1 ≤ up_cnt v'
                     ∧ mpm_state v' = SPRD_MPM_BUSY)).
Proof.
  intros c.
  refine (destroy_leaks_power 0 0 0 c 0 0 _ _ _ (some_system_inv _) _ _ _ _ _ _);
    try (vm_compute; reflexivity).
  intros [|[|j]] t Hj; vm_compute; [done|by intros [= <-]|done].
Defined.

Lemma wakelock_period_spec_witness :
  let c := some_system [] in
  runs (sprd_pms_request_wakelock_period (Some 1%nat) 500) (wd c) (λ _ w,
    runs (sprd_pms_relax_wakelock_timer 1)
      (World (g_sprd_mpm w) (mpms w) (pmss w) 600 (calls w)) (λ _ w',
      ∃ u', live 1 w' = Some u' ∧ awake u' = false)).
Proof.
  intros c.
  eapply runs_mono; [eapply (wakelock_period_spec 0 0 0 c 1 _ 500 600 (some_system_inv _));
    vm_compute; try reflexivity; intuition congruence|]. by intros [] w [_ H].
Defined.

Lemma deactive_timer_runs_early_witness :
  let c := some_system (short_use 0 0 ++ [Tick; Tick; Expire]) in
  runs (run_events 0 (short_use 1 1 ++ [Handler])) c (λ _ c',
    jiffies (wd c') = jiffies (wd c)
    ∧ ∃ v', mpms (wd c') !! 0%nat = Some (Some v') ∧ mpm_state v' = SPRD_MPM_IDLE).
Proof.
  intros c.
  refine (deactive_timer_runs_early 0 0 c 1 1 _ _ 0 (some_system_inv _) _ _ _ _ _ _ _);
    try (vm_compute; reflexivity); [|done].
  intros [|[|j]] t; vm_compute; congruence.
Defined.

(** A wake lock that is requested after the handler of the source's timer has seen
    that its time has come, and before it relaxes, is lost: [awake] is still
    set, the request changes nothing, and the handler clears it. *)
Example request_lost_to_timer :
  let c := some_system [Wakelock 0 1; Continue 0; Continue 0; Relax_later 1 2; Tick; Tick;
    Wake_timer 0 1; Wakelock 1 1; Continue 1; Continue 0; Continue 0] in
  tasks c = [Free; Free] ∧ awake <$> live 1 (wd c) = Some false.
Proof. vm_compute. done. Qed.
