(* ===== verification/Mhi.v ===== *)
(** * The Modem Host Interface: data, rings and doorbells

    Model of [src/drivers/quectel-mhi-pcie/src/core/]: the data of
    [mhi_internal.h] and [mhi.h], and the lower half of [mhi_main.c]: register
    access, doorbells and the rings that host and device share.

    Addresses are 64-bit integers.  A ring holds its elements in [mem]; an
    access through a pointer that is not the address of an element is
    [OutOfBounds].  The device's registers show the values of [readl], which
    only the device changes; what the host writes, and the calls of functions
    outside the core, are recorded in [trace], latest first. *)

From S2P Require Import Prelude Kernel.

#[local] Open Scope Z_scope.
#[local] Open Scope c_scope.

Definition u64 (x : Z) : Z := x mod 2 ^ 64.
Definition EOVERFLOW : Z := 75.
Definition ENOTCONN : Z := 107.
Definition U32_MAX : Z := 2 ^ 32 - 1.

(** ** Ring elements *)

(** [struct mhi_tre]. *)
Record mhi_tre := MhiTre { ptr : Z; dword0 : Z; dword1 : Z }.

Definition MHI_MAX_MTU : Z := 0xffff.
Definition MHI_TRE_DATA_DWORD0 (len : Z) : Z := u32 (len &' MHI_MAX_MTU).
Definition MHI_TRE_DATA_DWORD1 (bei ieot ieob chain : bool) : Z :=
  Z.shiftl 2 16 |' Z.shiftl (Z.b2z bei) 10 |' Z.shiftl (Z.b2z ieot) 9
    |' Z.shiftl (Z.b2z ieob) 8 |' Z.b2z chain.

Definition MHI_PKT_TYPE_COALESCING : Z := 0x8.
Definition MHI_RSCTRE_DATA_PTR (ptr len : Z) : Z := u64 (Z.shiftl len 48) |' ptr.
Definition MHI_RSCTRE_DATA_DWORD0 (cookie : Z) : Z := u32 cookie.
Definition MHI_RSCTRE_DATA_DWORD1 : Z := Z.shiftl MHI_PKT_TYPE_COALESCING 16.

Definition MHI_CMD_TYPE_RESET : Z := 16.
Definition MHI_CMD_TYPE_START : Z := 18.
Definition MHI_CMD_TYPE_TSYNC : Z := 24.
Definition MHI_TRE_CMD_RESET_DWORD1 (chid : Z) : Z :=
  u32 (Z.shiftl chid 24 |' Z.shiftl MHI_CMD_TYPE_RESET 16).
Definition MHI_TRE_CMD_START_DWORD1 (chid : Z) : Z :=
  u32 (Z.shiftl chid 24 |' Z.shiftl MHI_CMD_TYPE_START 16).
Definition MHI_TRE_GET_CMD_CHID (t : mhi_tre) : Z := Z.shiftr (dword1 t) 24 &' 0xFF.
Definition MHI_TRE_GET_CMD_TYPE (t : mhi_tre) : Z := Z.shiftr (dword1 t) 16 &' 0xFF.

Definition MHI_PKT_TYPE_STATE_CHANGE_EVENT : Z := 0x20.
Definition MHI_PKT_TYPE_CMD_COMPLETION_EVENT : Z := 0x21.
Definition MHI_PKT_TYPE_TX_EVENT : Z := 0x22.
Definition MHI_PKT_TYPE_RSC_TX_EVENT : Z := 0x28.
Definition MHI_PKT_TYPE_EE_EVENT : Z := 0x40.
Definition MHI_PKT_TYPE_STALE_EVENT : Z := 0x49.

Definition MHI_TRE_EV_DWORD1 (chid type : Z) : Z := u32 (Z.shiftl chid 24 |' Z.shiftl type 16).
Definition MHI_TRE_GET_EV_PTR (t : mhi_tre) : Z := ptr t.
Definition MHI_TRE_GET_EV_CODE (t : mhi_tre) : Z := Z.shiftr (dword0 t) 24 &' 0xFF.
Definition MHI_TRE_GET_EV_LEN (t : mhi_tre) : Z := dword0 t &' 0xFFFF.
Definition MHI_TRE_GET_EV_CHID (t : mhi_tre) : Z := Z.shiftr (dword1 t) 24 &' 0xFF.
Definition MHI_TRE_GET_EV_TYPE (t : mhi_tre) : Z := Z.shiftr (dword1 t) 16 &' 0xFF.
Definition MHI_TRE_GET_EV_STATE (t : mhi_tre) : Z := Z.shiftr (dword0 t) 24 &' 0xFF.
Definition MHI_TRE_GET_EV_EXECENV (t : mhi_tre) : Z := Z.shiftr (dword0 t) 24 &' 0xFF.
Definition MHI_TRE_GET_EV_COOKIE (t : mhi_tre) : Z := u32 (ptr t).

(** [struct mhi_buf_info]; [to_device]: the direction [DMA_TO_DEVICE], the other
    one is [DMA_FROM_DEVICE]. *)
Record mhi_buf_info := MhiBufInfo {
  p_addr : Z; v_addr : Z; buf_wp : Z; buf_len : Z; cb_buf : Z;
  used : bool; pre_mapped : bool; buf_to_device : bool;
}.

(** [struct mhi_result]. *)
Record mhi_result := MhiResult {
  buf_addr : Z; result_to_device : bool; bytes_xferd : Z; transaction_status : Z;
}.

(** ** Rings *)

(** [struct mhi_ring]; [ctxt_wp] is the value it points at, in the context that
    the device reads. *)
Record mhi_ring (A : Type) := MhiRing {
  iommu_base : Z; ctxt_wp : Z;
  base : Z; rp : Z; wp : Z;
  el_size : Z; len : Z; elements : Z;
  db_addr : Z;
  mem : list A;
}.
Arguments MhiRing {A}.
Arguments iommu_base {A}. Arguments ctxt_wp {A}. Arguments base {A}. Arguments rp {A}.
Arguments wp {A}. Arguments el_size {A}. Arguments len {A}. Arguments elements {A}.
Arguments db_addr {A}. Arguments mem {A}.

Section Rings.
Context {A : Type}.
Implicit Types r : mhi_ring A.

Definition set_rp (p : Z) r : mhi_ring A :=
  MhiRing (iommu_base r) (ctxt_wp r) (base r) p (wp r) (el_size r) (len r) (elements r)
    (db_addr r) (mem r).
Definition set_wp (p : Z) r : mhi_ring A :=
  MhiRing (iommu_base r) (ctxt_wp r) (base r) (rp r) p (el_size r) (len r) (elements r)
    (db_addr r) (mem r).
Definition set_ctxt_wp (p : Z) r : mhi_ring A :=
  MhiRing (iommu_base r) p (base r) (rp r) (wp r) (el_size r) (len r) (elements r)
    (db_addr r) (mem r).
Definition set_mem (l : list A) r : mhi_ring A :=
  MhiRing (iommu_base r) (ctxt_wp r) (base r) (rp r) (wp r) (el_size r) (len r) (elements r)
    (db_addr r) l.

(** The index of the element that [p] points at. *)
Definition slot r (p : Z) : option nat :=
  let off := p - base r in
  if (0 <=? off) && (off <? len r) && (off mod el_size r =? 0)
  then Some (Z.to_nat (off / el_size r)) else None.

(** [*p], and [*p = x]. *)
Definition load r (p : Z) : outcome A :=
  match slot r p ≫= λ i, mem r !! i with Some x => Done x | None => OutOfBounds end.
Definition store r (p : Z) (x : A) : outcome (mhi_ring A) :=
  match slot r p with
  | Some i => if decide (i < length (mem r))%nat then Done (set_mem (<[i := x]> (mem r)) r)
              else OutOfBounds
  | None => OutOfBounds
  end.

Definition mhi_add_ring_element r : mhi_ring A :=
  let p := wp r + el_size r in set_wp (if base r + len r <=? p then base r else p) r.

Definition mhi_del_ring_element r : mhi_ring A :=
  let p := rp r + el_size r in set_rp (if base r + len r <=? p then base r else p) r.

Definition get_nr_avail_ring_elements r : Z :=
  if wp r <? rp r then s32 (u64 (rp r - wp r) / el_size r - 1)
  else
    let nr_el := s32 (u64 (rp r - base r) / el_size r) in
    s32 (nr_el + (u64 (base r + len r - wp r) / el_size r - 1)).

Definition mhi_to_virtual r (addr : Z) : Z := u64 (addr - iommu_base r + base r).
Definition mhi_to_physical r (addr : Z) : Z := u64 (addr - base r + iommu_base r).

Definition mhi_recycle_ev_ring_element r : mhi_ring A :=
  let r := mhi_add_ring_element r in
  let r := set_ctxt_wp (u64 (iommu_base r + (wp r - base r))) r in
  mhi_del_ring_element r.

Definition mhi_is_ring_full r : bool :=
  let tmp := wp r + el_size r in
  let tmp := if base r + len r <=? tmp then base r else tmp in
  tmp =? rp r.
End Rings.

(** [sizeof(struct mhi_tre)]. *)
Definition SIZEOF_TRE : Z := 16.

Definition get_used_ring_elements (rp wp el_num : Z) : Z :=
  if rp <=? wp then u32 (u64 (wp - rp) / SIZEOF_TRE)
  else let nr_el := u32 (u64 (rp - wp) / SIZEOF_TRE) in u32 (el_num - nr_el).

(** ** Channels, event rings, the controller *)

Definition MHI_BRSTMODE_ENABLE : Z := 3.

(** [struct db_cfg]; [process_db] follows from [brstmode]. *)
Record db_cfg := DbCfg { reset_req : bool; db_mode : bool; brstmode : Z; db_val : Z }.

Definition MHI_CH_STATE_DISABLED : Z := 0.
Definition MHI_CH_STATE_ENABLED : Z := 1.

(** [struct mhi_chan]; [rsc_dma]: [xfer_type] is [MHI_XFER_RSC_DMA]. *)
Record mhi_chan := MhiChan {
  chan : Z; to_device : bool; er_index : nat; ee_mask : Z;
  tre_ring : mhi_ring mhi_tre; buf_ring : mhi_ring mhi_buf_info;
  used_elements : Z;
  intmod : Z; chan_db : db_cfg;
  rsc_dma : bool; offload_ch : bool; pre_alloc : bool;
  ch_state : Z; ccs : Z;
}.

(** [struct mhi_event] with the read pointer of its context, [er_ctxt->rp]. *)
Record mhi_event := MhiEvent {
  ev_ring : mhi_ring mhi_tre; ctxt_rp : Z; ev_db : db_cfg;
  ev_used_elements : Z; hw_ring : bool; offload_ev : bool;
}.

(** What the code does outside: register writes (with the power state they are
    made in), the callbacks of controller and clients, wake-ups, work items, and
    buffers given back. *)
Inductive output :=
| Writel (pm addr val : Z)
| Runtime_get | Runtime_put
| Wake_up | Status_cb (reason : Z)
| Schedule_syserr | Queue_transition (state : Z)
| Unmap (b : mhi_buf_info) | Kfree (buf : Z)
| Xfer_cb (c : Z) (res : mhi_result)
| Complete (c : Z) | Complete_tsync (code : Z).

(** [struct mhi_controller].  [regs], [bhi], [wake_db]: addresses of registers.
    [link_down]: the result of [link_status]; [dma]: the results of the next
    mappings, [None] for a failure. *)
Record mhi_controller := MhiController {
  pm_state : Z; dev_state : Z; ee : Z;
  dev_wake : Z; pending_pkts : Z;
  M0 : Z; M2 : Z; M3 : Z;
  regs : Z; bhi : Z; wake_db : Z;
  chans : list mhi_chan; events : list mhi_event; cmd : mhi_ring mhi_tre;
  buffer_len : Z;
  readl : Z → Z; link_down : bool; dma : list (option Z);
  trace : list output;
}.

Abbreviation mhi := (stm mhi_controller).

Section Setters.
Implicit Types m : mhi_controller.
Definition set_pm (s : Z) m := MhiController s (dev_state m) (ee m) (dev_wake m) (pending_pkts m)
  (M0 m) (M2 m) (M3 m) (regs m) (bhi m) (wake_db m) (chans m) (events m) (cmd m) (buffer_len m)
  (readl m) (link_down m) (dma m) (trace m).
Definition set_dev_state (s : Z) m := MhiController (pm_state m) s (ee m) (dev_wake m)
  (pending_pkts m) (M0 m) (M2 m) (M3 m) (regs m) (bhi m) (wake_db m) (chans m) (events m) (cmd m)
  (buffer_len m) (readl m) (link_down m) (dma m) (trace m).
Definition set_ee (e : Z) m := MhiController (pm_state m) (dev_state m) e (dev_wake m)
  (pending_pkts m) (M0 m) (M2 m) (M3 m) (regs m) (bhi m) (wake_db m) (chans m) (events m) (cmd m)
  (buffer_len m) (readl m) (link_down m) (dma m) (trace m).
Definition set_pending (n : Z) m := MhiController (pm_state m) (dev_state m) (ee m) (dev_wake m) n
  (M0 m) (M2 m) (M3 m) (regs m) (bhi m) (wake_db m) (chans m) (events m) (cmd m) (buffer_len m)
  (readl m) (link_down m) (dma m) (trace m).
Definition set_counts (a b c : Z) m := MhiController (pm_state m) (dev_state m) (ee m) (dev_wake m)
  (pending_pkts m) a b c (regs m) (bhi m) (wake_db m) (chans m) (events m) (cmd m) (buffer_len m)
  (readl m) (link_down m) (dma m) (trace m).
Definition set_chans (l : list mhi_chan) m := MhiController (pm_state m) (dev_state m) (ee m)
  (dev_wake m) (pending_pkts m) (M0 m) (M2 m) (M3 m) (regs m) (bhi m) (wake_db m) l (events m)
  (cmd m) (buffer_len m) (readl m) (link_down m) (dma m) (trace m).
Definition set_events (l : list mhi_event) m := MhiController (pm_state m) (dev_state m) (ee m)
  (dev_wake m) (pending_pkts m) (M0 m) (M2 m) (M3 m) (regs m) (bhi m) (wake_db m) (chans m) l
  (cmd m) (buffer_len m) (readl m) (link_down m) (dma m) (trace m).
Definition set_cmd (r : mhi_ring mhi_tre) m := MhiController (pm_state m) (dev_state m) (ee m)
  (dev_wake m) (pending_pkts m) (M0 m) (M2 m) (M3 m) (regs m) (bhi m) (wake_db m) (chans m)
  (events m) r (buffer_len m) (readl m) (link_down m) (dma m) (trace m).
Definition set_dma (l : list (option Z)) m := MhiController (pm_state m) (dev_state m) (ee m)
  (dev_wake m) (pending_pkts m) (M0 m) (M2 m) (M3 m) (regs m) (bhi m) (wake_db m) (chans m)
  (events m) (cmd m) (buffer_len m) (readl m) (link_down m) l (trace m).
Definition set_trace (l : list output) m := MhiController (pm_state m) (dev_state m) (ee m)
  (dev_wake m) (pending_pkts m) (M0 m) (M2 m) (M3 m) (regs m) (bhi m) (wake_db m) (chans m)
  (events m) (cmd m) (buffer_len m) (readl m) (link_down m) (dma m) l.
End Setters.

Definition set_tre (r : mhi_ring mhi_tre) (c : mhi_chan) : mhi_chan :=
  MhiChan (chan c) (to_device c) (er_index c) (ee_mask c) r (buf_ring c) (used_elements c) (intmod c)
    (chan_db c) (rsc_dma c) (offload_ch c) (pre_alloc c) (ch_state c) (ccs c).
Definition set_buf (r : mhi_ring mhi_buf_info) (c : mhi_chan) : mhi_chan :=
  MhiChan (chan c) (to_device c) (er_index c) (ee_mask c) (tre_ring c) r (used_elements c) (intmod c)
    (chan_db c) (rsc_dma c) (offload_ch c) (pre_alloc c) (ch_state c) (ccs c).
Definition set_used_elements (n : Z) (c : mhi_chan) : mhi_chan :=
  MhiChan (chan c) (to_device c) (er_index c) (ee_mask c) (tre_ring c) (buf_ring c) n (intmod c)
    (chan_db c) (rsc_dma c) (offload_ch c) (pre_alloc c) (ch_state c) (ccs c).
Definition set_chan_db (d : db_cfg) (c : mhi_chan) : mhi_chan :=
  MhiChan (chan c) (to_device c) (er_index c) (ee_mask c) (tre_ring c) (buf_ring c)
    (used_elements c) (intmod c) d (rsc_dma c) (offload_ch c) (pre_alloc c) (ch_state c) (ccs c).
Definition set_ch_state (s : Z) (c : mhi_chan) : mhi_chan :=
  MhiChan (chan c) (to_device c) (er_index c) (ee_mask c) (tre_ring c) (buf_ring c)
    (used_elements c) (intmod c) (chan_db c) (rsc_dma c) (offload_ch c) (pre_alloc c) s (ccs c).
Definition set_ccs (s : Z) (c : mhi_chan) : mhi_chan :=
  MhiChan (chan c) (to_device c) (er_index c) (ee_mask c) (tre_ring c) (buf_ring c)
    (used_elements c) (intmod c) (chan_db c) (rsc_dma c) (offload_ch c) (pre_alloc c) (ch_state c) s.
Definition set_ev_ring (r : mhi_ring mhi_tre) (e : mhi_event) : mhi_event :=
  MhiEvent r (ctxt_rp e) (ev_db e) (ev_used_elements e) (hw_ring e) (offload_ev e).
Definition set_ev_db (d : db_cfg) (e : mhi_event) : mhi_event :=
  MhiEvent (ev_ring e) (ctxt_rp e) d (ev_used_elements e) (hw_ring e) (offload_ev e).
Definition set_ev_used (n : Z) (e : mhi_event) : mhi_event :=
  MhiEvent (ev_ring e) (ctxt_rp e) (ev_db e) n (hw_ring e) (offload_ev e).
Definition set_db_mode (b : bool) (d : db_cfg) : db_cfg :=
  DbCfg (reset_req d) b (brstmode d) (db_val d).

(** [mhi_cntrl->mhi_chan[c]] and [mhi_cntrl->mhi_event[e]]. *)
Definition chan_at (c : nat) : mhi mhi_chan := λ m,
  match chans m !! c with Some v => Done (v, m) | None => OutOfBounds end.
Definition event_at (e : nat) : mhi mhi_event := λ m,
  match events m !! e with Some v => Done (v, m) | None => OutOfBounds end.
Definition upd_chan (c : nat) (f : mhi_chan → mhi_chan) : mhi () :=
  v ← chan_at c; modify (λ m, set_chans (<[c := f v]> (chans m)) m).
Definition upd_event (e : nat) (f : mhi_event → mhi_event) : mhi () :=
  v ← event_at e; modify (λ m, set_events (<[e := f v]> (events m)) m).
Definition out (o : output) : mhi () := modify (λ m, set_trace (o :: trace m) m).

(** ** Registers *)

Definition MHICTRL : Z := 0x38.
Definition MHICTRL_MHISTATE_MASK : Z := 0x0000FF00.
Definition MHICTRL_MHISTATE_SHIFT : Z := 8.
Definition MHICTRL_RESET_MASK : Z := 0x2.
Definition MHICTRL_RESET_SHIFT : Z := 1.
Definition MHISTATUS : Z := 0x48.
Definition MHISTATUS_MHISTATE_MASK : Z := 0x0000FF00.
Definition MHISTATUS_MHISTATE_SHIFT : Z := 8.
Definition MHISTATUS_READY_MASK : Z := 0x1.
Definition MHISTATUS_READY_SHIFT : Z := 0.
Definition BHI_EXECENV : Z := 0x28.

(** The value read, or [None] for the error [-EIO]. *)
Definition mhi_read_reg (base offset : Z) : mhi (option Z) :=
  m ← get_state;
  let tmp := u32 (readl m (base + offset)) in
  mret (if (tmp =? U32_MAX) && link_down m then None else Some tmp).

Definition mhi_read_reg_field (base offset mask shift : Z) : mhi (option Z) :=
  tmp ← mhi_read_reg base offset;
  mret ((λ tmp, Z.shiftr (tmp &' mask) shift) <$> tmp).

Definition mhi_write_reg (base offset val : Z) : mhi () :=
  m ← get_state; out (Writel (pm_state m) (base + offset) val).

Definition mhi_write_reg_field (base offset mask shift val : Z) : mhi () :=
  tmp ← mhi_read_reg base offset;
  match tmp with
  | None => mret ()
  | Some tmp =>
    let tmp := tmp &' (U32_MAX - mask) in
    mhi_write_reg base offset (tmp |' u32 (Z.shiftl val shift))
  end.

Definition mhi_write_db (db_addr wp : Z) : mhi () :=
  mhi_write_reg db_addr 4 (Z.shiftr wp 32);;
  mhi_write_reg db_addr 0 (u32 wp).

(** ** Doorbells *)

Definition mhi_db_brstmode (d : db_cfg) (db_addr wp : Z) : mhi db_cfg :=
  if db_mode d then
    mhi_write_db db_addr wp;; mret (DbCfg (reset_req d) false (brstmode d) wp)
  else mret d.

Definition mhi_db_brstmode_disable (d : db_cfg) (db_addr wp : Z) : mhi db_cfg :=
  mhi_write_db db_addr wp;; mret (DbCfg (reset_req d) (db_mode d) (brstmode d) wp).

Definition process_db (d : db_cfg) : Z → Z → mhi db_cfg :=
  if brstmode d =? MHI_BRSTMODE_ENABLE then mhi_db_brstmode d else mhi_db_brstmode_disable d.

Definition mhi_ring_er_db (e : nat) : mhi () :=
  v ← event_at e;
  d ← process_db (ev_db v) (db_addr (ev_ring v)) (ctxt_wp (ev_ring v));
  upd_event e (set_ev_db d).

Definition mhi_ring_cmd_db : mhi () :=
  m ← get_state;
  let ring := cmd m in
  let db := u64 (iommu_base ring + (wp ring - base ring)) in
  modify (set_cmd (set_ctxt_wp db ring));;
  mhi_write_db (db_addr ring) db.

Definition mhi_ring_chan_db (c : nat) : mhi () :=
  v ← chan_at c;
  let ring := tre_ring v in
  let db := u64 (iommu_base ring + (wp ring - base ring)) in
  upd_chan c (set_tre (set_ctxt_wp db ring));;
  d ← process_db (chan_db v) (db_addr ring) db;
  upd_chan c (set_chan_db d).

(** ** The device's state *)

Definition MHI_EE_MAX : Z := 9.
Definition mhi_get_exec_env : mhi Z :=
  m ← get_state; exec ← mhi_read_reg (bhi m) BHI_EXECENV; mret (default MHI_EE_MAX exec).

Definition MHI_STATE_MAX : Z := 0x100.
Definition mhi_get_mhi_state : mhi Z :=
  m ← get_state;
  state ← mhi_read_reg_field (regs m) MHISTATUS MHISTATUS_MHISTATE_MASK MHISTATUS_MHISTATE_SHIFT;
  mret (default MHI_STATE_MAX state).
