(* ===== verification/MhiPm.v ===== *)
(** * The Modem Host Interface: power states

    Model of [core/mhi_pm.c], and of the interrupt handler of [core/mhi_main.c]
    that detects errors: the table of transitions, the device's wake request,
    the handlers of the device's state changes, suspend and resume, and the two
    ends of the transition to shutdown or reset.  What other contexts do during
    a wait is a list of states. *)

From S2P Require Import Prelude Kernel Mhi.

#[local] Open Scope Z_scope.
#[local] Open Scope c_scope.

Definition ETIMEDOUT : Z := 110.

(** ** States *)

Definition MHI_PM_DISABLE : Z := 0x1.
Definition MHI_PM_POR : Z := 0x2.
Definition MHI_PM_M0 : Z := 0x4.
Definition MHI_PM_M2 : Z := 0x8.
Definition MHI_PM_M3_ENTER : Z := 0x10.
Definition MHI_PM_M3 : Z := 0x20.
Definition MHI_PM_M3_EXIT : Z := 0x40.
Definition MHI_PM_FW_DL_ERR : Z := 0x80.
Definition MHI_PM_SYS_ERR_DETECT : Z := 0x100.
Definition MHI_PM_SYS_ERR_PROCESS : Z := 0x200.
Definition MHI_PM_SHUTDOWN_PROCESS : Z := 0x400.
Definition MHI_PM_LD_ERR_FATAL_DETECT : Z := 0x800.

Definition MHI_STATE_RESET : Z := 0x0.
Definition MHI_STATE_READY : Z := 0x1.
Definition MHI_STATE_M0 : Z := 0x2.
Definition MHI_STATE_M1 : Z := 0x3.
Definition MHI_STATE_M2 : Z := 0x4.
Definition MHI_STATE_M3 : Z := 0x5.
Definition MHI_STATE_SYS_ERR : Z := 0xFF.

Definition MHI_EE_PBL : Z := 0.
Definition MHI_EE_SBL : Z := 1.
Definition MHI_EE_AMSS : Z := 2.
Definition MHI_EE_RDDM : Z := 3.
Definition MHI_EE_WFW : Z := 4.
Definition MHI_EE_PTHRU : Z := 5.
Definition MHI_EE_EDL : Z := 6.
Definition MHI_EE_FP : Z := 7.
Definition MHI_EE_DISABLE_TRANSITION : Z := 8.

Definition MHI_IN_PBL (ee : Z) : bool :=
  (ee =? MHI_EE_PBL) || (ee =? MHI_EE_PTHRU) || (ee =? MHI_EE_EDL).
Definition MHI_IN_MISSION_MODE (ee : Z) : bool := (ee =? MHI_EE_AMSS) || (ee =? MHI_EE_WFW).

Definition MHI_REG_ACCESS_VALID (pm_state : Z) : bool :=
  negb (pm_state &' (MHI_PM_POR |' MHI_PM_M0 |' MHI_PM_M2 |' MHI_PM_M3_ENTER |' MHI_PM_M3_EXIT
    |' MHI_PM_SYS_ERR_DETECT |' MHI_PM_SYS_ERR_PROCESS |' MHI_PM_SHUTDOWN_PROCESS
    |' MHI_PM_FW_DL_ERR) =? 0).
Definition MHI_PM_IN_ERROR_STATE (pm_state : Z) : bool := MHI_PM_FW_DL_ERR <=? pm_state.
Definition MHI_PM_IN_FATAL_STATE (pm_state : Z) : bool := pm_state =? MHI_PM_LD_ERR_FATAL_DETECT.
Definition MHI_DB_ACCESS_VALID (pm_state : Z) : bool := negb (pm_state &' MHI_PM_M0 =? 0).
Definition MHI_EVENT_ACCESS_INVALID (pm_state : Z) : bool :=
  (pm_state =? MHI_PM_DISABLE) || MHI_PM_IN_ERROR_STATE pm_state.
Definition MHI_PM_IN_SUSPEND_STATE (pm_state : Z) : bool :=
  negb (pm_state &' (MHI_PM_M3_ENTER |' MHI_PM_M3) =? 0).

(** ** Transitions *)

(** Rows [from_state, to_states]. *)
Definition mhi_state_transitions : list (Z * Z) :=
  [(MHI_PM_DISABLE, MHI_PM_POR);
   (MHI_PM_POR, MHI_PM_POR |' MHI_PM_DISABLE |' MHI_PM_M0 |' MHI_PM_SYS_ERR_DETECT
     |' MHI_PM_SHUTDOWN_PROCESS |' MHI_PM_LD_ERR_FATAL_DETECT |' MHI_PM_FW_DL_ERR);
   (MHI_PM_M0, MHI_PM_M2 |' MHI_PM_M3_ENTER |' MHI_PM_SYS_ERR_DETECT
     |' MHI_PM_SHUTDOWN_PROCESS |' MHI_PM_LD_ERR_FATAL_DETECT |' MHI_PM_FW_DL_ERR);
   (MHI_PM_M2, MHI_PM_M0 |' MHI_PM_SYS_ERR_DETECT |' MHI_PM_SHUTDOWN_PROCESS
     |' MHI_PM_LD_ERR_FATAL_DETECT);
   (MHI_PM_M3_ENTER, MHI_PM_M3 |' MHI_PM_SYS_ERR_DETECT |' MHI_PM_SHUTDOWN_PROCESS
     |' MHI_PM_LD_ERR_FATAL_DETECT);
   (MHI_PM_M3, MHI_PM_M3_EXIT |' MHI_PM_SYS_ERR_DETECT |' MHI_PM_SHUTDOWN_PROCESS
     |' MHI_PM_LD_ERR_FATAL_DETECT);
   (MHI_PM_M3_EXIT, MHI_PM_M0 |' MHI_PM_SYS_ERR_DETECT |' MHI_PM_SHUTDOWN_PROCESS
     |' MHI_PM_LD_ERR_FATAL_DETECT);
   (MHI_PM_FW_DL_ERR, MHI_PM_FW_DL_ERR |' MHI_PM_SYS_ERR_DETECT |' MHI_PM_SHUTDOWN_PROCESS
     |' MHI_PM_LD_ERR_FATAL_DETECT);
   (MHI_PM_SYS_ERR_DETECT, MHI_PM_SYS_ERR_PROCESS |' MHI_PM_SHUTDOWN_PROCESS
     |' MHI_PM_LD_ERR_FATAL_DETECT);
   (MHI_PM_SYS_ERR_PROCESS, MHI_PM_POR |' MHI_PM_SHUTDOWN_PROCESS |' MHI_PM_LD_ERR_FATAL_DETECT);
   (MHI_PM_SHUTDOWN_PROCESS, MHI_PM_DISABLE |' MHI_PM_LD_ERR_FATAL_DETECT);
   (MHI_PM_LD_ERR_FATAL_DETECT, MHI_PM_LD_ERR_FATAL_DETECT |' MHI_PM_SHUTDOWN_PROCESS)].

(** The kernel's [find_last_bit] over 32 bits. *)
Definition find_last_bit (x : Z) : nat := if u32 x =? 0 then 32%nat else Z.to_nat (Z.log2 (u32 x)).

Definition mhi_tryset_pm_state (state : Z) : mhi Z :=
  m ← get_state;
  let cur_state := pm_state m in
  match mhi_state_transitions !! find_last_bit cur_state with
  | None => mret cur_state
  | Some (from_state, to_states) =>
    if negb (from_state =? cur_state) then mret cur_state
    else if to_states &' state =? 0 then mret cur_state
    else modify (set_pm state);; mret state
  end.

Definition mhi_set_mhi_state (state : Z) : mhi () :=
  m ← get_state;
  if state =? MHI_STATE_RESET
  then mhi_write_reg_field (regs m) MHICTRL MHICTRL_RESET_MASK MHICTRL_RESET_SHIFT 1
  else mhi_write_reg_field (regs m) MHICTRL MHICTRL_MHISTATE_MASK MHICTRL_MHISTATE_SHIFT state.

(** The code behind the early returns of these two is never reached. *)
Definition mhi_assert_dev_wake (force : bool) : mhi () :=
  m ← get_state;
  if dev_state m =? MHI_STATE_M2 then mhi_write_db (wake_db m) 1 else mret ().
Definition mhi_deassert_dev_wake (override : bool) : mhi () := mret ().

(** [wake_get] and [wake_put] are set to the two by [mhi_async_power_up]. *)
Definition wake_get : bool → mhi () := mhi_assert_dev_wake.
Definition wake_put : bool → mhi () := mhi_deassert_dev_wake.

(** ** State changes of the device *)

(** [for (i = 0; ...)] over all channels or event rings. *)
Definition for_indices (n : nat) (f : nat → mhi ()) : mhi () := for_each (seq 0 n) f.

(** [ring->wp = base + len - el_size], and the same in the context. *)
Definition fill_event_ring (r : mhi_ring mhi_tre) : mhi_ring mhi_tre :=
  set_ctxt_wp (u64 (iommu_base r + len r - el_size r)) (set_wp (base r + len r - el_size r) r).

(** One test of the condition waited for: whether it holds, and [reset] and
    [ready] after it. *)
Definition ready_cond (m : mhi_controller) (reset ready : Z) : bool * Z * Z :=
  let field off mask shift :=
    let tmp := u32 (readl m (regs m + off)) in
    if (tmp =? U32_MAX) && link_down m then None else Some (Z.shiftr (tmp &' mask) shift) in
  if MHI_PM_IN_FATAL_STATE (pm_state m) then (true, reset, ready) else
  match field MHICTRL MHICTRL_RESET_MASK MHICTRL_RESET_SHIFT with
  | None => (true, reset, ready)
  | Some reset =>
    match field MHISTATUS MHISTATUS_READY_MASK MHISTATUS_READY_SHIFT with
    | None => (true, reset, ready)
    | Some ready => ((reset =? 0) && negb (ready =? 0), reset, ready)
    end
  end.

Fixpoint ready_wait (h : list mhi_controller) (timeout : nat) (reset ready : Z) : mhi (Z * Z) := λ m,
  let '(met, reset, ready) := ready_cond m reset ready in
  if met : bool then Done ((reset, ready), m) else
  match timeout, h with
  | S t, m' :: h => ready_wait h t reset ready m'
  | _, _ => Done ((reset, ready), m)
  end.

(** [init_mmio]: the result of [mhi_init_mmio]. *)
Definition mhi_ready_state_transition (h : list mhi_controller) (timeout : nat) (init_mmio : Z) : mhi Z :=
  '(reset, ready) ← ready_wait h timeout 1 0;
  m ← get_state;
  if MHI_PM_IN_FATAL_STATE (pm_state m) then mret (- EIO) else
  if negb (reset =? 0) || (ready =? 0) then mret (- ETIMEDOUT) else
  cur_state ← mhi_tryset_pm_state MHI_PM_POR;
  modify (set_dev_state MHI_STATE_READY);;
  if negb (cur_state =? MHI_PM_POR) then mret (- EIO) else
  m ← get_state;
  if negb (MHI_REG_ACCESS_VALID (pm_state m)) then mret (- EIO) else
  if negb (init_mmio =? 0) then mret (- EIO) else
  for_indices (length (events m)) (λ e,
    v ← event_at e;
    if offload_ev v || hw_ring v then mret () else
    upd_event e (set_ev_ring (fill_event_ring (ev_ring v)));;
    mhi_ring_er_db e);;
  mhi_set_mhi_state MHI_STATE_M0;;
  mret 0.

Definition mhi_pm_m0_transition : mhi Z :=
  modify (set_dev_state MHI_STATE_M0);;
  cur_state ← mhi_tryset_pm_state MHI_PM_M0;
  if negb (cur_state =? MHI_PM_M0) then mret (- EIO) else
  modify (λ m, set_counts (u32 (M0 m + 1)) (M2 m) (M3 m) m);;
  wake_get false;;
  m ← get_state;
  (if MHI_IN_MISSION_MODE (ee m) then
    for_indices (length (events m)) (λ e,
      v ← event_at e; if offload_ev v then mret () else mhi_ring_er_db e);;
    m ← get_state;
    if negb (rp (cmd m) =? wp (cmd m)) then mhi_ring_cmd_db else mret ()
  else mret ());;
  m ← get_state;
  for_indices (length (chans m)) (λ c,
    v ← chan_at c;
    (if reset_req (chan_db v) then upd_chan c (λ v, set_chan_db (set_db_mode true (chan_db v)) v)
     else mret ());;
    let tre_ring := tre_ring v in
    if negb (base tre_ring =? 0) && negb (wp tre_ring =? rp tre_ring)
    then mhi_ring_chan_db c else mret ());;
  wake_put false;;
  out Wake_up;;
  mret 0.

Definition MHI_CB_IDLE : Z := 0.

Definition mhi_pm_m1_transition : mhi () :=
  state ← mhi_tryset_pm_state MHI_PM_M2;
  if state =? MHI_PM_M2 then
    mhi_set_mhi_state MHI_STATE_M2;;
    modify (set_dev_state MHI_STATE_M2);;
    modify (λ m, set_counts (M0 m) (u32 (M2 m + 1)) (M3 m) m);;
    out Wake_up;;
    m ← get_state;
    if negb (dev_wake m =? 0) then wake_get true;; wake_put false
    else out (Status_cb MHI_CB_IDLE)
  else mret ().

Definition mhi_pm_m3_transition : mhi Z :=
  modify (set_dev_state MHI_STATE_M3);;
  state ← mhi_tryset_pm_state MHI_PM_M3;
  if negb (state =? MHI_PM_M3) then mret (- EIO) else
  out Wake_up;;
  modify (λ m, set_counts (M0 m) (M2 m) (u32 (M3 m + 1)) m);;
  mret 0.

(** ** Errors *)

(** The case [MHI_STATE_SYS_ERR] of a state change event. *)
Definition sys_err_event : mhi () :=
  new_state ← mhi_tryset_pm_state MHI_PM_SYS_ERR_DETECT;
  if new_state =? MHI_PM_SYS_ERR_DETECT then out Schedule_syserr else mret ().

Definition MHI_CB_FATAL_ERROR : Z := 7.

Definition mhi_intvec_threaded_handlr : mhi () :=
  m ← get_state;
  '(state, ee') ←
    (if MHI_REG_ACCESS_VALID (pm_state m) then
       state ← mhi_get_mhi_state; ee' ← mhi_get_exec_env; mret (state, ee')
     else mret (MHI_STATE_MAX, MHI_EE_MAX));
  pm ←
    (if (state =? MHI_STATE_SYS_ERR) && negb (pm_state m =? MHI_PM_SYS_ERR_DETECT)
     then mhi_tryset_pm_state MHI_PM_SYS_ERR_DETECT else mret 0);
  (if pm =? MHI_PM_SYS_ERR_DETECT then
    out Wake_up;;
    m ← get_state;
    if negb (ee m =? ee') then out Schedule_syserr
    else if MHI_IN_PBL ee' then out (Status_cb MHI_CB_FATAL_ERROR)
    else out Schedule_syserr
  else mret ());;
  if pm =? MHI_PM_POR then out Wake_up else mret ().

(** The end of [mhi_ctrl_ev_task], when no event was processed. *)
Definition check_sys_err : mhi () :=
  state ← mhi_get_mhi_state;
  if state =? MHI_STATE_SYS_ERR then sys_err_event else mret ().

(** ** Shutdown and reset *)

Definition MHI_CB_SYS_ERROR : Z := 6.

(** The first part of [mhi_pm_disable_transition], up to the wait for the reset
    of the device: the state before and after, [None] when the transition was
    refused. *)
Definition disable_enter (transition_state : Z) : mhi (option (Z * Z)) :=
  (if transition_state =? MHI_PM_SYS_ERR_PROCESS then out (Status_cb MHI_CB_SYS_ERROR) else mret ());;
  m ← get_state;
  let prev_state := pm_state m in
  cur_state ← mhi_tryset_pm_state transition_state;
  (if cur_state =? transition_state then
     modify (set_ee MHI_EE_DISABLE_TRANSITION);; modify (set_dev_state MHI_STATE_RESET)
   else mret ());;
  out Wake_up;;
  if negb (cur_state =? transition_state) then mret None else
  (if MHI_REG_ACCESS_VALID prev_state then mhi_set_mhi_state MHI_STATE_RESET else mret ());;
  mret (Some (prev_state, cur_state)).

(** [ring->rp = ring->wp = ring->base], and the context's pointers. *)
Definition reset_ring {A} (r : mhi_ring A) : mhi_ring A :=
  set_ctxt_wp (iommu_base r) (set_wp (base r) (set_rp (base r) r)).

(** Its last part: the rings are reset, the state is left.  [ready]: what
    [mhi_ready_state_transition] needs. *)
Definition disable_finish (cur_state : Z) (h : list mhi_controller) (timeout : nat) (init_mmio : Z) : mhi () :=
  modify (λ m, set_cmd (reset_ring (cmd m)) m);;
  m ← get_state;
  for_indices (length (events m)) (λ e,
    v ← event_at e;
    if offload_ev v then mret () else
    upd_event e (λ v, MhiEvent (reset_ring (ev_ring v)) (iommu_base (ev_ring v)) (ev_db v)
      (ev_used_elements v) (hw_ring v) (offload_ev v)));;
  if cur_state =? MHI_PM_SYS_ERR_PROCESS then
    env ← mhi_get_exec_env;
    edl ← (if env =? MHI_EE_EDL then
      state ← mhi_get_mhi_state; mret (state =? MHI_STATE_RESET) else mret false);
    if edl : bool then
      modify (set_ee MHI_EE_EDL);; mhi_tryset_pm_state MHI_PM_POR;; mret ()
    else mhi_ready_state_transition h timeout init_mmio;; mret ()
  else mhi_tryset_pm_state MHI_PM_DISABLE;; mret ().

(** The beginning of [mhi_power_down]. *)
Definition force_linkdown : mhi () :=
  mhi_tryset_pm_state MHI_PM_LD_ERR_FATAL_DETECT;; mret ().

(** ** Suspend and resume *)

Definition in_m0_or_m1 (m : mhi_controller) : bool :=
  (dev_state m =? MHI_STATE_M0) || (dev_state m =? MHI_STATE_M1)
  || MHI_PM_IN_ERROR_STATE (pm_state m).
Definition in_m3 (m : mhi_controller) : bool :=
  (dev_state m =? MHI_STATE_M3) || MHI_PM_IN_ERROR_STATE (pm_state m).
Definition in_m0 (m : mhi_controller) : bool :=
  (dev_state m =? MHI_STATE_M0) || MHI_PM_IN_ERROR_STATE (pm_state m).
Definition pm_in_m0 (m : mhi_controller) : bool :=
  (pm_state m =? MHI_PM_M0) || MHI_PM_IN_ERROR_STATE (pm_state m).

(** The notification of the clients at the end is left out. *)
Definition mhi_pm_suspend (h h' : list mhi_controller) (timeout : nat) : mhi Z :=
  m ← get_state;
  if pm_state m =? MHI_PM_DISABLE then mret (- EINVAL) else
  if MHI_PM_IN_ERROR_STATE (pm_state m) then mret (- EIO) else
  if negb (dev_wake m =? 0) then mret (- EBUSY) else
  wake_get false;;
  ret ← wait_event_timeout in_m0_or_m1 h timeout;
  m ← get_state;
  if (ret =? 0) || MHI_PM_IN_ERROR_STATE (pm_state m) then wake_put false;; mret (- EIO) else
  if 1 <? dev_wake m then wake_put false;; mret (- EBUSY) else
  new_state ← mhi_tryset_pm_state MHI_PM_M3_ENTER;
  if negb (new_state =? MHI_PM_M3_ENTER) then wake_put false;; mret (- EIO) else
  mhi_set_mhi_state MHI_STATE_M3;;
  wake_put false;;
  ret ← wait_event_timeout in_m3 h' timeout;
  m ← get_state;
  if (ret =? 0) || MHI_PM_IN_ERROR_STATE (pm_state m) then mret (- EIO) else mret 0.

Definition mhi_pm_resume (h : list mhi_controller) (timeout : nat) : mhi Z :=
  m ← get_state;
  if pm_state m =? MHI_PM_DISABLE then mret 0 else
  if MHI_PM_IN_ERROR_STATE (pm_state m) then mret (- EIO) else
  cur_state ← mhi_tryset_pm_state MHI_PM_M3_EXIT;
  if negb (cur_state =? MHI_PM_M3_EXIT) then mret (- EIO) else
  wake_get true;;
  mhi_set_mhi_state MHI_STATE_M0;;
  ret ← wait_event_timeout in_m0 h timeout;
  m ← get_state;
  wake_put false;;
  if (ret =? 0) || MHI_PM_IN_ERROR_STATE (pm_state m)
  then mhi_intvec_threaded_handlr;; mret (- EIO) else mret 0.

(** [__mhi_device_get_sync]. *)
Definition device_get_sync (h : list mhi_controller) (timeout : nat) : mhi Z :=
  wake_get true;;
  m ← get_state;
  (if MHI_PM_IN_SUSPEND_STATE (pm_state m) then out Runtime_get;; out Runtime_put else mret ());;
  ret ← wait_event_timeout pm_in_m0 h timeout;
  m ← get_state;
  if (ret =? 0) || MHI_PM_IN_ERROR_STATE (pm_state m) then wake_put false;; mret (- EIO)
  else mret 0.

(** The controller's part of [mhi_device_get] and [mhi_device_put]. *)
Definition mhi_device_get : mhi () := wake_get true.
Definition mhi_device_put : mhi () := wake_put false.
