(* ===== verification/MhiXfer.v ===== *)
(** * The Modem Host Interface: transfers, events and commands

    Model of the upper half of [core/mhi_main.c]: queueing of buffers on a
    channel, the processing of the event rings, commands to the device, and the
    start and stop of channels.  A channel is its index in the controller's
    array; [xfer_cb] and the other callbacks are recorded.  Statistics other
    than [used_elements], the monitor and the time synchronisation are left out,
    and so are bounce buffers: mapping is [mhi_map_single_no_bb].  An event that
    fails an assertion (a bad descriptor, an unknown type) is ignored, as in a
    build without [CONFIG_MHI_DEBUG]. *)

From S2P Require Import Prelude Kernel Mhi MhiPm.

#[local] Open Scope Z_scope.
#[local] Open Scope c_scope.

(** ** Queueing *)

Definition MHI_EOB : Z := 0.
Definition MHI_EOT : Z := 1.
Definition MHI_CHAIN : Z := 2.

(** The result of [dma_map_single]. *)
Definition mhi_map_single_no_bb : mhi (option Z) :=
  m ← get_state;
  match dma m with
  | [] => mret None
  | p :: l => modify (set_dma l);; mret p
  end.

(** [atomic_inc_return(&pending_pkts)] and [atomic_dec_return], with what the
    callers do at 1 and 0. *)
Definition inc_pending : mhi () :=
  m ← get_state;
  let n := s32 (pending_pkts m + 1) in
  modify (set_pending n);; if n =? 1 then out Runtime_get else mret ().
Definition dec_pending : mhi () :=
  m ← get_state;
  let n := s32 (pending_pkts m - 1) in
  modify (set_pending n);; if n =? 0 then out Runtime_put else mret ().

(** Both rings' write pointers move to the next element. *)
Definition advance_wp (c : nat) : mhi () :=
  upd_chan c (λ v, set_tre (mhi_add_ring_element (tre_ring v)) v);;
  upd_chan c (λ v, set_buf (mhi_add_ring_element (buf_ring v)) v).

(** [*buf_ring->wp = b], [*tre_ring->wp = t]. *)
Definition store_buf (c : nat) (b : mhi_buf_info) : mhi () :=
  v ← chan_at c; r ← lift (store (buf_ring v) (wp (buf_ring v)) b); upd_chan c (set_buf r).
Definition store_tre (c : nat) (t : mhi_tre) : mhi () :=
  v ← chan_at c; r ← lift (store (tre_ring v) (wp (tre_ring v)) t); upd_chan c (set_tre r).

(** The fields of [buf_info] that are set before and after the mapping. *)
Definition describe (v : mhi_chan) (old : mhi_buf_info) (buf cb len : Z) : mhi_buf_info :=
  MhiBufInfo (p_addr old) buf (wp (tre_ring v)) len cb (used old) (pre_mapped old) (to_device v).
Definition set_p_addr (p : Z) (b : mhi_buf_info) : mhi_buf_info :=
  MhiBufInfo p (v_addr b) (buf_wp b) (buf_len b) (cb_buf b) (used b) (pre_mapped b) (buf_to_device b).

Definition mhi_gen_tre (c : nat) (buf cb buf_len flags : Z) : mhi Z :=
  v ← chan_at c;
  old ← lift (load (buf_ring v) (wp (buf_ring v)));
  let buf_info := describe v old buf cb buf_len in
  store_buf c buf_info;;
  mapped ← mhi_map_single_no_bb;
  match mapped with
  | None => mret (- ENOMEM)
  | Some p =>
    store_buf c (set_p_addr p buf_info);;
    let eob := negb (flags &' MHI_EOB =? 0) in
    let eot := negb (flags &' MHI_EOT =? 0) in
    let chain := negb (flags &' MHI_CHAIN =? 0) in
    let bei := negb (intmod v =? 0) in
    store_tre c (MhiTre p (MHI_TRE_DATA_DWORD0 buf_len) (MHI_TRE_DATA_DWORD1 bei eot eob chain));;
    advance_wp c;;
    mret 0
  end.

(** What the three queue functions share: leaving a low-power state, and the
    wake request; [true] when one was made. *)
Definition leave_lpm : mhi () :=
  m ← get_state;
  if MHI_PM_IN_SUSPEND_STATE (pm_state m) then out Runtime_get;; out Runtime_put else mret ().
Definition queue_wake (c : nat) : mhi bool :=
  m ← get_state;
  v ← chan_at c;
  if to_device v || negb (pm_state m =? MHI_PM_M0) then wake_get false;; mret true else mret false.
Definition ring_if_m0 (c : nat) : mhi () :=
  m ← get_state;
  if MHI_DB_ACCESS_VALID (pm_state m) then mhi_ring_chan_db c else mret ().

Definition mhi_queue_buf (c : nat) (buf len mflags : Z) : mhi Z :=
  m ← get_state;
  if MHI_PM_IN_ERROR_STATE (pm_state m) then mret (- EIO) else
  v ← chan_at c;
  if mhi_is_ring_full (tre_ring v) then mret (- ENOMEM) else
  ret ← mhi_gen_tre c buf buf len mflags;
  if negb (ret =? 0) then mret ret else
  leave_lpm;;
  assert_wake ← queue_wake c;
  (if to_device v then inc_pending else mret ());;
  ring_if_m0 c;;
  (if negb (to_device v) && assert_wake then wake_put true else mret ());;
  mret 0.

(** [data]: [skb->data]. *)
Definition mhi_queue_skb (c : nat) (skb data len : Z) : mhi Z :=
  v ← chan_at c;
  if mhi_is_ring_full (tre_ring v) then mret (- ENOMEM) else
  m ← get_state;
  if MHI_PM_IN_ERROR_STATE (pm_state m) then mret (- EIO) else
  leave_lpm;;
  assert_wake ← queue_wake c;
  old ← lift (load (buf_ring v) (wp (buf_ring v)));
  let buf_info := describe v old data skb len in
  store_buf c buf_info;;
  mapped ← mhi_map_single_no_bb;
  match mapped with
  | None => (if assert_wake : bool then wake_put false else mret ());; mret (- ENOMEM)
  | Some p =>
    store_buf c (set_p_addr p buf_info);;
    store_tre c (MhiTre p (MHI_TRE_DATA_DWORD0 len) (MHI_TRE_DATA_DWORD1 true true false false));;
    (if to_device v then inc_pending else mret ());;
    advance_wp c;;
    ring_if_m0 c;;
    (if negb (to_device v) && assert_wake then wake_put true else mret ());;
    mret 0
  end.

(** [buf]: the [mhi_buf]; [dma_addr]: its member. *)
Definition mhi_queue_dma (c : nat) (buf dma_addr len : Z) : mhi Z :=
  v ← chan_at c;
  if mhi_is_ring_full (tre_ring v) then mret (- ENOMEM) else
  m ← get_state;
  if MHI_PM_IN_ERROR_STATE (pm_state m) then mret (- EIO) else
  leave_lpm;;
  assert_wake ← queue_wake c;
  old ← lift (load (buf_ring v) (wp (buf_ring v)));
  let buf_info used := MhiBufInfo dma_addr (v_addr old) (wp (tre_ring v)) len buf used true (to_device v) in
  (if rsc_dma v then
    store_buf c (buf_info true);;
    store_tre c (MhiTre (MHI_RSCTRE_DATA_PTR dma_addr len)
      (MHI_RSCTRE_DATA_DWORD0 (wp (buf_ring v) - base (buf_ring v))) MHI_RSCTRE_DATA_DWORD1)
  else
    store_buf c (buf_info (used old));;
    store_tre c (MhiTre dma_addr (MHI_TRE_DATA_DWORD0 len) (MHI_TRE_DATA_DWORD1 true true false false)));;
  (if to_device v then inc_pending else mret ());;
  advance_wp c;;
  ring_if_m0 c;;
  (if negb (to_device v) && assert_wake then wake_put true else mret ());;
  mret 0.

(** ** Completions *)

Definition MHI_EV_CC_SUCCESS : Z := 0x1.
Definition MHI_EV_CC_EOT : Z := 0x2.
Definition MHI_EV_CC_OVERFLOW : Z := 0x3.
Definition MHI_EV_CC_EOB : Z := 0x4.
Definition MHI_EV_CC_OOB : Z := 0x5.
Definition MHI_EV_CC_DB_MODE : Z := 0x6.

(** One turn of the loop of [parse_xfer_event]: the oldest buffer goes back to
    the client. *)
Definition complete_one (c : nat) (status xfer_len : Z) : mhi () :=
  v ← chan_at c;
  buf_info ← lift (load (buf_ring v) (rp (buf_ring v)));
  (if negb (pre_mapped buf_info) then out (Unmap buf_info) else mret ());;
  upd_chan c (λ v, set_buf (mhi_del_ring_element (buf_ring v)) v);;
  upd_chan c (λ v, set_tre (mhi_del_ring_element (tre_ring v)) v);;
  out (Xfer_cb (chan v) (MhiResult (cb_buf buf_info) (to_device v) xfer_len status));;
  (if to_device v then dec_pending else mret ());;
  (if to_device v then wake_put false else mret ());;
  if pre_alloc v then
    ret ← mhi_queue_buf c (cb_buf buf_info) (buf_len buf_info) MHI_EOT;
    if negb (ret =? 0) then out (Kfree (cb_buf buf_info)) else mret ()
  else mret ().

(** [while (local_rp != dev_rp)].  A pass over all elements of the ring is
    enough: a loop that needs more comes back to where it began. *)
Fixpoint complete_loop (fuel : nat) (c : nat) (dev_rp status xfer_len : Z) : mhi () :=
  v ← chan_at c;
  if rp (tre_ring v) =? dev_rp then mret () else
  match fuel with
  | O => hang
  | S fuel => complete_one c status xfer_len;; complete_loop fuel c dev_rp status xfer_len
  end.

(** [dev_rp]: the element behind the one the event points at. *)
Definition event_dev_rp (r : mhi_ring mhi_tre) (ptr : Z) : Z :=
  let dev_rp := u64 (mhi_to_virtual r ptr + SIZEOF_TRE) in
  if base r + len r <=? dev_rp then base r else dev_rp.

Definition parse_xfer_event (event : mhi_tre) (c : nat) : mhi () :=
  v ← chan_at c;
  let ev_code := MHI_TRE_GET_EV_CODE event in
  let status := if ev_code =? MHI_EV_CC_OVERFLOW then - EOVERFLOW else 0 in
  if negb (ch_state v =? MHI_CH_STATE_ENABLED) then mret () else
  if (ev_code =? MHI_EV_CC_OVERFLOW) || (ev_code =? MHI_EV_CC_EOB) || (ev_code =? MHI_EV_CC_EOT) then
    complete_loop (Z.to_nat (elements (tre_ring v))) c (event_dev_rp (tre_ring v) (MHI_TRE_GET_EV_PTR event)) status
      (MHI_TRE_GET_EV_LEN event)
  else if (ev_code =? MHI_EV_CC_OOB) || (ev_code =? MHI_EV_CC_DB_MODE) then
    upd_chan c (λ v, set_chan_db (set_db_mode true (chan_db v)) v);;
    m ← get_state;
    if negb (wp (tre_ring v) =? rp (tre_ring v)) && MHI_DB_ACCESS_VALID (pm_state m)
    then mhi_ring_chan_db c else mret ()
  else mret ().

Definition set_used (b : bool) (i : mhi_buf_info) : mhi_buf_info :=
  MhiBufInfo (p_addr i) (v_addr i) (buf_wp i) (buf_len i) (cb_buf i) b (pre_mapped i) (buf_to_device i).

Definition parse_rsc_event (event : mhi_tre) (c : nat) : mhi () :=
  v ← chan_at c;
  let ev_code := MHI_TRE_GET_EV_CODE event in
  let cookie := MHI_TRE_GET_EV_COOKIE event in
  let xfer_len := MHI_TRE_GET_EV_LEN event in
  let p := base (buf_ring v) + cookie in
  buf_info ← lift (load (buf_ring v) p);
  let status := if ev_code =? MHI_EV_CC_OVERFLOW then - EOVERFLOW else 0 in
  if negb (ch_state v =? MHI_CH_STATE_ENABLED) then mret () else
  out (Xfer_cb (chan v) (MhiResult (cb_buf buf_info) (to_device v) xfer_len status));;
  upd_chan c (λ v, set_tre (mhi_del_ring_element (tre_ring v)) v);;
  v ← chan_at c;
  r ← lift (store (buf_ring v) p (set_used false buf_info));
  upd_chan c (set_buf r).

Definition mhi_process_cmd_completion (tre : mhi_tre) : mhi () :=
  m ← get_state;
  cmd_pkt ← lift (load (cmd m) (mhi_to_virtual (cmd m) (MHI_TRE_GET_EV_PTR tre)));
  (if MHI_TRE_GET_CMD_TYPE cmd_pkt =? MHI_CMD_TYPE_TSYNC
  then out (Complete_tsync (MHI_TRE_GET_EV_CODE tre))
  else
    let c := MHI_TRE_GET_CMD_CHID cmd_pkt in
    upd_chan (Z.to_nat c) (set_ccs (MHI_TRE_GET_EV_CODE tre));;
    out (Complete c));;
  modify (λ m, set_cmd (mhi_del_ring_element (cmd m)) m).

(** ** Event rings

    The device's read pointer is the one of the time the processing begins; what
    the device adds meanwhile is for a later run. *)

(** What a loop over an event ring needs at most: one turn per element. *)
Definition ev_fuel (v : mhi_event) : nat := Z.to_nat (elements (ev_ring v)).

Definition recycle (e : nat) : mhi () :=
  upd_event e (λ v, set_ev_ring (mhi_recycle_ev_ring_element (ev_ring v)) v).

Definition MHI_ST_TRANSITION_PBL : Z := 0.
Definition MHI_ST_TRANSITION_READY : Z := 1.
Definition MHI_ST_TRANSITION_SBL : Z := 2.
Definition MHI_ST_TRANSITION_MISSION_MODE : Z := 3.
Definition MHI_ST_TRANSITION_FP : Z := 4.
Definition MHI_CB_EE_RDDM : Z := 4.

Definition state_change_event (new_state : Z) : mhi () :=
  if new_state =? MHI_STATE_M0 then mhi_pm_m0_transition;; mret ()
  else if new_state =? MHI_STATE_M1 then mhi_pm_m1_transition
  else if new_state =? MHI_STATE_M3 then mhi_pm_m3_transition;; mret ()
  else if new_state =? MHI_STATE_SYS_ERR then sys_err_event
  else mret ().

Definition ee_event (event : Z) : mhi () :=
  if event =? MHI_EE_SBL then out (Queue_transition MHI_ST_TRANSITION_SBL)
  else if event =? MHI_EE_FP then out (Queue_transition MHI_ST_TRANSITION_FP)
  else if (event =? MHI_EE_WFW) || (event =? MHI_EE_AMSS)
  then out (Queue_transition MHI_ST_TRANSITION_MISSION_MODE)
  else if event =? MHI_EE_RDDM
  then out (Status_cb MHI_CB_EE_RDDM);; modify (set_ee event);; out Wake_up
  else mret ().

(** The body of the loop over a control event ring. *)
Definition ctrl_event (ev : mhi_tre) : mhi () :=
  let type := MHI_TRE_GET_EV_TYPE ev in
  let c := Z.to_nat (MHI_TRE_GET_EV_CHID ev) in
  if type =? MHI_PKT_TYPE_STATE_CHANGE_EVENT then state_change_event (MHI_TRE_GET_EV_STATE ev)
  else if type =? MHI_PKT_TYPE_CMD_COMPLETION_EVENT then mhi_process_cmd_completion ev
  else if type =? MHI_PKT_TYPE_EE_EVENT then ee_event (MHI_TRE_GET_EV_EXECENV ev)
  else if type =? MHI_PKT_TYPE_TX_EVENT then parse_xfer_event ev c
  else if type =? MHI_PKT_TYPE_RSC_TX_EVENT then parse_rsc_event ev c
  else mret ().

Fixpoint ctrl_ev_loop (fuel : nat) (e : nat) (count : Z) : mhi Z :=
  v ← event_at e;
  if mhi_to_virtual (ev_ring v) (ctxt_rp v) =? rp (ev_ring v) then mret count else
  match fuel with
  | O => hang
  | S fuel =>
    ev ← lift (load (ev_ring v) (rp (ev_ring v)));
    ctrl_event ev;;
    recycle e;;
    ctrl_ev_loop fuel e (count + 1)
  end.

(** The end of both functions: the greatest number of events, the doorbell. *)
Definition ev_done (e : nat) (count : Z) : mhi Z :=
  v ← event_at e;
  (if ev_used_elements v <? count then upd_event e (set_ev_used count) else mret ());;
  m ← get_state;
  (if MHI_DB_ACCESS_VALID (pm_state m) then mhi_ring_er_db e else mret ());;
  mret count.

Definition mhi_process_ctrl_ev_ring (e : nat) : mhi Z :=
  m ← get_state;
  if MHI_EVENT_ACCESS_INVALID (pm_state m) then mret (- EIO) else
  v ← event_at e;
  count ← ctrl_ev_loop (ev_fuel v) e 0;
  ev_done e count.

Fixpoint data_ev_loop (fuel : nat) (e : nat) (event_quota chan_count count : Z) : mhi Z :=
  v ← event_at e;
  let dev_rp := mhi_to_virtual (ev_ring v) (ctxt_rp v) in
  if (dev_rp =? rp (ev_ring v)) || (event_quota =? 0) then mret count else
  match fuel with
  | O => hang
  | S fuel =>
    ev ← lift (load (ev_ring v) (rp (ev_ring v)));
    let type := MHI_TRE_GET_EV_TYPE ev in
    let c := Z.to_nat (MHI_TRE_GET_EV_CHID ev) in
    ch ← chan_at c;
    let chan_local_rp := rp (tre_ring ch) in
    event_quota ←
      (if type =? MHI_PKT_TYPE_TX_EVENT then parse_xfer_event ev c;; mret (event_quota - 1)
       else if type =? MHI_PKT_TYPE_RSC_TX_EVENT then parse_rsc_event ev c;; mret (event_quota - 1)
       else mret event_quota);
    ch ← chan_at c;
    let chan_count := u32 (chan_count + get_used_ring_elements chan_local_rp (rp (tre_ring ch))
                             (elements (tre_ring ch))) in
    recycle e;;
    v ← event_at e;
    chan_count ←
      (if (rp (ev_ring v) =? dev_rp) || (event_quota =? 0) then
         (if used_elements ch <? chan_count then upd_chan c (set_used_elements chan_count)
          else mret ());;
         mret 0
       else mret chan_count);
    data_ev_loop fuel e event_quota chan_count (count + 1)
  end.

Definition mhi_process_data_event_ring (e : nat) (event_quota : Z) : mhi Z :=
  m ← get_state;
  if MHI_EVENT_ACCESS_INVALID (pm_state m) then mret (- EIO) else
  v ← event_at e;
  count ← data_ev_loop (ev_fuel v) e event_quota 0 0;
  ev_done e count.

Definition mhi_ev_task (e : nat) : mhi () := mhi_process_data_event_ring e U32_MAX;; mret ().

Definition mhi_ctrl_ev_task (e : nat) : mhi () :=
  m ← get_state;
  if negb (MHI_REG_ACCESS_VALID (pm_state m)) then mret () else
  ret ← mhi_process_ctrl_ev_ring e;
  if ret =? 0 then check_sys_err else mret ().

Definition mhi_poll (v : mhi_chan) (budget : Z) : mhi Z :=
  mhi_process_data_event_ring (er_index v) budget.

(** ** Commands *)

Inductive MHI_CMD := MHI_CMD_RESET_CHAN | MHI_CMD_START_CHAN.

Definition cmd_tre (cmd : MHI_CMD) (chan : Z) : mhi_tre :=
  match cmd with
  | MHI_CMD_RESET_CHAN => MhiTre 0 0 (MHI_TRE_CMD_RESET_DWORD1 chan)
  | MHI_CMD_START_CHAN => MhiTre 0 0 (MHI_TRE_CMD_START_DWORD1 chan)
  end.

Definition mhi_send_cmd (chan : Z) (c : MHI_CMD) : mhi Z :=
  m ← get_state;
  if get_nr_avail_ring_elements (cmd m) =? 0 then mret (- ENOMEM) else
  ring ← lift (store (cmd m) (wp (cmd m)) (cmd_tre c chan));
  modify (set_cmd (mhi_add_ring_element ring));;
  m ← get_state;
  (if MHI_DB_ACCESS_VALID (pm_state m) then mhi_ring_cmd_db else mret ());;
  mret 0.

(** ** Start and stop of a channel *)

(** [sizeof(struct mhi_buf_info)] with 64-bit pointers, and what [kzalloc] makes
    of one. *)
Definition SIZEOF_BUF_INFO : Z := 56.
Definition zero_buf_info : mhi_buf_info := MhiBufInfo 0 0 0 0 0 false false false.

(** [place]: the address of the ring in the control segment, for the host and
    for the device; [kzalloc]: the address of the buffer ring. *)
Definition mhi_init_chan_ctxt (c : nat) (place : Z * Z) (kzalloc : option Z) : mhi Z :=
  upd_chan c (λ v,
    let r := tre_ring v in
    set_tre (MhiRing (snd place) (ctxt_wp r) (fst place) (rp r) (wp r) SIZEOF_TRE
      (u64 (SIZEOF_TRE * elements r)) (elements r) (db_addr r) (mem r)) v);;
  let b := default 0 kzalloc in
  upd_chan c (λ v,
    let r := buf_ring v in
    set_buf (MhiRing (iommu_base r) (ctxt_wp r) b (rp r) (wp r) SIZEOF_BUF_INFO
      (u64 (SIZEOF_BUF_INFO * elements r)) (elements r) (db_addr r)
      (match kzalloc with
       | Some _ => replicate (Z.to_nat (elements r)) zero_buf_info
       | None => []
       end)) v);;
  if negb (bool_decide (is_Some kzalloc)) then mret (- ENOMEM) else
  upd_chan c (λ v, let r := tre_ring v in set_tre (set_ctxt_wp (iommu_base r) r) v);;
  upd_chan c (λ v, let r := tre_ring v in set_tre (set_wp (base r) (set_rp (base r) r)) v);;
  upd_chan c (λ v, let r := buf_ring v in set_buf (set_wp (base r) (set_rp (base r) r)) v);;
  upd_chan c (λ v, set_chan_db (set_db_mode true (chan_db v)) v);;
  mret 0.

Definition set_base {A} (b : Z) (r : mhi_ring A) : mhi_ring A :=
  MhiRing (iommu_base r) (ctxt_wp r) b (rp r) (wp r) (el_size r) (len r) (elements r) (db_addr r) (mem r).

Definition mhi_deinit_chan_ctxt (c : nat) : mhi () :=
  upd_chan c (λ v, set_buf (set_mem [] (set_base 0 (buf_ring v))) v);;
  upd_chan c (λ v, set_tre (set_base 0 (tre_ring v)) v).

(** The body of [mhi_mark_stale_events]: the events from [local_rp] to [dev_rp]. *)
Fixpoint stale_loop (fuel : nat) (e : nat) (local_rp dev_rp chan : Z) : mhi () :=
  if dev_rp =? local_rp then mret () else
  match fuel with
  | O => hang
  | S fuel =>
    v ← event_at e;
    let r := ev_ring v in
    ev ← lift (load r local_rp);
    r ← (if (MHI_TRE_GET_EV_TYPE ev =? MHI_PKT_TYPE_TX_EVENT) && (chan =? MHI_TRE_GET_EV_CHID ev)
         then lift (store r local_rp
                (MhiTre (ptr ev) (dword0 ev) (MHI_TRE_EV_DWORD1 chan MHI_PKT_TYPE_STALE_EVENT)))
         else mret r);
    upd_event e (set_ev_ring r);;
    let p := local_rp + SIZEOF_TRE in
    stale_loop fuel e (if p =? base r + len r then base r else p) dev_rp chan
  end.
Definition mhi_mark_stale_events (e : nat) (chan : Z) : mhi () :=
  v ← event_at e;
  let r := ev_ring v in
  stale_loop (ev_fuel v) e (rp r) (mhi_to_virtual r (ctxt_rp v)) chan.

(** The body of the loop of [mhi_reset_data_chan]. *)
Definition reset_one (c : nat) : mhi () :=
  v ← chan_at c;
  buf_info ← lift (load (buf_ring v) (rp (buf_ring v)));
  (if to_device v then dec_pending else mret ());;
  (if to_device v then wake_put false else mret ());;
  (if negb (pre_mapped buf_info) then out (Unmap buf_info) else mret ());;
  upd_chan c (λ v, set_buf (mhi_del_ring_element (buf_ring v)) v);;
  upd_chan c (λ v, set_tre (mhi_del_ring_element (tre_ring v)) v);;
  if pre_alloc v then out (Kfree (cb_buf buf_info))
  else out (Xfer_cb (chan v) (MhiResult (cb_buf buf_info) (to_device v) 0 (- ENOTCONN))).

Fixpoint reset_loop (fuel : nat) (c : nat) : mhi () :=
  v ← chan_at c;
  if rp (tre_ring v) =? wp (tre_ring v) then mret () else
  match fuel with O => hang | S fuel => reset_one c;; reset_loop fuel c end.
Definition mhi_reset_data_chan (c : nat) : mhi () :=
  v ← chan_at c; reset_loop (Z.to_nat (elements (tre_ring v))) c.

Definition mhi_reset_rsc_chan (c : nat) : mhi () :=
  v ← chan_at c;
  for_each (mem (buf_ring v)) (λ i,
    if used i then out (Xfer_cb (chan v) (MhiResult (cb_buf i) (to_device v) 0 (- ENOTCONN)))
    else mret ());;
  upd_chan c (λ v, set_buf (set_mem (set_used false <$> mem (buf_ring v)) (buf_ring v)) v).

Definition mhi_reset_chan (c : nat) : mhi () :=
  v ← chan_at c;
  if offload_ch v then mret () else
  mhi_mark_stale_events (er_index v) (chan v);;
  if rsc_dma v then mhi_reset_rsc_chan c else mhi_reset_data_chan c.

(** [await]: what happens until the completion of the command or the timeout,
    and the time left. *)
Definition mhi_unprepare_channel (c : nat) (await : mhi Z) : mhi () :=
  v ← chan_at c;
  if negb (ch_state v =? MHI_CH_STATE_ENABLED) then mret () else
  upd_chan c (set_ch_state MHI_CH_STATE_DISABLED);;
  m ← get_state;
  (if MHI_PM_IN_ERROR_STATE (pm_state m) then mret () else
    wake_get false;;
    out Runtime_get;;
    ret ← mhi_send_cmd (chan v) MHI_CMD_RESET_CHAN;
    (if ret =? 0 then await;; mret () else mret ());;
    out Runtime_put;;
    wake_put false);;
  if offload_ch v then mret () else mhi_reset_chan c;; mhi_deinit_chan_ctxt c.

(** The buffers of a channel that is filled in advance; [bufs]: the results of
    [kmalloc].  The result is the error. *)
Fixpoint pre_alloc_loop (bufs : list (option Z)) (n : nat) (c : nat) (len : Z) {struct n} : mhi Z :=
  match n with
  | O => mret 0
  | S n =>
    match bufs with
    | [] | None :: _ => mret (- ENOMEM)
    | Some buf :: bufs =>
      ret ← mhi_gen_tre c buf buf len MHI_EOT;
      if ret =? 0 then pre_alloc_loop bufs n c len else out (Kfree buf);; mret ret
    end
  end.

Definition mhi_prepare_channel (c : nat) (place : Z * Z) (kzalloc : option Z)
    (await : mhi Z) (bufs : list (option Z)) (await' : mhi Z) : mhi Z :=
  m ← get_state;
  v ← chan_at c;
  if Z.shiftl 1 (ee m) &' ee_mask v =? 0 then mret (- ENOTCONN) else
  if negb (ch_state v =? MHI_CH_STATE_DISABLED) then mret (- EIO) else
  ret ← (if offload_ch v then mret 0 else mhi_init_chan_ctxt c place kzalloc);
  if negb (ret =? 0) then mret ret else
  let deinit := if offload_ch v then mret () else mhi_deinit_chan_ctxt c in
  if MHI_PM_IN_ERROR_STATE (pm_state m) then deinit;; mret (- EIO) else
  wake_get false;;
  out Runtime_get;;
  ret ← mhi_send_cmd (chan v) MHI_CMD_START_CHAN;
  if negb (ret =? 0) then out Runtime_put;; wake_put false;; deinit;; mret ret else
  ret ← await;
  v ← chan_at c;
  if (ret =? 0) || negb (ccs v =? MHI_EV_CC_SUCCESS)
  then out Runtime_put;; wake_put false;; deinit;; mret (- EIO) else
  out Runtime_put;;
  upd_chan c (set_ch_state MHI_CH_STATE_ENABLED);;
  m ← get_state;
  ret ←
    (if pre_alloc v then
      ret ← pre_alloc_loop bufs (Z.to_nat (get_nr_avail_ring_elements (tre_ring v))) c (buffer_len m);
      (if ret =? 0 then ring_if_m0 c else mret ());; mret ret
    else mret 0);
  wake_put false;;
  (if negb (ret =? 0) then mhi_unprepare_channel c await' else mret ());;
  mret ret.

(** [mhi_get_no_free_descriptors]. *)
Definition mhi_get_no_free_descriptors (c : nat) : mhi Z :=
  v ← chan_at c;
  mret (if offload_ch v then 0 else get_nr_avail_ring_elements (tre_ring v)).
