(* ===== verification/MhiExample.v ===== *)
(** * The Modem Host Interface: a small controller

    Concrete states on which the theorems of the following files are tried out:
    rings of four elements, one uplink and one downlink channel, one event ring. *)

From S2P Require Import Prelude Kernel Mhi MhiPm MhiXfer.

#[local] Open Scope Z_scope.

(** A ring of four elements, both pointers at the first one. *)
Definition ex_ring {A} (addr dev es : Z) (x : A) : mhi_ring A :=
  MhiRing dev dev addr addr addr es (es * 4) 4 0x9000 (replicate 4 x).

Definition ex_tre : mhi_tre := MhiTre 0 0 0.

Definition ex_chan (id : Z) (up pre : bool) (state : Z) : mhi_chan :=
  MhiChan id up 0 0xFF (ex_ring 0x1000 0x80000 SIZEOF_TRE ex_tre)
    (ex_ring 0x2000 0 SIZEOF_BUF_INFO zero_buf_info) 0 0 (DbCfg false true 2 0) false false pre state 0.

(** An event ring with two events for the channel 0; the device may write up to
    the last element. *)
Definition ex_transfer (ptr len : Z) : mhi_tre :=
  MhiTre ptr (Z.shiftl MHI_EV_CC_EOT 24 + len) (MHI_TRE_EV_DWORD1 0 MHI_PKT_TYPE_TX_EVENT).
Definition ex_event : mhi_event :=
  MhiEvent (MhiRing 0x90000 0x90030 0x3000 0x3000 0x3030 SIZEOF_TRE 64 4 0xA000
      [ex_transfer 0x80000 7; ex_transfer 0x80010 9; ex_tre; ex_tre])
    0x90020 (DbCfg false true 2 0) 0 false false.

Definition ex_mhi (pm dev_state : Z) (chans : list mhi_chan) : mhi_controller :=
  MhiController pm dev_state MHI_EE_AMSS 0 0 0 0 0 0x100000 0x101000 0x102000 chans [ex_event]
    (ex_ring 0x4000 0xA0000 SIZEOF_TRE ex_tre) 512 (λ _, 0) false
    [Some 0x500; Some 0x600; Some 0x700; Some 0x800] [].
