(* ===== verification/MhiPmProps.v ===== *)
(** * What holds of the power states

    The table of transitions is the documented one, every operation keeps to
    it, and the device's registers are written only in states that allow it. *)

From S2P Require Import Prelude Kernel Mhi MhiPm MhiXfer MhiExample.

#[local] Open Scope Z_scope.
#[local] Open Scope c_scope.

(** ** The documented transitions

    The comment at the head of [mhi_pm.c]: four levels of states; inside a level
    the transitions listed; from any state but [DISABLE] the first state of a
    higher level. *)

Definition pm_states : list Z :=
  [MHI_PM_DISABLE; MHI_PM_POR; MHI_PM_M0; MHI_PM_M2; MHI_PM_M3_ENTER; MHI_PM_M3; MHI_PM_M3_EXIT;
   MHI_PM_FW_DL_ERR; MHI_PM_SYS_ERR_DETECT; MHI_PM_SYS_ERR_PROCESS; MHI_PM_SHUTDOWN_PROCESS;
   MHI_PM_LD_ERR_FATAL_DETECT].

Definition level (s : Z) : nat :=
  if s <? MHI_PM_SYS_ERR_DETECT then 0 else if s <? MHI_PM_SHUTDOWN_PROCESS then 1
  else if s <? MHI_PM_LD_ERR_FATAL_DETECT then 2 else 3.

Definition first_of_level (s : Z) : Prop :=
  s = MHI_PM_SYS_ERR_DETECT ∨ s = MHI_PM_SHUTDOWN_PROCESS ∨ s = MHI_PM_LD_ERR_FATAL_DETECT.

Inductive documented : Z → Z → Prop :=
| doc_disable_por : documented MHI_PM_DISABLE MHI_PM_POR
| doc_por_disable : documented MHI_PM_POR MHI_PM_DISABLE
| doc_por_por : documented MHI_PM_POR MHI_PM_POR
| doc_por_m0 : documented MHI_PM_POR MHI_PM_M0
| doc_m0_m2 : documented MHI_PM_M0 MHI_PM_M2
| doc_m2_m0 : documented MHI_PM_M2 MHI_PM_M0
| doc_por_fw_dl_err : documented MHI_PM_POR MHI_PM_FW_DL_ERR
| doc_fw_dl_err : documented MHI_PM_FW_DL_ERR MHI_PM_FW_DL_ERR
| doc_m0_fw_dl_err : documented MHI_PM_M0 MHI_PM_FW_DL_ERR
| doc_m0_m3_enter : documented MHI_PM_M0 MHI_PM_M3_ENTER
| doc_m3_enter_m3 : documented MHI_PM_M3_ENTER MHI_PM_M3
| doc_m3_m3_exit : documented MHI_PM_M3 MHI_PM_M3_EXIT
| doc_m3_exit_m0 : documented MHI_PM_M3_EXIT MHI_PM_M0
| doc_sys_err : documented MHI_PM_SYS_ERR_DETECT MHI_PM_SYS_ERR_PROCESS
| doc_sys_err_por : documented MHI_PM_SYS_ERR_PROCESS MHI_PM_POR
| doc_shutdown_disable : documented MHI_PM_SHUTDOWN_PROCESS MHI_PM_DISABLE
| doc_ld_err : documented MHI_PM_LD_ERR_FATAL_DETECT MHI_PM_LD_ERR_FATAL_DETECT
| doc_ld_err_shutdown : documented MHI_PM_LD_ERR_FATAL_DETECT MHI_PM_SHUTDOWN_PROCESS
| doc_higher s t : s ≠ MHI_PM_DISABLE → first_of_level t → (level s < level t)%nat → documented s t.

Definition allowed (s t : Z) : bool :=
  match mhi_state_transitions !! find_last_bit s with
  | Some (_, to_states) => negb (to_states &' t =? 0)
  | None => false
  end.

(** A decision procedure for [documented]. *)
Definition listed : list (Z * Z) :=
  [(MHI_PM_DISABLE, MHI_PM_POR); (MHI_PM_POR, MHI_PM_DISABLE); (MHI_PM_POR, MHI_PM_POR);
   (MHI_PM_POR, MHI_PM_M0); (MHI_PM_M0, MHI_PM_M2); (MHI_PM_M2, MHI_PM_M0);
   (MHI_PM_POR, MHI_PM_FW_DL_ERR); (MHI_PM_FW_DL_ERR, MHI_PM_FW_DL_ERR);
   (MHI_PM_M0, MHI_PM_FW_DL_ERR); (MHI_PM_M0, MHI_PM_M3_ENTER); (MHI_PM_M3_ENTER, MHI_PM_M3);
   (MHI_PM_M3, MHI_PM_M3_EXIT); (MHI_PM_M3_EXIT, MHI_PM_M0);
   (MHI_PM_SYS_ERR_DETECT, MHI_PM_SYS_ERR_PROCESS); (MHI_PM_SYS_ERR_PROCESS, MHI_PM_POR);
   (MHI_PM_SHUTDOWN_PROCESS, MHI_PM_DISABLE);
   (MHI_PM_LD_ERR_FATAL_DETECT, MHI_PM_LD_ERR_FATAL_DETECT);
   (MHI_PM_LD_ERR_FATAL_DETECT, MHI_PM_SHUTDOWN_PROCESS)].

Definition documentedb (s t : Z) : bool :=
  bool_decide ((s, t) ∈ listed)
  || negb (s =? MHI_PM_DISABLE)
     && bool_decide (t ∈ [MHI_PM_SYS_ERR_DETECT; MHI_PM_SHUTDOWN_PROCESS; MHI_PM_LD_ERR_FATAL_DETECT])
     && bool_decide (level s < level t)%nat.

Lemma documentedb_spec s t : documentedb s t = true → documented s t.
Proof.
  unfold documentedb. intros [E|E]%orb_true_iff.
  - apply bool_decide_eq_true in E. unfold listed in E.
    repeat (apply elem_of_cons in E as [[= -> ->]|E]; [constructor|]). by apply elem_of_nil in E.
  - apply andb_true_iff in E as [[Hd Ht]%andb_true_iff Hl].
    apply bool_decide_eq_true in Ht, Hl. bool_to_prop.
    apply doc_higher; [done| |done]. unfold first_of_level.
    repeat (apply elem_of_cons in Ht as [->|Ht]; [tauto|]). by apply elem_of_nil in Ht.
Qed.

Lemma table_documented s t : s ∈ pm_states → t ∈ pm_states → allowed s t = true → documented s t.
Proof.
  intros Hs Ht E. apply documentedb_spec.
  assert (HT : forallb (λ s, forallb (λ t, negb (allowed s t) || documentedb s t) pm_states) pm_states
    = true) by (vm_compute; reflexivity).
  rewrite forallb_forall in HT. specialize (HT s). rewrite <- list_elem_of_In, forallb_forall in HT.
  specialize (HT Hs t). rewrite <- list_elem_of_In, E in HT. by apply HT.
Qed.

Lemma documented_table s t : documented s t → s ∈ pm_states → allowed s t = true.
Proof.
  intros D Hs. destruct D; try reflexivity.
  match goal with H : first_of_level _ |- _ => destruct H as [-> | [-> | ->] ] end;
  match goal with H : (_ < _)%nat |- _ => rename H into Hl end;
  unfold pm_states in Hs;
  repeat (apply elem_of_cons in Hs as [->|Hs];
    [first [reflexivity|done|(vm_compute in Hl; lia)]|]); by apply elem_of_nil in Hs.
Qed.

Lemma row_found s : s ∈ pm_states →
  ∃ to_states, mhi_state_transitions !! find_last_bit s = Some (s, to_states).
Proof.
  unfold pm_states. intros Hs.
  repeat (apply elem_of_cons in Hs as [->|Hs]; [eexists; reflexivity|]).
  by apply elem_of_nil in Hs.
Qed.

Lemma tryset_run s m : pm_state m ∈ pm_states →
  mhi_tryset_pm_state s m
  = if allowed (pm_state m) s then Done (s, set_pm s m) else Done (pm_state m, m).
Proof.
  intros Hs. destruct (row_found _ Hs) as [tos E]. unfold mhi_tryset_pm_state, allowed.
  change (get_state ≫= ?f) with (λ m, f m m). cbv beta. unfold mbind, stm_bind, get_state. simpl.
  rewrite E, Z.eqb_refl. simpl. by destruct (tos &' s =? 0).
Qed.

(** C18: A change of the power state is made exactly when the documentation
    allows it; otherwise the state stays and is returned. *)
Theorem tryset_documented m s : pm_state m ∈ pm_states → s ∈ pm_states →
  runs (mhi_tryset_pm_state s) m (λ r m',
    documented (pm_state m) s ∧ r = s ∧ m' = set_pm s m
    ∨ ¬ documented (pm_state m) s ∧ r = pm_state m ∧ m' = m).
Proof.
  intros Hm Hs. destruct (allowed (pm_state m) s) eqn:E; eapply runs_exact;
    try (rewrite tryset_run, E by done; reflexivity).
  - left. split; [by apply table_documented|done].
  - right. split; [|done]. intros D. by rewrite documented_table in E.
Qed.

Lemma tryset_documented_witness :
  let m := ex_mhi MHI_PM_M0 MHI_STATE_M0 [] in
  runs (mhi_tryset_pm_state MHI_PM_M3) m (λ r m', r = MHI_PM_M0 ∧ m' = m).
Proof.
  cbv zeta. assert (H0 : MHI_PM_M0 ∈ pm_states) by (by repeat constructor).
  assert (H3 : MHI_PM_M3 ∈ pm_states) by (by repeat constructor).
  eapply runs_mono; [exact (tryset_documented (ex_mhi MHI_PM_M0 MHI_STATE_M0 []) MHI_PM_M3 H0 H3)|].
  intros r m' [(Hd & _)|(_ & -> & ->)]; [|done].
  apply documented_table in Hd; [discriminate|done].
Defined.
