(* ===== verification/MhiSafe.v ===== *)
(** * Register writes and power states

    The registers of the device may be written only in the power states of
    [MHI_REG_ACCESS_VALID].  The operations of [op] respect that, from any sane
    state and whatever other contexts do while they wait, except for the doorbell
    that wakes the device. *)

From S2P Require Import Prelude Kernel Mhi MhiPm MhiXfer MhiExample MhiPmProps.

#[local] Open Scope Z_scope.
#[local] Open Scope c_scope.

Definition write_ok (wake : Z) (o : output) : Prop :=
  match o with
  | Writel pm addr _ => MHI_REG_ACCESS_VALID pm = true ∨ addr = wake ∨ addr = wake + 4
  | _ => True
  end.

Definition sane (m : mhi_controller) : Prop :=
  pm_state m ∈ pm_states ∧ Forall (write_ok (wake_db m)) (trace m).

(** ** A logic for the power state

    [steady s prog]: from a sane state with power state [s], [prog] stays in
    it; [leads s prog]: it ends in a sane state; [safe prog]: so from any. *)

Definition steady {A} (s : Z) (prog : mhi A) : Prop :=
  ∀ m, sane m → pm_state m = s → ends prog m (λ _ m', sane m' ∧ pm_state m' = s).
Definition leads {A} (s : Z) (prog : mhi A) : Prop :=
  ∀ m, sane m → pm_state m = s → ends prog m (λ _ m', sane m').
Definition safe {A} (prog : mhi A) : Prop := ∀ s, leads s prog.

Create HintDb pm.

Section Logic.
Context {A B : Type}.
Implicit Types (s t : Z).

Lemma steady_ret s (a : A) : steady s (mret a).
Proof. intros m Hm Hs. by apply ends_ret. Qed.

Lemma steady_bind s (prog : mhi A) (f : A → mhi B) :
  steady s prog → (∀ a, steady s (f a)) → steady s (prog ≫= f).
Proof.
  intros H1 H2 m Hm Hs. apply ends_bind. eapply ends_mono; [by apply H1|].
  intros a m' [Hm' Hs']. by apply H2.
Qed.

Lemma steady_get s (f : mhi_controller → mhi B) :
  (∀ m, sane m → pm_state m = s → steady s (f m)) → steady s (get_state ≫= f).
Proof. intros H m Hm Hs. apply ends_bind, ends_get. by apply H. Qed.

Lemma steady_modify s (f : mhi_controller → mhi_controller) :
  (∀ m, pm_state (f m) = pm_state m) → (∀ m, trace (f m) = trace m) →
  (∀ m, wake_db (f m) = wake_db m) → steady s (modify f).
Proof.
  intros E1 E2 E3 m [Hm1 Hm2] Hs. apply ends_modify. unfold sane. by rewrite E1, E2, E3.
Qed.

Lemma steady_lift s (o : outcome A) : steady s (lift o).
Proof. intros m Hm Hs. by apply ends_lift. Qed.

Lemma steady_fault s : steady s (fault : mhi A).
Proof. intros m _ _. apply ends_fault. Qed.
Lemma steady_hang s : steady s (hang : mhi A).
Proof. by intros m _ _ a m'. Qed.

Lemma leads_steady s (prog : mhi A) : steady s prog → leads s prog.
Proof. intros H m Hm Hs. eapply ends_mono; [by apply H|]. by intros a m' []. Qed.

Lemma leads_bind s (prog : mhi A) (f : A → mhi B) :
  steady s prog → (∀ a, leads s (f a)) → leads s (prog ≫= f).
Proof.
  intros H1 H2 m Hm Hs. apply ends_bind. eapply ends_mono; [by apply H1|].
  intros a m' [Hm' Hs']. by apply H2.
Qed.

Lemma leads_get s (f : mhi_controller → mhi B) :
  (∀ m, sane m → pm_state m = s → leads s (f m)) → leads s (get_state ≫= f).
Proof. intros H m Hm Hs. apply ends_bind, ends_get. by apply H. Qed.

Lemma leads_safe_bind s (prog : mhi A) (f : A → mhi B) :
  leads s prog → (∀ a, safe (f a)) → leads s (prog ≫= f).
Proof.
  intros H1 H2 m Hm Hs. apply ends_bind. eapply ends_mono; [by apply H1|].
  intros a m' Hm'. by eapply H2.
Qed.

Lemma safe_bind (prog : mhi A) (f : A → mhi B) :
  safe prog → (∀ a, safe (f a)) → safe (prog ≫= f).
Proof. intros H1 H2 s. by apply leads_safe_bind. Qed.

(** After a change of state, the result is the state. *)
Lemma leads_tryset s t (f : Z → mhi B) : t ∈ pm_states →
  (∀ r, r ∈ pm_states → leads r (f r)) → leads s (mhi_tryset_pm_state t ≫= f).
Proof.
  intros Ht Hf m [Hp Htr] Hs. apply ends_bind. intros r m' E. rewrite tryset_run in E by done.
  destruct (allowed (pm_state m) t); injection E as <- <-; by apply Hf.
Qed.

Lemma leads_wait s cond h timeout (f : Z → mhi B) : Forall sane h →
  (∀ r, safe (f r)) → leads s (wait_event_timeout cond h timeout ≫= f).
Proof.
  intros Hh Hf m Hm Hs. apply ends_bind.
  apply ends_mono with (Φ := λ _ m', sane m'); [|intros r m' Hm'; by eapply Hf].
  clear s Hs. revert h m Hm Hh. induction timeout as [|t IH]; intros h m Hm Hh a m';
    destruct h as [|m1 h]; simpl; destruct (cond m); try by intros [= <- <-].
  apply Forall_cons in Hh as [Hm1 Hh]. by apply IH.
Qed.
End Logic.

Lemma steady_if {A} s (b : bool) (p q : mhi A) :
  (b = true → steady s p) → (b = false → steady s q) → steady s (if b then p else q).
Proof. destruct b; auto. Qed.
Lemma leads_if {A} s (b : bool) (p q : mhi A) :
  (b = true → leads s p) → (b = false → leads s q) → leads s (if b then p else q).
Proof. destruct b; auto. Qed.

Lemma steady_for_each {X} s (l : list X) f : (∀ x, steady s (f x)) → steady s (for_each l f).
Proof.
  intros Hf. induction l as [|x l IH]; [apply steady_ret|]. by apply steady_bind.
Qed.

(** ** Access to the state *)

Lemma steady_chan_at s c : steady s (chan_at c).
Proof. intros m Hm Hs a m'. unfold chan_at. destruct (chans m !! c); [|done]. by intros [= <- <-]. Qed.
Lemma steady_event_at s e : steady s (event_at e).
Proof. intros m Hm Hs a m'. unfold event_at. destruct (events m !! e); [|done]. by intros [= <- <-]. Qed.

Lemma steady_upd_chan s c f : steady s (upd_chan c f).
Proof. apply steady_bind; [apply steady_chan_at|]. intros v. by apply steady_modify. Qed.
Lemma steady_upd_event s e f : steady s (upd_event e f).
Proof. apply steady_bind; [apply steady_event_at|]. intros v. by apply steady_modify. Qed.

Lemma steady_out s o : (∀ wake pm addr val, o = Writel pm addr val → write_ok wake o) → steady s (out o).
Proof.
  intros Ho m [Hm1 Hm2] Hs. apply ends_modify. split; [|done]. split; [done|]. simpl.
  constructor; [|done]. destruct o; try done. by eapply Ho.
Qed.

Lemma steady_write_reg s base off val :
  MHI_REG_ACCESS_VALID s = true → steady s (mhi_write_reg base off val).
Proof.
  intros Hv. apply steady_get. intros m _ Em. apply steady_out. intros wake pm addr v [= <- <- <-].
  left. by rewrite Em.
Qed.

Lemma steady_read_reg s base off : steady s (mhi_read_reg base off).
Proof. apply steady_get. intros. apply steady_ret. Qed.

#[export] Hint Resolve steady_ret steady_lift steady_fault steady_hang steady_chan_at steady_event_at
  steady_upd_chan steady_upd_event steady_read_reg steady_write_reg : pm.
#[export] Hint Extern 2 (steady _ (out _)) => apply steady_out; discriminate : pm.
#[export] Hint Extern 2 (steady _ (modify _)) => by apply steady_modify : pm.

(** Follows the structure of a program. *)
Ltac steady_step :=
  match goal with
  | |- ∀ _, _ => intros ?
  | |- _ → _ => intros ?
  | |- steady _ (mret _) => apply steady_ret
  | |- steady _ (get_state ≫= _) => apply steady_get
  | |- steady _ (_ ≫= _) => apply steady_bind
  | |- steady _ (if _ then _ else _) => apply steady_if
  | |- steady _ (match ?x with _ => _ end) => destruct x
  | |- steady _ (let _ := _ in _) => cbv zeta
  | |- steady _ (for_each _ _) => apply steady_for_each
  | |- steady _ _ => solve [eauto with pm]
  end.
Ltac steady := repeat steady_step.

(** ** Registers and doorbells *)

Lemma steady_read_reg_field s base off mask sh : steady s (mhi_read_reg_field base off mask sh).
Proof. unfold mhi_read_reg_field. steady. Qed.
#[export] Hint Resolve steady_read_reg_field : pm.

Lemma steady_get_exec_env s : steady s mhi_get_exec_env.
Proof. unfold mhi_get_exec_env. steady. Qed.
Lemma steady_get_mhi_state s : steady s mhi_get_mhi_state.
Proof. unfold mhi_get_mhi_state. steady. Qed.
#[export] Hint Resolve steady_get_exec_env steady_get_mhi_state : pm.

Section Valid.
Context (s : Z) (Hv : MHI_REG_ACCESS_VALID s = true).

Lemma steady_write_reg_field base off mask sh val : steady s (mhi_write_reg_field base off mask sh val).
Proof. unfold mhi_write_reg_field. steady. Qed.

Lemma steady_write_db addr wp : steady s (mhi_write_db addr wp).
Proof. unfold mhi_write_db. steady. Qed.

Lemma steady_process_db d addr wp : steady s (process_db d addr wp).
Proof using Hv.
  pose proof steady_write_db. unfold process_db, mhi_db_brstmode, mhi_db_brstmode_disable.
  destruct (brstmode d =? _); steady.
Qed.

Lemma steady_ring_er_db e : steady s (mhi_ring_er_db e).
Proof. pose proof steady_process_db. unfold mhi_ring_er_db. steady. Qed.
Lemma steady_ring_cmd_db : steady s mhi_ring_cmd_db.
Proof. pose proof steady_write_db. unfold mhi_ring_cmd_db. steady. Qed.
Lemma steady_ring_chan_db c : steady s (mhi_ring_chan_db c).
Proof. pose proof steady_process_db. unfold mhi_ring_chan_db. steady. Qed.
Lemma steady_set_mhi_state state : steady s (mhi_set_mhi_state state).
Proof. pose proof steady_write_reg_field. unfold mhi_set_mhi_state. steady. Qed.
End Valid.
#[export] Hint Resolve steady_ring_er_db steady_ring_cmd_db steady_ring_chan_db
  steady_set_mhi_state : pm.

Lemma steady_wake_get s b : steady s (wake_get b).
Proof.
  intros m [Hm1 Hm2] Hs. unfold wake_get, mhi_assert_dev_wake. apply ends_bind, ends_get.
  destruct (dev_state m =? MHI_STATE_M2); [|by apply ends_ret].
  unfold mhi_write_db, mhi_write_reg. repeat (apply ends_bind; try apply ends_get; try apply ends_modify).
  split; [|done]. split; [done|]. simpl.
  constructor; [right; left; lia|]. constructor; [by right; right|done].
Qed.
Lemma steady_wake_put s b : steady s (wake_put b).
Proof. apply steady_ret. Qed.
#[export] Hint Resolve steady_wake_get steady_wake_put : pm.

Lemma db_access_valid s : s ∈ pm_states → MHI_DB_ACCESS_VALID s = true → MHI_REG_ACCESS_VALID s = true.
Proof.
  unfold pm_states. intros Hs.
  repeat (apply elem_of_cons in Hs as [->|Hs]; [by vm_compute|]). by apply elem_of_nil in Hs.
Qed.

Lemma steady_ring_if_m0 s c : steady s (ring_if_m0 c).
Proof.
  apply steady_get. intros m [Hp _] Hs. rewrite Hs in *.
  apply steady_if; [intros H%db_access_valid; [|done]|intros _]; steady.
Qed.
#[export] Hint Resolve steady_ring_if_m0 : pm.

(** ** Queueing and completion *)

Lemma steady_map s : steady s mhi_map_single_no_bb.
Proof. unfold mhi_map_single_no_bb. steady. Qed.
Lemma steady_inc_pending s : steady s inc_pending.
Proof. unfold inc_pending. steady. Qed.
Lemma steady_dec_pending s : steady s dec_pending.
Proof. unfold dec_pending. steady. Qed.
Lemma steady_leave_lpm s : steady s leave_lpm.
Proof. unfold leave_lpm. steady. Qed.
Lemma steady_queue_wake s c : steady s (queue_wake c).
Proof. unfold queue_wake. steady. Qed.
#[export] Hint Resolve steady_map steady_inc_pending steady_dec_pending steady_leave_lpm
  steady_queue_wake : pm.

Lemma steady_store_buf s c b : steady s (store_buf c b).
Proof. unfold store_buf. steady. Qed.
Lemma steady_store_tre s c t : steady s (store_tre c t).
Proof. unfold store_tre. steady. Qed.
Lemma steady_advance_wp s c : steady s (advance_wp c).
Proof. unfold advance_wp. steady. Qed.
#[export] Hint Resolve steady_store_buf steady_store_tre steady_advance_wp : pm.

Lemma steady_gen_tre s c buf cb n flags : steady s (mhi_gen_tre c buf cb n flags).
Proof. unfold mhi_gen_tre. steady. Qed.
#[export] Hint Resolve steady_gen_tre : pm.
Lemma steady_queue_buf s c buf n flags : steady s (mhi_queue_buf c buf n flags).
Proof. unfold mhi_queue_buf. steady. Qed.
Lemma steady_queue_skb s c skb data n : steady s (mhi_queue_skb c skb data n).
Proof. unfold mhi_queue_skb. steady. Qed.
Lemma steady_queue_dma s c buf dma_addr n : steady s (mhi_queue_dma c buf dma_addr n).
Proof. unfold mhi_queue_dma. steady. Qed.
#[export] Hint Resolve steady_queue_buf steady_queue_skb steady_queue_dma : pm.

Lemma steady_complete_one s c status n : steady s (complete_one c status n).
Proof. unfold complete_one. steady. Qed.
#[export] Hint Resolve steady_complete_one : pm.
Lemma steady_complete_loop s fuel c dev_rp status n : steady s (complete_loop fuel c dev_rp status n).
Proof. induction fuel; simpl; steady. Qed.
#[export] Hint Resolve steady_complete_loop : pm.

Lemma steady_xfer_event s ev c : steady s (parse_xfer_event ev c).
Proof.
  unfold parse_xfer_event. steady.
  match goal with
  | H : (_ && MHI_DB_ACCESS_VALID _)%bool = true, Hm : sane _ |- _ =>
    apply andb_true_iff in H as [_ H]; destruct Hm as [Hp _];
    apply steady_ring_chan_db, db_access_valid; congruence
  end.
Qed.
Lemma steady_rsc_event s ev c : steady s (parse_rsc_event ev c).
Proof. unfold parse_rsc_event. steady. Qed.
Lemma steady_cmd_completion s ev : steady s (mhi_process_cmd_completion ev).
Proof. unfold mhi_process_cmd_completion. steady. Qed.
#[export] Hint Resolve steady_xfer_event steady_rsc_event steady_cmd_completion : pm.

(** ** Event rings *)

Lemma steady_recycle s e : steady s (recycle e).
Proof. unfold recycle. steady. Qed.
Lemma steady_ev_done s e count : steady s (ev_done e count).
Proof.
  unfold ev_done. steady.
  match goal with H : MHI_DB_ACCESS_VALID _ = true, Hm : sane _ |- _ =>
    destruct Hm as [Hp _]; apply steady_ring_er_db, db_access_valid; congruence end.
Qed.
#[export] Hint Resolve steady_recycle steady_ev_done : pm.

Lemma steady_data_ev_loop s fuel e quota n count : steady s (data_ev_loop fuel e quota n count).
Proof.
  revert quota n count. induction fuel as [|fuel IH]; intros; simpl; steady; apply IH.
Qed.
#[export] Hint Resolve steady_data_ev_loop : pm.
Lemma steady_data_event_ring s e quota : steady s (mhi_process_data_event_ring e quota).
Proof. unfold mhi_process_data_event_ring. steady. Qed.
#[export] Hint Resolve steady_data_event_ring : pm.

(** ** Commands, start and stop *)

Lemma steady_send_cmd s chan c : steady s (mhi_send_cmd chan c).
Proof.
  unfold mhi_send_cmd. steady.
  match goal with H : MHI_DB_ACCESS_VALID (pm_state ?m) = true, Hm : sane ?m |- _ =>
    destruct Hm as [Hp _]; apply steady_ring_cmd_db, db_access_valid; congruence end.
Qed.
Lemma steady_init_chan s c place kz : steady s (mhi_init_chan_ctxt c place kz).
Proof. unfold mhi_init_chan_ctxt. steady. Qed.
Lemma steady_deinit_chan s c : steady s (mhi_deinit_chan_ctxt c).
Proof. unfold mhi_deinit_chan_ctxt. steady. Qed.
#[export] Hint Resolve steady_send_cmd steady_init_chan steady_deinit_chan : pm.

Lemma steady_stale_loop s fuel e p dev_rp chan : steady s (stale_loop fuel e p dev_rp chan).
Proof. revert p. induction fuel as [|fuel IH]; intros; simpl; steady; apply IH. Qed.
#[export] Hint Resolve steady_stale_loop : pm.
Lemma steady_mark_stale s e chan : steady s (mhi_mark_stale_events e chan).
Proof. unfold mhi_mark_stale_events. steady. Qed.
Lemma steady_reset_one s c : steady s (reset_one c).
Proof. unfold reset_one. steady. Qed.
#[export] Hint Resolve steady_mark_stale steady_reset_one : pm.
Lemma steady_reset_loop s fuel c : steady s (reset_loop fuel c).
Proof. induction fuel; simpl; steady. Qed.
#[export] Hint Resolve steady_reset_loop : pm.
Lemma steady_reset_chan s c : steady s (mhi_reset_chan c).
Proof. unfold mhi_reset_chan, mhi_reset_rsc_chan, mhi_reset_data_chan. steady. Qed.
#[export] Hint Resolve steady_reset_chan : pm.
Lemma steady_pre_alloc s bufs n c l : steady s (pre_alloc_loop bufs n c l).
Proof. revert bufs. induction n as [|n IH]; intros; simpl; steady. Qed.
#[export] Hint Resolve steady_pre_alloc : pm.

(** ** Changes of state *)

Ltac pm_known := first [assumption | solve [repeat constructor]].

Ltac leads_step :=
  match goal with
  | |- ∀ _, _ => intros ?
  | |- _ → _ => intros ?
  | |- safe _ => intros ?
  | |- leads _ (get_state ≫= _) => apply leads_get
  | |- leads _ (mhi_tryset_pm_state _ ≫= _) => apply leads_tryset; [pm_known|]
  | |- leads _ (wait_event_timeout _ _ _ ≫= _) => apply leads_wait; [assumption|]
  | |- leads _ (if _ then _ else _) => apply leads_if
  | |- leads _ (let _ := _ in _) => cbv zeta
  | |- leads _ ((if _ then _ else _) ≫= _) => apply leads_bind; [solve [steady]|]
  | |- leads _ (_ ≫= _) => first [apply leads_bind; [solve [steady]|] | apply leads_safe_bind]
  | |- leads _ _ => solve [apply leads_steady; steady | eauto with pm]
  end.
Ltac leads := repeat leads_step.

Lemma eqb_valid r s : (r =? s) = true → MHI_REG_ACCESS_VALID s = true → MHI_REG_ACCESS_VALID r = true.
Proof. by intros ->%Z.eqb_eq. Qed.
Lemma neqb_valid r s :
  negb (r =? s) = false → MHI_REG_ACCESS_VALID s = true → MHI_REG_ACCESS_VALID r = true.
Proof. rewrite negb_false_iff. apply eqb_valid. Qed.
#[local] Hint Extern 4 (MHI_REG_ACCESS_VALID _ = true) =>
  first [by vm_compute | eapply eqb_valid; [eassumption|by vm_compute]
        | eapply neqb_valid; [eassumption|by vm_compute]] : pm.
#[local] Hint Unfold for_indices : pm.

Lemma safe_m0 : safe mhi_pm_m0_transition.
Proof. unfold mhi_pm_m0_transition, for_indices. leads. Qed.
Lemma safe_m1 : safe mhi_pm_m1_transition.
Proof. unfold mhi_pm_m1_transition. leads. Qed.
Lemma safe_m3 : safe mhi_pm_m3_transition.
Proof. unfold mhi_pm_m3_transition. leads. Qed.
Lemma safe_sys_err : safe sys_err_event.
Proof. unfold sys_err_event. leads. Qed.
Lemma safe_linkdown : safe force_linkdown.
Proof. unfold force_linkdown. leads. Qed.
#[export] Hint Extern 1 (leads _ mhi_pm_m0_transition) => apply safe_m0 : pm.
#[export] Hint Extern 1 (leads _ mhi_pm_m1_transition) => apply safe_m1 : pm.
#[export] Hint Extern 1 (leads _ mhi_pm_m3_transition) => apply safe_m3 : pm.
#[export] Hint Extern 1 (leads _ sys_err_event) => apply safe_sys_err : pm.

Lemma safe_check_sys_err : safe check_sys_err.
Proof. unfold check_sys_err. leads. Qed.
#[export] Hint Extern 1 (leads _ check_sys_err) => apply safe_check_sys_err : pm.

Lemma safe_intvec : safe mhi_intvec_threaded_handlr.
Proof.
  intros s. unfold mhi_intvec_threaded_handlr. apply leads_get. intros m _ _.
  apply leads_bind; [steady|]. intros [state ee'].
  destruct (_ && _); [|leads]. leads.
Qed.
#[export] Hint Extern 1 (leads _ mhi_intvec_threaded_handlr) => apply safe_intvec : pm.

Lemma safe_ready_wait h timeout reset ready : Forall sane h → safe (ready_wait h timeout reset ready).
Proof.
  intros Hh s m Hm _. revert h m reset ready Hm Hh.
  induction timeout as [|t IH]; intros h m reset ready Hm Hh a m'; destruct h as [|m1 h]; simpl;
    destruct (ready_cond m reset ready) as [[[] ?] ?]; try by intros [= <- <-].
  apply Forall_cons in Hh as [Hm1 Hh]. by apply IH.
Qed.

Lemma safe_ready h timeout init_mmio : Forall sane h → safe (mhi_ready_state_transition h timeout init_mmio).
Proof.
  intros Hh s. unfold mhi_ready_state_transition, for_indices. apply leads_safe_bind; [by apply safe_ready_wait|].
  intros [reset ready]. leads.
Qed.

Lemma safe_disable_enter t : t = MHI_PM_SYS_ERR_PROCESS ∨ t = MHI_PM_SHUTDOWN_PROCESS →
  safe (disable_enter t).
Proof. intros [-> | ->]; unfold disable_enter; leads. Qed.

Lemma safe_disable_finish cur h timeout init_mmio : Forall sane h →
  safe (disable_finish cur h timeout init_mmio).
Proof.
  intros Hh s. unfold disable_finish, for_indices. leads. by apply safe_ready.
Qed.

Lemma safe_suspend h h' timeout : Forall sane h → Forall sane h' → safe (mhi_pm_suspend h h' timeout).
Proof. intros Hh Hh'. unfold mhi_pm_suspend. leads. Qed.
Lemma safe_resume h timeout : Forall sane h → safe (mhi_pm_resume h timeout).
Proof. intros Hh. unfold mhi_pm_resume. leads. Qed.
Lemma safe_get_sync h timeout : Forall sane h → safe (device_get_sync h timeout).
Proof. intros Hh. unfold device_get_sync. leads. Qed.

Lemma safe_ctrl_event ev : safe (ctrl_event ev).
Proof. unfold ctrl_event, state_change_event, ee_event. leads. Qed.
Lemma safe_ctrl_loop fuel e count : safe (ctrl_ev_loop fuel e count).
Proof.
  revert count. induction fuel as [|fuel IH]; intros count s; simpl; leads;
    [by apply safe_ctrl_event|by apply IH].
Qed.
Lemma safe_ctrl_ring e : safe (mhi_process_ctrl_ev_ring e).
Proof. unfold mhi_process_ctrl_ev_ring. leads. by apply safe_ctrl_loop. Qed.
Lemma safe_ctrl_task e : safe (mhi_ctrl_ev_task e).
Proof. unfold mhi_ctrl_ev_task. leads. by apply safe_ctrl_ring. Qed.

Lemma safe_unprepare c await : safe await → safe (mhi_unprepare_channel c await).
Proof. intros Ha. unfold mhi_unprepare_channel. leads; by apply Ha. Qed.
Lemma safe_prepare c place kz await bufs await' : safe await → safe await' →
  safe (mhi_prepare_channel c place kz await bufs await').
Proof.
  intros Ha Ha'. unfold mhi_prepare_channel. leads; first [by apply Ha | by apply safe_unprepare].
Qed.

(** ** Any sequence of operations *)

(** The operations that clients, the kernel and interrupts run on a device that has
    been powered up; [mhi_async_power_up] and [mhi_force_rddm_mode], which write
    registers in any power state, are not among them.  Each is one step. *)
Inductive op :=
| Queue_buf (c : nat) (buf len mflags : Z)
| Queue_skb (c : nat) (skb data len : Z)
| Queue_dma (c : nat) (buf dma_addr len : Z)
| Ev_task (e : nat) | Poll (e : nat) (budget : Z) | Ctrl_ev_task (e : nat)
| Intvec
| Suspend (h h' : list mhi_controller) (timeout : nat)
| Resume (h : list mhi_controller) (timeout : nat)
| Get_sync (h : list mhi_controller) (timeout : nat)
| Get | Put
| Prepare (c : nat) (place : Z * Z) (kzalloc : option Z) (await : mhi Z) (bufs : list (option Z))
    (await' : mhi Z)
| Unprepare (c : nat) (await : mhi Z)
| Ready (h : list mhi_controller) (timeout : nat) (init_mmio : Z)
| Linkdown
| Disable_enter (transition_state : Z)
| Disable_finish (cur_state : Z) (h : list mhi_controller) (timeout : nat) (init_mmio : Z).

Definition run_op (o : op) : mhi () :=
  match o with
  | Queue_buf c buf len mflags => ignore (mhi_queue_buf c buf len mflags)
  | Queue_skb c skb data len => ignore (mhi_queue_skb c skb data len)
  | Queue_dma c buf dma_addr len => ignore (mhi_queue_dma c buf dma_addr len)
  | Ev_task e => mhi_ev_task e
  | Poll e budget => ignore (mhi_process_data_event_ring e budget)
  | Ctrl_ev_task e => mhi_ctrl_ev_task e
  | Intvec => mhi_intvec_threaded_handlr
  | Suspend h h' timeout => ignore (mhi_pm_suspend h h' timeout)
  | Resume h timeout => ignore (mhi_pm_resume h timeout)
  | Get_sync h timeout => ignore (device_get_sync h timeout)
  | Get => mhi_device_get
  | Put => mhi_device_put
  | Prepare c place kz await bufs await' => ignore (mhi_prepare_channel c place kz await bufs await')
  | Unprepare c await => mhi_unprepare_channel c await
  | Ready h timeout init_mmio => ignore (mhi_ready_state_transition h timeout init_mmio)
  | Linkdown => force_linkdown
  | Disable_enter t => ignore (disable_enter t)
  | Disable_finish cur h timeout init_mmio => disable_finish cur h timeout init_mmio
  end.

(** What other contexts leave behind is sane, and so is what they do while a
    command is awaited; the transitions to reset and shutdown are the two the
    driver makes. *)
Definition op_ok (o : op) : Prop :=
  match o with
  | Suspend h h' _ => Forall sane h ∧ Forall sane h'
  | Resume h _ | Get_sync h _ | Ready h _ _ | Disable_finish _ h _ _ => Forall sane h
  | Prepare _ _ _ await _ await' => safe await ∧ safe await'
  | Unprepare _ await => safe await
  | Disable_enter t => t = MHI_PM_SYS_ERR_PROCESS ∨ t = MHI_PM_SHUTDOWN_PROCESS
  | _ => True
  end.

Lemma safe_ignore {A} (prog : mhi A) : safe prog → safe (ignore prog).
Proof. intros H. apply safe_bind; [done|]. intros _ s. apply leads_steady, steady_ret. Qed.

Lemma safe_op o : op_ok o → safe (run_op o).
Proof.
  destruct o; simpl; intros Ho; try solve [apply safe_linkdown]; try apply safe_ignore;
    try (by intros s; apply leads_steady; unfold mhi_ev_task, mhi_device_get, mhi_device_put; steady).
  - apply safe_ctrl_task.
  - apply safe_intvec.
  - destruct Ho. by apply safe_suspend.
  - by apply safe_resume.
  - by apply safe_get_sync.
  - destruct Ho. by apply safe_prepare.
  - by apply safe_unprepare.
  - by apply safe_ready.
  - by apply safe_disable_enter.
  - by apply safe_disable_finish.
Qed.

(** Whatever sequence of the operations [op] the clients, the kernel, the device and
    interrupts start, one after the other, the power state is one of the twelve,
    and every register write of these operations is made in a state in which
    registers may be accessed, the doorbell that wakes the device excepted.  Not
    among the operations are [mhi_async_power_up], which writes registers in
    [MHI_PM_DISABLE], and [mhi_force_rddm_mode], which does not look at the
    state; and an operation is one step here, also [mhi_pm_m0_transition], which
    drops [pm_lock] between its change of the state and the doorbells. *)
Theorem register_writes_allowed m ops : sane m → Forall op_ok ops →
  ends (for_each ops run_op) m (λ _ m', pm_state m' ∈ pm_states
    ∧ ∀ pm addr val, Writel pm addr val ∈ trace m' →
        MHI_REG_ACCESS_VALID pm = true ∨ addr = wake_db m' ∨ addr = wake_db m' + 4).
Proof.
  intros Hm Hops. apply ends_mono with (Φ := λ _ m', sane m').
  - revert m Hm. induction Hops as [|o ops Ho _ IH]; intros m Hm; simpl; [by apply ends_ret|].
    apply ends_bind. eapply ends_mono; [by eapply safe_op|]. intros [] m' Hm'. by apply IH.
  - intros _ m' [Hp Ht]. split; [done|]. intros pm addr val Hin.
    rewrite Forall_forall in Ht. by apply (Ht _ Hin).
Qed.

(** The exception is an error: when the link is lost while the device
    sleeps in M2, a client's request to wake it writes the doorbell although the
    registers may not be accessed any more. *)
Theorem wake_doorbell_on_dead_link m : pm_state m = MHI_PM_M2 → dev_state m = MHI_STATE_M2 →
  runs (force_linkdown;; mhi_device_get) m (λ _ m',
    pm_state m' = MHI_PM_LD_ERR_FATAL_DETECT
    ∧ MHI_REG_ACCESS_VALID (pm_state m') = false
    ∧ trace m' = Writel (pm_state m') (wake_db m) 1 :: Writel (pm_state m') (wake_db m + 4) 0 :: trace m).
Proof.
  intros Hp Hd. unfold force_linkdown. apply runs_bind, runs_bind.
  eapply runs_exact.
  { rewrite tryset_run by (rewrite Hp; repeat constructor). rewrite Hp. reflexivity. }
  apply runs_ret. unfold mhi_device_get, wake_get, mhi_assert_dev_wake.
  apply runs_bind, runs_get. simpl. rewrite Hd. eapply runs_exact; [reflexivity|].
  split_and!; try done. simpl. by rewrite Z.add_0_r.
Qed.

Lemma register_writes_allowed_witness :
  let m := ex_mhi MHI_PM_M0 MHI_STATE_M0 [ex_chan 0 true false MHI_CH_STATE_ENABLED] in
  ends (for_each [Queue_skb 0 0x42 0x43 10; Ev_task 0; Linkdown; Intvec] run_op) m
    (λ _ m', pm_state m' ∈ pm_states
      ∧ ∀ pm addr val, Writel pm addr val ∈ trace m' →
          MHI_REG_ACCESS_VALID pm = true ∨ addr = wake_db m' ∨ addr = wake_db m' + 4).
Proof.
  cbv zeta. apply register_writes_allowed.
  - split; [by repeat constructor|constructor].
  - repeat constructor.
Defined.

Lemma wake_doorbell_on_dead_link_witness :
  let m := ex_mhi MHI_PM_M2 MHI_STATE_M2 [] in
  runs (force_linkdown;; mhi_device_get) m (λ _ m',
    pm_state m' = MHI_PM_LD_ERR_FATAL_DETECT
    ∧ MHI_REG_ACCESS_VALID (pm_state m') = false
    ∧ trace m' = Writel (pm_state m') (wake_db m) 1 :: Writel (pm_state m') (wake_db m + 4) 0 :: trace m).
Proof. cbv zeta. by apply wake_doorbell_on_dead_link. Defined.
