(* ===== verification/MhiRing.v ===== *)
(** * The Modem Host Interface: the rings as bounded queues

    A ring of [n] elements whose pointers stay inside it holds a queue of at
    most [n - 1] elements: the free slot tells the full ring from the empty one. *)

From S2P Require Import Prelude Kernel Mhi.

#[local] Open Scope Z_scope.

(** The layout: [n] elements of [es] bytes at a sane address. *)
Record layout {A} (n es : Z) (r : mhi_ring A) : Prop := {
  lay_n : 2 ≤ n;
  lay_es : 0 < es;
  lay_size : es * n < 2 ^ 31;
  lay_el : el_size r = es;
  lay_elements : elements r = n;
  lay_len : len r = es * n;
  lay_base : 0 < base r ∧ base r + es * n < 2 ^ 63;
  lay_mem : Z.of_nat (length (mem r)) = n;
}.

(** The address of the element [i] places behind the first one, around the ring. *)
Definition place {A} (n es : Z) (r : mhi_ring A) (i : Z) : Z := base r + es * (i mod n).

(** The ring holds [q], from the element [i] on. *)
Record ring_holds {A} (n es i : Z) (r : mhi_ring A) (q : list A) : Prop := {
  holds_layout : layout n es r;
  holds_rp : rp r = place n es r i;
  holds_wp : wp r = place n es r (i + Z.of_nat (length q));
  holds_cap : Z.of_nat (length q) ≤ n - 1;
  holds_mem : ∀ j x, q !! j = Some x → mem r !! Z.to_nat ((i + Z.of_nat j) mod n) = Some x;
}.

Section Rings.
Context {A : Type}.
Implicit Types (r : mhi_ring A) (q : list A).

Lemma place_range n es r i : layout n es r →
  base r ≤ place n es r i ≤ base r + es * (n - 1).
Proof.
  intros []. unfold place. pose proof (Z.mod_pos_bound i n). nia.
Qed.

Lemma place_mod n es r i : place n es r (i mod n) = place n es r i.
Proof. unfold place. by rewrite Zmod_mod. Qed.

Lemma place_inj n es r i j : layout n es r → place n es r i = place n es r j ↔ i mod n = j mod n.
Proof. intros []. unfold place. split; intros E; [nia|by rewrite E]. Qed.

Lemma slot_place n es r i : layout n es r → slot r (place n es r i) = Some (Z.to_nat (i mod n)).
Proof.
  intros []. unfold slot, place. pose proof (Z.mod_pos_bound i n).
  replace (base r + es * (i mod n) - base r) with (i mod n * es) by lia.
  rewrite lay_el0, lay_len0, Z.mod_mul, Z.div_mul by lia.
  by rewrite (proj2 (Z.leb_le _ _)), (proj2 (Z.ltb_lt _ _)) by nia.
Qed.

(** One element further. *)
Lemma place_succ n es r i : layout n es r →
  (let p := place n es r i + es in if base r + es * n <=? p then base r else p) = place n es r (i + 1).
Proof.
  intros []. unfold place. pose proof (Z.mod_pos_bound i n). cbv zeta.
  destruct (decide (i mod n = n - 1)) as [E|E].
  - rewrite (proj2 (Z.leb_le _ _)) by nia. rewrite Zplus_mod, E, (Z.mod_small 1) by lia.
    replace (n - 1 + 1) with n by lia. rewrite Z_mod_same_full. lia.
  - rewrite (proj2 (Z.leb_gt _ _)) by nia.
    rewrite (Z.mod_eq (i + 1) n) by lia.
    replace ((i + 1) / n) with (i / n).
    + rewrite (Z.mod_eq i n) in * by lia. lia.
    + apply Z.div_unique_pos with (i mod n + 1); [lia|]. pose proof (Z.div_mod i n). lia.
Qed.

Lemma place_same n es r r' i : base r' = base r → place n es r' i = place n es r i.
Proof. unfold place. by intros ->. Qed.

(** Two places less than a turn apart differ. *)
Lemma place_near n es r i j : layout n es r → i < j < i + n → place n es r i ≠ place n es r j.
Proof.
  intros HL Hij E. apply place_inj in E; [|done]. destruct HL.
  assert ((j - i) mod n = 0) as E' by (by rewrite Zminus_mod, E, Z.sub_diag, Zmod_0_l).
  rewrite Z.mod_small in E'; lia.
Qed.

(** ** The tests *)

Lemma holds_empty n es i r q : ring_holds n es i r q → (wp r =? rp r) = bool_decide (q = []).
Proof.
  intros [HL Hr Hw Hc _]. rewrite Hr, Hw. destruct q as [|x q].
  - rewrite Z.add_0_r, Z.eqb_refl. done.
  - rewrite bool_decide_false by done. apply Z.eqb_neq. symmetry.
    apply place_near; [done|]. rewrite length_cons in *. lia.
Qed.

Lemma holds_full n es i r q : ring_holds n es i r q →
  mhi_is_ring_full r = bool_decide (Z.of_nat (length q) = n - 1).
Proof.
  intros [HL Hr Hw Hc _]. unfold mhi_is_ring_full. pose proof HL as [].
  rewrite Hw, lay_el0, lay_len0, place_succ, Hr by done.
  destruct (decide (Z.of_nat (length q) = n - 1)) as [E|E].
  - rewrite bool_decide_true by done. apply Z.eqb_eq. apply place_inj; [done|].
    rewrite E. replace (i + (n - 1) + 1) with (i + 1 * n) by lia. by rewrite Z_mod_plus_full.
  - rewrite bool_decide_false by done. apply Z.eqb_neq. symmetry. apply place_near; [done|]. lia.
Qed.

(** The distance of two places, around the ring. *)
Lemma place_dist n es r i k : layout n es r → 0 ≤ k < n →
  place n es r (i + k) - place n es r i = es * k
  ∨ place n es r (i + k) - place n es r i = es * (k - n).
Proof.
  intros HL Hk. destruct HL. unfold place. pose proof (Z.mod_pos_bound i n).
  pose proof (Z.mod_pos_bound (i + k) n). rewrite (Zplus_mod i k), (Z.mod_small k) by lia.
  destruct (decide (i mod n + k < n)).
  - left. rewrite Z.mod_small by lia. lia.
  - right. replace (i mod n + k) with (i mod n + k - n + 1 * n) by lia.
    rewrite Z_mod_plus_full, Z.mod_small by lia. lia.
Qed.

Lemma holds_avail n es i r q : ring_holds n es i r q →
  get_nr_avail_ring_elements r = n - 1 - Z.of_nat (length q).
Proof.
  intros [HL Hr Hw Hc _]. unfold get_nr_avail_ring_elements. pose proof HL as [].
  pose proof (place_dist n es r i (Z.of_nat (length q)) HL ltac:(lia)) as Hd.
  rewrite <- Hr, <- Hw in Hd. rewrite lay_el0, lay_len0.
  assert (Hdiv : ∀ k, 0 ≤ k → k ≤ n → u64 (es * k) / es = k).
  { intros k ??. unfold u64. rewrite Z.mod_small by nia. rewrite Z.mul_comm. apply Z.div_mul. lia. }
  set (l := Z.of_nat (length q)) in *. destruct (Z.ltb_spec (wp r) (rp r)).
  - replace (rp r - wp r) with (es * (n - l)) by nia. rewrite Hdiv, s32_small by nia. lia.
  - assert (0 ≤ l) by lia. pose proof (Z.mod_pos_bound i n).
    assert (rp r - base r = es * (i mod n)) by (rewrite Hr; unfold place; lia).
    assert (base r + es * n - wp r = es * (n - i mod n - l)).
    { pose proof (place_range n es r (i + l) HL). rewrite <- Hw in *. nia. }
    assert (i mod n + l < n).
    { pose proof (place_range n es r (i + l) HL). rewrite <- Hw in *. nia. }
    replace (rp r - base r) with (es * (i mod n)) by lia.
    replace (base r + es * n - wp r) with (es * (n - i mod n - l)) by lia.
    rewrite !Hdiv, (s32_small (i mod n)), s32_small by nia. lia.
Qed.

Lemma used_place n r i k : layout n SIZEOF_TRE r → 0 ≤ k < n →
  get_used_ring_elements (place n SIZEOF_TRE r i) (place n SIZEOF_TRE r (i + k)) n = k.
Proof.
  intros HL Hk. pose proof (place_dist n SIZEOF_TRE r i k HL Hk) as Hd. destruct HL.
  unfold get_used_ring_elements. unfold SIZEOF_TRE in *.
  assert (Hdiv : ∀ k, 0 ≤ k → k ≤ n → u64 (16 * k) / 16 = k).
  { intros j ??. unfold u64. rewrite Z.mod_small by lia. rewrite Z.mul_comm. apply Z.div_mul. lia. }
  destruct (Z.leb_spec (place n 16 r i) (place n 16 r (i + k))).
  - replace (place n 16 r (i + k) - place n 16 r i) with (16 * k) by lia.
    rewrite Hdiv, u32_small by lia. lia.
  - replace (place n 16 r i - place n 16 r (i + k)) with (16 * (n - k)) by lia.
    rewrite Hdiv, (u32_small (n - k)), u32_small by lia. lia.
Qed.

(** ** The operations *)

Lemma layout_set n es r r' : base r' = base r → el_size r' = el_size r → len r' = len r →
  elements r' = elements r → length (mem r') = length (mem r) → layout n es r → layout n es r'.
Proof. intros E1 E2 E3 E4 E5 []. split; by rewrite ?E1, ?E2, ?E3, ?E4, ?E5. Qed.

Lemma holds_load n es i r x q : ring_holds n es i r (x :: q) → load r (rp r) = Done x.
Proof.
  intros [HL Hr _ _ Hm]. unfold load. rewrite Hr, (slot_place n es) by done. simpl.
  specialize (Hm 0%nat x eq_refl). rewrite Z.add_0_r in Hm. by rewrite Hm.
Qed.

Lemma holds_wp_slot n es i r q : ring_holds n es i r q →
  ∃ k y, slot r (wp r) = Some k ∧ (k < length (mem r))%nat ∧ mem r !! k = Some y
    ∧ k = Z.to_nat ((i + Z.of_nat (length q)) mod n).
Proof.
  intros [HL _ Hw _ _]. pose proof HL as [].
  set (j := i + Z.of_nat (length q)) in *. pose proof (Z.mod_pos_bound j n).
  assert (Hk : (Z.to_nat (j mod n) < length (mem r))%nat) by lia.
  destruct (lookup_lt_is_Some_2 _ _ Hk) as [y Hy].
  exists (Z.to_nat (j mod n)), y. by rewrite Hw, (slot_place n es).
Qed.

(** What is written behind the queue does not disturb it. *)
Lemma holds_store n es i r q x : ring_holds n es i r q →
  ∃ k, let r' := set_mem (<[k := x]> (mem r)) r in
    store r (wp r) x = Done r' ∧ ring_holds n es i r' q ∧ load r' (wp r) = Done x.
Proof.
  intros Hq. destruct (holds_wp_slot _ _ _ _ _ Hq) as (k & y & Hs & Hk & _ & Ek).
  destruct Hq as [HL Hr Hw Hc Hm]. exists k. cbv zeta.
  unfold store. rewrite Hs, decide_True by done. split; [done|]. split.
  - split; try done.
    + eapply layout_set; [..|done]; try done. simpl. by rewrite length_insert.
    + intros j z Hj. simpl. pose proof HL as []. pose proof (lookup_lt_Some _ _ _ Hj).
      rewrite list_lookup_insert_ne; [by apply Hm|]. subst k.
      pose proof (Z.mod_pos_bound (i + Z.of_nat j) n).
      pose proof (Z.mod_pos_bound (i + Z.of_nat (length q)) n). intros E.
      apply (place_near n es r (i + Z.of_nat j) (i + Z.of_nat (length q)) HL); [lia|].
      apply place_inj; [done|]. lia.
  - unfold load. change (slot (set_mem _ r) (wp r)) with (slot r (wp r)). rewrite Hs.
    simpl. by rewrite list_lookup_insert_eq.
Qed.

Lemma holds_ctxt n es i r q x : ring_holds n es i r q → ring_holds n es i (set_ctxt_wp x r) q.
Proof. intros [HL ????]. split; try done. by apply (layout_set n es r). Qed.

(** The element behind the queue can be read. *)
Lemma holds_load_wp n es i r q : ring_holds n es i r q → ∃ y, load r (wp r) = Done y ∧ y ∈ mem r.
Proof.
  intros Hq. destruct (holds_wp_slot _ _ _ _ _ Hq) as (k & y & Hs & _ & Hy & _).
  exists y. unfold load. rewrite Hs. simpl. rewrite Hy. split; [done|]. by apply list_elem_of_lookup; exists k.
Qed.

Lemma load_slot n es i r q x k : ring_holds n es i r q → load r (wp r) = Done x →
  k = Z.to_nat ((i + Z.of_nat (length q)) mod n) → mem r !! k = Some x.
Proof.
  intros Hq Hl ->. destruct (holds_wp_slot _ _ _ _ _ Hq) as (k & y & Hs & _ & Hy & ->).
  unfold load in Hl. rewrite Hs in Hl. simpl in Hl. rewrite Hy in Hl. by simplify_eq.
Qed.

(** Moving the write pointer adds the element it points at. *)
Lemma holds_add n es i r q x : ring_holds n es i r q → load r (wp r) = Done x →
  Z.of_nat (length q) < n - 1 → ring_holds n es i (mhi_add_ring_element r) (q ++ [x]).
Proof.
  intros Hq Hx Hlt. pose proof (load_slot _ _ _ _ _ _ _ Hq Hx eq_refl) as Hs.
  destruct Hq as [HL Hr Hw Hc Hm]. pose proof HL as [].
  split; try done.
  - simpl. rewrite lay_el0, lay_len0, Hw, place_succ by done.
    rewrite length_app. unfold place. simpl. do 3 f_equal. lia.
  - rewrite length_app. simpl. lia.
  - intros j y Hj. apply lookup_app_Some in Hj as [Hj|[Hge Hj]]; [by apply Hm|].
    assert (j = length q) as -> by (apply lookup_lt_Some in Hj; simpl in Hj; lia).
    rewrite Nat.sub_diag in Hj. injection Hj as <-. done.
Qed.

Lemma holds_del n es i r x q : ring_holds n es i r (x :: q) →
  ring_holds n es (i + 1) (mhi_del_ring_element r) q.
Proof.
  intros [HL Hr Hw Hc Hm]. pose proof HL as [].
  split; try done.
  - simpl. by rewrite lay_el0, lay_len0, Hr, place_succ by done.
  - simpl. rewrite Hw, length_cons. unfold place. cbn [base mhi_del_ring_element set_rp].
    do 2 f_equal. f_equal. lia.
  - rewrite length_cons in Hc. lia.
  - intros j y Hj. specialize (Hm (S j) y Hj). simpl. rewrite <- Hm. do 3 f_equal. lia.
Qed.

(** ** Addresses of the device *)

(** The device's address of the element [i] places behind the first one. *)
Definition dev_place (n es : Z) r (i : Z) : Z := mhi_to_physical r (place n es r i).

Lemma virtual_physical n es r i : layout n es r →
  mhi_to_virtual r (dev_place n es r i) = place n es r i.
Proof.
  intros HL. pose proof (place_range n es r i HL). destruct HL.
  unfold dev_place, mhi_to_virtual, mhi_to_physical, u64. set (p := place n es r i) in *.
  replace ((p - base r + iommu_base r) mod 2 ^ 64 - iommu_base r + base r)
    with ((p - base r + iommu_base r) mod 2 ^ 64 + (base r - iommu_base r)) by lia.
  rewrite Zplus_mod_idemp_l. replace (_ + (base r - iommu_base r)) with p by lia.
  apply Z.mod_small. nia.
Qed.
End Rings.
