(* ===== verification/MhiSpec.v ===== *)
(** * The Modem Host Interface: channels as queues

    The contract of the channels: an abstract machine in which a channel is a
    bounded queue of buffers, and the part of the driver's state that the
    contract speaks about. *)

From S2P Require Import Prelude Kernel Mhi MhiPm MhiXfer MhiExample MhiPmProps MhiRing.

#[local] Open Scope Z_scope.
#[local] Open Scope c_scope.

(** ** The abstract machine *)

(** A queued buffer: what the client gets back, its length, the address the
    device uses, and whether the client has mapped it. *)
Record item := Item { it_cb : Z; it_len : Z; it_addr : Z; it_pre : bool }.

(** A channel; [a_q] is [None] while it is not started, [a_dma] says that the
    client maps the buffers, [a_done] counts the buffers that came back, and
    [a_base] and [a_dev] are the addresses of the ring shared with the device, for
    the host and for the device. *)
Record achan := AChan {
  a_id : Z; a_up : bool; a_pre : bool; a_dma : bool; a_cap : Z; a_base : Z; a_dev : Z;
  a_done : Z; a_q : option (list item);
}.

(** What clients and memory management see. *)
Inductive aout :=
| AUnmap (addr len : Z)
| ACb (id : Z) (res : mhi_result)
| AFree (buf : Z).

Record astate := AState {
  a_pm : Z; a_maps : list (option Z); a_chans : list achan; a_out : list aout;
}.

Definition set_q (q : list item) (ch : achan) : achan :=
  AChan (a_id ch) (a_up ch) (a_pre ch) (a_dma ch) (a_cap ch) (a_base ch) (a_dev ch) (a_done ch) (Some q).
Definition add_done (n : Z) (ch : achan) : achan :=
  AChan (a_id ch) (a_up ch) (a_pre ch) (a_dma ch) (a_cap ch) (a_base ch) (a_dev ch) (a_done ch + n) (a_q ch).

Definition a_chan (c : nat) : stm astate (achan * list item) := λ a,
  match a_chans a !! c with
  | Some ch => match a_q ch with Some q => Done ((ch, q), a) | None => OutOfBounds end
  | None => OutOfBounds
  end.
Definition a_set (c : nat) (q : list item) : stm astate () := λ a,
  match a_chans a !! c with
  | Some ch => Done ((), AState (a_pm a) (a_maps a) (<[c := set_q q ch]> (a_chans a)) (a_out a))
  | None => OutOfBounds
  end.
Definition a_pop (c : nat) (n : Z) (q : list item) : stm astate () := λ a,
  match a_chans a !! c with
  | Some ch => Done ((), AState (a_pm a) (a_maps a) (<[c := add_done n (set_q q ch)]> (a_chans a)) (a_out a))
  | None => OutOfBounds
  end.
Definition a_emit (o : list aout) : stm astate () :=
  modify (λ a, AState (a_pm a) (a_maps a) (a_chans a) (o ++ a_out a)).
Definition a_map : stm astate (option Z) := λ a,
  match a_maps a with
  | [] => Done (None, a)
  | p :: l => Done (p, AState (a_pm a) l (a_chans a) (a_out a))
  end.

Definition a_full (ch : achan) (q : list item) : bool := Z.of_nat (length q) =? a_cap ch.

(** Queueing: refused in an error state and when the queue is full. *)
Definition abs_queue_buf (c : nat) (buf len : Z) : stm astate Z :=
  a ← get_state;
  if MHI_PM_IN_ERROR_STATE (a_pm a) then mret (- EIO) else
  '(ch, q) ← a_chan c;
  if a_dma ch then fault else
  if a_full ch q then mret (- ENOMEM) else
  p ← a_map;
  match p with
  | None => mret (- ENOMEM)
  | Some p => a_set c (q ++ [Item buf len p false]);; mret 0
  end.

Definition abs_queue_skb (c : nat) (skb len : Z) : stm astate Z :=
  '(ch, q) ← a_chan c;
  if a_dma ch then fault else
  if a_full ch q then mret (- ENOMEM) else
  a ← get_state;
  if MHI_PM_IN_ERROR_STATE (a_pm a) then mret (- EIO) else
  p ← a_map;
  match p with
  | None => mret (- ENOMEM)
  | Some p => a_set c (q ++ [Item skb len p false]);; mret 0
  end.

Definition abs_queue_dma (c : nat) (buf dma_addr len : Z) : stm astate Z :=
  '(ch, q) ← a_chan c;
  if negb (a_dma ch) then fault else
  if a_full ch q then mret (- ENOMEM) else
  a ← get_state;
  if MHI_PM_IN_ERROR_STATE (a_pm a) then mret (- EIO) else
  a_set c (q ++ [Item buf len dma_addr true]);; mret 0.

(** The oldest buffer goes back to the client; a channel that is filled in
    advance queues it again, or frees it. *)
Definition abs_complete (c : nat) (status len : Z) : stm astate () :=
  '(ch, q) ← a_chan c;
  match q with
  | [] => fault
  | it :: q =>
    a_emit (if it_pre it then [] else [AUnmap (it_addr it) (it_len it)]);;
    a_pop c 1 q;;
    a_emit [ACb (a_id ch) (MhiResult (it_cb it) (a_up ch) len status)];;
    if a_pre ch then
      ret ← abs_queue_buf c (it_cb it) (it_len it);
      if negb (ret =? 0) then a_emit [AFree (it_cb it)] else mret ()
    else mret ()
  end.

(** Which of the queued buffers an address of the device's ring belongs to. *)
Definition event_index (ch : achan) (ptr : Z) : option nat :=
  let n := a_cap ch + 1 in
  let off := u64 (ptr - a_dev ch) in
  if (off <? SIZEOF_TRE * n) && (off mod SIZEOF_TRE =? 0)
  then Some (Z.to_nat ((off / SIZEOF_TRE - a_done ch) mod n)) else None.

Definition transfer_code (code : Z) : bool :=
  (code =? MHI_EV_CC_OVERFLOW) || (code =? MHI_EV_CC_EOB) || (code =? MHI_EV_CC_EOT).

(** A transfer event for the [k]-th queued buffer: the device is done with it
    and with those before it.  Other events, and those for a channel that is not
    started, change no queue; an event for anything else is outside the
    contract. *)
Definition abs_transfer (c : nat) (ev : mhi_tre) : stm astate () :=
  '(ch, q) ← a_chan c;
  let code := MHI_TRE_GET_EV_CODE ev in
  let status := if code =? MHI_EV_CC_OVERFLOW then - EOVERFLOW else 0 in
  match event_index ch (MHI_TRE_GET_EV_PTR ev) with
  | Some k =>
    if decide (k < length q)%nat
    then for_each (seq 0 (S k)) (λ _, abs_complete c status (MHI_TRE_GET_EV_LEN ev))
    else fault
  | None => fault
  end.

Definition a_started (c : nat) : stm astate bool := λ a,
  match a_chans a !! c with
  | Some ch => Done (bool_decide (is_Some (a_q ch)), a)
  | None => OutOfBounds
  end.
Definition abs_event (c : nat) (ev : mhi_tre) : stm astate () :=
  started ← a_started c;
  if (started : bool) && transfer_code (MHI_TRE_GET_EV_CODE ev) then abs_transfer c ev else mret ().

Definition abs_pm (s : Z) : stm astate () :=
  modify (λ a, if allowed (a_pm a) s then AState s (a_maps a) (a_chans a) (a_out a) else a).

(** All buffers go back when a channel is stopped. *)
Definition abs_return (ch : achan) (it : item) : list aout :=
  (if a_pre ch then AFree (it_cb it) else ACb (a_id ch) (MhiResult (it_cb it) (a_up ch) 0 (- ENOTCONN)))
  :: (if it_pre it then [] else [AUnmap (it_addr it) (it_len it)]).
Definition abs_return_one (c : nat) : stm astate () :=
  '(ch, q) ← a_chan c;
  match q with
  | [] => fault
  | it :: q => a_emit (abs_return ch it);; a_pop c 1 q
  end.
Definition abs_reset (c : nat) : stm astate () :=
  '(_, q) ← a_chan c; for_each q (λ _, abs_return_one c).

(** The operations, and their results in sequence. *)
Inductive chan_op :=
| CQueue_buf (c : nat) (buf len mflags : Z)
| CQueue_skb (c : nat) (skb data len : Z)
| CQueue_dma (c : nat) (buf dma_addr len : Z)
| CEvent (c : nat) (ev : mhi_tre)
| CReset (c : nat)
| CM0 | CM1 | CM3 | CSys_err | CLinkdown.

Definition abs_op (o : chan_op) : stm astate Z :=
  let quiet (p : stm astate ()) : stm astate Z := p;; mret 0 in
  match o with
  | CQueue_buf c buf len _ => abs_queue_buf c buf len
  | CQueue_skb c skb _ len => abs_queue_skb c skb len
  | CQueue_dma c buf dma_addr len => abs_queue_dma c buf dma_addr len
  | CEvent c ev => quiet (abs_event c ev)
  | CReset c => quiet (abs_reset c)
  | CM0 => quiet (abs_pm MHI_PM_M0)
  | CM1 => quiet (abs_pm MHI_PM_M2)
  | CM3 => quiet (abs_pm MHI_PM_M3)
  | CSys_err => quiet (abs_pm MHI_PM_SYS_ERR_DETECT)
  | CLinkdown => quiet (abs_pm MHI_PM_LD_ERR_FATAL_DETECT)
  end.

Definition conc_op (o : chan_op) : mhi Z :=
  let quiet (p : mhi ()) : mhi Z := p;; mret 0 in
  match o with
  | CQueue_buf c buf len mflags => mhi_queue_buf c buf len mflags
  | CQueue_skb c skb data len => mhi_queue_skb c skb data len
  | CQueue_dma c buf dma_addr len => mhi_queue_dma c buf dma_addr len
  | CEvent c ev => quiet (parse_xfer_event ev c)
  | CReset c => quiet (mhi_reset_data_chan c)
  | CM0 => quiet (ignore mhi_pm_m0_transition)
  | CM1 => quiet mhi_pm_m1_transition
  | CM3 => quiet (ignore mhi_pm_m3_transition)
  | CSys_err => quiet sys_err_event
  | CLinkdown => quiet force_linkdown
  end.

Fixpoint run_all {S O} (step : O → stm S Z) (ops : list O) : stm S (list Z) :=
  match ops with
  | [] => mret []
  | o :: ops => r ← step o; rs ← run_all step ops; mret (r :: rs)
  end.

(** ** What the contract speaks about *)

Definition to_aout (o : output) : option aout :=
  match o with
  | Unmap b => Some (AUnmap (p_addr b) (buf_len b))
  | Xfer_cb c res => Some (ACb c res)
  | Kfree buf => Some (AFree buf)
  | _ => None
  end.

(** The runtime references the driver holds. *)
Definition reference (o : output) : Z :=
  match o with Runtime_get => 1 | Runtime_put => -1 | _ => 0 end.
Definition references (l : list output) : Z := foldr (λ o n, reference o + n) 0 l.

Record view := View {
  s_pm : Z; s_pending : Z; s_dma : list (option Z); s_chans : list mhi_chan;
  s_out : list aout; s_refs : Z;
}.

Definition view_of (m : mhi_controller) : view :=
  View (pm_state m) (pending_pkts m) (dma m) (chans m) (omap to_aout (trace m)) (references (trace m)).

Definition on_pending (n : Z) (s : view) : view :=
  View (s_pm s) n (s_dma s) (s_chans s) (s_out s) (s_refs s).
Definition on_dma (l : list (option Z)) (s : view) : view :=
  View (s_pm s) (s_pending s) l (s_chans s) (s_out s) (s_refs s).
Definition on_chan (c : nat) (v : mhi_chan) (s : view) : view :=
  View (s_pm s) (s_pending s) (s_dma s) (<[c := v]> (s_chans s)) (s_out s) (s_refs s).
Definition on_out (o : list aout) (s : view) : view :=
  View (s_pm s) (s_pending s) (s_dma s) (s_chans s) (o ++ s_out s) (s_refs s).
Definition on_refs (n : Z) (s : view) : view :=
  View (s_pm s) (s_pending s) (s_dma s) (s_chans s) (s_out s) (s_refs s + n).

(** ** Runs seen through the view *)

Definition vruns {A} (prog : mhi A) (s : view) (Φ : A → view → Prop) : Prop :=
  ∀ m, view_of m = s → runs prog m (λ a m', Φ a (view_of m')).

Section VRuns.
Context {A B : Type}.
Implicit Types s : view.

Lemma vruns_ret (a : A) s (Φ : A → view → Prop) : Φ a s → vruns (mret a) s Φ.
Proof. intros H m <-. by apply runs_ret. Qed.

Lemma vruns_bind (prog : mhi A) (f : A → mhi B) s Φ :
  vruns prog s (λ a s', vruns (f a) s' Φ) → vruns (prog ≫= f) s Φ.
Proof.
  intros H m Hm. apply runs_bind. eapply runs_mono; [by apply H|]. intros a m' H'. by apply H'.
Qed.

Lemma vruns_mono (prog : mhi A) s (Φ Ψ : A → view → Prop) :
  vruns prog s Φ → (∀ a s', Φ a s' → Ψ a s') → vruns prog s Ψ.
Proof. intros H HΦ m Hm. eapply runs_mono; [by apply H|]. auto. Qed.

Lemma vruns_get (f : mhi_controller → mhi B) s Φ :
  (∀ m, view_of m = s → vruns (f m) s Φ) → vruns (get_state ≫= f) s Φ.
Proof. intros H m Hm. apply runs_bind, runs_get. by apply H. Qed.

Lemma vruns_modify f s (Φ : () → view → Prop) :
  (∀ m, view_of m = s → Φ () (view_of (f m))) → vruns (modify f) s Φ.
Proof. intros H m Hm. apply runs_modify. by apply H. Qed.

Lemma vruns_lift (o : outcome A) a s (Φ : A → view → Prop) : o = Done a → Φ a s → vruns (lift o) s Φ.
Proof. intros Ho H m <-. by eapply runs_lift. Qed.
End VRuns.

Lemma vruns_chan_at c v s (Φ : mhi_chan → view → Prop) :
  s_chans s !! c = Some v → Φ v s → vruns (chan_at c) s Φ.
Proof.
  intros Hv H m <-. simpl in Hv. eapply runs_exact; [|exact H]. unfold chan_at. by rewrite Hv.
Qed.

Lemma vruns_upd_chan c f v s (Φ : () → view → Prop) :
  s_chans s !! c = Some v → Φ () (on_chan c (f v) s) → vruns (upd_chan c f) s Φ.
Proof.
  intros Hv H. apply vruns_bind. eapply vruns_chan_at; [done|]. apply vruns_modify. intros m <-. done.
Qed.

Lemma vruns_out o s (Φ : () → view → Prop) :
  Φ () (on_refs (reference o) (on_out (option_list (to_aout o)) s)) → vruns (out o) s Φ.
Proof.
  intros H. apply vruns_modify. intros m <-. unfold view_of, on_refs, on_out in *. simpl in *.
  replace (reference o + references (trace m)) with (references (trace m) + reference o) by lia.
  by destruct (to_aout o).
Qed.

Lemma on_refs_0 s : on_refs 0 s = s.
Proof. destruct s. unfold on_refs. simpl. by rewrite Z.add_0_r. Qed.
Lemma on_out_nil s : on_out [] s = s.
Proof. by destruct s. Qed.

(** An output that the view does not show. *)
Lemma vruns_hidden o s (Φ : () → view → Prop) :
  reference o = 0 → to_aout o = None → Φ () s → vruns (out o) s Φ.
Proof. intros E1 E2 H. apply vruns_out. rewrite E1, E2. simpl. by rewrite on_out_nil, on_refs_0. Qed.

Lemma on_chan_twice c v v' s : on_chan c v (on_chan c v' s) = on_chan c v s.
Proof. unfold on_chan. simpl. by rewrite list_insert_insert_eq. Qed.

Lemma on_chan_lookup c v v' s : s_chans s !! c = Some v → s_chans (on_chan c v' s) !! c = Some v'.
Proof. intros H. simpl. apply list_lookup_insert_eq. by eapply lookup_lt_Some. Qed.

(** ** Doorbells and wake requests are not seen *)

Lemma vruns_write_db addr wp s (Φ : () → view → Prop) : Φ () s → vruns (mhi_write_db addr wp) s Φ.
Proof.
  intros H. apply vruns_bind, vruns_get. intros m _. apply vruns_hidden; [done..|].
  apply vruns_get. intros m' _. by apply vruns_hidden.
Qed.

Lemma vruns_process_db d addr wp s (Φ : db_cfg → view → Prop) :
  (∀ d', Φ d' s) → vruns (process_db d addr wp) s Φ.
Proof.
  intros H. unfold process_db, mhi_db_brstmode, mhi_db_brstmode_disable.
  destruct (brstmode d =? _), (db_mode d); try (by apply vruns_ret);
    apply vruns_bind, vruns_write_db, vruns_ret, H.
Qed.

Lemma vruns_wake_get b s (Φ : () → view → Prop) : Φ () s → vruns (wake_get b) s Φ.
Proof.
  intros H. apply vruns_get. intros m _. destruct (dev_state m =? _); [by apply vruns_write_db|].
  by apply vruns_ret.
Qed.

(** The channel after its doorbell. *)
Lemma vruns_ring_chan_db c v s (Φ : () → view → Prop) : s_chans s !! c = Some v →
  (∀ d, let r := tre_ring v in
    Φ () (on_chan c (set_chan_db d (set_tre (set_ctxt_wp (mhi_to_physical r (wp r)) r) v)) s)) →
  vruns (mhi_ring_chan_db c) s Φ.
Proof.
  intros Hv H. apply vruns_bind. eapply vruns_chan_at; [done|].
  apply vruns_bind. eapply vruns_upd_chan; [done|].
  apply vruns_bind, vruns_process_db. intros d.
  eapply vruns_upd_chan; [by eapply on_chan_lookup|]. rewrite on_chan_twice.
  specialize (H d). unfold mhi_to_physical in H.
  replace (wp (tre_ring v) - base (tre_ring v) + iommu_base (tre_ring v))
    with (iommu_base (tre_ring v) + (wp (tre_ring v) - base (tre_ring v))) in H by lia. done.
Qed.
