(* ===== verification/MhiQueues.v ===== *)
(** * The Modem Host Interface: the channels keep their contract

    The relation between the driver's state and the abstract machine of
    [MhiSpec], and that every operation on the channels preserves it. *)

From S2P Require Import Prelude Kernel Mhi MhiPm MhiXfer MhiExample MhiPmProps MhiRing MhiSpec.

#[local] Open Scope Z_scope.
#[local] Open Scope c_scope.

(** ** The relation *)

Definition item_of (b : mhi_buf_info) : item := Item (cb_buf b) (buf_len b) (p_addr b) (pre_mapped b).

(** A transfer descriptor tells the device where a buffer is. *)
Definition describes (t : mhi_tre) (b : mhi_buf_info) : Prop :=
  ptr t = p_addr b ∧ dword0 t = MHI_TRE_DATA_DWORD0 (buf_len b).

(** While transfers run, the device has been told about every queued buffer. *)
Definition announced (pm : Z) (v : mhi_chan) : Prop :=
  pm = MHI_PM_M0 → wp (tre_ring v) ≠ rp (tre_ring v) →
  ctxt_wp (tre_ring v) = mhi_to_physical (tre_ring v) (wp (tre_ring v)).

(** The ring is where it was. *)
Definition same_place (r r' : mhi_ring mhi_tre) : Prop :=
  base r = base r' ∧ iommu_base r = iommu_base r'.

(** The two rings of a channel hold the queue [q], from the element [i] on. *)
Record queue_at (n i : Z) (dma : bool) (v : mhi_chan) (q : list item) : Prop := {
  queue_tre : ∃ ts bs, ring_holds n SIZEOF_TRE i (tre_ring v) ts
    ∧ ring_holds n SIZEOF_BUF_INFO i (buf_ring v) bs ∧ Forall2 describes ts bs ∧ item_of <$> bs = q;
  queue_premapped : dma = false → Forall (λ b, pre_mapped b = false) (mem (buf_ring v));
}.

Record chan_ok (pm : Z) (ch : achan) (v : mhi_chan) : Prop := {
  ok_id : chan v = a_id ch;
  ok_up : to_device v = a_up ch;
  ok_pre : pre_alloc v = a_pre ch;
  ok_rsc : rsc_dma v = false;
  ok_queue : match a_q ch with
    | Some q => ch_state v = MHI_CH_STATE_ENABLED ∧ announced pm v
        ∧ (base (tre_ring v) = a_base ch ∧ iommu_base (tre_ring v) = a_dev ch)
        ∧ queue_at (a_cap ch + 1) (a_done ch) (a_dma ch) v q
    | None => ch_state v ≠ MHI_CH_STATE_ENABLED
    end;
}.

(** Uplink buffers on their way. *)
Definition weight (ch : achan) : Z :=
  if a_up ch then match a_q ch with Some q => Z.of_nat (length q) | None => 0 end else 0.
Definition waiting (l : list achan) : Z := foldr (λ ch n, weight ch + n) 0 l.
Definition capacity (l : list achan) : Z := foldr (λ ch n, Z.max 0 (a_cap ch) + n) 0 l.
Definition held (n : Z) : Z := if 0 <? n then 1 else 0.

Record rel (refs : Z) (s : view) (a : astate) : Prop := {
  rel_pm : s_pm s = a_pm a;
  rel_state : a_pm a ∈ pm_states;
  rel_dma : s_dma s = a_maps a;
  rel_chans : Forall2 (chan_ok (a_pm a)) (a_chans a) (s_chans s);
  rel_out : s_out s = a_out a;
  rel_pending : s_pending s = waiting (a_chans a);
  rel_refs : s_refs s = refs + held (waiting (a_chans a));
  rel_cap : capacity (a_chans a) < 2 ^ 31;
}.

(** ** Sums *)

Lemma waiting_insert c ch ch' l : l !! c = Some ch →
  waiting (<[c := ch']> l) = waiting l - weight ch + weight ch'.
Proof.
  revert c. induction l as [|x l IH]; intros [|c] Hc; simplify_eq/=; [lia|].
  rewrite (IH c) by done. lia.
Qed.
Lemma capacity_insert c ch ch' l : l !! c = Some ch → a_cap ch' = a_cap ch →
  capacity (<[c := ch']> l) = capacity l.
Proof.
  intros Hc E. revert c Hc. induction l as [|x l IH]; intros [|c] Hc; simplify_eq/=; [lia|].
  by rewrite (IH c).
Qed.
Lemma weight_nonneg ch : 0 ≤ weight ch.
Proof. unfold weight. destruct (a_up ch), (a_q ch); lia. Qed.
Lemma waiting_nonneg l : 0 ≤ waiting l.
Proof. induction l as [|ch l IH]; simpl; [lia|]. pose proof (weight_nonneg ch). lia. Qed.
Lemma capacity_nonneg l : 0 ≤ capacity l.
Proof. induction l as [|ch l IH]; simpl; lia. Qed.

Lemma queue_cap n i dma v q : queue_at n i dma v q → Z.of_nat (length q) ≤ n - 1.
Proof. intros [(ts & bs & _ & H & _ & <-) _]. rewrite length_fmap. by destruct H. Qed.

Lemma weight_cap pm ch v : chan_ok pm ch v → weight ch ≤ Z.max 0 (a_cap ch).
Proof.
  intros [_ _ _ _ Hq]. unfold weight. destruct (a_up ch); [|lia]. destruct (a_q ch) as [q|]; [|lia].
  destruct Hq as (_ & _ & _ & Hq%queue_cap). lia.
Qed.
Lemma waiting_cap pm l vs : Forall2 (chan_ok pm) l vs → waiting l ≤ capacity l.
Proof. induction 1 as [|ch v l vs Hv%weight_cap _ IH]; simpl; lia. Qed.

(** ** Writing a buffer and its descriptor *)

Section Channel.
Context (n i : Z).

Lemma vruns_store_buf c v bs b s (Φ : () → view → Prop) :
  s_chans s !! c = Some v → ring_holds n SIZEOF_BUF_INFO i (buf_ring v) bs →
  (∀ k, let rb := set_mem (<[k := b]> (mem (buf_ring v))) (buf_ring v) in
    ring_holds n SIZEOF_BUF_INFO i rb bs → load rb (wp (buf_ring v)) = Done b →
    Φ () (on_chan c (set_buf rb v) s)) →
  vruns (store_buf c b) s Φ.
Proof.
  intros Hv Hb H. apply vruns_bind. eapply vruns_chan_at; [done|]. apply vruns_bind.
  destruct (holds_store _ _ _ _ _ b Hb) as (k & E & Hb' & Hl).
  eapply vruns_lift; [exact E|]. eapply vruns_upd_chan; [done|]. by apply H.
Qed.

Lemma vruns_store_tre c v ts t s (Φ : () → view → Prop) :
  s_chans s !! c = Some v → ring_holds n SIZEOF_TRE i (tre_ring v) ts →
  (∀ k, let rt := set_mem (<[k := t]> (mem (tre_ring v))) (tre_ring v) in
    ring_holds n SIZEOF_TRE i rt ts → load rt (wp (tre_ring v)) = Done t →
    Φ () (on_chan c (set_tre rt v) s)) →
  vruns (store_tre c t) s Φ.
Proof.
  intros Hv Ht H. apply vruns_bind. eapply vruns_chan_at; [done|]. apply vruns_bind.
  destruct (holds_store _ _ _ _ _ t Ht) as (k & E & Ht' & Hl).
  eapply vruns_lift; [exact E|]. eapply vruns_upd_chan; [done|]. by apply H.
Qed.

Lemma vruns_advance_wp c v s (Φ : () → view → Prop) : s_chans s !! c = Some v →
  Φ () (on_chan c (set_buf (mhi_add_ring_element (buf_ring v))
                    (set_tre (mhi_add_ring_element (tre_ring v)) v)) s) →
  vruns (advance_wp c) s Φ.
Proof.
  intros Hv H. apply vruns_bind. eapply vruns_upd_chan; [done|].
  eapply vruns_upd_chan; [by eapply on_chan_lookup|]. by rewrite on_chan_twice.
Qed.

(** One more buffer with its descriptor. *)
Lemma queue_push dma v ts bs t b rt rb :
  ring_holds n SIZEOF_TRE i rt ts → ring_holds n SIZEOF_BUF_INFO i rb bs → Forall2 describes ts bs →
  load rt (wp rt) = Done t → load rb (wp rb) = Done b → describes t b →
  Z.of_nat (length bs) < n - 1 → (dma = false → Forall (λ b, pre_mapped b = false) (mem rb)) →
  queue_at n i dma
    (set_buf (mhi_add_ring_element rb) (set_tre (mhi_add_ring_element rt) v))
    ((item_of <$> bs) ++ [item_of b]).
Proof.
  intros Ht Hb HF Et Eb Htb Hn Hp. pose proof (Forall2_length _ _ _ HF) as EL.
  split; [|done]. exists (ts ++ [t]), (bs ++ [b]). simpl. split_and!.
  - apply holds_add; [done..|lia].
  - by apply holds_add.
  - apply Forall2_app; [done|]. constructor; [done|constructor].
  - by rewrite fmap_app.
Qed.

Definition push_ok (dma : bool) (v : mhi_chan) (q : list item) (it : item) (v' : mhi_chan) : Prop :=
  queue_at n i dma v' (q ++ [it])
  ∧ ∃ rt rb, v' = set_buf rb (set_tre rt v) ∧ same_place rt (tre_ring v).

Lemma describe_item v b buf cb l p :
  item_of (set_p_addr p (describe v b buf cb l)) = Item cb l p (pre_mapped b).
Proof. done. Qed.

(** Both elements are written, the pointers not moved yet. *)
Definition filled (dma : bool) (v : mhi_chan) (q : list item) (it : item) (v' : mhi_chan) : Prop :=
  ∃ rt rb, v' = set_tre rt (set_buf rb v) ∧ same_place rt (tre_ring v)
    ∧ queue_at n i dma (set_buf (mhi_add_ring_element rb) (set_tre (mhi_add_ring_element rt) v)) (q ++ [it]).

Lemma vruns_advance_filled c dma v q it v' s (Φ : () → view → Prop) :
  s_chans s !! c = Some v' → filled dma v q it v' →
  (∀ v'', push_ok dma v q it v'' → Φ () (on_chan c v'' s)) → vruns (advance_wp c) s Φ.
Proof.
  intros Hv (rt & rb & -> & Eb & Hq) H. eapply vruns_advance_wp; [done|]. apply H.
  split; [done|]. by exists (mhi_add_ring_element rt), (mhi_add_ring_element rb).
Qed.

(** The common part of [mhi_gen_tre] and [mhi_queue_skb]: the buffer is
    described and mapped, and on success both elements are written. *)
Lemma vruns_fill {A} c v q data cb l (t : Z → mhi_tre) (rest fail : mhi A) s (Φ : A → view → Prop) :
  s_chans s !! c = Some v → queue_at n i false v q → Z.of_nat (length q) < n - 1 →
  (∀ p, ptr (t p) = p ∧ dword0 (t p) = MHI_TRE_DATA_DWORD0 l) →
  (∀ v' p d, s_dma s = Some p :: d → filled false v q (Item cb l p false) v' →
    vruns rest (on_chan c v' (on_dma d s)) Φ) →
  (∀ v' rb, (∀ p d, s_dma s ≠ Some p :: d) → v' = set_buf rb v → queue_at n i false v' q →
    vruns fail (on_chan c v' (on_dma (tail (s_dma s)) s)) Φ) →
  vruns (old ← lift (load (buf_ring v) (wp (buf_ring v)));
    store_buf c (describe v old data cb l);;
    mapped ← mhi_map_single_no_bb;
    match mapped with
    | None => fail
    | Some p => store_buf c (set_p_addr p (describe v old data cb l));; store_tre c (t p);; rest
    end) s Φ.
Proof.
  intros Hv [(ts & bs & Ht & Hb & HF & <-) Hp] Hn Htp Hok Hfail. rewrite length_fmap in Hn.
  specialize (Hp eq_refl).
  destruct (holds_load_wp _ _ _ _ _ Hb) as (old & Eold & Hold).
  assert (Epre : pre_mapped old = false) by (rewrite Forall_forall in Hp; by apply Hp).
  apply vruns_bind. eapply vruns_lift; [done|].
  apply vruns_bind. eapply vruns_store_buf; [done..|]. intros k rb Hb1 _.
  assert (Hp1 : Forall (λ b, pre_mapped b = false) (mem rb)) by (by apply Forall_insert).
  apply vruns_bind. apply vruns_get. intros m Em.
  replace (dma m) with (s_dma s) by (by apply (f_equal s_dma) in Em).
  assert (Hq1 : queue_at n i false (set_buf rb v) (item_of <$> bs)) by (split; [by exists ts, bs|done]).
  destruct (s_dma s) as [|[p|] d] eqn:Ed; simpl in Hfail.
  - apply vruns_ret. specialize (Hfail _ rb ltac:(done) eq_refl Hq1).
    replace (on_dma [] s) with s in Hfail by (destruct s; simpl in Ed; by subst). exact Hfail.
  - apply vruns_bind, vruns_modify. intros m' Em'. apply vruns_ret.
    replace (view_of (set_dma d m')) with (on_dma d (view_of m')) by done. rewrite Em'.
    change (on_dma d (on_chan c ?x s)) with (on_chan c x (on_dma d s)).
    apply vruns_bind. eapply vruns_store_buf; [by eapply on_chan_lookup|exact Hb1|]. intros k' rb' Hb2 Eb2.
    rewrite on_chan_twice.
    assert (Hp2 : Forall (λ b, pre_mapped b = false) (mem rb')) by (by apply Forall_insert).
    apply vruns_bind. eapply vruns_store_tre; [by eapply on_chan_lookup|exact Ht|].
    intros k2 rt Ht2 Et2. rewrite on_chan_twice.
    apply (Hok _ p); [done|]. exists rt, rb'. split; [done|]. split; [done|].
    replace (Item cb l p false) with (item_of (set_p_addr p (describe v old data cb l)))
      by (by rewrite describe_item, Epre).
    apply (queue_push false v ts bs (t p) _ rt rb'); try done. apply Htp.
  - apply vruns_bind, vruns_modify. intros m' Em'. apply vruns_ret.
    replace (view_of (set_dma d m')) with (on_dma d (view_of m')) by done. rewrite Em'.
    by apply (Hfail _ rb).
Qed.

Lemma vruns_gen_tre c v q buf cb l flags s (Φ : Z → view → Prop) :
  s_chans s !! c = Some v → queue_at n i false v q → Z.of_nat (length q) < n - 1 →
  (∀ v' p d, s_dma s = Some p :: d → push_ok false v q (Item cb l p false) v' →
    Φ 0 (on_chan c v' (on_dma d s))) →
  (∀ v' rb, (∀ p d, s_dma s ≠ Some p :: d) → v' = set_buf rb v → queue_at n i false v' q →
    Φ (- ENOMEM) (on_chan c v' (on_dma (tail (s_dma s)) s))) →
  vruns (mhi_gen_tre c buf cb l flags) s Φ.
Proof.
  intros Hv HQ Hn Hok Hfail. unfold mhi_gen_tre. apply vruns_bind. eapply vruns_chan_at; [done|].
  cbv zeta. eapply (vruns_fill c v q); try done.
  - intros v' p d Ed Hf. apply vruns_bind. eapply vruns_advance_filled; [by eapply on_chan_lookup|done|].
    intros v'' Hp. rewrite on_chan_twice. by apply vruns_ret, (Hok _ p).
  - intros v' rb Hno -> HQ'. by apply vruns_ret, (Hfail _ rb).
Qed.
End Channel.

(** ** The rest of a queue operation *)

Lemma vruns_leave_lpm s (Φ : () → view → Prop) : Φ () s → vruns leave_lpm s Φ.
Proof.
  intros H. apply vruns_get. intros m _. destruct (MHI_PM_IN_SUSPEND_STATE _); [|by apply vruns_ret].
  apply vruns_bind, vruns_out, vruns_out. simpl. rewrite !on_out_nil.
  replace (on_refs (-1) (on_refs 1 s)) with s; [done|].
  destruct s. unfold on_refs. simpl. f_equal. lia.
Qed.

Lemma vruns_queue_wake c v s (Φ : bool → view → Prop) : s_chans s !! c = Some v →
  (∀ b, Φ b s) → vruns (queue_wake c) s Φ.
Proof.
  intros Hv H. apply vruns_get. intros m _. apply vruns_bind. eapply vruns_chan_at; [done|].
  destruct (_ || _); [|by apply vruns_ret]. apply vruns_bind, vruns_wake_get. by apply vruns_ret.
Qed.

Lemma vruns_wake_put (b b' : bool) s (Φ : () → view → Prop) :
  Φ () s → vruns (if b then wake_put b' else mret ()) s Φ.
Proof. intros H. destruct b; by apply vruns_ret. Qed.

(** The count of uplink buffers and the runtime reference that goes with it. *)
Definition counted (w : Z) (s : view) : view :=
  on_refs (held (s_pending s + w) - held (s_pending s)) (on_pending (s_pending s + w) s).

Lemma counted_0 s : counted 0 s = s.
Proof. destruct s. unfold counted, on_refs, on_pending. simpl. by rewrite !Z.add_0_r, Z.sub_diag, Z.add_0_r. Qed.

Lemma vruns_inc_pending (b : bool) s (Φ : () → view → Prop) : 0 ≤ s_pending s < 2 ^ 31 - 1 →
  Φ () (counted (if b then 1 else 0) s) → vruns (if b then inc_pending else mret ()) s Φ.
Proof.
  intros Hp H. destruct b; [|apply vruns_ret; by rewrite counted_0 in H].
  apply vruns_get. intros m Em. apply vruns_bind, vruns_modify. intros m' Em'.
  assert (E : pending_pkts m = s_pending s) by (by apply (f_equal s_pending) in Em).
  rewrite E, s32_small by lia.
  replace (view_of (set_pending (s_pending s + 1) m')) with (on_pending (s_pending s + 1) s) by (by rewrite <- Em').
  unfold counted, held in H. destruct (Z.eqb_spec (s_pending s + 1) 1).
  - apply vruns_out. simpl. rewrite on_out_nil.
    rewrite (proj2 (Z.ltb_lt 0 _)), (proj2 (Z.ltb_ge 0 _)) in H by lia. done.
  - apply vruns_ret. rewrite !(proj2 (Z.ltb_lt 0 _)) in H by lia. simpl in H. by rewrite on_refs_0 in H.
Qed.

Lemma vruns_dec_pending (b : bool) s (Φ : () → view → Prop) :
  0 ≤ s_pending s < 2 ^ 31 → (b = true → 0 < s_pending s) →
  Φ () (counted (if b then -1 else 0) s) → vruns (if b then dec_pending else mret ()) s Φ.
Proof.
  intros Hp Hb H. destruct b; [|apply vruns_ret; by rewrite counted_0 in H]. specialize (Hb eq_refl).
  apply vruns_get. intros m Em. apply vruns_bind, vruns_modify. intros m' Em'.
  assert (E : pending_pkts m = s_pending s) by (by apply (f_equal s_pending) in Em).
  rewrite E, s32_small by lia.
  replace (view_of (set_pending (s_pending s - 1) m')) with (on_pending (s_pending s - 1) s) by (by rewrite <- Em').
  unfold counted, held in H. replace (s_pending s + -1) with (s_pending s - 1) in H by lia.
  destruct (Z.eqb_spec (s_pending s - 1) 0).
  - apply vruns_out. simpl. rewrite on_out_nil.
    rewrite (proj2 (Z.ltb_lt 0 (s_pending s))), (proj2 (Z.ltb_ge 0 _)) in H by lia. done.
  - apply vruns_ret. rewrite !(proj2 (Z.ltb_lt 0 _)) in H by lia. simpl in H. by rewrite on_refs_0 in H.
Qed.

(** After the doorbell, when there is one, the device knows the write pointer. *)
Definition rung (v v' : mhi_chan) : Prop :=
  v' = v ∨ ∃ d, let r := tre_ring v in
    v' = set_chan_db d (set_tre (set_ctxt_wp (mhi_to_physical r (wp r)) r) v).

Lemma db_access_m0 s : s ∈ pm_states → MHI_DB_ACCESS_VALID s = (s =? MHI_PM_M0).
Proof.
  unfold pm_states. intros Hs.
  repeat (apply elem_of_cons in Hs as [->|Hs]; [reflexivity|]). by apply elem_of_nil in Hs.
Qed.

Lemma vruns_ring_if_m0 c v s (Φ : () → view → Prop) : s_chans s !! c = Some v → s_pm s ∈ pm_states →
  (∀ v', rung v v' → announced (s_pm s) v' → Φ () (on_chan c v' s)) → vruns (ring_if_m0 c) s Φ.
Proof.
  intros Hv Hp H. apply vruns_get. intros m Em.
  replace (pm_state m) with (s_pm s) by (by apply (f_equal s_pm) in Em).
  rewrite db_access_m0 by done. destruct (Z.eqb_spec (s_pm s) MHI_PM_M0) as [E|E].
  - eapply vruns_ring_chan_db; [done|]. intros d. apply H; [right; by exists d|]. by intros _ _.
  - apply vruns_ret. replace s with (on_chan c v s); [apply H; [by left|by intros ?%E]|].
    destruct s. unfold on_chan. simpl in *. by rewrite list_insert_id.
Qed.

Lemma queue_rung n i dma v v' q : rung v v' → queue_at n i dma v q → queue_at n i dma v' q.
Proof.
  intros [->|(d & ->)] [(ts & bs & Ht & Hb & HF & Hq) Hp]; [by split; [exists ts, bs|]|].
  split; [|done]. exists ts, bs. split_and!; try done. simpl. by apply holds_ctxt.
Qed.

(** ** The relation after a change of one channel *)

Lemma rel_chan refs s a c ch : rel refs s a → a_chans a !! c = Some ch →
  ∃ v, s_chans s !! c = Some v ∧ chan_ok (a_pm a) ch v.
Proof. intros [_ _ _ H _ _ _ _] Hc. 
  destruct (Forall2_lookup_l _ _ _ _ _ H Hc) as (v & ? & ?). by exists v. Qed.

Lemma rel_pending_range refs s a : rel refs s a → 0 ≤ s_pending s < 2 ^ 31.
Proof.
  intros []. rewrite rel_pending0. pose proof (waiting_nonneg (a_chans a)).
  pose proof (waiting_cap _ _ _ rel_chans0). lia.
Qed.

Lemma rel_update refs s a c ch ch' v' o d w : rel refs s a → a_chans a !! c = Some ch →
  chan_ok (a_pm a) ch' v' → a_cap ch' = a_cap ch → w = weight ch' - weight ch →
  rel refs (counted w (on_dma d (on_out o (on_chan c v' s))))
    (AState (a_pm a) d (<[c := ch']> (a_chans a)) (o ++ a_out a)).
Proof.
  intros [] Hc Hok Hcap ->. destruct s; simpl in *; subst.
  assert (Ew : waiting (<[c := ch']> (a_chans a)) = waiting (a_chans a) + (weight ch' - weight ch))
    by (rewrite (waiting_insert c ch) by done; lia).
  split; try done.
  - by apply Forall2_insert.
  - simpl. rewrite Ew. lia.
  - simpl. by rewrite (capacity_insert c ch).
Qed.

(** Where the abstract machine finds a queue, the driver finds the channel. *)
Lemma a_chan_inv c a ch q a' : a_chan c a = Done ((ch, q), a') →
  a_chans a !! c = Some ch ∧ a_q ch = Some q ∧ a' = a.
Proof.
  unfold a_chan. destruct (a_chans a !! c) as [x|]; [|done].
  destruct (a_q x) eqn:E; [|done]. by intros [= <- <- <-].
Qed.

Lemma a_set_eq c q ch a : a_chans a !! c = Some ch →
  a_set c q a = Done ((), AState (a_pm a) (a_maps a) (<[c := set_q q ch]> (a_chans a)) (a_out a)).
Proof. unfold a_set. by intros ->. Qed.

Lemma weight_set ch q q' : a_q ch = Some q →
  weight (set_q q' ch) - weight ch = if a_up ch then Z.of_nat (length q') - Z.of_nat (length q) else 0.
Proof. intros Hq. unfold weight. simpl. rewrite Hq. by destruct (a_up ch). Qed.

Lemma ok_full pm ch v q i n : queue_at n i (a_dma ch) v q → n = a_cap ch + 1 → chan_ok pm ch v →
  mhi_is_ring_full (tre_ring v) = a_full ch q.
Proof.
  intros [(ts & bs & Ht & _ & HF & <-) _] -> _. unfold a_full.
  rewrite (holds_full _ _ _ _ _ Ht), (Forall2_length _ _ _ HF), length_fmap.
  case_bool_decide as E; case_bools; lia.
Qed.

(** The chan_ok part of the relation survives a change of the queue. *)
Lemma ok_set pm ch v v' q q' : chan_ok pm ch v → a_q ch = Some q →
  queue_at (a_cap ch + 1) (a_done ch) (a_dma ch) v' q' → announced pm v' →
  same_place (tre_ring v') (tre_ring v) →
  chan v' = chan v → to_device v' = to_device v → pre_alloc v' = pre_alloc v →
  rsc_dma v' = rsc_dma v → ch_state v' = ch_state v → chan_ok pm (set_q q' ch) v'.
Proof.
  intros [] Hq Hq' Ha [Eb Ei] E1 E2 E3 E4 E5. rewrite Hq in ok_queue0.
  destruct ok_queue0 as (Hs & _ & [Hb Hi] & _).
  split; simpl; try congruence. split_and!; [congruence|done|congruence..|done].
Qed.

Lemma rung_fields v v' : rung v v' → same_place (tre_ring v') (tre_ring v) ∧ chan v' = chan v ∧ to_device v' = to_device v
  ∧ pre_alloc v' = pre_alloc v ∧ rsc_dma v' = rsc_dma v ∧ ch_state v' = ch_state v.
Proof. by intros [->|(d & ->)]. Qed.

(** From the moment the element is in both rings on, the three queue functions
    are alike. *)
Lemma queue_tail refs s a c ch q it v v' d (assert_wake : bool) (w : mhi ()) :
  rel refs s a → a_chans a !! c = Some ch → a_q ch = Some q → s_chans s !! c = Some v →
  chan_ok (a_pm a) ch v → push_ok (a_cap ch + 1) (a_done ch) (a_dma ch) v q it v' →
  (∀ s (Φ : () → view → Prop), Φ () s → vruns w s Φ) →
  vruns (ring_if_m0 c;; w;; mret 0)
    (counted (if to_device v then 1 else 0) (on_chan c v' (on_dma d s))) (λ r s',
    r = 0 ∧ rel refs s' (AState (a_pm a) d (<[c := set_q (q ++ [it]) ch]> (a_chans a)) (a_out a))).
Proof.
  intros Hrel Hc Hq Hv Hok [Hpush (rt & rb & Ev' & Eb)] Hw. pose proof Hrel as [Epm Hst _ _ _ _ _ _].
  apply vruns_bind. eapply vruns_ring_if_m0.
  { by eapply (on_chan_lookup c v v' (on_dma d s)). }
  { change (s_pm (counted _ _)) with (s_pm s). by rewrite Epm. }
  change (s_pm (counted _ _)) with (s_pm s). rewrite Epm. intros v'' Hr Ha.
  apply vruns_bind, Hw, vruns_ret. split; [done|].
  pose proof (rung_fields _ _ Hr) as (E0 & E1 & E2 & E3 & E4 & E5).
  assert (Hok' : chan_ok (a_pm a) (set_q (q ++ [it]) ch) v'').
  { eapply (ok_set _ ch v v'' q); try done; try by (subst v'; etransitivity; [eassumption|]).
    - by eapply queue_rung.
    - subst v'. destruct E0, Eb. split; by etransitivity. }
  change (on_chan c v'' (counted ?w (on_chan c v' (on_dma d s))))
    with (counted w (on_dma d (on_out [] (on_chan c v'' (on_chan c v' s))))).
  rewrite on_chan_twice.
  apply (rel_update refs s a c ch); [done..|]. rewrite (weight_set ch q) by done.
  rewrite (ok_up _ _ _ Hok). destruct (a_up ch); [|done]. rewrite length_app. simpl. lia.
Qed.

Lemma stm_bind_inv {S A B} (m : stm S A) (f : A → stm S B) s r s' :
  (m ≫= f) s = Done (r, s') → ∃ x s1, m s = Done (x, s1) ∧ f x s1 = Done (r, s').
Proof.
  unfold mbind, stm_bind. destruct (m s) as [[x s1]| |] eqn:E; [|done..]. intros. by exists x, s1.
Qed.

Lemma a_map_inv a p a' : a_map a = Done (p, a') →
  a' = AState (a_pm a) (tail (a_maps a)) (a_chans a) (a_out a) ∧ p = match a_maps a with [] => None | p :: _ => p end.
Proof. unfold a_map. destruct a as [pm [|q l] ? ?]; simpl; by intros [= <- <-]. Qed.

(** ** The queue functions *)

(** A mapping that fails costs a mapping and nothing else. *)
Lemma rel_failed refs s a c ch q v v' rb : rel refs s a → a_chans a !! c = Some ch →
  a_q ch = Some q → chan_ok (a_pm a) ch v → v' = set_buf rb v →
  queue_at (a_cap ch + 1) (a_done ch) (a_dma ch) v' q →
  rel refs (on_chan c v' (on_dma (tail (s_dma s)) s))
    (AState (a_pm a) (tail (a_maps a)) (a_chans a) (a_out a)).
Proof.
  intros Hrel Hc Hq Hok -> Hq'.
  assert (Hok' : chan_ok (a_pm a) (set_q q ch) (set_buf rb v)).
  { eapply (ok_set _ ch v _ q); try done. destruct Hok as [_ _ _ _ Hok]. rewrite Hq in Hok.
    by destruct Hok as (_ & Ha & _). }
  replace (set_q q ch) with ch in Hok' by (destruct ch; simpl in *; by subst).
  rewrite (rel_dma _ _ _ Hrel).
  pose proof (rel_update refs s a c ch ch (set_buf rb v) [] (tail (a_maps a)) 0 Hrel Hc Hok') as H.
  rewrite list_insert_id in H by done. rewrite counted_0 in H. apply H; [done|lia].
Qed.

Lemma not_full ch v pm q : chan_ok pm ch v → a_q ch = Some q → a_full ch q = false →
  Z.of_nat (length q) < a_cap ch.
Proof.
  intros [_ _ _ _ H] Hq Hf. rewrite Hq in H. destruct H as (_ & _ & _ & H%queue_cap).
  unfold a_full in Hf. bool_to_prop. lia.
Qed.

Lemma pending_room refs s a c ch q v : rel refs s a → a_chans a !! c = Some ch → a_q ch = Some q →
  chan_ok (a_pm a) ch v → a_full ch q = false → to_device v = true → 0 ≤ s_pending s < 2 ^ 31 - 1.
Proof.
  intros Hrel Hc Hq Hok Hf Hup. pose proof (rel_pending_range _ _ _ Hrel).
  pose proof (not_full _ _ _ _ Hok Hq Hf) as Hn. destruct Hrel as [_ _ _ HF _ Hp _ Hcap].
  rewrite (ok_up _ _ _ Hok) in Hup. rewrite Hp in *. split; [lia|].
  assert (waiting (<[c := set_q (q ++ [Item 0 0 0 false]) ch]> (a_chans a))
    ≤ capacity (a_chans a)); [|].
  - clear - HF Hc Hq Hn. revert c Hc. induction HF as [|ch' v' l vs Hv HF IH]; intros [|c] Hc; simplify_eq/=.
    + pose proof (waiting_cap _ _ _ HF). unfold weight. simpl. rewrite length_app. simpl.
      destruct (a_up ch); lia.
    + pose proof (weight_cap _ _ _ Hv). specialize (IH _ Hc). lia.
  - rewrite (waiting_insert c ch) in * by done. pose proof (weight_set ch q (q ++ [Item 0 0 0 false]) Hq) as E.
    rewrite Hup, length_app in E. simpl in E. lia.
Qed.

Lemma vruns_count_up refs s a c ch q v (Φ : () → view → Prop) s' :
  rel refs s a → a_chans a !! c = Some ch → a_q ch = Some q → chan_ok (a_pm a) ch v →
  a_full ch q = false → s_pending s' = s_pending s →
  Φ () (counted (if to_device v then 1 else 0) s') →
  vruns (if to_device v then inc_pending else mret ()) s' Φ.
Proof.
  intros Hrel Hc Hq Hok Hf Es H. destruct (to_device v) eqn:E.
  - apply (vruns_inc_pending true); [|done]. rewrite Es. by eapply pending_room.
  - apply vruns_ret. by rewrite counted_0 in H.
Qed.

Lemma queue_buf_refines refs s a c buf l flags r a' : rel refs s a →
  abs_queue_buf c buf l a = Done (r, a') →
  vruns (mhi_queue_buf c buf l flags) s (λ r' s', r' = r ∧ rel refs s' a').
Proof.
  intros Hrel Habs. pose proof Hrel as [Epm Hst Edma _ _ _ _ _].
  apply vruns_get. intros m Em.
  replace (pm_state m) with (a_pm a) by (rewrite <- Epm; by apply (f_equal s_pm) in Em).
  apply stm_bind_inv in Habs as (? & ? & [= <- <-] & Habs).
  destruct (MHI_PM_IN_ERROR_STATE (a_pm a)); [injection Habs as <- <-; by apply vruns_ret|].
  apply stm_bind_inv in Habs as ([ch q] & ? & (Hc & Hq & ->)%a_chan_inv & Habs).
  destruct (rel_chan _ _ _ _ _ Hrel Hc) as (v & Hv & Hok).
  destruct (a_dma ch) eqn:Ed; [done|].
  pose proof (ok_queue _ _ _ Hok) as HQ. rewrite Hq in HQ. destruct HQ as (_ & _ & Ebase & HQ).
  set (i := a_done ch) in *.
  apply vruns_bind. eapply vruns_chan_at; [done|]. rewrite (ok_full _ _ _ _ _ _ HQ eq_refl Hok).
  destruct (a_full ch q) eqn:Ef; [injection Habs as <- <-; by apply vruns_ret|].
  pose proof (not_full _ _ _ _ Hok Hq Ef). rewrite Ed in HQ.
  apply stm_bind_inv in Habs as (p & a1 & (-> & ->)%a_map_inv & Habs).
  apply vruns_bind. eapply (vruns_gen_tre _ i); [done..|lia| |].
  - intros v' p d Es Hpush. rewrite Edma in Es. rewrite Es in Habs. simpl in Habs.
    apply stm_bind_inv in Habs as ([] & a2 & Hset & [= <- <-]).
    erewrite a_set_eq in Hset by done. injection Hset as <-. simpl.
    apply vruns_bind, vruns_leave_lpm. apply vruns_bind. eapply vruns_queue_wake.
    { by eapply (on_chan_lookup c v v' (on_dma d s)). }
    intros b. apply vruns_bind. eapply (vruns_count_up refs s a c ch q v); try done.
    eapply (queue_tail refs s a c ch q (Item buf l p false) v v' d b); try done.
    { by rewrite Ed. } intros s1 Φ. apply vruns_wake_put.
  - intros v' rb Hno -> HQ'. rewrite Edma in *. destruct (a_maps a) as [|[p|] d] eqn:Em'.
    + injection Habs as <- <-. simpl. apply vruns_ret. split; [done|].
      rewrite <- Ed in HQ'. pose proof (rel_failed refs s a c ch q v _ rb Hrel Hc Hq Hok eq_refl HQ') as H'.
      by rewrite Edma, Em' in H'.
    + by destruct (Hno p d).
    + injection Habs as <- <-. simpl. apply vruns_ret. split; [done|].
      rewrite <- Ed in HQ'. pose proof (rel_failed refs s a c ch q v _ rb Hrel Hc Hq Hok eq_refl HQ') as H'.
      by rewrite Edma, Em' in H'.
Qed.

Lemma queue_skb_refines refs s a c skb data l r a' : rel refs s a →
  abs_queue_skb c skb l a = Done (r, a') →
  vruns (mhi_queue_skb c skb data l) s (λ r' s', r' = r ∧ rel refs s' a').
Proof.
  intros Hrel Habs. pose proof Hrel as [Epm Hst Edma _ _ _ _ _].
  apply stm_bind_inv in Habs as ([ch q] & ? & (Hc & Hq & ->)%a_chan_inv & Habs).
  destruct (rel_chan _ _ _ _ _ Hrel Hc) as (v & Hv & Hok).
  destruct (a_dma ch) eqn:Ed; [done|].
  pose proof (ok_queue _ _ _ Hok) as HQ. rewrite Hq in HQ. destruct HQ as (_ & _ & Ebase & HQ).
  set (i := a_done ch) in *.
  apply vruns_bind. eapply vruns_chan_at; [done|]. rewrite (ok_full _ _ _ _ _ _ HQ eq_refl Hok).
  destruct (a_full ch q) eqn:Ef; [injection Habs as <- <-; by apply vruns_ret|].
  apply vruns_get. intros m Em.
  replace (pm_state m) with (a_pm a) by (rewrite <- Epm; by apply (f_equal s_pm) in Em).
  apply stm_bind_inv in Habs as (? & ? & [= <- <-] & Habs).
  destruct (MHI_PM_IN_ERROR_STATE (a_pm a)); [injection Habs as <- <-; by apply vruns_ret|].
  pose proof (not_full _ _ _ _ Hok Hq Ef). rewrite Ed in HQ.
  apply stm_bind_inv in Habs as (p & a1 & (-> & ->)%a_map_inv & Habs).
  apply vruns_bind, vruns_leave_lpm. apply vruns_bind. eapply vruns_queue_wake; [done|]. intros b.
  cbv zeta. eapply (vruns_fill _ i c v q); [done..|lia|done| |].
  - intros v' p d Es Hf. rewrite Edma in Es. rewrite Es in Habs. simpl in Habs.
    apply stm_bind_inv in Habs as ([] & a2 & Hset & [= <- <-]).
    erewrite a_set_eq in Hset by done. injection Hset as <-. simpl.
    apply vruns_bind. eapply (vruns_count_up refs s a c ch q v); try done.
    apply vruns_bind. eapply vruns_advance_filled; [|done|].
    { by eapply (on_chan_lookup c v v' (on_dma d s)). }
    intros v'' Hpush. change (on_chan c v'' (counted ?w (on_chan c v' ?x)))
      with (counted w (on_chan c v'' (on_chan c v' x))). rewrite on_chan_twice.
    eapply (queue_tail refs s a c ch q (Item skb l p false) v v'' d b); try done.
    { by rewrite Ed. } intros s1 Φ. apply vruns_wake_put.
  - intros v' rb Hno -> HQ'. rewrite Edma in *. apply vruns_bind, vruns_wake_put, vruns_ret.
    assert (Em' : match a_maps a with [] => None | p :: _ => p end = None).
    { destruct (a_maps a) as [|[p|] d]; [done| |done]. by destruct (Hno p d). }
    rewrite Em' in Habs. injection Habs as <- <-. split; [done|].
    rewrite <- Ed in HQ'. pose proof (rel_failed refs s a c ch q v _ rb Hrel Hc Hq Hok eq_refl HQ') as H'.
    by rewrite Edma in H'.
Qed.

Lemma queue_dma_refines refs s a c buf dma_addr l r a' : rel refs s a →
  abs_queue_dma c buf dma_addr l a = Done (r, a') →
  vruns (mhi_queue_dma c buf dma_addr l) s (λ r' s', r' = r ∧ rel refs s' a').
Proof.
  intros Hrel Habs. pose proof Hrel as [Epm Hst Edma _ _ _ _ _].
  apply stm_bind_inv in Habs as ([ch q] & ? & (Hc & Hq & ->)%a_chan_inv & Habs).
  destruct (rel_chan _ _ _ _ _ Hrel Hc) as (v & Hv & Hok).
  destruct (a_dma ch) eqn:Ed; [|done]. simpl in Habs.
  pose proof (ok_queue _ _ _ Hok) as HQ. rewrite Hq in HQ. destruct HQ as (_ & _ & Ebase & HQ).
  set (i := a_done ch) in *.
  apply vruns_bind. eapply vruns_chan_at; [done|]. rewrite (ok_full _ _ _ _ _ _ HQ eq_refl Hok).
  destruct (a_full ch q) eqn:Ef; [injection Habs as <- <-; by apply vruns_ret|].
  apply vruns_get. intros m Em.
  replace (pm_state m) with (a_pm a) by (rewrite <- Epm; by apply (f_equal s_pm) in Em).
  apply stm_bind_inv in Habs as (? & ? & [= <- <-] & Habs).
  destruct (MHI_PM_IN_ERROR_STATE (a_pm a)); [injection Habs as <- <-; by apply vruns_ret|].
  pose proof (not_full _ _ _ _ Hok Hq Ef).
  apply stm_bind_inv in Habs as ([] & a2 & Hset & [= <- <-]).
  erewrite a_set_eq in Hset by done. injection Hset as <-.
  apply vruns_bind, vruns_leave_lpm. apply vruns_bind. eapply vruns_queue_wake; [done|]. intros b.
  destruct HQ as [(ts & bs & Ht & Hb & HF & <-) _]. rewrite length_fmap in *.
  destruct (holds_load_wp _ _ _ _ _ Hb) as (old & Eold & _).
  apply vruns_bind. eapply vruns_lift; [done|]. cbv zeta. rewrite (ok_rsc _ _ _ Hok).
  apply vruns_bind, vruns_bind. eapply vruns_store_buf; [done..|]. intros k rb Hb1 Eb1.
  eapply vruns_store_tre; [by eapply on_chan_lookup|exact Ht|]. intros k2 rt Ht1 Et1.
  rewrite on_chan_twice.
  apply vruns_bind. eapply (vruns_count_up refs s a c ch _ v); try done.
  apply vruns_bind. eapply (vruns_advance_filled (a_cap ch + 1) i c true v _
    (Item buf l dma_addr true)); [by eapply on_chan_lookup| |].
  { exists rt, rb. split; [done|]. split; [done|]. set (b' := MhiBufInfo _ _ _ _ _ _ _ _) in *.
    replace (Item buf l dma_addr true) with (item_of b') by done.
    match type of Et1 with _ = Done ?t => by apply (queue_push _ i true v ts bs t b' rt rb); try lia end. }
  intros v' Hpush. change (on_chan c v' (counted ?w (on_chan c ?x ?y)))
    with (counted w (on_chan c v' (on_chan c x y))). rewrite on_chan_twice.
  replace s with (on_dma (a_maps a) s) by (destruct s; simpl in *; by subst).
  eapply (queue_tail refs s a c ch _ _ v v' (a_maps a) b); try done.
  { by rewrite Ed. } intros s1 Φ. apply vruns_wake_put.
Qed.

(** ** Completion *)

Lemma a_pop_eq c n q ch a : a_chans a !! c = Some ch →
  a_pop c n q a = Done ((), AState (a_pm a) (a_maps a) (<[c := add_done n (set_q q ch)]> (a_chans a)) (a_out a)).
Proof. unfold a_pop. by intros ->. Qed.

(** The oldest element of both rings is given up. *)
Lemma queue_pop n i dma v b bs :
  queue_at n i dma v (item_of <$> b :: bs) →
  (∃ ts, ring_holds n SIZEOF_TRE i (tre_ring v) ts ∧ ring_holds n SIZEOF_BUF_INFO i (buf_ring v) (b :: bs)
    ∧ Forall2 describes ts (b :: bs)) →
  queue_at n (i + 1) dma
    (set_tre (mhi_del_ring_element (tre_ring v)) (set_buf (mhi_del_ring_element (buf_ring v)) v))
    (item_of <$> bs).
Proof.
  intros [_ Hp] (ts & Ht & Hb & HF). split; [|done].
  destruct ts as [|t ts]; [by apply Forall2_length in HF|]. apply Forall2_cons in HF as [_ HF].
  exists ts, bs. simpl. split_and!; [by eapply holds_del|by eapply holds_del|done|done].
Qed.

Lemma ok_pop pm ch v b bs : chan_ok pm ch v → a_q ch = Some (item_of <$> b :: bs) →
  (∃ ts, ring_holds (a_cap ch + 1) SIZEOF_TRE (a_done ch) (tre_ring v) ts
    ∧ ring_holds (a_cap ch + 1) SIZEOF_BUF_INFO (a_done ch) (buf_ring v) (b :: bs)
    ∧ Forall2 describes ts (b :: bs)) →
  chan_ok pm (add_done 1 (set_q (item_of <$> bs) ch))
    (set_tre (mhi_del_ring_element (tre_ring v)) (set_buf (mhi_del_ring_element (buf_ring v)) v)).
Proof.
  intros [] Hq Hr. rewrite Hq in ok_queue0. destruct ok_queue0 as (Hs & Ha & [Hb Hi] & HQ).
  split; simpl; try done. split_and!; try done.
  - intros E _. apply Ha; [done|]. destruct Hr as (ts & Ht & _ & HF).
    pose proof (holds_empty _ _ _ _ _ Ht) as He.
    rewrite bool_decide_false in He by (intros ->; by apply Forall2_length in HF). by apply Z.eqb_neq.
  - by eapply queue_pop.
Qed.

(** The rings behind a queue. *)
Lemma ok_rings pm ch v q : chan_ok pm ch v → a_q ch = Some q →
  ∃ ts bs, ring_holds (a_cap ch + 1) SIZEOF_TRE (a_done ch) (tre_ring v) ts
    ∧ ring_holds (a_cap ch + 1) SIZEOF_BUF_INFO (a_done ch) (buf_ring v) bs
    ∧ Forall2 describes ts bs ∧ q = item_of <$> bs.
Proof.
  intros [_ _ _ _ H] Hq. rewrite Hq in H. destruct H as (_ & _ & _ & [(ts & bs & ? & ? & ? & ?) _]).
  by exists ts, bs.
Qed.

Lemma rel_pop refs s a c ch v b bs o : rel refs s a → a_chans a !! c = Some ch →
  s_chans s !! c = Some v → chan_ok (a_pm a) ch v → a_q ch = Some (item_of <$> b :: bs) →
  (∃ ts, ring_holds (a_cap ch + 1) SIZEOF_TRE (a_done ch) (tre_ring v) ts
    ∧ ring_holds (a_cap ch + 1) SIZEOF_BUF_INFO (a_done ch) (buf_ring v) (b :: bs)
    ∧ Forall2 describes ts (b :: bs)) →
  rel refs (counted (if to_device v then -1 else 0) (on_out o (on_chan c
      (set_tre (mhi_del_ring_element (tre_ring v)) (set_buf (mhi_del_ring_element (buf_ring v)) v)) s)))
    (AState (a_pm a) (a_maps a) (<[c := add_done 1 (set_q (item_of <$> bs) ch)]> (a_chans a)) (o ++ a_out a)).
Proof.
  intros Hrel Hc Hv Hok Hq Hr. pose proof (ok_pop _ _ _ _ _ Hok Hq Hr) as Hok'.
  pose proof (rel_update refs s a c ch _ _ o (a_maps a) (if to_device v then -1 else 0) Hrel Hc Hok' eq_refl) as H.
  replace (on_dma (a_maps a) _) with (on_out o (on_chan c (set_tre (mhi_del_ring_element (tre_ring v))
    (set_buf (mhi_del_ring_element (buf_ring v)) v)) s)) in H
    by (destruct Hrel; destruct s; simpl in *; by subst).
  apply H. unfold weight. simpl. rewrite Hq, (ok_up _ _ _ Hok), length_fmap, length_fmap, length_cons.
  destruct (a_up ch); lia.
Qed.

(** A buffer that is on its way up is counted. *)
Lemma pending_held refs s a c ch v it q : rel refs s a → a_chans a !! c = Some ch →
  chan_ok (a_pm a) ch v → a_q ch = Some (it :: q) → to_device v = true → 0 < s_pending s.
Proof.
  intros [] Hc Hok Hq Hup. rewrite rel_pending0.
  pose proof (waiting_insert c ch (set_q [] ch) (a_chans a) Hc).
  pose proof (waiting_nonneg (<[c := set_q [] ch]> (a_chans a))).
  pose proof (weight_set ch _ [] Hq) as E. rewrite (ok_up _ _ _ Hok) in Hup.
  rewrite Hup, length_cons in E. simpl in E. lia.
Qed.

Lemma complete_one_refines refs s a c status l a' : rel refs s a →
  abs_complete c status l a = Done ((), a') →
  vruns (complete_one c status l) s (λ _ s', rel refs s' a').
Proof.
  intros Hrel Habs.
  apply stm_bind_inv in Habs as ([ch q] & ? & (Hc & Hq & ->)%a_chan_inv & Habs).
  destruct (rel_chan _ _ _ _ _ Hrel Hc) as (v & Hv & Hok).
  destruct (ok_rings _ _ _ _ Hok Hq) as (ts & bs & Ht & Hb & HF & ->).
  destruct bs as [|b bs]; [done|]. cbn [fmap list_fmap] in Habs.
  apply stm_bind_inv in Habs as ([] & a1 & [= <-] & Habs).
  apply stm_bind_inv in Habs as ([] & a2 & Hpop & Habs).
  erewrite a_pop_eq in Hpop by done. injection Hpop as <-.
  apply stm_bind_inv in Habs as ([] & a3 & [= <-] & Habs). simpl in Habs.
  apply vruns_bind. eapply vruns_chan_at; [done|].
  apply vruns_bind. eapply vruns_lift; [by eapply holds_load|].
  set (o := if pre_mapped b then [] else [AUnmap (p_addr b) (buf_len b)]) in *.
  apply vruns_bind. apply vruns_mono with (Φ := λ _ s', s' = on_out o s).
  { subst o. destruct (pre_mapped b); simpl; [apply vruns_ret; by rewrite on_out_nil|].
    apply vruns_out. simpl. by rewrite on_refs_0. }
  intros [] ? ->.
  apply vruns_bind. eapply vruns_upd_chan; [done|].
  apply vruns_bind. eapply vruns_upd_chan; [by eapply (on_chan_lookup c v _ (on_out o s))|].
  rewrite on_chan_twice. apply vruns_bind, vruns_out. simpl. rewrite on_refs_0.
  set (cb := ACb _ _).
  pose proof (rel_pop refs s a c ch v b bs (cb :: o) Hrel Hc Hv Hok Hq ltac:(by exists ts)) as Hrel'.
  pose proof (rel_pending_range _ _ _ Hrel). apply vruns_bind.
  apply (vruns_dec_pending (to_device v)); [done| |].
  { intros Hup. change (0 < s_pending s). by eapply (pending_held refs s a c ch). }
  apply vruns_bind, vruns_wake_put. rewrite (ok_pre _ _ _ Hok).
  change (counted _ _) with (counted (if to_device v then -1 else 0) (on_out (cb :: o) (on_chan c
      (set_tre (mhi_del_ring_element (tre_ring v)) (set_buf (mhi_del_ring_element (buf_ring v)) v)) s))).
  rewrite <- (ok_id _ _ _ Hok), <- (ok_up _ _ _ Hok) in Habs. fold cb in Habs.
  destruct (a_pre ch); [|injection Habs as <-; by apply vruns_ret].
  apply stm_bind_inv in Habs as (r & a4 & Hqb & Habs).
  apply vruns_bind. eapply vruns_mono; [by eapply queue_buf_refines|]. intros r' s' [-> Hrel4].
  destruct (r =? 0); simpl in *; [injection Habs as <-; by apply vruns_ret|].
  injection Habs as <-. apply vruns_out. simpl. rewrite on_refs_0.
  destruct Hrel4. split; try done. simpl. by f_equal.
Qed.

(** ** Transfer events *)

Lemma abs_queue_buf_chan c buf l a r a' ch q : abs_queue_buf c buf l a = Done (r, a') →
  a_chans a !! c = Some ch → a_q ch = Some q →
  ∃ q', a_chans a' !! c = Some (set_q q' ch).
Proof.
  intros H Hc Hq. assert (Eid : set_q q ch = ch) by (destruct ch; simpl in *; by subst).
  apply stm_bind_inv in H as (? & ? & [= <- <-] & H).
  destruct (MHI_PM_IN_ERROR_STATE _); [injection H as _ <-; exists q; by rewrite Eid|].
  apply stm_bind_inv in H as ([ch1 q1] & ? & (Hc1 & Hq1 & ->)%a_chan_inv & H).
  assert (ch1 = ch) as -> by congruence. assert (q1 = q) as -> by congruence.
  destruct (a_dma ch); [done|].
  destruct (a_full ch q); [injection H as _ <-; exists q; by rewrite Eid|].
  apply stm_bind_inv in H as (p & a1 & (-> & ->)%a_map_inv & H).
  destruct (match a_maps a with [] => _ | _ => _ end) as [p|].
  - apply stm_bind_inv in H as ([] & a2 & Hset & [= _ <-]).
    erewrite a_set_eq in Hset by done. injection Hset as <-. simpl. eexists.
    apply list_lookup_insert_eq. by eapply lookup_lt_Some.
  - injection H as _ <-. exists q. by rewrite Eid.
Qed.

Lemma abs_complete_chan c status l a a' ch : abs_complete c status l a = Done ((), a') →
  a_chans a !! c = Some ch →
  ∃ q', a_chans a' !! c = Some (add_done 1 (set_q q' ch)).
Proof.
  intros H Hc. apply stm_bind_inv in H as ([ch1 q] & ? & (Hc1 & Hq & ->)%a_chan_inv & H).
  assert (ch1 = ch) as -> by congruence.
  destruct q as [|it q]; [done|].
  apply stm_bind_inv in H as ([] & a1 & [= <-] & H).
  apply stm_bind_inv in H as ([] & a2 & Hpop & H).
  erewrite a_pop_eq in Hpop by done. injection Hpop as <-.
  apply stm_bind_inv in H as ([] & a3 & [= <-] & H). simpl in H.
  assert (Hlook : <[c:=add_done 1 (set_q q ch)]> (a_chans a) !! c = Some (add_done 1 (set_q q ch)))
    by (apply list_lookup_insert_eq; by eapply lookup_lt_Some).
  destruct (a_pre ch); [|injection H as <-; by exists q].
  apply stm_bind_inv in H as (r & a4 & Hqb & H).
  eapply abs_queue_buf_chan in Hqb as (q' & Hq'); [|exact Hlook|done].
  exists q'. destruct (negb (r =? 0)); by injection H as <-.
Qed.

(** The address of the element behind the last completed one. *)
Definition next_place (ch : achan) (k : Z) : Z :=
  a_base ch + SIZEOF_TRE * ((a_done ch + k) mod (a_cap ch + 1)).

Lemma ok_next pm ch v q : chan_ok pm ch v → a_q ch = Some q →
  layout (a_cap ch + 1) SIZEOF_TRE (tre_ring v) ∧ base (tre_ring v) = a_base ch
  ∧ iommu_base (tre_ring v) = a_dev ch ∧ rp (tre_ring v) = next_place ch 0.
Proof.
  intros Hok Hq. destruct (ok_rings _ _ _ _ Hok Hq) as (ts & bs & [HL Hr _ _ _] & _).
  destruct Hok as [_ _ _ _ H]. rewrite Hq in H. destruct H as (_ & _ & [Eb Ei] & _).
  split_and!; try done. rewrite Hr. unfold place, next_place. by rewrite Eb, Z.add_0_r.
Qed.

Lemma complete_loop_refines refs c status l {J} (js : list J) :
  ∀ fuel s a a' ch q dev_rp, rel refs s a → a_chans a !! c = Some ch → a_q ch = Some q →
  (length js ≤ fuel)%nat → Z.of_nat (length js) ≤ a_cap ch →
  dev_rp = next_place ch (Z.of_nat (length js)) →
  for_each js (λ _, abs_complete c status l) a = Done ((), a') →
  vruns (complete_loop fuel c dev_rp status l) s (λ _ s', rel refs s' a').
Proof.
  induction js as [|j js IH]; intros fuel s a a' ch q dev_rp Hrel Hc Hq Hfuel Hcap -> Habs;
    destruct (rel_chan _ _ _ _ _ Hrel Hc) as (v & Hv & Hok);
    destruct (ok_next _ _ _ _ Hok Hq) as (HL & Eb & Ei & Er).
  - injection Habs as <-. change (Z.of_nat (length (@nil J))) with 0.
    assert (E : (rp (tre_ring v) =? next_place ch 0) = true) by (by apply Z.eqb_eq).
    destruct fuel; apply vruns_bind; eapply vruns_chan_at; try done; rewrite E; by apply vruns_ret.
  - rewrite length_cons in *. destruct fuel as [|fuel]; [lia|]. simpl.
    apply stm_bind_inv in Habs as ([] & a1 & H1 & Habs).
    apply vruns_bind. eapply vruns_chan_at; [done|].
    assert (E : (rp (tre_ring v) =? next_place ch (Z.of_nat (S (length js)))) = false).
    { apply Z.eqb_neq. rewrite Er. unfold next_place. rewrite <- Eb.
      apply (place_near (a_cap ch + 1) SIZEOF_TRE (tre_ring v)); [done|lia]. }
    rewrite E. apply vruns_bind. eapply vruns_mono; [by eapply complete_one_refines|].
    intros [] s1 Hrel1. destruct (abs_complete_chan _ _ _ _ _ _ H1 Hc) as (q' & Hc').
    eapply (IH fuel s1 a1 a' _ q'); try done; [simpl; lia..|].
    unfold next_place. simpl. do 3 f_equal. lia.
Qed.

Lemma next_place_wrap ch v k : layout (a_cap ch + 1) SIZEOF_TRE (tre_ring v) →
  base (tre_ring v) = a_base ch → iommu_base (tre_ring v) = a_dev ch →
  ∀ ptr, event_index ch ptr = Some k → event_dev_rp (tre_ring v) ptr = next_place ch (Z.of_nat k + 1).
Proof.
  intros HL Eb Ei ptr. unfold event_index. set (n := a_cap ch + 1) in *.
  set (off := u64 (ptr - a_dev ch)). pose proof (Z.mod_pos_bound (ptr - a_dev ch) (2 ^ 64) ltac:(lia)).
  destruct (_ && _) eqn:E; [|done]. intros [= Ek]. apply andb_true_iff in E as [E1 E2]. bool_to_prop.
  pose proof (lay_n _ _ _ HL). pose proof (lay_size _ _ _ HL). pose proof (lay_base _ _ _ HL).
  pose proof (lay_len _ _ _ HL) as Elen. unfold event_dev_rp, mhi_to_virtual. rewrite Ei.
  assert (Ev : u64 (ptr - a_dev ch + base (tre_ring v)) = base (tre_ring v) + off).
  { unfold u64. rewrite <- Zplus_mod_idemp_l. fold (u64 (ptr - a_dev ch)). fold off.
    rewrite Z.mod_small; [lia|]. unfold off, u64 in *. lia. }
  rewrite Ev. set (j := off / SIZEOF_TRE). unfold SIZEOF_TRE in *.
  assert (Hoff : off = 16 * j) by (unfold j; pose proof (Z.div_mod off 16); lia).
  assert (Hj : 0 ≤ j < n) by (unfold off, u64 in *; lia).
  assert (Ep : base (tre_ring v) + off = place n 16 (tre_ring v) (a_done ch + Z.of_nat k)).
  { unfold place. rewrite <- Ek, Z2Nat.id by (apply Z.mod_pos_bound; lia).
    rewrite Zplus_mod_idemp_r. replace (a_done ch + (off / 16 - a_done ch)) with j by (unfold j; lia).
    rewrite Z.mod_small by lia. lia. }
  rewrite Ep. pose proof (place_range n 16 (tre_ring v) (a_done ch + Z.of_nat k) HL).
  unfold u64. rewrite Z.mod_small by lia. rewrite Elen.
  rewrite (place_succ n 16) by done. unfold next_place, place. rewrite Eb. do 3 f_equal. lia.
Qed.

Lemma event_refines refs s a c ev a' : rel refs s a → transfer_code (MHI_TRE_GET_EV_CODE ev) = true →
  abs_transfer c ev a = Done ((), a') →
  vruns (parse_xfer_event ev c) s (λ _ s', rel refs s' a').
Proof.
  intros Hrel Ecode Habs.
  apply stm_bind_inv in Habs as ([ch q] & ? & (Hc & Hq & ->)%a_chan_inv & Habs).
  destruct (rel_chan _ _ _ _ _ Hrel Hc) as (v & Hv & Hok).
  destruct (ok_next _ _ _ _ Hok Hq) as (HL & Eb & Ei & Er). cbv zeta in Habs.
  apply vruns_bind. eapply vruns_chan_at; [done|]. cbv zeta.
  destruct (event_index _ _) as [k|] eqn:Ek; [|done]. destruct (decide _) as [Hk|]; [|done].
  pose proof (ok_queue _ _ _ Hok) as HQ. rewrite Hq in HQ. destruct HQ as (Est & _ & _ & HQ%queue_cap).
  rewrite Est, Z.eqb_refl. cbn [negb]. unfold transfer_code in Ecode. rewrite Ecode.
  rewrite (next_place_wrap ch v k) by done.
  eapply (complete_loop_refines refs c _ _ (seq 0 (S k))); try done; rewrite length_seq; try lia.
  - pose proof (lay_elements _ _ _ HL) as ->. lia.
  - unfold next_place. do 3 f_equal. lia.
Qed.
