(* ===== verification/MhiRefine.v ===== *)
(** * The Modem Host Interface: any sequence of operations

    State changes, the return of all buffers, and the refinement theorem. *)

From S2P Require Import Prelude Kernel Mhi MhiPm MhiXfer MhiExample MhiPmProps MhiRing MhiSpec MhiQueues.

#[local] Open Scope Z_scope.
#[local] Open Scope c_scope.

(** ** Changes of the power state *)

Lemma ok_any pm pm' ch v : pm' ≠ MHI_PM_M0 → chan_ok pm ch v → chan_ok pm' ch v.
Proof.
  intros Hpm [E1 E2 E3 E4 H]. split; try done. destruct (a_q ch); [|done].
  destruct H as (? & _ & [? ?] & ?). split_and!; try done; by intros ?%Hpm.
Qed.

(** The relation while the doorbells are rung one after the other: the first
    [j] channels are announced. *)
Definition upto (j : nat) (a : astate) (s : view) : Prop :=
  length (a_chans a) = length (s_chans s)
  ∧ ∀ c ch v, a_chans a !! c = Some ch → s_chans s !! c = Some v →
      chan_ok (if decide (c < j)%nat then MHI_PM_M0 else 0) ch v.

Lemma upto_start pm a s : Forall2 (chan_ok pm) (a_chans a) (s_chans s) → upto 0 a s.
Proof.
  intros H. split; [by eapply Forall2_length|]. intros c ch v Hc Hv. simpl.
  eapply ok_any; [done|]. by eapply (Forall2_lookup_lr (chan_ok pm)).
Qed.

Lemma upto_end a s : upto (length (s_chans s)) a s → Forall2 (chan_ok MHI_PM_M0) (a_chans a) (s_chans s).
Proof.
  intros [El H]. apply Forall2_same_length_lookup_2; [done|]. intros c ch v Hc Hv.
  specialize (H c ch v Hc Hv). by rewrite decide_True in H by (by eapply lookup_lt_Some).
Qed.

(** A channel that is rung, or has nothing to announce, is announced. *)
Lemma ok_rung ch v v' : chan_ok 0 ch v → rung v v' → announced MHI_PM_M0 v' → chan_ok MHI_PM_M0 ch v'.
Proof.
  intros Hok Hr Ha. pose proof (rung_fields _ _ Hr) as ([Eb Ei] & E1 & E2 & E3 & E4 & E5).
  destruct Hok as [H1 H2 H3 H4 H]. split; try congruence.
  destruct (a_q ch); [|congruence]. destruct H as (? & _ & [? ?] & HQ).
  split_and!; try done; try congruence. by eapply queue_rung.
Qed.

(** A channel whose [db_mode] is set. *)
Lemma ok_db_mode pm ch v d : chan_ok pm ch v → chan_ok pm ch (set_chan_db d v).
Proof. intros [E1 E2 E3 E4 H]. split; try done.
  destruct (a_q ch); [|done]. destruct H as (? & ? & [? ?] & [? ?]). by split_and!.
Qed.

(** The body of the loop over the channels in [mhi_pm_m0_transition]. *)
Definition m0_chan (c : nat) : mhi () :=
  v ← chan_at c;
  (if reset_req (chan_db v) then upd_chan c (λ v, set_chan_db (set_db_mode true (chan_db v)) v)
   else mret ());;
  let tre_ring := tre_ring v in
  if negb (base tre_ring =? 0) && negb (wp tre_ring =? rp tre_ring)
  then mhi_ring_chan_db c else mret ().

Lemma on_chan_id c v s : s_chans s !! c = Some v → on_chan c v s = s.
Proof. intros H. destruct s. unfold on_chan. simpl in *. by rewrite list_insert_id. Qed.

Lemma vruns_m0_chan c v s (Φ : () → view → Prop) : s_chans s !! c = Some v →
  (∀ v1 v', v1 = v ∨ v1 = set_chan_db (set_db_mode true (chan_db v)) v → rung v1 v' →
    (base (tre_ring v) ≠ 0 → announced MHI_PM_M0 v') → Φ () (on_chan c v' s)) →
  vruns (m0_chan c) s Φ.
Proof.
  intros Hv H. apply vruns_bind. eapply vruns_chan_at; [done|].
  apply vruns_bind. apply vruns_mono with (Φ := λ _ s', ∃ v1,
    (v1 = v ∨ v1 = set_chan_db (set_db_mode true (chan_db v)) v) ∧ s' = on_chan c v1 s).
  { destruct (reset_req _).
    - eapply vruns_upd_chan; [done|]. by eexists; split; [by right|].
    - apply vruns_ret. exists v. split; [by left|]. by rewrite on_chan_id. }
  intros [] ? (v1 & Hv1 & ->).
  assert (E : tre_ring v1 = tre_ring v) by (by destruct Hv1 as [-> | ->]).
  cbv zeta. destruct (_ && _) eqn:Eb.
  - eapply vruns_ring_chan_db; [by eapply on_chan_lookup|]. intros d. cbv zeta. rewrite on_chan_twice.
    apply (H v1); [done|right; by exists d|]. by intros _ _ _.
  - apply vruns_ret. apply (H v1); [done|by left|]. intros Hb _ Hne. rewrite E in Hne.
    apply andb_false_iff in Eb as [Eb|Eb]; bool_to_prop; contradiction.
Qed.

Lemma upto_step c v a s : upto c a s → s_chans s !! c = Some v →
  vruns (m0_chan c) s (λ _ s', upto (S c) a s' ∧ ∃ v', s' = on_chan c v' s).
Proof.
  intros [El Hup] Hv. eapply vruns_m0_chan; [done|]. intros v1 v' Hv1 Hr Hann.
  split; [|by exists v']. split; [simpl; by rewrite length_insert|].
  intros c' ch w Hch Hw. simpl in Hw. destruct (decide (c' = c)) as [->|Hne].
  - rewrite list_lookup_insert_eq in Hw by (by eapply lookup_lt_Some). injection Hw as <-.
    rewrite decide_True by lia. specialize (Hup c ch v Hch Hv). rewrite decide_False in Hup by lia.
    assert (Hv1' : chan_ok 0 ch v1) by (destruct Hv1 as [-> | ->]; [done|by apply ok_db_mode]).
    destruct (a_q ch) as [q|] eqn:Eq.
    + eapply ok_rung; [done..|]. apply Hann. destruct (ok_next _ _ _ _ Hup Eq) as (HL & _).
      pose proof (lay_base _ _ _ HL). lia.
    + pose proof (rung_fields _ _ Hr) as (_ & E1 & E2 & E3 & E4 & E5).
      destruct Hv1' as [H1 H2 H3 H4 H]. rewrite Eq in H. split; try congruence. rewrite Eq. congruence.
  - rewrite list_lookup_insert_ne in Hw by done. specialize (Hup c' ch w Hch Hw).
    destruct (decide (c' < c)%nat), (decide (c' < S c)%nat); try lia; done.
Qed.

Lemma vruns_m0_chans a s : upto 0 a s →
  vruns (for_indices (length (s_chans s)) m0_chan) s (λ _ s', upto (length (s_chans s)) a s'
    ∧ ∃ cs, s' = View (s_pm s) (s_pending s) (s_dma s) cs (s_out s) (s_refs s)
        ∧ length cs = length (s_chans s)).
Proof.
  intros H0. unfold for_indices.
  assert (Hgen : ∀ n j s, upto j a s → (j + n)%nat = length (s_chans s) →
    vruns (for_each (seq j n) m0_chan) s (λ _ s', upto (j + n) a s'
      ∧ ∃ cs, s' = View (s_pm s) (s_pending s) (s_dma s) cs (s_out s) (s_refs s)
        ∧ length cs = length (s_chans s))).
  { clear s H0. induction n as [|n IH]; intros j s Hj El.
    - apply vruns_ret. rewrite Nat.add_0_r. split; [done|]. exists (s_chans s). by destruct s.
    - simpl. apply vruns_bind. destruct (lookup_lt_is_Some_2 (s_chans s) j) as [v Hv]; [lia|].
      eapply vruns_mono; [by eapply upto_step|]. intros [] s1 [H1 (v' & ->)].
      eapply vruns_mono; [apply IH; [done|simpl; rewrite length_insert; lia]|].
      intros [] s2 [H2 (cs & -> & Ec)]. rewrite Nat.add_succ_r. split; [done|].
      exists cs. split; [done|]. rewrite Ec. simpl. by rewrite length_insert. }
  by apply (Hgen (length (s_chans s)) 0%nat).
Qed.

(** What the view does not show. *)
Lemma vruns_quiet (prog : mhi ()) s (Φ : () → view → Prop) :
  (∀ m, view_of m = s → runs prog m (λ _ m', view_of m' = s)) → Φ () s → vruns prog s Φ.
Proof. intros H HΦ m Hm. eapply runs_mono; [by apply H|]. intros [] m' ->. done. Qed.

Definition quiet (m m' : mhi_controller) : Prop :=
  view_of m' = view_of m ∧ length (events m') = length (events m).

Lemma runs_write_db addr w m : runs (mhi_write_db addr w) m (λ _ m', quiet m m').
Proof. unfold mhi_write_db, mhi_write_reg. repeat (apply runs_bind; try apply runs_get; try apply runs_modify). done. Qed.

Lemma runs_process_db d addr w m : runs (process_db d addr w) m (λ _ m', quiet m m').
Proof.
  unfold process_db, mhi_db_brstmode, mhi_db_brstmode_disable.
  destruct (brstmode d =? _), (db_mode d); try (by apply runs_ret);
    (apply runs_bind; eapply runs_mono; [apply runs_write_db|]; intros [] m' H; by apply runs_ret).
Qed.

Lemma runs_ring_er_db e m : (e < length (events m))%nat → runs (mhi_ring_er_db e) m (λ _ m', quiet m m').
Proof.
  intros He. destruct (lookup_lt_is_Some_2 _ _ He) as [v Hv].
  apply runs_bind. eapply runs_exact; [unfold event_at; by rewrite Hv|].
  apply runs_bind. eapply runs_mono; [apply runs_process_db|]. intros d m1 [E1 E2].
  destruct (lookup_lt_is_Some_2 (events m1) e) as [v1 Hv1]; [lia|].
  apply runs_bind. eapply runs_exact; [unfold event_at; by rewrite Hv1|]. apply runs_modify.
  split; [done|]. simpl. by rewrite length_insert.
Qed.

(** All doorbells of the event rings. *)
Lemma runs_er_dbs m :
  runs (for_indices (length (events m))
    (λ e, v ← event_at e; if offload_ev v then mret () else mhi_ring_er_db e)) m
    (λ _ m', view_of m' = view_of m).
Proof.
  eapply runs_mono; [apply (runs_for_each _ _ (λ l m',
    quiet m m' ∧ ∀ e, e ∈ l → (e < length (events m))%nat))|].
  - split; [done|]. intros e. rewrite elem_of_seq. lia.
  - intros e l m1 [[E1 E2] Hl]. assert (He : (e < length (events m1))%nat)
      by (rewrite E2; apply Hl; by left).
    destruct (lookup_lt_is_Some_2 _ _ He) as [v Hv].
    apply runs_bind. eapply runs_exact; [unfold event_at; by rewrite Hv|].
    assert (Hl' : ∀ e, e ∈ l → (e < length (events m))%nat) by (intros; apply Hl; by right).
    destruct (offload_ev v); [by apply runs_ret|].
    eapply runs_mono; [by apply runs_ring_er_db|]. intros [] m2 [F1 F2].
    split; [|done]. split; congruence.
  - by intros [] m' [[E _] _].
Qed.

Definition to_pm (t : Z) (s : view) : view :=
  View t (s_pending s) (s_dma s) (s_chans s) (s_out s) (s_refs s).

Definition a_to_pm (t : Z) (a : astate) : astate := AState t (a_maps a) (a_chans a) (a_out a).

Lemma to_pm_id t s : s_pm s = t → to_pm t s = s.
Proof. intros <-. by destruct s. Qed.
Lemma a_to_pm_id t a : a_pm a = t → a_to_pm t a = a.
Proof. intros <-. by destruct a. Qed.

Lemma abs_pm_eq t a : abs_pm t a = Done ((), if allowed (a_pm a) t then a_to_pm t a else a).
Proof. unfold abs_pm, modify. by destruct (allowed _ _). Qed.

Lemma vruns_tryset t s (Φ : Z → view → Prop) : s_pm s ∈ pm_states →
  (if allowed (s_pm s) t then Φ t (to_pm t s) else Φ (s_pm s) s) →
  vruns (mhi_tryset_pm_state t) s Φ.
Proof.
  intros Hp H m <-. simpl in *. destruct (allowed (pm_state m) t) eqn:E;
    (eapply runs_exact; [rewrite tryset_run, E by done; reflexivity|done]).
Qed.

(** A state other than [M0] asks nothing of the channels. *)
Lemma rel_to_pm refs t s a : rel refs s a → t ∈ pm_states → t ≠ MHI_PM_M0 →
  rel refs (to_pm t s) (a_to_pm t a).
Proof.
  intros [E1 E2 E3 HF E4 E5 E6 E7] Ht Hne. split; try done. simpl.
  eapply Forall2_impl; [done|]. intros ch v. by apply ok_any.
Qed.

Lemma vruns_silent (prog : mhi ()) s : (∀ Φ : () → view → Prop, Φ () s → vruns prog s Φ) →
  vruns prog s (λ _ s', s' = s).
Proof. intros H. by apply H. Qed.

Lemma tryset_refines refs t s a : rel refs s a → t ∈ pm_states → t ≠ MHI_PM_M0 →
  vruns (mhi_tryset_pm_state t) s (λ r s',
    ∃ a', abs_pm t a = Done ((), a') ∧ rel refs s' a' ∧ r = a_pm a').
Proof.
  intros Hrel Ht Hne. pose proof Hrel as [Epm Hst _ _ _ _ _ _].
  rewrite abs_pm_eq. apply vruns_tryset; [by rewrite Epm|]. rewrite Epm.
  destruct (allowed (a_pm a) t); eexists; (split; [done|]); (split; [|done]); [by apply rel_to_pm|done].
Qed.

Lemma vruns_hidden_modify f s (Φ : () → view → Prop) : (∀ m, view_of (f m) = view_of m) → Φ () s →
  vruns (modify f) s Φ.
Proof. intros E H. apply vruns_modify. intros m <-. by rewrite E. Qed.

(** The two halves of [mhi_pm_m0_transition]: the state, and the doorbells. *)
Lemma m0_doorbells refs s a : rel refs s a →
  vruns (m ← get_state; for_indices (length (chans m)) m0_chan) (to_pm MHI_PM_M0 s)
    (λ _ s', rel refs s' (a_to_pm MHI_PM_M0 a)).
Proof.
  intros Hrel. pose proof Hrel as [E1 E2 E3 HF E4 E5 E6 E7]. apply vruns_get. intros m Em.
  replace (length (chans m)) with (length (s_chans (to_pm MHI_PM_M0 s)))
    by (by rewrite <- (f_equal s_chans Em)).
  eapply vruns_mono; [apply (vruns_m0_chans a); eapply upto_start, HF|].
  intros [] s' [Hup (cs & -> & Ec)]. split; try done; simpl in *.
  - repeat constructor.
  - rewrite <- Ec in Hup. by apply upto_end in Hup.
Qed.

(** The doorbells of event and command rings, before those of the channels. *)
Lemma vruns_ctrl_doorbells (rest : mhi Z) s Φ : vruns rest s Φ → vruns
  (m ← get_state;
   (if MHI_IN_MISSION_MODE (ee m) then
     for_indices (length (events m)) (λ e,
       v ← event_at e; if offload_ev v then mret () else mhi_ring_er_db e);;
     m ← get_state;
     if negb (rp (cmd m) =? wp (cmd m)) then mhi_ring_cmd_db else mret ()
   else mret ());; rest) s Φ.
Proof.
  intros Hrest m Em. apply runs_bind, runs_get. apply runs_bind.
  destruct (MHI_IN_MISSION_MODE _); [|apply runs_ret; by apply Hrest].
  apply runs_bind. eapply runs_mono; [apply runs_er_dbs|]. intros [] m1 E1.
  apply runs_bind, runs_get. destruct (negb _); [|apply runs_ret; apply Hrest; congruence].
  unfold mhi_ring_cmd_db. apply runs_bind, runs_get. apply runs_bind, runs_modify.
  eapply runs_mono; [apply runs_write_db|]. intros [] m2 [E2 _]. apply Hrest.
  transitivity (view_of m1); [by rewrite E2|congruence].
Qed.

Lemma m0_refines refs s a : rel refs s a →
  vruns (ignore mhi_pm_m0_transition) s (λ _ s',
    ∃ a', abs_pm MHI_PM_M0 a = Done ((), a') ∧ rel refs s' a').
Proof.
  intros Hrel. pose proof Hrel as [Epm Hst _ _ _ _ _ _]. rewrite abs_pm_eq.
  set (a' := if allowed _ _ then _ else _). apply vruns_bind.
  apply vruns_mono with (Φ := λ _ s', rel refs s' a'); [|intros z s' Hs'; apply vruns_ret; by exists a'].
  apply vruns_bind, vruns_hidden_modify; [done|]. apply vruns_bind, vruns_tryset; [by rewrite Epm|].
  rewrite Epm. subst a'.
  assert (Hgo : ∀ s1 a1, rel refs s1 a1 →
    vruns (modify (λ m, set_counts (u32 (M0 m + 1)) (M2 m) (M3 m) m);;
      wake_get false;;
      m ← get_state;
      (if MHI_IN_MISSION_MODE (ee m) then
        for_indices (length (events m)) (λ e,
          v ← event_at e; if offload_ev v then mret () else mhi_ring_er_db e);;
        m ← get_state;
        if negb (rp (cmd m) =? wp (cmd m)) then mhi_ring_cmd_db else mret ()
      else mret ());;
      m ← get_state; for_indices (length (chans m)) m0_chan;;
      wake_put false;; out Wake_up;; mret 0)
      (to_pm MHI_PM_M0 s1) (λ _ s', rel refs s' (a_to_pm MHI_PM_M0 a1))).
  { intros s1 a1 H1. apply vruns_bind, vruns_hidden_modify; [done|].
    apply vruns_bind, vruns_wake_get. apply vruns_ctrl_doorbells.
    pose proof (m0_doorbells _ _ _ H1) as Hdb. intros m Em. apply runs_bind, runs_get.
    specialize (Hdb m Em). destruct Hdb as (x & m' & E & Hdb).
    apply runs_bind. exists x, m'. split; [exact E|].
    apply runs_bind, runs_ret. apply runs_bind, runs_modify. apply runs_ret. exact Hdb. }
  destruct (allowed (a_pm a) MHI_PM_M0) eqn:E.
  - rewrite Z.eqb_refl. simpl negb. by apply (Hgo s a).
  - destruct (Z.eqb_spec (a_pm a) MHI_PM_M0) as [E0|E0]; [|by apply vruns_ret].
    simpl negb. specialize (Hgo s a Hrel). rewrite to_pm_id in Hgo by congruence.
    by rewrite a_to_pm_id in Hgo by congruence.
Qed.

Lemma set_mhi_state_silent state s (Φ : () → view → Prop) : Φ () s → vruns (mhi_set_mhi_state state) s Φ.
Proof.
  intros H. apply vruns_get. intros m _.
  destruct (state =? _); apply vruns_bind, vruns_get; intros m' _; apply vruns_ret;
    (destruct (_ && _); [by apply vruns_ret|]); apply vruns_get; intros m2 _; by apply vruns_hidden.
Qed.

(** [prog] changes the power state to [t] when that is allowed, and nothing else
    that the contract speaks about. *)
Definition goes_to (t : Z) (prog : mhi ()) : Prop := ∀ refs s a, rel refs s a →
  vruns prog s (λ _ s', ∃ a', abs_pm t a = Done ((), a') ∧ rel refs s' a').

Lemma goes_to_tryset t (f : Z → mhi ()) : t ∈ pm_states → t ≠ MHI_PM_M0 →
  (∀ r s Φ, Φ () s → vruns (f r) s Φ) → goes_to t (mhi_tryset_pm_state t ≫= f).
Proof.
  intros Ht Hne Hf refs s a Hrel. apply vruns_bind.
  eapply vruns_mono; [by apply tryset_refines|]. intros r s' (a' & Ha & Hrel' & _).
  apply Hf. by exists a'.
Qed.

Lemma goes_m0 : goes_to MHI_PM_M0 (ignore mhi_pm_m0_transition).
Proof. intros refs s a. apply m0_refines. Qed.

Lemma goes_m1 : goes_to MHI_PM_M2 mhi_pm_m1_transition.
Proof.
  apply goes_to_tryset; [repeat constructor|done|]. intros r s Φ H.
  destruct (r =? _); [|by apply vruns_ret].
  apply vruns_bind, set_mhi_state_silent. do 2 (apply vruns_bind, vruns_hidden_modify; [done|]).
  apply vruns_bind, vruns_hidden; [done..|]. apply vruns_get. intros m _.
  destruct (negb _); [|by apply vruns_hidden]. apply vruns_bind, vruns_wake_get. by apply vruns_ret.
Qed.

Lemma goes_m3 : goes_to MHI_PM_M3 (ignore mhi_pm_m3_transition).
Proof.
  intros refs s a Hrel. apply vruns_bind, vruns_bind, vruns_hidden_modify; [done|].
  apply vruns_bind. eapply vruns_mono; [by apply (tryset_refines refs MHI_PM_M3 s a);
    [|repeat constructor|]|]. intros r s' (a' & Ha & Hrel' & _).
  destruct (negb _); [apply vruns_ret, vruns_ret; by exists a'|].
  apply vruns_bind, vruns_hidden; [done..|]. apply vruns_bind, vruns_hidden_modify; [done|].
  apply vruns_ret, vruns_ret. by exists a'.
Qed.

Lemma goes_sys_err : goes_to MHI_PM_SYS_ERR_DETECT sys_err_event.
Proof.
  apply goes_to_tryset; [repeat constructor|done|]. intros r s Φ H.
  destruct (r =? _); [by apply vruns_hidden|by apply vruns_ret].
Qed.

Lemma goes_linkdown : goes_to MHI_PM_LD_ERR_FATAL_DETECT force_linkdown.
Proof.
  apply goes_to_tryset; [repeat constructor|done|]. intros r s Φ H. by apply vruns_ret.
Qed.

(** ** The return of all buffers *)

Lemma a_emit_eq o a : a_emit o a = Done ((), AState (a_pm a) (a_maps a) (a_chans a) (o ++ a_out a)).
Proof. done. Qed.

Lemma reset_one_refines refs s a c a' : rel refs s a → abs_return_one c a = Done ((), a') →
  vruns (reset_one c) s (λ _ s', rel refs s' a').
Proof.
  intros Hrel Habs.
  apply stm_bind_inv in Habs as ([ch q] & ? & (Hc & Hq & ->)%a_chan_inv & Habs).
  destruct (rel_chan _ _ _ _ _ Hrel Hc) as (v & Hv & Hok).
  destruct (ok_rings _ _ _ _ Hok Hq) as (ts & bs & Ht & Hb & HF & ->).
  destruct bs as [|b bs]; [done|]. cbn [fmap list_fmap] in Habs.
  apply stm_bind_inv in Habs as ([] & a1 & [= <-] & Habs).
  erewrite a_pop_eq in Habs by done. injection Habs as <-. simpl.
  apply vruns_bind. eapply vruns_chan_at; [done|].
  apply vruns_bind. eapply vruns_lift; [by eapply holds_load|].
  pose proof (rel_pending_range _ _ _ Hrel). apply vruns_bind.
  apply (vruns_dec_pending (to_device v)); [done| |].
  { intros Hup. by eapply (pending_held refs s a c ch). }
  set (w := if to_device v then -1 else 0).
  apply vruns_bind, vruns_wake_put.
  set (o := if pre_mapped b then [] else [AUnmap (p_addr b) (buf_len b)]) in *.
  apply vruns_bind. apply vruns_mono with (Φ := λ _ s', s' = on_out o (counted w s)).
  { subst o. destruct (pre_mapped b); simpl; [apply vruns_ret; by rewrite on_out_nil|].
    apply vruns_out. simpl. by rewrite on_refs_0. }
  intros [] ? ->.
  apply vruns_bind. eapply vruns_upd_chan; [done|].
  apply vruns_bind. eapply vruns_upd_chan; [by eapply (on_chan_lookup c v _ (on_out o s))|].
  rewrite on_chan_twice. rewrite (ok_pre _ _ _ Hok), (ok_id _ _ _ Hok), (ok_up _ _ _ Hok).
  set (x := if a_pre ch then AFree (cb_buf b) else ACb (a_id ch) (MhiResult (cb_buf b) (a_up ch) 0 (- ENOTCONN))).
  pose proof (rel_pop refs s a c ch v b bs (x :: o) Hrel Hc Hv Hok Hq ltac:(by exists ts)) as Hrel'.
  destruct (a_pre ch); apply vruns_out; simpl; rewrite on_refs_0; exact Hrel'.
Qed.

Lemma reset_loop_refines refs c {J} (js : list J) : ∀ fuel s a a' ch q,
  rel refs s a → a_chans a !! c = Some ch → a_q ch = Some q → length q = length js →
  (length js ≤ fuel)%nat → for_each js (λ _, abs_return_one c) a = Done ((), a') →
  vruns (reset_loop fuel c) s (λ _ s', rel refs s' a').
Proof.
  induction js as [|j js IH]; intros fuel s a a' ch q Hrel Hc Hq El Hf Habs;
    destruct (rel_chan _ _ _ _ _ Hrel Hc) as (v & Hv & Hok);
    destruct (ok_rings _ _ _ _ Hok Hq) as (ts & bs & Ht & _ & HF & ->);
    pose proof (holds_empty _ _ _ _ _ Ht) as He; rewrite Z.eqb_sym in He;
    rewrite length_fmap, <- (Forall2_length _ _ _ HF) in El.
  - injection Habs as <-. destruct ts; [|done]. rewrite bool_decide_true in He by done.
    destruct fuel; (apply vruns_bind; eapply vruns_chan_at; [done|]); rewrite He; by apply vruns_ret.
  - destruct fuel as [|fuel]; [simpl in Hf; lia|].
    rewrite bool_decide_false in He by (by intros ->). apply vruns_bind. eapply vruns_chan_at; [done|].
    rewrite He. apply stm_bind_inv in Habs as ([] & a1 & H1 & Habs).
    apply vruns_bind. eapply vruns_mono; [by eapply reset_one_refines|]. intros [] s1 Hrel1.
    apply stm_bind_inv in H1 as ([ch1 q1] & ? & (Hc1 & Hq1 & ->)%a_chan_inv & H1).
    assert (ch1 = ch) as -> by congruence. destruct q1 as [|it q1]; [done|].
    apply stm_bind_inv in H1 as ([] & a2 & [= <-] & H1). erewrite a_pop_eq in H1 by done.
    injection H1 as <-. simpl in *.
    eapply (IH fuel s1 _ a' (add_done 1 (set_q q1 ch)) q1); try done; [|simpl|lia].
    + apply list_lookup_insert_eq. by eapply lookup_lt_Some.
    + rewrite Hq in Hq1. injection Hq1 as E. apply (f_equal length) in E.
      rewrite length_fmap, <- (Forall2_length _ _ _ HF) in E. simpl in *. lia.
Qed.

Lemma reset_refines refs s a c a' : rel refs s a → abs_reset c a = Done ((), a') →
  vruns (mhi_reset_data_chan c) s (λ _ s', rel refs s' a').
Proof.
  intros Hrel Habs. apply stm_bind_inv in Habs as ([ch q] & ? & (Hc & Hq & ->)%a_chan_inv & Habs).
  destruct (rel_chan _ _ _ _ _ Hrel Hc) as (v & Hv & Hok).
  apply vruns_bind. eapply vruns_chan_at; [done|].
  destruct (ok_next _ _ _ _ Hok Hq) as (HL & _).
  destruct (ok_rings _ _ _ _ Hok Hq) as (ts & bs & _ & [_ _ _ Hcap _] & _ & Eq).
  eapply (reset_loop_refines refs c q); try done.
  rewrite (lay_elements _ _ _ HL), Eq, length_fmap. lia.
Qed.

(** ** Events that change no queue *)

Lemma ok_rung_same pm ch v v' : chan_ok pm ch v → pm ∈ pm_states → rung v v' →
  announced pm v' → chan_ok pm ch v'.
Proof.
  intros [H1 H2 H3 H4 H] _ Hr Ha. pose proof (rung_fields _ _ Hr) as ([Eb Ei] & E1 & E2 & E3 & E4 & E5).
  split; try congruence. destruct (a_q ch); [|congruence]. destruct H as (? & _ & [? ?] & HQ).
  split_and!; try done; try congruence. by eapply queue_rung.
Qed.

Lemma rel_same refs s a c ch v' : rel refs s a → a_chans a !! c = Some ch →
  chan_ok (a_pm a) ch v' → rel refs (on_chan c v' s) a.
Proof.
  intros Hrel Hc Hok.
  pose proof (rel_update refs s a c ch ch v' [] (a_maps a) 0 Hrel Hc Hok eq_refl ltac:(lia)) as H.
  rewrite counted_0, list_insert_id in H by done. destruct a; simpl in *.
  replace (on_dma a_maps (on_out [] (on_chan c v' s))) with (on_chan c v' s) in H; [done|].
  destruct Hrel, s; simpl in *; by subst.
Qed.

Lemma other_event_refines refs s a c ch ev : rel refs s a → a_chans a !! c = Some ch →
  bool_decide (is_Some (a_q ch)) && transfer_code (MHI_TRE_GET_EV_CODE ev) = false →
  vruns (parse_xfer_event ev c) s (λ _ s', rel refs s' a).
Proof.
  intros Hrel Hc Hn. destruct (rel_chan _ _ _ _ _ Hrel Hc) as (v & Hv & Hok).
  pose proof Hrel as [Epm Hst _ _ _ _ _ _].
  apply vruns_bind. eapply vruns_chan_at; [done|]. cbv zeta.
  destruct (negb (ch_state v =? MHI_CH_STATE_ENABLED)) eqn:Est; [by apply vruns_ret|].
  apply negb_false_iff, Z.eqb_eq in Est.
  destruct (a_q ch) as [q|] eqn:Hq; [|by destruct Hok as [_ _ _ _ H]; rewrite Hq in H].
  rewrite bool_decide_true, andb_true_l in Hn by done. unfold transfer_code in Hn. rewrite Hn.
  destruct ((_ =? MHI_EV_CC_OOB) || _); [|by apply vruns_ret].
  apply vruns_bind. eapply vruns_upd_chan; [done|]. apply vruns_get. intros m Em.
  assert (Epm' : pm_state m = a_pm a) by (rewrite <- Epm; by apply (f_equal s_pm) in Em).
  rewrite Epm'. set (v1 := set_chan_db _ _).
  assert (Hok1 : chan_ok (a_pm a) ch v1) by (by apply ok_db_mode).
  destruct (_ && _) eqn:E; [|apply vruns_ret; by eapply rel_same].
  eapply vruns_ring_chan_db; [by eapply on_chan_lookup|]. intros d. cbv zeta. rewrite on_chan_twice.
  eapply rel_same; [done..|]. eapply (ok_rung_same _ _ v1); [done..|right; by exists d|]. by intros _ _.
Qed.

(** ** One operation *)

Lemma op_refines refs s a o r a' : rel refs s a → abs_op o a = Done (r, a') →
  vruns (conc_op o) s (λ r' s', r' = r ∧ rel refs s' a').
Proof.
  intros Hrel Habs.
  assert (Hpm : ∀ t prog, goes_to t prog → (abs_pm t;; mret 0) a = Done (r, a') →
    vruns (prog;; mret 0) s (λ r' s', r' = r ∧ rel refs s' a')).
  { intros t prog Hg H. apply stm_bind_inv in H as ([] & a1 & H1 & [= <- <-]). apply vruns_bind.
    eapply vruns_mono; [by apply Hg|]. intros [] s1 (a2 & H2 & Hrel2). apply vruns_ret.
    split; [done|]. congruence. }
  destruct o; cbn [abs_op conc_op] in *; cbv zeta in *.
  - by eapply queue_buf_refines.
  - by eapply queue_skb_refines.
  - by eapply queue_dma_refines.
  - apply stm_bind_inv in Habs as ([] & a1 & H1 & [= <- <-]). apply vruns_bind.
    apply vruns_mono with (Φ := λ _ s', rel refs s' a1); [|intros [] s' H; by apply vruns_ret].
    apply stm_bind_inv in H1 as (st & a2 & H2 & H1). unfold a_started in H2.
    destruct (a_chans a !! c) as [ch|] eqn:Hc; [|done]. injection H2 as <- <-.
    destruct (_ && _) eqn:E; [|injection H1 as <-; by eapply other_event_refines].
    apply andb_true_iff in E as [_ E]. by eapply event_refines.
  - apply stm_bind_inv in Habs as ([] & a1 & H1 & [= <- <-]). apply vruns_bind.
    eapply vruns_mono; [by eapply reset_refines|]. intros [] s' H. by apply vruns_ret.
  - by apply (Hpm MHI_PM_M0); [apply goes_m0|].
  - by apply (Hpm MHI_PM_M2); [apply goes_m1|].
  - by apply (Hpm MHI_PM_M3); [apply goes_m3|].
  - by apply (Hpm MHI_PM_SYS_ERR_DETECT); [apply goes_sys_err|].
  - by apply (Hpm MHI_PM_LD_ERR_FATAL_DETECT); [apply goes_linkdown|].
Qed.

(** ** Sequences of operations *)

Lemma run_all_refines refs ops : ∀ s a rs a', rel refs s a → run_all abs_op ops a = Done (rs, a') →
  vruns (run_all conc_op ops) s (λ rs' s', rs' = rs ∧ rel refs s' a').
Proof.
  induction ops as [|o ops IH]; intros s a rs a' Hrel Habs.
  - injection Habs as <- <-. by apply vruns_ret.
  - apply stm_bind_inv in Habs as (r & a1 & H1 & Habs).
    apply stm_bind_inv in Habs as (rs1 & a2 & H2 & [= <- <-]).
    apply vruns_bind. eapply vruns_mono; [by eapply op_refines|]. intros r' s1 [-> Hrel1].
    apply vruns_bind. eapply vruns_mono; [by eapply IH|]. intros rs' s2 [-> Hrel2].
    by apply vruns_ret.
Qed.

(** What the relation says of one channel: the buffers in the ring, from the
    read pointer on, the free descriptors, and the index that the device sees. *)
Definition channel_holds (pm : Z) (ch : achan) (v : mhi_chan) : Prop := ∀ q, a_q ch = Some q →
  ch_state v = MHI_CH_STATE_ENABLED
  ∧ get_nr_avail_ring_elements (tre_ring v) = a_cap ch - Z.of_nat (length q)
  ∧ (∀ k it, q !! k = Some it → ∃ b t,
      let i := Z.to_nat ((a_done ch + Z.of_nat k) mod (a_cap ch + 1)) in
      mem (buf_ring v) !! i = Some b ∧ mem (tre_ring v) !! i = Some t ∧ item_of b = it
      ∧ ptr t = it_addr it ∧ dword0 t = MHI_TRE_DATA_DWORD0 (it_len it))
  ∧ (pm = MHI_PM_M0 → q ≠ [] →
      ctxt_wp (tre_ring v) = mhi_to_physical (tre_ring v) (wp (tre_ring v))).

Lemma chan_ok_holds pm ch v : chan_ok pm ch v → channel_holds pm ch v.
Proof.
  intros Hok q Hq. destruct (ok_rings _ _ _ _ Hok Hq) as (ts & bs & Ht & Hb & HF & ->).
  destruct Hok as [_ _ _ _ Hs]. rewrite Hq in Hs. destruct Hs as (? & Han & _ & _).
  pose proof (Forall2_length _ _ _ HF) as EL.
  split_and!; [done| | |].
  - rewrite (holds_avail _ _ _ _ _ Ht), length_fmap, EL. lia.
  - intros k it Hk. apply list_lookup_fmap_Some in Hk as (b & -> & Hk).
    destruct (Forall2_lookup_r _ _ _ _ _ HF Hk) as (t & Htk & Hd).
    exists b, t. split_and!; [by apply Hb|by apply Ht|done|apply Hd..].
  - intros Hpm Hne. apply Han; [done|]. pose proof (holds_empty _ _ _ _ _ Ht) as He.
    apply Z.eqb_neq. rewrite He. apply bool_decide_false. intros ->. by destruct bs.
Qed.

(** ** The contract

    What the callers and the device owe: clients queue to channels that are started,
    with the call for their kind of buffers; a channel that is filled in advance has
    buffers of the driver; a transfer event points to the descriptor of a buffer that
    is queued; and only started channels are emptied. *)
Definition is_started (a : astate) (c : nat) (ch : achan) (q : list item) : Prop :=
  a_chans a !! c = Some ch ∧ a_q ch = Some q.

Definition event_ok (a : astate) (c : nat) (ev : mhi_tre) : Prop :=
  ∃ ch, a_chans a !! c = Some ch ∧
  ∀ q, a_q ch = Some q → transfer_code (MHI_TRE_GET_EV_CODE ev) = true →
    (a_pre ch = true → a_dma ch = false) ∧
    ∃ k, event_index ch (MHI_TRE_GET_EV_PTR ev) = Some k ∧ (k < length q)%nat.

Definition legal_op (a : astate) (o : chan_op) : Prop :=
  match o with
  | CQueue_buf c _ _ _ | CQueue_skb c _ _ _ => ∃ ch q, is_started a c ch q ∧ a_dma ch = false
  | CQueue_dma c _ _ _ => ∃ ch q, is_started a c ch q ∧ a_dma ch = true
  | CEvent c ev => event_ok a c ev
  | CReset c => ∃ ch q, is_started a c ch q
  | _ => True
  end.

Fixpoint legal (ops : list chan_op) (a : astate) : Prop :=
  match ops with
  | [] => True
  | o :: ops => legal_op a o ∧ ∀ r a', abs_op o a = Done (r, a') → legal ops a'
  end.

(** Under the contract the specification has an answer. *)
Lemma a_chan_runs c a ch q (Φ : achan * list item → astate → Prop) :
  is_started a c ch q → Φ (ch, q) a → runs (a_chan c) a Φ.
Proof. intros [E Eq] HΦ. eapply runs_exact; [|exact HΦ]. unfold a_chan. by rewrite E, Eq. Qed.

Lemma a_pop_runs c n q a ch (Φ : () → astate → Prop) :
  a_chans a !! c = Some ch →
  Φ () (AState (a_pm a) (a_maps a) (<[c := add_done n (set_q q ch)]> (a_chans a)) (a_out a)) →
  runs (a_pop c n q) a Φ.
Proof. intros E HΦ. eapply runs_exact; [|exact HΦ]. unfold a_pop. by rewrite E. Qed.

Lemma a_set_runs c q a ch (Φ : () → astate → Prop) :
  a_chans a !! c = Some ch →
  Φ () (AState (a_pm a) (a_maps a) (<[c := set_q q ch]> (a_chans a)) (a_out a)) → runs (a_set c q) a Φ.
Proof. intros E HΦ. eapply runs_exact; [|exact HΦ]. unfold a_set. by rewrite E. Qed.

(** Queueing appends at most one buffer, and leaves the kind of the channel. *)
Definition kept_queue (c : nat) (ch : achan) (n : nat) (a : astate) : Prop :=
  ∃ ch' q', is_started a c ch' q' ∧ a_dma ch' = a_dma ch ∧ a_pre ch' = a_pre ch ∧ (n ≤ length q')%nat.

Lemma kept_insert c ch q' a n pm maps out :
  (c < length (a_chans a))%nat → (n ≤ length q')%nat →
  kept_queue c ch n (AState pm maps (<[c := set_q q' ch]> (a_chans a)) out).
Proof.
  intros Hc Hn. exists (set_q q' ch), q'. split; [|done]. split; [|done].
  simpl. by apply list_lookup_insert_eq.
Qed.

Lemma queue_buf_answers c buf len a ch q :
  is_started a c ch q → a_dma ch = false →
  runs (abs_queue_buf c buf len) a (λ _ a', kept_queue c ch (length q) a').
Proof.
  intros Hs Hd. pose proof Hs as [E _]. pose proof (lookup_lt_Some _ _ _ E).
  assert (kept_queue c ch (length q) a) as Hk by (by exists ch, q).
  apply runs_bind, runs_get. destruct (MHI_PM_IN_ERROR_STATE _); [by apply runs_ret|].
  apply runs_bind. eapply a_chan_runs; [done|]. cbv beta iota. rewrite Hd.
  destruct (a_full ch q); [by apply runs_ret|].
  apply runs_bind. unfold a_map. destruct (a_maps a) as [|p l] eqn:Em.
  - eapply runs_exact; [by rewrite Em|]. by apply runs_ret.
  - eapply runs_exact; [by rewrite Em|]. destruct p as [p|]; [|apply runs_ret; by exists ch, q].
    apply runs_bind. eapply a_set_runs; [done|]. apply runs_ret. simpl.
    apply kept_insert; [done|]. rewrite length_app. simpl. lia.
Qed.

(** One buffer goes back: the others stay. *)
Lemma complete_answers c status len a ch n :
  kept_queue c ch (S n) a → (a_pre ch = true → a_dma ch = false) →
  runs (abs_complete c status len) a (λ _ a', kept_queue c ch n a').
Proof.
  intros (ch' & q & [E Eq] & Ed & Ep & Hn) Hpre. pose proof (lookup_lt_Some _ _ _ E).
  destruct q as [|it q]; [simpl in Hn; lia|]. simpl in Hn.
  apply runs_bind. eapply a_chan_runs; [done|]. cbv beta iota.
  apply runs_bind, runs_modify. apply runs_bind. eapply a_pop_runs; [done|].
  apply runs_bind, runs_modify. cbn [a_pm a_maps a_chans a_out].
  set (ch1 := add_done 1 (set_q q ch')). set (a1 := AState _ _ _ _).
  assert (is_started a1 c ch1 q) as Hs1 by (split; [simpl; by apply list_lookup_insert_eq|done]).
  assert (∀ a', kept_queue c ch1 (length q) a' → kept_queue c ch n a') as Hback.
  { intros a' (ch2 & q2 & Hs2 & Hd2 & Hp2 & Hn2). exists ch2, q2. split; [done|].
    split; [rewrite Hd2; exact Ed|]. split; [rewrite Hp2; exact Ep|]. lia. }
  assert (kept_queue c ch n a1) as Hk1 by (apply Hback; by exists ch1, q).
  destruct (a_pre ch') eqn:Epre; [|by apply runs_ret].
  assert (a_dma ch1 = false) as Hd1.
  { change (a_dma ch' = false). rewrite Ed. by apply Hpre. }
  apply runs_bind. eapply runs_mono; [by eapply queue_buf_answers|]. intros r a2 Hk2%Hback.
  destruct (negb _); [|by apply runs_ret]. apply runs_modify.
  destruct Hk2 as (ch2 & q2 & [E2 Eq2] & Hr2). by exists ch2, q2.
Qed.

Lemma completes_answer c status len ch : (a_pre ch = true → a_dma ch = false) → ∀ n l a,
  length l = n → kept_queue c ch n a →
  runs (for_each l (λ _ : nat, abs_complete c status len)) a (λ _ _, True).
Proof.
  intros Hpre n. induction n as [|n IH]; intros [|x l] a Hl Hk; try done; [by apply runs_ret|].
  cbn [for_each]. apply runs_bind. eapply runs_mono; [by eapply complete_answers|].
  intros [] a' Hk'. apply IH; [by injection Hl|done].
Qed.

Lemma returns_answer c : ∀ q l a ch, length l = length q → is_started a c ch q →
  runs (for_each l (λ _ : item, abs_return_one c)) a (λ _ _, True).
Proof.
  induction q as [|it q IH]; intros [|x l] a ch Hl Hs; try done; [by apply runs_ret|].
  cbn [for_each]. pose proof Hs as [E Eq]. pose proof (lookup_lt_Some _ _ _ E).
  apply runs_bind. apply runs_bind. eapply a_chan_runs; [done|]. cbv beta iota.
  apply runs_bind, runs_modify. eapply a_pop_runs; [done|].
  eapply IH; [by injection Hl|]. split; [simpl; by apply list_lookup_insert_eq|done].
Qed.

Lemma legal_answers a o : legal_op a o → runs (abs_op o) a (λ _ _, True).
Proof.
  destruct o as [c buf len f|c skb data len|c buf p len|c ev|c| | | | |]; cbn [abs_op]; intros Hl;
    try (by apply runs_bind, runs_modify, runs_ret).
  - destruct Hl as (ch & q & Hs & Hd). eapply runs_mono; [by eapply queue_buf_answers|done].
  - destruct Hl as (ch & q & Hs & Hd). unfold abs_queue_skb. apply runs_bind.
    eapply a_chan_runs; [done|]. cbv beta iota. rewrite Hd. destruct (a_full ch q); [by apply runs_ret|].
    apply runs_bind, runs_get. destruct (MHI_PM_IN_ERROR_STATE _); [by apply runs_ret|].
    apply runs_bind. unfold a_map. destruct (a_maps a) as [|p l] eqn:Em;
      (eapply runs_exact; [by rewrite Em|]); [by apply runs_ret|]. destruct p as [p|]; [|by apply runs_ret].
    apply runs_bind. eapply a_set_runs; [apply Hs|]. by apply runs_ret.
  - destruct Hl as (ch & q & Hs & Hd). unfold abs_queue_dma. apply runs_bind.
    eapply a_chan_runs; [done|]. cbv beta iota. rewrite Hd. simpl negb. cbv iota.
    destruct (a_full ch q); [by apply runs_ret|].
    apply runs_bind, runs_get. destruct (MHI_PM_IN_ERROR_STATE _); [by apply runs_ret|].
    apply runs_bind. eapply a_set_runs; [apply Hs|]. by apply runs_ret.
  - destruct Hl as (ch & Hc & Hev). apply runs_bind. unfold abs_event. apply runs_bind.
    eapply runs_exact; [unfold a_started; by rewrite Hc|]. destruct (a_q ch) as [q|] eqn:Eq.
    + rewrite bool_decide_true by done. cbn [andb]. destruct (transfer_code _) eqn:Et; [|by do 2 apply runs_ret].
      destruct (Hev q eq_refl eq_refl) as (Hpre & k & Ek & Hk). unfold abs_transfer. apply runs_bind.
      eapply a_chan_runs; [done|]. cbv beta iota zeta. rewrite Ek.
      destruct (decide _); [|done]. eapply runs_mono.
      { eapply (completes_answer c _ _ ch Hpre (S k)); [by rewrite length_seq|]. exists ch, q. split; [done|].
        split; [done|]. split; [done|]. lia. }
      intros _ a' _. by apply runs_ret.
    + rewrite bool_decide_false by (by intros [? ?]). by do 2 apply runs_ret.
  - destruct Hl as (ch & q & Hs). apply runs_bind. unfold abs_reset. apply runs_bind.
    eapply a_chan_runs; [done|]. cbv beta iota. eapply runs_mono; [by eapply (returns_answer c q q)|].
    intros _ a' _. by apply runs_ret.
Qed.

Lemma legal_run ops : ∀ a, legal ops a → runs (run_all abs_op ops) a (λ _ _, True).
Proof.
  induction ops as [|o ops IH]; intros a Hl; [by apply runs_ret|]. destruct Hl as [Ho Hl]. cbn [run_all].
  destruct (legal_answers a o Ho) as (r & a1 & E & _). apply runs_bind. eapply runs_exact; [exact E|].
  apply runs_bind. eapply runs_mono; [apply IH; by eapply Hl|]. intros rs a2 _. by apply runs_ret.
Qed.

(** C16: the channels are bounded queues.  For clients, device and power management
    that keep the contract ([legal]: clients use started channels with the call for
    their kind of buffers, transfer events point to descriptors of queued buffers, and
    only started channels are emptied), in any order of buffers queued, transfer
    events, channels emptied, M0, M1, M3, errors of the device and a lost link, one
    after the other: the specification has an answer; the driver stays in its arrays and comes to an end;
    every call returns what the bounded queue returns; the clients see the same
    callbacks, in the same order; the descriptors in the shared ring are those of the
    queued buffers; the free descriptors are counted right; in M0 the device has been
    told about every buffer; and a runtime reference is held exactly while an uplink
    buffer is on its way. *)
Theorem channels_refine_queues refs m a ops :
  rel refs (view_of m) a → legal ops a →
  ∃ rs a', run_all abs_op ops a = Done (rs, a') ∧
  runs (run_all conc_op ops) m (λ rs' m', rs' = rs
    ∧ rel refs (view_of m') a'
    ∧ omap to_aout (trace m') = a_out a'
    ∧ pm_state m' = a_pm a'
    ∧ Forall2 (channel_holds (a_pm a')) (a_chans a') (chans m')
    ∧ pending_pkts m' = waiting (a_chans a')
    ∧ references (trace m') = refs + held (waiting (a_chans a'))).
Proof.
  intros Hrel Hlegal. destruct (legal_run ops a Hlegal) as (rs & a' & Habs & _). exists rs, a'. split; [done|].
  eapply runs_mono; [by eapply (run_all_refines refs ops (view_of m))|].
  intros rs' m' [-> Hrel']. pose proof Hrel' as [E1 _ _ HF E4 E5 E6 _].
  split_and!; try done. eapply Forall2_impl; [exact HF|]. apply chan_ok_holds.
Qed.

(** ** The example *)

Lemma holds_start {A} n es (r : mhi_ring A) : layout n es r → rp r = base r → wp r = base r →
  ring_holds n es 0 r [].
Proof.
  intros HL Hr Hw. pose proof HL as []. split; try done; try (unfold place; simpl; lia).
  - rewrite Hr. unfold place. rewrite Zmod_0_l. lia.
  - rewrite Hw. unfold place. simpl. rewrite Zmod_0_l. lia.
Qed.

Lemma ex_holds {A} addr dev es (x : A) : 0 < es < 100 → 0 < addr < 2 ^ 31 →
  ring_holds 4 es 0 (ex_ring addr dev es x) [].
Proof. intros ??. apply holds_start; [|done..]. split; simpl; try done; lia. Qed.

Definition ex_achan (id : Z) (up pre : bool) (q : option (list item)) : achan :=
  AChan id up pre false 3 0x1000 0x80000 0 q.

Lemma ex_chan_ok pm id up pre : chan_ok pm (ex_achan id up pre (Some [])) (ex_chan id up pre MHI_CH_STATE_ENABLED).
Proof.
  split; try done. cbn [a_q ex_achan]. split_and!; try done. split; [|intros _; simpl; by repeat constructor].
  exists [], []. split_and!; try done; by apply ex_holds.
Qed.

Definition ex_astate : astate :=
  AState MHI_PM_M0 [Some 0x500; Some 0x600; Some 0x700; Some 0x800]
    [ex_achan 0 true false (Some []); ex_achan 1 false false (Some [])] [].
Definition ex_state : mhi_controller := ex_mhi MHI_PM_M0 MHI_STATE_M0
  [ex_chan 0 true false MHI_CH_STATE_ENABLED; ex_chan 1 false false MHI_CH_STATE_ENABLED].

Lemma ex_rel : rel 0 (view_of ex_state) ex_astate.
Proof.
  split; try done; [by repeat constructor|]. repeat (constructor; [apply ex_chan_ok|]). constructor.
Qed.

(** Three buffers fit; the event for the second completes two; after the link is
    lost nothing is queued, and the last buffer comes back with an error. *)
Definition ex_ops : list chan_op :=
  [CQueue_skb 0 0x41 0x51 10; CQueue_skb 0 0x42 0x52 20; CM1; CQueue_skb 0 0x43 0x53 30; CM0;
   CQueue_skb 0 0x44 0x54 40; CEvent 0 (ex_transfer 0x80010 20); CLinkdown; CQueue_skb 0 0x45 0x55 50;
   CReset 0].

(** These calls keep the contract. *)
Ltac legal_step :=
  split; [first [exact I
    | eexists _, _; split; [split; reflexivity|reflexivity]
    | eexists _, _; split; reflexivity
    | eexists; split; [reflexivity|]; intros q [= <-] _; split; [discriminate|];
      eexists; split; [vm_compute; reflexivity|simpl; lia]]
  | intros r a' E; vm_compute in E; injection E as <- <-].

Lemma ex_legal : legal ex_ops ex_astate.
Proof. repeat legal_step. exact I. Qed.

Lemma channels_refine_queues_witness :
  runs (run_all conc_op ex_ops) ex_state (λ rs m',
    rs = [0; 0; 0; 0; 0; - ENOMEM; 0; 0; - EIO; 0]
    ∧ omap to_aout (trace m') =
      [ACb 0 (MhiResult 0x43 true 0 (- ENOTCONN)); AUnmap 0x700 30;
       ACb 0 (MhiResult 0x42 true 20 0); AUnmap 0x600 20;
       ACb 0 (MhiResult 0x41 true 20 0); AUnmap 0x500 10]
    ∧ pending_pkts m' = 0 ∧ references (trace m') = 0).
Proof.
  destruct (channels_refine_queues 0 ex_state ex_astate ex_ops ex_rel ex_legal) as (rs & a' & E & Hrun).
  eapply runs_mono; [exact Hrun|].
  intros rs' m' (-> & _ & Ho & _ & _ & Hp & Hr). vm_compute in E. injection E as <- <-.
  vm_compute in Ho, Hp, Hr. done.
Defined.
