(* ===== verification/MhiStart.v ===== *)
(** * The Modem Host Interface: the start of a channel

    [__mhi_prepare_channel] makes of a stopped channel one that keeps the
    contract of [MhiSpec]: empty, or filled with buffers of the driver. *)

From S2P Require Import Prelude Kernel Mhi MhiPm MhiXfer MhiExample MhiPmProps MhiRing MhiSpec MhiQueues MhiRefine.

#[local] Open Scope Z_scope.
#[local] Open Scope c_scope.

(** ** The rings of a new channel *)

(** What the controller's setup leaves in a channel: both rings have [n]
    elements, and the memory for them lies in the address space. *)
Record new_channel (n : Z) (place : Z * Z) (b : Z) (v : mhi_chan) : Prop := {
  new_n : 2 ≤ n;
  new_size : SIZEOF_BUF_INFO * n < 2 ^ 31;
  new_tre : elements (tre_ring v) = n;
  new_buf : elements (buf_ring v) = n;
  new_mem : Z.of_nat (length (mem (tre_ring v))) = n;
  new_place : 0 < fst place ∧ fst place + SIZEOF_TRE * n < 2 ^ 63;
  new_kzalloc : 0 < b ∧ b + SIZEOF_BUF_INFO * n < 2 ^ 63;
}.

Definition with_chan (c : nat) (v : mhi_chan) (m : mhi_controller) : mhi_controller :=
  set_chans (<[c := v]> (chans m)) m.

Lemma with_chan_lookup c v v' m : chans m !! c = Some v → chans (with_chan c v' m) !! c = Some v'.
Proof. intros H. apply list_lookup_insert_eq. by eapply lookup_lt_Some. Qed.
Lemma with_chan_twice c v v' m : with_chan c v (with_chan c v' m) = with_chan c v m.
Proof. unfold with_chan, set_chans. simpl. by rewrite list_insert_insert_eq. Qed.

Lemma runs_upd_chan c f v m (Φ : () → mhi_controller → Prop) : chans m !! c = Some v →
  Φ () (with_chan c (f v) m) → runs (upd_chan c f) m Φ.
Proof.
  intros Hv H. eapply runs_exact; [|done]. unfold upd_chan, chan_at, modify, mbind, stm_bind.
  by rewrite Hv.
Qed.

(** The channel with the two rings in place. *)
Definition started (place : Z * Z) (b : Z) (v : mhi_chan) : mhi_chan :=
  let t := tre_ring v in
  let r := buf_ring v in
  set_chan_db (set_db_mode true (chan_db v))
   (set_buf (MhiRing (iommu_base r) (ctxt_wp r) b b b SIZEOF_BUF_INFO (u64 (SIZEOF_BUF_INFO * elements r))
      (elements r) (db_addr r) (replicate (Z.to_nat (elements r)) zero_buf_info))
   (set_tre (MhiRing (snd place) (snd place) (fst place) (fst place) (fst place) SIZEOF_TRE
      (u64 (SIZEOF_TRE * elements t)) (elements t) (db_addr t) (mem t)) v)).

Lemma init_chan_ctxt_run c place b v m : chans m !! c = Some v →
  mhi_init_chan_ctxt c place (Some b) m = Done (0, with_chan c (started place b v) m).
Proof.
  intros Hv.
  assert (H : runs (mhi_init_chan_ctxt c place (Some b)) m
    (λ r m', r = 0 ∧ m' = with_chan c (started place b v) m)).
  { unfold mhi_init_chan_ctxt.
    apply runs_bind. eapply runs_upd_chan; [done|]. cbv zeta. cbn [default id].
    apply runs_bind. eapply runs_upd_chan; [by eapply with_chan_lookup|].
    cbn [negb bool_decide]. rewrite bool_decide_true by done. simpl negb.
    rewrite with_chan_twice.
    do 4 (apply runs_bind; eapply runs_upd_chan; [by eapply with_chan_lookup|]; rewrite with_chan_twice).
    by apply runs_ret. }
  destruct H as (r & m' & E & -> & ->). done.
Qed.

(** The same, once the device has answered. *)
Definition enabled (place : Z * Z) (b : Z) (v : mhi_chan) : mhi_chan :=
  set_ch_state MHI_CH_STATE_ENABLED (set_ccs MHI_EV_CC_SUCCESS (started place b v)).

Lemma enabled_queue n place b v dma : new_channel n place b v →
  queue_at n 0 dma (enabled place b v) [].
Proof.
  intros []. unfold SIZEOF_BUF_INFO, SIZEOF_TRE in *.
  split; [|intros _; simpl; by apply Forall_replicate].
  exists [], []. simpl. split_and!; [..|constructor|done].
  - apply holds_start; [|done..]. split; simpl; unfold SIZEOF_TRE; try done; try lia.
    unfold u64. rewrite Z.mod_small; lia.
  - apply holds_start; [|done..]. split; simpl; unfold SIZEOF_BUF_INFO; try done; try lia.
    + unfold u64. rewrite Z.mod_small; lia.
    + rewrite length_replicate. lia.
Qed.

(** ** Buffers in advance *)

(** Other rings, at the same place. *)
Definition refilled (v v' : mhi_chan) : Prop :=
  ∃ rt rb, v' = set_buf rb (set_tre rt v) ∧ same_place rt (tre_ring v).

Lemma refilled_trans v v' v'' : refilled v v' → refilled v' v'' → refilled v v''.
Proof.
  intros (rt & rb & -> & E1 & E2) (rt' & rb' & -> & F1 & F2). exists rt', rb'.
  split; [done|]. split; etransitivity; done.
Qed.

Definition advance_items (l : Z) (bs ps : list Z) : list item :=
  zip_with (λ b p, Item b l p false) bs ps.

Lemma vruns_pre_alloc c n i l bs : ∀ ps v q s d, s_chans s !! c = Some v → queue_at n i false v q →
  s_dma s = (Some <$> ps) ++ d → length ps = length bs →
  Z.of_nat (length q) + Z.of_nat (length bs) ≤ n - 1 →
  vruns (pre_alloc_loop (Some <$> bs) (length bs) c l) s (λ r s', r = 0 ∧ ∃ v',
    s' = on_chan c v' (on_dma d s) ∧ queue_at n i false v' (q ++ advance_items l bs ps) ∧ refilled v v').
Proof.
  induction bs as [|b bs IH]; intros [|p ps] v q s d Hv HQ Hd El Hn; try done.
  - apply vruns_ret. split; [done|]. exists v. rewrite app_nil_r. split_and!; [|done|].
    + simpl in Hd. subst d. unfold on_chan, on_dma. destruct s. simpl in *. by rewrite list_insert_id.
    + exists (tre_ring v), (buf_ring v). by destruct v.
  - cbn [fmap list_fmap length pre_alloc_loop] in *. apply vruns_bind.
    eapply (vruns_gen_tre n i); [done..|lia| |].
    + intros v1 p1 d1 Ed [HQ1 Hv1]. rewrite Hd in Ed. injection Ed as <- <-. simpl.
      eapply vruns_mono; [eapply (IH ps v1); [by eapply (on_chan_lookup c v v1 (on_dma _ s))|done| |lia|]|].
      * done.
      * rewrite length_app. simpl. lia.
      * intros r s' [-> (v' & -> & HQ' & Hv')]. split; [done|]. exists v'. split_and!.
        -- unfold on_chan, on_dma. simpl. by rewrite list_insert_insert_eq.
        -- rewrite <- app_assoc in HQ'. done.
        -- by eapply refilled_trans.
    + intros v1 rb Hno. exfalso. by apply (Hno p ((Some <$> ps) ++ d)).
Qed.

(** ** The start command *)

(** A change of registers, and of what the command ring holds. *)
Lemma runs_wake_get b m : runs (wake_get b) m (λ _ m', ∃ t, m' = set_trace t m ∧ view_of m' = view_of m).
Proof.
  apply runs_bind, runs_get. destruct (dev_state m =? _); [|apply runs_ret; exists (trace m); by destruct m].
  unfold mhi_write_db, mhi_write_reg.
  repeat (apply runs_bind; try apply runs_get; try apply runs_modify). by eexists.
Qed.

Lemma send_cmd_runs chan x m n i cmds : ring_holds n SIZEOF_TRE i (cmd m) cmds →
  Z.of_nat (length cmds) < n - 1 →
  runs (mhi_send_cmd chan x) m (λ r m', r = 0 ∧ view_of m' = view_of m ∧ buffer_len m' = buffer_len m
    ∧ ∃ ring y, store (cmd m) (wp (cmd m)) (cmd_tre x chan) = Done ring
        ∧ cmd m' = set_ctxt_wp y (mhi_add_ring_element ring)).
Proof.
  intros Hc Hn. apply runs_bind, runs_get. rewrite (holds_avail _ _ _ _ _ Hc).
  rewrite (proj2 (Z.eqb_neq _ _)) by lia.
  destruct (holds_store _ _ _ _ _ (cmd_tre x chan) Hc) as (k & E & _ & _).
  apply runs_bind. eapply runs_lift; [exact E|]. apply runs_bind, runs_modify, runs_bind, runs_get.
  set (ring := set_mem _ _) in *. apply runs_bind. destruct (MHI_DB_ACCESS_VALID _).
  - apply runs_bind, runs_get. apply runs_bind, runs_modify. unfold mhi_write_db, mhi_write_reg.
    repeat (apply runs_bind; try apply runs_get; try apply runs_modify). apply runs_ret.
    split_and!; try done. exists ring. by eexists.
  - do 2 apply runs_ret. split_and!; try done. by exists ring, (ctxt_wp ring).
Qed.

(** While the driver waits, the device completes the command. *)
Definition completes (c : nat) (cmd0 : mhi_ring mhi_tre) (tre : mhi_tre) (await : mhi Z) : Prop :=
  ∀ m v ring y, store cmd0 (wp cmd0) tre = Done ring →
    cmd m = set_ctxt_wp y (mhi_add_ring_element ring) → chans m !! c = Some v →
    runs await m (λ r m', r ≠ 0 ∧ buffer_len m' = buffer_len m
      ∧ view_of m' = on_chan c (set_ccs MHI_EV_CC_SUCCESS v) (view_of m)).

(** The channel of the specification, started. *)
Definition start_chan (place : Z * Z) (q : list item) (ch : achan) : achan :=
  AChan (a_id ch) (a_up ch) (a_pre ch) (a_dma ch) (a_cap ch) (fst place) (snd place) 0 (Some q).

(** A channel that differs from [v] in its rings, its doorbell and its state. *)
Definition opened (place : Z * Z) (v v' : mhi_chan) : Prop :=
  base (tre_ring v') = fst place ∧ iommu_base (tre_ring v') = snd place ∧ chan v' = chan v
  ∧ to_device v' = to_device v ∧ pre_alloc v' = pre_alloc v ∧ rsc_dma v' = rsc_dma v
  ∧ ch_state v' = MHI_CH_STATE_ENABLED.

Lemma opened_enabled place b v : opened place v (enabled place b v).
Proof. done. Qed.
Lemma opened_refilled place v v' v'' : opened place v v' → refilled v' v'' → opened place v v''.
Proof.
  intros (?&?&?&?&?&?&?) (rt & rb & -> & E1 & E2). unfold opened. simpl. split_and!; congruence.
Qed.
Lemma opened_rung place v v' v'' : opened place v v' → rung v' v'' → opened place v v''.
Proof.
  intros (?&?&?&?&?&?&?) ([? ?]&?&?&?&?&?)%rung_fields. unfold opened. split_and!; congruence.
Qed.

Lemma start_rel refs s a c ch v v' place q d : rel refs s a → a_chans a !! c = Some ch → a_q ch = None →
  (a_up ch = true → q = []) → chan_ok (a_pm a) ch v → opened place v v' →
  queue_at (a_cap ch + 1) 0 (a_dma ch) v' q → announced (a_pm a) v' →
  rel refs (on_chan c v' (on_dma d s))
    (AState (a_pm a) d (<[c := start_chan place q ch]> (a_chans a)) (a_out a)).
Proof.
  intros Hrel Hc Hq Hup [E1 E2 E3 E4 _] (?&?&?&?&?&?&?) HQ Ha.
  pose proof (rel_update refs s a c ch (start_chan place q ch) v' [] d 0 Hrel Hc) as H'.
  rewrite counted_0 in H'. apply H'; [|done|].
  - split; simpl; try congruence. done.
  - unfold weight. simpl. rewrite Hq. destruct (a_up ch); [|done]. by rewrite Hup.
Qed.

Lemma empty_announced n i dma pm v : queue_at n i dma v [] → announced pm v.
Proof.
  intros [(ts & bs & Ht & _ & HF & Hbs) _] _ Hne. destruct bs; [|done].
  apply Forall2_nil_inv_r in HF as ->. pose proof (holds_empty _ _ _ _ _ Ht) as He.
  rewrite bool_decide_true in He by done. apply Z.eqb_eq in He. done.
Qed.

(** The last part of [__mhi_prepare_channel]: the buffers of the driver. *)
Lemma advance_rel refs s a c ch v vE place bs ps d l : rel refs s a → a_chans a !! c = Some ch →
  a_q ch = None → chan_ok (a_pm a) ch v → opened place v vE → s_chans s !! c = Some v →
  queue_at (a_cap ch + 1) 0 (a_dma ch) vE [] →
  (a_pre ch = true → a_up ch = false ∧ a_dma ch = false) →
  length ps = length bs → Z.of_nat (length bs) = (if a_pre ch then a_cap ch else 0) →
  s_dma s = (Some <$> ps) ++ d →
  vruns (if pre_alloc vE then
      ret ← pre_alloc_loop (Some <$> bs) (Z.to_nat (get_nr_avail_ring_elements (tre_ring vE))) c l;
      (if ret =? 0 then ring_if_m0 c else mret ());; mret ret
    else mret 0) (on_chan c vE s)
    (λ r s', r = 0 ∧ rel refs s' (AState (a_pm a) d
      (<[c := start_chan place (advance_items l bs ps) ch]> (a_chans a)) (a_out a))).
Proof.
  intros Hrel Hc Hq Hok Hop Hv HQ Hpre El Hn Hd. pose proof (ok_pre _ _ _ Hok) as Ep.
  pose proof Hop as (_ & _ & _ & _ & Ep' & _).
  replace (pre_alloc vE) with (a_pre ch) by congruence. destruct (a_pre ch).
  - destruct (Hpre eq_refl) as [Hup Hdma]. rewrite Hdma in HQ. pose proof HQ as [(ts & b' & Ht & _ & HF & Hb') _].
    destruct b'; [|done]. apply Forall2_nil_inv_r in HF as ->. rewrite (holds_avail _ _ _ _ _ Ht).
    replace (Z.to_nat _) with (length bs) by (simpl; lia).
    apply vruns_bind. eapply vruns_mono.
    { eapply (vruns_pre_alloc c _ 0 l bs ps vE []); [by eapply on_chan_lookup|done..|simpl; lia]. }
    intros r s1 [-> (v1 & -> & HQ1 & Hr1)]. simpl. apply vruns_bind.
    pose proof Hrel as [Epm Hst _ _ _ _ _ _].
    eapply (vruns_ring_if_m0 c v1); [by eapply (on_chan_lookup c vE v1 (on_chan c vE (on_dma d s))),
      (on_chan_lookup c v vE (on_dma d s))| |].
    { simpl. by rewrite Epm. }
    intros v2 Hr2 Ha. apply vruns_ret. split; [done|].
    replace (on_chan c v2 _) with (on_chan c v2 (on_dma d s))
      by (unfold on_chan, on_dma; simpl; by rewrite !list_insert_insert_eq).
    eapply (start_rel refs s a c ch v); try done.
    + by rewrite Hup.
    + eapply opened_rung; [|done]. by eapply opened_refilled.
    + rewrite Hdma. by eapply queue_rung.
    + simpl in Ha. by rewrite Epm in Ha.
  - apply vruns_ret. split; [done|]. destruct bs; [|done]. destruct ps; [|done].
    simpl in Hd. subst d. replace (on_chan c vE s) with (on_chan c vE (on_dma (s_dma s) s))
      by (unfold on_chan, on_dma; done).
    eapply (start_rel refs s a c ch v); try done. by eapply empty_announced.
Qed.

(** C19: [__mhi_prepare_channel] starts a channel: when the execution environment
    is the channel's, memory is there and the device completes the command, the
    channel keeps the contract from then on, with an empty queue, or, when the
    driver fills it in advance, with one buffer of the driver for each
    descriptor, all but one; and the runtime reference taken for the command is
    given back. *)
Theorem prepare_channel_starts refs m a c ch v place b await bs ps d await' n i cmds :
  rel refs (view_of m) a → a_chans a !! c = Some ch → a_q ch = None →
  chans m !! c = Some v → new_channel (a_cap ch + 1) place b v →
  ch_state v = MHI_CH_STATE_DISABLED → offload_ch v = false →
  Z.shiftl 1 (ee m) &' ee_mask v ≠ 0 → MHI_PM_IN_ERROR_STATE (pm_state m) = false →
  ring_holds n SIZEOF_TRE i (cmd m) cmds → Z.of_nat (length cmds) < n - 1 →
  completes c (cmd m) (cmd_tre MHI_CMD_START_CHAN (chan v)) await →
  (a_pre ch = true → a_up ch = false ∧ a_dma ch = false) →
  length ps = length bs → Z.of_nat (length bs) = (if a_pre ch then a_cap ch else 0) →
  dma m = (Some <$> ps) ++ d →
  runs (mhi_prepare_channel c place (Some b) await (Some <$> bs) await') m (λ r m', r = 0
    ∧ rel refs (view_of m') (AState (a_pm a) d
        (<[c := start_chan place (advance_items (buffer_len m) bs ps) ch]> (a_chans a)) (a_out a))).
Proof.
  intros Hrel Hc Hq Hv Hnew Hst Hoff Hee Hpm Hcmd Hn Haw Hpre El Hbs Hd.
  destruct (rel_chan _ _ _ _ _ Hrel Hc) as (v0 & Hv0 & Hok). simpl in Hv0.
  assert (v0 = v) as -> by congruence. clear Hv0.
  apply runs_bind, runs_get. apply runs_bind. eapply runs_exact; [unfold chan_at; by rewrite Hv|].
  rewrite (proj2 (Z.eqb_neq _ _)) by done. rewrite Hst, Hoff. simpl negb. cbv iota.
  apply runs_bind. eapply runs_exact; [by apply init_chan_ctxt_run|]. simpl negb. cbv iota zeta.
  rewrite Hpm. set (v1 := started place b v). set (m1 := with_chan c v1 m).
  apply runs_bind. eapply runs_mono; [apply runs_wake_get|]. intros [] m2 (t & -> & E2).
  apply runs_bind, runs_modify. set (m3 := set_trace (_ :: _) _).
  assert (E3 : view_of m3 = on_refs 1 (on_chan c v1 (view_of m))).
  { transitivity (on_refs 1 (view_of (set_trace t m1))); [|by rewrite E2].
    unfold view_of, on_refs. subst m3. simpl. f_equal. lia. }
  apply runs_bind. eapply runs_mono; [by eapply (send_cmd_runs (chan v) MHI_CMD_START_CHAN m3)|].
  intros r m4 (-> & E4 & El4 & ring & y & Hring & Hcmd4). simpl negb. cbv iota.
  assert (Hv4 : chans m4 !! c = Some v1).
  { rewrite E3 in E4. apply (f_equal s_chans) in E4. simpl in E4. rewrite E4.
    apply list_lookup_insert_eq. by eapply lookup_lt_Some. }
  apply runs_bind. eapply runs_mono; [by apply (Haw m4 v1 ring y)|].
  intros r m5 (Hr & El5 & E5). set (v2 := set_ccs MHI_EV_CC_SUCCESS v1) in *.
  assert (Hv5 : chans m5 !! c = Some v2).
  { apply (f_equal s_chans) in E5. simpl in E5. rewrite E5.
    apply list_lookup_insert_eq. by eapply lookup_lt_Some. }
  apply runs_bind. eapply runs_exact; [unfold chan_at; by rewrite Hv5|].
  rewrite (proj2 (Z.eqb_neq r 0)) by done. cbn [orb v2 set_ccs ccs]. rewrite Z.eqb_refl. simpl negb. cbv iota.
  apply runs_bind, runs_modify. apply runs_bind. eapply runs_upd_chan; [exact Hv5|].
  set (m6 := with_chan _ _ _). apply runs_bind, runs_get.
  assert (E6 : view_of m6 = on_chan c (enabled place b v) (view_of m)).
  { transitivity (on_chan c (enabled place b v) (on_refs (-1) (view_of m5))).
    - unfold view_of, on_refs, on_chan. subst m6. simpl. f_equal. lia.
    - rewrite E5, E4, E3. unfold view_of, on_refs, on_chan. simpl. rewrite !list_insert_insert_eq.
      f_equal. lia. }
  apply runs_bind. eapply runs_mono.
  { eapply (advance_rel refs (view_of m) a c ch v (enabled place b v) place bs ps d (buffer_len m6));
      [done..| | |done|done|done|done|exact E6]; [done|].
    by eapply (enabled_queue _ place b v). }
  intros r' m7 [-> Hrel7]. apply runs_bind, runs_ret, runs_bind, runs_ret, runs_ret. split; [done|].
  replace (buffer_len m) with (buffer_len m6); [done|]. transitivity (buffer_len m5); [done|].
  rewrite El5, El4. done.
Qed.

(** ** The start that fails *)

(** The first two checks are passed. *)
Definition can_start (m : mhi_controller) (v : mhi_chan) : Prop :=
  Z.shiftl 1 (ee m) &' ee_mask v ≠ 0 ∧ ch_state v = MHI_CH_STATE_DISABLED.

(** What may go wrong up to the device's answer, and the result: the wrong execution
    environment, a channel that is not stopped, no memory, an error state, a full
    command ring, no answer or an error from the device. *)
Inductive start_fails (c : nat) (m : mhi_controller) (v : mhi_chan) (await : mhi Z) :
  option Z → Z → Prop :=
| Wrong_ee kzalloc : Z.shiftl 1 (ee m) &' ee_mask v = 0 → start_fails c m v await kzalloc (- ENOTCONN)
| Not_stopped kzalloc : Z.shiftl 1 (ee m) &' ee_mask v ≠ 0 → ch_state v ≠ MHI_CH_STATE_DISABLED →
    start_fails c m v await kzalloc (- EIO)
| No_memory : can_start m v → start_fails c m v await None (- ENOMEM)
| In_error b : can_start m v → MHI_PM_IN_ERROR_STATE (pm_state m) = true →
    start_fails c m v await (Some b) (- EIO)
| Ring_full b : can_start m v → MHI_PM_IN_ERROR_STATE (pm_state m) = false →
    get_nr_avail_ring_elements (cmd m) = 0 → start_fails c m v await (Some b) (- ENOMEM)
| No_answer b n i cmds : can_start m v → MHI_PM_IN_ERROR_STATE (pm_state m) = false →
    ring_holds n SIZEOF_TRE i (cmd m) cmds → Z.of_nat (length cmds) < n - 1 →
    (∀ m1 v1, chans m1 !! c = Some v1 → runs await m1 (λ r m2, ∃ code,
      (r = 0 ∨ code ≠ MHI_EV_CC_SUCCESS) ∧ view_of m2 = on_chan c (set_ccs code v1) (view_of m1))) →
    start_fails c m v await (Some b) (- EIO).

(** A stopped channel, with other rings. *)
Definition stopped (v v' : mhi_chan) : Prop :=
  chan v' = chan v ∧ to_device v' = to_device v ∧ pre_alloc v' = pre_alloc v
  ∧ rsc_dma v' = rsc_dma v ∧ ch_state v' = ch_state v.

Lemma stopped_rel refs s a c ch v v' : rel refs s a → a_chans a !! c = Some ch → a_q ch = None →
  chan_ok (a_pm a) ch v → stopped v v' → rel refs (on_chan c v' s) a.
Proof.
  intros Hrel Hc Hq [E1 E2 E3 E4 H] (F1 & F2 & F3 & F4 & F5). eapply rel_same; [done..|].
  rewrite Hq in H. split; try congruence. rewrite Hq. congruence.
Qed.

Lemma runs_deinit c v m : chans m !! c = Some v →
  runs (mhi_deinit_chan_ctxt c) m (λ _ m', ∃ v', m' = with_chan c v' m ∧ stopped v v').
Proof.
  intros Hv. apply runs_bind. eapply runs_upd_chan; [done|].
  eapply runs_upd_chan; [by eapply with_chan_lookup|]. rewrite with_chan_twice. by eexists.
Qed.

(** The end of the error paths: the reference is given back, the rings are
    freed. *)
Lemma fail_tail refs m0 m a c ch v v1 r : rel refs (view_of m0) a → a_chans a !! c = Some ch →
  a_q ch = None → chan_ok (a_pm a) ch v → chans m0 !! c = Some v → chans m !! c = Some v1 → stopped v v1 →
  view_of m = on_refs 1 (on_chan c v1 (view_of m0)) →
  runs ((out Runtime_put;; wake_put false;; mhi_deinit_chan_ctxt c;; mret r) : mhi Z) m
    (λ r' m', r' = r ∧ rel refs (view_of m') a).
Proof.
  intros Hrel Hc Hq Hok Hv0 Hv Hs E. apply runs_bind, runs_modify. apply runs_bind, runs_ret.
  apply runs_bind. eapply runs_mono; [by eapply runs_deinit|]. intros [] m' (v' & -> & Hs').
  apply runs_ret. split; [done|].
  assert (E' : view_of (with_chan c v' (set_trace (Runtime_put :: trace m) m)) = on_chan c v' (view_of m0)).
  { transitivity (on_chan c v' (on_refs (-1) (view_of m))).
    - unfold view_of, on_refs, on_chan. simpl. f_equal. lia.
    - rewrite E. unfold view_of, on_refs, on_chan. simpl. rewrite list_insert_insert_eq. f_equal. lia. }
  rewrite E'. eapply stopped_rel; try done.
  destruct Hs as (?&?&?&?&?), Hs' as (?&?&?&?&?). unfold stopped. split_and!; congruence.
Qed.

(** A channel that is not started has no queue in the contract. *)
Lemma stopped_none pm ch v : chan_ok pm ch v → ch_state v = MHI_CH_STATE_DISABLED → a_q ch = None.
Proof.
  intros [_ _ _ _ H] Hst. destruct (a_q ch); [|done]. destruct H as [H _]. by rewrite Hst in H.
Qed.

(** C20: a start that fails up to the device's answer ([start_fails] lists the causes)
    returns the error of its cause; the channel keeps its state, stopped or, when it
    was started before, as it was; the runtime reference taken for the command is
    given back; and nothing that the contract speaks about has changed.  (A failure
    behind the answer, when the buffers in advance cannot be had, is not covered.) *)
Theorem prepare_channel_fails refs m a c ch v place kzalloc await bufs await' r :
  rel refs (view_of m) a → a_chans a !! c = Some ch → chans m !! c = Some v →
  offload_ch v = false → start_fails c m v await kzalloc r →
  runs (mhi_prepare_channel c place kzalloc await bufs await') m
    (λ r' m', r' = r ∧ rel refs (view_of m') a).
Proof.
  intros Hrel Hc Hv Hoff Hfail.
  destruct (rel_chan _ _ _ _ _ Hrel Hc) as (v0 & Hv0 & Hok). simpl in Hv0.
  assert (v0 = v) as -> by congruence. clear Hv0.
  apply runs_bind, runs_get. apply runs_bind. eapply runs_exact; [unfold chan_at; by rewrite Hv|].
  destruct Hfail as [kz E|kz E Hst|[E Hst]|b [E Hst] Hpm|b [E Hst] Hpm Hfull|b n i cmds [E Hst] Hpm Hcmd Hn Haw].
  1: by rewrite E; apply runs_ret.
  1: by rewrite !(proj2 (Z.eqb_neq _ _)) by done; apply runs_ret.
  all: pose proof (stopped_none _ _ _ Hok Hst) as Hq.
  all: assert (Hstop : ∀ v', stopped v v' → rel refs (view_of (with_chan c v' m)) a)
    by (intros v' Hs; by eapply (stopped_rel refs (view_of m))).
  all: rewrite (proj2 (Z.eqb_neq _ _)) by done; rewrite Hst, Hoff; simpl negb; cbv iota.
  { apply runs_bind. unfold mhi_init_chan_ctxt. apply runs_bind. eapply runs_upd_chan; [done|].
    cbv zeta. apply runs_bind. eapply runs_upd_chan; [by eapply with_chan_lookup|].
    rewrite with_chan_twice, bool_decide_false by (by intros [? ?]). apply runs_ret, runs_ret.
    split; [done|]. by apply Hstop. }
  all: apply runs_bind; eapply runs_exact; [by apply init_chan_ctxt_run|]; simpl negb; cbv iota zeta;
    rewrite Hpm; set (v1 := started place b v); set (m1 := with_chan c v1 m).
  { apply runs_bind. eapply runs_mono; [eapply runs_deinit; by eapply with_chan_lookup|].
    intros [] m' (v' & -> & Hs). apply runs_ret. split; [done|]. unfold m1. rewrite with_chan_twice.
    by apply Hstop. }
  all: apply runs_bind; eapply runs_mono; [apply runs_wake_get|]; intros [] m2 (t & -> & E2);
    apply runs_bind, runs_modify; set (m3 := set_trace (_ :: _) _).
  all: assert (E3 : view_of m3 = on_refs 1 (on_chan c v1 (view_of m)))
    by (transitivity (on_refs 1 (view_of (set_trace t m1))); [|by rewrite E2];
        unfold view_of, on_refs; subst m3; simpl; f_equal; lia).
  all: assert (Hv3 : chans m3 !! c = Some v1) by (apply (with_chan_lookup c v v1 m Hv)).
  { apply runs_bind. apply runs_mono with (Φ := λ r' m', r' = - ENOMEM ∧ m' = m3).
    - apply runs_bind, runs_get. change (cmd m3) with (cmd m). rewrite Hfull. by apply runs_ret.
    - intros r' m' [-> ->]. simpl negb. cbv iota.
      by eapply (fail_tail refs m m3 a c ch v v1). }
  apply runs_bind. eapply runs_mono; [by eapply (send_cmd_runs (chan v) MHI_CMD_START_CHAN m3)|].
  intros r m4 (-> & E4 & _). simpl negb. cbv iota.
  assert (Hv4 : chans m4 !! c = Some v1) by (by rewrite (f_equal s_chans E4 : chans m4 = chans m3)).
  apply runs_bind. eapply runs_mono; [by apply (Haw m4 v1)|]. intros r m5 (code & Hr & E5).
  assert (Hv5 : chans m5 !! c = Some (set_ccs code v1)).
  { rewrite (f_equal s_chans E5 : chans m5 = _). apply list_lookup_insert_eq. by eapply lookup_lt_Some. }
  apply runs_bind. eapply runs_exact; [unfold chan_at; by rewrite Hv5|].
  replace ((r =? 0) || negb (ccs (set_ccs code v1) =? MHI_EV_CC_SUCCESS)) with true; cycle 1.
  { symmetry. apply orb_true_iff. destruct Hr as [-> | Hr]; [by left|right].
    apply negb_true_iff, Z.eqb_neq, Hr. }
  eapply (fail_tail refs m m5 a c ch v (set_ccs code v1)); try done.
  rewrite E5, E4, E3. unfold on_refs, on_chan. simpl. by rewrite list_insert_insert_eq.
Qed.

(** ** The example: a downlink channel that is filled in advance *)

(** The device answers, and the driver's handler of the control events takes the
    answer. *)
Definition ex_answer : mhi Z :=
  ctrl_event (MhiTre 0xA0000 (Z.shiftl MHI_EV_CC_SUCCESS 24)
    (MHI_TRE_EV_DWORD1 0 MHI_PKT_TYPE_CMD_COMPLETION_EVENT));; mret 5.

Lemma ex_completes :
  completes 0 (ex_ring 0x4000 0xA0000 SIZEOF_TRE ex_tre) (cmd_tre MHI_CMD_START_CHAN 0) ex_answer.
Proof.
  intros m v ring y Hring Hcmd Hv. vm_compute in Hring. injection Hring as <-.
  apply runs_bind. change (ctrl_event _) with (mhi_process_cmd_completion
    (MhiTre 0xA0000 (Z.shiftl MHI_EV_CC_SUCCESS 24) (MHI_TRE_EV_DWORD1 0 MHI_PKT_TYPE_CMD_COMPLETION_EVENT))).
  apply runs_bind, runs_get. rewrite Hcmd. apply runs_bind. eapply runs_lift; [vm_compute; reflexivity|].
  cbn [MHI_TRE_GET_CMD_TYPE]. apply runs_bind. 
  match goal with |- runs (if ?b then _ else _) _ _ => change b with false end. cbv iota zeta.
  apply runs_bind. eapply runs_upd_chan; [exact Hv|]. apply runs_modify. apply runs_modify. by apply runs_ret.
Qed.

Definition ex_stopped : mhi_controller :=
  ex_mhi MHI_PM_M0 MHI_STATE_M0 [ex_chan 0 false true MHI_CH_STATE_DISABLED].
Definition ex_astopped : astate :=
  AState MHI_PM_M0 [Some 0x500; Some 0x600; Some 0x700; Some 0x800] [ex_achan 0 false true None] [].

Lemma ex_stopped_rel : rel 0 (view_of ex_stopped) ex_astopped.
Proof. split; try done; [by repeat constructor|]. repeat constructor; done. Qed.

Lemma prepare_channel_starts_witness :
  runs (mhi_prepare_channel 0 (0x6000, 0x60000) (Some 0x7000) ex_answer (Some <$> [0x11; 0x12; 0x13])
      (mret 0)) ex_stopped
    (λ r m', r = 0 ∧ rel 0 (view_of m') (AState MHI_PM_M0 [Some 0x800]
      [AChan 0 false true false 3 0x6000 0x60000 0
        (Some [Item 0x11 512 0x500 false; Item 0x12 512 0x600 false; Item 0x13 512 0x700 false])] [])).
Proof.
  eapply (prepare_channel_starts 0 ex_stopped ex_astopped 0 (ex_achan 0 false true None)
    (ex_chan 0 false true MHI_CH_STATE_DISABLED) (0x6000, 0x60000) 0x7000 ex_answer
    [0x11; 0x12; 0x13] [0x500; 0x600; 0x700] [Some 0x800] (mret 0) 4 0 []);
    first [exact ex_stopped_rel | exact ex_completes | by apply ex_holds | done | by split; simpl].
Defined.

(** The device does not answer in time. *)
Lemma prepare_channel_fails_witness :
  runs (mhi_prepare_channel 0 (0x6000, 0x60000) (Some 0x7000) (mret 0) [] (mret 0)) ex_stopped
    (λ r m', r = - EIO ∧ rel 0 (view_of m') ex_astopped).
Proof.
  eapply (prepare_channel_fails 0 ex_stopped ex_astopped 0 (ex_achan 0 false true None)
    (ex_chan 0 false true MHI_CH_STATE_DISABLED)); [exact ex_stopped_rel|done..|].
  apply (No_answer _ _ _ _ _ 4 0 []); try done.
  intros m1 v1 Hv1. apply runs_ret. exists (ccs v1). split; [by left|].
  replace (set_ccs (ccs v1) v1) with v1 by (by destruct v1). by rewrite on_chan_id.
Defined.
