(* ===== verification/MhiEvents.v ===== *)
(** * The Modem Host Interface: the event rings of the channels

    What is in a data event ring reaches the channels: each event once, in order,
    up to the budget; the processed elements go back to the device. *)

From S2P Require Import Prelude Kernel Mhi MhiPm MhiXfer MhiExample MhiPmProps MhiRing MhiSpec MhiQueues MhiRefine.

#[local] Open Scope Z_scope.
#[local] Open Scope c_scope.

(** ** What the channels do leaves the event rings alone *)

Definition kept (m m' : mhi_controller) : Prop :=
  events m' = events m ∧ length (chans m') = length (chans m).
Definition spares {A} (prog : mhi A) : Prop := ∀ m, ends prog m (λ _ m', kept m m').

Lemma kept_refl m : kept m m.
Proof. done. Qed.
Lemma kept_trans m1 m2 m3 : kept m1 m2 → kept m2 m3 → kept m1 m3.
Proof. intros [E1 E2] [F1 F2]. split; by etransitivity. Qed.

Create HintDb spares.

Section Keeps.
Context {A B : Type}.
Lemma spares_ret (a : A) : spares (mret a).
Proof. intros m. apply ends_ret, kept_refl. Qed.
Lemma spares_bind (prog : mhi A) (f : A → mhi B) : spares prog → (∀ a, spares (f a)) → spares (prog ≫= f).
Proof.
  intros H1 H2 m. apply ends_bind. eapply ends_mono; [by apply H1|]. intros a m' E.
  eapply ends_mono; [by apply H2|]. intros b m2 E2. exact (kept_trans _ _ _ E E2).
Qed.
Lemma spares_get (f : mhi_controller → mhi B) : (∀ m, spares (f m)) → spares (get_state ≫= f).
Proof. intros H m. apply ends_bind, ends_get. by apply H. Qed.
Lemma spares_modify (f : mhi_controller → mhi_controller) :
  (∀ m, kept m (f m)) → spares (modify f).
Proof. intros E m. apply ends_modify, E. Qed.
Lemma spares_lift (o : outcome A) : spares (lift o).
Proof. intros m. apply ends_lift. intros. apply kept_refl. Qed.
Lemma spares_hang : spares (hang : mhi A).
Proof. intros m. by intros a m'. Qed.
Lemma spares_if (b : bool) (p q : mhi A) : spares p → spares q → spares (if b then p else q).
Proof. by destruct b. Qed.
Lemma spares_chan_at c : spares (chan_at c).
Proof. intros m a m'. unfold chan_at. destruct (chans m !! c); [|done]. by intros [= <- <-]. Qed.
Lemma spares_upd_chan c f : spares (upd_chan c f).
Proof.
  intros m. apply ends_bind. eapply ends_mono; [apply spares_chan_at|]. intros v m1 E.
  apply ends_modify. destruct E as [E1 E2]. split; [done|]. simpl. by rewrite length_insert.
Qed.
Lemma spares_out o : spares (out o).
Proof. by apply spares_modify. Qed.
End Keeps.
#[export] Hint Resolve spares_ret spares_lift spares_hang spares_chan_at spares_upd_chan spares_out : spares.
#[export] Hint Extern 2 (spares (modify _)) => by apply spares_modify : spares.

Ltac spares_step :=
  match goal with
  | |- ∀ _, _ => intros ?
  | |- spares (mret _) => apply spares_ret
  | |- spares (get_state ≫= _) => apply spares_get
  | |- spares (_ ≫= _) => apply spares_bind
  | |- spares (if _ then _ else _) => apply spares_if
  | |- spares (match ?x with _ => _ end) => destruct x
  | |- spares (let _ := _ in _) => cbv zeta
  | |- spares _ => solve [eauto with spares]
  end.
Ltac spares := repeat spares_step.

Lemma spares_write_db addr w : spares (mhi_write_db addr w).
Proof. unfold mhi_write_db, mhi_write_reg. spares. Qed.
#[export] Hint Resolve spares_write_db : spares.
Lemma spares_process_db d addr w : spares (process_db d addr w).
Proof. unfold process_db, mhi_db_brstmode, mhi_db_brstmode_disable. destruct (brstmode d =? _); spares. Qed.
#[export] Hint Resolve spares_process_db : spares.
Lemma spares_ring_chan_db c : spares (mhi_ring_chan_db c).
Proof. unfold mhi_ring_chan_db. spares. Qed.
#[export] Hint Resolve spares_ring_chan_db : spares.
Lemma spares_queue_buf c buf n flags : spares (mhi_queue_buf c buf n flags).
Proof.
  unfold mhi_queue_buf, mhi_gen_tre, store_buf, store_tre, advance_wp, mhi_map_single_no_bb, leave_lpm,
    queue_wake, ring_if_m0, wake_get, wake_put, mhi_assert_dev_wake, mhi_deassert_dev_wake, inc_pending.
  spares.
Qed.
#[export] Hint Resolve spares_queue_buf : spares.
Lemma spares_complete_one c status n : spares (complete_one c status n).
Proof. unfold complete_one, dec_pending, wake_put, mhi_deassert_dev_wake. spares. Qed.
#[export] Hint Resolve spares_complete_one : spares.
Lemma spares_complete_loop fuel c dev_rp status n : spares (complete_loop fuel c dev_rp status n).
Proof. induction fuel; simpl; spares. Qed.
#[export] Hint Resolve spares_complete_loop : spares.
Lemma spares_xfer_event ev c : spares (parse_xfer_event ev c).
Proof. unfold parse_xfer_event. spares. Qed.

(** A run seen through the view, and the event rings as they were. *)
Lemma vruns_spares {A} (prog : mhi A) m (Φ : A → view → Prop) : spares prog → vruns prog (view_of m) Φ →
  runs prog m (λ a m', Φ a (view_of m') ∧ kept m m').
Proof.
  intros Hk H. destruct (H m eq_refl) as (a & m' & E & H'). eapply runs_exact; [exact E|].
  split; [done|]. by eapply Hk.
Qed.

(** ** The contents of an event ring *)

(** The device has written the events [evs], from the element [i] on; the
    elements before [w] are the device's, and it has been told so. *)
Definition device_view (v : mhi_event) : mhi_ring mhi_tre :=
  set_wp (mhi_to_virtual (ev_ring v) (ctxt_rp v)) (ev_ring v).
Definition event_ring (n i w : Z) (v : mhi_event) (evs : list mhi_tre) : Prop :=
  ring_holds n SIZEOF_TRE i (device_view v) evs ∧ wp (ev_ring v) = place n SIZEOF_TRE (ev_ring v) w
  ∧ ctxt_wp (ev_ring v) = mhi_to_physical (ev_ring v) (wp (ev_ring v)).

Definition recycled (v : mhi_event) : mhi_event := set_ev_ring (mhi_recycle_ev_ring_element (ev_ring v)) v.

Lemma recycle_ring n i w v ev evs : event_ring n i w v (ev :: evs) →
  event_ring n (i + 1) (w + 1) (recycled v) evs.
Proof.
  intros (H & Hw & _). pose proof (holds_layout _ _ _ _ _ H) as HL.
  assert (HL' : layout n SIZEOF_TRE (ev_ring v)) by (by apply (layout_set n SIZEOF_TRE (device_view v))).
  split_and!.
  - pose proof (holds_ctxt _ _ _ _ _
      (u64 (iommu_base (ev_ring v) + (wp (mhi_add_ring_element (ev_ring v)) - base (ev_ring v))))
      (holds_del _ _ _ _ _ _ H)) as H'. exact H'.
  - simpl. rewrite (lay_el _ _ _ HL'), (lay_len _ _ _ HL'), Hw.
    change (place n SIZEOF_TRE _ (w + 1)) with (place n SIZEOF_TRE (ev_ring v) (w + 1)).
    by rewrite <- place_succ.
  - unfold mhi_to_physical. simpl. f_equal. lia.
Qed.

(** ** The events that the budget allows *)

Definition transfer (ev : mhi_tre) : bool := MHI_TRE_GET_EV_TYPE ev =? MHI_PKT_TYPE_TX_EVENT.
Definition event_chan (ev : mhi_tre) : nat := Z.to_nat (MHI_TRE_GET_EV_CHID ev).

Fixpoint budgeted (quota : Z) (evs : list mhi_tre) : list mhi_tre :=
  match evs with
  | [] => []
  | ev :: evs =>
    if quota =? 0 then [] else ev :: budgeted (if transfer ev then quota - 1 else quota) evs
  end.

(** The transfer events of a ring, as operations on the channels. *)
Definition event_ops (evs : list mhi_tre) : list chan_op :=
  omap (λ ev, if transfer ev then Some (CEvent (event_chan ev) ev) else None) evs.

(** The event is for a channel that the controller has, and is not one of the
    coalesced ones, of which the specification has no channels. *)
Definition known_event (l : nat) (ev : mhi_tre) : Prop :=
  (event_chan ev < l)%nat ∧ MHI_TRE_GET_EV_TYPE ev ≠ MHI_PKT_TYPE_RSC_TX_EVENT.

Lemma rel_length refs m a : rel refs (view_of m) a → length (a_chans a) = length (chans m).
Proof. intros []. by eapply Forall2_length. Qed.

Lemma used_same refs m a c k : rel refs (view_of m) a → (c < length (chans m))%nat →
  vruns (upd_chan c (set_used_elements k)) (view_of m) (λ _ s', rel refs s' a).
Proof.
  intros Hrel Hc. destruct (lookup_lt_is_Some_2 (a_chans a) c) as [ch Hch].
  { by rewrite (rel_length refs m). }
  destruct (rel_chan _ _ _ _ _ Hrel Hch) as (v & Hv & [E1 E2 E3 E4 H]).
  eapply vruns_upd_chan; [done|]. eapply rel_same; [done..|]. split; try done.
  destruct (a_q ch) as [q|]; [|done]. destruct H as (? & ? & [? ?] & [? ?]). by split_and!.
Qed.

(** The channel's part of one turn. *)
Lemma turn_channel refs m a rs a' ev quota : rel refs (view_of m) a → known_event (length (a_chans a)) ev →
  run_all abs_op (event_ops [ev]) a = Done (rs, a') →
  runs (if MHI_TRE_GET_EV_TYPE ev =? MHI_PKT_TYPE_TX_EVENT
      then parse_xfer_event ev (event_chan ev);; mret (quota - 1)
      else if MHI_TRE_GET_EV_TYPE ev =? MHI_PKT_TYPE_RSC_TX_EVENT
      then parse_rsc_event ev (event_chan ev);; mret (quota - 1)
      else mret quota) m
    (λ r m', r = (if transfer ev then quota - 1 else quota) ∧ rel refs (view_of m') a' ∧ kept m m').
Proof.
  intros Hrel [_ Hk] Habs. unfold transfer, event_ops in *. cbn [omap list_omap] in Habs.
  unfold transfer in Habs. destruct (MHI_TRE_GET_EV_TYPE ev =? MHI_PKT_TYPE_TX_EVENT).
  - apply stm_bind_inv in Habs as (r & a1 & H1 & Habs).
    apply stm_bind_inv in Habs as (rs1 & a2 & [= <- <-] & [= <- <-]).
    pose proof (op_refines refs _ a _ r a1 Hrel H1 m eq_refl) as (r' & m' & E & Hr' & Hrel').
    cbn [conc_op] in E. cbv zeta in E. apply stm_bind_inv in E as ([] & m1 & E & [= <- <-]).
    apply runs_bind. eapply runs_exact; [exact E|]. apply runs_ret. split_and!; try done; by eapply spares_xfer_event.
  - rewrite (proj2 (Z.eqb_neq _ _)) by done. injection Habs as <- <-. by apply runs_ret.
Qed.

Lemma runs_chan_at c m (Φ : mhi_chan → mhi_controller → Prop) : (c < length (chans m))%nat →
  (∀ v, Φ v m) → runs (chan_at c) m Φ.
Proof.
  intros Hc H. destruct (lookup_lt_is_Some_2 _ _ Hc) as [v Hv].
  eapply runs_exact; [unfold chan_at; by rewrite Hv|done].
Qed.
Lemma runs_event_at e v m (Φ : mhi_event → mhi_controller → Prop) : events m !! e = Some v →
  Φ v m → runs (event_at e) m Φ.
Proof. intros Hv H. eapply runs_exact; [unfold event_at; by rewrite Hv|done]. Qed.
Lemma runs_upd_event e f v m (Φ : () → mhi_controller → Prop) : events m !! e = Some v →
  Φ () (set_events (<[e := f v]> (events m)) m) → runs (upd_event e f) m Φ.
Proof. intros Hv H. apply runs_bind. eapply runs_event_at; [done|]. by apply runs_modify. Qed.

Lemma run_all_app {S O} (step : O → stm S Z) ops ops' s rs s' :
  run_all step (ops ++ ops') s = Done (rs, s') →
  ∃ rs1 s1 rs2, run_all step ops s = Done (rs1, s1) ∧ run_all step ops' s1 = Done (rs2, s').
Proof.
  revert s rs. induction ops as [|o ops IH]; intros s rs H; [by exists [], s, rs|].
  apply stm_bind_inv in H as (r & s1 & E1 & H). apply stm_bind_inv in H as (rs1 & s2 & E2 & [= <- <-]).
  apply IH in E2 as (rs2 & s3 & rs3 & E2 & E3). exists (r :: rs2), s3, rs3. split; [|done].
  simpl. unfold mbind, stm_bind. rewrite E1. simpl. rewrite E2. done.
Qed.

Lemma event_ops_app evs evs' : event_ops (evs ++ evs') = event_ops evs ++ event_ops evs'.
Proof. apply omap_app. Qed.

(** What the loop leaves: the channels as the specification says, the ring
    without the processed events. *)
Definition consumed (refs : Z) (a' : astate) (e : nat) (n i w : Z) (evs : list mhi_tre) (k : nat)
    (m' : mhi_controller) : Prop :=
  rel refs (view_of m') a' ∧ ∃ v', events m' !! e = Some v'
    ∧ event_ring n (i + Z.of_nat k) (w + Z.of_nat k) v' (drop k evs).

Lemma event_ring_empty n i w v evs : event_ring n i w v evs →
  (mhi_to_virtual (ev_ring v) (ctxt_rp v) =? rp (ev_ring v)) = bool_decide (evs = []).
Proof. intros (H & _). by apply (holds_empty n SIZEOF_TRE i (device_view v)). Qed.

Lemma data_loop refs e n : ∀ evs fuel quota cc count m a rs a' i w v, rel refs (view_of m) a →
  events m !! e = Some v → event_ring n i w v evs →
  Forall (known_event (length (chans m))) evs →
  run_all abs_op (event_ops (budgeted quota evs)) a = Done (rs, a') → (length evs ≤ fuel)%nat →
  runs (data_ev_loop fuel e quota cc count) m (λ r m', let k := length (budgeted quota evs) in
    r = count + Z.of_nat k ∧ consumed refs a' e n i w evs k m').
Proof.
  intros evs. induction evs as [|ev evs IH]; intros fuel quota cc count m a rs a' i w v Hrel Hv Hev Hk Habs Hf.
  - destruct fuel; (apply runs_bind; eapply runs_event_at; [done|]); cbv zeta;
      rewrite (event_ring_empty _ _ _ _ _ Hev); apply runs_ret; simpl in *;
      injection Habs as <- <-; (split; [lia|]); (split; [done|]); exists v; by rewrite !Z.add_0_r.
  - destruct fuel as [|fuel]; [simpl in Hf; lia|]. apply runs_bind. eapply runs_event_at; [done|]. cbv zeta.
    rewrite (event_ring_empty _ _ _ _ _ Hev), bool_decide_false by done. cbn [orb budgeted] in *.
    destruct (quota =? 0).
    { apply runs_ret. simpl in *. injection Habs as <- <-. split; [lia|]. split; [done|].
      exists v. by rewrite !Z.add_0_r. }
    apply Forall_cons in Hk as [Hk Hks].
    change (?x :: ?l) with ([x] ++ l) in Habs. rewrite event_ops_app in Habs.
    apply run_all_app in Habs as (rs1 & a1 & rs2 & H1 & H2).
    pose proof (rel_length _ _ _ Hrel) as El. pose proof Hk as [Hc _].
    apply runs_bind. eapply runs_lift; [destruct Hev as (Hev & _); exact (holds_load _ _ _ _ _ _ Hev)|].
    apply runs_bind. eapply (runs_chan_at (event_chan ev)); [done|]. intros ch. apply runs_bind.
    eapply runs_mono; [eapply (turn_channel refs m a rs1 a1 ev quota); [done|by rewrite El|done]|].
    intros q' m1 (-> & Hrel1 & [Ke Kc]). apply runs_bind.
    eapply (runs_chan_at (event_chan ev)); [by rewrite Kc|]. intros ch1.
    rewrite <- Ke in Hv. apply runs_bind. eapply runs_upd_event; [done|].
    set (m2 := set_events _ _).
    assert (Hv2 : events m2 !! e = Some (recycled v))
      by (apply list_lookup_insert_eq; by eapply lookup_lt_Some).
    assert (Hrel2 : rel refs (view_of m2) a1) by done.
    apply runs_bind. eapply runs_event_at; [done|]. apply runs_bind.
    apply runs_mono with (Φ := λ _ m', rel refs (view_of m') a1 ∧ kept m2 m').
    + destruct (_ || _); [|by apply runs_ret]. apply runs_bind.
      apply runs_mono with (Φ := λ _ m', rel refs (view_of m') a1 ∧ kept m2 m'); [|intros ???; by apply runs_ret].
      destruct (used_elements ch1 <? _); [|by apply runs_ret].
      apply (vruns_spares _ m2 (λ _ s', rel refs s' a1)); [apply spares_upd_chan|]. apply (used_same refs m2 a1 (event_chan ev)); [done|].
      simpl. by rewrite Kc.
    + intros cc' m3 [Hrel3 [Ke3 Kc3]].
      eapply runs_mono; [eapply (IH fuel _ cc' _ m3 a1 rs2 a' (i + 1) (w + 1) (recycled v))|].
      * done.
      * by rewrite Ke3.
      * by eapply recycle_ring.
      * rewrite Kc3. simpl. by rewrite Kc.
      * done.
      * simpl in Hf. lia.
      * intros r m4 [-> (Hrel4 & v' & Hv' & Hev')]. rewrite length_cons. split; [lia|]. split; [done|].
        exists v'. split; [done|].
        replace (i + Z.of_nat (S _)) with (i + 1 + Z.of_nat (length (budgeted (if transfer ev then quota - 1 else quota) evs))) by lia.
        replace (w + Z.of_nat (S _)) with (w + 1 + Z.of_nat (length (budgeted (if transfer ev then quota - 1 else quota) evs))) by lia.
        done.
Qed.

(** C17: Processing the event ring of the channels, from a poll or from the task,
    takes the events between the driver's pointer and the device's, each once and
    in order, up to the budget of transfer events: the channels are what the
    specification makes of these events, the result is their number, the elements
    go back to the device one by one, and the others stay in the ring. *)
Theorem data_events_in_order refs m a e v n i w evs quota rs a' :
  rel refs (view_of m) a → MHI_EVENT_ACCESS_INVALID (pm_state m) = false →
  events m !! e = Some v → event_ring n i w v evs →
  Forall (known_event (length (chans m))) evs →
  run_all abs_op (event_ops (budgeted quota evs)) a = Done (rs, a') →
  runs (mhi_process_data_event_ring e quota) m (λ r m', let k := length (budgeted quota evs) in
    r = Z.of_nat k ∧ rel refs (view_of m') a' ∧ ∃ v', events m' !! e = Some v'
      ∧ event_ring n (i + Z.of_nat k) (w + Z.of_nat k) v' (drop k evs)).
Proof.
  intros Hrel Hpm Hv Hev Hk Habs. apply runs_bind, runs_get. rewrite Hpm.
  apply runs_bind. eapply runs_event_at; [done|]. apply runs_bind. eapply runs_mono.
  { eapply (data_loop refs e n evs (ev_fuel v) quota 0 0 m a rs a' i w v); try done.
    destruct Hev as ([HL _ _ Hc _] & _). unfold ev_fuel. pose proof (lay_elements _ _ _ HL) as E.
    simpl in E. rewrite E. lia. }
  intros r m1 [-> (Hrel1 & v' & Hv' & Hev')]. cbv zeta.
  unfold ev_done. apply runs_bind. eapply runs_event_at; [done|]. apply runs_bind.
  apply runs_mono with (Φ := λ _ m', view_of m' = view_of m1 ∧ ∃ x, events m' !! e = Some (set_ev_used x v')).
  { destruct (ev_used_elements v' <? _).
    - eapply runs_upd_event; [done|]. split; [done|]. eexists.
      apply list_lookup_insert_eq. by eapply lookup_lt_Some.
    - apply runs_ret. split; [done|]. exists (ev_used_elements v'). by destruct v'. }
  intros [] m2 (E2 & x & Hv2). apply runs_bind, runs_get. apply runs_bind.
  apply runs_mono with (Φ := λ _ m', view_of m' = view_of m1
    ∧ ∃ d, events m' !! e = Some (set_ev_db d (set_ev_used x v'))).
  { destruct (MHI_DB_ACCESS_VALID _).
    - apply runs_bind. eapply runs_event_at; [done|]. apply runs_bind.
      destruct (runs_process_db (ev_db (set_ev_used x v')) (db_addr (ev_ring (set_ev_used x v')))
        (ctxt_wp (ev_ring (set_ev_used x v'))) m2) as (d & m3 & E & [Eq _]).
      assert (E3 : events m3 = events m2) by (by eapply spares_process_db).
      eapply runs_exact; [exact E|]. eapply runs_upd_event; [by rewrite E3|].
      split; [simpl; by rewrite <- E2, <- Eq|]. eexists. apply list_lookup_insert_eq.
      rewrite E3. by eapply lookup_lt_Some.
    - apply runs_ret. split; [done|]. exists (ev_db v'). rewrite Hv2. by destruct v'. }
  intros [] m4 (E4 & d & Hv4). apply runs_ret. split; [lia|]. rewrite E4. split; [done|].
  by eexists.
Qed.

(** ** The example: two buffers queued, two events, a budget for one *)

Lemma spares_queue_skb c skb data n : spares (mhi_queue_skb c skb data n).
Proof.
  unfold mhi_queue_skb, store_buf, store_tre, advance_wp, mhi_map_single_no_bb, leave_lpm,
    queue_wake, ring_if_m0, wake_get, wake_put, mhi_assert_dev_wake, mhi_deassert_dev_wake, inc_pending.
  spares.
Qed.

Definition ex_queued : mhi () := mhi_queue_skb 0 0x41 0x51 10;; mhi_queue_skb 0 0x42 0x52 20;; mret ().
Definition ex_aqueued : astate :=
  AState MHI_PM_M0 [Some 0x700; Some 0x800]
    [ex_achan 0 true false (Some [Item 0x41 10 0x500 false; Item 0x42 20 0x600 false]);
     ex_achan 1 false false (Some [])] [].

Lemma ex_queued_runs : runs ex_queued ex_state (λ _ m, rel 0 (view_of m) ex_aqueued ∧ kept ex_state m).
Proof.
  apply (vruns_spares _ ex_state (λ _ s, rel 0 s ex_aqueued)).
  - apply spares_bind; [apply spares_queue_skb|]. intros r. apply spares_bind; [apply spares_queue_skb|].
    intros. apply spares_ret.
  - apply vruns_bind. eapply vruns_mono; [eapply (queue_skb_refines 0); [exact ex_rel|vm_compute; reflexivity]|].
    intros r s [-> Hrel]. apply vruns_bind.
    eapply vruns_mono; [eapply (queue_skb_refines 0); [exact Hrel|vm_compute; reflexivity]|].
    intros r s' [-> Hrel']. by apply vruns_ret.
Qed.

Lemma ex_event_ring : event_ring 4 0 3 ex_event [ex_transfer 0x80000 7; ex_transfer 0x80010 9].
Proof.
  split_and!; [|done..]. split; try done.
  intros j x Hj. destruct j as [|[|j]]; [..|by destruct j]; vm_compute in Hj; by injection Hj as <-.
Qed.

Lemma data_events_in_order_witness :
  runs (ex_queued;; mhi_process_data_event_ring 0 1) ex_state (λ r m', r = 1
    ∧ omap to_aout (trace m') = [ACb 0 (MhiResult 0x41 true 7 0); AUnmap 0x500 10]
    ∧ ∃ v', events m' !! 0%nat = Some v' ∧ event_ring 4 1 4 v' [ex_transfer 0x80010 9]).
Proof.
  apply runs_bind. eapply runs_mono; [exact ex_queued_runs|]. intros [] m [Hrel [Ke Kc]].
  destruct (run_all abs_op (event_ops (budgeted 1 [ex_transfer 0x80000 7; ex_transfer 0x80010 9])) ex_aqueued)
    as [[rs a']| |] eqn:E; [|vm_compute in E; discriminate..].
  eapply runs_mono; [eapply (data_events_in_order 0 m ex_aqueued 0 ex_event 4 0 3
    [ex_transfer 0x80000 7; ex_transfer 0x80010 9] 1 rs a')|].
  - exact Hrel.
  - by rewrite (rel_pm _ _ _ Hrel : pm_state m = _).
  - by rewrite Ke.
  - exact ex_event_ring.
  - rewrite Kc. repeat constructor; vm_compute; done || lia.
  - exact E.
  - intros r m' (-> & Hrel' & Hev). pose proof (rel_out _ _ _ Hrel') as Ho. split_and!; [done| |exact Hev].
    vm_compute in E. injection E as <- <-. exact Ho.
Defined.
