(* ===== verification/MhiProps.v ===== *)
(** * The Modem Host Interface: events that the device should not send

    What the transfer handler does with a pointer that is not the address of a
    descriptor. *)

From S2P Require Import Prelude Kernel Mhi MhiPm MhiXfer MhiExample MhiPmProps MhiRing MhiSpec MhiQueues MhiRefine MhiStart MhiEvents.

#[local] Open Scope Z_scope.
#[local] Open Scope c_scope.

(** ** The loop of completions, without end *)

(** The read pointers of both rings are at some element. *)
Definition reads_at (n : Z) (r : mhi_ring mhi_tre) (v : mhi_chan) : Prop :=
  pre_alloc v = false ∧ base (tre_ring v) = base r
  ∧ (∃ i, layout n SIZEOF_TRE (tre_ring v) ∧ rp (tre_ring v) = place n SIZEOF_TRE (tre_ring v) i)
  ∧ (∃ n' k, layout n' SIZEOF_BUF_INFO (buf_ring v)
      ∧ rp (buf_ring v) = place n' SIZEOF_BUF_INFO (buf_ring v) k).

Lemma load_place {A} n es (r : mhi_ring A) i : layout n es r → ∃ x, load r (place n es r i) = Done x.
Proof.
  intros HL. pose proof HL as []. unfold load. rewrite (slot_place n es) by done. simpl.
  pose proof (Z.mod_pos_bound i n).
  destruct (lookup_lt_is_Some_2 (mem r) (Z.to_nat (i mod n))) as [x Hx]; [lia|].
  exists x. by rewrite Hx.
Qed.

Lemma del_place {A} n es (r : mhi_ring A) i : layout n es r → rp r = place n es r i →
  layout n es (mhi_del_ring_element r)
  ∧ rp (mhi_del_ring_element r) = place n es (mhi_del_ring_element r) (i + 1).
Proof.
  intros HL Hr. split; [by apply (layout_set n es r)|]. simpl.
  rewrite (lay_el _ _ _ HL), (lay_len _ _ _ HL), Hr, place_succ by done. done.
Qed.

Lemma reads_del n r v : reads_at n r v →
  reads_at n r (set_tre (mhi_del_ring_element (tre_ring v)) (set_buf (mhi_del_ring_element (buf_ring v)) v)).
Proof.
  intros (Ep & Eb & (i & Ht & Hi) & (n' & k & Hb & Hk)). split_and!; try done.
  - exists (i + 1). by apply del_place.
  - exists n', (k + 1). by apply del_place.
Qed.

(** Another state with the same channels. *)
Definition same_chans (m m' : mhi_controller) : Prop := chans m' = chans m.

Lemma runs_dec (b : bool) m : runs (if b then dec_pending else mret ()) m (λ _ m', same_chans m m').
Proof.
  destruct b; [|by apply runs_ret]. apply runs_bind, runs_get. apply runs_bind, runs_modify.
  destruct (_ =? 0); [by apply runs_modify|by apply runs_ret].
Qed.

Lemma complete_one_reads c n r v status l m : chans m !! c = Some v → reads_at n r v →
  runs (complete_one c status l) m (λ _ m', ∃ v', chans m' !! c = Some v' ∧ reads_at n r v').
Proof.
  intros Hv Hr. pose proof Hr as (Ep & _ & _ & (n' & k & Hb & Hk)).
  destruct (load_place _ _ _ k Hb) as [b Eb].
  apply runs_bind. eapply runs_exact; [unfold chan_at; by rewrite Hv|].
  apply runs_bind. eapply runs_lift; [by rewrite Hk|].
  apply runs_bind. apply runs_mono with (Φ := λ _ m', same_chans m m').
  { destruct (negb _); [by apply runs_modify|by apply runs_ret]. }
  intros [] m1 E1. unfold same_chans in E1. rewrite <- E1 in Hv.
  apply runs_bind. eapply runs_upd_chan; [done|]. apply runs_bind.
  eapply runs_upd_chan; [by eapply with_chan_lookup|]. rewrite with_chan_twice.
  apply runs_bind, runs_modify. apply runs_bind. eapply runs_mono; [apply runs_dec|].
  intros [] m2 E2. unfold same_chans in E2. apply runs_bind.
  apply runs_mono with (Φ := λ _ m', same_chans m2 m'); [by destruct (to_device v); apply runs_ret|].
  intros [] m3 E3. rewrite Ep. apply runs_ret. eexists. split; [|by apply reads_del].
  rewrite E3, E2. by eapply with_chan_lookup.
Qed.

Lemma complete_loop_hangs c n r dev_rp status l : (∀ i, dev_rp ≠ place n SIZEOF_TRE r i) →
  ∀ fuel m v, chans m !! c = Some v → reads_at n r v →
  hangs (complete_loop fuel c dev_rp status l) m.
Proof.
  intros Hne fuel. induction fuel as [|fuel IH]; intros m v Hv Hr.
  all: pose proof Hr as (_ & Eb & (i & _ & Hi) & _).
  all: assert (Hrp : (rp (tre_ring v) =? dev_rp) = false)
    by (apply Z.eqb_neq; rewrite Hi, (place_same _ _ r) by done; by intros <-; apply (Hne i)).
  all: cbn [complete_loop]; apply hangs_bind; eapply runs_exact;
    [unfold chan_at; by rewrite Hv|]; rewrite Hrp.
  - done.
  - apply hangs_bind. eapply runs_mono; [by eapply complete_one_reads|].
    intros [] m' (v' & Hv' & Hr'). by eapply IH.
Qed.

(** Inside the ring, but between two descriptors. *)
Lemma stray_rp n (r : mhi_ring mhi_tre) ptr : layout n SIZEOF_TRE r →
  (let off := u64 (ptr - iommu_base r) in off + SIZEOF_TRE < SIZEOF_TRE * n ∧ off mod SIZEOF_TRE ≠ 0) →
  ∀ i, event_dev_rp r ptr ≠ place n SIZEOF_TRE r i.
Proof.
  cbv zeta. intros [Hn _ Hs _ _ Hlen Hb _] [Hlt Hmod] i. unfold event_dev_rp, mhi_to_virtual, u64, SIZEOF_TRE in *.
  set (off := (ptr - iommu_base r) mod 2 ^ 64) in *.
  assert (0 ≤ off) by (apply Z.mod_pos_bound; lia).
  assert (E : (ptr - iommu_base r + base r) mod 2 ^ 64 = off + base r).
  { rewrite Zplus_mod. fold off. rewrite (Z.mod_small (base r)) by lia. apply Z.mod_small. lia. }
  rewrite E, (Z.mod_small (off + base r + 16)) by lia. rewrite Hlen, (proj2 (Z.leb_gt _ _)) by lia.
  unfold place. intros E'. apply Hmod. replace off with ((i mod n - 1) * 16) by lia.
  apply Z.mod_mul. lia.
Qed.

(** A transfer event whose pointer lies in the ring, below its last descriptor, but
    is not the address of a descriptor makes the driver go around the ring for
    ever on a channel that is not pre-allocated, completing the same buffers again
    and again: the loop looks for the device's pointer by equality, and no number
    of turns is enough.  (A pointer into the last descriptor is wrapped to the
    base of the ring, and the loop ends.) *)
Theorem stray_event_never_ends m c v ev n : chans m !! c = Some v →
  ch_state v = MHI_CH_STATE_ENABLED → reads_at n (tre_ring v) v →
  transfer_code (MHI_TRE_GET_EV_CODE ev) = true →
  (let off := u64 (MHI_TRE_GET_EV_PTR ev - iommu_base (tre_ring v)) in
    off + SIZEOF_TRE < SIZEOF_TRE * n ∧ off mod SIZEOF_TRE ≠ 0) →
  hangs (parse_xfer_event ev c) m
  ∧ ∀ fuel status len,
      hangs (complete_loop fuel c (event_dev_rp (tre_ring v) (MHI_TRE_GET_EV_PTR ev)) status len) m.
Proof.
  intros Hv Hst Hr Hcode Hoff. pose proof Hr as (_ & _ & (i & HL & _) & _).
  assert (Hloop : ∀ fuel status len, hangs
    (complete_loop fuel c (event_dev_rp (tre_ring v) (MHI_TRE_GET_EV_PTR ev)) status len) m).
  { intros fuel status len. eapply (complete_loop_hangs c n (tre_ring v)); [|done..]. by apply stray_rp. }
  split; [|done]. apply hangs_bind. eapply runs_exact; [unfold chan_at; by rewrite Hv|].
  cbv zeta. rewrite Hst. simpl negb. cbv iota. unfold transfer_code in Hcode. rewrite Hcode. apply Hloop.
Qed.

Lemma stray_event_never_ends_witness :
  let m := ex_mhi MHI_PM_M0 MHI_STATE_M0 [ex_chan 0 false false MHI_CH_STATE_ENABLED] in
  let r := tre_ring (ex_chan 0 false false MHI_CH_STATE_ENABLED) in
  hangs (parse_xfer_event (ex_transfer 0x80018 5) 0) m
  ∧ ∀ fuel status len, hangs (complete_loop fuel 0 (event_dev_rp r 0x80018) status len) m.
Proof.
  cbv zeta. apply (stray_event_never_ends _ 0 (ex_chan 0 false false MHI_CH_STATE_ENABLED)
    (ex_transfer 0x80018 5) 4); try done.
  split_and!; try done; [exists 0|exists 4, 0]; (split; [by eapply holds_layout, ex_holds|done]).
Defined.
