(* ===== verification/QmiDev.v ===== *)
(** * The GobiNet client layer: client memory, callbacks, reads and writes

    Model of [src/drivers/quectel-gobinet/src/QMIDevice.c], first half: the lists
    of a client (messages read, handlers to notify, URBs in flight), the callbacks
    of the URBs, and the synchronous and asynchronous reads and writes.

    The chained lists are lists.  A client's memory, a semaphore and an URB have an
    address; an access to one that is gone is [OutOfBounds].  [live] counts the
    objects that were allocated and not freed.  The lock is explicit: taking it
    twice is a deadlock ([OutOfFuel]), and searching a client without it the [BUG()]
    of the code ([OutOfBounds]).  What the kernel answers is in [env]: [kmallocs]
    says which allocations succeed (those beyond the list do), [rets] the results of
    the other calls (0 beyond the list), [waits] what happens during each wait; a
    wait beyond the list blocks for ever ([OutOfFuel]).  [trace] records the calls
    that leave the file, latest first. *)

From S2P Require Import Prelude Kernel GobiQmi.
From stdpp Require Import gmap.
Import Qmi.

#[local] Open Scope Z_scope.
#[local] Open Scope c_scope.

Definition EPERM : Z := 1.
Definition ENOENT : Z := 2.
Definition EINTR : Z := 4.
Definition ENXIO : Z := 6.
Definition EBADF : Z := 9.
Definition EEXIST : Z := 17.
Definition EBADR : Z := 53.
Definition EBADRQC : Z := 56.
Definition EOVERFLOW : Z := 75.
Definition ETOOMANYREFS : Z := 109.
Definition ETIMEDOUT : Z := 110.

Definition QMICTL : Z := 0.
Definition QMIWDS : Z := 1.
Definition QMIDMS : Z := 2.
Definition QMIWDA : Z := 0x1A.

Definition NO_NDIS_CONNECTION : Z := 0.
Definition CDC_CONNECTION_SPEED : Z := 1.
Definition DRIVER_SUSPENDED : Z := 2.

(** ** Data *)

Record sReadMemList := ReadMem {
  mpData : list Z; mTransactionID : Z; mDataSize : Z;
}.

(** The functions the driver registers for a notification. *)
Inductive handler := UpSem_handler | QMIWDSCallback_handler.

(** [notify_data] is the address of a semaphore, or 0. *)
Record sNotifyList := Notify {
  mpNotifyFunct : handler; notify_tid : Z; notify_data : Z;
}.

(** [mem_addr] is the address of the structure, [mWaitQueue] the number of
    sleepers in [poll]. *)
Record sClientMemList := ClientMem {
  mem_addr : Z;
  mClientID : Z;
  mpList : list sReadMemList;
  mpReadNotifyList : list sNotifyList;
  mpURBList : list Z;
  mWaitQueue : Z;
}.

(** [struct QuecSem] and the plain semaphores of [WriteSync]. *)
Record QuecSem := Sem { sem_count : Z; magic : Z }.
Definition QUEC_SEM_MAGIC : Z := 0x12345678.

(** A write URB: its status once it is complete, and its [context]. *)
Record urb := Urb { urb_status : option Z; urb_context : Z }.

(** What may happen while a thread waits. *)
Inductive event :=
| Write_complete (u status : Z)
| Read_complete (status : Z) (buf : list Z) (actual_length : Z)
| Int_complete (status : Z) (buf : list Z)
| Poll_done (clientID : Z)
| Cleaned_up (clientID : Z)
| Deregistering
| Unplugged.

Record qmi_env := QmiEnv {
  kmallocs : list bool; rets : list Z; waits : list (list event);
}.

(** The buffers of the read thread that are allocated. *)
Record read_thread := ReadThread {
  mpReadURB : bool; mpIntURB : bool; mpReadBuffer : bool; mpIntBuffer : bool;
  mpReadSetupPacket : bool;
}.
Definition no_read_thread : read_thread := ReadThread false false false false false.

(** The fields of the network device and of the USB device that the file reads. *)
Record gobi_net := GobiNet {
  mbMdm9x07 : bool; mbRawIPMode : bool; m_qcrmcall_mode : bool;
  qmap_mode : Z; qmap_version : Z; link_state : bool;
  udev_state : bool; bInterfaceNumber : Z;
  int_endpoint : bool;
  net_index : option Z;
  idVendor : Z; idProduct : Z;
}.

(** What leaves the file. *)
Inductive qmi_out :=
| Int_submit
| Read_submit
| Write_submit (u : Z) (index : Z) (bytes : list Z)
| Kill_urb (u : Z)
| Wake_poll (clientID : Z)
| Carrier (on : bool)
| Autopm_get
| Autopm_put
| Usbnet_suspend
| Usbnet_resume
| Set_control_line_state (value : Z)
| Kthread_run
| Device_freed
| Cdev_add
| Device_create (index : Z)
| Device_destroy.

(** [struct ul_agg_ctx]. *)
Record ul_agg_ctx := UlAgg {
  agg_max_datagrams : Z; agg_max_size : Z; agg_minimum_padding : Z;
}.

(** The fields of [sGobiUSBNet] that only the functions of [QmiClient] use;
    [files]: the client of each open file ([sQMIFilpStorage]), absent when its
    [private_data] is NULL. *)
Record gobi_data := GobiData {
  mMEID : list Z;
  qmap_settings : QMAP_SETTING;
  agg_ctx : ul_agg_ctx;
  rx_urb_size : Z;
  mbCdevIsInitialized : bool;
  mbQMIReady : bool;
  mbQMISyncIng : bool;
  refcount : Z;
  read_bufs : read_thread;
  files : gmap Z Z;
}.

Record qmi_dev := QmiDev {
  mbQMIValid : bool;
  mbDeregisterQMIDevice : bool;
  mpClientMemList : list sClientMemList;
  mClientMemLock : bool;
  mQMICTLTransactionID : Z;
  mDownReason : Z;
  net : gobi_net;
  data : gobi_data;
  sems : gmap Z QuecSem;
  urbs : gmap Z urb;
  next_addr : Z;
  live : Z;
  env : qmi_env;
  trace : list qmi_out;
}.

Definition qm : Type → Type := stm qmi_dev.

(** ** State access *)

Definition set_valid (x : bool) (s : qmi_dev) : qmi_dev :=
  QmiDev x (mbDeregisterQMIDevice s) (mpClientMemList s) (mClientMemLock s)
    (mQMICTLTransactionID s) (mDownReason s) (net s) (data s) (sems s) (urbs s)
    (next_addr s) (live s) (env s) (trace s).
Definition set_dereg (x : bool) (s : qmi_dev) : qmi_dev :=
  QmiDev (mbQMIValid s) x (mpClientMemList s) (mClientMemLock s)
    (mQMICTLTransactionID s) (mDownReason s) (net s) (data s) (sems s) (urbs s) (next_addr s) (live s)
    (env s) (trace s).
Definition set_clients (x : list sClientMemList) (s : qmi_dev) : qmi_dev :=
  QmiDev (mbQMIValid s) (mbDeregisterQMIDevice s) x (mClientMemLock s)
    (mQMICTLTransactionID s) (mDownReason s) (net s) (data s) (sems s) (urbs s)
    (next_addr s) (live s) (env s) (trace s).
Definition set_lock (x : bool) (s : qmi_dev) : qmi_dev :=
  QmiDev (mbQMIValid s) (mbDeregisterQMIDevice s) (mpClientMemList s) x
    (mQMICTLTransactionID s) (mDownReason s) (net s) (data s) (sems s) (urbs s)
    (next_addr s) (live s) (env s) (trace s).
Definition set_xid (x : Z) (s : qmi_dev) : qmi_dev :=
  QmiDev (mbQMIValid s) (mbDeregisterQMIDevice s) (mpClientMemList s)
    (mClientMemLock s) x (mDownReason s) (net s) (data s) (sems s) (urbs s) (next_addr s) (live s)
    (env s) (trace s).
Definition set_down (x : Z) (s : qmi_dev) : qmi_dev :=
  QmiDev (mbQMIValid s) (mbDeregisterQMIDevice s) (mpClientMemList s)
    (mClientMemLock s) (mQMICTLTransactionID s) x (net s) (data s) (sems s) (urbs s) (next_addr s)
    (live s) (env s) (trace s).
Definition set_data (x : gobi_data) (s : qmi_dev) : qmi_dev :=
  QmiDev (mbQMIValid s) (mbDeregisterQMIDevice s) (mpClientMemList s)
    (mClientMemLock s) (mQMICTLTransactionID s) (mDownReason s) (net s) x (sems s) (urbs s)
    (next_addr s) (live s) (env s) (trace s).
Definition set_sems (x : gmap Z QuecSem) (s : qmi_dev) : qmi_dev :=
  QmiDev (mbQMIValid s) (mbDeregisterQMIDevice s) (mpClientMemList s)
    (mClientMemLock s) (mQMICTLTransactionID s) (mDownReason s) (net s) (data s) x (urbs s)
    (next_addr s) (live s) (env s) (trace s).
Definition set_urbs (x : gmap Z urb) (s : qmi_dev) : qmi_dev :=
  QmiDev (mbQMIValid s) (mbDeregisterQMIDevice s) (mpClientMemList s)
    (mClientMemLock s) (mQMICTLTransactionID s) (mDownReason s) (net s) (data s) (sems s) x
    (next_addr s) (live s) (env s) (trace s).
Definition set_next (x : Z) (s : qmi_dev) : qmi_dev :=
  QmiDev (mbQMIValid s) (mbDeregisterQMIDevice s) (mpClientMemList s)
    (mClientMemLock s) (mQMICTLTransactionID s) (mDownReason s) (net s) (data s) (sems s) (urbs s) x
    (live s) (env s) (trace s).
Definition set_live (x : Z) (s : qmi_dev) : qmi_dev :=
  QmiDev (mbQMIValid s) (mbDeregisterQMIDevice s) (mpClientMemList s)
    (mClientMemLock s) (mQMICTLTransactionID s) (mDownReason s) (net s) (data s) (sems s) (urbs s)
    (next_addr s) x (env s) (trace s).
Definition set_env (x : qmi_env) (s : qmi_dev) : qmi_dev :=
  QmiDev (mbQMIValid s) (mbDeregisterQMIDevice s) (mpClientMemList s)
    (mClientMemLock s) (mQMICTLTransactionID s) (mDownReason s) (net s) (data s) (sems s) (urbs s)
    (next_addr s) (live s) x (trace s).
Definition set_trace (x : list qmi_out) (s : qmi_dev) : qmi_dev :=
  QmiDev (mbQMIValid s) (mbDeregisterQMIDevice s) (mpClientMemList s)
    (mClientMemLock s) (mQMICTLTransactionID s) (mDownReason s) (net s) (data s) (sems s) (urbs s)
    (next_addr s) (live s) (env s) x.

Definition set_meid (x : list Z) (d : gobi_data) : gobi_data :=
  GobiData x (qmap_settings d) (agg_ctx d) (rx_urb_size d) (mbCdevIsInitialized d)
    (mbQMIReady d) (mbQMISyncIng d) (refcount d) (read_bufs d) (files d).
Definition set_qmap_settings (x : QMAP_SETTING) (d : gobi_data) : gobi_data :=
  GobiData (mMEID d) x (agg_ctx d) (rx_urb_size d) (mbCdevIsInitialized d)
    (mbQMIReady d) (mbQMISyncIng d) (refcount d) (read_bufs d) (files d).
Definition set_agg (x : ul_agg_ctx) (d : gobi_data) : gobi_data :=
  GobiData (mMEID d) (qmap_settings d) x (rx_urb_size d) (mbCdevIsInitialized d)
    (mbQMIReady d) (mbQMISyncIng d) (refcount d) (read_bufs d) (files d).
Definition set_rx_urb_size (x : Z) (d : gobi_data) : gobi_data :=
  GobiData (mMEID d) (qmap_settings d) (agg_ctx d) x (mbCdevIsInitialized d)
    (mbQMIReady d) (mbQMISyncIng d) (refcount d) (read_bufs d) (files d).
Definition set_cdev (x : bool) (d : gobi_data) : gobi_data :=
  GobiData (mMEID d) (qmap_settings d) (agg_ctx d) (rx_urb_size d) x (mbQMIReady d)
    (mbQMISyncIng d) (refcount d) (read_bufs d) (files d).
Definition set_ready (x : bool) (d : gobi_data) : gobi_data :=
  GobiData (mMEID d) (qmap_settings d) (agg_ctx d) (rx_urb_size d)
    (mbCdevIsInitialized d) x (mbQMISyncIng d) (refcount d) (read_bufs d) (files d).
Definition set_syncing (x : bool) (d : gobi_data) : gobi_data :=
  GobiData (mMEID d) (qmap_settings d) (agg_ctx d) (rx_urb_size d)
    (mbCdevIsInitialized d) (mbQMIReady d) x (refcount d) (read_bufs d) (files d).
Definition set_refcount (x : Z) (d : gobi_data) : gobi_data :=
  GobiData (mMEID d) (qmap_settings d) (agg_ctx d) (rx_urb_size d)
    (mbCdevIsInitialized d) (mbQMIReady d) (mbQMISyncIng d) x (read_bufs d) (files d).
Definition set_bufs (x : read_thread) (d : gobi_data) : gobi_data :=
  GobiData (mMEID d) (qmap_settings d) (agg_ctx d) (rx_urb_size d)
    (mbCdevIsInitialized d) (mbQMIReady d) (mbQMISyncIng d) (refcount d) x (files d).
Definition set_files (x : gmap Z Z) (d : gobi_data) : gobi_data :=
  GobiData (mMEID d) (qmap_settings d) (agg_ctx d) (rx_urb_size d)
    (mbCdevIsInitialized d) (mbQMIReady d) (mbQMISyncIng d) (refcount d) (read_bufs d)
    x.
Definition modify_data (f : gobi_data → gobi_data) : qm () := modify (λ s, set_data (f (data s)) s).

Definition out (o : qmi_out) : qm () := modify (λ s, set_trace (o :: trace s) s).

(** [kmalloc] (and [usb_alloc_urb]): whether it succeeds; [kfree]. *)
Definition kmalloc : qm bool :=
  s ← get_state;
  match kmallocs (env s) with
  | [] => modify (set_live (live s + 1));; mret true
  | b :: l =>
    modify (set_env (QmiEnv l (rets (env s)) (waits (env s))));;
    if b : bool then modify (set_live (live s + 1));; mret true else mret false
  end.
Definition kfree : qm () := modify (λ s, set_live (live s - 1) s).

(** The result of a call of the kernel. *)
Definition ret_of_kernel : qm Z :=
  s ← get_state;
  match rets (env s) with
  | [] => mret 0
  | r :: l => modify (set_env (QmiEnv (kmallocs (env s)) l (waits (env s))));; mret r
  end.

Definition new_addr : qm Z :=
  s ← get_state; modify (set_next (next_addr s + 1));; mret (next_addr s).

Definition spin_lock : qm () :=
  s ← get_state; if mClientMemLock s then hang else modify (set_lock true).
Definition spin_unlock : qm () := modify (set_lock false).

(** [up(&sem)] and [sema_init] of the semaphore at an address. *)
Definition up (a : Z) : qm () :=
  s ← get_state;
  match sems s !! a with
  | Some q => modify (set_sems (<[a := Sem (sem_count q + 1) (magic q)]> (sems s)))
  | None => fault
  end.
Definition sema_new (m : Z) : qm Z :=
  a ← new_addr; modify (λ s, set_sems (<[a := Sem 0 m]> (sems s)) s);; mret a.
(** The semaphore leaves scope, or its memory is freed. *)
Definition sema_gone (a : Z) : qm () := modify (λ s, set_sems (delete a (sems s)) s).

(** ** The device and its carrier *)

Definition IsDeviceValid : qm bool := s ← get_state; mret (mbQMIValid s).

Definition set_bit (r x : Z) : Z := x |' Z.shiftl 1 r.
Definition clear_bit (r x : Z) : Z := Z.ldiff x (Z.shiftl 1 r).

(** [QUECTEL_WWAN_QMAP] is defined. *)
Definition GobiSetDownReason (reason : Z) : qm () :=
  if reason =? NO_NDIS_CONNECTION then mret () else
  modify (λ s, set_down (set_bit reason (mDownReason s)) s);; out (Carrier false).

Definition GobiClearDownReason (reason : Z) : qm () :=
  modify (λ s, set_down (clear_bit reason (mDownReason s)) s);;
  s ← get_state;
  if mDownReason s =? 0 then
    if negb (qmap_mode (net s) =? 0) && negb (link_state (net s)) then mret ()
    else out (Carrier true)
  else mret ().

Definition GobiTestDownReason (reason : Z) : qm bool :=
  s ← get_state; mret (Z.testbit (mDownReason s) reason).

(** [ResubmitIntURB(mpIntURB)]. *)
Definition ResubmitIntURB : qm Z :=
  s ← get_state;
  if negb (mpIntURB (read_bufs (data s))) then mret (- EINVAL) else
  r ← ret_of_kernel;
  (if r =? 0 then out Int_submit else mret ());; mret r.

(** ** The read thread *)

Inductive read_buf := Read_URB | Int_URB | Read_buffer | Int_buffer | Setup_packet.

Definition has_buf (b : read_buf) (t : read_thread) : bool :=
  match b with
  | Read_URB => mpReadURB t | Int_URB => mpIntURB t | Read_buffer => mpReadBuffer t
  | Int_buffer => mpIntBuffer t | Setup_packet => mpReadSetupPacket t
  end.
Definition put_buf (b : read_buf) (x : bool) (t : read_thread) : read_thread :=
  match b with
  | Read_URB => ReadThread x (mpIntURB t) (mpReadBuffer t) (mpIntBuffer t) (mpReadSetupPacket t)
  | Int_URB => ReadThread (mpReadURB t) x (mpReadBuffer t) (mpIntBuffer t) (mpReadSetupPacket t)
  | Read_buffer => ReadThread (mpReadURB t) (mpIntURB t) x (mpIntBuffer t) (mpReadSetupPacket t)
  | Int_buffer => ReadThread (mpReadURB t) (mpIntURB t) (mpReadBuffer t) x (mpReadSetupPacket t)
  | Setup_packet => ReadThread (mpReadURB t) (mpIntURB t) (mpReadBuffer t) (mpIntBuffer t) x
  end.

(** [p = kmalloc(...)]; [kfree(p); p = NULL], which does nothing for NULL. *)
Definition alloc_buf (b : read_buf) : qm bool :=
  ok ← kmalloc; modify_data (λ d, set_bufs (put_buf b ok (read_bufs d)) d);; mret ok.
Definition free_buf (b : read_buf) : qm () :=
  s ← get_state;
  (if has_buf b (read_bufs (data s)) then kfree else mret ());;
  modify_data (λ d, set_bufs (put_buf b false (read_bufs d)) d).

Fixpoint free_bufs (l : list read_buf) : qm () :=
  match l with [] => mret () | b :: l => free_buf b;; free_bufs l end.

(** Allocate the next buffer; on failure free those that the code lists. *)
Definition StartRead : qm Z :=
  valid ← IsDeviceValid;
  if negb valid then mret (- ENXIO) else
  ok ← alloc_buf Read_URB;
  if negb ok then mret (- ENOMEM) else
  ok ← alloc_buf Int_URB;
  if negb ok then free_bufs [Read_URB];; mret (- ENOMEM) else
  ok ← alloc_buf Read_buffer;
  if negb ok then free_bufs [Int_URB; Read_URB];; mret (- ENOMEM) else
  ok ← alloc_buf Int_buffer;
  if negb ok then free_bufs [Read_buffer; Int_URB; Read_URB];; mret (- ENOMEM) else
  ok ← alloc_buf Setup_packet;
  if negb ok then free_bufs [Int_buffer; Read_buffer; Int_URB; Read_URB];; mret (- ENOMEM) else
  s ← get_state;
  if negb (int_endpoint (net s)) then
    free_bufs [Setup_packet; Int_buffer; Read_buffer; Int_URB; Read_URB];; mret (- ENXIO)
  else
  r ← ret_of_kernel;
  (if r =? 0 then out Int_submit else mret ());; mret r.

(** The URBs are killed first: their callbacks do not run any more. *)
Definition KillRead : qm () :=
  free_bufs [Setup_packet; Read_buffer; Int_buffer; Read_URB; Int_URB].

(** ** Suspend and resume ([GobiUSBNet.c]) *)

Definition PM_EVENT_ON : Z := 0.
Definition PM_EVENT_SUSPEND : Z := 2.
Definition PM_EVENT_AUTO : Z := 0x0400.

Definition GobiNetSuspend (powerEvent : Z) : qm Z :=
  s ← get_state;
  if mbQMISyncIng (data s) then mret (- EBUSY) else
  (if (powerEvent &' PM_EVENT_AUTO) =? 0 then GobiSetDownReason DRIVER_SUSPENDED else mret ());;
  (if negb ((powerEvent &' PM_EVENT_SUSPEND) =? 0)
   then (if m_qcrmcall_mode (net s) then mret () else KillRead) else mret ());;
  out Usbnet_suspend;; ret_of_kernel.

(** ** Client memory *)

Definition set_mpList l (m : sClientMemList) : sClientMemList :=
  ClientMem (mem_addr m) (mClientID m) l (mpReadNotifyList m) (mpURBList m) (mWaitQueue m).
Definition set_notify l (m : sClientMemList) : sClientMemList :=
  ClientMem (mem_addr m) (mClientID m) (mpList m) l (mpURBList m) (mWaitQueue m).
Definition set_urblist l (m : sClientMemList) : sClientMemList :=
  ClientMem (mem_addr m) (mClientID m) (mpList m) (mpReadNotifyList m) l (mWaitQueue m).
Definition set_waitq n (m : sClientMemList) : sClientMemList :=
  ClientMem (mem_addr m) (mClientID m) (mpList m) (mpReadNotifyList m) (mpURBList m) n.

(** A store through a pointer to a client's memory. *)
Definition upd_mem (a : Z) (f : sClientMemList → sClientMemList)
    (l : list sClientMemList) : list sClientMemList :=
  map (λ m, if mem_addr m =? a then f m else m) l.
Definition update (a : Z) (f : sClientMemList → sClientMemList) : qm () :=
  modify (λ s, set_clients (upd_mem a f (mpClientMemList s)) s).

Fixpoint find_client (clientID : Z) (l : list sClientMemList) : option sClientMemList :=
  match l with
  | [] => None
  | m :: l => if mClientID m =? clientID then Some m else find_client clientID l
  end.

Definition FindClientMem (clientID : Z) : qm (option sClientMemList) :=
  valid ← IsDeviceValid;
  if negb valid then mret None else
  s ← get_state;
  if negb (mClientMemLock s) then fault else
  mret (find_client clientID (mpClientMemList s)).

(** The first element that satisfies [p], and the list without it. *)
Fixpoint pop_first {A} (p : A → bool) (l : list A) : option (A * list A) :=
  match l with
  | [] => None
  | x :: l =>
    if p x then Some (x, l)
    else match pop_first p l with Some (y, l') => Some (y, x :: l') | None => None end
  end.

Definition AddToReadMemList (clientID transactionID : Z) (pData : list Z) (dataSize : Z)
  : qm bool :=
  pClientMem ← FindClientMem clientID;
  match pClientMem with
  | None => mret false
  | Some m =>
    ok ← kmalloc;
    if negb ok then mret false else
    update (mem_addr m) (λ m, set_mpList (mpList m ++ [ReadMem pData transactionID dataSize]) m);;
    mret true
  end.

Definition read_matches (transactionID : Z) (r : sReadMemList) : bool :=
  (transactionID =? 0) || (transactionID =? mTransactionID r).

Definition PopFromReadMemList (clientID transactionID : Z) : qm (option (list Z * Z)) :=
  pClientMem ← FindClientMem clientID;
  match pClientMem with
  | None => mret None
  | Some m =>
    match pop_first (read_matches transactionID) (mpList m) with
    | Some (r, l) =>
      update (mem_addr m) (set_mpList l);; kfree;; mret (Some (mpData r, mDataSize r))
    | None => mret None
    end
  end.

Definition AddToNotifyList (clientID transactionID : Z) (f : handler) (pData : Z) : qm bool :=
  pClientMem ← FindClientMem clientID;
  match pClientMem with
  | None => mret false
  | Some m =>
    ok ← kmalloc;
    if negb ok then mret false else
    update (mem_addr m) (λ m,
      set_notify (mpReadNotifyList m ++ [Notify f transactionID pData]) m);;
    mret true
  end.

Definition AddToURBList (clientID pURB : Z) : qm bool :=
  pClientMem ← FindClientMem clientID;
  match pClientMem with
  | None => mret false
  | Some m =>
    ok ← kmalloc;
    if negb ok then mret false else
    update (mem_addr m) (λ m, set_urblist (mpURBList m ++ [pURB]) m);; mret true
  end.

Definition PopFromURBList (clientID : Z) : qm (option Z) :=
  pClientMem ← FindClientMem clientID;
  match pClientMem with
  | None => mret None
  | Some m =>
    match mpURBList m with
    | [] => mret None
    | u :: l => update (mem_addr m) (set_urblist l);; kfree;; mret (Some u)
    end
  end.

(** ** Notification *)

Definition UpSem (clientID pData : Z) : qm () :=
  s ← get_state;
  match sems s !! pData with
  | None => fault
  | Some q => if magic q =? QUEC_SEM_MAGIC then up pData else sema_gone pData;; kfree
  end.

(** The callbacks call [ReadAsync], which may call them: [call] runs a callback. *)
Definition ReadAsync_with (call : handler → Z → Z → qm ())
    (clientID transactionID : Z) (pCallback : handler) (pData : Z) : qm Z :=
  valid ← IsDeviceValid;
  if negb valid then mret (- ENXIO) else
  spin_lock;;
  pClientMem ← FindClientMem clientID;
  match pClientMem with
  | None => spin_unlock;; mret (- ENXIO)
  | Some m =>
    if existsb (read_matches transactionID) (mpList m)
    then spin_unlock;; call pCallback clientID pData;; mret 0
    else AddToNotifyList clientID transactionID pCallback pData;; spin_unlock;; mret 0
  end.

(** The locals of [QMIWDSCallback] that it passes to [QMIWDSEventResp]. *)
Definition wds_locals (bLinkState : bool) : wds_event :=
  WdsEvent (replicate 4 255) (replicate 4 255) (replicate 4 255) (replicate 4 255)
    (replicate 4 255) (replicate 4 255) (replicate 8 255) (replicate 8 255) bLinkState false.

Definition wds_link (e : wds_event) : qm () :=
  if pbReconfigure e then
    GobiSetDownReason NO_NDIS_CONNECTION;; GobiClearDownReason NO_NDIS_CONNECTION
  else
    down ← GobiTestDownReason NO_NDIS_CONNECTION;
    if pbLinkState e then
      if down : bool then GobiClearDownReason NO_NDIS_CONNECTION else mret ()
    else
      if down : bool then mret () else GobiSetDownReason NO_NDIS_CONNECTION.

Definition QMIWDSCallback_with (read_async : Z → Z → handler → Z → qm Z)
    (clientID pData : Z) : qm () :=
  valid ← IsDeviceValid;
  if negb valid then mret () else
  spin_lock;;
  bRet ← PopFromReadMemList clientID 0;
  spin_unlock;;
  match bRet with
  | None => mret ()
  | Some (pReadBuffer, readBufferSize) =>
    down ← GobiTestDownReason NO_NDIS_CONNECTION;
    '(result, e) ← lift (QMIWDSEventResp (Some pReadBuffer) readBufferSize
                           (Some (wds_locals (negb down))));
    (if result <? 0 then mret ()
     else match e with Some e => wds_link e | None => mret () end);;
    kfree;;
    ignore (read_async clientID 0 QMIWDSCallback_handler pData)
  end.

(** A callback runs itself again while messages are left: [fuel] bounds the
    recursion. *)
Fixpoint run_handler (fuel : nat) (f : handler) (clientID pData : Z) : qm () :=
  match f with
  | UpSem_handler => UpSem clientID pData
  | QMIWDSCallback_handler =>
    match fuel with
    | O => hang
    | S fuel => QMIWDSCallback_with (ReadAsync_with (run_handler fuel)) clientID pData
    end
  end.

(** One turn per message stored, and one that finds none. *)
Definition callback_fuel (s : qmi_dev) : nat :=
  S (length (mjoin (mpList <$> mpClientMemList s))).
Definition call_handler (f : handler) (clientID pData : Z) : qm () := λ s,
  run_handler (callback_fuel s) f clientID pData s.

Definition ReadAsync : Z → Z → handler → Z → qm Z := ReadAsync_with call_handler.
Definition QMIWDSCallback : Z → Z → qm () := QMIWDSCallback_with ReadAsync.

Definition notify_matches (transactionID : Z) (n : sNotifyList) : bool :=
  (transactionID =? 0) || (notify_tid n =? 0) || (transactionID =? notify_tid n).

Definition NotifyAndPopNotifyList (clientID transactionID : Z) : qm bool :=
  pClientMem ← FindClientMem clientID;
  match pClientMem with
  | None => mret false
  | Some m =>
    match pop_first (notify_matches transactionID) (mpReadNotifyList m) with
    | Some (n, l) =>
      update (mem_addr m) (set_notify l);;
      spin_unlock;; call_handler (mpNotifyFunct n) clientID (notify_data n);; spin_lock;;
      kfree;; mret true
    | None => mret false
    end
  end.

(** ** Callbacks of the URBs *)

(** The loop of [ReadCallback] over the clients, to the end of the critical
    section. *)
Fixpoint dispatch (clientID transactionID : Z) (pData : list Z) (dataSize : Z)
    (clients : list sClientMemList) : qm () :=
  match clients with
  | [] => mret ()
  | m :: rest =>
    if (mClientID m =? clientID) || (mClientID m |' 0xff00 =? clientID) then
      ok ← kmalloc;
      if negb ok then mret () else
      pDataCopy ← lift (get_bytes pData 0 dataSize);
      added ← AddToReadMemList (mClientID m) transactionID pDataCopy dataSize;
      if negb added then kfree else
      NotifyAndPopNotifyList (mClientID m) transactionID;;
      out (Wake_poll (mClientID m));;
      if negb (Z.shiftr clientID 8 =? 0xff) then mret ()
      else dispatch clientID transactionID pData dataSize rest
    else dispatch clientID transactionID pData dataSize rest
  end.

(** The transaction ID: 1 byte for QMICTL, 2 for the others. *)
Definition transaction_of (pData : list Z) (clientID result : Z) : outcome Z :=
  if clientID =? QMICTL then get8 pData (result + 1) else get_le16 pData (result + 1).

Definition ReadCallback (status : Z) (transfer_buffer : list Z) (actual_length : Z) : qm () :=
  valid ← IsDeviceValid;
  if negb valid then mret () else
  if negb (status =? 0) then ignore ResubmitIntURB else
  let dataSize := u16 actual_length in
  '(result, clientID) ← lift (ParseQMUX (Some transfer_buffer) dataSize);
  if result <? 0 then ignore ResubmitIntURB else
  let clientID := default 0 clientID in
  if dataSize <? result + 3 then ignore ResubmitIntURB else
  transactionID ← lift (transaction_of transfer_buffer clientID result);
  spin_lock;;
  s ← get_state;
  dispatch clientID transactionID transfer_buffer dataSize (mpClientMemList s);;
  spin_unlock;; ignore ResubmitIntURB.

Definition USB_CDC_NOTIFY_RESPONSE_AVAILABLE : Z := 0x01.
Definition USB_CDC_NOTIFY_SPEED_CHANGE : Z := 0x2a.

Definition IntCallback (status : Z) (transfer_buffer : list Z) : qm () :=
  valid ← IsDeviceValid;
  if negb valid then mret () else
  if negb (status =? 0) then
    if negb (status =? - EOVERFLOW) then mret () else mret ()
  else
  bNotificationType ← lift (get8 transfer_buffer 1);
  if bNotificationType =? USB_CDC_NOTIFY_RESPONSE_AVAILABLE then
    status ← ret_of_kernel;
    if negb (status =? 0) then ignore ResubmitIntURB else out Read_submit
  else
    (if bNotificationType =? USB_CDC_NOTIFY_SPEED_CHANGE then
       up ← lift (get_bytes transfer_buffer 8 4);
       down ← lift (get_bytes transfer_buffer 12 4);
       if (le_val up =? 0) || (le_val down =? 0)
       then GobiSetDownReason CDC_CONNECTION_SPEED
       else GobiClearDownReason CDC_CONNECTION_SPEED
     else mret ());;
    ignore ResubmitIntURB.

(** An URB completes with a status: [WriteSyncCallback]. *)
Definition WriteSyncCallback (u status : Z) : qm () :=
  s ← get_state;
  match urbs s !! u with
  | None => fault
  | Some b =>
    match urb_status b with
    | Some _ => mret ()
    | None =>
      modify (set_urbs (<[u := Urb (Some status) (urb_context b)]> (urbs s)));;
      up (urb_context b)
    end
  end.

(** [usb_kill_urb] completes an URB in flight; [usb_free_urb]. *)
Definition usb_kill_urb (u : Z) : qm () := out (Kill_urb u);; WriteSyncCallback u (- ENOENT).
Definition usb_free_urb (u : Z) : qm () :=
  modify (λ s, set_urbs (delete u (urbs s)) s);; kfree.

(** ** Waits *)

(** [n] turns at most of [while (body)]. *)
Fixpoint while_true (fuel : nat) (body : qm bool) : qm () :=
  match fuel with
  | O => hang
  | S fuel => more ← body; if more : bool then while_true fuel body else mret ()
  end.

(** The lists of the client with this ID; none when it is gone. *)
Definition client_of (s : qmi_dev) (clientID : Z) : sClientMemList :=
  default (ClientMem 0 clientID [] [] [] 0) (find_client clientID (mpClientMemList s)).

(** One turn of the loops of [ReleaseClientID]; each consumes an element, except
    the last. *)
Definition release_urb (clientID : Z) : qm bool :=
  pDelURB ← PopFromURBList clientID;
  match pDelURB with
  | Some u => spin_unlock;; usb_kill_urb u;; usb_free_urb u;; spin_lock;; mret true
  | None => mret false
  end.
Definition release_read (clientID transactionID : Z) : qm bool :=
  pDelData ← PopFromReadMemList clientID transactionID;
  match pDelData with Some _ => kfree;; mret true | None => mret false end.

Definition notify_fuel (m : sClientMemList) : nat :=
  S (length (mpReadNotifyList m) + length (mpList m)).

Definition release_one (m : sClientMemList) : qm () :=
  let clientID := mClientID m in
  s ← get_state;
  while_true (notify_fuel (client_of s clientID)) (NotifyAndPopNotifyList clientID 0);;
  s ← get_state;
  while_true (S (length (mpURBList (client_of s clientID)))) (release_urb clientID);;
  s ← get_state;
  while_true (S (length (mpList (client_of s clientID)))) (release_read clientID 0);;
  s ← get_state;
  (if mWaitQueue (client_of s clientID) =? 0 then kfree else mret ());;
  modify (λ s, set_clients
    (List.filter (λ m', negb (mem_addr m' =? mem_addr m)) (mpClientMemList s)) s).

Fixpoint release_loop (clientID : Z) (clients : list sClientMemList) : qm () :=
  match clients with
  | [] => mret ()
  | m :: rest =>
    (if mClientID m =? clientID then release_one m else mret ());; release_loop clientID rest
  end.

(** The second half of [ReleaseClientID]: "Cleaning up client memory". *)
Definition ReleaseClientID_cleanup (clientID : Z) : qm () :=
  spin_lock;;
  s ← get_state;
  release_loop clientID (mpClientMemList s);;
  spin_unlock.

Definition run_event (e : event) : qm () :=
  match e with
  | Write_complete u status => WriteSyncCallback u status
  | Read_complete status buf actual_length => ReadCallback status buf actual_length
  | Int_complete status buf => IntCallback status buf
  | Poll_done clientID =>
    s ← get_state;
    match find_client clientID (mpClientMemList s) with
    | Some m => update (mem_addr m) (λ m, set_waitq (mWaitQueue m - 1) m)
    | None => fault
    end
  | Cleaned_up clientID => ReleaseClientID_cleanup clientID
  | Deregistering => modify (set_dereg true)
  | Unplugged => modify (set_valid false)
  end.

Fixpoint run_events (l : list event) : qm () :=
  match l with [] => mret () | e :: l => run_event e;; run_events l end.

(** The other contexts run for a while. *)
Definition others_run : qm () :=
  s ← get_state;
  match waits (env s) with
  | [] => hang
  | l :: rest =>
    modify (set_env (QmiEnv (kmallocs (env s)) (rets (env s)) rest));; run_events l
  end.

(** Decrement the semaphore when it is positive. *)
Definition down_trylock (a : Z) : qm bool :=
  s ← get_state;
  match sems s !! a with
  | None => fault
  | Some q =>
    if 0 <? sem_count q
    then modify (set_sems (<[a := Sem (sem_count q - 1) (magic q)]> (sems s)));; mret true
    else mret false
  end.

(** A wait that something other than [up] ends, with result [gave_up]. *)
Definition down_wait (gave_up : Z) (a : Z) : qm Z :=
  got ← down_trylock a;
  if got : bool then mret 0 else
  others_run;;
  got ← down_trylock a;
  mret (if got : bool then 0 else gave_up).

Definition down_interruptible : Z → qm Z := down_wait (- EINTR).
Definition down_timeout : Z → qm Z := down_wait (- ETIME).

(** The wait of [ReadSync] and [WriteSync]. *)
Definition down_patiently (a : Z) : qm Z :=
  result ← down_interruptible a;
  if result =? - EINTR then down_timeout a else mret result.

(** ** Synchronous reads and writes *)

(** The removal of the entry of a semaphore, through the pointer found before the
    wait. *)
Definition remove_notify (pClientMem readSem : Z) : qm () :=
  s ← get_state;
  match List.find (λ m, mem_addr m =? pClientMem) (mpClientMemList s) with
  | None => fault
  | Some m =>
    match pop_first (λ n, notify_data n =? readSem) (mpReadNotifyList m) with
    | Some (_, l) => update pClientMem (set_notify l);; kfree
    | None => mret ()
    end
  end.

(** One turn of the loop, to the end of the critical section. *)
Inductive read_try :=
| Read_got (dataSize : Z) (pData : list Z)
| Read_wait
| Read_failed.

Definition ReadSync_try (clientID transactionID readSem : Z) : qm read_try :=
  data ← PopFromReadMemList clientID transactionID;
  match data with
  | Some (pData, dataSize) => spin_unlock;; mret (Read_got dataSize pData)
  | None =>
    modify (λ s, set_sems (<[readSem := Sem 0 QUEC_SEM_MAGIC]> (sems s)) s);;
    added ← AddToNotifyList clientID transactionID UpSem_handler readSem;
    spin_unlock;; mret (if added : bool then Read_wait else Read_failed)
  end.

Fixpoint ReadSync_loop (fuel : nat) (pClientMem clientID transactionID readSem : Z)
  : qm (Z * option (list Z)) :=
  try ← ReadSync_try clientID transactionID readSem;
  match try with
  | Read_got dataSize pData => mret (dataSize, Some pData)
  | Read_failed => mret (- EFAULT, None)
  | Read_wait =>
    result ← down_patiently readSem;
    if negb (result =? 0) then
      spin_lock;; remove_notify pClientMem readSem;; spin_unlock;; mret (- EINTR, None)
    else
    valid ← IsDeviceValid;
    if negb valid then mret (- ENXIO, None) else
    spin_lock;;
    match fuel with
    | O => hang
    | S fuel => ReadSync_loop fuel pClientMem clientID transactionID readSem
    end
  end.

(** The result and [*ppOutBuffer].  Every turn of the loop waits. *)
Definition ReadSync (clientID transactionID : Z) : qm (Z * option (list Z)) :=
  valid ← IsDeviceValid;
  if negb valid then mret (- ENXIO, None) else
  spin_lock;;
  pClientMem ← FindClientMem clientID;
  match pClientMem with
  | None => spin_unlock;; mret (- ENXIO, None)
  | Some m =>
    readSem ← sema_new 0;
    s ← get_state;
    r ← ReadSync_loop (S (length (waits (env s)))) (mem_addr m) clientID transactionID readSem;
    sema_gone readSem;; mret r
  end.

(** The setup packet is freed with the URB, on the paths that free it. *)
Definition free_write (pWriteURB : Z) : qm () := usb_free_urb pWriteURB;; kfree.

(** After the wait: the device is released, the URB taken back and freed. *)
Definition WriteSync_finish (clientID pWriteURB result writeBufferSize : Z) : qm Z :=
  out Autopm_put;;
  valid ← IsDeviceValid;
  if negb valid then usb_kill_urb pWriteURB;; mret (- ENXIO) else
  spin_lock;;
  popped ← PopFromURBList clientID;
  if negb (bool_decide (popped = Some pWriteURB)) then
    spin_unlock;; usb_kill_urb pWriteURB;; mret (- EINVAL)
  else
  spin_unlock;;
  result ← (if result =? 0 then
              s ← get_state;
              match urbs s !! pWriteURB with
              | Some b => let status := default 0 (urb_status b) in
                          mret (if status =? 0 then writeBufferSize else status)
              | None => fault
              end
            else usb_kill_urb pWriteURB;; mret result);
  free_write pWriteURB;; mret result.

(** From the registration of the URB on; [writeSem] is its context. *)
Definition WriteSync_submit (clientID pWriteURB writeSem writeBufferSize : Z)
    (pWriteBuffer : list Z) : qm Z :=
  spin_lock;;
  added ← AddToURBList clientID pWriteURB;
  if negb added then
    free_write pWriteURB;; spin_unlock;; out Autopm_put;; mret (- EINVAL)
  else
  spin_unlock;;
  s ← get_state;
  result ← ret_of_kernel;
  spin_lock;;
  if result <? 0 then
    popped ← PopFromURBList clientID;
    (if negb (bool_decide (popped = Some pWriteURB)) then mret () else free_write pWriteURB);;
    spin_unlock;; out Autopm_put;; mret result
  else
  out (Write_submit pWriteURB (bInterfaceNumber (net s)) pWriteBuffer);;
  spin_unlock;;
  result ← down_patiently writeSem;
  WriteSync_finish clientID pWriteURB result writeBufferSize.

Definition WriteSync (pWriteBuffer : list Z) (writeBufferSize clientID : Z) : qm Z :=
  valid ← IsDeviceValid;
  if negb valid then mret (- ENXIO) else
  ok ← kmalloc;
  if negb ok then mret (- ENOMEM) else
  pWriteURB ← new_addr;
  '(result, buf) ← lift (FillQMUX clientID (Some pWriteBuffer) (u16 writeBufferSize));
  if result <? 0 then usb_free_urb pWriteURB;; mret result else
  ok ← kmalloc;
  if negb ok then fault else
  writeSem ← sema_new 0;
  modify (λ s, set_urbs (<[pWriteURB := Urb None writeSem]> (urbs s)) s);;
  out Autopm_get;;
  result ← ret_of_kernel;
  r ← (if result <? 0 then
         (if result =? - EPERM then ignore (GobiNetSuspend PM_EVENT_SUSPEND) else mret ());;
         free_write pWriteURB;; mret result
       else WriteSync_submit clientID pWriteURB writeSem writeBufferSize
              (default [] buf));
  sema_gone writeSem;; mret r.
