(* ===== verification/QmiClient.v ===== *)
(** * The GobiNet client layer: clients, start-up and the character device

    Model of [src/drivers/quectel-gobinet/src/QMIDevice.c], second half: the
    requests the driver makes itself (client IDs, readiness, synchronisation, data
    format, link status, MEID), registration and removal of the device, and the
    file operations. *)

From S2P Require Import Prelude Kernel GobiQmi QmiDev.
From stdpp Require Import gmap.
Import Qmi.

#[local] Open Scope Z_scope.
#[local] Open Scope c_scope.

(** Memory fresh from [kmalloc]: its bytes are unspecified; every byte of a
    request is written before it is sent. *)
Definition uninit (size : Z) : list Z := replicate (Z.to_nat size) 0.

(** ** Requests *)

Definition QMIXactionIDGet : qm Z :=
  let next := (modify (λ s, set_xid (s32 (mQMICTLTransactionID s + 1)) s);;
               s ← get_state; mret (u8 (mQMICTLTransactionID s))) in
  transactionID ← next;
  transactionID ← (if transactionID =? 0 then next else mret transactionID);
  (if negb (transactionID =? 0) then
     spin_lock;;
     s ← get_state;
     while_true (S (length (mpList (client_of s QMICTL)))) (release_read QMICTL transactionID);;
     spin_unlock
   else mret ());;
  mret transactionID.

(** Fill a request of [size] bytes, write it for [clientID] and free it. *)
Definition send_request (size clientID : Z) (fill : list Z → qm (Z * option (list Z)))
  : qm Z :=
  ok ← kmalloc;
  if negb ok then mret (- ENOMEM) else
  '(result, buf) ← fill (uninit size);
  if result <? 0 then kfree;; mret result else
  result ← WriteSync (default [] buf) size clientID;
  kfree;; mret result.

(** The message exchange of [GetClientID]: the result and the client ID. *)
Definition GetClientID_request (serviceType : Z) : qm (Z * Z) :=
  ok ← kmalloc;
  if negb ok then mret (- ENOMEM, 0) else
  let writeBufferSize := QMICTLGetClientIDReqSize in
  transactionID ← QMIXactionIDGet;
  '(result, buf) ← lift (QMICTLGetClientIDReq (Some (uninit writeBufferSize)) writeBufferSize
                           transactionID serviceType);
  if result <? 0 then kfree;; mret (result, 0) else
  result ← WriteSync (default [] buf) writeBufferSize QMICTL;
  kfree;;
  if result <? 0 then mret (result, 0) else
  '(result, pReadBuffer) ← ReadSync QMICTL transactionID;
  if result <? 0 then mret (result, 0) else
  '(result, clientID) ← lift (QMICTLGetClientIDResp pReadBuffer (u16 result) [0; 0]);
  kfree;; mret (result, le_val clientID).

Definition GetClientID (serviceType : Z) : qm Z :=
  valid ← IsDeviceValid;
  if negb valid then mret (- ENXIO) else
  '(result, clientID) ← (if negb (serviceType =? 0) then GetClientID_request serviceType
                         else mret (0, 0));
  if result <? 0 then mret result else
  spin_lock;;
  m ← FindClientMem clientID;
  match m with
  | Some _ => spin_unlock;; mret (- ETOOMANYREFS)
  | None =>
    ok ← kmalloc;
    if negb ok then spin_unlock;; mret (- ENOMEM) else
    a ← new_addr;
    modify (λ s, set_clients (mpClientMemList s ++ [ClientMem a clientID [] [] [] 0]) s);;
    spin_unlock;; mret clientID
  end.

(** Errors of the exchange are not fatal. *)
Definition ReleaseClientID_request (clientID : Z) : qm () :=
  ok ← kmalloc;
  if negb ok then mret () else
  let writeBufferSize := QMICTLReleaseClientIDReqSize in
  transactionID ← QMIXactionIDGet;
  '(result, buf) ← lift (QMICTLReleaseClientIDReq (Some (uninit writeBufferSize))
                           writeBufferSize transactionID clientID);
  if result <? 0 then kfree else
  result ← WriteSync (default [] buf) writeBufferSize QMICTL;
  kfree;;
  if result <? 0 then mret () else
  '(result, pReadBuffer) ← ReadSync QMICTL transactionID;
  if result <? 0 then mret () else
  ignore (lift (QMICTLReleaseClientIDResp pReadBuffer (u16 result)));; kfree.

Definition ReleaseClientID (clientID : Z) : qm () :=
  valid ← IsDeviceValid;
  if negb valid then mret () else
  s ← get_state;
  (if negb (clientID =? QMICTL) && udev_state (net s)
   then ReleaseClientID_request clientID else mret ());;
  ReleaseClientID_cleanup clientID.

Definition QMICTLSyncProc : qm Z :=
  valid ← IsDeviceValid;
  if negb valid then mret (- EFAULT) else
  ok ← kmalloc;
  if negb ok then mret (- ENOMEM) else
  let writeBufferSize := QMICTLSyncReqSize in
  transactionID ← QMIXactionIDGet;
  '(result, buf) ← lift (QMICTLSyncReq (Some (uninit writeBufferSize)) writeBufferSize
                           transactionID);
  if result <? 0 then kfree;; mret result else
  result ← WriteSync (default [] buf) writeBufferSize QMICTL;
  if result <? 0 then kfree;; mret result else
  '(result, pReadBuffer) ← ReadSync QMICTL transactionID;
  if result <? 0 then mret result else
  result ← lift (QMICTLSyncResp pReadBuffer (u16 result));
  kfree;;
  if result <? 0 then mret result else
  spin_lock;;
  s ← get_state;
  while_true (S (length (mpList (client_of s QMICTL)))) (release_read QMICTL 0);;
  spin_unlock;; mret 0.

(** One turn of the loop of [QMIReady]: [Some] ends the function or the loop. *)
Inductive ready_turn := Ready_again | Ready_break | Ready_return.

Definition QMIReady_turn (interval : Z) : qm ready_turn :=
  ok ← kmalloc;
  if negb ok then fault else
  readSem ← sema_new QUEC_SEM_MAGIC;
  transactionID ← QMIXactionIDGet;
  result ← ReadAsync QMICTL transactionID UpSem_handler readSem;
  if negb (result =? 0) then mret Ready_return else
  '(result, buf) ← lift (QMICTLReadyReq (Some (uninit QMICTLReadyReqSize)) QMICTLReadyReqSize
                           transactionID);
  if result <? 0 then mret Ready_return else
  result ← WriteSync (default [] buf) QMICTLReadyReqSize QMICTL;
  if result <? 0 then mret Ready_return else
  result ← down_timeout readSem;
  turn ← (if result =? 0 then
            sema_gone readSem;; kfree;;
            spin_lock;;
            data ← PopFromReadMemList QMICTL transactionID;
            spin_unlock;;
            match data with
            | Some _ => kfree;; mret Ready_break
            | None => mret Ready_again
            end
          else
            s ← get_state;
            match sems s !! readSem with
            | None => fault
            | Some q =>
              modify (set_sems (<[readSem := Sem (sem_count q) 0]> (sems s)));;
              spin_lock;;
              ignore (NotifyAndPopNotifyList QMICTL transactionID);;
              spin_unlock;; mret Ready_again
            end);
  match turn with
  | Ready_again =>
    s ← get_state; mret (if mbDeregisterQMIDevice s then Ready_return else Ready_again)
  | t => mret t
  end.

(** [curTime] is a [u16]. *)
Fixpoint QMIReady_loop (fuel : nat) (curTime timeout interval : Z) : qm bool :=
  match fuel with
  | O => hang
  | S fuel =>
    if negb (curTime <? timeout) then mret false else
    turn ← QMIReady_turn interval;
    match turn with
    | Ready_again => QMIReady_loop fuel (u16 (curTime + interval)) timeout interval
    | Ready_break => mret true
    | Ready_return => mret false
    end
  end.

Definition QMIReady (timeout : Z) : qm bool :=
  valid ← IsDeviceValid;
  if negb valid then mret false else
  ok ← kmalloc;
  if negb ok then mret false else
  let interval := 2000 in
  ready ← QMIReady_loop (S (Z.to_nat (timeout / interval + 1))) 0 timeout interval;
  kfree;; mret ready.

Definition usb_control_msg (value : Z) : qm Z :=
  out (Set_control_line_state value);; ret_of_kernel.
Definition CONTROL_DTR : Z := 1.

Definition SetupQMIWDSCallback : qm Z :=
  valid ← IsDeviceValid;
  if negb valid then mret (- EFAULT) else
  result ← GetClientID QMIWDS;
  if result <? 0 then mret result else
  let WDSClientID := result in
  result ← send_request QMIWDSSetEventReportReqSize WDSClientID (λ b,
             lift (QMIWDSSetEventReportReq (Some b) QMIWDSSetEventReportReqSize 1));
  if result <? 0 then mret result else
  result ← send_request QMIWDSGetPKGSRVCStatusReqSize WDSClientID (λ b,
             lift (QMIWDSGetPKGSRVCStatusReq (Some b) QMIWDSGetPKGSRVCStatusReqSize 2));
  if result <? 0 then mret result else
  result ← ReadAsync WDSClientID 0 QMIWDSCallback_handler 0;
  if negb (result =? 0) then mret result else
  result ← usb_control_msg CONTROL_DTR;
  mret (if result <? 0 then result else 0).

Definition QMIDMSGetMEID : qm Z :=
  valid ← IsDeviceValid;
  if negb valid then mret (- EFAULT) else
  result ← GetClientID QMIDMS;
  if result <? 0 then mret result else
  let DMSClientID := result in
  result ← send_request QMIDMSGetMEIDReqSize DMSClientID (λ b,
             lift (QMIDMSGetMEIDReq (Some b) QMIDMSGetMEIDReqSize 1));
  if result <? 0 then mret result else
  '(result, pReadBuffer) ← ReadSync DMSClientID 1;
  if result <? 0 then mret result else
  s ← get_state;
  '(result, meid) ← lift (QMIDMSGetMEIDResp pReadBuffer (u16 result) (mMEID (data s)) 14);
  kfree;;
  modify_data (set_meid (if result <? 0 then replicate 14 48 else meid));;
  ReleaseClientID DMSClientID;; mret 0.

(** [ctx] after a response with settings. *)
Definition agg_update (st : QMAP_SETTING) (ctx : ul_agg_ctx) : ul_agg_ctx :=
  let n := le_val (ul_data_aggregation_max_datagrams st) in
  let ctx := if 1 <? n
             then UlAgg n (le_val (ul_data_aggregation_max_size st)) (le_val (dl_minimum_padding st))
             else ctx in
  UlAgg (if 11 <? agg_max_datagrams ctx then 11 else agg_max_datagrams ctx)
    (agg_max_size ctx) (agg_minimum_padding ctx).

(** The response is parsed into zeroed locals; the result is the new
    [*rx_urb_size], if it is written. *)
Definition data_format_response (qmap : bool) (pReadBuffer : option (list Z)) (size : Z)
  : qm (option Z) :=
  s ← get_state;
  let zeros := DataFormatOut (replicate 4 0) (replicate 4 0) (replicate 4 0)
                 (if qmap then Some (qmap_settings (data s)) else None) in
  '(_, o) ← lift (QMIWDASetDataFormatResp pReadBuffer size (mbRawIPMode (net s)) zeros);
  if qmap then
    let st := default (qmap_settings (data s)) (df_set o) in
    modify_data (set_qmap_settings st);;
    if negb (le_val (df_qmap_version o) =? 0)
    then modify_data (λ d, set_agg (agg_update st (agg_ctx d)) d);;
         mret (Some (le_val (df_rx_size o)))
    else mret (Some 0)
  else mret None.

Definition QMIWDASetDataFormat (mode : Z) (want_rx_urb_size : bool) : qm (Z * option Z) :=
  valid ← IsDeviceValid;
  if negb valid then mret (- EFAULT, None) else
  result ← GetClientID QMIWDA;
  if result <? 0 then mret (result, None) else
  let WDAClientID := result in
  let size := QMIWDASetDataFormatReqSize mode in
  s ← get_state;
  result ← send_request size WDAClientID (λ b,
             lift (QMIWDASetDataFormatReq (Some b) size (mbRawIPMode (net s))
                     (if negb (mode =? 0) then qmap_version (net s) else 0) (31 * 1024) 1));
  if result <? 0 then mret (result, None) else
  '(result, pReadBuffer) ← ReadSync WDAClientID 1;
  if result <? 0 then mret (result, None) else
  rx ← data_format_response (negb (mode =? 0) && want_rx_urb_size) pReadBuffer (u16 result);
  kfree;;
  ReleaseClientID WDAClientID;; mret (0, rx).

(** ** Start-up and removal *)

(** Run the steps in order; the first result that is not 0 is returned. *)
Definition and_then (first : qm Z) (rest : qm Z) : qm Z :=
  result ← first; if negb (result =? 0) then mret result else rest.

(** A device that is not ready makes the thread end with 0. *)
Definition qmi_sync_thread_body : qm Z :=
  ready ← QMIReady 30000;
  if negb ready then mret 0 else
  and_then QMICTLSyncProc
  (and_then (s ← get_state;
             if negb (qmap_mode (net s) =? 0) then
               '(result, rx) ← QMIWDASetDataFormat (qmap_mode (net s)) true;
               (if result =? 0
                then modify_data (λ d, set_rx_urb_size (default (rx_urb_size d) rx) d)
                else mret ());; mret result
             else mret 0)
  (and_then SetupQMIWDSCallback QMIDMSGetMEID)).

Definition put_refcount : qm () :=
  modify_data (λ d, set_refcount (refcount d - 1) d);;
  s ← get_state; if refcount (data s) =? 0 then out Device_freed else mret ().

Definition qmi_sync_thread : qm Z :=
  result ← qmi_sync_thread_body;
  modify_data (set_ready true);;
  modify_data (set_syncing false);;
  put_refcount;; mret result.

Definition register_chardev : qm Z :=
  result ← ret_of_kernel;
  if result <? 0 then mret result else
  modify_data (set_cdev true);;
  result ← ret_of_kernel;
  if negb (result =? 0) then mret result else
  out Cdev_add;;
  s ← get_state;
  match net_index (net s) with
  | None => mret (- ENXIO)
  | Some i => if i <? 0 then mret (- ENXIO) else out (Device_create i);; mret 0
  end.

Definition RegisterQMIDevice : qm Z :=
  s ← get_state;
  if mbCdevIsInitialized (data s) then mret (- EEXIST) else
  modify (set_valid true);; modify (set_dereg false);;
  result ← GetClientID QMICTL;
  if negb (result =? 0) then modify (set_valid false);; mret result else
  modify (set_xid 1);;
  result ← StartRead;
  if negb (result =? 0) then modify (set_valid false);; mret result else
  s ← get_state;
  if mbMdm9x07 (net s) then
    ignore (usb_control_msg CONTROL_DTR);;
    modify_data (λ d, set_refcount (refcount d + 1) d);;
    modify_data (set_ready false);; modify_data (set_syncing true);;
    result ← ret_of_kernel;
    if result <? 0 then
      modify_data (set_syncing false);;
      modify_data (λ d, set_refcount (refcount d - 1) d);; mret result
    else out Kthread_run;; register_chardev
  else
  ready ← QMIReady 30000;
  if negb ready then mret (- ETIMEDOUT) else
  and_then QMICTLSyncProc
  (and_then (r ← QMIWDASetDataFormat (qmap_mode (net s)) false; mret r.1)
  (and_then SetupQMIWDSCallback (and_then QMIDMSGetMEID register_chardev))).

(** [msleep]: the other contexts may run. *)
Definition msleep : qm () :=
  s ← get_state; match waits (env s) with [] => mret () | _ => others_run end.

Fixpoint wait_sync (tries : nat) : qm () :=
  match tries with
  | O => mret ()
  | S tries =>
    s ← get_state; if negb (mbQMISyncIng (data s)) then mret () else msleep;; wait_sync tries
  end.

Fixpoint release_all (fuel : nat) : qm () :=
  s ← get_state;
  match mpClientMemList s with
  | [] => mret ()
  | m :: _ =>
    match fuel with
    | O => hang
    | S fuel =>
      (if negb (mWaitQueue m =? 0)
       then out (Wake_poll (mClientID m));; spin_unlock;; msleep;; spin_lock
       else spin_unlock;; ReleaseClientID (mClientID m);; spin_lock);;
      release_all fuel
    end
  end.

(** Every turn releases a client or waits for a sleeper in [poll]; the removal of
    the character device is left to the kernel. *)
Definition DeregisterQMIDevice : qm () :=
  valid ← IsDeviceValid;
  if negb valid then mret () else
  modify (set_dereg true);;
  wait_sync 300;;
  spin_lock;;
  s ← get_state;
  release_all (S (length (waits (env s)) + length (mpClientMemList s)));;
  spin_unlock;;
  KillRead;;
  modify (set_valid false);;
  s ← get_state;
  if negb (mbCdevIsInitialized (data s)) then mret () else
  (if udev_state (net s) then ignore (usb_control_msg 0) else mret ());;
  out Device_destroy.

(** ** File operations

    [f] is the open file; the client [0xffff] stands for none yet. *)

Definition NO_CLIENT : Z := u16 (-1).

Definition IOCTL_QMI_GET_SERVICE_FILE : Z := 0x8BE0 + 1.
Definition IOCTL_QMI_GET_DEVICE_VIDPID : Z := 0x8BE0 + 2.
Definition IOCTL_QMI_GET_DEVICE_MEID : Z := 0x8BE0 + 3.

Definition file_client (f : Z) : qm (option Z) := s ← get_state; mret (files (data s) !! f).
Definition set_file (f clientID : Z) : qm () :=
  modify_data (λ d, set_files (<[f := clientID]> (files d)) d).

(** The result and what was copied to the caller. *)
Definition UserspaceunlockedIOCTL (f cmd arg : Z) : qm (Z * list Z) :=
  pFilpData ← file_client f;
  match pFilpData with
  | None => mret (- EBADF, [])
  | Some client =>
    valid ← IsDeviceValid;
    if negb valid then mret (- ENXIO, []) else
    if cmd =? IOCTL_QMI_GET_SERVICE_FILE then
      if u8 arg =? 0 then mret (- EINVAL, []) else
      if negb (client =? NO_CLIENT) then mret (- EBADR, []) else
      result ← GetClientID (u8 arg);
      result ← (if (result <? 0) && (u8 arg =? QMIWDA)
                then ReleaseClientID (QMIWDA |' Z.shiftl 1 8);; GetClientID (u8 arg)
                else mret result);
      if result <? 0 then mret (result, []) else
      set_file f (u16 result);; mret (0, [])
    else if cmd =? IOCTL_QMI_GET_DEVICE_VIDPID then
      if arg =? 0 then mret (- EINVAL, []) else
      s ← get_state;
      let devVIDPID := u32 (Z.shiftl (idVendor (net s)) 16 + idProduct (net s)) in
      result ← ret_of_kernel;
      mret (result, if result =? 0 then le_bytes 4 devVIDPID else [])
    else if cmd =? IOCTL_QMI_GET_DEVICE_MEID then
      if arg =? 0 then mret (- EINVAL, []) else
      s ← get_state;
      result ← ret_of_kernel;
      mret (result, if result =? 0 then mMEID (data s) else [])
    else mret (- EBADRQC, [])
  end.

(** On some modems the open waits until the start-up thread is done. *)
Definition UserspaceOpen_wait : qm bool :=
  s ← get_state;
  if negb (mbMdm9x07 (net s)) then mret true else
  modify_data (λ d, set_refcount (refcount d + 1) d);;
  in_time ← (if negb (mbQMIReady (data s))
             then result ← ret_of_kernel; mret (0 <? result) else mret true);
  if negb in_time then put_refcount;; mret false
  else modify_data (λ d, set_refcount (refcount d - 1) d);; mret true.

Definition UserspaceOpen (f : Z) : qm Z :=
  in_time ← UserspaceOpen_wait;
  if negb in_time then mret (- ETIMEDOUT) else
  valid ← IsDeviceValid;
  if negb valid then mret (- ENXIO) else
  ok ← kmalloc;
  if negb ok then mret (- ENOMEM) else
  set_file f NO_CLIENT;;
  modify_data (λ d, set_refcount (refcount d + 1) d);; mret 0.

(** The variant with [quectel_no_for_each_process], which [QMIDevice.h] defines. *)
Definition UserspaceClose (f : Z) : qm Z :=
  pFilpData ← file_client f;
  match pFilpData with
  | None => mret (- EBADF)
  | Some client =>
    modify_data (λ d, set_refcount (refcount d - 1) d);;
    valid ← IsDeviceValid;
    if negb valid then mret (- ENXIO) else
    modify_data (λ d, set_files (delete f (files d)) d);;
    (if negb (client =? NO_CLIENT) then
       s ← get_state;
       if mbDeregisterQMIDevice s then mret () else ReleaseClientID client
     else mret ());;
    kfree;; mret 0
  end.

(** The size is compared as a [size_t]. *)
Definition UserspaceRead (f size : Z) : qm (Z * list Z) :=
  pFilpData ← file_client f;
  match pFilpData with
  | None => mret (- EBADF, [])
  | Some client =>
    valid ← IsDeviceValid;
    if negb valid then mret (- ENXIO, []) else
    if client =? NO_CLIENT then mret (- EBADR, []) else
    '(result, pReadData) ← ReadSync client 0;
    if result <=? 0 then mret (result, []) else
    let result := result - QMUXHeaderSize in
    if size <? result mod 2 ^ 64 then kfree;; mret (- EOVERFLOW, []) else
    bytes ← lift (get_bytes (default [] pReadData) QMUXHeaderSize result);
    copied ← ret_of_kernel;
    kfree;;
    mret (if copied =? 0 then (result, bytes) else (- EFAULT, []))
  end.

(** [bytes]: the [size] bytes of the caller. *)
Definition UserspaceWrite (f : Z) (bytes : list Z) : qm Z :=
  let size := Z.of_nat (length bytes) in
  pFilpData ← file_client f;
  match pFilpData with
  | None => mret (- EBADF)
  | Some client =>
    valid ← IsDeviceValid;
    if negb valid then mret (- ENXIO) else
    if client =? NO_CLIENT then mret (- EBADR) else
    ok ← kmalloc;
    if negb ok then mret (- ENOMEM) else
    status ← ret_of_kernel;
    if negb (status =? 0) then kfree;; mret status else
    status ← WriteSync (uninit QMUXHeaderSize ++ bytes) (s32 (size + QMUXHeaderSize)) client;
    kfree;;
    mret (if status =? size + QMUXHeaderSize then size else status)
  end.

Definition POLLIN : Z := 0x1.
Definition POLLOUT : Z := 0x4.
Definition POLLERR : Z := 0x8.
Definition POLLHUP : Z := 0x10.
Definition POLLRDNORM : Z := 0x40.
Definition POLLWRNORM : Z := 0x100.

Definition UserspacePoll (f : Z) : qm Z :=
  pFilpData ← file_client f;
  match pFilpData with
  | None => mret POLLERR
  | Some client =>
    valid ← IsDeviceValid;
    if negb valid then mret POLLERR else
    s ← get_state;
    if mbDeregisterQMIDevice s then mret (POLLHUP |' POLLERR) else
    if client =? NO_CLIENT then mret POLLERR else
    spin_lock;;
    pClientMem ← FindClientMem client;
    match pClientMem with
    | None => spin_unlock;; mret POLLERR
    | Some m =>
      update (mem_addr m) (λ m, set_waitq (mWaitQueue m + 1) m);;
      let status := POLLOUT |' POLLWRNORM in
      let status := match mpList m with
                    | [] => status | _ => status |' (POLLIN |' POLLRDNORM) end in
      spin_unlock;;
      mret (status |' POLLOUT |' POLLWRNORM)
    end
  end.
