(* ===== verification/QmiLists.v ===== *)
(** * The GobiNet client layer: lemmas on client memory

    How the operations on the lists of a client change the table of clients, for
    the proofs of the other [Qmi] files. *)

From S2P Require Import Prelude Kernel GobiQmi QmiDev.
From stdpp Require Import gmap.

#[local] Open Scope Z_scope.

(** ** Counting *)

Fixpoint count_if {A} (p : A → bool) (l : list A) : nat :=
  match l with [] => 0 | x :: l => (if p x then 1 else 0) + count_if p l end.

Lemma count_if_app {A} (p : A → bool) l1 l2 :
  count_if p (l1 ++ l2) = (count_if p l1 + count_if p l2)%nat.
Proof. induction l1; simpl; lia. Qed.

Lemma count_if_mono {A} (p q : A → bool) l :
  (∀ x, x ∈ l → p x = true → q x = true) → (count_if p l ≤ count_if q l)%nat.
Proof.
  induction l as [|x l IH]; intros H; [done|]. simpl.
  specialize (IH (λ y Hy, H y (list_elem_of_further _ _ _ Hy))).
  pose proof (H x (list_elem_of_here _ _)) as Hx.
  destruct (p x); [rewrite Hx by done; lia|destruct (q x); lia].
Qed.

Lemma count_if_strict {A} (p q : A → bool) l y :
  (∀ x, x ∈ l → p x = true → q x = true) → y ∈ l → p y = false → q y = true →
  (S (count_if p l) ≤ count_if q l)%nat.
Proof.
  intros H Hy Hp Hq. apply list_elem_of_split in Hy as (l1 & l2 & ->).
  rewrite !count_if_app. simpl. rewrite Hp, Hq.
  pose proof (count_if_mono p q l1) as H1. pose proof (count_if_mono p q l2) as H2.
  assert (count_if p l1 ≤ count_if q l1)%nat by (apply H1; set_solver).
  assert (count_if p l2 ≤ count_if q l2)%nat by (apply H2; set_solver). lia.
Qed.

Lemma count_if_ext {A} (p q : A → bool) l :
  (∀ x, x ∈ l → p x = q x) → count_if p l = count_if q l.
Proof.
  intros H. apply Nat.le_antisymm; apply count_if_mono; intros x Hx;
    [rewrite H by done|rewrite <- H by done]; done.
Qed.

Lemma count_if_zero {A} (p : A → bool) l :
  (∀ x, x ∈ l → p x = false) → count_if p l = 0%nat.
Proof.
  induction l as [|x l IH]; intros H; [done|]. simpl.
  rewrite (H x) by set_solver. apply IH. set_solver.
Qed.

Lemma count_if_insert {A} (p : A → bool) l i x y :
  l !! i = Some x →
  (count_if p (<[i := y]> l) + (if p x then 1 else 0) =
   count_if p l + (if p y then 1 else 0))%nat.
Proof.
  intros Hi. pose proof (lookup_lt_Some _ _ _ Hi).
  rewrite insert_take_drop by done. rewrite <- (take_drop_middle l i x Hi) at 3.
  rewrite !count_if_app. simpl. lia.
Qed.

(** ** The first match *)

Lemma pop_first_Some {A} (p : A → bool) l x l' :
  pop_first p l = Some (x, l') →
  ∃ l1 l2, l = l1 ++ x :: l2 ∧ l' = l1 ++ l2 ∧ p x = true ∧ Forall (λ y, p y = false) l1.
Proof.
  revert x l'. induction l as [|z l IH]; intros x l'; [done|]. simpl.
  destruct (p z) eqn:E.
  - intros [= <- <-]. exists [], l. auto.
  - destruct (pop_first p l) as [[y l1]|] eqn:E'; [|done]. intros [= <- <-].
    destruct (IH y l1 eq_refl) as (k1 & k2 & -> & -> & Hp & Hk).
    exists (z :: k1), k2. auto.
Qed.

Lemma pop_first_None {A} (p : A → bool) l :
  pop_first p l = None ↔ Forall (λ y, p y = false) l.
Proof.
  induction l as [|z l IH]; simpl; [done|]. rewrite Forall_cons. destruct (p z).
  - split; [done|]. by intros [? _].
  - destruct (pop_first p l) as [[]|]; (split; [done || by intros _; split; [|apply IH]|]); [|done].
    intros [_ H]. by apply IH in H.
Qed.

Lemma pop_first_app {A} (p : A → bool) l1 x l2 :
  Forall (λ y, p y = false) l1 → p x = true → pop_first p (l1 ++ x :: l2) = Some (x, l1 ++ l2).
Proof. induction 1 as [|y l1 E _ IH]; simpl; intros Hx; [by rewrite Hx|]. by rewrite E, IH. Qed.

(** ** The table of clients *)

Lemma find_client_Some c l m :
  find_client c l = Some m → m ∈ l ∧ mClientID m = c.
Proof.
  induction l as [|x l IH]; simpl; [done|]. destruct (Z.eqb_spec (mClientID x) c).
  - intros [= ->]. split; [left|done].
  - intros H. destruct (IH H). split; [by right|done].
Qed.

Definition keeps_id (f : sClientMemList → sClientMemList) : Prop :=
  ∀ m, mem_addr (f m) = mem_addr m ∧ mClientID (f m) = mClientID m.

Create HintDb qmi.

Lemma keeps_id_mpList l : keeps_id (set_mpList l). Proof. done. Qed.
Lemma keeps_id_notify l : keeps_id (set_notify l). Proof. done. Qed.
Lemma keeps_id_urblist l : keeps_id (set_urblist l). Proof. done. Qed.
Lemma keeps_id_add_read r : keeps_id (λ m, set_mpList (mpList m ++ [r]) m). Proof. done. Qed.
Lemma keeps_id_add_notify n :
  keeps_id (λ m, set_notify (mpReadNotifyList m ++ [n]) m). Proof. done. Qed.
Lemma keeps_id_add_urb u : keeps_id (λ m, set_urblist (mpURBList m ++ [u]) m). Proof. done. Qed.
#[export] Hint Resolve keeps_id_mpList keeps_id_notify keeps_id_urblist keeps_id_add_read
  keeps_id_add_notify keeps_id_add_urb : qmi.

Lemma upd_mem_addrs a f l :
  keeps_id f → mem_addr <$> upd_mem a f l = mem_addr <$> l.
Proof.
  intros Hf. unfold upd_mem. rewrite <- list_fmap_compose. apply list_fmap_ext.
  intros i m _. simpl. destruct (Z.eqb_spec (mem_addr m) a); [apply Hf|done].
Qed.

Lemma upd_mem_ids a f l :
  keeps_id f → mClientID <$> upd_mem a f l = mClientID <$> l.
Proof.
  intros Hf. unfold upd_mem. rewrite <- list_fmap_compose. apply list_fmap_ext.
  intros i m _. simpl. destruct (Z.eqb_spec (mem_addr m) a); [apply Hf|done].
Qed.

Lemma upd_mem_fresh a f l : a ∉ mem_addr <$> l → upd_mem a f l = l.
Proof.
  induction l as [|x l IH]; [done|]. rewrite fmap_cons, not_elem_of_cons. intros [H1 H2]. simpl.
  unfold upd_mem in IH |- *. rewrite IH by done. by destruct (Z.eqb_spec (mem_addr x) a).
Qed.

(** A store to the client that a search found changes what this search finds, and
    nothing else. *)
Lemma find_client_upd c c' l m f :
  NoDup (mem_addr <$> l) → keeps_id f → find_client c l = Some m →
  find_client c' (upd_mem (mem_addr m) f l) =
  if decide (c' = c) then Some (f m) else find_client c' l.
Proof.
  intros Hn Hf. induction l as [|x l IH]; simpl; [done|].
  rewrite fmap_cons in Hn. apply NoDup_cons in Hn as [Hx Hn].
  destruct (Z.eqb_spec (mClientID x) c) as [E|E].
  - intros [= ->]. rewrite Z.eqb_refl. rewrite (proj2 (Hf m)).
    fold (upd_mem (mem_addr m) f l). rewrite upd_mem_fresh by done. case_decide as D.
    + by rewrite E, D, Z.eqb_refl.
    + by destruct (Z.eqb_spec (mClientID m) c'); [congruence|].
  - intros H. fold (upd_mem (mem_addr m) f l). rewrite (IH Hn H). pose proof (find_client_Some _ _ _ H) as [Hin Hc].
    destruct (Z.eqb_spec (mem_addr x) (mem_addr m)) as [Ea|Ea].
    { exfalso. apply Hx. rewrite Ea. by apply list_elem_of_fmap_2. }
    destruct (Z.eqb_spec (mClientID x) c'); [|done]. by case_decide; [congruence|].
Qed.

Lemma sema_new_eq k s :
  sema_new k s = Done (next_addr s,
    set_sems (<[next_addr s := Sem 0 k]> (sems s)) (set_next (next_addr s + 1) s)).
Proof. done. Qed.

Lemma down_trylock_eq a s :
  down_trylock a s =
  match sems s !! a with
  | None => OutOfBounds
  | Some q =>
    if 0 <? sem_count q
    then Done (true, set_sems (<[a := Sem (sem_count q - 1) (magic q)]> (sems s)) s)
    else Done (false, s)
  end.
Proof.
  unfold down_trylock. unfold mbind, stm_bind. simpl. destruct (sems s !! a) as [q|]; [|done].
  by destruct (0 <? sem_count q).
Qed.

Lemma upd_mem_twice a f g l :
  (∀ m, mem_addr (g m) = mem_addr m) → upd_mem a f (upd_mem a g l) = upd_mem a (λ m, f (g m)) l.
Proof.
  intros Hg. unfold upd_mem. rewrite map_map. apply map_ext. intros m.
  destruct (Z.eqb_spec (mem_addr m) a) as [E|E]; [|by rewrite (proj2 (Z.eqb_neq _ _) E)].
  by rewrite Hg, E, Z.eqb_refl.
Qed.

Lemma same_addr l m1 m2 :
  NoDup (mem_addr <$> l) → m1 ∈ l → m2 ∈ l → mem_addr m1 = mem_addr m2 → m1 = m2.
Proof.
  intros Hn [i Hi]%list_elem_of_lookup [j Hj]%list_elem_of_lookup E.
  rewrite NoDup_alt in Hn. assert (i = j) as ->; [|congruence].
  apply (Hn i j (mem_addr m1)); rewrite list_lookup_fmap; [by rewrite Hi|by rewrite Hj; simpl; rewrite E].
Qed.

Lemma upd_mem_id c m f l :
  NoDup (mem_addr <$> l) → find_client c l = Some m → f m = m → upd_mem (mem_addr m) f l = l.
Proof.
  intros Hn Hm Hf. apply find_client_Some in Hm as [Hin _].
  unfold upd_mem. rewrite <- (map_id l) at 2. apply map_ext_in. intros m' Hm'%list_elem_of_In.
  destruct (Z.eqb_spec (mem_addr m') (mem_addr m)) as [E|E]; [|done].
  by rewrite (same_addr l m' m).
Qed.

Lemma upd_mem_ext c m f g l :
  NoDup (mem_addr <$> l) → find_client c l = Some m → f m = g m →
  upd_mem (mem_addr m) f l = upd_mem (mem_addr m) g l.
Proof.
  intros Hn Hm Hf. apply find_client_Some in Hm as [Hin _].
  apply map_ext_in. intros m' Hm'%list_elem_of_In.
  destruct (Z.eqb_spec (mem_addr m') (mem_addr m)) as [E|E]; [|done].
  by rewrite (same_addr l m' m).
Qed.

(** States with the same fields. *)
Lemma qmi_ext s1 s2 :
  mbQMIValid s1 = mbQMIValid s2 → mbDeregisterQMIDevice s1 = mbDeregisterQMIDevice s2 →
  mpClientMemList s1 = mpClientMemList s2 → mClientMemLock s1 = mClientMemLock s2 →
  mQMICTLTransactionID s1 = mQMICTLTransactionID s2 → mDownReason s1 = mDownReason s2 →
  net s1 = net s2 → data s1 = data s2 → sems s1 = sems s2 → urbs s1 = urbs s2 → next_addr
  s1 = next_addr s2 → live s1 = live s2 → env s1 = env s2 → trace s1 = trace s2 → s1 = s2.
Proof. destruct s1, s2. simpl. by intros -> -> -> -> -> -> -> -> -> -> -> -> -> ->. Qed.

Lemma upd_mem_ids_Forall (P : Z → Prop) a f l :
  keeps_id f → Forall (λ m, P (mClientID m)) l → Forall (λ m, P (mClientID m)) (upd_mem a f l).
Proof.
  intros Hf Hl. unfold upd_mem. apply Forall_map. eapply Forall_impl; [exact Hl|].
  intros m Hm. simpl. destruct (mem_addr m =? a); [|done]. by rewrite (proj2 (Hf m)).
Qed.

Lemma count_if_filter {A} (p : A → bool) l : count_if p l = length (List.filter p l).
Proof. induction l as [|x l IH]; [done|]. simpl. destruct (p x); simpl; by rewrite IH. Qed.

Lemma filter_none {A} (p : A → bool) l :
  Forall (λ x, p x = false) l → List.filter (λ x, negb (p x)) l = l ∧ count_if p l = 0%nat.
Proof. induction 1 as [|x l Hx _ [IH1 IH2]]; [done|]. simpl. by rewrite Hx, IH1, IH2. Qed.
