(* ===== verification/QmiWait.v ===== *)
(** * The GobiNet client layer: concurrent readers

    Any number of threads run [ReadSync] while messages arrive: each step is the
    arrival of a thread, a critical section of [ReadSync], the end of a wait, or a
    run of [ReadCallback].  The definitions of [QmiDev] are composed the way
    [ReadSync_loop] composes them; the theorems are about which threads sleep. *)

From S2P Require Import Prelude Kernel GobiQmi QmiDev QmiLists.
From stdpp Require Import gmap.

#[local] Open Scope Z_scope.

(** ** Threads *)

(** [Ready]: about to enter the critical section, at the start or after a wait. *)
Inductive reader_state := Ready | Asleep | Finished.
#[export] Instance reader_state_eq_dec : EqDecision reader_state.
Proof. solve_decision. Defined.

Record reader := Reader {
  r_client : Z; r_tid : Z; r_sem : Z; r_state : reader_state;
}.

Definition with_state (st : reader_state) (r : reader) : reader :=
  Reader (r_client r) (r_tid r) (r_sem r) st.

Definition sem_up (ss : gmap Z QuecSem) (a : Z) : bool :=
  match ss !! a with Some q => 0 <? sem_count q | None => false end.

(** A thread that will run, and one that waits for a notification. *)
Definition runnable (ss : gmap Z QuecSem) (r : reader) : bool :=
  match r_state r with Ready => true | Asleep => sem_up ss (r_sem r) | Finished => false end.
Definition blocked (ss : gmap Z QuecSem) (r : reader) : bool :=
  match r_state r with Asleep => negb (sem_up ss (r_sem r)) | _ => false end.

(** A turn of the loop of [ReadSync]. *)
Definition reader_turn (r : reader) : qm reader_state :=
  valid ← IsDeviceValid;
  if negb valid then mret Finished else
  spin_lock;;
  try ← ReadSync_try (r_client r) (r_tid r) (r_sem r);
  mret (match try with Read_wait => Asleep | _ => Finished end).

(** [may_start]: which threads may come. *)
Inductive step (may_start : list reader → Z → Z → Prop) :
  qmi_dev * list reader → qmi_dev * list reader → Prop :=
| step_message s rs status buf n s' :
    ReadCallback status buf n s = Done ((), s') →
    step may_start (s, rs) (s', rs)
| step_start s rs c tid a s' :
    may_start rs c tid → sema_new 0 s = Done (a, s') →
    step may_start (s, rs) (s', rs ++ [Reader c tid a Ready])
| step_turn s rs i r st s' :
    rs !! i = Some r → r_state r = Ready → reader_turn r s = Done (st, s') →
    step may_start (s, rs) (s', <[i := with_state st r]> rs)
| step_wake s rs i r s' :
    rs !! i = Some r → r_state r = Asleep → down_trylock (r_sem r) s = Done (true, s') →
    step may_start (s, rs) (s', <[i := with_state Ready r]> rs).

(** A device on which no thread waits. *)
Definition quiet (s : qmi_dev) : Prop :=
  mbQMIValid s = true ∧ NoDup (mem_addr <$> mpClientMemList s) ∧
  (∀ m, m ∈ mpClientMemList s → mpReadNotifyList m = []).

Definition reachable (may_start : list reader → Z → Z → Prop) (s : qmi_dev)
    (rs : list reader) : Prop :=
  ∃ s0, quiet s0 ∧ rtc (step may_start) (s0, []) (s, rs).

(** On each client, either every thread waits for any message or every thread waits
    for the answer to a transaction. *)
Definition uniform (rs : list reader) (c tid : Z) : Prop :=
  ∀ r, r ∈ rs → r_client r = c → (r_tid r = 0 ↔ tid = 0).

(** A message for the thread is in the list of its client. *)
Definition has_message (s : qmi_dev) (r : reader) : bool :=
  match find_client (r_client r) (mpClientMemList s) with
  | Some m => existsb (read_matches (r_tid r)) (mpList m)
  | None => false
  end.

(** ** The state that matters *)

Definition core (s : qmi_dev) :=
  (mbQMIValid s, mpClientMemList s, sems s, next_addr s).

Section CoreLogic.
Implicit Types s : qmi_dev.

Lemma core_kmalloc s (Φ : bool → qmi_dev → Prop) :
  (∀ b s', core s' = core s → Φ b s') → ends kmalloc s Φ.
Proof.
  intros H. apply ends_bind, ends_get. destruct (kmallocs (env s)) as [|b l].
  { apply ends_bind, ends_modify, ends_ret, H. done. }
  apply ends_bind, ends_modify. destruct b; [apply ends_bind, ends_modify|]; by apply ends_ret, H.
Qed.

Lemma core_resubmit s (Φ : () → qmi_dev → Prop) :
  (∀ s', core s' = core s → Φ () s') → ends (ignore ResubmitIntURB) s Φ.
Proof.
  intros H. apply ends_bind, ends_bind, ends_get. destruct (mpIntURB _); cbn [negb].
  - apply ends_bind, ends_bind, ends_get.
    destruct (rets (env s)) as [|x l]; [apply ends_ret|apply ends_bind, ends_modify, ends_ret];
      apply ends_bind; case_match; try apply ends_modify; repeat apply ends_ret; by apply H.
  - apply ends_ret, ends_ret. by apply H.
Qed.

Lemma core_find s c (Φ : option sClientMemList → qmi_dev → Prop) :
  mbQMIValid s = true → Φ (find_client c (mpClientMemList s)) s → ends (FindClientMem c) s Φ.
Proof.
  intros Hv H. apply ends_bind, ends_bind, ends_get, ends_ret. rewrite Hv. cbn [negb].
  apply ends_bind, ends_get. destruct (mClientMemLock s); [by apply ends_ret|apply ends_fault].
Qed.

Lemma core_lock s (Φ : () → qmi_dev → Prop) :
  (∀ s', core s' = core s → Φ () s') → ends spin_lock s Φ.
Proof.
  intros H. apply ends_bind, ends_get.
  destruct (mClientMemLock s); [by intros ? ?|]. by apply ends_modify, H.
Qed.
End CoreLogic.

(** ** The invariant

    A sleeping thread is on the list of its client exactly when its semaphore is
    down; while one sleeps, there are at least as many threads of its kind that
    will run as messages it could take. *)

Definition entry_of (r : reader) : sNotifyList := Notify UpSem_handler (r_tid r) (r_sem r).
Definition n_msgs (k : Z) (m : sClientMemList) : nat := count_if (read_matches k) (mpList m).
Definition will_run (ss : gmap Z QuecSem) (c k : Z) (r : reader) : bool :=
  (r_client r =? c) && (r_tid r =? k) && runnable ss r.
Definition n_run (ss : gmap Z QuecSem) (rs : list reader) (c k : Z) : nat :=
  count_if (will_run ss c k) rs.

Record waits_ok (cl : list sClientMemList) (ss : gmap Z QuecSem) (nx : Z)
    (rs : list reader) : Prop := WaitsOk {
  ok_addrs : NoDup (mem_addr <$> cl);
  ok_sems : NoDup (r_sem <$> rs);
  ok_next : ∀ r, r ∈ rs → r_sem r < nx;
  ok_asleep : ∀ r, r ∈ rs → r_state r = Asleep →
    ∃ k, ss !! r_sem r = Some (Sem k QUEC_SEM_MAGIC) ∧ 0 ≤ k;
  ok_blocked : ∀ r, r ∈ rs → blocked ss r = true →
    ∃ m, find_client (r_client r) cl = Some m ∧ entry_of r ∈ mpReadNotifyList m;
  ok_entry : ∀ c m n, find_client c cl = Some m → n ∈ mpReadNotifyList m →
    ∃ r, r ∈ rs ∧ blocked ss r = true ∧ r_client r = c ∧ n = entry_of r;
  ok_once : ∀ c m, find_client c cl = Some m → NoDup (mpReadNotifyList m);
  ok_uniform : ∀ r, r ∈ rs → uniform rs (r_client r) (r_tid r);
  ok_enough : ∀ r, r ∈ rs → blocked ss r = true →
    ∀ m, find_client (r_client r) cl = Some m →
    (n_msgs (r_tid r) m ≤ n_run ss rs (r_client r) (r_tid r))%nat;
}.

Section Invariant.
Context (cl : list sClientMemList) (ss : gmap Z QuecSem) (nx : Z) (rs : list reader).
Hypothesis Hok : waits_ok cl ss nx rs.

Lemma same_reader r1 r2 : r1 ∈ rs → r2 ∈ rs → r_sem r1 = r_sem r2 → r1 = r2.
Proof.
  intros [i Hi]%list_elem_of_lookup [j Hj]%list_elem_of_lookup E.
  pose proof (ok_sems _ _ _ _ Hok) as Hn. rewrite NoDup_alt in Hn.
  assert (i = j) as ->; [|congruence].
  apply (Hn i j (r_sem r1)); rewrite list_lookup_fmap; [by rewrite Hi|by rewrite Hj, E].
Qed.

Lemma sem_up_other a q b : a ≠ b → sem_up (<[a := q]> ss) b = sem_up ss b.
Proof. intros. unfold sem_up. by rewrite lookup_insert_ne. Qed.

Lemma runnable_other r a q : r_sem r ≠ a → runnable (<[a := q]> ss) r = runnable ss r.
Proof. intros. unfold runnable. by rewrite sem_up_other. Qed.
Lemma blocked_other r a q : r_sem r ≠ a → blocked (<[a := q]> ss) r = blocked ss r.
Proof. intros. unfold blocked. by rewrite sem_up_other. Qed.

(** The threads after the change of one. *)
Lemma elem_of_changed i r st x :
  rs !! i = Some r → x ∈ <[i := with_state st r]> rs →
  x = with_state st r ∨ (x ∈ rs ∧ r_sem x ≠ r_sem r).
Proof.
  intros Hi [j Hj]%list_elem_of_lookup. destruct (decide (i = j)) as [->|Hne].
  - rewrite list_lookup_insert_eq in Hj by (by eapply lookup_lt_Some). left. congruence.
  - rewrite list_lookup_insert_ne in Hj by done. right.
    split; [by eapply list_elem_of_lookup_2|]. intros E.
    pose proof (ok_sems _ _ _ _ Hok) as Hn. rewrite NoDup_alt in Hn.
    apply Hne, (Hn i j (r_sem r)); rewrite list_lookup_fmap; [by rewrite Hi|by rewrite Hj; simpl; rewrite E].
Qed.

Lemma changed_elem_of i r st x :
  rs !! i = Some r → x ∈ rs → r_sem x ≠ r_sem r → x ∈ <[i := with_state st r]> rs.
Proof.
  intros Hi [j Hj]%list_elem_of_lookup E. destruct (decide (i = j)) as [->|Hne]; [congruence|].
  eapply list_elem_of_lookup_2. by rewrite list_lookup_insert_ne by done.
Qed.

Lemma sems_changed i r st : rs !! i = Some r → r_sem <$> <[i := with_state st r]> rs = r_sem <$> rs.
Proof.
  intros Hi. rewrite list_fmap_insert. apply list_insert_id. by rewrite list_lookup_fmap, Hi.
Qed.
End Invariant.

(** One thread that does not sleep changes its state, its semaphore and, when it
    goes to sleep, the list of its client. *)
Section Change.
Context (cl cl' : list sClientMemList) (ss ss' : gmap Z QuecSem) (nx : Z) (rs : list reader).
Context (i : nat) (r : reader) (st : reader_state).
Hypothesis Hok : waits_ok cl ss nx rs.
Hypothesis Hi : rs !! i = Some r.
Hypothesis Hss : ∀ a, a ≠ r_sem r → ss' !! a = ss !! a.

Lemma agree_up a : a ≠ r_sem r → sem_up ss' a = sem_up ss a.
Proof. intros. unfold sem_up. by rewrite Hss. Qed.
Lemma agree_runnable x : r_sem x ≠ r_sem r → runnable ss' x = runnable ss x.
Proof. intros. unfold runnable. by rewrite agree_up. Qed.
Lemma agree_blocked x : r_sem x ≠ r_sem r → blocked ss' x = blocked ss x.
Proof. intros. unfold blocked. by rewrite agree_up. Qed.

(** The threads that will run, after the change. *)
Lemma n_run_changed c k :
  (n_run ss' (<[i := with_state st r]> rs) c k + (if will_run ss c k r then 1 else 0) =
   n_run ss rs c k + (if will_run ss' c k (with_state st r) then 1 else 0))%nat.
Proof.
  unfold n_run. pose proof (count_if_insert (will_run ss c k) rs i r r Hi) as H0.
  rewrite list_insert_id in H0 by done.
  pose proof (lookup_lt_Some _ _ _ Hi) as Hlt.
  rewrite insert_take_drop by done. rewrite <- (take_drop_middle rs i r Hi) at 3.
  rewrite !count_if_app. simpl.
  pose proof (ok_sems _ _ _ _ Hok) as Hn. rewrite <- (take_drop_middle rs i r Hi) in Hn.
  rewrite fmap_app, fmap_cons in Hn. apply NoDup_app in Hn as (_ & Hn1 & Hn2).
  apply NoDup_cons in Hn2 as [Hn2 _].
  assert (∀ x, x ∈ take i rs ∨ x ∈ drop (S i) rs → will_run ss' c k x = will_run ss c k x) as E.
  { intros x Hx. unfold will_run. rewrite agree_runnable; [done|]. intros Eq.
    destruct Hx as [Hx|Hx].
    - apply (Hn1 (r_sem x)); [by apply list_elem_of_fmap_2|rewrite Eq; left].
    - apply Hn2. rewrite <- Eq. by apply list_elem_of_fmap_2. }
  rewrite (count_if_ext (will_run ss' c k) (will_run ss c k) (take i rs)) by auto.
  rewrite (count_if_ext (will_run ss' c k) (will_run ss c k) (drop (S i) rs)) by auto. lia.
Qed.

Hypothesis Hb : blocked ss r = false.
Hypothesis Hst : st = Asleep → ss' !! r_sem r = Some (Sem 0 QUEC_SEM_MAGIC).
Hypothesis Haddr : NoDup (mem_addr <$> cl').
Hypothesis Hnotify : ∀ c, mpReadNotifyList <$> find_client c cl' =
  (λ l, if decide (c = r_client r ∧ st = Asleep) then l ++ [entry_of r] else l) <$>
  (mpReadNotifyList <$> find_client c cl).
Hypothesis Hthere : st = Asleep → find_client (r_client r) cl ≠ None.
Hypothesis Henough : ∀ x, x ∈ <[i := with_state st r]> rs → blocked ss' x = true →
  ∀ m', find_client (r_client x) cl' = Some m' →
  (n_msgs (r_tid x) m' ≤ n_run ss' (<[i := with_state st r]> rs) (r_client x) (r_tid x))%nat.

Lemma changed_notify c m' :
  find_client c cl' = Some m' → ∃ m, find_client c cl = Some m ∧ mpReadNotifyList m' =
    if decide (c = r_client r ∧ st = Asleep) then mpReadNotifyList m ++ [entry_of r]
    else mpReadNotifyList m.
Proof.
  intros H. specialize (Hnotify c). rewrite H in Hnotify. simpl in Hnotify.
  destruct (find_client c cl) as [m|]; [|done]. exists m. split; [done|].
  simpl in Hnotify. by injection Hnotify.
Qed.

Lemma changed_there c m : find_client c cl = Some m → ∃ m', find_client c cl' = Some m'.
Proof.
  intros H. specialize (Hnotify c). rewrite H in Hnotify. simpl in Hnotify.
  destruct (find_client c cl') as [m'|]; [by exists m'|done].
Qed.

Lemma changed_blocked : blocked ss' (with_state st r) = true ↔ st = Asleep.
Proof.
  unfold blocked, with_state. simpl. destruct st; (split; [done|]); try done.
  intros _. unfold sem_up. by rewrite (Hst eq_refl).
Qed.

Lemma entry_blocked c m n :
  find_client c cl = Some m → n ∈ mpReadNotifyList m → notify_data n ≠ r_sem r.
Proof.
  intros Hm Hn. destruct (ok_entry _ _ _ _ Hok c m n Hm Hn) as (x & Hx & Hbx & _ & ->).
  simpl. intros E. assert (x = r) as ->; [|congruence].
  eapply same_reader; eauto using list_elem_of_lookup_2.
Qed.

Lemma change_ok : waits_ok cl' ss' nx (<[i := with_state st r]> rs).
Proof.
  assert (r ∈ rs) as Hr by by eapply list_elem_of_lookup_2.
  assert (∀ x, x ∈ <[i := with_state st r]> rs →
    x = with_state st r ∨ (x ∈ rs ∧ r_sem x ≠ r_sem r)) as Hel.
  { intros x. by eapply elem_of_changed. }
  split.
  - done.
  - rewrite sems_changed by done. apply (ok_sems _ _ _ _ Hok).
  - intros x [->|[Hx _]]%Hel; [|by apply (ok_next _ _ _ _ Hok)].
    by apply (ok_next _ _ _ _ Hok) in Hr.
  - intros x [->|[Hx Hne]]%Hel Ha.
    + simpl in *. exists 0. auto with lia.
    + rewrite Hss by done. by apply (ok_asleep _ _ _ _ Hok).
  - intros x [->|[Hx Hne]]%Hel Hbx.
    + apply changed_blocked in Hbx. simpl. destruct (find_client (r_client r) cl) as [m|] eqn:E;
        [|by destruct (Hthere Hbx)].
      destruct (changed_there _ _ E) as [m' E']. exists m'. split; [done|].
      destruct (changed_notify _ _ E') as (m0 & E0 & ->). rewrite decide_True by done.
      apply elem_of_app. right. by apply list_elem_of_singleton.
    + rewrite agree_blocked in Hbx by done.
      destruct (ok_blocked _ _ _ _ Hok x Hx Hbx) as (m & E & Hin).
      destruct (changed_there _ _ E) as [m' E']. exists m'. split; [done|].
      destruct (changed_notify _ _ E') as (m0 & E0 & ->).
      assert (m0 = m) as -> by congruence. destruct (decide (_ ∧ _)); [|done].
      apply elem_of_app. by left.
  - intros c m' n Hm Hn. destruct (changed_notify _ _ Hm) as (m & E & En). rewrite En in Hn.
    assert (n ∈ mpReadNotifyList m ∨ (c = r_client r ∧ st = Asleep ∧ n = entry_of r)) as [Hin|Hin].
    { destruct (decide _) as [D|D]; [|by left]. apply elem_of_app in Hn as [?|Hn]; [by left|right].
      apply list_elem_of_singleton in Hn. by destruct D. }
    + destruct (ok_entry _ _ _ _ Hok c m n E Hin) as (x & Hx & Hbx & Hc & ->).
      pose proof (entry_blocked _ _ _ E Hin) as Hne. simpl in Hne.
      exists x. split; [by eapply changed_elem_of|]. by rewrite agree_blocked.
    + destruct Hin as (-> & Hs & ->). exists (with_state st r).
      split; [by eapply list_elem_of_lookup_2, list_lookup_insert_eq, lookup_lt_Some|].
      split; [by apply changed_blocked|]. done.
  - intros c m' Hm. destruct (changed_notify _ _ Hm) as (m & E & ->).
    pose proof (ok_once _ _ _ _ Hok c m E) as Hnd. destruct (decide _); [|done].
    apply NoDup_app. split_and!; [done| |apply NoDup_singleton].
    intros n Hn ->%list_elem_of_singleton. by apply (entry_blocked _ _ _ E) in Hn.
  - intros x Hx y Hy. apply Hel in Hx, Hy.
    destruct Hx as [->|[Hx _]], Hy as [->|[Hy _]]; simpl; intros Hc; try done.
    + by apply (ok_uniform _ _ _ _ Hok r Hr y).
    + by apply (ok_uniform _ _ _ _ Hok x Hx r).
    + by apply (ok_uniform _ _ _ _ Hok x Hx y).
  - exact Henough.
Qed.
End Change.

(** The steps of one thread. *)
Section Turns.
Context (cl : list sClientMemList) (ss ss' : gmap Z QuecSem) (nx : Z) (rs : list reader).
Context (i : nat) (r : reader).
Hypothesis Hok : waits_ok cl ss nx rs.
Hypothesis Hi : rs !! i = Some r.
Hypothesis Hss : ∀ a, a ≠ r_sem r → ss' !! a = ss !! a.

Lemma will_run_other c k st : (c, k) ≠ (r_client r, r_tid r) →
  n_run ss' (<[i := with_state st r]> rs) c k = n_run ss rs c k.
Proof.
  intros Hne. pose proof (n_run_changed cl ss ss' nx rs i r st Hok Hi Hss c k) as H.
  assert (∀ s x, r_client x = r_client r → r_tid x = r_tid r → will_run s c k x = false) as E.
  { intros s x E1 E2. unfold will_run. rewrite E1, E2.
    destruct (Z.eqb_spec (r_client r) c), (Z.eqb_spec (r_tid r) k); try done. congruence. }
  rewrite !E in H by done. lia.
Qed.

Lemma will_run_same st : runnable ss r = true →
  (n_run ss' (<[i := with_state st r]> rs) (r_client r) (r_tid r) + 1 =
   n_run ss rs (r_client r) (r_tid r) + if runnable ss' (with_state st r) then 1 else 0)%nat.
Proof.
  intros Hr. pose proof (n_run_changed cl ss ss' nx rs i r st Hok Hi Hss (r_client r) (r_tid r)) as H.
  unfold will_run in H at 1 2. simpl in H. by rewrite !Z.eqb_refl, Hr in H.
Qed.

Lemma ready_not_blocked : runnable ss r = true → blocked ss r = false.
Proof. unfold runnable, blocked. destruct (r_state r); try done. by intros ->. Qed.

Lemma finished_not_blocked x : x = with_state Finished r → blocked ss' x = false.
Proof. by intros ->. Qed.

(** The thread takes a message. *)
Lemma got_ok m x l :
  runnable ss r = true → find_client (r_client r) cl = Some m →
  pop_first (read_matches (r_tid r)) (mpList m) = Some (x, l) →
  waits_ok (upd_mem (mem_addr m) (set_mpList l) cl) ss' nx (<[i := with_state Finished r]> rs).
Proof.
  intros Hrun Hm (l1 & l2 & Hl & -> & Hx & _)%pop_first_Some.
  pose proof (ok_addrs _ _ _ _ Hok) as Ha.
  eapply change_ok; eauto using ready_not_blocked; try done.
  - by rewrite upd_mem_addrs.
  - intros c. rewrite (find_client_upd _ c _ _ _ Ha (keeps_id_mpList _) Hm).
    case_decide as D; [subst c; rewrite Hm|]; [|destruct (find_client c cl)]; simpl;
      rewrite ?decide_False; try done; by intros [].
  - intros y Hy Hb m'. destruct (elem_of_changed _ _ _ _ Hok i r Finished y Hi Hy) as [->|[Hy' Hne]];
      [done|].
    rewrite (agree_blocked ss ss' r Hss y Hne) in Hb.
    rewrite (find_client_upd _ _ _ _ _ Ha (keeps_id_mpList _) Hm). case_decide as D.
    + intros [= <-]. rewrite D.
      pose proof (ok_enough _ _ _ _ Hok y Hy' Hb m) as He. rewrite D in He. specialize (He Hm).
      unfold n_msgs in *. simpl. rewrite Hl, count_if_app in He. simpl in He.
      rewrite count_if_app.
      destruct (decide (r_tid y = r_tid r)) as [Et|Et].
      * rewrite Et in *. rewrite Hx in He. pose proof (will_run_same Finished Hrun) as Hw.
        simpl in Hw. lia.
      * rewrite will_run_other by congruence. destruct (read_matches (r_tid y) x); lia.
    + intros Hm'. rewrite will_run_other by congruence. by apply (ok_enough _ _ _ _ Hok).
Qed.
(** No message matches. *)
Definition no_message : Prop :=
  ∀ m, find_client (r_client r) cl = Some m → n_msgs (r_tid r) m = 0%nat.

Lemma none_enough cl' st y m' :
  no_message → (∀ c, mpList <$> find_client c cl' = mpList <$> find_client c cl) →
  y ∈ <[i := with_state st r]> rs → blocked ss' y = true →
  find_client (r_client y) cl' = Some m' →
  (n_msgs (r_tid y) m' ≤ n_run ss' (<[i := with_state st r]> rs) (r_client y) (r_tid y))%nat.
Proof.
  intros Hno Hl Hy Hb Hm'. specialize (Hl (r_client y)) as Hly. rewrite Hm' in Hly.
  destruct (find_client (r_client y) cl) as [m|] eqn:Em; [|done]. injection Hly as Hly.
  assert (n_msgs (r_tid y) m' = n_msgs (r_tid y) m) as -> by (unfold n_msgs; by rewrite Hly).
  destruct (decide ((r_client y, r_tid y) = (r_client r, r_tid r))) as [E|E].
  - injection E as E1 E2. rewrite E1 in Em. rewrite E2, (Hno m Em). lia.
  - rewrite will_run_other by done.
    destruct (elem_of_changed _ _ _ _ Hok i r st y Hi Hy) as [->|[Hy' Hne]]; [done|].
    rewrite (agree_blocked ss ss' r Hss y Hne) in Hb. by apply (ok_enough _ _ _ _ Hok).
Qed.

Lemma same_notify st : st ≠ Asleep → ∀ c, mpReadNotifyList <$> find_client c cl =
  (λ l, if decide (c = r_client r ∧ st = Asleep) then l ++ [entry_of r] else l) <$>
  (mpReadNotifyList <$> find_client c cl).
Proof.
  intros Hst c. destruct (find_client c cl); [|done]. simpl. rewrite decide_False; [done|].
  by intros [].
Qed.

(** The thread gives up. *)
Lemma fail_ok :
  runnable ss r = true → no_message →
  waits_ok cl ss' nx (<[i := with_state Finished r]> rs).
Proof.
  intros Hrun Hno. eapply change_ok; eauto using ready_not_blocked, same_notify; try done.
  - apply (ok_addrs _ _ _ _ Hok).
  - intros y Hy Hb m' Hm'. by eapply (none_enough cl).
Qed.

(** The thread goes to sleep. *)
Lemma wait_ok m :
  runnable ss r = true → no_message → find_client (r_client r) cl = Some m →
  ss' !! r_sem r = Some (Sem 0 QUEC_SEM_MAGIC) →
  waits_ok (upd_mem (mem_addr m) (λ m, set_notify (mpReadNotifyList m ++ [entry_of r]) m) cl)
    ss' nx (<[i := with_state Asleep r]> rs).
Proof.
  intros Hrun Hno Hm Hsem. pose proof (ok_addrs _ _ _ _ Hok) as Ha.
  eapply change_ok; eauto using ready_not_blocked.
  - by rewrite upd_mem_addrs by auto with qmi.
  - intros c. rewrite (find_client_upd _ c _ _ _ Ha (keeps_id_add_notify _) Hm).
    case_decide as D; [subst c; rewrite Hm|]; [|destruct (find_client c cl)]; simpl.
    + by rewrite decide_True.
    + rewrite decide_False; [done|]. by intros [].
    + done.
  - intros _. by rewrite Hm.
  - intros y Hy Hb m' Hm'. eapply none_enough; [done| |done..].
    intros c. rewrite (find_client_upd _ c _ _ _ Ha (keeps_id_add_notify _) Hm).
    case_decide as D; [subst c; by rewrite Hm|done].
Qed.

(** The wait ends. *)
Lemma wake_ok :
  r_state r = Asleep → runnable ss r = true →
  waits_ok cl ss' nx (<[i := with_state Ready r]> rs).
Proof.
  intros Has Hrun. eapply change_ok; eauto using ready_not_blocked, same_notify; try done.
  - apply (ok_addrs _ _ _ _ Hok).
  - intros y Hy Hb m' Hm'.
    destruct (elem_of_changed _ _ _ _ Hok i r Ready y Hi Hy) as [->|[Hy' Hne]]; [done|].
    rewrite (agree_blocked ss ss' r Hss y Hne) in Hb.
    pose proof (ok_enough _ _ _ _ Hok y Hy' Hb m' Hm') as He.
    destruct (decide ((r_client y, r_tid y) = (r_client r, r_tid r))) as [E|E].
    + injection E as E1 E2. rewrite E1, E2 in *. pose proof (will_run_same Ready Hrun) as Hw.
      simpl in Hw. lia.
    + by rewrite will_run_other.
Qed.
End Turns.

(** A thread arrives. *)
Lemma start_ok cl ss nx rs c tid q :
  waits_ok cl ss nx rs → uniform rs c tid →
  waits_ok cl (<[nx := q]> ss) (nx + 1) (rs ++ [Reader c tid nx Ready]).
Proof.
  intros Hok Hu.
  assert (∀ x, x ∈ rs ++ [Reader c tid nx Ready] →
    (x ∈ rs ∧ r_sem x ≠ nx) ∨ x = Reader c tid nx Ready) as Hel.
  { intros x [Hx|Hx]%elem_of_app; [left|right; by apply list_elem_of_singleton].
    split; [done|]. pose proof (ok_next _ _ _ _ Hok x Hx). lia. }
  split.
  - apply (ok_addrs _ _ _ _ Hok).
  - rewrite fmap_app. apply NoDup_app. split_and!; [apply (ok_sems _ _ _ _ Hok)| |apply NoDup_singleton].
    intros a (x & -> & Hx)%list_elem_of_fmap Ha%list_elem_of_singleton. simpl in Ha.
    pose proof (ok_next _ _ _ _ Hok x Hx). lia.
  - intros x [[Hx _]| ->]%Hel; [|simpl; lia]. pose proof (ok_next _ _ _ _ Hok x Hx). lia.
  - intros x [[Hx Hne]| ->]%Hel Ha; [|done]. rewrite lookup_insert_ne by done.
    by apply (ok_asleep _ _ _ _ Hok).
  - intros x [[Hx Hne]| ->]%Hel Hb; [|done]. rewrite blocked_other in Hb by done.
    by apply (ok_blocked _ _ _ _ Hok).
  - intros c' m n Hm Hn. destruct (ok_entry _ _ _ _ Hok c' m n Hm Hn) as (x & Hx & Hb & Hc & ->).
    exists x. split; [apply elem_of_app; by left|]. rewrite blocked_other; [done|].
    pose proof (ok_next _ _ _ _ Hok x Hx). lia.
  - apply (ok_once _ _ _ _ Hok).
  - intros x Hx y Hy Hc. apply Hel in Hx as [[Hx _]| ->], Hy as [[Hy _]| ->]; simpl in *; try done.
    + by apply (ok_uniform _ _ _ _ Hok x Hx).
    + symmetry. by apply (Hu x Hx).
    + by apply (Hu y Hy).
  - intros x [[Hx Hne]| ->]%Hel Hb m Hm; [|done]. rewrite blocked_other in Hb by done.
    etrans; [by apply (ok_enough _ _ _ _ Hok x Hx Hb m)|]. unfold n_run. rewrite count_if_app.
    rewrite (count_if_ext (will_run (<[nx := q]> ss) (r_client x) (r_tid x))
      (will_run ss (r_client x) (r_tid x)) rs); [lia|].
    intros y Hy. unfold will_run. rewrite runnable_other; [done|].
    pose proof (ok_next _ _ _ _ Hok y Hy). lia.
Qed.

(** A message arrives for a client, and the first thread it may be for is
    notified. *)
Section Post.
Context (cl : list sClientMemList) (ss : gmap Z QuecSem) (nx : Z) (rs : list reader).
Context (c T : Z) (m : sClientMemList) (rm : sReadMemList).
Hypothesis Hok : waits_ok cl ss nx rs.
Hypothesis Hm : find_client c cl = Some m.
Hypothesis Hrm : mTransactionID rm = T.

Definition with_read : list sClientMemList :=
  upd_mem (mem_addr m) (λ m, set_mpList (mpList m ++ [rm]) m) cl.

Lemma n_msgs_add k m0 :
  n_msgs k (set_mpList (mpList m0 ++ [rm]) m0) =
  (n_msgs k m0 + if read_matches k rm then 1 else 0)%nat.
Proof. unfold n_msgs. simpl. rewrite count_if_app. simpl. lia. Qed.

Lemma post_none :
  pop_first (notify_matches T) (mpReadNotifyList m) = None → waits_ok with_read ss nx rs.
Proof.
  intros Hpop%pop_first_None. pose proof (ok_addrs _ _ _ _ Hok) as Ha.
  assert (∀ c', mpReadNotifyList <$> find_client c' with_read =
    mpReadNotifyList <$> find_client c' cl) as Hn.
  { intros c'. unfold with_read. rewrite (find_client_upd _ c' _ _ _ Ha (keeps_id_add_read _) Hm).
    case_decide as D; [subst c'; by rewrite Hm|done]. }
  split; try apply Hok.
  - unfold with_read. by rewrite upd_mem_addrs.
  - intros r Hr Hb. destruct (ok_blocked _ _ _ _ Hok r Hr Hb) as (m0 & E & Hin).
    specialize (Hn (r_client r)). rewrite E in Hn.
    destruct (find_client (r_client r) with_read) as [m1|]; [|done]. injection Hn as Hn.
    exists m1. by rewrite Hn.
  - intros c' m1 n E Hin. specialize (Hn c'). rewrite E in Hn.
    destruct (find_client c' cl) as [m0|] eqn:E0; [|done]. injection Hn as Hn. rewrite Hn in Hin.
    by eapply ok_entry.
  - intros c' m1 E. specialize (Hn c'). rewrite E in Hn.
    destruct (find_client c' cl) as [m0|] eqn:E0; [|done]. injection Hn as ->. by eapply ok_once.
  - intros r Hr Hb m1. unfold with_read.
    rewrite (find_client_upd _ _ _ _ _ Ha (keeps_id_add_read _) Hm). case_decide as D.
    + intros [= <-]. rewrite n_msgs_add, D.
      assert (read_matches (r_tid r) rm = false) as ->.
      { destruct (ok_blocked _ _ _ _ Hok r Hr Hb) as (m0 & E & Hin). rewrite D, Hm in E.
        injection E as <-. rewrite Forall_forall in Hpop. specialize (Hpop _ Hin).
        unfold notify_matches, read_matches in *. simpl in Hpop. rewrite Hrm.
        rewrite (Z.eqb_sym (r_tid r) T).
        destruct (T =? 0), (r_tid r =? 0), (T =? r_tid r); done. }
      rewrite Nat.add_0_r. pose proof (ok_enough _ _ _ _ Hok r Hr Hb m) as He.
      rewrite D in He. by apply He.
    + intros E. by apply (ok_enough _ _ _ _ Hok).
Qed.
Context (n : sNotifyList) (l : list sNotifyList).
Hypothesis Hpop : pop_first (notify_matches T) (mpReadNotifyList m) = Some (n, l).

Definition popped : list sClientMemList := upd_mem (mem_addr m) (set_notify l) with_read.

Lemma find_popped c' : find_client c' popped =
  if decide (c' = c) then Some (set_notify l (set_mpList (mpList m ++ [rm]) m))
  else find_client c' cl.
Proof.
  pose proof (ok_addrs _ _ _ _ Hok) as Ha.
  assert (find_client c with_read = Some (set_mpList (mpList m ++ [rm]) m)) as Hw.
  { unfold with_read. rewrite (find_client_upd _ _ _ _ _ Ha (keeps_id_add_read _) Hm).
    by rewrite decide_True. }
  unfold popped. change (mem_addr m) with (mem_addr (set_mpList (mpList m ++ [rm]) m)).
  rewrite (find_client_upd c c'); [|by unfold with_read; rewrite upd_mem_addrs|done|done].
  case_decide; [done|]. unfold with_read.
  rewrite (find_client_upd _ _ _ _ _ Ha (keeps_id_add_read _) Hm). by rewrite decide_False.
Qed.

(** The thread that is notified. *)
Lemma notified : ∃ r0, r0 ∈ rs ∧ blocked ss r0 = true ∧ r_client r0 = c ∧ n = entry_of r0 ∧
  ∃ k, ss !! r_sem r0 = Some (Sem k QUEC_SEM_MAGIC) ∧ k = 0.
Proof.
  pose proof (pop_first_Some _ _ _ _ Hpop) as (l1 & l2 & E & _).
  destruct (ok_entry _ _ _ _ Hok c m n Hm) as (r & Hr & Hb & Hc & Hn).
  { rewrite E. apply elem_of_app. right. left. }
  exists r. split_and!; try done. unfold blocked in Hb. destruct (r_state r) eqn:Es; try done.
  destruct (ok_asleep _ _ _ _ Hok r Hr Es) as (k & Ek & Hk). exists k. split; [done|].
  unfold sem_up in Hb. rewrite Ek in Hb. simpl in Hb. bool_to_prop. lia.
Qed.

Lemma blocked_state r0 : blocked ss r0 = true → r_state r0 = Asleep ∧ sem_up ss (r_sem r0) = false.
Proof. unfold blocked. destruct (r_state r0), (sem_up ss (r_sem r0)); done. Qed.

Lemma n_run_up r0 c' k : r0 ∈ rs → blocked ss r0 = true →
  (n_run ss rs c' k + (if ((r_client r0 =? c') && (r_tid r0 =? k))%Z then 1 else 0) ≤
   n_run (<[r_sem r0 := Sem 1 QUEC_SEM_MAGIC]> ss) rs c' k)%nat.
Proof.
  intros Hr0 [Hs Hd]%blocked_state. set (ss' := <[r_sem r0 := _]> ss). unfold n_run.
  assert (will_run ss c' k r0 = false) as H0.
  { unfold will_run, runnable. rewrite Hs, Hd. by rewrite andb_false_r. }
  assert (∀ y, y ∈ rs → will_run ss c' k y = true → will_run ss' c' k y = true) as Hmono.
  { intros y Hy Hw. destruct (decide (r_sem y = r_sem r0)) as [E|E].
    - rewrite (same_reader cl ss nx rs Hok y r0 Hy Hr0 E) in Hw. congruence.
    - unfold will_run, ss'. by rewrite runnable_other. }
  destruct ((r_client r0 =? c') && (r_tid r0 =? k)) eqn:E.
  - rewrite Nat.add_1_r. apply (count_if_strict _ _ _ r0 Hmono Hr0 H0).
    unfold will_run, runnable, sem_up, ss'. by rewrite E, Hs, lookup_insert_eq.
  - rewrite Nat.add_0_r. by apply count_if_mono.
Qed.

(** The others sleep on. *)
Lemma blocked_up r0 x : r0 ∈ rs → x ∈ rs →
  blocked (<[r_sem r0 := Sem 1 QUEC_SEM_MAGIC]> ss) x = true → x ≠ r0 ∧ blocked ss x = true.
Proof.
  intros Hr0 Hx Hb. destruct (decide (r_sem x = r_sem r0)) as [E|E].
  - rewrite (same_reader cl ss nx rs Hok x r0 Hx Hr0 E) in Hb. unfold blocked, sem_up in Hb.
    rewrite lookup_insert_eq in Hb. by destruct (r_state r0).
  - rewrite blocked_other in Hb by done. split; congruence.
Qed.

(** A message for a thread that sleeps is also for the thread that is notified. *)
Lemma same_kind r0 x :
  r0 ∈ rs → x ∈ rs → r_client r0 = c → r_client x = c → n = entry_of r0 →
  read_matches (r_tid x) rm = true → r_tid r0 = r_tid x.
Proof.
  intros Hr0 Hx Hc0 Hcx Hn Er. pose proof (ok_uniform _ _ _ _ Hok x Hx r0 Hr0) as Hu.
  rewrite Hc0, Hcx in Hu. specialize (Hu eq_refl).
  pose proof (pop_first_Some _ _ _ _ Hpop) as (_ & _ & _ & _ & Hmt & _).
  unfold read_matches in Er. rewrite Hrm in Er.
  rewrite Hn in Hmt. unfold notify_matches in Hmt. simpl in Hmt.
  bool_to_prop. destruct Er as [Er|Er]; bool_to_prop; [lia|].
  destruct (decide (T = 0)) as [E0|E0]; [lia|]. destruct Hmt as [Hmt|Hmt]; bool_to_prop; [|lia].
  destruct Hmt; bool_to_prop; lia.
Qed.

(** The entries of the lists after the removal. *)
Lemma popped_entries c' m1 n1 :
  find_client c' popped = Some m1 → n1 ∈ mpReadNotifyList m1 →
  ∃ m0, find_client c' cl = Some m0 ∧ n1 ∈ mpReadNotifyList m0 ∧ (c' = c → n1 ≠ n).
Proof.
  pose proof (pop_first_Some _ _ _ _ Hpop) as (l1 & l2 & El & El' & _).
  rewrite find_popped. case_decide as D; [|by exists m1]. intros [= <-]. simpl. rewrite El'.
  intros Hin. exists m. rewrite D. split_and!; [done| |].
  - rewrite El. apply elem_of_app in Hin as [?|?]; apply elem_of_app; [by left|right; by right].
  - intros _ ->. pose proof (ok_once _ _ _ _ Hok c m Hm) as Hnd. rewrite El in Hnd.
    apply NoDup_app in Hnd as (_ & H1 & H2). apply NoDup_cons in H2 as [H2 _].
    apply elem_of_app in Hin as [Hin|Hin]; [|done]. apply (H1 n Hin). left.
Qed.

Lemma popped_kept c' m0 n1 :
  find_client c' cl = Some m0 → n1 ∈ mpReadNotifyList m0 → n1 ≠ n →
  ∃ m1, find_client c' popped = Some m1 ∧ n1 ∈ mpReadNotifyList m1.
Proof.
  pose proof (pop_first_Some _ _ _ _ Hpop) as (l1 & l2 & El & El' & _).
  intros E Hin Hne. rewrite find_popped. case_decide as D; [|by exists m0].
  rewrite D, Hm in E. injection E as <-. eexists. split; [done|]. simpl. rewrite El'.
  rewrite El in Hin. apply elem_of_app.
  apply elem_of_app in Hin as [Hin|[Hin|Hin]%elem_of_cons]; auto. congruence.
Qed.

Lemma popped_once c' m1 : find_client c' popped = Some m1 → NoDup (mpReadNotifyList m1).
Proof.
  pose proof (pop_first_Some _ _ _ _ Hpop) as (l1 & l2 & El & El' & _).
  rewrite find_popped. case_decide as D; [|by apply (ok_once _ _ _ _ Hok)].
  intros [= <-]. simpl. rewrite El'. pose proof (ok_once _ _ _ _ Hok c m Hm) as Hnd. rewrite El in Hnd.
  apply NoDup_app in Hnd as (H1 & H2 & H3). apply NoDup_cons in H3 as [_ H3].
  apply NoDup_app. split_and!; [done| |done]. intros y Hy Hy2. apply (H2 y Hy). by right.
Qed.

(** For every message there is still a thread that will run. *)
Lemma popped_enough r0 x m1 :
  r0 ∈ rs → blocked ss r0 = true → r_client r0 = c → n = entry_of r0 →
  x ∈ rs → blocked ss x = true → find_client (r_client x) popped = Some m1 →
  (n_msgs (r_tid x) m1 ≤
   n_run (<[r_sem r0 := Sem 1 QUEC_SEM_MAGIC]> ss) rs (r_client x) (r_tid x))%nat.
Proof.
  intros Hr0 Hb0 Hc0 Hn Hx Hb. rewrite find_popped.
  pose proof (n_run_up r0 (r_client x) (r_tid x) Hr0 Hb0) as Hrun. case_decide as D.
  - intros [= <-]. change (n_msgs (r_tid x) (set_notify l (set_mpList (mpList m ++ [rm]) m)))
      with (n_msgs (r_tid x) (set_mpList (mpList m ++ [rm]) m)).
    rewrite n_msgs_add.
    pose proof (ok_enough _ _ _ _ Hok x Hx Hb m) as He. rewrite D in He, Hrun |- *.
    specialize (He Hm). rewrite Hc0, Z.eqb_refl in Hrun. simpl in Hrun.
    destruct (read_matches (r_tid x) rm) eqn:Er; [|lia].
    rewrite (same_kind r0 x Hr0 Hx Hc0 D Hn Er), Z.eqb_refl in Hrun. lia.
  - intros E. pose proof (ok_enough _ _ _ _ Hok x Hx Hb m1 E). lia.
Qed.

Lemma post_some r0 ss' :
  r0 ∈ rs → blocked ss r0 = true → r_client r0 = c → n = entry_of r0 →
  ss' = <[r_sem r0 := Sem 1 QUEC_SEM_MAGIC]> ss →
  waits_ok popped ss' nx rs.
Proof.
  intros Hr0 Hb0 Hc0 Hn ->. set (ss' := <[r_sem r0 := _]> ss).
  assert (∀ x, x ∈ rs → x ≠ r0 → r_sem x ≠ r_sem r0) as Hne.
  { intros x Hx Hne E. by apply Hne, (same_reader cl ss nx rs Hok). }
  split; try apply Hok.
  - unfold popped, with_read. rewrite !upd_mem_addrs by auto with qmi. apply Hok.
  - intros x Hx Ha. unfold ss'. destruct (decide (r_sem r0 = r_sem x)) as [->|E].
    + rewrite lookup_insert_eq. exists 1. auto with lia.
    + rewrite lookup_insert_ne by done. by apply (ok_asleep _ _ _ _ Hok).
  - intros x Hx [Hx0 Hb]%blocked_up; [|done..].
    destruct (ok_blocked _ _ _ _ Hok x Hx Hb) as (m0 & E & Hin).
    apply (popped_kept _ _ _ E Hin). rewrite Hn. intros [= _ Es]. by apply (Hne x Hx Hx0).
  - intros c' m1 n1 E (m0 & E0 & Hin0 & Hn1)%(popped_entries _ _ _ E).
    destruct (ok_entry _ _ _ _ Hok c' m0 n1 E0 Hin0) as (x & Hx & Hb & Hc & ->).
    exists x. split_and!; try done. unfold ss'. rewrite blocked_other; [done|].
    apply Hne; [done|]. intros ->. apply Hn1; congruence.
  - apply popped_once.
  - intros x Hx [Hx0 Hb]%blocked_up m1; [|done..]. by apply popped_enough.
Qed.
End Post.

(** ** The steps keep the invariant *)

Definition waits_inv (s : qmi_dev) (rs : list reader) : Prop :=
  mbQMIValid s = true ∧ waits_ok (mpClientMemList s) (sems s) (next_addr s) rs.

Lemma waits_inv_core s s' rs : core s' = core s → waits_inv s rs → waits_inv s' rs.
Proof. unfold core, waits_inv. intros [= -> -> -> ->]. done. Qed.

Section Steps.
Context (rs : list reader).
Implicit Types s : qmi_dev.

(** The callback of a thread that waits raises its semaphore. *)
Lemma ends_upsem s c a k (Φ : () → qmi_dev → Prop) :
  sems s !! a = Some (Sem k QUEC_SEM_MAGIC) →
  Φ () (set_sems (<[a := Sem (k + 1) QUEC_SEM_MAGIC]> (sems s)) s) →
  ends (call_handler UpSem_handler c a) s Φ.
Proof.
  intros Hs H. unfold call_handler.
  change (ends (UpSem c a) s Φ). apply ends_bind, ends_get. rewrite Hs. cbn [magic].
  rewrite Z.eqb_refl. apply ends_bind, ends_get. rewrite Hs. by apply ends_modify.
Qed.

Lemma notify_keeps s c T m rm :
  waits_inv s rs → find_client c (mpClientMemList s) = Some m → mTransactionID rm = T →
  ends (NotifyAndPopNotifyList c T)
    (set_clients (with_read (mpClientMemList s) m rm) s) (λ _ s', waits_inv s' rs).
Proof.
  intros [Hv Hok] Hm Hrm. unfold NotifyAndPopNotifyList.
  apply ends_bind, core_find; [done|]. simpl mpClientMemList.
  pose proof (ok_addrs _ _ _ _ Hok) as Ha. unfold with_read.
  rewrite (find_client_upd _ _ _ _ _ Ha (keeps_id_add_read _) Hm), decide_True by done.
  cbn [mpReadNotifyList set_mpList mem_addr].
  destruct (pop_first (notify_matches T) (mpReadNotifyList m)) as [[n l]|] eqn:Ep.
  - destruct (notified _ _ _ _ c T m Hok Hm n l Ep) as (r0 & Hr0 & Hb & Hc & -> & k & Hk & ->).
    apply ends_bind, ends_modify, ends_bind, ends_modify, ends_bind.
    eapply ends_upsem; [exact Hk|]. apply ends_bind, core_lock. intros s1 E1.
    apply ends_bind, ends_modify, ends_ret. eapply waits_inv_core; [exact E1|].
    split; [done|]. simpl.
    by eapply (post_some _ _ _ _ c T m rm Hok Hm Hrm _ l Ep r0).
  - apply ends_ret. split; [done|]. by eapply (post_none _ _ _ _ c T m rm Hok Hm Hrm Ep).
Qed.

Lemma dispatch_keeps l c T d n s :
  waits_inv s rs → ends (dispatch c T d n l) s (λ _ s', waits_inv s' rs).
Proof.
  revert s. induction l as [|m l IH]; intros s Hs; [by apply ends_ret|]. cbn [dispatch].
  destruct ((mClientID m =? c) || _); [|by apply IH].
  apply ends_bind, core_kmalloc. intros ok s1 E1%(waits_inv_core _ _ rs); [|done].
  destruct ok; cbn [negb]; [|by apply ends_ret].
  apply ends_bind, ends_lift. intros dc _. apply ends_bind. unfold AddToReadMemList.
  apply ends_bind, core_find; [apply E1|].
  destruct (find_client (mClientID m) (mpClientMemList s1)) as [m0|] eqn:Em; cbn [negb].
  - apply ends_bind, core_kmalloc. intros ok s2 E2. destruct ok; cbn [negb].
    + apply ends_bind, ends_modify, ends_ret. cbn [negb]. apply ends_bind.
      injection E2 as Hv2 Hc2 Hs2 Hn2.
      eapply ends_mono; [apply (notify_keeps s2 _ _ m0)|].
      * unfold waits_inv. by rewrite Hv2, Hc2, Hs2, Hn2.
      * by rewrite Hc2.
      * done.
      * intros ? s3 Hs3. apply ends_bind, ends_modify. destruct (Z.shiftr c 8 =? 255); cbn [negb].
        -- apply IH. by eapply waits_inv_core; [|exact Hs3].
        -- apply ends_ret. by eapply waits_inv_core; [|exact Hs3].
    + apply ends_ret, ends_modify. by eapply waits_inv_core; [|exact E1].
  - apply ends_ret, ends_modify. by eapply waits_inv_core; [|exact E1].
Qed.

Lemma ReadCallback_keeps status buf n s :
  waits_inv s rs → ends (ReadCallback status buf n) s (λ _ s', waits_inv s' rs).
Proof.
  intros Hs. unfold ReadCallback. apply ends_bind, ends_bind, ends_get, ends_ret.
  assert (ends (ignore ResubmitIntURB) s (λ _ s', waits_inv s' rs)) as Hre.
  { apply core_resubmit. intros s' E. by eapply waits_inv_core. }
  destruct (mbQMIValid s); cbn [negb]; [|by apply ends_ret].
  destruct (status =? 0); cbn [negb]; [|done].
  apply ends_bind, ends_lift. intros [result cid] _. destruct (result <? 0); [done|].
  destruct (u16 n <? result + 3); [done|]. apply ends_bind, ends_lift. intros T _.
  apply ends_bind, core_lock. intros s1 E1. apply ends_bind, ends_get, ends_bind.
  eapply ends_mono; [apply dispatch_keeps; by eapply waits_inv_core|]. intros ? s2 Hs2.
  apply ends_bind, ends_modify, core_resubmit. intros s3 E3.
  eapply waits_inv_core; [exact E3|]. by eapply waits_inv_core; [|exact Hs2].
Qed.
End Steps.

Lemma turn_keeps s rs i r :
  waits_inv s rs → rs !! i = Some r → r_state r = Ready →
  ends (reader_turn r) s (λ st s', waits_inv s' (<[i := with_state st r]> rs)).
Proof.
  intros [Hv Hok] Hi Hst. unfold reader_turn. apply ends_bind, ends_bind, ends_get, ends_ret.
  rewrite Hv. cbn [negb]. apply ends_bind, core_lock. intros s1 E1. injection E1 as Hv1 Hc1 Hs1 Hn1.
  assert (runnable (sems s) r = true) as Hrun by (unfold runnable; by rewrite Hst).
  unfold ReadSync_try, PopFromReadMemList. apply ends_bind, ends_bind, ends_bind, core_find; [congruence|].
  assert (∀ ss', (∀ a, a ≠ r_sem r → ss' !! a = sems s !! a) →
    no_message (mpClientMemList s) r →
    waits_ok (mpClientMemList s) ss' (next_addr s) (<[i := with_state Finished r]> rs)) as Hfail.
  { intros ss' Hss Hno. by eapply fail_ok. }
  assert (∀ a, a ≠ r_sem r → <[r_sem r := Sem 0 QUEC_SEM_MAGIC]> (sems s) !! a = sems s !! a) as Hss.
  { intros a Ha. by rewrite lookup_insert_ne. }
  rewrite Hc1. destruct (find_client (r_client r) (mpClientMemList s)) as [m|] eqn:Em.
  2: { apply ends_ret, ends_bind, ends_modify, ends_bind, ends_bind, core_find; [simpl; congruence|].
    simpl. rewrite Hc1, Em. apply ends_ret, ends_bind, ends_modify, ends_ret, ends_ret.
    split; [simpl; congruence|]. simpl. rewrite Hc1, Hs1, Hn1. apply Hfail; [done|].
    intros m. by rewrite Em. }
  destruct (pop_first _ (mpList m)) as [[x l]|] eqn:Ep.
  - apply ends_bind, ends_modify, ends_bind, ends_modify, ends_ret, ends_bind, ends_modify, ends_ret,
      ends_ret. split; [simpl; congruence|]. simpl. rewrite Hc1, Hs1, Hn1. by eapply got_ok.
  - assert (no_message (mpClientMemList s) r) as Hno.
    { intros m' Hm'. assert (m' = m) as -> by congruence. apply count_if_zero.
      apply pop_first_None in Ep. by rewrite Forall_forall in Ep. }
    apply ends_ret, ends_bind, ends_modify, ends_bind, ends_bind, core_find; [simpl; congruence|].
    simpl mpClientMemList. rewrite Hc1, Em.
    apply ends_bind, core_kmalloc. intros ok s2 E2. injection E2 as Hv2 Hc2 Hs2 Hn2.
    rewrite Hc1 in Hc2. rewrite Hs1 in Hs2. rewrite Hn1 in Hn2.
    destruct ok; cbn [negb].
    + apply ends_bind, ends_modify, ends_ret, ends_bind, ends_modify, ends_ret, ends_ret.
      split; [simpl; congruence|]. simpl. rewrite Hc2, Hs2, Hn2.
      eapply wait_ok; eauto. by rewrite lookup_insert_eq.
    + apply ends_ret, ends_bind, ends_modify, ends_ret, ends_ret.
      split; [simpl; congruence|]. simpl. rewrite Hc2, Hs2, Hn2. by apply Hfail.
Qed.

Lemma step_keeps s rs s' rs' :
  step uniform (s, rs) (s', rs') → waits_inv s rs → waits_inv s' rs'.
Proof.
  intros Hstep Hinv. pose proof Hinv as [Hv Hok]. inversion Hstep; subst.
  - by eapply (ReadCallback_keeps _ status buf n s).
  - match goal with H : sema_new _ _ = _ |- _ => rewrite sema_new_eq in H; injection H as <- <- end.
    split; [done|]. by apply start_ok.
  - by eapply turn_keeps.
  - match goal with H : down_trylock _ _ = _ |- _ => rename H into Hd end.
    assert (r ∈ rs) as Hr by by eapply list_elem_of_lookup_2.
    destruct (ok_asleep _ _ _ _ Hok r Hr) as (k & Hk & _); [done|].
    rewrite down_trylock_eq, Hk in Hd. simpl in Hd.
    destruct (0 <? k) eqn:Epos; [|done]. injection Hd as <-. split; [done|]. simpl.
    eapply wake_ok; eauto.
    + intros a Ha. by rewrite lookup_insert_ne.
    + match goal with H : r_state r = Asleep |- _ => unfold runnable, sem_up; by rewrite H, Hk end.
Qed.

Lemma quiet_inv s : quiet s → waits_inv s [].
Proof.
  intros (Hv & Ha & Hq). split; [done|]. split; try (intros ? H%elem_of_nil; done); try done.
  - apply NoDup_nil_2.
  - intros c m n [Hin _]%find_client_Some. rewrite Hq by done. by intros ?%elem_of_nil.
  - intros c m [Hin _]%find_client_Some. rewrite Hq by done. apply NoDup_nil_2.
Qed.

Lemma reachable_inv s rs : reachable uniform s rs → waits_inv s rs.
Proof.
  intros (s0 & Hq & Hsteps). apply quiet_inv in Hq. revert Hq Hsteps.
  generalize (@nil reader). intros rs0 Hinv Hsteps.
  remember (s0, rs0) as x. remember (s, rs) as y. revert s0 rs0 s rs Heqx Heqy Hinv.
  induction Hsteps as [x|x [s1 rs1] y Hstep _ IH]; intros; subst; [by simplify_eq|].
  eapply IH; [done|done|]. by eapply step_keeps.
Qed.

(** C10: No lost wakeup: while messages arrive and threads come, take messages and
    wait in any order, and allocations fail or succeed, a thread sleeps in
    [ReadSync] with a message for it in the list of its client only as long as
    another thread is about to take it: there are at least as many threads waiting
    for the same transaction that will run as such messages.  This holds provided
    that on each client either every thread waits for any message or every thread
    waits for a transaction. *)
Theorem no_lost_wakeup s rs r m :
  reachable uniform s rs → r ∈ rs → r_state r = Asleep → sem_up (sems s) (r_sem r) = false →
  find_client (r_client r) (mpClientMemList s) = Some m →
  (length (List.filter (read_matches (r_tid r)) (mpList m)) ≤
   length (List.filter (will_run (sems s) (r_client r) (r_tid r)) rs))%nat.
Proof.
  intros [_ Hok]%reachable_inv Hr Hs Hd Hm.
  assert (∀ A (p : A → bool) l, length (List.filter p l) = count_if p l) as E.
  { intros A p l. induction l as [|x l IH]; [done|]. simpl. destruct (p x); simpl; by rewrite IH. }
  rewrite !E. apply (ok_enough _ _ _ _ Hok r Hr); [|done]. unfold blocked. by rewrite Hs, Hd.
Qed.

(** ** Runs *)

Inductive move :=
| Message (buf : list Z)
| Start (c tid : Z)
| Turn (i : nat)
| Wake_up (i : nat).

Definition exec (mv : move) (x : qmi_dev * list reader) : option (qmi_dev * list reader) :=
  let '(s, rs) := x in
  match mv with
  | Message buf =>
    match ReadCallback 0 buf (Z.of_nat (length buf)) s with
    | Done (_, s') => Some (s', rs) | _ => None end
  | Start c tid =>
    match sema_new 0 s with
    | Done (a, s') => Some (s', rs ++ [Reader c tid a Ready]) | _ => None end
  | Turn i =>
    r ← rs !! i;
    if negb (bool_decide (r_state r = Ready)) then None else
    match reader_turn r s with
    | Done (st, s') => Some (s', <[i := with_state st r]> rs) | _ => None end
  | Wake_up i =>
    r ← rs !! i;
    if negb (bool_decide (r_state r = Asleep)) then None else
    match down_trylock (r_sem r) s with
    | Done (true, s') => Some (s', <[i := with_state Ready r]> rs) | _ => None end
  end.

(** [may]: which threads may come. *)
Fixpoint exec_all (may : list reader → Z → Z → bool) (l : list move)
    (x : qmi_dev * list reader) : option (qmi_dev * list reader) :=
  match l with
  | [] => Some x
  | mv :: l =>
    if match mv with Start c tid => may x.2 c tid | _ => true end
    then x ← exec mv x; exec_all may l x else None
  end.

Definition uniformb (rs : list reader) (c tid : Z) : bool :=
  forallb (λ r, negb (r_client r =? c) || eqb (r_tid r =? 0) (tid =? 0)) rs.

Lemma uniformb_spec rs c tid : uniformb rs c tid = true → uniform rs c tid.
Proof.
  unfold uniformb. rewrite forallb_forall. intros H r Hr%list_elem_of_In Hc.
  specialize (H r Hr). rewrite Hc, Z.eqb_refl in H. simpl in H. apply eqb_prop in H. lia.
Qed.

Definition starts_ok (may_start : list reader → Z → Z → Prop) (mv : move) rs : Prop :=
  match mv with Start c tid => may_start rs c tid | _ => True end.

Lemma exec_step may_start mv s rs y :
  starts_ok may_start mv rs → exec mv (s, rs) = Some y → step may_start (s, rs) y.
Proof.
  destruct mv as [buf|c tid|i|i]; simpl; intros Hok.
  - destruct (ReadCallback _ _ _ _) as [[[] s']| |] eqn:E; [|done..]. intros [= <-].
    by eapply step_message.
  - intros [= <-]. by eapply step_start.
  - destruct (rs !! i) as [r|] eqn:Ei; [|done]. simpl. case_bool_decide; [|done]. simpl.
    destruct (reader_turn _ _) as [[st s']| |] eqn:E; [|done..]. intros [= <-]. by eapply step_turn.
  - destruct (rs !! i) as [r|] eqn:Ei; [|done]. simpl. case_bool_decide; [|done]. simpl.
    destruct (down_trylock _ _) as [[[] s']| |] eqn:E; [|done..]. intros [= <-]. by eapply step_wake.
Qed.

Lemma exec_all_steps (may : list reader → Z → Z → bool) may_start l s rs y :
  (∀ rs c tid, may rs c tid = true → may_start rs c tid) →
  exec_all may l (s, rs) = Some y → rtc (step may_start) (s, rs) y.
Proof.
  intros Hmay. revert s rs. induction l as [|mv l IH]; intros s rs; cbn [exec_all].
  { intros [= <-]. apply rtc_refl. }
  destruct (match mv with Start _ _ => _ | _ => _ end) eqn:Em; [|done].
  destruct (exec mv (s, rs)) as [[s1 rs1]|] eqn:E; [|done]. cbn. intros H.
  apply (rtc_l _ _ (s1, rs1)); [|by apply IH]. eapply exec_step; [|exact E].
  destruct mv; try done. by apply Hmay.
Qed.

(** A device with one client. *)
Definition idle_data : gobi_data :=
  let z := replicate 4 0 in
  GobiData (replicate 14 0) (Qmi.QmapSetting z z z z z z) (UlAgg 0 0 0) 0 false false false 0
    no_read_thread ∅.
Definition idle_net : gobi_net :=
  GobiNet false true false 0 0 true true 4 true (Some 0) 0 0.
Definition one_client (c : Z) : qmi_dev :=
  QmiDev true false [ClientMem 1 c [] [] [] 0] false 0 0 idle_net idle_data ∅ ∅ 2 1
    (QmiEnv [] [] []) [].

Lemma one_client_quiet c : quiet (one_client c).
Proof.
  split_and!; [done|apply NoDup_singleton|]. by intros m ->%list_elem_of_singleton.
Qed.

(** A message for client 7 of the service 1 with a transaction. *)
Definition message (tid : Z) : list Z :=
  [1; 15; 0; 0x80; 1; 7; 2] ++ le_bytes 2 tid ++ [0x22; 0; 4; 0; 0; 0; 0].

(** The condition of [no_lost_wakeup] is necessary.  One run: a thread waits for the
    transaction 5, one for any message and one for the transaction 6; two
    messages and the wakeups they cause leave the last thread asleep with its
    message in the list and no thread that runs. *)
Theorem mixed_waiters_lost_wakeup :
  ∃ s rs r, reachable (λ _ _ _, True) s rs ∧ Forall (λ r, runnable (sems s) r = false) rs ∧
    r ∈ rs ∧ r_state r = Asleep ∧ has_message s r = true.
Proof.
  destruct (exec_all (λ _ _ _, true) [Start 0x701 5; Turn 0; Start 0x701 0; Turn 1; Start 0x701 6; Turn 2;
    Message (message 5); Message (message 6); Wake_up 1; Turn 1; Wake_up 0; Turn 0]
    (one_client 0x701, [])) as [[s rs]|] eqn:E; [|by vm_compute in E].
  exists s, rs, (Reader 0x701 6 4 Asleep).
  split; [exists (one_client 0x701); split; [apply one_client_quiet|by eapply exec_all_steps; [|exact E]]|].
  vm_compute in E. injection E as <- <-.
  split_and!; [by repeat constructor|by right; right; left|done|by vm_compute].
Qed.

(** Two threads that wait for one transaction, one of them notified. *)
Lemma no_lost_wakeup_witness : ∃ s rs r m,
  r ∈ rs ∧ has_message s r = true ∧
  (length (List.filter (read_matches (r_tid r)) (mpList m)) ≤
   length (List.filter (will_run (sems s) (r_client r) (r_tid r)) rs))%nat.
Proof.
  destruct (exec_all uniformb [Start 0x701 5; Turn 0; Start 0x701 5; Turn 1; Message (message 5)]
    (one_client 0x701, [])) as [[s rs]|] eqn:E; [|by vm_compute in E].
  assert (reachable uniform s rs) as Hr.
  { exists (one_client 0x701). split; [apply one_client_quiet|].
    eapply exec_all_steps; [apply uniformb_spec|exact E]. }
  exists s, rs, (Reader 0x701 5 3 Asleep). vm_compute in E. injection E as <- <-. eexists.
  split; [right; left|]. split; [by vm_compute|].
  eapply no_lost_wakeup; [exact Hr|right; left|done|by vm_compute|vm_compute; reflexivity].
Defined.
