(* ===== verification/QmiRuns.v ===== *)
(** * The GobiNet client layer: runs of its operations

    Rules for runs that end, when the kernel grants what it is asked for, and from
    them the runs of the operations on one client, of [WriteSync] whose URB
    completes and of [ReadCallback]. *)

From S2P Require Import Prelude Kernel GobiQmi QmiDev QmiLists.
From stdpp Require Import gmap.
Import Qmi.

#[local] Open Scope Z_scope.
#[local] Open Scope c_scope.

(** ** Rules *)

(** The kernel grants everything. *)
Definition grants (s : qmi_dev) : Prop := kmallocs (env s) = [] ∧ rets (env s) = [].

(** No address from [next_addr] on is in use. *)
Definition fresh_above (s : qmi_dev) : Prop :=
  ∀ a, next_addr s ≤ a → sems s !! a = None ∧ urbs s !! a = None.

Section Rules.
Implicit Types s : qmi_dev.

Lemma runs_kmalloc s (Φ : bool → qmi_dev → Prop) :
  kmallocs (env s) = [] → Φ true (set_live (live s + 1) s) → runs kmalloc s Φ.
Proof.
  intros Hk H. unfold kmalloc. apply runs_bind, runs_get. rewrite Hk.
  by apply runs_bind, runs_modify, runs_ret.
Qed.

Lemma runs_free s (Φ : () → qmi_dev → Prop) : Φ () (set_live (live s - 1) s) → runs kfree s Φ.
Proof. intros H. by apply runs_modify. Qed.

Lemma runs_out o s (Φ : () → qmi_dev → Prop) :
  Φ () (set_trace (o :: trace s) s) → runs (out o) s Φ.
Proof. intros H. by apply runs_modify. Qed.

Lemma runs_granted s (Φ : Z → qmi_dev → Prop) :
  rets (env s) = [] → Φ 0 s → runs ret_of_kernel s Φ.
Proof. intros Hk H. unfold ret_of_kernel. apply runs_bind, runs_get. rewrite Hk. by apply runs_ret. Qed.

Lemma runs_addr s (Φ : Z → qmi_dev → Prop) :
  Φ (next_addr s) (set_next (next_addr s + 1) s) → runs new_addr s Φ.
Proof. intros H. apply runs_bind, runs_get. by apply runs_bind, runs_modify, runs_ret. Qed.

Lemma runs_lock s (Φ : () → qmi_dev → Prop) :
  mClientMemLock s = false → Φ () (set_lock true s) → runs spin_lock s Φ.
Proof. intros Hl H. unfold spin_lock. apply runs_bind, runs_get. rewrite Hl. by apply runs_modify. Qed.

Lemma runs_valid s (Φ : bool → qmi_dev → Prop) :
  mbQMIValid s = true → Φ true s → runs IsDeviceValid s Φ.
Proof. intros Hv H. unfold IsDeviceValid. apply runs_bind, runs_get, runs_ret. by rewrite Hv. Qed.

Lemma runs_find c s (Φ : option sClientMemList → qmi_dev → Prop) :
  mbQMIValid s = true → mClientMemLock s = true →
  Φ (find_client c (mpClientMemList s)) s → runs (FindClientMem c) s Φ.
Proof.
  intros Hv Hl H. unfold FindClientMem. apply runs_bind, runs_valid; [done|]. cbn [negb].
  apply runs_bind, runs_get. rewrite Hl. by apply runs_ret.
Qed.

Lemma runs_resubmit s (Φ : () → qmi_dev → Prop) :
  rets (env s) = [] →
  Φ () (if mpIntURB (read_bufs (data s)) then set_trace (Int_submit :: trace s) s else s) →
  runs (ignore ResubmitIntURB) s Φ.
Proof.
  intros Hr H. unfold ignore, ResubmitIntURB. apply runs_bind, runs_bind, runs_get.
  destruct (mpIntURB _); cbn [negb].
  - apply runs_bind, runs_granted; [done|]. by apply runs_bind, runs_out, runs_ret, runs_ret.
  - by apply runs_ret, runs_ret.
Qed.
End Rules.

(** ** The lists of a client *)

Section Client.
Context (s : qmi_dev) (c : Z) (m : sClientMemList).
Hypothesis Hv : mbQMIValid s = true.
Hypothesis Hl : mClientMemLock s = true.
Hypothesis Hm : find_client c (mpClientMemList s) = Some m.

(** The state after a store to the client. *)
Definition with_mem (f : sClientMemList → sClientMemList) (d : Z) : qmi_dev :=
  set_clients (upd_mem (mem_addr m) f (mpClientMemList s)) (set_live (live s + d) s).

Lemma runs_add_read T data n (Φ : bool → qmi_dev → Prop) :
  kmallocs (env s) = [] →
  Φ true (with_mem (λ m, set_mpList (mpList m ++ [ReadMem data T n]) m) 1) →
  runs (AddToReadMemList c T data n) s Φ.
Proof.
  intros Hk H. unfold AddToReadMemList. apply runs_bind, runs_find; [done..|]. rewrite Hm.
  apply runs_bind, runs_kmalloc; [done|]. cbn [negb]. by apply runs_bind, runs_modify, runs_ret.
Qed.

Lemma runs_add_notify T f a (Φ : bool → qmi_dev → Prop) :
  kmallocs (env s) = [] →
  Φ true (with_mem (λ m, set_notify (mpReadNotifyList m ++ [Notify f T a]) m) 1) →
  runs (AddToNotifyList c T f a) s Φ.
Proof.
  intros Hk H. unfold AddToNotifyList. apply runs_bind, runs_find; [done..|]. rewrite Hm.
  apply runs_bind, runs_kmalloc; [done|]. cbn [negb]. by apply runs_bind, runs_modify, runs_ret.
Qed.

Lemma runs_add_urb u (Φ : bool → qmi_dev → Prop) :
  kmallocs (env s) = [] →
  Φ true (with_mem (λ m, set_urblist (mpURBList m ++ [u]) m) 1) → runs (AddToURBList c u) s Φ.
Proof.
  intros Hk H. unfold AddToURBList. apply runs_bind, runs_find; [done..|]. rewrite Hm.
  apply runs_bind, runs_kmalloc; [done|]. cbn [negb]. by apply runs_bind, runs_modify, runs_ret.
Qed.

Lemma runs_pop_urb u l (Φ : option Z → qmi_dev → Prop) :
  mpURBList m = u :: l → Φ (Some u) (with_mem (set_urblist l) (-1)) → runs (PopFromURBList c) s Φ.
Proof.
  intros Hu H. unfold PopFromURBList. apply runs_bind, runs_find; [done..|]. rewrite Hm, Hu.
  by apply runs_bind, runs_modify, runs_bind, runs_free, runs_ret.
Qed.

Lemma runs_pop_read T (Φ : option (list Z * Z) → qmi_dev → Prop) :
  match pop_first (read_matches T) (mpList m) with
  | Some (r, l) => Φ (Some (mpData r, mDataSize r)) (with_mem (set_mpList l) (-1))
  | None => Φ None s
  end → runs (PopFromReadMemList c T) s Φ.
Proof.
  intros H. unfold PopFromReadMemList. apply runs_bind, runs_find; [done..|]. rewrite Hm.
  destruct (pop_first _ _) as [[r l]|]; [|by apply runs_ret].
  by apply runs_bind, runs_modify, runs_bind, runs_free, runs_ret.
Qed.
End Client.

(** A state is kept as its fields: the accesses are computed after every step. *)
Ltac qstate w :=
  eval cbv beta iota delta
    [set_valid set_dereg set_clients set_lock set_xid set_down set_data set_sems set_urbs
     set_next set_live set_env set_trace with_mem
     mbQMIValid mbDeregisterQMIDevice mpClientMemList mClientMemLock mQMICTLTransactionID
     mDownReason net data sems urbs next_addr live env trace] in w.
Ltac qnorm :=
  lazymatch goal with
  | |- runs ?m ?w ?Φ => let w' := qstate w in change (runs m w' Φ)
  | |- ?g => let g' := qstate g in change g'
  end;
  cbn [mbQMIValid mbDeregisterQMIDevice mpClientMemList mClientMemLock mQMICTLTransactionID
       mDownReason net data sems urbs next_addr live env trace
       kmallocs rets waits negb sem_count magic urb_status urb_context app
       Z.ltb Z.eqb Z.compare default from_option id].
Tactic Notation "qrun" uconstr(rule) :=
  apply runs_bind; eapply rule; try eassumption; try reflexivity; qnorm.

(** The goal is [H], for a state with the same fields. *)
Ltac same_state H :=
  refine (eq_ind _ _ H _ _); apply qmi_ext; first [reflexivity|qnorm; first [lia|f_equal; lia]].

(** ** Writes *)

Lemma runs_no_wait a q s (Φ : Z → qmi_dev → Prop) r :
  sems s !! a = Some q → 0 < sem_count q →
  Φ 0 (set_sems (<[a := Sem (sem_count q - 1) (magic q)]> (sems s)) s) →
  runs (down_wait r a) s Φ.
Proof.
  intros Hs Hq H. unfold down_wait. apply runs_bind. eapply runs_exact.
  - rewrite down_trylock_eq, Hs. by rewrite (proj2 (Z.ltb_lt _ _) Hq).
  - by apply runs_ret.
Qed.

(** A wait during which the semaphore is raised. *)
Lemma runs_wait a q l rest s r (Φ : Z → qmi_dev → Prop) :
  sems s !! a = Some q → sem_count q = 0 → waits (env s) = l :: rest →
  runs (run_events l) (set_env (QmiEnv (kmallocs (env s)) (rets (env s)) rest) s) (λ _ s1,
    ∃ k g, sems s1 !! a = Some (Sem k g) ∧ 0 < k ∧ Φ 0 (set_sems (<[a := Sem (k - 1) g]> (sems s1)) s1)) →
  runs (down_wait r a) s Φ.
Proof.
  intros Hs Hq Hw H. unfold down_wait. apply runs_bind. eapply runs_exact.
  { rewrite down_trylock_eq, Hs, Hq. done. }
  apply runs_bind. unfold others_run. apply runs_bind, runs_get. rewrite Hw.
  apply runs_bind, runs_modify. eapply runs_mono; [exact H|]. intros _ s1 (k & g & Hk & Hpos & HΦ).
  apply runs_bind. eapply runs_exact.
  { rewrite down_trylock_eq, Hk. cbn [sem_count]. by rewrite (proj2 (Z.ltb_lt _ _) Hpos). }
  by apply runs_ret.
Qed.

Lemma runs_up a k g s (Φ : () → qmi_dev → Prop) :
  sems s !! a = Some (Sem k g) → Φ () (set_sems (<[a := Sem (k + 1) g]> (sems s)) s) →
  runs (up a) s Φ.
Proof. intros Hs H. unfold up. apply runs_bind, runs_get. rewrite Hs. by apply runs_modify. Qed.

Lemma runs_write_complete u st a k g s (Φ : () → qmi_dev → Prop) :
  urbs s !! u = Some (Urb None a) → sems s !! a = Some (Sem k g) →
  Φ () (set_sems (<[a := Sem (k + 1) g]> (sems s)) (set_urbs (<[u := Urb (Some st) a]> (urbs s)) s)) →
  runs (WriteSyncCallback u st) s Φ.
Proof.
  intros Hu Hs H. unfold WriteSyncCallback. apply runs_bind, runs_get. rewrite Hu.
  cbn [urb_status urb_context]. apply runs_bind, runs_modify. by eapply runs_up.
Qed.

Lemma runs_patiently a s (Φ : Z → qmi_dev → Prop) :
  runs (down_interruptible a) s (λ r s', r = 0 ∧ Φ 0 s') → runs (down_patiently a) s Φ.
Proof.
  intros H. unfold down_patiently. apply runs_bind. eapply runs_mono; [exact H|].
  intros r s' [-> HΦ]. by apply runs_ret.
Qed.

(** The request as it leaves the host. *)
Definition framed (c : Z) (buf : list Z) : list Z :=
  qmux_header 1 (Z.of_nat (length buf) - 1) 0 (u8 (c &' 0xff)) (u8 (c ≫ 8)) ++ drop 6 buf.

(** A device after a write that completed. *)
Definition written (buf : list Z) (c : Z) (rest : list (list event)) (s : qmi_dev) : qmi_dev :=
  set_next (next_addr s + 2)
    (set_env (QmiEnv [] [] rest)
       (set_trace ([Autopm_put; Write_submit (next_addr s) (bInterfaceNumber (net s)) (framed c buf);
                    Autopm_get] ++ trace s) s)).

Section Write.
Context (s : qmi_dev) (c : Z) (m : sClientMemList) (buf : list Z) (st : Z).
Context (rest : list (list event)).
Hypothesis Hv : mbQMIValid s = true.
Hypothesis Hl : mClientMemLock s = false.
Hypothesis Hg : grants s.
Hypothesis Hf : fresh_above s.
Hypothesis Ha : NoDup (mem_addr <$> mpClientMemList s).
Hypothesis Hm : find_client c (mpClientMemList s) = Some m.
Hypothesis Hu : mpURBList m = [].
Hypothesis Hw : waits (env s) = [Write_complete (next_addr s) st] :: rest.
Hypothesis Hb : 6 ≤ Z.of_nat (length buf) < 65536.

Lemma runs_write_sync (Φ : Z → qmi_dev → Prop) :
  Φ (if st =? 0 then Z.of_nat (length buf) else st) (written buf c rest s) →
  runs (WriteSync buf (Z.of_nat (length buf)) c) s Φ.
Proof.
  intros H. destruct Hg as [Hk Hr]. destruct (Hf (next_addr s)) as [_ Hf1]; [lia|].
  destruct (Hf (next_addr s + 1)) as [Hf2 _]; [lia|].
  unfold written in H. destruct s as [v d cl lk x dn nt dt ss us nx lv [ks rs ws] tr]. simpl in *.
  subst v lk ks rs ws. unfold WriteSync.
  qrun runs_valid. qrun runs_kmalloc. qrun runs_addr. apply runs_bind.
  eapply runs_lift; [rewrite u16_small by lia; apply FillQMUX_spec; lia|].
  fold (framed c buf). qnorm. qrun runs_kmalloc.
  apply runs_bind. eapply runs_exact; [apply sema_new_eq|]. qnorm.
  qrun runs_modify. qrun runs_out. qrun runs_granted. apply runs_bind. unfold WriteSync_submit.
  qrun runs_lock. qrun runs_add_urb. qrun runs_modify. qrun runs_get. qrun runs_granted.
  qrun runs_lock. qrun runs_out. qrun runs_modify. apply runs_bind, runs_patiently.
  eapply runs_wait; qnorm; [apply lookup_insert_eq|done..|].
  cbn [run_events run_event]. apply runs_bind.
  eapply runs_write_complete; qnorm; [apply lookup_insert_eq..|]. apply runs_ret.
  eexists _, _. split; [apply lookup_insert_eq|]. split; [done|]. qnorm. split; [done|].
  unfold WriteSync_finish. qrun runs_out. qrun runs_valid. qrun runs_lock. apply runs_bind.
  eapply (runs_pop_urb _ c (set_urblist (mpURBList m ++ [nx]) m)); [done|done| | |].
  { cbn [mpClientMemList]. by rewrite (find_client_upd _ _ _ _ _ Ha (keeps_id_add_urb _) Hm), decide_True. }
  { cbn [mpURBList set_urblist]. by rewrite Hu. }
  qnorm. rewrite bool_decide_eq_true_2 by done. cbn [negb].
  cbn [mem_addr set_urblist]. rewrite upd_mem_twice by done.
  rewrite (upd_mem_id _ _ _ _ Ha Hm) by (destruct m; simpl in *; by subst).
  qrun runs_modify. apply runs_bind. qrun runs_get. rewrite lookup_insert_eq. qnorm. apply runs_ret.
  apply runs_bind, runs_bind. qrun runs_modify. apply runs_free. qnorm. apply runs_free. qnorm.
  apply runs_ret. qrun runs_modify. apply runs_ret.
  rewrite !insert_insert_eq, !delete_insert_id by done.
  same_state H.
Qed.
End Write.

(** ** Messages *)

(** A frame of the modem for a client of a service. *)
Definition qmi_frame (svc client : Z) (body : list Z) : list Z :=
  qmux_header 1 (Z.of_nat (length body) + 5) 0x80 svc client ++ body.

Lemma length_qmi_frame svc client body :
  Z.of_nat (length (qmi_frame svc client body)) = Z.of_nat (length body) + 6.
Proof. unfold qmi_frame, qmux_header. rewrite length_app. simpl. lia. Qed.

Lemma qmi_frame_parse svc client body :
  0 ≤ svc < 256 → 0 ≤ client < 256 → 6 ≤ Z.of_nat (length body) < 65530 →
  ParseQMUX (Some (qmi_frame svc client body)) (Z.of_nat (length body) + 6) =
  Done (6, Some (client * 256 + svc)).
Proof.
  intros. unfold qmi_frame. rewrite ParseQMUX_header by lia.
  replace (Z.of_nat (length body) + 5 =? Z.of_nat (length body) + 6 - 1) with true by lia.
  simpl andb. do 3 f_equal. rewrite Z.shiftl_mul_pow2 by lia. apply u16_small. lia.
Qed.

(** The transaction ID in the body. *)
Definition body_transaction (clientID : Z) (body : list Z) : Z :=
  if clientID =? QMICTL then le_val (take 1 (drop 1 body)) else le_val (take 2 (drop 1 body)).

Lemma qmi_frame_transaction svc client body clientID :
  6 ≤ Z.of_nat (length body) →
  transaction_of (qmi_frame svc client body) clientID 6 = Done (body_transaction clientID body).
Proof.
  intros. pose proof (length_qmi_frame svc client body).
  unfold transaction_of, body_transaction, get8, get_le16.
  destruct (clientID =? QMICTL); rewrite get_bytes_Done by lia; done.
Qed.

(** A client whose ID has the broadcast number in its high byte is not addressed. *)
Lemma not_broadcast c x : 0 ≤ c < 65280 → 0 ≤ x → (x |' 0xff00 =? c) = false.
Proof.
  intros Hc Hx. apply Z.eqb_neq. intros E.
  assert (c ≫ 8 = (x ≫ 8) |' 0xff) as E2 by (rewrite <- E, Z.shiftr_lor; done).
  assert (c ≫ 8 < 255) by (rewrite Z.shiftr_div_pow2 by lia; apply Z.div_lt_upper_bound; lia).
  assert (c ≫ 8 &' Z.ones 8 = Z.ones 8) as E3.
  { rewrite E2. apply Z.bits_inj'. intros n _. rewrite Z.land_spec, Z.lor_spec.
    change 0xff with (Z.ones 8). by destruct (Z.testbit (x ≫ 8) n), (Z.testbit (Z.ones 8) n). }
  assert (0 ≤ c ≫ 8) by (apply Z.shiftr_nonneg; lia).
  rewrite Z.land_ones, Z.mod_small in E3 by (change (2 ^ 8) with 256; lia).
  change (Z.ones 8) with 255 in E3. lia.
Qed.

(** The first waiting thread a message notifies, and the client's list after it. *)
Definition arrived (T : Z) (r : sReadMemList) (m : sClientMemList) : sClientMemList :=
  let m' := set_mpList (mpList m ++ [r]) m in
  match pop_first (notify_matches T) (mpReadNotifyList m) with
  | Some (_, l) => set_notify l m'
  | None => m'
  end.

Lemma keeps_id_arrived T r : keeps_id (arrived T r).
Proof. intros m. unfold arrived. by destruct (pop_first _ _) as [[]|]. Qed.
#[export] Hint Resolve keeps_id_arrived : qmi.

(** The device after a message for one client, whose waiting threads are in
    [ReadSync]: [wakes] is the semaphore that is raised. *)
Definition wakes (T : Z) (m : sClientMemList) (ss : gmap Z QuecSem) : gmap Z QuecSem :=
  match pop_first (notify_matches T) (mpReadNotifyList m) with
  | Some (n, _) =>
    match ss !! notify_data n with
    | Some q => <[notify_data n := Sem (sem_count q + 1) (magic q)]> ss | None => ss
    end
  | None => ss
  end.

Definition readers_wait (s : qmi_dev) (m : sClientMemList) : Prop :=
  Forall (λ n, mpNotifyFunct n = UpSem_handler ∧
    ∃ k, sems s !! notify_data n = Some (Sem k QUEC_SEM_MAGIC)) (mpReadNotifyList m).

Lemma runs_upsem s c a k (Φ : () → qmi_dev → Prop) :
  sems s !! a = Some (Sem k QUEC_SEM_MAGIC) →
  Φ () (set_sems (<[a := Sem (k + 1) QUEC_SEM_MAGIC]> (sems s)) s) →
  runs (call_handler UpSem_handler c a) s Φ.
Proof.
  intros Hs H. unfold call_handler. change (runs (UpSem c a) s Φ).
  apply runs_bind, runs_get. rewrite Hs. cbn [magic]. rewrite Z.eqb_refl. by eapply runs_up.
Qed.

Definition r_new (T : Z) (frame : list Z) : sReadMemList :=
  ReadMem frame T (Z.of_nat (length frame)).

(** The allocations: the copy, its entry, less the entry of the list of waiters. *)
Definition arrival_cost (T : Z) (m : sClientMemList) : Z :=
  match pop_first (notify_matches T) (mpReadNotifyList m) with Some _ => 1 | None => 2 end.

Section Arrival.
Context (s : qmi_dev) (c T : Z) (m : sClientMemList) (frame : list Z).
Hypothesis Hv : mbQMIValid s = true.
Hypothesis Hk : kmallocs (env s) = [].
Hypothesis Ha : NoDup (mem_addr <$> mpClientMemList s).
Hypothesis Hm : find_client c (mpClientMemList s) = Some m.
Hypothesis Hw : readers_wait s m.


Lemma runs_arrival (Φ : bool → qmi_dev → Prop) :
  mClientMemLock s = true →
  (∀ b, Φ b (set_clients (upd_mem (mem_addr m) (arrived T (r_new T frame)) (mpClientMemList s))
           (set_sems (wakes T m (sems s)) (set_live (live s + arrival_cost T m - 2) s)))) →
  runs (NotifyAndPopNotifyList c T)
    (set_clients (upd_mem (mem_addr m) (λ m, set_mpList (mpList m ++ [(r_new T frame)]) m)
       (mpClientMemList s)) s) Φ.
Proof.
  intros Hl H. unfold NotifyAndPopNotifyList. apply runs_bind, runs_find; [done|done|].
  cbn [mpClientMemList set_clients].
  rewrite (find_client_upd _ _ _ _ _ Ha (keeps_id_add_read _) Hm), decide_True by done.
  cbn [mpReadNotifyList set_mpList mem_addr]. unfold wakes, arrival_cost in H.
  assert (upd_mem (mem_addr m) (arrived T (r_new T frame)) (mpClientMemList s) =
    upd_mem (mem_addr m) (λ m', match pop_first (notify_matches T) (mpReadNotifyList m) with
      | Some (_, l) => set_notify l (set_mpList (mpList m' ++ [(r_new T frame)]) m')
      | None => set_mpList (mpList m' ++ [(r_new T frame)]) m' end) (mpClientMemList s)) as E.
  { apply (upd_mem_ext c); [done..|]. unfold arrived. by destruct (pop_first _ _) as [[]|]. }
  rewrite E in H. clear E. unfold readers_wait in Hw.
  destruct (pop_first (notify_matches T) (mpReadNotifyList m)) as [[n l]|] eqn:Ep.
  - apply pop_first_Some in Ep as (l1 & l2 & El & -> & _). rewrite El in Hw.
    apply Forall_app in Hw as [_ Hn]. apply Forall_cons in Hn as [(Hf & k & Hs) _].
    rewrite Hs in H. rewrite Hf. cbn [sem_count magic] in H.
    destruct s as [v d cl lk x dn nt dt ss us nx lv [ks rs ws] tr].
    simpl in *. subst v lk ks. qrun runs_modify. rewrite upd_mem_twice by done. qrun runs_modify.
    apply runs_bind. eapply runs_upsem; [exact Hs|]. qnorm. qrun runs_lock. qrun runs_free.
    apply runs_ret. same_state (H true).
  - apply runs_ret. specialize (H false).
    destruct s as [v d cl lk x dn nt dt ss us nx lv [ks rs ws] tr]. simpl in *. same_state H.
Qed.

End Arrival.

Section Dispatch.
Context (s : qmi_dev) (c T : Z) (m : sClientMemList) (frame : list Z).
Hypothesis Hv : mbQMIValid s = true.
Hypothesis Hk : kmallocs (env s) = [].
Hypothesis Ha : NoDup (mem_addr <$> mpClientMemList s).
Hypothesis Hm : find_client c (mpClientMemList s) = Some m.
Hypothesis Hw : readers_wait s m.

Lemma runs_dispatch (Φ : () → qmi_dev → Prop) :
  mClientMemLock s = true → 0 ≤ c < 65280 → Forall (λ m, 0 ≤ mClientID m) (mpClientMemList s) →
  Φ () (set_clients (upd_mem (mem_addr m) (arrived T (r_new T frame)) (mpClientMemList s))
         (set_sems (wakes T m (sems s)) (set_live (live s + arrival_cost T m)
         (set_trace (Wake_poll c :: trace s) s)))) →
  runs (dispatch c T frame (Z.of_nat (length frame)) (mpClientMemList s)) s Φ.
Proof.
  intros Hl Hc Hids H.
  assert (∃ rest, dispatch c T frame (Z.of_nat (length frame)) (mpClientMemList s) =
    dispatch c T frame (Z.of_nat (length frame)) (m :: rest)) as [rest ->].
  { clear H Ha Hw. induction (mpClientMemList s) as [|x l IH]; [done|].
    apply Forall_cons in Hids as [Hx Hids]. cbn [find_client] in Hm.
    destruct (mClientID x =? c) eqn:E; [exists l; by injection Hm as ->|].
    cbn [dispatch]. rewrite E, not_broadcast by done. by apply IH. }
  pose proof (find_client_Some _ _ _ Hm) as [_ Hid]. cbn [dispatch]. rewrite Hid, Z.eqb_refl.
  cbn [orb]. apply runs_bind, runs_kmalloc; [done|]. cbn [negb].
  apply runs_bind. eapply runs_lift.
  { rewrite get_bytes_Done by lia. by rewrite Nat2Z.id, drop_0, firstn_all. }
  apply runs_bind. eapply runs_add_read; [done|done|exact Hm|done|]. cbn [negb].
  apply runs_bind. eapply (runs_arrival (set_live (live s + 1 + 1) s)); [done..|].
  intros b. apply runs_bind, runs_out.
  replace (c ≫ 8 =? 255) with false; cbn [negb].
  - apply runs_ret. destruct s. simpl in *. same_state H.
  - symmetry. apply Z.eqb_neq. rewrite Z.shiftr_div_pow2 by lia.
    assert (c / 2 ^ 8 < 255) by (apply Z.div_lt_upper_bound; lia). lia.
Qed.

End Dispatch.

(** The frame as it is received. *)
Section Receive.
Context (s : qmi_dev) (c T : Z) (m : sClientMemList) (frame : list Z).
Hypothesis Hv : mbQMIValid s = true.
Hypothesis Hk : kmallocs (env s) = [].
Hypothesis Ha : NoDup (mem_addr <$> mpClientMemList s).
Hypothesis Hm : find_client c (mpClientMemList s) = Some m.
Hypothesis Hw : readers_wait s m.

Lemma runs_read_callback svc cl body (Φ : () → qmi_dev → Prop) :
  frame = qmi_frame svc cl body → c = cl * 256 + svc → T = body_transaction c body →
  0 ≤ svc < 256 → 0 ≤ cl < 255 → 6 ≤ Z.of_nat (length body) < 65530 →
  mClientMemLock s = false → rets (env s) = [] →
  Forall (λ m, 0 ≤ mClientID m) (mpClientMemList s) →
  Φ () (set_clients (upd_mem (mem_addr m) (arrived T (r_new T frame)) (mpClientMemList s))
         (set_sems (wakes T m (sems s)) (set_live (live s + arrival_cost T m)
         (set_trace ((if mpIntURB (read_bufs (data s)) then [Int_submit] else []) ++
                     Wake_poll c :: trace s) s)))) →
  runs (ReadCallback 0 frame (Z.of_nat (length frame))) s Φ.
Proof.
  intros Ef Ec ET Hsvc Hcl Hb Hl Hr Hids H. unfold ReadCallback.
  pose proof (length_qmi_frame svc cl body) as Hlen. rewrite <- Ef in Hlen.
  destruct s as [v d cls lk x dn nt dt ss us nx lv [ks rs ws] tr].
  cbn [mbQMIValid mpClientMemList mClientMemLock env kmallocs rets data sems live trace] in *. subst v lk ks rs.
  qrun runs_valid. rewrite u16_small by lia. apply runs_bind. eapply runs_lift.
  { rewrite Hlen, Ef. apply qmi_frame_parse; lia. }
  qnorm. rewrite (proj2 (Z.ltb_ge _ _)) by lia.
  apply runs_bind. eapply runs_lift; [rewrite Ef; apply qmi_frame_transaction; lia|].
  rewrite <- Ec, <- ET. qrun runs_lock. qrun runs_get.
  apply runs_bind. match goal with |- runs _ ?w _ => apply (runs_dispatch w c T m frame) end;
    try assumption; try reflexivity; [lia|]. qnorm.
  qrun runs_modify. apply runs_resubmit; [done|]. qnorm.
  destruct (mpIntURB (read_bufs dt)); same_state H.
Qed.
End Receive.

(** ** Reads *)

(** A device after a read that was answered while it waited: the message belongs to
    the caller. *)
Definition answered (c : Z) (rest : list (list event)) (s : qmi_dev) : qmi_dev :=
  set_next (next_addr s + 1) (set_live (live s + 1) (set_env (QmiEnv [] [] rest)
    (set_trace ((if mpIntURB (read_bufs (data s)) then [Int_submit] else []) ++
                Wake_poll c :: trace s) s))).

Section Read.
Context (s : qmi_dev) (c T : Z) (m : sClientMemList) (svc cl : Z) (body : list Z).
Context (rest : list (list event)).
Hypothesis Hv : mbQMIValid s = true.
Hypothesis Hl : mClientMemLock s = false.
Hypothesis Hg : grants s.
Hypothesis Hf : fresh_above s.
Hypothesis Ha : NoDup (mem_addr <$> mpClientMemList s).
Hypothesis Hids : Forall (λ m, 0 ≤ mClientID m) (mpClientMemList s).
Hypothesis Hm : find_client c (mpClientMemList s) = Some m.
Hypothesis Hn : mpReadNotifyList m = [].
Hypothesis Hno : Forall (λ r, read_matches T r = false) (mpList m).
Hypothesis Hc : c = cl * 256 + svc.
Hypothesis HT : T = body_transaction c body.
Hypothesis Hsvc : 0 ≤ svc < 256.
Hypothesis Hcl : 0 ≤ cl < 255.
Hypothesis Hb : 6 ≤ Z.of_nat (length body) < 65530.
Let frame : list Z := qmi_frame svc cl body.
Hypothesis Hw : waits (env s) = [Read_complete 0 frame (Z.of_nat (length frame))] :: rest.

Lemma runs_read (Φ : Z * option (list Z) → qmi_dev → Prop) :
  Φ (Z.of_nat (length frame), Some frame) (answered c rest s) → runs (ReadSync c T) s Φ.
Proof.
  intros H. destruct Hg as [Hk Hr]. destruct (Hf (next_addr s)) as [Hf1 _]; [lia|].
  unfold answered in H. destruct s as [v d cls lk x dn nt dt ss us nx lv [ks rs ws] tr]. simpl in *.
  rewrite Hv, Hl, Hk, Hr, Hw in *. unfold ReadSync.
  qrun runs_valid. qrun runs_lock. qrun runs_find. rewrite Hm. qnorm.
  apply runs_bind. eapply runs_exact; [apply sema_new_eq|]. qnorm. qrun runs_get.
  cbn [length ReadSync_loop]. apply runs_bind, runs_bind. unfold ReadSync_try.
  apply runs_bind. eapply (runs_pop_read _ c); [done..|].
  rewrite (proj2 (pop_first_None _ _) Hno). qrun runs_modify. rewrite insert_insert_eq.
  apply runs_bind. eapply (runs_add_notify _ c); [done|done|exact Hm|done|]. qnorm.
  qrun runs_modify. apply runs_ret. apply runs_bind, runs_patiently.
  eapply runs_wait; qnorm; [apply lookup_insert_eq|done..|].
  cbn [run_events run_event]. apply runs_bind.
  set (m' := set_notify (mpReadNotifyList m ++ [Notify UpSem_handler T nx]) m).
  assert (notify_matches T (Notify UpSem_handler T nx) = true) as Hmt.
  { unfold notify_matches. simpl. by rewrite Z.eqb_refl, !orb_true_r. }
  match goal with |- runs _ ?w _ => eapply (runs_read_callback w c T m' frame) end;
    try reflexivity; try assumption.
  { cbn. by rewrite upd_mem_addrs by auto with qmi. }
  { cbn. by rewrite (find_client_upd _ _ _ _ _ Ha (keeps_id_add_notify _) Hm), decide_True. }
  { unfold readers_wait, m'. cbn. rewrite Hn. constructor; [|done]. split; [done|].
    eexists. apply lookup_insert_eq. }
  { apply (upd_mem_ids_Forall (λ i, 0 ≤ i)); auto with qmi. }
  assert (pop_first (notify_matches T) (mpReadNotifyList m') =
    Some (Notify UpSem_handler T nx, [])) as Hpop.
  { unfold m'. cbn [mpReadNotifyList set_notify]. rewrite Hn. simpl. by rewrite Hmt. }
  assert (read_matches T (r_new T frame) = true) as Hrm.
  { unfold read_matches. simpl. by rewrite Z.eqb_refl, orb_true_r. }
  qnorm. unfold wakes, arrival_cost. rewrite Hpop. cbn [notify_data]. rewrite lookup_insert_eq.
  qnorm. apply runs_ret. eexists _, _. split; [apply lookup_insert_eq|]. split; [done|].
  qnorm. split; [done|]. qrun runs_valid. qrun runs_lock.
  set (cls' := upd_mem (mem_addr m') (arrived T (r_new T frame)) _).
  assert (find_client c cls' = Some (arrived T (r_new T frame) m')) as Hm'.
  { unfold cls'. rewrite (find_client_upd c).
    - by rewrite decide_True.
    - by rewrite upd_mem_addrs by auto with qmi.
    - auto with qmi.
    - by rewrite (find_client_upd _ _ _ _ _ Ha (keeps_id_add_notify _) Hm), decide_True. }
  assert (arrived T (r_new T frame) m' = set_notify [] (set_mpList (mpList m ++ [r_new T frame]) m'))
    as Harr by (unfold arrived; by rewrite Hpop).
  assert (upd_mem (mem_addr m) (set_mpList (mpList m ++ [])) cls' = cls) as Hcls.
  { unfold cls'. change (mem_addr m') with (mem_addr m).
    rewrite !upd_mem_twice by (intros; done || apply keeps_id_arrived).
    apply (upd_mem_id c); [done..|]. fold m'. rewrite Harr. unfold m'. rewrite app_nil_r.
    destruct m. simpl in *. by subst. }
  destruct (length rest); cbn [ReadSync_loop]; unfold ReadSync_try;
    (apply runs_bind, runs_bind; eapply (runs_pop_read _ c); [done|done|exact Hm'|];
     rewrite Harr; cbn [mpList set_notify set_mpList]; rewrite (pop_first_app _ _ _ [] Hno Hrm);
     qnorm; qrun runs_modify; apply runs_ret, runs_ret; qrun runs_modify; apply runs_ret).
  all: change (mem_addr (set_notify [] _)) with (mem_addr m); rewrite Hcls, !insert_insert_eq,
    !delete_insert_id by done; same_state H.
Qed.
End Read.
