(* ===== verification/QmiExchange.v ===== *)
(** * The GobiNet client layer: requests and their answers

    Transactions, and the exchange by which the driver obtains a client from the
    modem, from the request's bytes on the wire to the new entry of the table. *)

From S2P Require Import Prelude Kernel GobiQmi.
From stdpp Require Import gmap.
Import Qmi.
From S2P Require Import QmiDev QmiClient QmiLists QmiRuns.

#[local] Open Scope Z_scope.
#[local] Open Scope c_scope.

(** ** Dropping messages *)

(** The messages that the loops of the file leave, and how many they free. *)
Definition unmatched (T : Z) (l : list sReadMemList) : list sReadMemList :=
  List.filter (λ r, negb (read_matches T r)) l.
Definition matched (T : Z) (l : list sReadMemList) : Z :=
  Z.of_nat (count_if (read_matches T) l).

Lemma unmatched_none T l : Forall (λ r, read_matches T r = false) (unmatched T l).
Proof.
  apply Forall_forall. intros r Hr%list_elem_of_In%filter_In. destruct Hr as [_ Hr].
  by apply negb_true_iff.
Qed.

Definition drained (c T : Z) (m : sClientMemList) (s : qmi_dev) : qmi_dev :=
  set_clients (upd_mem (mem_addr m) (set_mpList (unmatched T (mpList m))) (mpClientMemList s))
    (set_live (live s - 2 * matched T (mpList m)) s).

Lemma runs_drain fuel c T m s (Φ : () → qmi_dev → Prop) :
  mbQMIValid s = true → mClientMemLock s = true → NoDup (mem_addr <$> mpClientMemList s) →
  find_client c (mpClientMemList s) = Some m → (length (mpList m) < fuel)%nat →
  Φ () (drained c T m s) → runs (while_true fuel (release_read c T)) s Φ.
Proof.
  revert s m. induction fuel as [|fuel IH]; intros s m Hv Hl Ha Hm Hlen H; [lia|].
  cbn [while_true]. apply runs_bind. unfold release_read. apply runs_bind.
  eapply runs_pop_read; [done|done|exact Hm|].
  destruct (pop_first _ _) as [[r l]|] eqn:Ep.
  - apply pop_first_Some in Ep as (l1 & l2 & El & -> & Hr & Hl1).
    apply runs_bind, runs_free, runs_ret.
    apply (IH _ (set_mpList (l1 ++ l2) m)); unfold with_mem.
    + done.
    + done.
    + simpl. by rewrite upd_mem_addrs.
    + simpl. by rewrite (find_client_upd _ _ _ _ _ Ha (keeps_id_mpList _) Hm), decide_True.
    + simpl. rewrite El, length_app in Hlen. simpl in Hlen. rewrite length_app. lia.
    + refine (eq_ind _ _ H _ _). unfold drained, unmatched, matched. rewrite El. simpl mpList.
      rewrite List.filter_app, (List.filter_app _ l1), !count_if_app. simpl. rewrite Hr. simpl.
      apply qmi_ext; try reflexivity; simpl; [|lia]. by rewrite upd_mem_twice.
  - apply runs_ret, runs_ret. refine (eq_ind _ _ H _ _). apply pop_first_None in Ep.
    unfold drained, unmatched, matched. destruct (filter_none _ _ Ep) as [-> ->].
    apply qmi_ext; try reflexivity; simpl; [|lia]. apply (upd_mem_id c); [done..|].
    by destruct m.
Qed.

(** ** Transactions *)

(** The counter and the transaction it gives. *)
Definition next_xid (x : Z) : Z :=
  let x := s32 (x + 1) in if u8 x =? 0 then s32 (x + 1) else x.
Definition next_tid (x : Z) : Z := u8 (next_xid x).

Lemma next_tid_range x : 0 < next_tid x < 256.
Proof.
  unfold next_tid, next_xid. pose proof (u8_range (s32 (x + 1))).
  destruct (Z.eqb_spec (u8 (s32 (x + 1))) 0) as [E|E]; [|lia].
  assert (u8 (s32 (s32 (x + 1) + 1)) = 1); [|lia].
  unfold u8, s32 in *. Z.div_mod_to_equations. lia.
Qed.

Definition with_transaction (m : sClientMemList) (s : qmi_dev) : qmi_dev :=
  drained QMICTL (next_tid (mQMICTLTransactionID s)) m
    (set_xid (next_xid (mQMICTLTransactionID s)) s).

(** [QMIXactionIDGet] gives a transaction ID between 1 and 255, also when the
    counter's low byte or the counter itself overflows; no message of the list of
    QMICTL carries it any more, and the other messages stay in their order. *)
Lemma QMIXactionIDGet_spec s m :
  mbQMIValid s = true → mClientMemLock s = false → NoDup (mem_addr <$> mpClientMemList s) →
  find_client QMICTL (mpClientMemList s) = Some m →
  QMIXactionIDGet s = Done (next_tid (mQMICTLTransactionID s), with_transaction m s) ∧
  0 < next_tid (mQMICTLTransactionID s) < 256.
Proof.
  intros Hv Hl Ha Hm. split; [|apply next_tid_range].
  apply runs_done. unfold QMIXactionIDGet. apply runs_bind, runs_bind, runs_modify.
  apply runs_bind, runs_get, runs_ret. apply runs_bind. cbn [mQMICTLTransactionID set_xid].
  assert (runs (if u8 (s32 (mQMICTLTransactionID s + 1)) =? 0
    then modify (λ s, set_xid (s32 (mQMICTLTransactionID s + 1)) s);;
         s ← get_state; mret (u8 (mQMICTLTransactionID s))
    else mret (u8 (s32 (mQMICTLTransactionID s + 1))))
    (set_xid (s32 (mQMICTLTransactionID s + 1)) s)
    (λ T s', T = next_tid (mQMICTLTransactionID s) ∧
      s' = set_xid (next_xid (mQMICTLTransactionID s)) s)) as Hx.
  { unfold next_tid, next_xid. destruct (u8 (s32 (mQMICTLTransactionID s + 1)) =? 0).
    - apply runs_bind, runs_modify, runs_bind, runs_get, runs_ret. done.
    - by apply runs_ret. }
  eapply runs_mono; [exact Hx|]. intros T s' [-> ->].
  pose proof (next_tid_range (mQMICTLTransactionID s)) as Hr.
  rewrite (proj2 (Z.eqb_neq _ _)) by lia. cbn [negb].
  apply runs_bind, runs_bind, runs_lock; [done|]. apply runs_bind, runs_get, runs_bind.
  eapply runs_drain; [done|done|done|exact Hm| |].
  { unfold client_of. simpl. rewrite Hm. simpl. lia. }
  apply runs_modify, runs_ret. f_equal. unfold with_transaction, drained.
  by apply qmi_ext; try reflexivity; simpl.
Qed.

(** ** Obtaining a client *)

(** A response to a request of the driver: the SDU header of QMICTL and a message. *)
Definition ctl_body (T id : Z) (ts : list tlv) : list Z := [1; T] ++ encode_msg id ts.
Definition ctl_frame (T id : Z) (ts : list tlv) : list Z := qmi_frame 0 0 (ctl_body T id ts).

(** The client that a response assigns, in the eyes of the driver ([result_code]). *)
Definition assigned (id : Z) (ts : list tlv) : option Z :=
  if (id =? 0x22) && (result_code ts =? 0) then
    match find_tlv 1 ts with Some [service; number] => Some (le_val [service; number]) | _ => None end
  else None.

(** The request, without its QMUX header. *)
Definition client_request (T svc : Z) : list Z :=
  uninit 6 ++ request_bytes (Qmi.GetClientID T svc).

(** The device after the exchange: the stale messages are gone, the request and the
    kernel's calls are in the trace. *)
Definition exchanged (T svc : Z) (m : sClientMemList) (rest : list (list event))
    (s : qmi_dev) : qmi_dev :=
  let s := drained QMICTL T m (set_xid (next_xid (mQMICTLTransactionID s)) s) in
  set_next (next_addr s + 3) (set_env (QmiEnv [] [] rest)
    (set_trace ((if mpIntURB (read_bufs (data s)) then [Int_submit] else []) ++
      [Wake_poll QMICTL; Autopm_put;
       Write_submit (next_addr s) (bInterfaceNumber (net s)) (framed QMICTL (client_request T svc));
       Autopm_get] ++ trace s) s)).

(** The table with a new client. *)
Definition with_client (cid : Z) (s : qmi_dev) : qmi_dev :=
  set_clients (mpClientMemList s ++ [ClientMem (next_addr s) cid [] [] [] 0])
    (set_next (next_addr s + 1) (set_live (live s + 1) s)).

(** The result of [GetClientID] when the modem assigned [cid]. *)
Definition obtained (cid : option Z) (s : qmi_dev) : Z * qmi_dev :=
  match cid with
  | None => (- EFAULT, s)
  | Some cid =>
    match find_client cid (mpClientMemList s) with
    | Some _ => (- ETOOMANYREFS, s)
    | None => (cid, with_client cid s)
    end
  end.

Section GetClient.
Context (s : qmi_dev) (m : sClientMemList) (svc id : Z) (ts : list tlv).
Context (rest : list (list event)).
Hypothesis Hv : mbQMIValid s = true.
Hypothesis Hl : mClientMemLock s = false.
Hypothesis Hg : grants s.
Hypothesis Hf : fresh_above s.
Hypothesis Ha : NoDup (mem_addr <$> mpClientMemList s).
Hypothesis Hids : Forall (λ m, 0 ≤ mClientID m) (mpClientMemList s).
Hypothesis Hm : find_client QMICTL (mpClientMemList s) = Some m.
Hypothesis Hn : mpReadNotifyList m = [].
Hypothesis Hu : mpURBList m = [].
Hypothesis Hsvc : 0 < svc < 256.
Hypothesis Hid : 0 ≤ id < 65536.
Hypothesis Hts : Forall tlv_ok ts.
Hypothesis Hlen : Z.of_nat (length (encode_msg id ts)) < 60000.
Let T : Z := next_tid (mQMICTLTransactionID s).
Let frame : list Z := ctl_frame T id ts.
Hypothesis Hw : waits (env s) =
  [Write_complete (next_addr s) 0] :: [Read_complete 0 frame (Z.of_nat (length frame))] :: rest.

Lemma request_filled :
  QMICTLGetClientIDReq (Some (uninit QMICTLGetClientIDReqSize)) QMICTLGetClientIDReqSize T svc =
  Done (QMICTLGetClientIDReqSize, Some (client_request T svc)).
Proof. reflexivity. Qed.

Lemma frame_length : Z.of_nat (length frame) = Z.of_nat (length (encode_msg id ts)) + 8.
Proof.
  unfold frame, ctl_frame. rewrite length_qmi_frame. unfold ctl_body. rewrite length_app. simpl. lia.
Qed.

Lemma response_parsed : ∃ out,
  QMICTLGetClientIDResp (Some frame) (u16 (Z.of_nat (length frame))) [0; 0] =
  Done (match assigned id ts with Some _ => 0 | None => - EFAULT end, out) ∧
  (∀ cid, assigned id ts = Some cid → le_val out = cid).
Proof.
  set (hdr := qmux_header 1 (Z.of_nat (length (ctl_body T id ts)) + 5) 0x80 0 0 ++ [1; T]).
  assert (frame = Qmi.frame hdr id ts []) as Ef.
  { unfold frame, ctl_frame, qmi_frame, ctl_body, Qmi.frame, hdr. by rewrite app_nil_r, <- !app_assoc. }
  assert (Z.of_nat (length frame) = frame_size hdr id ts) as Es.
  { rewrite Ef. unfold Qmi.frame, frame_size. rewrite !length_app. simpl. lia. }
  rewrite u16_small by (rewrite frame_length; lia). rewrite Es, Ef.
  rewrite GetClientIDResp_spec; [|done..|rewrite <- Es, frame_length; lia|done|done].
  unfold assigned. destruct (id =? 0x22); [|by eexists]. destruct (result_code ts =? 0); [|by eexists].
  simpl negb. simpl orb. destruct (find_tlv 1 ts) as [[|x [|y [|z l]]]|]; try by eexists.
  eexists. split; [done|]. by intros cid [= <-].
Qed.
(** C15: [GetClientID] end to end: it takes a fresh transaction, puts the request for
    the service in a QMUX frame on the wire, and, when the modem completes the write
    and answers with a frame for this transaction, and memory is at hand, returns
    exactly the client that the response assigns and adds it, with empty lists, at the
    end of the table; it refuses a response that it does not take for success with
    -EFAULT and a client that is already in the table with -ETOOMANYREFS, without
    changing the table.  Only the low byte of an error code counts
    ([Qmi.result_code_accepts]): a code that is a multiple of 256 passes for success.  Stale
    messages with the transaction are dropped first; every buffer is freed and the
    lock is released on every path. *)
Theorem GetClientID_exchange :
  GetClientID svc s = Done (obtained (assigned id ts) (exchanged T svc m rest s)).
Proof.
  destruct response_parsed as (out & Hresp & Hout). pose proof frame_length as Hfl.
  pose proof request_filled as Hreq. assert (next_tid (mQMICTLTransactionID s) = T) as ET by done.
  clearbody T.
  assert (runs (GetClientID svc) s (λ r s', (r, s') =
    obtained (assigned id ts) (exchanged T svc m rest s))) as (r & s' & E & <-); [|exact E].
  remember (obtained _ _) as res eqn:Eres. destruct Hg as [Hk Hr].
  destruct s as [v d cls lk x dn nt dt ss us nx lv [ks rs ws] tr].
  cbn [mbQMIValid mpClientMemList mClientMemLock env kmallocs rets waits mQMICTLTransactionID
       next_addr] in *.
  subst v lk ks rs ws. unfold GetClientID.
  qrun runs_valid. rewrite (proj2 (Z.eqb_neq svc 0)) by lia. cbn [negb].
  apply runs_bind. unfold GetClientID_request. qrun runs_kmalloc.
  apply runs_bind. eapply runs_exact.
  { apply QMIXactionIDGet_spec; [done|done|exact Ha|exact Hm]. }
  unfold with_transaction, drained. qnorm. rewrite ET.
  apply runs_bind. eapply runs_lift; [exact Hreq|]. qnorm.
  set (m1 := set_mpList (unmatched T (mpList m)) m).
  set (cls1 := upd_mem (mem_addr m) (set_mpList (unmatched T (mpList m))) cls).
  assert (NoDup (mem_addr <$> cls1)) as Ha1 by (unfold cls1; by rewrite upd_mem_addrs).
  assert (Forall (λ m, 0 ≤ mClientID m) cls1) as Hids1.
  { apply (upd_mem_ids_Forall (λ i, 0 ≤ i)); auto with qmi. }
  assert (find_client QMICTL cls1 = Some m1) as Hm1.
  { unfold cls1. by rewrite (find_client_upd _ _ _ _ _ Ha (keeps_id_mpList _) Hm), decide_True. }
  apply runs_bind.
  change QMICTLGetClientIDReqSize with (Z.of_nat (length (client_request T svc))).
  eapply (runs_write_sync _ QMICTL m1); try eassumption; try done.
  unfold written. change (0 =? 0) with true. cbn iota. qnorm.
  apply runs_bind, runs_free. qnorm.
  apply runs_bind. eapply (runs_read _ QMICTL T m1 0 0 (ctl_body T id ts)); try eassumption; try done.
  { intros a Hle. apply Hf. simpl in *. lia. }
  { apply unmatched_none. }
  { unfold body_transaction. simpl. lia. }
  { unfold frame, ctl_frame in Hfl. rewrite length_qmi_frame in Hfl.
    pose proof (length_encode_msg id ts). lia. }
  unfold answered. qnorm. rewrite (proj2 (Z.ltb_ge _ _)) by lia.
  apply runs_bind. eapply runs_lift; [exact Hresp|]. qrun runs_free. apply runs_ret. subst res.
  unfold obtained, exchanged, with_client, drained.
  destruct (assigned id ts) as [cid|] eqn:Eas.
  2: { apply runs_ret. f_equal. apply qmi_ext; try reflexivity; simpl; lia. }
  rewrite (Hout cid eq_refl). cbn [Z.ltb Z.compare]. qrun runs_lock. qrun runs_find.
  change (find_client cid (mpClientMemList _)) with (find_client cid cls1).
  destruct (find_client cid cls1).
  { qrun runs_modify. apply runs_ret. f_equal. apply qmi_ext; try reflexivity; simpl; lia. }
  qrun runs_kmalloc. qrun runs_addr. qrun runs_modify. qrun runs_modify. apply runs_ret.
  f_equal. apply qmi_ext; try reflexivity; simpl; [|lia..].
  fold cls1. by replace (nx + 2 + 1) with (nx + 3) by lia.
Qed.
End GetClient.

(** A modem that assigns the client 7 of the service WDS, with a stale message. *)
Definition answering : qmi_dev :=
  let frame := ctl_frame 1 0x22 [Tlv 2 [0; 0; 0; 0]; Tlv 1 [1; 7]] in
  QmiDev true false [ClientMem 1 0 [ReadMem [0] 1 1; ReadMem [9] 4 1] [] [] 0] false 0 0
    (GobiNet false true false 0 0 true true 4 true (Some 0) 0 0)
    (GobiData [] (QmapSetting [] [] [] [] [] []) (UlAgg 0 0 0) 0 false false false 0
       no_read_thread ∅) ∅ ∅ 2 5
    (QmiEnv [] [] [[Write_complete 2 0]; [Read_complete 0 frame (Z.of_nat (length frame))]]) [].

Lemma GetClientID_exchange_witness : ∃ s',
  GetClientID 1 answering = Done (0x701, s') ∧
  mClientID <$> mpClientMemList s' = [0; 0x701] ∧ live s' = 4 ∧
  mpList <$> mpClientMemList s' = [[ReadMem [9] 4 1]; []].
Proof.
  eexists. split; [|split; [|split]].
  - etransitivity.
    + apply (GetClientID_exchange answering (ClientMem 1 0 [ReadMem [0] 1 1; ReadMem [9] 4 1] [] [] 0)
        1 0x22 [Tlv 2 [0; 0; 0; 0]; Tlv 1 [1; 7]] []); try done.
      * apply NoDup_singleton.
      * by repeat constructor.
      * repeat constructor; simpl; lia.
    + vm_compute. reflexivity.
  - reflexivity.
  - reflexivity.
  - reflexivity.
Defined.
