(* ===== verification/QmiInv.v ===== *)
(** * The GobiNet client layer: the invariant of the client table

    Every operation of [QmiDev] and [QmiClient], with whatever the other contexts
    do while it sleeps, keeps the table of clients well formed and gives the lock
    back: a small Hoare logic over the state of the lock, with the operations as
    hints. *)

From S2P Require Import Prelude Kernel GobiQmi.
From stdpp Require Import gmap.
Import Qmi.
From S2P Require Import QmiDev QmiClient QmiLists.

#[local] Open Scope Z_scope.
#[local] Open Scope c_scope.

(** ** The invariant *)

(** No two clients have the same ID or share memory. *)
Definition table_ok (l : list sClientMemList) (next : Z) : Prop :=
  NoDup (mClientID <$> l) ∧ NoDup (mem_addr <$> l) ∧ Forall (λ m, mem_addr m < next) l.

Definition inv (locked : bool) (s : qmi_dev) : Prop :=
  table_ok (mpClientMemList s) (next_addr s) ∧ mClientMemLock s = locked.

(** [p] takes the lock from the state [b] to the state [b']. *)
Definition locks {A} (b : bool) (p : qm A) (b' : bool) : Prop :=
  ∀ s, inv b s → ends p s (λ _ s', inv b' s').

Lemma locks_ret {A} b (a : A) : locks b (mret a) b.
Proof. intros s H. by apply ends_ret. Qed.
Lemma locks_fault {A} b b' : locks b (@fault qmi_dev A) b'.
Proof. intros s _. apply ends_fault. Qed.
Lemma locks_hang {A} b b' : locks b (@hang qmi_dev A) b'.
Proof. by intros s _ a s'. Qed.
Lemma locks_lift {A} b (o : outcome A) : locks b (lift o) b.
Proof. intros s H. by apply ends_lift. Qed.
Lemma locks_get b : locks b get_state b.
Proof. intros s H. by apply ends_get. Qed.
Lemma locks_modify b b' f : (∀ s, inv b s → inv b' (f s)) → locks b (modify f) b'.
Proof. intros H s Hs. apply ends_modify. auto. Qed.

Lemma locks_bind {A B} b1 b2 b3 (p : qm A) (k : A → qm B) :
  locks b1 p b2 → (∀ x, locks b2 (k x) b3) → locks b1 (p ≫= k) b3.
Proof.
  intros Hp Hk s Hs. apply ends_bind. eapply ends_mono; [by apply Hp|]. intros x s' H. by apply Hk.
Qed.

Create HintDb locks discriminated.
#[export] Hint Constants Opaque : locks.
#[export] Hint Transparent qm stm : locks.
#[export] Hint Resolve locks_ret locks_lift locks_get : locks.
#[export] Hint Extern 1 (locks ?b fault _) => exact (locks_fault b b) : locks.
#[export] Hint Extern 1 (locks ?b hang _) => exact (locks_hang b b) : locks.
#[export] Hint Resolve locks_fault locks_hang | 2 : locks.

(** A store outside the table, the allocator and the lock. *)
Ltac locks_store := apply locks_modify; intros ? Hs; exact Hs.

Ltac locks_step :=
  lazymatch goal with
  | |- locks _ (_ ≫= _) _ => eapply locks_bind; [|intros ?]
  | |- locks _ (if ?c then _ else _) _ => destruct c
  | |- locks _ (match ?x with _ => _ end) _ => destruct x
  | |- locks _ _ _ => solve [eauto with locks | locks_store]
  end.
Ltac locks_auto := intros; repeat (cbv zeta; locks_step).

(** ** The lock and the table *)

Lemma locks_spin_lock : locks false spin_lock true.
Proof.
  intros s [Ht Hl]. unfold spin_lock. apply ends_bind, ends_get. rewrite Hl. by apply ends_modify.
Qed.
Lemma locks_spin_unlock b : locks b spin_unlock false.
Proof. apply locks_modify. by intros s [Ht _]. Qed.

Lemma locks_update b a f : keeps_id f → locks b (update a f) b.
Proof.
  intros Hf. apply locks_modify. intros s ((Hi & Ha & Hn) & Hl). split; [|done]. simpl.
  split_and!; [by rewrite upd_mem_ids|by rewrite upd_mem_addrs|].
  unfold upd_mem. apply Forall_map. eapply Forall_impl; [exact Hn|].
  intros m Hm. simpl. destruct (mem_addr m =? a); [|done]. by rewrite (proj1 (Hf m)).
Qed.

Lemma locks_new_addr b : locks b new_addr b.
Proof.
  unfold new_addr. intros s ((Hi & Ha & Hn) & Hl). apply ends_bind, ends_get, ends_bind, ends_modify, ends_ret.
  split; [|done]. simpl. split_and!; [done..|]. eapply Forall_impl; [exact Hn|]. simpl. lia.
Qed.

Lemma locks_drop b p : locks b (modify (λ s, set_clients (List.filter p (mpClientMemList s)) s)) b.
Proof.
  apply locks_modify. intros s ((Hi & Ha & Hn) & Hl). split; [|done]. simpl.
  assert (sublist (List.filter p (mpClientMemList s)) (mpClientMemList s)) as Hs.
  { induction (mpClientMemList s) as [|x l IH]; simpl; [constructor|].
    apply NoDup_cons in Hi as [_ Hi]. apply NoDup_cons in Ha as [_ Ha]. apply Forall_cons in Hn as [_ Hn].
    destruct (p x); constructor; auto. }
  split_and!; [eapply sublist_NoDup; [exact Hi|by apply fmap_sublist]|
               eapply sublist_NoDup; [exact Ha|by apply fmap_sublist]|].
  rewrite Forall_forall in Hn |- *. intros m Hm. apply Hn. by eapply elem_of_sublist.
Qed.
#[export] Hint Resolve locks_spin_lock locks_spin_unlock locks_new_addr locks_drop : locks.
#[export] Hint Extern 1 (locks _ (update _ _) _) => apply locks_update; auto with qmi : locks.

Lemma keeps_id_waitq n : keeps_id (λ m, set_waitq (mWaitQueue m + n) m). Proof. done. Qed.
Lemma keeps_id_leave n : keeps_id (λ m, set_waitq (mWaitQueue m - n) m). Proof. done. Qed.
#[export] Hint Resolve keeps_id_waitq keeps_id_leave : qmi.

(** ** The operations of [QmiDev] *)

Lemma locks_kmalloc b : locks b kmalloc b. Proof. unfold kmalloc. locks_auto. Qed.
Lemma locks_kfree b : locks b kfree b. Proof. unfold kfree. locks_auto. Qed.
Lemma locks_ret_of_kernel b : locks b ret_of_kernel b.
Proof. unfold ret_of_kernel. locks_auto. Qed.
Lemma locks_out b o : locks b (out o) b. Proof. unfold out. locks_auto. Qed.
Lemma locks_data b f : locks b (modify_data f) b. Proof. unfold modify_data. locks_auto. Qed.
Lemma locks_valid b : locks b IsDeviceValid b. Proof. unfold IsDeviceValid. locks_auto. Qed.
#[export] Hint Resolve locks_kmalloc locks_kfree locks_ret_of_kernel locks_out locks_data
  locks_valid : locks.

Lemma locks_up b a : locks b (up a) b. Proof. unfold up. locks_auto. Qed.
Lemma locks_sema_new b m : locks b (sema_new m) b. Proof. unfold sema_new. locks_auto. Qed.
Lemma locks_sema_gone b a : locks b (sema_gone a) b. Proof. unfold sema_gone. locks_auto. Qed.
Lemma locks_down_trylock b a : locks b (down_trylock a) b.
Proof. unfold down_trylock. locks_auto. Qed.
Lemma locks_set_down b r : locks b (GobiSetDownReason r) b.
Proof. unfold GobiSetDownReason. locks_auto. Qed.
#[export] Hint Resolve locks_up locks_sema_new locks_sema_gone locks_down_trylock
  locks_set_down : locks.
Lemma locks_clear_down b r : locks b (GobiClearDownReason r) b.
Proof. unfold GobiClearDownReason. locks_auto. Qed.
Lemma locks_test_down b r : locks b (GobiTestDownReason r) b.
Proof. unfold GobiTestDownReason. locks_auto. Qed.
Lemma locks_resubmit b : locks b ResubmitIntURB b. Proof. unfold ResubmitIntURB. locks_auto. Qed.
#[export] Hint Resolve locks_clear_down locks_test_down locks_resubmit : locks.

Lemma locks_alloc_buf b x : locks b (alloc_buf x) b. Proof. unfold alloc_buf. locks_auto. Qed.
Lemma locks_free_buf b x : locks b (free_buf x) b. Proof. unfold free_buf. locks_auto. Qed.
#[export] Hint Resolve locks_alloc_buf locks_free_buf : locks.
Lemma locks_free_bufs b l : locks b (free_bufs l) b.
Proof. induction l; simpl; locks_auto. Qed.
#[export] Hint Resolve locks_free_bufs : locks.
Lemma locks_StartRead b : locks b StartRead b. Proof. unfold StartRead. locks_auto. Qed.
Lemma locks_KillRead b : locks b KillRead b. Proof. unfold KillRead. locks_auto. Qed.
#[export] Hint Resolve locks_StartRead locks_KillRead : locks.
Lemma locks_suspend b e : locks b (GobiNetSuspend e) b.
Proof. unfold GobiNetSuspend. locks_auto. Qed.
Lemma locks_FindClientMem b c : locks b (FindClientMem c) b.
Proof. unfold FindClientMem. locks_auto. Qed.
#[export] Hint Resolve locks_suspend locks_FindClientMem : locks.

Lemma locks_AddToReadMemList b c T d n : locks b (AddToReadMemList c T d n) b.
Proof. unfold AddToReadMemList. locks_auto. Qed.
Lemma locks_PopFromReadMemList b c T : locks b (PopFromReadMemList c T) b.
Proof. unfold PopFromReadMemList. locks_auto. Qed.
Lemma locks_AddToNotifyList b c T f a : locks b (AddToNotifyList c T f a) b.
Proof. unfold AddToNotifyList. locks_auto. Qed.
Lemma locks_AddToURBList b c u : locks b (AddToURBList c u) b.
Proof. unfold AddToURBList. locks_auto. Qed.
Lemma locks_PopFromURBList b c : locks b (PopFromURBList c) b.
Proof. unfold PopFromURBList. locks_auto. Qed.
#[export] Hint Resolve locks_AddToReadMemList locks_PopFromReadMemList locks_AddToNotifyList
  locks_AddToURBList locks_PopFromURBList : locks.

(** ** Callbacks *)

Lemma locks_UpSem b c a : locks b (UpSem c a) b. Proof. unfold UpSem. locks_auto. Qed.
Lemma locks_wds_link b e : locks b (wds_link e) b. Proof. unfold wds_link. locks_auto. Qed.
Lemma locks_ignore {A} b b' (p : qm A) : locks b p b' → locks b (ignore p) b'.
Proof. intros H. unfold ignore. eapply locks_bind; [exact H|]. locks_auto. Qed.
#[export] Hint Resolve locks_UpSem locks_wds_link locks_ignore : locks.

Lemma locks_ReadAsync_with call c T f d :
  (∀ f c d, locks false (call f c d) false) → locks false (ReadAsync_with call c T f d) false.
Proof. intros H. unfold ReadAsync_with. locks_auto. Qed.
#[export] Hint Resolve locks_ReadAsync_with : locks.
Lemma locks_QMIWDSCallback_with read c d :
  (∀ c T f d, locks false (read c T f d) false) → locks false (QMIWDSCallback_with read c d) false.
Proof. intros H. unfold QMIWDSCallback_with. locks_auto. Qed.
#[export] Hint Resolve locks_QMIWDSCallback_with : locks.
Lemma locks_run_handler fuel f c d : locks false (run_handler fuel f c d) false.
Proof. revert f c d. induction fuel; intros [] c d; simpl; locks_auto. Qed.
Lemma locks_call_handler f c d : locks false (call_handler f c d) false.
Proof. intros s. apply locks_run_handler. Qed.
#[export] Hint Resolve locks_call_handler : locks.
Lemma locks_ReadAsync c T f d : locks false (ReadAsync c T f d) false.
Proof. unfold ReadAsync. locks_auto. Qed.
Lemma locks_notify c T : locks true (NotifyAndPopNotifyList c T) true.
Proof. unfold NotifyAndPopNotifyList. locks_auto. Qed.
#[export] Hint Resolve locks_ReadAsync locks_notify : locks.

Lemma locks_dispatch c T d n l : locks true (dispatch c T d n l) true.
Proof. induction l; simpl; locks_auto. Qed.
#[export] Hint Resolve locks_dispatch : locks.
Lemma locks_ReadCallback st d n : locks false (ReadCallback st d n) false.
Proof. unfold ReadCallback. locks_auto. Qed.
Lemma locks_IntCallback b st d : locks b (IntCallback st d) b.
Proof. unfold IntCallback. locks_auto. Qed.
Lemma locks_WriteSyncCallback b u st : locks b (WriteSyncCallback u st) b.
Proof. unfold WriteSyncCallback. locks_auto. Qed.
#[export] Hint Resolve locks_ReadCallback locks_IntCallback locks_WriteSyncCallback : locks.
Lemma locks_usb_kill_urb b u : locks b (usb_kill_urb u) b.
Proof. unfold usb_kill_urb. locks_auto. Qed.
Lemma locks_usb_free_urb b u : locks b (usb_free_urb u) b.
Proof. unfold usb_free_urb. locks_auto. Qed.
#[export] Hint Resolve locks_usb_kill_urb locks_usb_free_urb : locks.

(** ** Loops, removal and waits *)

Lemma locks_while b fuel body : locks b body b → locks b (while_true fuel body) b.
Proof. intros H. induction fuel; simpl; locks_auto. Qed.
Lemma locks_release_urb c : locks true (release_urb c) true.
Proof. unfold release_urb. locks_auto. Qed.
Lemma locks_release_read b c T : locks b (release_read c T) b.
Proof. unfold release_read. locks_auto. Qed.
#[export] Hint Resolve locks_while locks_release_urb locks_release_read : locks.
Lemma locks_release_one m : locks true (release_one m) true.
Proof. unfold release_one. locks_auto. Qed.
#[export] Hint Resolve locks_release_one : locks.
Lemma locks_release_loop c l : locks true (release_loop c l) true.
Proof. induction l; simpl; locks_auto. Qed.
#[export] Hint Resolve locks_release_loop : locks.
Lemma locks_cleanup c : locks false (ReleaseClientID_cleanup c) false.
Proof. unfold ReleaseClientID_cleanup. locks_auto. Qed.
#[export] Hint Resolve locks_cleanup : locks.

Lemma locks_event e : locks false (run_event e) false.
Proof. destruct e; simpl; locks_auto. Qed.
#[export] Hint Resolve locks_event : locks.
Lemma locks_events l : locks false (run_events l) false.
Proof. induction l; simpl; locks_auto. Qed.
#[export] Hint Resolve locks_events : locks.
Lemma locks_others : locks false others_run false.
Proof. unfold others_run. locks_auto. Qed.
#[export] Hint Resolve locks_others : locks.
Lemma locks_down_wait g a : locks false (down_wait g a) false.
Proof. unfold down_wait. locks_auto. Qed.
#[export] Hint Resolve locks_down_wait : locks.
Lemma locks_down_patiently a : locks false (down_patiently a) false.
Proof. unfold down_patiently, down_interruptible, down_timeout. locks_auto. Qed.
Lemma locks_remove_notify b p a : locks b (remove_notify p a) b.
Proof. unfold remove_notify. locks_auto. Qed.
Lemma locks_ReadSync_try c T a : locks true (ReadSync_try c T a) false.
Proof. unfold ReadSync_try. locks_auto. Qed.
#[export] Hint Resolve locks_down_patiently locks_remove_notify locks_ReadSync_try : locks.
Lemma locks_ReadSync_loop fuel p c T a : locks true (ReadSync_loop fuel p c T a) false.
Proof. induction fuel; simpl; locks_auto. Qed.
#[export] Hint Resolve locks_ReadSync_loop : locks.
Lemma locks_ReadSync c T : locks false (ReadSync c T) false.
Proof. unfold ReadSync. locks_auto. Qed.
Lemma locks_free_write b u : locks b (free_write u) b. Proof. unfold free_write. locks_auto. Qed.
#[export] Hint Resolve locks_ReadSync locks_free_write : locks.
Lemma locks_WriteSync_finish c u r n : locks false (WriteSync_finish c u r n) false.
Proof. unfold WriteSync_finish. locks_auto. Qed.
#[export] Hint Resolve locks_WriteSync_finish : locks.
Lemma locks_WriteSync_submit c u a n d : locks false (WriteSync_submit c u a n d) false.
Proof. unfold WriteSync_submit. locks_auto. Qed.
#[export] Hint Resolve locks_WriteSync_submit : locks.
Lemma locks_WriteSync d n c : locks false (WriteSync d n c) false.
Proof. unfold WriteSync. locks_auto. Qed.
#[export] Hint Resolve locks_WriteSync : locks.

(** ** The operations of [QmiClient] *)

Lemma locks_QMIXactionIDGet : locks false QMIXactionIDGet false.
Proof. unfold QMIXactionIDGet. locks_auto. Qed.
#[export] Hint Resolve locks_QMIXactionIDGet : locks.
Lemma locks_GetClientID_request svc : locks false (GetClientID_request svc) false.
Proof. unfold GetClientID_request. locks_auto. Qed.
#[export] Hint Resolve locks_GetClientID_request : locks.

Lemma find_client_None c l : find_client c l = None → c ∉ mClientID <$> l.
Proof.
  induction l as [|m l IH]; simpl; [set_solver|].
  destruct (Z.eqb_spec (mClientID m) c) as [E|E]; [done|]. intros H.
  apply not_elem_of_cons. split; [congruence|by apply IH].
Qed.

(** A new client is added in the critical section that finds its ID unused. *)
Lemma table_ok_add l n c :
  table_ok l n → find_client c l = None → table_ok (l ++ [ClientMem n c [] [] [] 0]) (n + 1).
Proof.
  intros (Hi & Ha & Hn) Hc. apply find_client_None in Hc. unfold table_ok. rewrite !fmap_app. simpl.
  split_and!.
  - apply NoDup_app. split_and!; [done| |apply NoDup_singleton].
    intros x Hx ->%list_elem_of_singleton. done.
  - apply NoDup_app. split_and!; [done| |apply NoDup_singleton].
    intros x Hx ->%list_elem_of_singleton. apply list_elem_of_fmap in Hx as (m & E & Hm).
    rewrite Forall_forall in Hn. specialize (Hn m Hm). lia.
  - apply Forall_app. split; [|by constructor; [simpl; lia|]].
    eapply Forall_impl; [exact Hn|]. simpl. lia.
Qed.

(** Memory for a new client comes from [kmalloc], which leaves the table alone. *)
Lemma ends_kmalloc s (Φ : bool → qmi_dev → Prop) :
  (∀ b s', mpClientMemList s' = mpClientMemList s → next_addr s' = next_addr s →
           mClientMemLock s' = mClientMemLock s → Φ b s') → ends kmalloc s Φ.
Proof.
  intros H. unfold kmalloc. apply ends_bind, ends_get. destruct (kmallocs (env s)) as [|b l].
  - apply ends_bind, ends_modify, ends_ret. by apply H.
  - apply ends_bind, ends_modify. destruct b; [apply ends_bind, ends_modify|]; apply ends_ret; by apply H.
Qed.

(** The search of [GetClientID] is right because the device is still valid after the
    exchange: an operation that does not sleep leaves it valid, and one that slept looks. *)
Definition stays {A} (p : qm A) : Prop :=
  ∀ s, mbQMIValid s = true → ends p s (λ _ s', mbQMIValid s' = true).

Lemma stays_ret {A} (a : A) : stays (mret a). Proof. intros s H. by apply ends_ret. Qed.
Lemma stays_fault {A} : stays (@fault qmi_dev A). Proof. intros s H. apply ends_fault. Qed.
Lemma stays_lift {A} (o : outcome A) : stays (lift o). Proof. intros s H. by apply ends_lift. Qed.
Lemma stays_get : stays get_state. Proof. intros s H. by apply ends_get. Qed.
Lemma stays_modify f : (∀ s, mbQMIValid (f s) = mbQMIValid s) → stays (modify f).
Proof. intros E s H. apply ends_modify. by rewrite E. Qed.
Lemma stays_bind {A B} (p : qm A) (k : A → qm B) :
  stays p → (∀ x, stays (k x)) → stays (p ≫= k).
Proof.
  intros Hp Hk s Hs. apply ends_bind. eapply ends_mono; [by apply Hp|]. intros x s' H. by apply Hk.
Qed.
#[export] Hint Resolve stays_ret stays_fault stays_lift stays_get : locks.

Ltac stays_step :=
  lazymatch goal with
  | |- stays (_ ≫= _) => apply stays_bind; [|intros ?]
  | |- stays (if ?c then _ else _) => destruct c
  | |- stays (match ?x with _ => _ end) => destruct x
  | |- stays _ => solve [auto with locks | by apply stays_modify]
  end.
Ltac stays_auto := intros; repeat stays_step.

Lemma stays_kmalloc : stays kmalloc. Proof. unfold kmalloc. stays_auto. Qed.
Lemma stays_kfree : stays kfree. Proof. unfold kfree. stays_auto. Qed.
Lemma stays_update a f : stays (update a f). Proof. unfold update. stays_auto. Qed.
Lemma stays_unlock : stays spin_unlock. Proof. unfold spin_unlock. stays_auto. Qed.
Lemma stays_lock : stays spin_lock.
Proof. unfold spin_lock. stays_auto. by intros s H a s'. Qed.
Lemma stays_valid : stays IsDeviceValid. Proof. unfold IsDeviceValid. stays_auto. Qed.
#[export] Hint Resolve stays_kmalloc stays_kfree stays_update stays_unlock stays_lock
  stays_valid : locks.
Lemma stays_find c : stays (FindClientMem c). Proof. unfold FindClientMem. stays_auto. Qed.
#[export] Hint Resolve stays_find : locks.
Lemma stays_pop c T : stays (PopFromReadMemList c T).
Proof. unfold PopFromReadMemList. stays_auto. Qed.
Lemma stays_add c T f a : stays (AddToNotifyList c T f a).
Proof. unfold AddToNotifyList. stays_auto. Qed.
Lemma stays_sema_gone a : stays (sema_gone a). Proof. unfold sema_gone. stays_auto. Qed.
Lemma stays_sema_new m : stays (sema_new m). Proof. unfold sema_new, new_addr. stays_auto. Qed.
#[export] Hint Resolve stays_pop stays_add stays_sema_gone stays_sema_new : locks.
Lemma stays_try c T a : stays (ReadSync_try c T a). Proof. unfold ReadSync_try. stays_auto. Qed.
#[export] Hint Resolve stays_try : locks.

Lemma answers_loop fuel p c T a s :
  mbQMIValid s = true →
  ends (ReadSync_loop fuel p c T a) s (λ r s', 0 ≤ r.1 → mbQMIValid s' = true).
Proof.
  revert s. induction fuel as [|fuel IH]; intros s Hs; simpl; apply ends_bind;
    (eapply ends_mono; [by apply stays_try|]); intros [n d| |] s1 H1; try by apply ends_ret.
  all: apply ends_bind; intros r s2 _; destruct (negb (r =? 0)).
  1,3: by do 3 (apply ends_bind; intros ? ? _); apply ends_ret.
  all: unfold IsDeviceValid; apply ends_bind, ends_bind, ends_get, ends_ret.
  all: destruct (mbQMIValid s2) eqn:E; [|by apply ends_ret]; apply ends_bind.
  all: eapply ends_mono; [by apply stays_lock|]; intros [] s3 H3.
  - by intros ? ?.
  - by apply IH.
Qed.

Lemma answers_ReadSync c T s :
  ends (ReadSync c T) s (λ r s', 0 ≤ r.1 → mbQMIValid s' = true).
Proof.
  unfold ReadSync, IsDeviceValid. apply ends_bind, ends_bind, ends_get, ends_ret.
  destruct (mbQMIValid s) eqn:E; [|by apply ends_ret]. cbn [negb].
  apply ends_bind. eapply ends_mono; [by apply stays_lock|]. intros [] s1 H1.
  apply ends_bind. eapply ends_mono; [by apply stays_find|]. intros [m|] s2 H2.
  2: { apply ends_bind. intros ? ? _. by apply ends_ret. }
  apply ends_bind. eapply ends_mono; [by apply stays_sema_new|]. intros a s3 H3.
  apply ends_bind, ends_get, ends_bind. eapply ends_mono; [by apply answers_loop|].
  intros r s4 H4. apply ends_bind. intros [] s5 E5. apply ends_ret. intros Hr.
  injection E5 as <-. auto.
Qed.

Lemma answers_request svc s :
  ends (GetClientID_request svc) s (λ r s', 0 ≤ r.1 → mbQMIValid s' = true).
Proof.
  unfold GetClientID_request.
  apply ends_bind. intros [] s1 _; [|by apply ends_ret]. cbn [negb].
  apply ends_bind. intros T s2 _. apply ends_bind. intros [r buf] s3 _.
  destruct (Z.ltb_spec r 0); [apply ends_bind; intros ? ? _; apply ends_ret; simpl; lia|].
  apply ends_bind. intros r1 s4 _. apply ends_bind. intros [] s5 _.
  destruct (Z.ltb_spec r1 0); [apply ends_ret; simpl; lia|].
  apply ends_bind. eapply ends_mono; [apply answers_ReadSync|]. intros [r2 d] s6 H6. simpl in H6.
  destruct (Z.ltb_spec r2 0); [apply ends_ret; simpl; lia|].
  apply ends_bind, ends_lift. intros [r3 cid] _. apply ends_bind, ends_modify, ends_ret.
  intros _. simpl. auto.
Qed.

Lemma locks_GetClientID svc : locks false (GetClientID svc) false.
Proof.
  unfold GetClientID, IsDeviceValid. intros s Hs.
  apply ends_bind, ends_bind, ends_get, ends_ret.
  destruct (mbQMIValid s) eqn:E; [|by apply ends_ret]. cbn [negb]. apply ends_bind.
  intros [r c] s1 E1.
  assert (inv false s1 ∧ (0 ≤ r → mbQMIValid s1 = true)) as [H1 Hv].
  { destruct (negb (svc =? 0)).
    - split; [by eapply (locks_GetClientID_request svc s)|]. by apply (answers_request svc s (r, c)).
    - injection E1 as -> -> ->. done. }
  destruct (Z.ltb_spec r 0) as [?|Hr]; [by apply ends_ret|]. specialize (Hv Hr).
  apply ends_bind. unfold spin_lock. apply ends_bind, ends_get. destruct H1 as [Ht Hl]. rewrite Hl.
  apply ends_modify. unfold FindClientMem, IsDeviceValid.
  apply ends_bind, ends_bind, ends_bind, ends_get, ends_ret.
  change (mbQMIValid (set_lock true s1)) with (mbQMIValid s1). rewrite Hv. cbn [negb].
  apply ends_bind, ends_get, ends_ret. change (mpClientMemList (set_lock true s1)) with (mpClientMemList s1).
  destruct (find_client c (mpClientMemList s1)) eqn:Ec.
  { apply ends_bind, ends_modify, ends_ret. by split. }
  apply ends_bind, ends_kmalloc. intros ok s2 Ec2 En2 El2. simpl in *. destruct ok; cbn [negb].
  2: { apply ends_bind, ends_modify, ends_ret. split; [|done]. simpl. by rewrite Ec2, En2. }
  unfold new_addr. apply ends_bind, ends_bind, ends_get, ends_bind, ends_modify, ends_ret.
  apply ends_bind, ends_modify, ends_bind, ends_modify, ends_ret. split; [|done]. simpl.
  rewrite Ec2, En2. by apply table_ok_add.
Qed.
#[export] Hint Resolve locks_GetClientID : locks.

Lemma locks_ReleaseClientID_request c : locks false (ReleaseClientID_request c) false.
Proof. unfold ReleaseClientID_request. locks_auto. Qed.
#[export] Hint Resolve locks_ReleaseClientID_request : locks.
Lemma locks_ReleaseClientID c : locks false (ReleaseClientID c) false.
Proof. unfold ReleaseClientID. locks_auto. Qed.
Lemma locks_QMICTLSyncProc : locks false QMICTLSyncProc false.
Proof. unfold QMICTLSyncProc. locks_auto. Qed.
#[export] Hint Resolve locks_ReleaseClientID locks_QMICTLSyncProc : locks.

Lemma locks_send_request n c fill :
  (∀ b, locks false (fill b) false) → locks false (send_request n c fill) false.
Proof. intros H. unfold send_request. locks_auto. Qed.
#[export] Hint Extern 1 (locks false (send_request _ _ _) _) =>
  apply locks_send_request; intros; apply locks_lift : locks.
Lemma locks_QMIReady_turn n : locks false (QMIReady_turn n) false.
Proof. unfold QMIReady_turn, down_timeout. locks_auto. Qed.
#[export] Hint Resolve locks_QMIReady_turn : locks.
Lemma locks_QMIReady_loop fuel c t n : locks false (QMIReady_loop fuel c t n) false.
Proof. revert c. induction fuel; intros c; simpl; locks_auto. Qed.
#[export] Hint Resolve locks_QMIReady_loop : locks.
Lemma locks_QMIReady t : locks false (QMIReady t) false.
Proof. unfold QMIReady. locks_auto. Qed.
Lemma locks_usb_control_msg b v : locks b (usb_control_msg v) b.
Proof. unfold usb_control_msg. locks_auto. Qed.
#[export] Hint Resolve locks_QMIReady locks_usb_control_msg : locks.

Lemma locks_SetupQMIWDSCallback : locks false SetupQMIWDSCallback false.
Proof. unfold SetupQMIWDSCallback. locks_auto. Qed.
Lemma locks_QMIDMSGetMEID : locks false QMIDMSGetMEID false.
Proof. unfold QMIDMSGetMEID. locks_auto. Qed.
Lemma locks_data_format b q p n : locks b (data_format_response q p n) b.
Proof. unfold data_format_response. locks_auto. Qed.
#[export] Hint Resolve locks_SetupQMIWDSCallback locks_QMIDMSGetMEID locks_data_format : locks.
Lemma locks_QMIWDASetDataFormat m w : locks false (QMIWDASetDataFormat m w) false.
Proof. unfold QMIWDASetDataFormat. locks_auto. Qed.
Lemma locks_and_then b p q : locks b p b → locks b q b → locks b (and_then p q) b.
Proof. intros Hp Hq. unfold and_then. locks_auto. Qed.
Lemma locks_put_refcount b : locks b put_refcount b. Proof. unfold put_refcount. locks_auto. Qed.
Lemma locks_register_chardev b : locks b register_chardev b.
Proof. unfold register_chardev. locks_auto. Qed.
#[export] Hint Resolve locks_QMIWDASetDataFormat locks_put_refcount
  locks_register_chardev : locks.
Ltac locks_auto ::= intros; repeat (cbv zeta; first [apply locks_and_then | locks_step]).
Lemma locks_sync_body : locks false qmi_sync_thread_body false.
Proof. unfold qmi_sync_thread_body. locks_auto. Qed.
#[export] Hint Resolve locks_sync_body : locks.
Lemma locks_sync_thread : locks false qmi_sync_thread false.
Proof. unfold qmi_sync_thread. locks_auto. Qed.
Lemma locks_RegisterQMIDevice : locks false RegisterQMIDevice false.
Proof. unfold RegisterQMIDevice. locks_auto. Qed.
Lemma locks_msleep : locks false msleep false. Proof. unfold msleep. locks_auto. Qed.
#[export] Hint Resolve locks_sync_thread locks_RegisterQMIDevice locks_msleep : locks.
Lemma locks_wait_sync n : locks false (wait_sync n) false.
Proof. induction n; simpl; locks_auto. Qed.
Lemma locks_release_all fuel : locks true (release_all fuel) true.
Proof. induction fuel; simpl; locks_auto. Qed.
#[export] Hint Resolve locks_wait_sync locks_release_all : locks.
Lemma locks_DeregisterQMIDevice : locks false DeregisterQMIDevice false.
Proof. unfold DeregisterQMIDevice. locks_auto. Qed.
#[export] Hint Resolve locks_DeregisterQMIDevice : locks.

Lemma locks_ioctl f c a : locks false (UserspaceunlockedIOCTL f c a) false.
Proof. unfold UserspaceunlockedIOCTL, file_client, set_file. locks_auto. Qed.
Lemma locks_open_wait b : locks b UserspaceOpen_wait b.
Proof. unfold UserspaceOpen_wait. locks_auto. Qed.
#[export] Hint Resolve locks_ioctl locks_open_wait : locks.
Lemma locks_open f : locks false (UserspaceOpen f) false.
Proof. unfold UserspaceOpen, set_file. locks_auto. Qed.
Lemma locks_close f : locks false (UserspaceClose f) false.
Proof. unfold UserspaceClose, file_client. locks_auto. Qed.
Lemma locks_read f n : locks false (UserspaceRead f n) false.
Proof. unfold UserspaceRead, file_client. locks_auto. Qed.
Lemma locks_write f d : locks false (UserspaceWrite f d) false.
Proof. unfold UserspaceWrite, file_client. locks_auto. Qed.
Lemma locks_poll f : locks false (UserspacePoll f) false.
Proof. unfold UserspacePoll, file_client. locks_auto. Qed.
#[export] Hint Resolve locks_open locks_close locks_read locks_write locks_poll : locks.

(** ** Everything that enters the driver *)

Inductive entry :=
| Probe
| Disconnect
| Sync_thread
| Suspend (powerEvent : Z)
| Completion (e : event)
| Open (f : Z)
| Close (f : Z)
| Ioctl (f cmd arg : Z)
| Read (f size : Z)
| Write (f : Z) (bytes : list Z)
| Poll (f : Z).

Definition run_entry (e : entry) : qm () :=
  match e with
  | Probe => ignore RegisterQMIDevice
  | Disconnect => DeregisterQMIDevice
  | Sync_thread => ignore qmi_sync_thread
  | Suspend powerEvent => ignore (GobiNetSuspend powerEvent)
  | Completion e => run_event e
  | Open f => ignore (UserspaceOpen f)
  | Close f => ignore (UserspaceClose f)
  | Ioctl f cmd arg => ignore (UserspaceunlockedIOCTL f cmd arg)
  | Read f size => ignore (UserspaceRead f size)
  | Write f bytes => ignore (UserspaceWrite f bytes)
  | Poll f => ignore (UserspacePoll f)
  end.

Fixpoint run_entries (l : list entry) : qm () :=
  match l with [] => mret () | e :: l => run_entry e;; run_entries l end.

Lemma locks_entry e : locks false (run_entry e) false.
Proof. destruct e; simpl; locks_auto. Qed.
#[export] Hint Resolve locks_entry : locks.
Lemma locks_entries l : locks false (run_entries l) false.
Proof. induction l; simpl; locks_auto. Qed.

(** C11: the client table is an invariant of the whole driver: whatever sequence of
    registrations, removals, completions, file operations and suspends runs, on
    whatever results of the kernel, and whatever else happens while a call sleeps
    (clients released under it, the device unplugged), no two clients ever have the
    same ID, so [FindClientMem] is unambiguous, no two share memory, and every call
    that returns has given the spin lock back, on its error paths too. *)
Theorem client_table_invariant l s s' :
  table_ok (mpClientMemList s) (next_addr s) → mClientMemLock s = false →
  run_entries l s = Done ((), s') →
  table_ok (mpClientMemList s') (next_addr s') ∧ mClientMemLock s' = false.
Proof. intros Ht Hl E. by apply (locks_entries l s (conj Ht Hl) () s'). Qed.

(** A device before registration, and a modem that assigns the client 7 of WDS. *)
Definition unplugged : qmi_dev :=
  let frame := [1; 23; 0; 0x80; 0; 0; 1; 2; 0x22; 0; 12; 0; 2; 4; 0; 0; 0; 0; 0; 1; 2; 0; 1; 7] in
  QmiDev false false [] false 0 0
    (GobiNet true true false 0 0 true true 4 true (Some 0) 0 0)
    (GobiData [] (QmapSetting [] [] [] [] [] []) (UlAgg 0 0 0) 0 false false false 0
       no_read_thread ∅) ∅ ∅ 2 5
    (QmiEnv [] [0; 0; 0; 0; 0; 1] [[Write_complete 3 0]; [Read_complete 0 frame 24]]) [].

Definition session : list entry :=
  [Probe; Open 1; Ioctl 1 IOCTL_QMI_GET_SERVICE_FILE 1; Poll 1; Completion Unplugged; Disconnect].

Lemma client_table_invariant_witness : ∃ s',
  run_entries session unplugged = Done ((), s') ∧
  table_ok (mpClientMemList s') (next_addr s') ∧ mClientMemLock s' = false ∧
  mClientID <$> mpClientMemList s' = [0; 0x701] ∧ mWaitQueue <$> mpClientMemList s' = [0; 1].
Proof.
  eexists. assert (run_entries session unplugged = Done ((), _)) as E by (vm_compute; reflexivity).
  split; [exact E|].
  assert (table_ok (mpClientMemList unplugged) (next_addr unplugged)) as Hi by (split_and!; constructor).
  destruct (client_table_invariant _ _ _ Hi eq_refl E) as [Ht Hl].
  split; [exact Ht|]. split; [exact Hl|]. split; reflexivity.
Defined.
