(* ===== verification/QmiRelease.v ===== *)
(** * The GobiNet client layer: releasing a client

    The cleanup of [ReleaseClientID] wakes every thread that waits for the client,
    takes back its URBs and frees its memory. *)

From S2P Require Import Prelude Kernel GobiQmi.
From stdpp Require Import gmap.
Import Qmi.
From S2P Require Import QmiDev QmiClient QmiLists QmiRuns.

#[local] Open Scope Z_scope.
#[local] Open Scope c_scope.

(** ** What the loops leave *)

Definition raise_sem (a : Z) (ss : gmap Z QuecSem) : gmap Z QuecSem :=
  alter (λ q, Sem (sem_count q + 1) (magic q)) a ss.

(** The threads that wait for the client are woken. *)
Definition woken (l : list sNotifyList) (ss : gmap Z QuecSem) : gmap Z QuecSem :=
  fold_left (λ ss n, raise_sem (notify_data n) ss) l ss.

(** The writers whose URBs were in flight are woken. *)
Definition cancelled (us : gmap Z urb) (l : list Z) (ss : gmap Z QuecSem) : gmap Z QuecSem :=
  fold_left (λ ss u, match us !! u with
                     | Some (Urb None a) => raise_sem a ss
                     | _ => ss
                     end) l ss.

Definition taken_back (l : list Z) (us : gmap Z urb) : gmap Z urb := fold_left (λ us u, delete u us) l us.

Lemma raise_sem_kept a b g k ss :
  ss !! a = Some (Sem k g) → ∃ k', raise_sem b ss !! a = Some (Sem k' g).
Proof.
  intros H. unfold raise_sem. destruct (decide (a = b)) as [->|].
  - rewrite lookup_alter_eq, H. by eexists.
  - rewrite lookup_alter_ne by done. by eexists.
Qed.

Lemma up_raise a k g (ss : gmap Z QuecSem) :
  ss !! a = Some (Sem k g) → <[a := Sem (k + 1) g]> ss = raise_sem a ss.
Proof.
  intros H. unfold raise_sem. apply map_eq. intros i. destruct (decide (i = a)) as [->|].
  - by rewrite lookup_insert_eq, lookup_alter_eq, H.
  - by rewrite lookup_insert_ne, lookup_alter_ne.
Qed.

(** A device with the lists of one client in front: the loops work on this client,
    with the lock held. *)
Section Loops.
Context (c : Z).

Definition client_at (s : qmi_dev) (m : sClientMemList) : Prop :=
  mbQMIValid s = true ∧ mClientMemLock s = true ∧ NoDup (mem_addr <$> mpClientMemList s) ∧
  find_client c (mpClientMemList s) = Some m.

Lemma client_at_upd s m f :
  client_at s m → keeps_id f →
  find_client c (upd_mem (mem_addr m) f (mpClientMemList s)) = Some (f m) ∧
  NoDup (mem_addr <$> upd_mem (mem_addr m) f (mpClientMemList s)).
Proof.
  intros (_ & _ & Ha & Hm) Hf. split.
  - by rewrite (find_client_upd _ _ _ _ _ Ha Hf Hm), decide_True.
  - by rewrite upd_mem_addrs.
Qed.

(** The state with another list for the client. *)
Definition with_client (s : qmi_dev) (m : sClientMemList) (f : sClientMemList → sClientMemList) : qmi_dev :=
  set_clients (upd_mem (mem_addr m) f (mpClientMemList s)) s.

Lemma with_client_twice s m f g :
  keeps_id f → with_client (with_client s m f) (f m) g = with_client s m (λ m, g (f m)).
Proof.
  intros Hf. unfold with_client. apply qmi_ext; try reflexivity. simpl. rewrite (proj1 (Hf m)).
  apply upd_mem_twice. intros x. apply Hf.
Qed.

(** Every waiting thread is in [ReadSync]. *)
Lemma runs_notify_loop fuel s m (Φ : () → qmi_dev → Prop) :
  client_at s m → readers_wait s m → (length (mpReadNotifyList m) < fuel)%nat →
  Φ () (set_sems (woken (mpReadNotifyList m) (sems s))
         (set_live (live s - Z.of_nat (length (mpReadNotifyList m))) (with_client s m (set_notify [])))) →
  runs (while_true fuel (NotifyAndPopNotifyList c 0)) s Φ.
Proof.
  revert s m Φ. induction fuel as [|fuel IH]; intros s m Φ Hc Hw Hlen H; [lia|]. cbn [while_true].
  destruct Hc as (Hv & Hl & Ha & Hm). apply runs_bind. unfold NotifyAndPopNotifyList.
  apply runs_bind, runs_find; [done..|]. rewrite Hm.
  destruct (mpReadNotifyList m) as [|n l] eqn:En; cbn [pop_first].
  { apply runs_ret, runs_ret. refine (eq_ind _ _ H _ _). apply qmi_ext; try reflexivity; simpl; [|lia].
    apply (upd_mem_id c); [done..|]. destruct m. simpl in *. by subst. }
  change (notify_matches 0 n) with true. cbn iota. unfold readers_wait in Hw. rewrite En in Hw.
  apply Forall_cons in Hw as [(Hf & k & Hs) Hw]. rewrite Hf.
  apply runs_bind, runs_modify, runs_bind, runs_modify, runs_bind.
  eapply runs_upsem; [exact Hs|]. apply runs_bind, runs_lock; [done|].
  apply runs_bind, runs_free, runs_ret. 
  set (s1 := set_sems (raise_sem (notify_data n) (sems s)) (set_live (live s - 1) (with_client s m (set_notify l)))).
  match goal with |- runs _ ?w _ => replace w with s1
    by (apply qmi_ext; try reflexivity; [done|]; by rewrite (up_raise _ k)) end.
  destruct (client_at_upd s m (set_notify l) (conj Hv (conj Hl (conj Ha Hm)))) as [Hm1 Ha1]; [auto with qmi|].
  apply (IH s1 (set_notify l m)); [by split_and!| |simpl in *; lia|].
  - unfold readers_wait. cbn [mpReadNotifyList set_notify]. eapply Forall_impl; [exact Hw|].
    intros x [Hx (kx & Hsx)]. split; [done|]. by eapply raise_sem_kept.
  - refine (eq_ind _ _ H _ _). apply qmi_ext; try reflexivity; [|simpl in *; lia].
    cbn [mpReadNotifyList set_notify mpClientMemList set_sems set_live s1].
    change (mem_addr (set_notify l m)) with (mem_addr m).
    unfold with_client. simpl. by rewrite upd_mem_twice.
Qed.

(** The URBs of the client are distinct; the writer of one in flight still waits. *)
Definition urbs_live (s : qmi_dev) (m : sClientMemList) : Prop :=
  NoDup (mpURBList m) ∧
  Forall (λ u, ∃ b, urbs s !! u = Some b ∧
    (urb_status b = None → ∃ k g, sems s !! urb_context b = Some (Sem k g))) (mpURBList m).

Lemma runs_kill_free {A} u b s (k : qm A) (Φ : A → qmi_dev → Prop) :
  urbs s !! u = Some b →
  (urb_status b = None → ∃ k g, sems s !! urb_context b = Some (Sem k g)) →
  runs k (set_sems (cancelled (urbs s) [u] (sems s)) (set_urbs (delete u (urbs s))
         (set_live (live s - 1) (set_trace (Kill_urb u :: trace s) s)))) Φ →
  runs (usb_kill_urb u;; usb_free_urb u;; k) s Φ.
Proof.
  intros Hu Hs H. unfold usb_kill_urb. apply runs_bind, runs_bind, runs_out.
  unfold WriteSyncCallback. apply runs_bind, runs_get. cbn [urbs set_trace]. simpl in H. rewrite Hu in *.
  destruct b as [[st|] a]; cbn [urb_status urb_context] in *.
  - apply runs_ret. unfold usb_free_urb. apply runs_bind, runs_bind, runs_modify, runs_free. exact H.
  - destruct (Hs eq_refl) as (n & g & Hk). apply runs_bind, runs_modify. eapply runs_up; [exact Hk|].
    unfold usb_free_urb. apply runs_bind, runs_bind, runs_modify, runs_free.
    refine (eq_ind _ (λ w, runs k w Φ) H _ _). apply qmi_ext; try reflexivity; simpl.
    + by rewrite (up_raise _ n g).
    + by rewrite delete_insert_eq.
Qed.

Lemma cancelled_delete u us l ss : u ∉ l → cancelled (delete u us) l ss = cancelled us l ss.
Proof.
  revert ss. induction l as [|x l IH]; intros ss Hu; [done|]. apply not_elem_of_cons in Hu as [Hx Hu].
  simpl. rewrite lookup_delete_ne by done. by apply IH.
Qed.

Lemma cancelled_kept us l a k g ss :
  ss !! a = Some (Sem k g) → ∃ k', cancelled us l ss !! a = Some (Sem k' g).
Proof.
  revert k ss. induction l as [|u l IH]; intros k ss H; [by eexists|]. simpl.
  destruct (us !! u) as [[[st|] b]|]; [by eapply IH| |by eapply IH].
  destruct (raise_sem_kept a b g k ss H) as [k' H']. by eapply IH.
Qed.

Lemma runs_urb_loop fuel s m (Φ : () → qmi_dev → Prop) :
  client_at s m → urbs_live s m → (length (mpURBList m) < fuel)%nat →
  Φ () (set_sems (cancelled (urbs s) (mpURBList m) (sems s))
         (set_urbs (taken_back (mpURBList m) (urbs s))
         (set_live (live s - 2 * Z.of_nat (length (mpURBList m)))
         (set_trace (rev (Kill_urb <$> mpURBList m) ++ trace s) (with_client s m (set_urblist [])))))) →
  runs (while_true fuel (release_urb c)) s Φ.
Proof.
  revert s m Φ. induction fuel as [|fuel IH]; intros s m Φ Hc [Hd Hu] Hlen H; [lia|]. cbn [while_true].
  destruct Hc as (Hv & Hl & Ha & Hm). apply runs_bind. unfold release_urb.
  destruct (mpURBList m) as [|u l] eqn:En.
  { apply runs_bind. unfold PopFromURBList. apply runs_bind, runs_find; [done..|]. rewrite Hm, En.
    apply runs_ret, runs_ret, runs_ret. refine (eq_ind _ _ H _ _). apply qmi_ext; try reflexivity; simpl; [|lia].
    apply (upd_mem_id c); [done..|]. destruct m. simpl in *. by subst. }
  apply Forall_cons in Hu as [(b & Hb & Hsb) Hu]. apply NoDup_cons in Hd as [Hnu Hd].
  apply runs_bind. eapply runs_pop_urb; [done|done|exact Hm|exact En|].
  apply runs_bind, runs_modify.
  set (s1 := set_sems (cancelled (urbs s) [u] (sems s)) (set_urbs (delete u (urbs s))
    (set_live (live s - 2) (set_trace (Kill_urb u :: trace s) (with_client s m (set_urblist l)))))).
  eapply runs_kill_free; [exact Hb|exact Hsb|]. apply runs_bind, runs_lock; [done|]. apply runs_ret.
  match goal with |- runs _ ?w _ => replace w with s1
    by (apply qmi_ext; try reflexivity; simpl; lia || done) end.
  destruct (client_at_upd s m (set_urblist l) (conj Hv (conj Hl (conj Ha Hm)))) as [Hm1 Ha1]; [auto with qmi|].
  apply (IH s1 (set_urblist l m)); [by split_and!| |simpl in *; lia|].
  - split; [done|]. cbn [mpURBList set_urblist]. rewrite Forall_forall in Hu |- *. intros x Hx.
    destruct (Hu x Hx) as (bx & Hbx & Hsx). exists bx. split.
    + cbn. rewrite lookup_delete_ne; [done|]. by intros ->.
    + intros Hst. destruct (Hsx Hst) as (k & g & Hk).
      destruct (cancelled_kept (urbs s) [u] _ _ _ _ Hk) as [k' Hk']. by exists k', g.
  - refine (eq_ind _ _ H _ _). apply qmi_ext; try reflexivity.
    + simpl. unfold with_client. simpl. by rewrite upd_mem_twice.
    + simpl. by rewrite cancelled_delete.
    + simpl in *. lia.
    + simpl. by rewrite <- app_assoc.
Qed.

Lemma runs_message_loop fuel s m (Φ : () → qmi_dev → Prop) :
  client_at s m → (length (mpList m) < fuel)%nat →
  Φ () (set_live (live s - 2 * Z.of_nat (length (mpList m))) (with_client s m (set_mpList []))) →
  runs (while_true fuel (release_read c 0)) s Φ.
Proof.
  revert s m Φ. induction fuel as [|fuel IH]; intros s m Φ Hc Hlen H; [lia|]. cbn [while_true].
  destruct Hc as (Hv & Hl & Ha & Hm). apply runs_bind. unfold release_read. apply runs_bind.
  eapply runs_pop_read; [done|done|exact Hm|]. destruct (mpList m) as [|r l] eqn:En; cbn [pop_first].
  { apply runs_ret, runs_ret. refine (eq_ind _ _ H _ _). apply qmi_ext; try reflexivity; simpl; [|lia].
    apply (upd_mem_id c); [done..|]. destruct m. simpl in *. by subst. }
  change (read_matches 0 r) with true. cbn iota. apply runs_bind, runs_free, runs_ret.
  set (s1 := set_live (live s - 2) (with_client s m (set_mpList l))).
  match goal with |- runs _ ?w _ => replace w with s1
    by (apply qmi_ext; try reflexivity; simpl; lia) end.
  destruct (client_at_upd s m (set_mpList l) (conj Hv (conj Hl (conj Ha Hm)))) as [Hm1 Ha1]; [auto with qmi|].
  apply (IH s1 (set_mpList l m)); [by split_and!|simpl in *; lia|].
  refine (eq_ind _ _ H _ _). apply qmi_ext; try reflexivity; [|simpl in *; lia].
  simpl. unfold with_client. simpl. by rewrite upd_mem_twice.
Qed.
End Loops.

(** ** The whole cleanup *)

Lemma woken_kept l a k g ss :
  ss !! a = Some (Sem k g) → ∃ k', woken l ss !! a = Some (Sem k' g).
Proof.
  revert k ss. induction l as [|n l IH]; intros k ss H; [by eexists|]. simpl.
  destruct (raise_sem_kept a (notify_data n) g k ss H) as [k' H']. by eapply IH.
Qed.

Lemma client_of_found s c m : find_client c (mpClientMemList s) = Some m → client_of s c = m.
Proof. intros H. unfold client_of. by rewrite H. Qed.

Definition without (m : sClientMemList) (l : list sClientMemList) : list sClientMemList :=
  List.filter (λ m', negb (mem_addr m' =? mem_addr m)) l.

Lemma without_upd m f l : keeps_id f → without m (upd_mem (mem_addr m) f l) = without m l.
Proof.
  intros Hf. unfold upd_mem, without. induction l as [|x l IH]; [done|].
  cbn [map List.filter]. rewrite IH.
  destruct (Z.eqb_spec (mem_addr x) (mem_addr m)) as [E|E].
  - by rewrite (proj1 (Hf x)), E, Z.eqb_refl.
  - by rewrite (proj2 (Z.eqb_neq _ _) E).
Qed.

(** The device without the client [m]. *)
Definition released (m : sClientMemList) (s : qmi_dev) : qmi_dev :=
  set_clients (without m (mpClientMemList s))
  (set_sems (cancelled (urbs s) (mpURBList m) (woken (mpReadNotifyList m) (sems s)))
  (set_urbs (taken_back (mpURBList m) (urbs s))
  (set_trace (rev (Kill_urb <$> mpURBList m) ++ trace s)
  (set_live (live s - Z.of_nat (length (mpReadNotifyList m)) - 2 * Z.of_nat (length (mpURBList m))
             - 2 * Z.of_nat (length (mpList m)) - (if mWaitQueue m =? 0 then 1 else 0)) s)))).

Lemma runs_release_one c s m (Φ : () → qmi_dev → Prop) :
  client_at c s m → readers_wait s m → urbs_live s m →
  Φ () (released m s) → runs (release_one m) s Φ.
Proof.
  intros Hc Hw Hu H. assert (mClientID m = c) as Hid by apply (find_client_Some c (mpClientMemList s) m), Hc.
  unfold release_one. rewrite Hid. pose proof Hc as (Hv & Hl & Ha & Hm).
  apply runs_bind, runs_get. rewrite (client_of_found _ _ _ Hm).
  apply runs_bind. apply (runs_notify_loop c _ s m); [done|done|unfold notify_fuel; lia|].
  set (m1 := set_notify [] m). set (s1 := set_sems _ _).
  destruct (client_at_upd c s m (set_notify []) Hc) as [Hm1 Ha1]; [auto with qmi|]. fold m1 in Hm1.
  apply runs_bind, runs_get. rewrite (client_of_found s1 c m1) by done.
  apply runs_bind. apply (runs_urb_loop c _ s1 m1); [by split_and!| |lia|].
  { destruct Hu as [Hd Hu]. split; [done|]. change (mpURBList m1) with (mpURBList m).
    eapply Forall_impl; [exact Hu|]. intros u (b & Hb & Hs). exists b. split; [done|].
    intros Hst. destruct (Hs Hst) as (k & g & Hk). cbn [sems s1 set_sems].
    destruct (woken_kept (mpReadNotifyList m) _ _ _ _ Hk) as [k' Hk']. by exists k', g. }
  set (m2 := set_urblist [] m1). set (s2 := set_sems _ _).
  destruct (client_at_upd c s1 m1 (set_urblist [])) as [Hm2 Ha2]; [by split_and!|auto with qmi|]. fold m2 in Hm2.
  apply runs_bind, runs_get. rewrite (client_of_found s2 c m2) by done.
  apply runs_bind. apply (runs_message_loop c _ s2 m2); [by split_and!|lia|].
  set (m3 := set_mpList [] m2). set (s3 := set_live _ _).
  destruct (client_at_upd c s2 m2 (set_mpList [])) as [Hm3 Ha3]; [by split_and!|auto with qmi|]. fold m3 in Hm3.
  apply runs_bind, runs_get. rewrite (client_of_found s3 c m3) by done.
  change (mWaitQueue m3) with (mWaitQueue m).
  apply runs_bind. eapply runs_mono with (Φ := λ _ s4,
    s4 = set_live (live s3 - (if mWaitQueue m =? 0 then 1 else 0)) s3).
  { destruct (mWaitQueue m =? 0); [by apply runs_free|]. apply runs_ret.
    unfold set_live. rewrite Z.sub_0_r. by destruct s3. }
  intros [] s4 ->. apply runs_modify. refine (eq_ind _ _ H _ _).
  apply qmi_ext; try reflexivity; try (simpl; lia).
  change (without m (mpClientMemList s) = without m (upd_mem (mem_addr m) (set_mpList [])
    (upd_mem (mem_addr m) (set_urblist []) (upd_mem (mem_addr m) (set_notify []) (mpClientMemList s))))).
  by rewrite !without_upd by auto with qmi.
Qed.

(** The cleanup of [ReleaseClientID] of a client whose entries of the notification list
    are all of waiting readers ([readers_wait]; the driver's own WDS client has
    an entry of [QMIWDSCallback] instead): it ends; the client, and no other,
    leaves the table; the semaphore of every thread that waits for one of its
    messages is raised, so no reader sleeps on; every URB of its writers is
    killed, which wakes the writers, and freed, but for the setup packet of a
    write in flight, which nobody frees; its messages, entries and memory are
    freed, the memory only when no thread sleeps in [poll] on it; and the lock
    is released. *)
Theorem ReleaseClientID_cleanup_spec c m s :
  mbQMIValid s = true → mClientMemLock s = false →
  NoDup (mem_addr <$> mpClientMemList s) → NoDup (mClientID <$> mpClientMemList s) →
  find_client c (mpClientMemList s) = Some m → readers_wait s m → urbs_live s m →
  ReleaseClientID_cleanup c s = Done ((), released m s).
Proof.
  intros Hv Hl Ha Hi Hm Hw Hu. apply runs_done. unfold ReleaseClientID_cleanup.
  apply runs_bind, runs_lock; [done|]. apply runs_bind, runs_get. cbn [mpClientMemList set_lock].
  set (s1 := set_lock true s).
  assert (∀ l s, (∀ x, x ∈ l → mClientID x ≠ c) → release_loop c l s = Done ((), s)) as Hskip.
  { intros l. induction l as [|x l IH]; intros w Hx; [done|]. simpl.
    rewrite (proj2 (Z.eqb_neq _ _) (Hx x (list_elem_of_here _ _))).
    apply IH. intros y Hy. apply Hx. by right. }
  assert (∃ l1 l2, mpClientMemList s = l1 ++ m :: l2 ∧ (∀ x, x ∈ l1 → mClientID x ≠ c) ∧
    (∀ x, x ∈ l2 → mClientID x ≠ c)) as (l1 & l2 & El & H1 & H2).
  { destruct (find_client_Some _ _ _ Hm) as [Hin Hc]. apply list_elem_of_split in Hin as (l1 & l2 & El).
    exists l1, l2. split; [done|]. rewrite El, fmap_app in Hi. simpl in Hi.
    apply NoDup_app in Hi as (_ & Hd & [Hn _]%NoDup_cons). split; intros x Hx E.
    - apply (Hd (mClientID x)); [by apply list_elem_of_fmap_2|]. rewrite E, <- Hc. by left.
    - apply Hn. rewrite Hc, <- E. by apply list_elem_of_fmap_2. }
  rewrite El.
  assert (runs (release_loop c (l1 ++ m :: l2)) s1 (λ _ s', s' = released m s1)) as (r & s' & E & ->).
  { clear El. revert H1. induction l1 as [|x l1 IH]; intros H1; simpl.
    - rewrite (proj2 (find_client_Some _ _ _ Hm)), Z.eqb_refl. apply runs_bind.
      apply (runs_release_one c _ m); [by split_and!|done|done|]. eapply runs_exact; [by apply Hskip|done].
    - rewrite (proj2 (Z.eqb_neq _ _) (H1 x (list_elem_of_here _ _))). apply runs_bind, runs_ret.
      apply IH. intros y Hy. apply H1. by right. }
  apply runs_bind. eapply runs_exact; [exact E|]. apply runs_modify.
  f_equal. by apply qmi_ext.
Qed.

(** A client with a reader that waits, a write in flight and a message stored. *)
Definition busy_client : sClientMemList :=
  ClientMem 2 0x701 [ReadMem [1; 2] 9 2] [Notify UpSem_handler 5 3] [6] 0.
Definition busy : qmi_dev :=
  QmiDev true false [ClientMem 1 0 [] [] [] 0; busy_client; ClientMem 8 0x702 [] [] [] 1] false 0 0
    (GobiNet false true false 0 0 true true 4 true (Some 0) 0 0)
    (GobiData [] (QmapSetting [] [] [] [] [] []) (UlAgg 0 0 0) 0 false false false 0
       no_read_thread ∅) {[3 := Sem 0 QUEC_SEM_MAGIC; 7 := Sem 0 QUEC_SEM_MAGIC]}
    {[6 := Urb None 7]} 9 10 (QmiEnv [] [] []) [].

Lemma ReleaseClientID_cleanup_spec_witness : ∃ s',
  ReleaseClientID_cleanup 0x701 busy = Done ((), s') ∧ mClientID <$> mpClientMemList s' = [0; 0x702] ∧
  sems s' !! 3 = Some (Sem 1 QUEC_SEM_MAGIC) ∧ sems s' !! 7 = Some (Sem 1 QUEC_SEM_MAGIC) ∧
  urbs s' = ∅ ∧ live s' = 4 ∧ trace s' = [Kill_urb 6].
Proof.
  exists (released busy_client busy). split.
  - apply ReleaseClientID_cleanup_spec; try reflexivity.
    + apply (bool_decide_unpack _). vm_compute. exact I.
    + apply (bool_decide_unpack _). vm_compute. exact I.
    + repeat constructor. by exists 0.
    + split; [apply NoDup_singleton|]. repeat constructor. exists (Urb None 7). split; [done|].
      intros _. by exists 0, QUEC_SEM_MAGIC.
  - split_and!; reflexivity.
Defined.
