(* ===== verification/QmiProps.v ===== *)
(** * The GobiNet client layer: delivery, callbacks and removal *)

From S2P Require Import Prelude Kernel GobiQmi.
From stdpp Require Import gmap.
Import Qmi.
From S2P Require Import QmiDev QmiClient QmiLists QmiRuns QmiExchange.

#[local] Open Scope Z_scope.
#[local] Open Scope c_scope.

(** ** The link status callback *)

(** [GobiClearDownReason(NO_NDIS_CONNECTION)]. *)
Definition link_up (s : qmi_dev) : qmi_dev :=
  let s := set_down (clear_bit NO_NDIS_CONNECTION (mDownReason s)) s in
  if (mDownReason s =? 0) && negb (negb (qmap_mode (net s) =? 0) && negb (link_state (net s)))
  then set_trace (Carrier true :: trace s) s else s.

Definition no_ndis (s : qmi_dev) : bool := Z.testbit (mDownReason s) NO_NDIS_CONNECTION.

(** What a message of the WDS client changes. *)
Definition after_event (s : qmi_dev) (r : sReadMemList) : qmi_dev :=
  match QMIWDSEventResp (Some (mpData r)) (mDataSize r) (Some (wds_locals (negb (no_ndis s)))) with
  | Done (result, Some e) =>
    if result <? 0 then s else
    if pbReconfigure e || (pbLinkState e && no_ndis s) then link_up s else s
  | _ => s
  end.

Lemma runs_link_up s (Φ : () → qmi_dev → Prop) :
  Φ () (link_up s) → runs (GobiClearDownReason NO_NDIS_CONNECTION) s Φ.
Proof.
  intros H. unfold GobiClearDownReason, link_up in *. apply runs_bind, runs_modify, runs_bind, runs_get.
  cbn [mDownReason set_down net] in *. destruct (clear_bit _ _ =? 0); [|by apply runs_ret].
  cbn [andb] in H. destruct (negb (qmap_mode _ =? 0) && _); [by apply runs_ret|by apply runs_out].
Qed.

Lemma runs_wds_link e s (Φ : () → qmi_dev → Prop) :
  Φ () (if pbReconfigure e || (pbLinkState e && no_ndis s) then link_up s else s) →
  runs (wds_link e) s Φ.
Proof.
  intros H. unfold wds_link. destruct (pbReconfigure e); cbn [orb] in H.
  { apply runs_bind, runs_ret. by apply runs_link_up. }
  apply runs_bind. unfold GobiTestDownReason. apply runs_bind, runs_get, runs_ret.
  fold (no_ndis s). destruct (pbLinkState e), (no_ndis s); cbn [andb] in H;
    try (by apply runs_ret); by apply runs_link_up.
Qed.

(** A message that the parser accepts or refuses, and does not loop on. *)
Definition parses (r : sReadMemList) : Prop :=
  ∀ b, ∃ result e,
    QMIWDSEventResp (Some (mpData r)) (mDataSize r) (Some (wds_locals b)) = Done (result, Some e).

Lemma after_event_kept s r :
  mbQMIValid (after_event s r) = mbQMIValid s ∧ mClientMemLock (after_event s r) = mClientMemLock s ∧
  mpClientMemList (after_event s r) = mpClientMemList s ∧ env (after_event s r) = env s ∧
  live (after_event s r) = live s.
Proof.
  unfold after_event, link_up. destruct (QMIWDSEventResp _ _ _) as [[result [e|]]| |]; try done.
  destruct (result <? 0); [done|]. destruct (pbReconfigure e || _); [|done].
  by destruct ((_ =? 0) && _).
Qed.

(** The link status does not depend on the lists and the allocations. *)
Lemma after_event_set s r cl l :
  after_event (set_clients cl (set_live l s)) r = set_clients cl (set_live l (after_event s r)).
Proof.
  unfold after_event, link_up, no_ndis. cbn [mDownReason set_clients set_live].
  destruct (QMIWDSEventResp _ _ _) as [[result [e|]]| |]; try done.
  destruct (result <? 0); [done|]. destruct (pbReconfigure e || _); [|done].
  cbn [mDownReason set_clients set_live set_down net]. by destruct ((_ =? 0) && _).
Qed.

Lemma events_set l s cl n :
  fold_left after_event l (set_clients cl (set_live n s)) =
  set_clients cl (set_live n (fold_left after_event l s)).
Proof. revert s. induction l as [|r l IH]; intros s; [done|]. simpl. by rewrite after_event_set, IH. Qed.

Lemma events_kept l s :
  mbQMIValid (fold_left after_event l s) = mbQMIValid s ∧
  mClientMemLock (fold_left after_event l s) = mClientMemLock s ∧
  mpClientMemList (fold_left after_event l s) = mpClientMemList s ∧
  env (fold_left after_event l s) = env s ∧ live (fold_left after_event l s) = live s.
Proof.
  revert s. induction l as [|r l IH]; intros s; [done|]. simpl.
  destruct (IH (after_event s r)) as (-> & -> & -> & -> & ->). apply after_event_kept.
Qed.

Definition wds_entry (pData : Z) : sNotifyList := Notify QMIWDSCallback_handler 0 pData.

(** All messages are processed, in order, and the callback is registered again. *)
Definition wds_done (pData : Z) (m : sClientMemList) (s : qmi_dev) : qmi_dev :=
  set_clients
    (upd_mem (mem_addr m) (λ m, set_notify (mpReadNotifyList m ++ [wds_entry pData]) (set_mpList [] m))
       (mpClientMemList s))
    (set_live (live s - 2 * Z.of_nat (length (mpList m)) + 1) (fold_left after_event (mpList m) s)).

Lemma runs_wds fuel c pData s m (Φ : () → qmi_dev → Prop) :
  mbQMIValid s = true → mClientMemLock s = false → kmallocs (env s) = [] →
  NoDup (mem_addr <$> mpClientMemList s) → find_client c (mpClientMemList s) = Some m →
  Forall parses (mpList m) → mpList m ≠ [] → (length (mpList m) < fuel)%nat →
  Φ () (wds_done pData m s) → runs (run_handler fuel QMIWDSCallback_handler c pData) s Φ.
Proof.
  revert s m Φ. induction fuel as [|fuel IH]; intros s m Φ Hv Hl Hk Ha Hm Hp Hne Hlen H; [lia|].
  destruct (mpList m) as [|r l] eqn:Em; [done|]. apply Forall_cons in Hp as [Hr Hp].
  cbn [run_handler]. unfold QMIWDSCallback_with.
  apply runs_bind, runs_valid; [done|]. cbn [negb]. apply runs_bind, runs_lock; [done|].
  apply runs_bind. eapply runs_pop_read; [done|done|exact Hm|]. rewrite Em. cbn [pop_first].
  change (read_matches 0 r) with true. cbn iota.
  set (s1 := set_clients (upd_mem (mem_addr m) (set_mpList l) (mpClientMemList s))
               (set_live (live s - 1) s)).
  apply runs_bind, runs_modify. change (runs ?p ?w ?Q) with (runs p w Q).
  match goal with |- runs _ ?w _ => replace w with s1 by (apply qmi_ext; try reflexivity; done) end.
  apply runs_bind, runs_bind, runs_get, runs_ret. fold (no_ndis s1).
  destruct (Hr (negb (no_ndis s1))) as (result & e & Eq).
  apply runs_bind. eapply runs_lift; [exact Eq|]. cbn iota beta.
  apply runs_bind.
  assert (runs (if result <? 0 then mret () else wds_link e) s1 (λ _ s', s' = after_event s1 r)) as Hw.
  { unfold after_event. rewrite Eq. destruct (result <? 0); [by apply runs_ret|by apply runs_wds_link]. }
  eapply runs_mono; [exact Hw|]. intros _ s' ->.
  apply runs_bind, runs_free. unfold s1. rewrite after_event_set.
  destruct (after_event_kept s r) as (Hv' & Hl' & Hc' & He' & _). set (s' := after_event s r) in *.
  set (m1 := set_mpList l m).
  set (s2 := set_clients (upd_mem (mem_addr m) (set_mpList l) (mpClientMemList s))
               (set_live (live s - 2) s')).
  match goal with |- runs _ ?w _ =>
    replace w with s2 by (apply qmi_ext; try reflexivity; simpl; lia) end.
  assert (find_client c (mpClientMemList s2) = Some m1) as Hm1.
  { simpl. by rewrite (find_client_upd _ _ _ _ _ Ha (keeps_id_mpList _) Hm), decide_True. }
  assert (NoDup (mem_addr <$> mpClientMemList s2)) as Ha1 by (simpl; by rewrite upd_mem_addrs).
  unfold ignore, ReadAsync_with. apply runs_bind, runs_bind, runs_valid; [simpl; congruence|]. cbn [negb].
  apply runs_bind, runs_lock; [simpl; congruence|]. apply runs_bind, runs_find; [simpl; congruence|done|].
  change (find_client c (mpClientMemList (set_lock true s2))) with (find_client c (mpClientMemList s2)).
  rewrite Hm1. destruct l as [|r2 l2].
  - cbn [existsb mpList m1 set_mpList]. apply runs_bind.
    eapply (runs_add_notify _ c m1); [simpl; congruence|done|exact Hm1|simpl; congruence|].
    apply runs_bind, runs_modify, runs_ret, runs_ret. refine (eq_ind _ _ H _ _).
    unfold wds_done. rewrite Em. cbn [fold_left length]. fold s'.
    apply qmi_ext; try reflexivity; simpl; try congruence; try lia.
    by rewrite upd_mem_twice.
  - change (existsb (read_matches 0) (mpList m1)) with true. cbn iota.
    apply runs_bind, runs_modify.
    match goal with |- runs _ ?w _ =>
      replace w with s2 by (apply qmi_ext; try reflexivity; simpl; congruence) end.
    apply runs_bind. apply (IH s2 m1); try done; try (simpl; congruence); [simpl in *; lia|].
    apply runs_ret, runs_ret. refine (eq_ind _ _ H _ _). unfold wds_done. rewrite Em.
    unfold s2. rewrite events_set. cbn [fold_left]. fold s'.
    destruct (events_kept (mpList m1) s') as (_ & _ & _ & _ & El).
    apply qmi_ext; try reflexivity; simpl; try congruence; try lia.
    by rewrite upd_mem_twice.
Qed.

Lemma mpList_fuel c s m :
  find_client c (mpClientMemList s) = Some m → (length (mpList m) < callback_fuel s)%nat.
Proof.
  intros [Hin _]%find_client_Some. unfold callback_fuel.
  induction (mpClientMemList s) as [|x l IH]; [by apply not_elem_of_nil in Hin|].
  change (mjoin (mpList <$> x :: l)) with (mpList x ++ mjoin (mpList <$> l)).
  rewrite length_app. apply elem_of_cons in Hin as [<-|Hin]; [lia|]. specialize (IH Hin). lia.
Qed.

(** The link status callback [QMIWDSCallback], when the search in each stored message
    ends ([parses]; it need not, [GetTLV_hangs]) and memory is available, ends and
    processes the whole backlog of its client: every stored message is popped,
    parsed and freed in the order of arrival, each may set the carrier
    (clearing it is a call of [GobiSetDownReason] that returns at once), and the
    callback that calls itself through [ReadAsync] for every message left
    registers itself exactly once, after the last one. *)
Theorem QMIWDSCallback_drains c pData s m :
  mbQMIValid s = true → mClientMemLock s = false → kmallocs (env s) = [] →
  NoDup (mem_addr <$> mpClientMemList s) → find_client c (mpClientMemList s) = Some m →
  Forall parses (mpList m) → mpList m ≠ [] →
  call_handler QMIWDSCallback_handler c pData s = Done ((), wds_done pData m s).
Proof.
  intros. unfold call_handler.
  assert (runs (run_handler (callback_fuel s) QMIWDSCallback_handler c pData) s
            (λ _ s', s' = wds_done pData m s)) as ([] & s' & E & ->).
  { eapply runs_wds; try done. by eapply mpList_fuel. }
  exact E.
Qed.

(** [ReadCallback], when memory is available and only readers wait at the client
    ([readers_wait]: not the driver's own WDS client), delivers a good frame: a
    copy of it, under the transaction ID of the message, goes to the end of the
    list of the client with this ID and of no other; the oldest thread that waits
    for this transaction or for any is taken off the notification list and its
    semaphore is raised, and no other; the sleepers in [poll] are woken, the lock
    is released and the interrupt URB is submitted again. *)
Theorem ReadCallback_delivers s c T m svc cl body :
  mbQMIValid s = true → mClientMemLock s = false → kmallocs (env s) = [] → rets (env s) = [] →
  NoDup (mem_addr <$> mpClientMemList s) → Forall (λ m, 0 ≤ mClientID m) (mpClientMemList s) →
  find_client c (mpClientMemList s) = Some m → readers_wait s m →
  c = cl * 256 + svc → T = body_transaction c body →
  0 ≤ svc < 256 → 0 ≤ cl < 255 → 6 ≤ Z.of_nat (length body) < 65530 →
  ReadCallback 0 (qmi_frame svc cl body) (Z.of_nat (length (qmi_frame svc cl body))) s =
  Done ((), set_clients
    (upd_mem (mem_addr m) (arrived T (r_new T (qmi_frame svc cl body))) (mpClientMemList s))
    (set_sems (wakes T m (sems s)) (set_live (live s + arrival_cost T m)
    (set_trace ((if mpIntURB (read_bufs (data s)) then [Int_submit] else []) ++
                Wake_poll c :: trace s) s)))).
Proof. intros. apply runs_done. by eapply (runs_read_callback s c T m) with (svc := svc) (cl := cl) (body := body). Qed.

(** A client of WDS with two link status indications stored, and a carrier that is
    off; a reader and the callback wait. *)
Definition wds_frame (link : Z) : list Z := qmi_frame 1 7 ([4; 0; 0; 0x22; 0; 5; 0; 1; 2; 0; link; 0]).
Definition wds_backlog : qmi_dev :=
  QmiDev true false [ClientMem 1 0 [] [] [] 0;
                     ClientMem 2 0x701 [ReadMem (wds_frame 1) 0 18; ReadMem (wds_frame 2) 0 18]
                       [Notify UpSem_handler 5 3] [] 0] false 0 1
    (GobiNet false true false 0 0 true true 4 true (Some 0) 0 0)
    (GobiData [] (QmapSetting [] [] [] [] [] []) (UlAgg 0 0 0) 0 false false false 0
       no_read_thread ∅) {[3 := Sem 0 QUEC_SEM_MAGIC]} ∅ 4 9 (QmiEnv [] [] []) [].

Lemma QMIWDSCallback_drains_witness : ∃ s',
  call_handler QMIWDSCallback_handler 0x701 0 wds_backlog = Done ((), s') ∧
  trace s' = [Carrier true] ∧ mDownReason s' = 0 ∧ live s' = 6 ∧
  mpList <$> mpClientMemList s' = [[]; []] ∧
  mpReadNotifyList <$> mpClientMemList s' =
    [[]; [Notify UpSem_handler 5 3; Notify QMIWDSCallback_handler 0 0]].
Proof.
  eexists. split.
  - eapply QMIWDSCallback_drains with (m := ClientMem 2 0x701
      [ReadMem (wds_frame 1) 0 18; ReadMem (wds_frame 2) 0 18] [Notify UpSem_handler 5 3] [] 0);
      try reflexivity; [|repeat constructor|done].
    + apply NoDup_cons. split; [by intros ?%list_elem_of_singleton|apply NoDup_singleton].
    + by intros []; eexists _, _.
    + by intros []; eexists _, _.
  - split_and!; reflexivity.
Defined.

Lemma ReadCallback_delivers_witness : ∃ s',
  ReadCallback 0 (qmi_frame 1 7 [0; 5; 0; 0x22; 0; 0; 0]) 13 wds_backlog = Done ((), s') ∧
  sems s' !! 3 = Some (Sem 1 QUEC_SEM_MAGIC) ∧ trace s' = [Wake_poll 0x701] ∧
  length <$> (mpList <$> mpClientMemList s') = [0; 3]%nat ∧
  mpReadNotifyList <$> mpClientMemList s' = [[]; []].
Proof.
  eexists. split.
  - eapply (ReadCallback_delivers wds_backlog 0x701 5 (ClientMem 2 0x701
      [ReadMem (wds_frame 1) 0 18; ReadMem (wds_frame 2) 0 18] [Notify UpSem_handler 5 3] [] 0)
      1 7 [0; 5; 0; 0x22; 0; 0; 0]); try reflexivity; try (simpl; lia).
    + apply NoDup_cons. split; [by intros ?%list_elem_of_singleton|apply NoDup_singleton].
    + repeat constructor; simpl; lia.
    + repeat constructor. by exists 0.
  - split_and!; reflexivity.
Defined.

(** ** Reads that give up *)

(** A wait during which nothing happens. *)
Lemma runs_idle_wait a q s g rest (Φ : Z → qmi_dev → Prop) :
  sems s !! a = Some q → sem_count q = 0 → waits (env s) = [] :: rest →
  Φ g (set_env (QmiEnv (kmallocs (env s)) (rets (env s)) rest) s) → runs (down_wait g a) s Φ.
Proof.
  intros Hs Hq Hw H. unfold down_wait. apply runs_bind. eapply runs_exact.
  { rewrite down_trylock_eq, Hs, Hq. done. }
  apply runs_bind. unfold others_run. apply runs_bind, runs_get. rewrite Hw.
  apply runs_bind, runs_modify. apply runs_ret. apply runs_bind. eapply runs_exact.
  { rewrite down_trylock_eq. cbn [sems set_env]. rewrite Hs, Hq. done. }
  by apply runs_ret.
Qed.

Lemma find_addr c l m f :
  NoDup (mem_addr <$> l) → keeps_id f → find_client c l = Some m →
  List.find (λ m', mem_addr m' =? mem_addr m) (upd_mem (mem_addr m) f l) = Some (f m).
Proof.
  intros Hn Hf [Hin _]%find_client_Some. induction l as [|x l IH]; [by apply not_elem_of_nil in Hin|].
  simpl. destruct (Z.eqb_spec (mem_addr x) (mem_addr m)) as [E|E].
  - rewrite (proj1 (Hf x)), E, Z.eqb_refl. f_equal. f_equal.
    apply (same_addr (x :: l)); [done|by left|done|done].
  - rewrite (proj2 (Z.eqb_neq _ _) E). apply elem_of_cons in Hin as [->|Hin]; [done|].
    apply NoDup_cons in Hn as [_ Hn]. by apply IH.
Qed.

(** a synchronous read that is interrupted and then times out leaves nothing
    behind: it returns -EINTR without a buffer, the entry that pointed to the
    semaphore on its stack is off the notification list, which is as before, the
    entry is freed and the lock is released. *)
Theorem ReadSync_gives_up c T s m rest :
  mbQMIValid s = true → mClientMemLock s = false → grants s → fresh_above s →
  NoDup (mem_addr <$> mpClientMemList s) → find_client c (mpClientMemList s) = Some m →
  Forall (λ n, notify_data n < next_addr s) (mpReadNotifyList m) →
  Forall (λ r, read_matches T r = false) (mpList m) → waits (env s) = [] :: [] :: rest →
  ReadSync c T s =
  Done ((- EINTR, None), set_next (next_addr s + 1) (set_env (QmiEnv [] [] rest) s)).
Proof.
  intros Hv Hl [Hk Hr] Hf Ha Hm Hn Hno Hw. apply runs_done.
  destruct (Hf (next_addr s)) as [Hf1 _]; [lia|].
  destruct s as [v d cls lk x dn nt dt ss us nx lv [ks rs ws] tr]. simpl in *.
  subst v lk ks rs ws. unfold ReadSync.
  qrun runs_valid. qrun runs_lock. qrun runs_find. rewrite Hm. qnorm.
  apply runs_bind. eapply runs_exact; [apply sema_new_eq|]. qnorm. qrun runs_get.
  cbn [length ReadSync_loop]. apply runs_bind, runs_bind. unfold ReadSync_try.
  apply runs_bind. eapply (runs_pop_read _ c); [done..|].
  rewrite (proj2 (pop_first_None _ _) Hno). qrun runs_modify. rewrite insert_insert_eq.
  apply runs_bind. eapply (runs_add_notify _ c); [done|done|exact Hm|done|]. qnorm.
  qrun runs_modify. apply runs_ret. unfold down_patiently, down_interruptible, down_timeout.
  apply runs_bind, runs_bind. eapply runs_idle_wait; qnorm; [apply lookup_insert_eq|done..|].
  qnorm. eapply runs_idle_wait; qnorm; [apply lookup_insert_eq|done..|]. qnorm.
  qrun runs_lock. unfold remove_notify. apply runs_bind, runs_bind, runs_get. qnorm.
  set (add := λ m, set_notify (mpReadNotifyList m ++ [Notify UpSem_handler T nx]) m).
  rewrite (find_addr c) by done. cbn [mpReadNotifyList add set_notify].
  rewrite (pop_first_app _ _ _ []); [|by eapply Forall_impl; [exact Hn|]; intros n; simpl; lia|apply Z.eqb_refl].
  qrun runs_modify. apply runs_free. qnorm. qrun runs_modify. apply runs_ret. qrun runs_modify. apply runs_ret.
  f_equal. apply qmi_ext; try reflexivity; simpl; [|by rewrite delete_insert_id|lia].
  rewrite upd_mem_twice by done. apply (upd_mem_id c); [done..|]. unfold add. simpl.
  rewrite app_nil_r. by destruct m.
Qed.

Definition giving_up : qmi_dev :=
  set_env (QmiEnv [] [] [[]; []; [Deregistering]]) wds_backlog.

Lemma ReadSync_gives_up_witness :
  ReadSync 0x701 5 giving_up =
  Done ((- EINTR, None), set_next 5 (set_env (QmiEnv [] [] [[Deregistering]]) giving_up)).
Proof.
  apply (ReadSync_gives_up 0x701 5 giving_up (ClientMem 2 0x701
      [ReadMem (wds_frame 1) 0 18; ReadMem (wds_frame 2) 0 18] [Notify UpSem_handler 5 3] [] 0)
      [[Deregistering]]); try reflexivity; try (by repeat constructor).
  - intros a Ha. simpl in Ha. split; [|done]. cbn. by rewrite lookup_singleton_ne by lia.
  - apply NoDup_cons. split; [by intros ?%list_elem_of_singleton|apply NoDup_singleton].
Defined.

(** ** The read thread *)

Definition all_buffers : read_thread := ReadThread true true true true true.

(** [s] with the buffers [t] and [n] allocations; what is left of the oracle is [e]. *)
Definition reading (s : qmi_dev) (e : qmi_env) (t : read_thread) (n : Z) : qmi_dev :=
  set_data (set_bufs t (data s)) (set_env e (set_live n s)).

Lemma reading_self s : reading s (env s) (read_bufs (data s)) (live s) = s.
Proof. by destruct s as [??????? []]. Qed.

Lemma runs_alloc_buf b s e t n (Φ : bool → qmi_dev → Prop) :
  (∀ ok e', Φ ok (reading s e' (put_buf b ok t) (n + Z.b2z ok))) →
  runs (alloc_buf b) (reading s e t n) Φ.
Proof.
  intros H. unfold alloc_buf. apply runs_bind.
  assert (∃ ok e', kmalloc (reading s e t n) = Done (ok, reading s e' t (n + Z.b2z ok)))
    as (ok & e' & E).
  { destruct e as [[|[] ks] rs ws]; [by exists true, (QmiEnv [] rs ws)|by exists true, (QmiEnv ks rs ws)|].
    exists false, (QmiEnv ks rs ws). unfold reading. by rewrite Z.add_0_r. }
  eapply runs_exact; [exact E|]. apply runs_bind, runs_modify, runs_ret. apply H.
Qed.

Lemma runs_free_bufs l s e t n (Φ : () → qmi_dev → Prop) :
  Φ () (reading s e (fold_left (λ t b, put_buf b false t) l t)
          (n - fold_right (λ b k, k + Z.b2z (has_buf b t)) 0 l)) → NoDup l →
  runs (free_bufs l) (reading s e t n) Φ.
Proof.
  revert t n. induction l as [|b l IH]; intros t n H Hl; simpl.
  { apply runs_ret. by rewrite Z.sub_0_r in H. }
  apply NoDup_cons in Hl as [Hb Hl]. apply runs_bind. unfold free_buf. apply runs_bind, runs_get.
  cbn [data reading set_data read_bufs set_bufs].
  apply runs_bind. apply (runs_exact _ _ () (reading s e t (n - Z.b2z (has_buf b t)))).
  { destruct (has_buf b t); [done|]. unfold reading. by rewrite Z.sub_0_r. }
  apply runs_modify. cbn [data reading set_data read_bufs set_bufs].
  apply (IH (put_buf b false t)); [|done].
  assert (fold_right (λ c k, k + Z.b2z (has_buf c (put_buf b false t))) 0 l =
          fold_right (λ c k, k + Z.b2z (has_buf c t)) 0 l) as ->.
  { clear IH H Hl. induction l as [|c l IH]; [done|]. simpl. apply not_elem_of_cons in Hb as [Hc Hb].
    rewrite IH by done. by destruct b, c. }
  replace (n - Z.b2z (has_buf b t) - _) with (n - (fold_right (λ c k, k + Z.b2z (has_buf c t)) 0 l
    + Z.b2z (has_buf b t))) by lia.
  exact H.
Qed.

Lemma runs_ret_of_kernel s (Φ : Z → qmi_dev → Prop) :
  (∀ r e, Φ r (set_env e s)) → runs ret_of_kernel s Φ.
Proof.
  intros H. unfold ret_of_kernel. apply runs_bind, runs_get.
  destruct (rets (env s)) as [|r l] eqn:E.
  - apply runs_ret. specialize (H 0 (env s)). by destruct s.
  - apply runs_bind, runs_modify, runs_ret. apply H.
Qed.

(** A buffer that is allocated, or the end of [StartRead]. *)
Ltac distinct := repeat first
  [ apply NoDup_nil_2 | apply NoDup_cons; split; [by repeat (apply not_elem_of_cons; split; [done|]); apply not_elem_of_nil|] ].
Ltac qfail :=
  try (apply runs_bind, runs_free_bufs; [|by distinct]); apply runs_ret;
  split; [done|]; right; cbn; split_and!; (done || lia).
Ltac qalloc e := apply runs_bind, runs_alloc_buf; intros [] e; cbn [negb put_buf Z.b2z]; [|qfail].

(** [StartRead] takes all or nothing: for every sequence of allocations that
    fail, and every result of the submission, it ends; it returns 0 only with all
    five buffers allocated and the interrupt URB submitted; when an allocation fails
    or the device has no interrupt endpoint, every buffer taken so far is freed and
    nothing has been submitted; when the submission fails the buffers are kept; and
    a [KillRead] after it frees exactly what it holds. *)
Theorem StartRead_all_or_nothing s :
  mbQMIValid s = true → read_bufs (data s) = no_read_thread →
  ∃ r s' s'',
    StartRead s = Done (r, s') ∧ KillRead s' = Done ((), s'') ∧
    (r = 0 → read_bufs (data s') = all_buffers ∧ trace s' = Int_submit :: trace s) ∧
    (int_endpoint (net s) = true ∧ read_bufs (data s') = all_buffers ∧ live s' = live s + 5 ∨
     r < 0 ∧ read_bufs (data s') = no_read_thread ∧ live s' = live s ∧ trace s' = trace s) ∧
    read_bufs (data s'') = no_read_thread ∧ live s'' = live s.
Proof.
  intros Hv Hb.
  assert (runs StartRead s (λ r s',
    (r = 0 → read_bufs (data s') = all_buffers ∧ trace s' = Int_submit :: trace s) ∧
    (int_endpoint (net s) = true ∧ read_bufs (data s') = all_buffers ∧ live s' = live s + 5 ∨
     r < 0 ∧ read_bufs (data s') = no_read_thread ∧ live s' = live s ∧ trace s' = trace s)))
    as (r & s' & E & H0 & H).
  { unfold StartRead. apply runs_bind, runs_valid; [done|]. cbn [negb].
    rewrite <- (reading_self s) at 1. rewrite Hb. unfold no_read_thread.
    qalloc e1. qalloc e2. qalloc e3. qalloc e4. qalloc e5. apply runs_bind, runs_get.
    change (net (reading s _ _ _)) with (net s). destruct (int_endpoint (net s)) eqn:Eint; cbn [negb]; [|qfail].
    apply runs_bind, runs_ret_of_kernel. intros r e6.
    destruct (Z.eqb_spec r 0) as [Er|Er];
      [apply runs_bind, runs_out, runs_ret|apply runs_bind, runs_ret, runs_ret].
    all: split; [done|]; left; split_and!; [done|reflexivity|]; cbn; lia. }
  assert (runs KillRead s' (λ _ s'', read_bufs (data s'') = no_read_thread ∧ live s'' = live s))
    as ([] & s'' & Ek & Hb'' & Hl'').
  { unfold KillRead. rewrite <- (reading_self s'). apply runs_free_bufs; [|by distinct].
    destruct H as [(_ & -> & El)|(_ & -> & El & _)]; split; [done|cbn; lia|done|cbn; lia]. }
  exists r, s', s''. by split_and!.
Qed.

(** The allocation of the fourth buffer fails. *)
Definition short_of_memory : qmi_dev :=
  set_env (QmiEnv [true; true; true; false] [] []) wds_backlog.

Lemma StartRead_all_or_nothing_witness : ∃ r s' s'',
  StartRead short_of_memory = Done (r, s') ∧ r = - ENOMEM ∧ KillRead s' = Done ((), s'') ∧
  read_bufs (data s'') = no_read_thread ∧ live s'' = live short_of_memory.
Proof.
  destruct (StartRead_all_or_nothing short_of_memory eq_refl eq_refl)
    as (r & s' & s'' & E & Ek & _ & _ & H1 & H2).
  exists r, s', s''. split; [done|]. split; [|done].
  assert (match StartRead short_of_memory with Done (r, _) => r = - ENOMEM | _ => False end) as Er
    by (vm_compute; reflexivity).
  by rewrite E in Er.
Defined.
