(* ===== verification/GobiSkb.v ===== *)
(** * GobiNet packets: socket buffers, Ethernet and QMAP headers

    Model of the functions of [src/drivers/quectel-gobinet/src/GobiUSBNet.c] that
    work on one packet: the removal of the Ethernet header, the QMAP headers of
    both versions and what a receiver reads from them, and the look at the
    transport header that decides about aggregation.

    A socket buffer is linear: the headroom, the data, and the bytes between the
    tail and the end of the buffer.  [skb_push] and [skb_put] beyond the buffer
    (the kernel's panic) and reads beyond it are [OutOfBounds].  Protocols are in
    host order. *)

From S2P Require Import Prelude.

#[local] Open Scope Z_scope.
#[local] Open Scope c_scope.

(** ** Socket buffers *)

(** A network device: the one of the modem, or the one of a multiplexed channel. *)
Inductive netid := Real_net | Qmap_net (offset_id : Z).

#[export] Instance netid_eq_dec : EqDecision netid.
Proof. solve_decision. Defined.

(** [skb->destructor]: none, the driver's, or the one of the socket that owns it. *)
Inductive skb_destructor := No_destructor | Rmnet_destructor | Socket_destructor.

Record sk_buff := Skb {
  skb_head : list Z; skb_data : list Z; skb_tail : list Z;
  skb_protocol : Z;
  skb_dev : netid;
  skb_destr : skb_destructor;
  skb_loopback : bool;
}.

Definition ETH_ALEN : Z := 6.
Definition ETH_HLEN : Z := 14.
Definition ETH_P_IP : Z := 0x0800.
Definition ETH_P_ARP : Z := 0x0806.
Definition ETH_P_IPV6 : Z := 0x86DD.
Definition ETH_P_MAP : Z := 0xDA1A.

Definition ec20_mac : list Z := [0x02; 0x50; 0xf3; 0x00; 0x00; 0x00].
Definition default_modem_addr : list Z := [0x02; 0x50; 0xf3; 0x00; 0x00; 0x00].

Definition len (skb : sk_buff) : Z := Z.of_nat (length (skb_data skb)).
Definition skb_tailroom (skb : sk_buff) : Z := Z.of_nat (length (skb_tail skb)).
Definition skb_headroom (skb : sk_buff) : Z := Z.of_nat (length (skb_head skb)).

Definition set_buffer (h d t : list Z) (skb : sk_buff) : sk_buff :=
  Skb h d t (skb_protocol skb) (skb_dev skb) (skb_destr skb) (skb_loopback skb).
Definition set_protocol (p : Z) (skb : sk_buff) : sk_buff :=
  Skb (skb_head skb) (skb_data skb) (skb_tail skb) p (skb_dev skb) (skb_destr skb)
    (skb_loopback skb).
(** The device and the destructor, which is set only if there is none. *)
Definition set_dev (n : netid) (skb : sk_buff) : sk_buff :=
  Skb (skb_head skb) (skb_data skb) (skb_tail skb) (skb_protocol skb) n (skb_destr skb)
    (skb_loopback skb).
Definition or_destructor (skb : sk_buff) : sk_buff :=
  Skb (skb_head skb) (skb_data skb) (skb_tail skb) (skb_protocol skb) (skb_dev skb)
    match skb_destr skb with No_destructor => Rmnet_destructor | d => d end
    (skb_loopback skb).

(** [skb_put(skb, n)] of bytes that are there, and of bytes the caller copies. *)
Definition skb_put (skb : sk_buff) (n : Z) : outcome sk_buff :=
  if in_range (skb_tail skb) 0 n
  then Done (set_buffer (skb_head skb) (skb_data skb ++ take (Z.to_nat n) (skb_tail skb))
               (drop (Z.to_nat n) (skb_tail skb)) skb)
  else OutOfBounds.
Definition skb_put_data (skb : sk_buff) (bytes : list Z) : outcome sk_buff :=
  if in_range (skb_tail skb) 0 (Z.of_nat (length bytes))
  then Done (set_buffer (skb_head skb) (skb_data skb ++ bytes)
               (drop (length bytes) (skb_tail skb)) skb)
  else OutOfBounds.

(** [skb_push(skb, n)] followed by the stores of the [n] bytes. *)
Definition skb_push (skb : sk_buff) (bytes : list Z) : outcome sk_buff :=
  if Z.of_nat (length bytes) <=? skb_headroom skb
  then Done (set_buffer (take (length (skb_head skb) - length bytes) (skb_head skb))
               (bytes ++ skb_data skb) (skb_tail skb) skb)
  else OutOfBounds.

(** [skb_pull]: does nothing and returns NULL if there is less data. *)
Definition skb_pull (skb : sk_buff) (n : Z) : option sk_buff :=
  if (0 <=? n) && (n <=? len skb)
  then Some (set_buffer (skb_head skb ++ take (Z.to_nat n) (skb_data skb))
               (drop (Z.to_nat n) (skb_data skb)) (skb_tail skb) skb)
  else None.

(** A byte, or a big-endian half word, of the buffer. *)
Definition skb_byte (skb : sk_buff) (off : Z) : outcome Z :=
  get8 (skb_data skb ++ skb_tail skb) off.
Definition skb_be16 (skb : sk_buff) (off : Z) : outcome Z :=
  hi ← skb_byte skb off; lo ← skb_byte skb (off + 1); Done (256 * hi + lo).
Definition skb_bytes (skb : sk_buff) (off n : Z) : outcome (list Z) :=
  get_bytes (skb_data skb ++ skb_tail skb) off n.

Definition be16_bytes (v : Z) : list Z := [u8 (v / 256); u8 v].

(** ** The Ethernet header *)

Definition IPHDR : Z := 20.
Definition IPV6HDR : Z := 40.

(** The IP packet, or [None] for a packet to drop. *)
Definition ether_to_ip_fixup (skb : sk_buff) : outcome (option sk_buff) :=
  h_proto ← skb_be16 skb 12;
  if h_proto =? ETH_P_IP then
    Done (if len skb <=? ETH_HLEN + IPHDR then None else skb_pull skb ETH_HLEN)
  else if h_proto =? ETH_P_IPV6 then
    Done (if len skb <=? ETH_HLEN + IPV6HDR then None else skb_pull skb ETH_HLEN)
  else Done None.

(** [skb_push(skb, ETH_HLEN)] and the stores of the three fields. *)
Definition push_eth (skb : sk_buff) (h_dest h_source : list Z) (h_proto : Z) : outcome sk_buff :=
  skb_push skb (h_dest ++ h_source ++ be16_bytes h_proto).

(** [memcpy(eth_hdr(skb)->h_dest, addr, ETH_ALEN)], the header at the data. *)
Definition set_h_dest (addr : list Z) (skb : sk_buff) : outcome sk_buff :=
  d ← put_bytes (skb_data skb) 0 addr; Done (set_buffer (skb_head skb) d (skb_tail skb) skb).

(** ** QMAP headers *)

Definition QMAP_HDR : Z := 4.
Definition V5_CSUM_HEADER : Z := 4.
Definition RMNET_MAP_HEADER_TYPE_CSUM_OFFLOAD : Z := 2.
Definition QUECTEL_QMAP_MUX_ID : Z := 0x81.

(** The padding to a multiple of four, or none if the tail is too short: its bytes
    are those the buffer holds. *)
Definition add_padding (skb : sk_buff) : outcome (sk_buff * Z) :=
  let pad := len skb mod 4 in
  if pad =? 0 then Done (skb, 0) else
  let pad := 4 - pad in
  if skb_tailroom skb <? pad then Done (skb, 0) else
  skb ← skb_put skb pad; Done (skb, pad).

Definition add_qhdr (skb : sk_buff) (mux_id : Z) : outcome sk_buff :=
  '(skb, pad) ← add_padding skb;
  skb_push skb ([u8 pad; u8 mux_id] ++ be16_bytes (len skb)).

(** The bit fields: [pad_len] 0-5, [next_hdr] 6, [cd_bit] 7; then [next_hdr] 0,
    [header_type] 1-7. *)
Definition map_byte (pad_len next_hdr cd_bit : Z) : Z :=
  (pad_len &' 0x3F) |' Z.shiftl next_hdr 6 |' Z.shiftl cd_bit 7.

Definition add_qhdr_v5 (skb : sk_buff) (mux_id : Z) : outcome sk_buff :=
  '(skb, padding) ← add_padding skb;
  skb_push skb ([map_byte padding 1 0; u8 mux_id] ++ be16_bytes (len skb) ++
                [Z.shiftl RMNET_MAP_HEADER_TYPE_CSUM_OFFLOAD 1; 0; 0; 0]).

(** [struct rmnet_map_header], as it is read. *)
Record map_header := MapHeader {
  pad_len : Z; next_hdr : bool; cd_bit : bool; hdr_mux_id : Z; hdr_pkt_len : Z;
}.
Definition read_map_header (skb : sk_buff) : outcome map_header :=
  b ← skb_byte skb 0; m ← skb_byte skb 1; l ← skb_be16 skb 2;
  Done (MapHeader (b &' 0x3F) (Z.testbit b 6) (Z.testbit b 7) m l).
Definition hdr_size (h : map_header) : Z :=
  QMAP_HDR + if next_hdr h then V5_CSUM_HEADER else 0.

(** ** When to send at once *)

Definition IPPROTO_ICMP : Z := 1.
Definition IPPROTO_TCP : Z := 6.
Definition IPPROTO_UDP : Z := 17.
Definition NEXTHDR_FRAGMENT : Z := 44.
Definition NEXTHDR_ICMP : Z := 58.

(** The flag PSH of the TCP header at [off]. *)
Definition tcp_psh (skb : sk_buff) (off : Z) : outcome bool :=
  flags ← skb_byte skb (off + 13); Done (Z.testbit flags 3).

Definition rmnet_usb_tx_agg_skip (skb : sk_buff) (offset : Z) : outcome bool :=
  if skb_protocol skb =? ETH_P_IP then
    protocol ← skb_byte skb (offset + 9);
    if protocol =? IPPROTO_TCP then tcp_psh skb (offset + IPHDR)
    else Done (protocol =? IPPROTO_ICMP)
  else if skb_protocol skb =? ETH_P_IPV6 then
    nexthdr ← skb_byte skb (offset + 6);
    if nexthdr =? IPPROTO_TCP then tcp_psh skb (offset + IPV6HDR)
    else if nexthdr =? NEXTHDR_ICMP then Done true
    else if nexthdr =? NEXTHDR_FRAGMENT then
      frag ← skb_byte skb (offset + IPV6HDR); Done (frag =? NEXTHDR_ICMP)
    else Done false
  else Done false.

(** The offset of the packet behind its QMAP header. *)
Definition packet_offset (skb : sk_buff) : outcome Z :=
  b ← skb_byte skb 0;
  Done (QMAP_HDR + if Z.testbit b 6 then V5_CSUM_HEADER else 0).
