(* ===== verification/GobiNet.v ===== *)
(** * The GobiNet network device: state and transmission

    Model of [src/drivers/quectel-gobinet/src/GobiUSBNet.c]: the network device of
    the modem ([Real_net]) with the client layer of [QmiDev] inside it, the network
    devices of the multiplexed channels ([Qmap_net i]), bridge mode, the
    transmission of packets with aggregation, and the queues.

    A device of a channel that is freed is gone from [qmap_nets]; an access to it is
    [OutOfBounds], as is an index outside [mpQmapNetDev].  The carrier of the modem's
    device is the last one the driver set, in the trace of [qmi].  [net_env] answers
    for the kernel: [allocs] says which allocations succeed (those beyond the list
    do), [results] the results of calls (0 beyond the list), [clock] the times in
    nanoseconds; [junk] is what fresh memory holds, [slack] what an allocated buffer
    has beyond its size. *)

From S2P Require Import Prelude Kernel GobiQmi.
From stdpp Require Import gmap.
Import Qmi.
From S2P Require Import QmiDev QmiClient GobiSkb.

#[local] Open Scope Z_scope.
#[local] Open Scope c_scope.

(** ** Data *)

Record net_device := NetDev {
  dev_ether : bool;
  dev_addr : list Z;
  hard_header_len : Z;
  queue_stopped : bool;
  if_up : bool;
  rx_packets : Z; rx_bytes : Z; tx_packets : Z; tx_bytes : Z; tx_errors : Z;
}.

(** The three fields that [sGobiUSBNet] and [qmap_priv] both have. *)
Record bridge := Bridge { m_bridge_mode : Z; m_bridge_ipv4 : Z; mHostMAC : list Z }.

(** [agg_hrtimer]: the timer is queued; [agg_wq]: the work is scheduled. *)
Record qmap_priv := QmapPriv {
  mux_id : Z;
  priv_version : Z;
  priv_link_state : bool;
  ul_data_aggregation_max_datagrams : Z;
  ul_data_aggregation_max_size : Z;
  dl_minimum_padding : Z;
  agg_skb : option sk_buff;
  agg_count : Z;
  agg_time : Z;
  agg_hrtimer : bool;
  agg_wq : bool;
  priv_bridge : bridge;
}.

Record qmap_net := QNet { q_dev : net_device; q_carrier : bool; q_priv : qmap_priv }.

Record net_env := NetEnv {
  allocs : list bool; results : list Z; clock : list Z; junk : nat → Z; slack : nat;
}.

(** What leaves the file. *)
Inductive net_out :=
| Dev_queue_xmit (skb : sk_buff)
| Usbnet_start_xmit (skb : sk_buff)
| Netif_rx (skb : sk_buff)
| Usbnet_skb_return (skb : sk_buff)
| Kfree_skb
| Arp_reply (dest_ip : list Z) (dev : netid) (src_ip dest_hw src_hw target_hw : list Z)
| Usbnet_open
| Usbnet_stop
| Register_netdev (offset_id : Z)
| Unregister_netdev (offset_id : Z).

(** The module's parameters. *)
Record module_params := Params {
  qmap_mode_param : Z; bridge_mode_param : Z; qcrmcall_mode_param : bool;
  agg_time_limit : Z; agg_bypass_time : Z;
}.

(** [data0]: [data[0]] of the usbnet points to the structure; [own_ops]: the
    operations of the modem's device are the copy the driver allocated. *)
Record gobi := Gobi {
  qmi : qmi_dev;
  data0 : bool;
  own_ops : bool;
  g_link_state : Z;
  mpQmapNetDev : list (option netid);
  g_bridge : bridge;
  mbProbeDone : bool;
  real_net : net_device;
  rx_handler : bool;
  qmap_nets : gmap Z qmap_net;
  txq : bool;
  params : module_params;
  genv : net_env;
  gtrace : list net_out;
}.

Definition gn : Type → Type := stm gobi.

(** ** State access *)

Definition set_qmi (x : qmi_dev) (s : gobi) : gobi :=
  Gobi x (data0 s) (own_ops s) (g_link_state s) (mpQmapNetDev s) (g_bridge s) (mbProbeDone s)
    (real_net s) (rx_handler s) (qmap_nets s) (txq s) (params s) (genv s) (gtrace s).
Definition set_own_ops (x : bool) (s : gobi) : gobi :=
  Gobi (qmi s) (data0 s) x (g_link_state s) (mpQmapNetDev s) (g_bridge s) (mbProbeDone s)
    (real_net s) (rx_handler s) (qmap_nets s) (txq s) (params s) (genv s) (gtrace s).
Definition set_link (x : Z) (s : gobi) : gobi :=
  Gobi (qmi s) (data0 s) (own_ops s) x (mpQmapNetDev s) (g_bridge s) (mbProbeDone s)
    (real_net s) (rx_handler s) (qmap_nets s) (txq s) (params s) (genv s) (gtrace s).
Definition set_slots (x : list (option netid)) (s : gobi) : gobi :=
  Gobi (qmi s) (data0 s) (own_ops s) (g_link_state s) x (g_bridge s) (mbProbeDone s)
    (real_net s) (rx_handler s) (qmap_nets s) (txq s) (params s) (genv s) (gtrace s).
Definition set_bridge (x : bridge) (s : gobi) : gobi :=
  Gobi (qmi s) (data0 s) (own_ops s) (g_link_state s) (mpQmapNetDev s) x (mbProbeDone s)
    (real_net s) (rx_handler s) (qmap_nets s) (txq s) (params s) (genv s) (gtrace s).
Definition set_done (x : bool) (s : gobi) : gobi :=
  Gobi (qmi s) (data0 s) (own_ops s) (g_link_state s) (mpQmapNetDev s) (g_bridge s) x
    (real_net s) (rx_handler s) (qmap_nets s) (txq s) (params s) (genv s) (gtrace s).
Definition set_real (x : net_device) (s : gobi) : gobi :=
  Gobi (qmi s) (data0 s) (own_ops s) (g_link_state s) (mpQmapNetDev s) (g_bridge s)
    (mbProbeDone s) x (rx_handler s) (qmap_nets s) (txq s) (params s) (genv s) (gtrace s).
Definition set_rx_handler (x : bool) (s : gobi) : gobi :=
  Gobi (qmi s) (data0 s) (own_ops s) (g_link_state s) (mpQmapNetDev s) (g_bridge s)
    (mbProbeDone s) (real_net s) x (qmap_nets s) (txq s) (params s) (genv s) (gtrace s).
Definition set_nets (x : gmap Z qmap_net) (s : gobi) : gobi :=
  Gobi (qmi s) (data0 s) (own_ops s) (g_link_state s) (mpQmapNetDev s) (g_bridge s)
    (mbProbeDone s) (real_net s) (rx_handler s) x (txq s) (params s) (genv s) (gtrace s).
Definition set_txq (x : bool) (s : gobi) : gobi :=
  Gobi (qmi s) (data0 s) (own_ops s) (g_link_state s) (mpQmapNetDev s) (g_bridge s)
    (mbProbeDone s) (real_net s) (rx_handler s) (qmap_nets s) x (params s) (genv s) (gtrace s).
Definition set_genv (x : net_env) (s : gobi) : gobi :=
  Gobi (qmi s) (data0 s) (own_ops s) (g_link_state s) (mpQmapNetDev s) (g_bridge s)
    (mbProbeDone s) (real_net s) (rx_handler s) (qmap_nets s) (txq s) (params s) x (gtrace s).
Definition set_gtrace (x : list net_out) (s : gobi) : gobi :=
  Gobi (qmi s) (data0 s) (own_ops s) (g_link_state s) (mpQmapNetDev s) (g_bridge s)
    (mbProbeDone s) (real_net s) (rx_handler s) (qmap_nets s) (txq s) (params s) (genv s) x.

(** *** The kernel *)

Definition emit (o : net_out) : gn () := modify (λ s, set_gtrace (o :: gtrace s) s).

Definition set_allocs l (e : net_env) : net_env :=
  NetEnv l (results e) (clock e) (junk e) (slack e).
Definition set_results l (e : net_env) : net_env :=
  NetEnv (allocs e) l (clock e) (junk e) (slack e).
Definition set_clock l (e : net_env) : net_env :=
  NetEnv (allocs e) (results e) l (junk e) (slack e).

Definition net_alloc : gn bool :=
  s ← get_state;
  match allocs (genv s) with
  | [] => mret true
  | b :: l => modify (set_genv (set_allocs l (genv s)));; mret b
  end.
Definition net_result : gn Z :=
  s ← get_state;
  match results (genv s) with
  | [] => mret 0
  | r :: l => modify (set_genv (set_results l (genv s)));; mret r
  end.
Definition ktime_get_ts64 : gn Z :=
  s ← get_state;
  match clock (genv s) with
  | [] => mret 0
  | t :: l => modify (set_genv (set_clock l (genv s)));; mret t
  end.

Definition NET_SKB_PAD : nat := 32.
Definition fresh (e : net_env) (n : nat) : list Z := map (junk e) (seq 0 n).

(** [netdev_alloc_skb(dev, size)] and [alloc_skb(size)], which has no headroom. *)
Definition netdev_alloc_skb (n : netid) (size : Z) : gn (option sk_buff) :=
  ok ← net_alloc; s ← get_state;
  mret (if ok : bool then
    Some (Skb (fresh (genv s) NET_SKB_PAD) [] (fresh (genv s) (Z.to_nat size + slack (genv s)))
            0 n No_destructor false) else None).
Definition alloc_skb (size : Z) : gn (option sk_buff) :=
  ok ← net_alloc; s ← get_state;
  mret (if ok : bool then
    Some (Skb [] [] (fresh (genv s) (Z.to_nat size + slack (genv s))) 0 Real_net
            No_destructor false) else None).

(** *** Devices *)

(** A call of the client layer, which reads [link_state] of this one. *)
Definition see_link (link : bool) (n : gobi_net) : gobi_net :=
  GobiNet (mbMdm9x07 n) (mbRawIPMode n) (m_qcrmcall_mode n) (qmap_mode n) (qmap_version n) link
    (udev_state n) (bInterfaceNumber n) (int_endpoint n) (net_index n) (idVendor n) (idProduct n).
Definition set_net (x : gobi_net) (q : qmi_dev) : qmi_dev :=
  QmiDev (mbQMIValid q) (mbDeregisterQMIDevice q) (mpClientMemList q) (mClientMemLock q)
    (mQMICTLTransactionID q) (mDownReason q) x (data q) (sems q) (urbs q) (next_addr q) (live q)
    (env q) (trace q).
Definition run_qmi {A} (m : qm A) : gn A := λ s,
  '(a, q) ← m (set_net (see_link (negb (g_link_state s =? 0)) (net (qmi s))) (qmi s));
  Done (a, set_qmi q s).

Definition mode (s : gobi) : Z := qmap_mode (net (qmi s)).
Definition version (s : gobi) : Z := qmap_version (net (qmi s)).

Definition get_net (i : Z) : gn qmap_net :=
  s ← get_state; match qmap_nets s !! i with Some q => mret q | None => fault end.
Definition put_net (i : Z) (q : qmap_net) : gn () :=
  modify (λ s, set_nets (<[i := q]> (qmap_nets s)) s).
Definition get_priv (i : Z) : gn qmap_priv := q ← get_net i; mret (q_priv q).
Definition put_priv (i : Z) (p : qmap_priv) : gn () :=
  q ← get_net i; put_net i (QNet (q_dev q) (q_carrier q) p).

Definition get_dev (n : netid) : gn net_device :=
  match n with
  | Real_net => s ← get_state; mret (real_net s)
  | Qmap_net i => q ← get_net i; mret (q_dev q)
  end.
Definition upd_dev (n : netid) (f : net_device → net_device) : gn () :=
  match n with
  | Real_net => modify (λ s, set_real (f (real_net s)) s)
  | Qmap_net i => q ← get_net i; put_net i (QNet (f (q_dev q)) (q_carrier q) (q_priv q))
  end.

Definition set_stopped (b : bool) (d : net_device) : net_device :=
  NetDev (dev_ether d) (dev_addr d) (hard_header_len d) b (if_up d)
    (rx_packets d) (rx_bytes d) (tx_packets d) (tx_bytes d) (tx_errors d).
Definition netif_queue_stopped (n : netid) : gn bool := d ← get_dev n; mret (queue_stopped d).
Definition netif_stop_queue (n : netid) : gn () := upd_dev n (set_stopped true).
Definition netif_wake_queue (n : netid) : gn () := upd_dev n (set_stopped false).

(** The carrier: the kernel turns it on when the device is made. *)
Fixpoint carrier_of (l : list qmi_out) : bool :=
  match l with
  | [] => true
  | Carrier on :: _ => on
  | _ :: l => carrier_of l
  end.
Definition netif_carrier_ok (n : netid) : gn bool :=
  match n with
  | Real_net => s ← get_state; mret (carrier_of (trace (qmi s)))
  | Qmap_net i => q ← get_net i; mret (q_carrier q)
  end.
Definition set_carrier (on : bool) (n : netid) : gn () :=
  match n with
  | Real_net => run_qmi (out (Carrier on))
  | Qmap_net i => q ← get_net i; put_net i (QNet (q_dev q) on (q_priv q))
  end.
Definition netif_carrier_on : netid → gn () := set_carrier true.
Definition netif_carrier_off : netid → gn () := set_carrier false.

(** [mpQmapNetDev[i]]. *)
Definition slot (i : Z) : gn (option netid) :=
  s ← get_state;
  check_index (mpQmapNetDev s) i;; mret (default None (mpQmapNetDev s !! Z.to_nat i)).

(** [unsigned long] counters. *)
Definition ulong (x : Z) : Z := x mod 2 ^ 64.
Definition add_rx (packets bytes : Z) (d : net_device) : net_device :=
  NetDev (dev_ether d) (dev_addr d) (hard_header_len d) (queue_stopped d) (if_up d)
    (ulong (rx_packets d + packets)) (ulong (rx_bytes d + bytes))
    (tx_packets d) (tx_bytes d) (tx_errors d).
Definition add_tx (packets bytes : Z) (d : net_device) : net_device :=
  NetDev (dev_ether d) (dev_addr d) (hard_header_len d) (queue_stopped d) (if_up d)
    (rx_packets d) (rx_bytes d) (ulong (tx_packets d + packets)) (ulong (tx_bytes d + bytes))
    (tx_errors d).
Definition add_tx_error (d : net_device) : net_device :=
  NetDev (dev_ether d) (dev_addr d) (hard_header_len d) (queue_stopped d) (if_up d)
    (rx_packets d) (rx_bytes d) (tx_packets d) (tx_bytes d) (ulong (tx_errors d + 1)).
Definition rmnet_vnd_update_rx_stats (n : netid) (packets bytes : Z) : gn () :=
  upd_dev n (add_rx packets bytes).
Definition rmnet_vnd_update_tx_stats (n : netid) (packets bytes : Z) : gn () :=
  upd_dev n (add_tx packets bytes).

(** ** Bridge mode *)

Definition ARPHRD_ETHER : Z := 1.
Definition ARPOP_REQUEST : Z := 1.

Definition ipv4_bytes (ip : Z) : list Z :=
  [Z.shiftr ip 24 &' 0xFF; Z.shiftr ip 16 &' 0xFF; Z.shiftr ip 8 &' 0xFF; ip &' 0xFF].

(** The packet asks for an Ethernet and IPv4 address; the network header follows the
    Ethernet header. *)
Definition is_arp_request (skb : sk_buff) : outcome bool :=
  hrd ← skb_be16 skb ETH_HLEN;
  pro ← skb_be16 skb (ETH_HLEN + 2);
  hln ← skb_byte skb (ETH_HLEN + 4);
  pln ← skb_byte skb (ETH_HLEN + 5);
  op ← skb_be16 skb (ETH_HLEN + 6);
  Done ((hrd =? ARPHRD_ETHER) && (pro =? ETH_P_IP) && (op =? ARPOP_REQUEST) &&
        (hln =? 6) && (pln =? 4)).

(** The modem's side answers for every other address of the subnet. *)
Definition same_subnet (tip ipv4 : list Z) : bool :=
  match tip, ipv4 with
  | [t0; t1; t2; t3], [i0; i1; i2; i3] =>
    (t0 =? i0) && (t1 =? i1) && ((t2 &' 0xFC) =? (i2 &' 0xFC)) && negb (t3 =? i3)
  | _, _ => false
  end.

Definition bridge_arp_reply (n : netid) (skb : sk_buff) (bridge_ipv4 : Z) : gn Z :=
  request ← lift (is_arp_request skb);
  if negb request then mret 0 else
  let arpptr := ETH_HLEN + 8 in
  sha ← lift (skb_bytes skb arpptr 6);
  sip ← lift (skb_bytes skb (arpptr + 6) 4);
  tip ← lift (skb_bytes skb (arpptr + 16) 4);
  (if same_subnet tip (ipv4_bytes bridge_ipv4) then
     ok ← net_alloc;
     if ok : bool then emit (Arp_reply sip n tip sha ec20_mac sha) else mret ()
   else mret ());;
  mret 1.

(** A DHCP request: UDP from 0.0.0.0 to the broadcast address. *)
Definition is_dhcp_request (skb : sk_buff) (h_proto : Z) : outcome bool :=
  if negb (h_proto =? ETH_P_IP) then Done false else
  protocol ← skb_byte skb (ETH_HLEN + 9);
  if negb (protocol =? IPPROTO_UDP) then Done false else
  saddr ← skb_bytes skb (ETH_HLEN + 12) 4;
  daddr ← skb_bytes skb (ETH_HLEN + 16) 4;
  Done (bool_decide (saddr = [0; 0; 0; 0]) && bool_decide (daddr = [255; 255; 255; 255])).

Definition set_host (mac : list Z) (b : bridge) : bridge :=
  Bridge (m_bridge_mode b) (m_bridge_ipv4 b) mac.

(** The new bridge fields, and whether the packet goes on. *)
Definition bridge_mode_tx_fixup (n : netid) (skb : sk_buff) (b : bridge) : gn (bridge * bool) :=
  h_proto ← lift (skb_be16 skb 12);
  if h_proto =? ETH_P_ARP then
    (if negb (m_bridge_ipv4 b =? 0) then ignore (bridge_arp_reply n skb (m_bridge_ipv4 b))
     else mret ());;
    mret (b, false)
  else
  dhcp ← lift (is_dhcp_request skb h_proto);
  h_source ← lift (skb_bytes skb 6 ETH_ALEN);
  let b := if dhcp : bool then set_host h_source b else b in
  mret (b, bool_decide (h_source = mHostMAC b)).

Definition bridge_mode_rx_fixup (n : netid) (skb : sk_buff) : gn sk_buff :=
  s ← get_state;
  b ← (if 1 <? mode s
       then match n with
            | Real_net => fault
            | Qmap_net i => p ← get_priv i; mret (priv_bridge p)
            end
       else mret (g_bridge s));
  d ← get_dev n;
  lift (set_h_dest (if negb (m_bridge_mode b =? 0) then mHostMAC b else dev_addr d) skb).

(** ** The queues *)

(** The tasklet [txq]. *)
Fixpoint wake_queues (n : nat) (i : Z) : gn () :=
  match n with
  | O => mret ()
  | S n =>
    qmap_net ← slot i;
    match qmap_net with
    | Some d =>
      stopped ← netif_queue_stopped d;
      if stopped : bool then
        busy ← netif_queue_stopped Real_net;
        if busy : bool then mret () else netif_wake_queue d
      else mret ()
    | None => mret ()
    end;;
    wake_queues n (i + 1)
  end.
Definition rmnet_usb_tx_wake_queue : gn () :=
  s ← get_state; wake_queues (Z.to_nat (mode s)) 0.

(** The tasklet runs once it is scheduled. *)
Definition run_txq : gn () :=
  s ← get_state;
  if txq s then modify (set_txq false);; rmnet_usb_tx_wake_queue else mret ().

Fixpoint schedule_if_stopped (n : nat) (i : Z) : gn () :=
  match n with
  | O => mret ()
  | S n =>
    qmap_net ← slot i;
    stopped ← match qmap_net with Some d => netif_queue_stopped d | None => mret false end;
    if stopped : bool then modify (set_txq true) else schedule_if_stopped n (i + 1)
  end.
Definition rmnet_usb_tx_skb_destructor : gn () :=
  s ← get_state; schedule_if_stopped (Z.to_nat (mode s)) 0.

(** The kernel frees a packet that was sent. *)
Definition skb_release (skb : sk_buff) : gn () :=
  match skb_destr skb with Rmnet_destructor => rmnet_usb_tx_skb_destructor | _ => mret () end.

(** ** Aggregation *)

Definition set_agg_skb (o : option sk_buff) (count : Z) (p : qmap_priv) : qmap_priv :=
  QmapPriv (mux_id p) (priv_version p) (priv_link_state p) (ul_data_aggregation_max_datagrams p)
    (ul_data_aggregation_max_size p) (dl_minimum_padding p) o count (agg_time p)
    (agg_hrtimer p) (agg_wq p) (priv_bridge p).
Definition set_agg_time (t : Z) (p : qmap_priv) : qmap_priv :=
  QmapPriv (mux_id p) (priv_version p) (priv_link_state p) (ul_data_aggregation_max_datagrams p)
    (ul_data_aggregation_max_size p) (dl_minimum_padding p) (agg_skb p) (agg_count p) t
    (agg_hrtimer p) (agg_wq p) (priv_bridge p).
Definition set_timer (timer work : bool) (p : qmap_priv) : qmap_priv :=
  QmapPriv (mux_id p) (priv_version p) (priv_link_state p) (ul_data_aggregation_max_datagrams p)
    (ul_data_aggregation_max_size p) (dl_minimum_padding p) (agg_skb p) (agg_count p)
    (agg_time p) timer work (priv_bridge p).

Definition NET_XMIT_SUCCESS : Z := 0.
Definition NETDEV_TX_OK : Z := 0.
Definition NETDEV_TX_BUSY : Z := 0x10.

Definition dev_queue_xmit (skb : sk_buff) : gn Z := emit (Dev_queue_xmit skb);; net_result.

(** Send on the modem's device; an error is counted for the channel's. *)
Definition xmit_real (i : Z) (skb : sk_buff) : gn () :=
  err ← dev_queue_xmit skb;
  if negb (err =? NET_XMIT_SUCCESS) then upd_dev (Qmap_net i) add_tx_error else mret ().
Definition to_real (skb : sk_buff) : sk_buff := set_dev Real_net (set_protocol ETH_P_MAP skb).

(** The aggregated packet that waited goes out, without a destructor. *)
Definition rmnet_usb_tx_agg_work (i : Z) : gn () :=
  p ← get_priv i;
  match agg_skb p with
  | Some skb =>
    now ← ktime_get_ts64;
    put_priv i (set_agg_time now (set_agg_skb None 0 p));; xmit_real i (to_real skb)
  | None => mret ()
  end.
(** The kernel runs the work that was scheduled. *)
Definition run_agg_work (i : Z) : gn () :=
  p ← get_priv i;
  if agg_wq p then put_priv i (set_timer (agg_hrtimer p) false p);; rmnet_usb_tx_agg_work i
  else mret ().

(** The timer fires: it is not queued any more. *)
Definition rmnet_usb_tx_agg_timer_cb (i : Z) : gn () :=
  p ← get_priv i;
  if agg_hrtimer p then put_priv i (set_timer false true p) else mret ().

(** [diff.tv_sec > 0 || diff.tv_nsec > limit]. *)
Definition late (diff limit : Z) : bool :=
  (0 <? diff / 10 ^ 9) || (limit <? diff mod 10 ^ 9).

Definition agg_skip (skb : sk_buff) (xmit_more : bool) : outcome bool :=
  if xmit_more then Done false else
  offset ← packet_offset skb; rmnet_usb_tx_agg_skip skb offset.

(** Under [agg_lock]: [agg_skb], the packet to send, and [skb] when it is left. *)
Definition tx_agg_locked (i : Z) (skb : sk_buff) (xmit_more : bool)
  : gn (option sk_buff * option sk_buff) :=
  now ← ktime_get_ts64;
  p ← get_priv i;
  s ← get_state;
  let diff := now - agg_time p in
  match agg_skb p with
  | Some agg =>
    if u32 (len agg + len skb) <? ul_data_aggregation_max_size p then
      agg ← lift (skb_put_data agg (skb_data skb));
      let count := u32 (agg_count p + 1) in
      ready2send ← lift (if late diff (agg_time_limit (params s)) then Done true
                         else if count =? ul_data_aggregation_max_datagrams p then Done true
                         else agg_skip skb xmit_more);
      emit Kfree_skb;;
      if ready2send : bool
      then put_priv i (set_agg_time now (set_agg_skb None 0 p));; mret (Some agg, None)
      else put_priv i (set_agg_skb (Some agg) count p);; mret (None, None)
    else
      put_priv i (set_agg_time now (set_agg_skb None 0 p));; mret (Some agg, Some skb)
  | None =>
    ready2send ← lift (if late diff (agg_bypass_time (params s)) then Done true
                       else agg_skip skb xmit_more);
    agg ← (if ready2send : bool then mret None
           else alloc_skb (ul_data_aggregation_max_size p));
    match agg with
    | Some agg =>
      agg ← lift (skb_put_data agg (skb_data skb));
      put_priv i (set_agg_skb (Some agg) (u32 (agg_count p + 1)) p);;
      emit Kfree_skb;; mret (None, None)
    | None => put_priv i (set_agg_time now p);; mret (Some skb, None)
    end
  end.

Definition start_agg_timer (i : Z) : gn () :=
  p ← get_priv i;
  match agg_skb p with
  | Some _ => if agg_hrtimer p then mret () else put_priv i (set_timer true (agg_wq p) p)
  | None => mret ()
  end.

(** From [new_packet] on. *)
Fixpoint tx_agg_loop (fuel : nat) (i : Z) (skb : sk_buff) (xmit_more : bool) : gn () :=
  match fuel with
  | O => hang
  | S fuel =>
    '(agg, rest) ← tx_agg_locked i skb xmit_more;
    match agg with
    | Some agg => xmit_real i (or_destructor (to_real agg))
    | None => mret ()
    end;;
    match rest with
    | Some skb => tx_agg_loop fuel i skb xmit_more
    | None => start_agg_timer i
    end
  end.
(** Two turns: the second finds no aggregated packet. *)
Definition tx_agg_fuel : nat := 2.

Definition rmnet_usb_tx_agg (i : Z) (skb : sk_buff) (xmit_more : bool) : gn Z :=
  rmnet_vnd_update_tx_stats (Qmap_net i) 1 (len skb);;
  p ← get_priv i;
  (if ul_data_aggregation_max_datagrams p =? 1
   then xmit_real i (or_destructor (to_real skb))
   else tx_agg_loop tx_agg_fuel i skb xmit_more);;
  mret NET_XMIT_SUCCESS.

(** ** The operations of a channel's device *)

Definition wake_if_possible (n : netid) : gn () :=
  stopped ← netif_queue_stopped n;
  if negb stopped then mret () else
  busy ← netif_queue_stopped Real_net;
  if busy : bool then mret () else netif_wake_queue n.

Definition ENETDOWN : Z := 100.
Definition ENOBUFS : Z := 105.

Definition adopt_agg (c : ul_agg_ctx) (p : qmap_priv) : qmap_priv :=
  if (ul_data_aggregation_max_datagrams p =? 1) && (1 <? agg_max_datagrams c) then
    QmapPriv (mux_id p) (priv_version p) (priv_link_state p) (agg_max_datagrams c)
      (agg_max_size c) (agg_minimum_padding c) (agg_skb p) (agg_count p) (agg_time p)
      (agg_hrtimer p) (agg_wq p) (priv_bridge p)
  else p.

Definition qmap_open (i : Z) : gn Z :=
  s ← get_state;
  if negb (if_up (real_net s)) then mret (- ENETDOWN) else
  if negb (mbQMIReady (data (qmi s))) then mret (- ENETDOWN) else
  p ← get_priv i;
  put_priv i (adopt_agg (agg_ctx (data (qmi s))) p);;
  real_ok ← netif_carrier_ok Real_net;
  (if real_ok && priv_link_state p then netif_carrier_on (Qmap_net i) else mret ());;
  ok ← netif_carrier_ok (Qmap_net i);
  (if ok : bool then wake_if_possible (Qmap_net i) else mret ());;
  mret 0.

Definition qmap_stop (i : Z) : gn Z := netif_carrier_off (Qmap_net i);; mret 0.

Definition set_priv_bridge (b : bridge) (p : qmap_priv) : qmap_priv :=
  QmapPriv (mux_id p) (priv_version p) (priv_link_state p) (ul_data_aggregation_max_datagrams p)
    (ul_data_aggregation_max_size p) (dl_minimum_padding p) (agg_skb p) (agg_count p)
    (agg_time p) (agg_hrtimer p) (agg_wq p) b.

(** Bridge mode and the Ethernet header; [None] for a packet to drop. *)
Definition qmap_eth_fixup (i : Z) (skb : sk_buff) : gn (option sk_buff) :=
  d ← get_dev (Qmap_net i);
  if negb (dev_ether d) then mret (Some skb) else
  p ← get_priv i;
  pass ← (if negb (m_bridge_mode (priv_bridge p) =? 0) then
            '(b, pass) ← bridge_mode_tx_fixup (Qmap_net i) skb (priv_bridge p);
            put_priv i (set_priv_bridge b p);; mret pass
          else mret true);
  if negb pass then mret None else lift (ether_to_ip_fixup skb).

(** The QMAP header of the version, or [None]. *)
Definition qmap_encap (qmap_version mux : Z) (skb : sk_buff) : outcome (option sk_buff) :=
  if qmap_version =? 5 then skb ← add_qhdr skb mux; Done (Some skb)
  else if qmap_version =? 9 then skb ← add_qhdr_v5 skb mux; Done (Some skb)
  else Done None.

Definition qmap_start_xmit (i : Z) (skb : sk_buff) (xmit_more : bool) : gn Z :=
  busy ← netif_queue_stopped Real_net;
  if busy : bool then netif_stop_queue (Qmap_net i);; mret NETDEV_TX_BUSY else
  skb ← qmap_eth_fixup i skb;
  match skb with
  | None => emit Kfree_skb;; mret NETDEV_TX_OK
  | Some skb =>
    p ← get_priv i;
    skb ← lift (qmap_encap (priv_version p) (mux_id p) skb);
    match skb with
    | None => emit Kfree_skb;; mret NETDEV_TX_OK
    | Some skb => rmnet_usb_tx_agg i skb xmit_more
    end
  end.

(** ** Transmission on the modem's device *)

Definition g_eth_fixup (skb : sk_buff) : gn (option sk_buff) :=
  s ← get_state;
  pass ← (if negb (m_bridge_mode (g_bridge s) =? 0) then
            '(b, pass) ← bridge_mode_tx_fixup Real_net skb (g_bridge s);
            modify (set_bridge b);; mret pass
          else mret true);
  if negb pass then mret None else lift (ether_to_ip_fixup skb).

Definition drop_or_pass (skb : option sk_buff) : gn (option sk_buff) :=
  match skb with Some skb => mret (Some skb) | None => emit Kfree_skb;; mret None end.

Definition GobiNetDriverTxFixup (skb : option sk_buff) : gn (option sk_buff) :=
  s ← get_state;
  if negb (data0 s) then emit Kfree_skb;; mret None else
  match skb with
  | None => mret None
  | Some skb =>
    if negb (mbRawIPMode (net (qmi s))) then mret (Some skb) else
    if 1 <? mode s then
      drop_or_pass (if skb_protocol skb =? ETH_P_MAP then Some skb else None)
    else if mode s =? 1 then
      if g_link_state s =? 0 then drop_or_pass None else
      skb ← (if dev_ether (real_net s) then g_eth_fixup skb else mret (Some skb));
      match skb with
      | None => drop_or_pass None
      | Some skb =>
        skb ← lift (qmap_encap (version s) QUECTEL_QMAP_MUX_ID skb); drop_or_pass skb
      end
    else skb ← g_eth_fixup skb; drop_or_pass skb
  end.

(** [usbnet_start_xmit] is the kernel's. *)
Definition GobiUSBNetStartXmit2 (skb : option sk_buff) : gn Z :=
  s ← get_state;
  if negb (data0 s) then mret NETDEV_TX_BUSY else
  match skb with
  | None => mret NETDEV_TX_BUSY
  | Some skb =>
    suspended ← run_qmi (GobiTestDownReason DRIVER_SUSPENDED);
    if suspended : bool then mret NETDEV_TX_BUSY else
    no_ndis ← run_qmi (GobiTestDownReason NO_NDIS_CONNECTION);
    if no_ndis : bool then mret NETDEV_TX_BUSY else
    emit (Usbnet_start_xmit skb);; net_result
  end.
