(* ===== verification/GobiDrv.v ===== *)
(** * The GobiNet network device: reception, control and life cycle

    Model of [src/drivers/quectel-gobinet/src/GobiUSBNet.c]: the receiver of QMAP
    frames, the attributes [link_state], [bridge_mode] and [bridge_ipv4], the ioctl,
    the registration of the channels' devices, probing, disconnection, opening,
    stopping and resuming. *)

From S2P Require Import Prelude Kernel GobiQmi.
From stdpp Require Import gmap.
Import Qmi.
From S2P Require Import QmiDev QmiClient GobiSkb GobiNet.

#[local] Open Scope Z_scope.
#[local] Open Scope c_scope.

(** ** Reception *)

(** The protocol of a packet, by its version. *)
Definition ip_protocol (first_byte : Z) : option Z :=
  if (first_byte &' 0xf0) =? 0x40 then Some ETH_P_IP
  else if (first_byte &' 0xf0) =? 0x60 then Some ETH_P_IPV6
  else None.

(** [netdev_alloc_skb], [skb_put] and the copy of [skb_len] bytes at [off]. *)
Definition copy_packet (n : netid) (skb_in : sk_buff) (off skb_len : Z) : gn (option sk_buff) :=
  qmap_skb ← netdev_alloc_skb n skb_len;
  match qmap_skb with
  | None => mret None
  | Some qmap_skb =>
    if skb_len <? 0 then fault else
    bytes ← lift (skb_bytes skb_in off skb_len);
    qmap_skb ← lift (skb_put_data qmap_skb bytes);
    mret (Some qmap_skb)
  end.

(** The Ethernet header of a received packet. *)
Definition rx_push_eth (n : netid) (protocol : Z) (qmap_skb : sk_buff) : gn sk_buff :=
  d ← get_dev n;
  if negb (dev_ether d) then mret qmap_skb else
  qmap_skb ← lift (push_eth qmap_skb (dev_addr d) default_modem_addr protocol);
  bridge_mode_rx_fixup n qmap_skb.

(** A turn of the loop: [goto error_pkt], or the packet to queue, if any, and the
    rest of the data. *)
Inductive rx_step := Error_pkt | Next (qmap_skb : option sk_buff) (skb_in : sk_buff).

Definition rx_frame (dl_minimum_padding : Z) (skb_in : sk_buff) : gn rx_step :=
  h ← lift (read_map_header skb_in);
  let skb_len := s32 (hdr_pkt_len h - pad_len h - dl_minimum_padding) in
  if 1500 <? skb_len then mret Error_pkt else
  match skb_pull skb_in (hdr_pkt_len h + hdr_size h) with
  | None => mret Error_pkt
  | Some rest =>
    if cd_bit h then mret (Next None rest) else
    first ← lift (skb_byte skb_in (hdr_size h));
    match ip_protocol first with
    | None => mret Error_pkt
    | Some protocol =>
      s ← get_state;
      let mux_id := hdr_mux_id h - QUECTEL_QMAP_MUX_ID in
      if mode s <=? mux_id then mret Error_pkt else
      qmap_net ← slot mux_id;
      match qmap_net with
      | None => mret (Next None rest)
      | Some n =>
        qmap_skb ← copy_packet n skb_in (hdr_size h) skb_len;
        match qmap_skb with
        | None => mret Error_pkt
        | Some qmap_skb =>
          qmap_skb ← rx_push_eth n protocol (set_protocol protocol qmap_skb);
          mret (Next (Some qmap_skb) rest)
        end
      end
    end
  end.

(** The chain of packets, in the order they came; every turn takes a header off. *)
Fixpoint rx_frames (fuel : nat) (dl_minimum_padding : Z) (skb_in : sk_buff) : gn (list sk_buff) :=
  if len skb_in <=? QMAP_HDR then mret [] else
  match fuel with
  | O => hang
  | S fuel =>
    step ← rx_frame dl_minimum_padding skb_in;
    match step with
    | Error_pkt => mret []
    | Next qmap_skb rest =>
      chain ← rx_frames fuel dl_minimum_padding rest;
      mret (match qmap_skb with Some qmap_skb => qmap_skb :: chain | None => chain end)
    end
  end.
Definition rx_fuel (skb_in : sk_buff) : nat := length (skb_data skb_in).

(** From [error_pkt] on, for one packet. *)
Definition rx_deliver (qmap_skb : sk_buff) : gn () :=
  match skb_dev qmap_skb with
  | Real_net => emit (Usbnet_skb_return (set_protocol 0 qmap_skb))
  | n =>
    d ← get_dev n;
    let qmap_skb := if dev_ether d then default qmap_skb (skb_pull qmap_skb ETH_HLEN)
                    else qmap_skb in
    rmnet_vnd_update_rx_stats n 1 (len qmap_skb);;
    emit (Netif_rx qmap_skb)
  end.
Fixpoint rx_deliver_all (chain : list sk_buff) : gn () :=
  match chain with [] => mret () | skb :: chain => rx_deliver skb;; rx_deliver_all chain end.

Definition rx_minimum_padding (s : gobi) : Z :=
  if version s =? 9 then agg_minimum_padding (agg_ctx (data (qmi s))) else 0.

Definition _rmnet_usb_rx_handler (skb_in : sk_buff) : gn () :=
  s ← get_state;
  chain ← rx_frames (rx_fuel skb_in) (rx_minimum_padding s) skb_in;
  rx_deliver_all chain.

Inductive rx_handler_result := RX_HANDLER_CONSUMED | RX_HANDLER_PASS.

Definition rmnet_usb_rx_handler (skb : option sk_buff) : gn rx_handler_result :=
  match skb with
  | None => mret RX_HANDLER_CONSUMED
  | Some skb =>
    if skb_loopback skb then mret RX_HANDLER_PASS else
    if negb (skb_protocol skb =? ETH_P_MAP) then mret RX_HANDLER_PASS else
    _rmnet_usb_rx_handler skb;; emit Kfree_skb;; mret RX_HANDLER_CONSUMED
  end.

(** The result, and the packet when it is 1. *)
Definition GobiNetDriverRxQmapFixup (skb : sk_buff) : gn (Z * sk_buff) :=
  s ← get_state;
  if rx_handler s then
    if dev_ether (real_net s) && (ETH_HLEN <=? skb_headroom skb) then
      skb ← lift (push_eth skb (dev_addr (real_net s)) default_modem_addr ETH_P_MAP);
      mret (1, skb)
    else mret (0, skb)
  else _rmnet_usb_rx_handler skb;; mret (0, skb).

(** [pskb_expand_head(skb, nhead, 0, ...)]. *)
Definition pskb_expand_head (skb : sk_buff) (nhead : nat) : gn (option sk_buff) :=
  ok ← net_alloc; s ← get_state;
  mret (if ok : bool
        then Some (set_buffer (fresh (genv s) nhead ++ skb_head skb) (skb_data skb)
                     (skb_tail skb) skb)
        else None).

(** A packet without Ethernet header gets one, with the modem as its source. *)
Definition rx_ip_fixup (proto : Z) (skb : sk_buff) : gn (Z * sk_buff) :=
  expanded ← (if skb_headroom skb <? ETH_HLEN then pskb_expand_head skb (Z.to_nat ETH_HLEN)
              else mret (Some skb));
  match expanded with
  | None => mret (0, skb)
  | Some skb =>
    s ← get_state;
    skb ← lift (push_eth skb (dev_addr (real_net s)) ec20_mac proto);
    skb ← bridge_mode_rx_fixup Real_net skb; mret (1, skb)
  end.

Definition GobiNetDriverRxFixup (skb : sk_buff) : gn (Z * sk_buff) :=
  s ← get_state;
  if negb (mbRawIPMode (net (qmi s))) then mret (1, skb) else
  if len skb <? hard_header_len (real_net s) then mret (0, skb) else
  if negb (mode s =? 0) then GobiNetDriverRxQmapFixup skb else
  first ← lift (skb_byte skb 0);
  match ip_protocol first with
  | Some proto => rx_ip_fixup proto skb
  | None =>
    if (first &' 0xf0) =? 0 then
      if Z.testbit first 0 then mret (1, skb)
      else skb ← bridge_mode_rx_fixup Real_net skb; mret (1, skb)
    else mret (1, skb)
  end.

(** ** Attributes

    [value] is what [simple_strtoul] read; the attribute of [n]. *)

Definition bridge_of (n : netid) : gn bridge :=
  match n with
  | Real_net => s ← get_state; mret (g_bridge s)
  | Qmap_net i => p ← get_priv i; mret (priv_bridge p)
  end.
Definition put_bridge (n : netid) (b : bridge) : gn () :=
  match n with
  | Real_net => modify (set_bridge b)
  | Qmap_net i => p ← get_priv i; put_priv i (set_priv_bridge b p)
  end.

Definition bridge_mode_store (n : netid) (value count : Z) : gn Z :=
  d ← get_dev n;
  if negb (dev_ether d) then mret count else
  b ← bridge_of n;
  put_bridge n (Bridge (s32 value) (m_bridge_ipv4 b) (mHostMAC b));; mret count.

Definition bridge_ipv4_store (n : netid) (value count : Z) : gn Z :=
  b ← bridge_of n;
  put_bridge n (Bridge (m_bridge_mode b) (u32 value) (mHostMAC b));; mret count.

Definition set_priv_link (b : bool) (p : qmap_priv) : qmap_priv :=
  QmapPriv (mux_id p) (priv_version p) b (ul_data_aggregation_max_datagrams p)
    (ul_data_aggregation_max_size p) (dl_minimum_padding p) (agg_skb p) (agg_count p)
    (agg_time p) (agg_hrtimer p) (agg_wq p) (priv_bridge p).

(** The channel's device follows its bit. *)
Definition follow_link (i offset_id : Z) : gn () :=
  s ← get_state;
  p ← get_priv i;
  let up := Z.testbit (g_link_state s) offset_id in
  put_priv i (set_priv_link up p);;
  if up then netif_carrier_on (Qmap_net i);; wake_if_possible (Qmap_net i)
  else netif_carrier_off (Qmap_net i).

Definition link_changed (offset_id : Z) : gn () :=
  qmap_net ← slot offset_id;
  s ← get_state;
  (if negb (g_link_state s =? 0) then netif_carrier_on Real_net else netif_carrier_off Real_net);;
  match qmap_net with
  | Some (Qmap_net i) => follow_link i offset_id
  | _ => mret ()
  end.

Definition link_state_store (value count : Z) : gn Z :=
  s ← get_state;
  let link := u32 value in
  let old_link := g_link_state s in
  let change offset_id link :=
    modify (set_link link);;
    (if old_link =? link then mret () else link_changed offset_id);; mret count in
  if mode s =? 1 then change 0 (if link =? 0 then 0 else 1)
  else if 1 <? mode s then
    let offset_id := u32 ((link &' 0x7F) - 1) in
    if mode s <=? offset_id then mret count else
    change offset_id (if Z.testbit link 7 then clear_bit offset_id old_link
                      else set_bit offset_id old_link)
  else change 0 old_link.

(** ** The ioctl *)

Record RMNET_INFO := RmnetInfo {
  info_rx_urb_size : Z; info_ep_type : Z; info_iface_id : Z;
  info_qmap_mode : Z; info_qmap_version : Z; info_minimum_padding : Z;
  ifname : list netid; info_mux_id : list Z;
}.

(** The names (by device) and mux ids of the first devices that are there. *)
Fixpoint rmnet_ifaces (n : nat) (i : Z) : gn (list (netid * Z)) :=
  match n with
  | O => mret []
  | S n =>
    qmap_net ← slot i;
    s ← get_state;
    match qmap_net with
    | None => mret []
    | Some d =>
      mux ← (if 1 <? mode s
             then match d with Qmap_net i => p ← get_priv i; mret (mux_id p) | _ => fault end
             else mret QUECTEL_QMAP_MUX_ID);
      rest ← rmnet_ifaces n (i + 1); mret ((d, u8 mux) :: rest)
    end
  end.

Definition rmnet_info_set : gn RMNET_INFO :=
  s ← get_state;
  l ← rmnet_ifaces (Z.to_nat (mode s)) 0;
  mret (RmnetInfo (rx_urb_size (data (qmi s))) 2 4 (mode s) (version s) 0 (map fst l) (map snd l)).

Definition EOPNOTSUPP : Z := 95.
Definition SIOC_LINK_STATE : Z := 0x89F1.
Definition SIOC_QMAP : Z := 0x89F2.
Definition SIOC_RMNET_INFO : Z := 0x89F3.

(** On time: the start-up of the client layer is over. *)
Definition wait_qmi_ready : qm bool :=
  modify_data (λ d, set_refcount (refcount d + 1) d);;
  s ← get_state;
  in_time ← (if negb (mbQMIReady (data s))
             then result ← ret_of_kernel; mret (0 <? result) else mret true);
  (if in_time : bool then modify_data (λ d, set_refcount (refcount d - 1) d) else put_refcount);;
  mret in_time.

(** The result, and what is copied to the user. *)
Definition qmap_ndo_do_ioctl (cmd arg : Z) : gn (Z * option RMNET_INFO) :=
  in_time ← run_qmi wait_qmi_ready;
  if negb in_time then mret (- ETIMEDOUT, None) else
  if cmd =? SIOC_LINK_STATE then
    rc ← net_result;
    (if rc =? 0 then ignore (link_state_store arg 0) else mret ());; mret (rc, None)
  else if cmd =? SIOC_QMAP then mret (0, None)
  else if cmd =? SIOC_RMNET_INFO then
    s ← get_state;
    if mode s =? 0 then mret (- EOPNOTSUPP, None) else
    info ← rmnet_info_set; rc ← net_result; mret (rc, Some info)
  else mret (- EOPNOTSUPP, None).

(** ** Registration of the channels' devices *)

Definition zero_net (ether : bool) (addr : list Z) : net_device :=
  NetDev ether addr ETH_HLEN false false 0 0 0 0 0.

Definition qmap_register_device (offset_id : Z) : gn Z :=
  ok ← net_alloc;
  if negb ok then mret (- ENOBUFS) else
  now ← ktime_get_ts64;
  s ← get_state;
  let bridged := if Z.testbit (m_bridge_mode (g_bridge s)) offset_id then 1 else 0 in
  let priv := QmapPriv (QUECTEL_QMAP_MUX_ID + offset_id) (version s) false 1 2048 0 None 0 now
                false false (Bridge bridged 0 (replicate 6 0)) in
  put_net offset_id (QNet (zero_net true (dev_addr (real_net s))) true priv);;
  err ← net_result;
  if err <? 0 then modify (λ s, set_nets (delete offset_id (qmap_nets s)) s);; mret err else
  emit (Register_netdev offset_id);;
  s ← get_state;
  check_index (mpQmapNetDev s) offset_id;;
  modify (set_slots (<[Z.to_nat offset_id := Some (Qmap_net offset_id)]> (mpQmapNetDev s)));;
  mret 0.

(** The slot keeps the address of the device that is freed. *)
Definition qmap_unregister_device (offset_id : Z) : gn () :=
  qmap_net ← slot offset_id;
  match qmap_net with
  | Some (Qmap_net i) =>
    netif_carrier_off (Qmap_net i);;
    netif_stop_queue (Qmap_net i);;
    p ← get_priv i;
    put_priv i (set_timer false false p);;
    match agg_skb p with Some _ => emit Kfree_skb | None => mret () end;;
    emit (Unregister_netdev i);;
    modify (λ s, set_nets (delete i (qmap_nets s)) s)
  | _ => mret ()
  end.

Fixpoint for_slots (n : nat) (i : Z) (f : Z → gn ()) : gn () :=
  match n with O => mret () | S n => f i;; for_slots n (i + 1) f end.

(** ** Life cycle *)

Definition NET_IFACE_STOPPED : Z := 3.

Definition set_data0 (x : bool) (s : gobi) : gobi :=
  Gobi (qmi s) x (own_ops s) (g_link_state s) (mpQmapNetDev s) (g_bridge s) (mbProbeDone s)
    (real_net s) (rx_handler s) (qmap_nets s) (txq s) (params s) (genv s) (gtrace s).

(** Without the structure the first access to it fails, and [kfree] may only be
    given what the driver allocated. *)
Definition GobiNetDriverUnbind : gn () :=
  netif_carrier_off Real_net;;
  s ← get_state;
  if negb (data0 s) then fault else
  (if m_qcrmcall_mode (net (qmi s)) then mret () else run_qmi DeregisterQMIDevice);;
  if negb (own_ops s) then fault else
  modify (set_own_ops false);;
  run_qmi put_refcount.

(** The kernel's [usbnet_disconnect] unregisters the device and calls [unbind]. *)
Definition usbnet_disconnect : gn () := GobiNetDriverUnbind.

(** [kzalloc(sizeof(sGobiUSBNet))] and the first stores. *)
Definition zero_data (d : gobi_data) : gobi_data :=
  GobiData (replicate 14 0) (qmap_settings d) (UlAgg 0 0 0) 0 false false false 1 no_read_thread ∅.
Definition zero_qmi (q : qmi_dev) : qmi_dev :=
  let n := net q in
  QmiDev false false [] false 0 0
    (GobiNet false false false 0 0 false (udev_state n) (bInterfaceNumber n) (int_endpoint n)
       (net_index n) (idVendor n) (idProduct n))
    (zero_data (data q)) ∅ ∅ (next_addr q) (live q) (env q) (trace q).
Definition zero_gobi (s : gobi) : gobi :=
  Gobi (zero_qmi (qmi s)) true false 0 (replicate 4 None) (Bridge 0 0 (replicate 6 0)) false
    (real_net s) (rx_handler s) (qmap_nets s) (txq s) (params s) (genv s) (gtrace s).

Definition clear_stats (d : net_device) : net_device :=
  NetDev (dev_ether d) (dev_addr d) (hard_header_len d) (queue_stopped d) (if_up d) 0 0 0 0 0.

Definition with_modes (raw qcrm : bool) (m v : Z) (n : gobi_net) : gobi_net :=
  GobiNet (idVendor n =? 0x2c7c) raw qcrm m v (link_state n) (udev_state n)
    (bInterfaceNumber n) (int_endpoint n) (net_index n) (idVendor n) (idProduct n).

Definition is_rg500 (idProduct : Z) : bool := (idProduct =? 0x0800) || (idProduct =? 0x0801).

(** [qmap_mode] and [qmap_version] of the modem. *)
Definition probe_modes (p : module_params) (raw : bool) (idProduct : Z) : Z * Z :=
  if negb raw then (0, 0) else
  let m := s32 (qmap_mode_param p) in
  ((if (m =? 0) && is_rg500 idProduct then 1 else m), if is_rg500 idProduct then 9 else 5).

Definition probe_qmap (m : Z) : gn () :=
  (if m =? 0 then mret () else netif_carrier_off Real_net);;
  (if 1 <? m then modify (set_rx_handler true) else mret ());;
  (if m =? 0 then mret () else run_qmi (modify_data (set_agg (UlAgg 1 2048 0)))).

Definition probe_register (p : module_params) : gn Z :=
  s ← get_state;
  let n := net (qmi s) in
  let raw := idVendor n =? 0x2c7c in
  if qcrmcall_mode_param p then
    modify (set_qmi (set_net (with_modes raw true 0 0 n) (qmi s)));;
    run_qmi (GobiClearDownReason NO_NDIS_CONNECTION);;
    run_qmi (ignore (usb_control_msg CONTROL_DTR));; mret 0
  else
    let '(m, v) := probe_modes p raw (idProduct n) in
    modify (set_qmi (set_net (with_modes raw false m v n) (qmi s)));;
    probe_qmap m;; run_qmi RegisterQMIDevice.

(** [netdev_found]: [usb_get_intfdata] gives the usbnet; without it the kernel's
    [usbnet_disconnect] does nothing. *)
Definition GobiUSBNetProbe (netdev_found : bool) : gn Z :=
  status ← net_result;
  if status <? 0 then mret status else
  if negb netdev_found then mret (- ENXIO) else
  ok ← net_alloc;
  if negb ok then usbnet_disconnect;; mret (- ENOMEM) else
  modify zero_gobi;;
  ok ← net_alloc;
  if negb ok then usbnet_disconnect;; mret (- ENOMEM) else
  modify (set_own_ops true);;
  modify (λ s, set_real (clear_stats (real_net s)) s);;
  run_qmi (modify_data (set_meid (replicate 14 0x30)));;
  run_qmi (GobiSetDownReason NO_NDIS_CONNECTION);;
  run_qmi (GobiSetDownReason NET_IFACE_STOPPED);;
  s ← get_state;
  modify (set_bridge (Bridge (s32 (bridge_mode_param (params s))) 0 (dev_addr (real_net s))));;
  status ← probe_register (params s);
  if negb (status =? 0) then usbnet_disconnect;; mret status else
  modify (set_txq false);;
  s ← get_state;
  (if 1 <? mode s
   then for_slots (Z.to_nat (mode s)) 0 (λ i, ignore (qmap_register_device i))
   else modify (set_slots (<[0%nat := Some Real_net]> (mpQmapNetDev s))));;
  modify (set_done true);; mret 0.

Definition GobiUSBNetDisconnect : gn () :=
  s ← get_state;
  (if 1 <? mode s then for_slots (Z.to_nat (mode s)) 0 qmap_unregister_device else mret ());;
  modify (set_txq false);;
  usbnet_disconnect.

(** [usbnet_open] and [usbnet_stop] are the kernel's. *)
Definition GobiUSBNetOpen : gn Z :=
  s ← get_state;
  if negb (data0 s) then mret (- ENXIO) else
  run_qmi (GobiClearDownReason NET_IFACE_STOPPED);;
  emit Usbnet_open;; status ← net_result;
  (if status =? 0 then run_qmi (out Autopm_put) else mret ());; mret status.

Definition GobiUSBNetStop : gn Z :=
  s ← get_state;
  if negb (data0 s) then mret (- ENXIO) else
  run_qmi (GobiSetDownReason NET_IFACE_STOPPED);; emit Usbnet_stop;; net_result.

(** [oldPowerState] is the power state the interface was left in. *)
Definition GobiNetResume (oldPowerState : Z) : gn Z :=
  s ← get_state;
  if negb (data0 s) then mret (- ENXIO) else
  if (oldPowerState &' PM_EVENT_SUSPEND) =? 0 then mret 0 else
  run_qmi (GobiClearDownReason DRIVER_SUSPENDED);;
  nRet ← run_qmi (out Usbnet_resume;; ret_of_kernel);
  if negb (nRet =? 0) then mret nRet else
  nRet ← (if m_qcrmcall_mode (net (qmi s)) then mret 0 else run_qmi StartRead);
  if negb (nRet =? 0) then mret nRet else
  busy ← netif_queue_stopped Real_net;
  (if negb busy && (1 <? mode s) then rmnet_usb_tx_wake_queue else mret ());; mret nRet.
