(* ===== verification/GobiExample.v ===== *)
(** * A GobiNet modem for the examples

    A modem with the USB identifiers of an EC25, plugged in while the module's
    parameter asks for two channels, and the state its probe leaves. *)

From S2P Require Import Prelude Kernel GobiQmi.
From stdpp Require Import gmap.
Import Qmi.
From S2P Require Import QmiDev QmiClient GobiSkb GobiNet GobiDrv.

#[local] Open Scope Z_scope.
#[local] Open Scope c_scope.

Definition example_mac : list Z := [0x02; 0x50; 0xf3; 0x11; 0x22; 0x33].

Definition example_net (qmap_mode idProduct : Z) : gobi :=
  Gobi
    (QmiDev false false [] false 0 0
       (GobiNet false false false 0 0 false true 4 true (Some 0) 0x2c7c idProduct)
       (GobiData [] (QmapSetting [] [] [] [] [] []) (UlAgg 0 0 0) 0 false false false 0 no_read_thread ∅)
       ∅ ∅ 1 0 (QmiEnv [] [] []) [])
    false false 0 [] (Bridge 0 0 []) false
    (NetDev true example_mac ETH_HLEN false true 0 0 0 0 0) false ∅ false
    (Params qmap_mode 0 false 1000000 10000000)
    (NetEnv [] [] [] (λ _, 0) 0) [].

Definition result_state {A} (o : outcome (A * gobi)) (s : gobi) : gobi :=
  match o with Done (_, s') => s' | _ => s end.

(** The modem with [n] channels, after probing. *)
Definition plugged (n idProduct : Z) : gobi :=
  let s := example_net n idProduct in result_state (GobiUSBNetProbe true s) s.
