(* ===== verification/GobiFrames.v ===== *)
(** * QMAP frames: what the driver writes and what it reads back

    A frame is a header, the packet and its padding.  [add_qhdr] and [add_qhdr_v5]
    write one in place, [read_map_header] reads its fields, and a turn of the
    receiver takes one off the data and queues the packet. *)

From S2P Require Import Prelude Kernel GobiQmi.
From stdpp Require Import gmap.
Import Qmi.
From S2P Require Import QmiDev QmiClient GobiSkb GobiNet GobiDrv.

#[local] Open Scope Z_scope.
#[local] Open Scope c_scope.

(** ** Frames *)

Record frame := Frame { f_payload : list Z; f_padding : list Z }.

Definition is_version (v : Z) : Prop := v = 5 ∨ v = 9.

Definition frame_header (v mux padding n : Z) : list Z :=
  if v =? 9 then [map_byte padding 1 0; u8 mux] ++ be16_bytes n ++ [4; 0; 0; 0]
  else [u8 padding; u8 mux] ++ be16_bytes n.

Definition flen {A} (l : list A) : Z := Z.of_nat (length l).

Definition frame_bytes (v mux : Z) (f : frame) : list Z :=
  frame_header v mux (flen (f_padding f)) (flen (f_payload f ++ f_padding f)) ++
  f_payload f ++ f_padding f.

Definition header_size (v : Z) : nat := if v =? 9 then 8 else 4.

Lemma length_frame_header v mux padding n : length (frame_header v mux padding n) = header_size v.
Proof. unfold frame_header, header_size. by destruct (v =? 9). Qed.

Lemma length_frame v mux f :
  length (frame_bytes v mux f) = (header_size v + length (f_payload f ++ f_padding f))%nat.
Proof. unfold frame_bytes. by rewrite length_app, length_frame_header. Qed.

(** ** Writing *)

Lemma add_padding_spec skb : ∃ pad, (length pad < 4)%nat ∧
  add_padding skb = Done (set_buffer (skb_head skb) (skb_data skb ++ pad)
                            (drop (length pad) (skb_tail skb)) skb, flen pad) ∧
  (length pad ≤ length (skb_tail skb))%nat.
Proof.
  assert (Hnone : Done (skb, 0) = Done (set_buffer (skb_head skb) (skb_data skb ++ [])
    (drop (length (@nil Z)) (skb_tail skb)) skb, flen (@nil Z))).
  { unfold flen, set_buffer. simpl. rewrite drop_0, app_nil_r. by destruct skb. }
  unfold add_padding, len. pose proof (Z.mod_pos_bound (Z.of_nat (length (skb_data skb))) 4).
  destruct (Z.eqb_spec (Z.of_nat (length (skb_data skb)) mod 4) 0).
  { exists []. simpl. split_and!; [lia|done|lia]. }
  set (pad := 4 - Z.of_nat (length (skb_data skb)) mod 4). unfold skb_tailroom.
  destruct (Z.ltb_spec (Z.of_nat (length (skb_tail skb))) pad).
  { exists []. simpl. split_and!; [lia|done|lia]. }
  exists (take (Z.to_nat pad) (skb_tail skb)). rewrite length_take. split; [lia|].
  unfold skb_put, flen. rewrite (proj2 (in_range_true _ _ _)) by lia. simpl.
  rewrite length_take, Nat.min_l by lia. rewrite Z2Nat.id by lia. split; [done|lia].
Qed.

Lemma skb_push_spec skb bytes : flen bytes ≤ skb_headroom skb →
  skb_push skb bytes =
  Done (set_buffer (take (length (skb_head skb) - length bytes) (skb_head skb))
          (bytes ++ skb_data skb) (skb_tail skb) skb).
Proof. intros. unfold skb_push, flen in *. by rewrite (proj2 (Z.leb_le _ _)). Qed.

(** The packet becomes a frame; the fields other than the buffer stay. *)
Lemma qmap_encap_frame v mux skb : is_version v → 8 ≤ skb_headroom skb → ∃ pad skb',
  qmap_encap v mux skb = Done (Some skb') ∧ (length pad < 4)%nat ∧
  skb_data skb' = frame_bytes v mux (Frame (skb_data skb) pad) ∧
  skb_protocol skb' = skb_protocol skb ∧ skb_destr skb' = skb_destr skb ∧
  (length (skb_data skb' ++ skb_tail skb') =
   header_size v + length (skb_data skb ++ skb_tail skb))%nat.
Proof.
  intros Hv Hh. destruct (add_padding_spec skb) as (pad & Hl & E & Ht).
  exists pad. unfold qmap_encap, add_qhdr, add_qhdr_v5, frame_bytes, frame_header, header_size.
  destruct Hv as [-> | ->]; simpl; rewrite E; simpl;
    rewrite skb_push_spec by (unfold skb_headroom, flen in *; simpl; lia); simpl;
    eexists; (split_and!; [done|done|done|done|done|]); simpl;
    rewrite ?length_app; simpl; rewrite ?length_app, ?length_drop; lia.
Qed.

(** ** Reading *)

Lemma skb_byte_at skb off b :
  0 ≤ off → (skb_data skb ++ skb_tail skb) !! Z.to_nat off = Some b → skb_byte skb off = Done b.
Proof.
  intros Ho Hb. apply lookup_lt_Some in Hb as Hl. unfold skb_byte, get8.
  rewrite get_bytes_Done by lia. rewrite outcome_bind_Done.
  rewrite (drop_S _ _ _ Hb). simpl. by rewrite Z.mul_0_r, Z.add_0_r.
Qed.

Lemma be16_u8 n : 0 ≤ n < 65536 → 256 * u8 (n / 256) + u8 n = n.
Proof.
  intros. unfold u8. change (2 ^ 8) with 256. rewrite (Z.mod_small (n / 256)).
  - pose proof (Z.div_mod n 256). lia.
  - split; [apply Z.div_pos; lia|apply Z.div_lt_upper_bound; lia].
Qed.

(** The header of a frame that is written without wrap-around. *)
Lemma read_frame_header v mux f rest skb :
  is_version v → (length (f_padding f) < 4)%nat → flen (f_payload f ++ f_padding f) < 65536 →
  skb_data skb = frame_bytes v mux f ++ rest →
  read_map_header skb = Done (MapHeader (flen (f_padding f)) (v =? 9) false (u8 mux)
                                (flen (f_payload f ++ f_padding f))).
Proof.
  intros Hv Hp Hn Hd. unfold read_map_header, skb_be16.
  assert (Hb : ∀ k b, 0 ≤ k < 4 →
    frame_header v mux (flen (f_padding f)) (flen (f_payload f ++ f_padding f)) !! Z.to_nat k
      = Some b → skb_byte skb k = Done b).
  { intros k b Hk E. apply skb_byte_at; [lia|]. rewrite Hd. unfold frame_bytes.
    rewrite <- !app_assoc. rewrite lookup_app_l; [done|].
    rewrite length_frame_header. unfold header_size. destruct (v =? 9); lia. }
  pose proof (λ b, Hb 0 b ltac:(lia)) as H0. pose proof (λ b, Hb 1 b ltac:(lia)) as H1.
  pose proof (λ b, Hb 2 b ltac:(lia)) as H2. pose proof (λ b, Hb 3 b ltac:(lia)) as H3. clear Hb.
  set (p := flen (f_padding f)) in *. set (n := flen (f_payload f ++ f_padding f)) in *.
  assert (0 ≤ n) by (unfold n, flen; lia).
  assert (p = 0 ∨ p = 1 ∨ p = 2 ∨ p = 3) as Hp4 by (unfold p, flen; lia).
  change (2 + 1) with 3.
  destruct Hv as [-> | ->]; unfold frame_header in *;
    rewrite (H0 _ eq_refl), (H1 _ eq_refl), (H2 _ eq_refl), (H3 _ eq_refl), !outcome_bind_Done,
      be16_u8 by lia;
    destruct Hp4 as [-> | [-> | [-> | ->]]]; reflexivity.
Qed.

(** ** A turn of the receiver *)

(** The channels' devices are registered, and memory is not short. *)
Record multiplexed (s : gobi) : Prop := {
  mx_mode : 1 < mode s ≤ 4;
  mx_slots : length (mpQmapNetDev s) = 4%nat;
  mx_slot i : 0 ≤ i < mode s → mpQmapNetDev s !! Z.to_nat i = Some (Some (Qmap_net i));
  mx_net i : 0 ≤ i < mode s → ∃ q, qmap_nets s !! i = Some q ∧
    length (dev_addr (q_dev q)) = 6%nat ∧ length (mHostMAC (priv_bridge (q_priv q))) = 6%nat;
  mx_allocs : allocs (genv s) = [];
}.

(** A frame of a version for a channel. *)
Record packet := Packet { pk_version : Z; pk_chan : Z; pk_frame : frame }.

Definition packet_bytes (p : packet) : list Z :=
  frame_bytes (pk_version p) (QUECTEL_QMAP_MUX_ID + pk_chan p) (pk_frame p).

Definition protocol_of (payload : list Z) : option Z := b ← head payload; ip_protocol b.

(** A packet a receiver in [mode] channels takes: IPv4 or IPv6, at most 1500 bytes. *)
Record receivable (channels : Z) (p : packet) : Prop := {
  rc_version : is_version (pk_version p);
  rc_chan : 0 ≤ pk_chan p < channels;
  rc_protocol : is_Some (protocol_of (f_payload (pk_frame p)));
  rc_length : flen (f_payload (pk_frame p)) ≤ 1500;
  rc_padding : (length (f_padding (pk_frame p)) < 4)%nat;
}.

(** What is queued for a packet: on an Ethernet device behind a header. *)
Definition queued_for (s : gobi) (p : packet) (skb : sk_buff) : Prop :=
  skb_dev skb = Qmap_net (pk_chan p) ∧
  Some (skb_protocol skb) = protocol_of (f_payload (pk_frame p)) ∧
  ∃ q hdr, qmap_nets s !! pk_chan p = Some q ∧
    length hdr = (if dev_ether (q_dev q) then 14 else 0)%nat ∧
    skb_data skb = hdr ++ f_payload (pk_frame p).

Lemma slot_at s i n : 0 ≤ i < flen (mpQmapNetDev s) → mpQmapNetDev s !! Z.to_nat i = Some n →
  slot i s = Done (n, s).
Proof.
  unfold flen. intros Hi E. unfold slot. apply runs_done. apply runs_bind, runs_get.
  apply runs_bind, runs_check; [done|]. rewrite E. by apply runs_ret.
Qed.

Lemma get_net_at s i q : qmap_nets s !! i = Some q → get_net i s = Done (q, s).
Proof. intros E. unfold get_net, mbind, stm_bind, get_state. simpl. by rewrite E. Qed.

Lemma get_dev_at s i q : qmap_nets s !! i = Some q → get_dev (Qmap_net i) s = Done (q_dev q, s).
Proof.
  intros E. apply runs_done, runs_bind. eapply runs_exact; [by apply get_net_at|].
  by apply runs_ret.
Qed.
Lemma get_priv_at s i q : qmap_nets s !! i = Some q → get_priv i s = Done (q_priv q, s).
Proof.
  intros E. apply runs_done, runs_bind. eapply runs_exact; [by apply get_net_at|].
  by apply runs_ret.
Qed.

Lemma length_junk e n : length (fresh e n) = n.
Proof. unfold fresh. by rewrite length_map, length_seq. Qed.

Lemma netdev_alloc_done n size s : allocs (genv s) = [] →
  netdev_alloc_skb n size s =
    Done (Some (Skb (fresh (genv s) NET_SKB_PAD) [] (fresh (genv s) (Z.to_nat size + slack (genv s)))
            0 n No_destructor false), s).
Proof.
  intros E. unfold netdev_alloc_skb, net_alloc, mbind, stm_bind, get_state. simpl. by rewrite E.
Qed.

Lemma copy_packet_done n skb s pre bytes rest size : allocs (genv s) = [] →
  skb_data skb = pre ++ bytes ++ rest → size = flen bytes →
  ∃ t, copy_packet n skb (flen pre) size s =
    Done (Some (Skb (fresh (genv s) NET_SKB_PAD) bytes t 0 n No_destructor false), s).
Proof.
  intros Ha Hd ->. eexists. apply runs_done. unfold copy_packet.
  apply runs_bind. eapply runs_exact; [by apply netdev_alloc_done|]. cbv beta iota.
  unfold flen. rewrite (proj2 (Z.ltb_ge _ _)) by lia.
  apply runs_bind. eapply runs_lift.
  { unfold skb_bytes. rewrite Hd, <- !app_assoc. by apply get_bytes_app_mid. }
  apply runs_bind. eapply runs_lift; [|by apply runs_ret].
  unfold skb_put_data. rewrite (proj2 (in_range_true _ _ _)); [done|].
  simpl. rewrite length_junk. lia.
Qed.

(** The header that is pushed, whatever bridge mode puts in. *)
Lemma rx_push_eth_done s i q protocol skb : 1 < mode s → qmap_nets s !! i = Some q →
  length (dev_addr (q_dev q)) = 6%nat → length (mHostMAC (priv_bridge (q_priv q))) = 6%nat →
  14 ≤ skb_headroom skb → ∃ hdr skb',
  rx_push_eth (Qmap_net i) protocol skb s = Done (skb', s) ∧
  length hdr = (if dev_ether (q_dev q) then 14 else 0)%nat ∧ skb_data skb' = hdr ++ skb_data skb ∧
  skb_protocol skb' = skb_protocol skb ∧ skb_dev skb' = skb_dev skb.
Proof.
  intros Hm Hq Ha Hb Hh. unfold rx_push_eth, mbind, stm_bind. rewrite (get_dev_at _ _ _ Hq).
  cbn beta iota delta [mbind outcome_bind].
  destruct (dev_ether (q_dev q)); cbn [negb]; [|by exists [], skb].
  unfold lift, push_eth. rewrite skb_push_spec.
  2:{ unfold flen. rewrite !length_app, Ha. simpl. lia. }
  cbn beta iota delta [mbind outcome_bind]. unfold bridge_mode_rx_fixup, mbind, stm_bind, get_state.
  cbn beta iota delta [mbind outcome_bind]. rewrite (proj2 (Z.ltb_lt _ _) Hm), (get_priv_at _ _ _ Hq).
  cbn beta iota delta [mbind outcome_bind mret stm_ret]. rewrite (get_dev_at _ _ _ Hq).
  cbn beta iota delta [mbind outcome_bind]. unfold lift, set_h_dest.
  set (mac := if negb _ then _ else _).
  assert (length mac = 6%nat) as Hmac by (unfold mac; by case_match).
  exists (mac ++ default_modem_addr ++ be16_bytes protocol). eexists. split_and!.
  - simpl skb_data. rewrite put_bytes_Done by (rewrite ?length_app; lia). reflexivity.
  - by rewrite !length_app, Hmac.
  - simpl. rewrite Hmac, <- Ha, <- !app_assoc. by rewrite drop_app_length.
  - done.
  - done.
Qed.

Lemma length_packet p :
  length (packet_bytes p) =
  (header_size (pk_version p) + length (f_payload (pk_frame p) ++ f_padding (pk_frame p)))%nat.
Proof. apply length_frame. Qed.

Lemma header_size_version v b c m l : is_version v →
  hdr_size (MapHeader b (v =? 9) c m l) = Z.of_nat (header_size v).
Proof. by intros [-> | ->]. Qed.

Lemma mux_u8 i : 0 ≤ i < 4 → u8 (QUECTEL_QMAP_MUX_ID + i) - QUECTEL_QMAP_MUX_ID = i.
Proof. intros. unfold QUECTEL_QMAP_MUX_ID. rewrite u8_small by lia. lia. Qed.

Lemma stm_bind_done {S A B} (m : stm S A) (f : A → stm S B) s a s' :
  m s = Done (a, s') → (m ≫= f) s = f a s'.
Proof. intros E. unfold mbind, stm_bind. by rewrite E. Qed.

Lemma stm_bind_fault {S A B} (m : stm S A) (f : A → stm S B) s :
  m s = OutOfBounds → (m ≫= f) s = OutOfBounds.
Proof. intros E. unfold mbind, stm_bind. by rewrite E. Qed.

(** The first command of the code is done. *)
Ltac bind_done := etransitivity; [eapply stm_bind_done|cbv beta].

(** The slot of channel [i] holds its device. *)
Definition has_slot (s : gobi) (i : Z) : Prop :=
  length (mpQmapNetDev s) = 4%nat ∧ mpQmapNetDev s !! Z.to_nat i = Some (Some (Qmap_net i)).

(** A turn at a frame, up to the Ethernet header of its packet. *)
Lemma rx_frame_copied s p skb rest : mode s ≤ 4 → has_slot s (pk_chan p) → allocs (genv s) = [] →
  receivable (mode s) p → skb_data skb = packet_bytes p ++ rest →
  ∃ proto t skb', protocol_of (f_payload (pk_frame p)) = Some proto ∧ skb_data skb' = rest ∧
  rx_frame 0 skb s =
    (qmap_skb ← rx_push_eth (Qmap_net (pk_chan p)) proto
       (Skb (fresh (genv s) NET_SKB_PAD) (f_payload (pk_frame p)) t proto (Qmap_net (pk_chan p))
          No_destructor false);
     mret (Next (Some qmap_skb) skb')) s.
Proof.
  intros Hm4 [Hsl Hslot] Hal [Hv Hc [proto Hp] Hl Hpad] Hd.
  destruct p as [v i [payload pad]]; simpl in *. unfold flen in *.
  set (n := Z.of_nat (length payload + length pad) + Z.of_nat (header_size v)).
  assert (Z.to_nat n = length (packet_bytes (Packet v i (Frame payload pad)))) as Hn.
  { rewrite length_packet. simpl. rewrite length_app. unfold n. lia. }
  destruct payload as [|b payload]; [done|]. change (ip_protocol b = Some proto) in Hp.
  destruct (copy_packet_done (Qmap_net i) skb s
    (frame_header v (QUECTEL_QMAP_MUX_ID + i) (flen pad) (flen ((b :: payload) ++ pad)))
    (b :: payload) (pad ++ rest) (Z.of_nat (length (b :: payload)))) as (t & Hcopy).
  { done. }
  { rewrite Hd. unfold packet_bytes, frame_bytes. cbn [pk_version pk_chan pk_frame f_payload f_padding].
    by rewrite <- !app_assoc. }
  { done. }
  unfold flen in Hcopy at 1. rewrite length_frame_header in Hcopy.
  exists proto, t, (set_buffer (skb_head skb ++ take (Z.to_nat n) (skb_data skb))
    (drop (Z.to_nat n) (skb_data skb)) (skb_tail skb) skb).
  split; [done|]. split; [cbn [skb_data set_buffer]; by rewrite Hn, Hd, drop_app_length|].
  unfold rx_frame. bind_done.
  { unfold lift. rewrite (read_frame_header v (QUECTEL_QMAP_MUX_ID + i) (Frame (b :: payload) pad) rest);
      [done|done|done| |done]. unfold flen; cbn [f_payload f_padding]. rewrite length_app. lia. }
  cbn [f_payload f_padding hdr_pkt_len pad_len cd_bit hdr_mux_id].
  rewrite header_size_version by done. unfold flen. rewrite length_app.
  replace (Z.of_nat (length (b :: payload) + length pad) - Z.of_nat (length pad) - 0)
    with (Z.of_nat (length (b :: payload))) by lia.
  rewrite s32_small by lia. rewrite (proj2 (Z.ltb_ge _ _)) by lia.
  fold n. unfold skb_pull. rewrite (proj2 (andb_true_iff _ _)).
  2:{ unfold len. rewrite Hd, length_app, <- Hn, Z.leb_le, Z.leb_le. unfold n. lia. }
  bind_done.
  { unfold lift. rewrite (skb_byte_at _ _ b); [done|lia|]. rewrite Hd.
    unfold packet_bytes, frame_bytes. cbn [pk_version pk_chan pk_frame f_payload f_padding].
    rewrite Nat2Z.id, <- !app_assoc, lookup_app_r; rewrite length_frame_header; [|lia].
    by rewrite Nat.sub_diag. }
  rewrite Hp. bind_done; [reflexivity|]. rewrite mux_u8 by lia.
  rewrite (proj2 (Z.leb_gt _ _)) by lia. bind_done.
  { apply slot_at; [|exact Hslot]. unfold flen. rewrite Hsl. lia. }
  bind_done; [exact Hcopy|]. done.
Qed.

(** A turn at a frame: it is taken off and its packet queued. *)
Lemma rx_frame_packet s p skb rest : multiplexed s → receivable (mode s) p →
  skb_data skb = packet_bytes p ++ rest →
  runs (rx_frame 0 skb) s (λ r s', s' = s ∧ ∃ qmap_skb skb',
    r = Next (Some qmap_skb) skb' ∧ queued_for s p qmap_skb ∧ skb_data skb' = rest).
Proof.
  intros M Hp Hd. destruct (mx_mode s M) as [Hm1 Hm4]. pose proof (rc_chan _ _ Hp) as Hc.
  destruct (mx_net s M _ Hc) as (q & Hq & Ha & Hmac).
  destruct (rx_frame_copied s p skb rest) as (proto & t & skb' & Hproto & Hrest & E);
    [done|by split; [apply (mx_slots s M)|apply (mx_slot s M)]|apply (mx_allocs s M)|done..|].
  unfold runs. rewrite E. clear E.
  match goal with |- context [rx_push_eth _ _ ?skb] =>
    destruct (rx_push_eth_done s (pk_chan p) q proto skb) as (hdr & skb1 & E & Hh & Hs & Hpr & Hdev) end;
    [done..| |].
  { unfold skb_headroom. cbn [skb_head]. rewrite length_junk. unfold NET_SKB_PAD. lia. }
  eexists _, _. split; [bind_done; [exact E|reflexivity]|]. split; [done|].
  exists skb1, skb'. split; [done|]. split; [|done].
  unfold queued_for. rewrite Hdev, Hpr. cbn [skb_dev skb_protocol]. split; [done|].
  split; [by rewrite Hproto|]. by exists q, hdr.
Qed.

(** The loop: the packets of the data, in order. *)
Lemma rx_frames_packets s ps skb fuel : multiplexed s → Forall (receivable (mode s)) ps →
  skb_data skb = concat (map packet_bytes ps) → (length (skb_data skb) ≤ fuel)%nat →
  runs (rx_frames fuel 0 skb) s (λ chain s', s' = s ∧ Forall2 (queued_for s) ps chain).
Proof.
  intros M. revert skb fuel. induction ps as [|p ps IH]; intros skb fuel Hps Hd Hf.
  - assert (len skb = 0) as Hlen by (unfold len; by rewrite Hd).
    destruct fuel; simpl; rewrite Hlen; simpl; by apply runs_ret.
  - inversion_clear Hps as [|?? Hp Hps']. simpl in Hd. rewrite Hd, length_app in Hf.
    assert (4 < length (packet_bytes p))%nat as Hlen.
    { rewrite length_packet, length_app. destruct Hp as [_ _ [proto Hpr] _ _].
      unfold protocol_of in Hpr. unfold header_size.
      destruct (f_payload (pk_frame p)); [done|]. simpl. destruct (pk_version p =? 9); lia. }
    destruct fuel as [|fuel]; [lia|]. simpl rx_frames.
    rewrite (proj2 (Z.leb_gt _ _)).
    2:{ unfold len, QMAP_HDR. rewrite Hd, length_app. lia. }
    apply runs_bind. eapply runs_mono; [by eapply rx_frame_packet|].
    intros r s' (-> & qskb & skb' & -> & Hq & Hd').
    apply runs_bind. eapply runs_mono; [eapply (IH skb'); [done|done|rewrite Hd'; lia]|].
    intros chain s' (-> & Hc). apply runs_ret. split; [done|]. by constructor.
Qed.
