(* ===== verification/GobiRx.v ===== *)
(** * The receiver of the GobiNet data path

    A buffer of frames is delivered packet by packet to the devices of their
    channels; the receiver comes to an end on every buffer; the channel it reads
    from a header, and the padding it subtracts, are not checked enough. *)

From S2P Require Import Prelude Kernel GobiQmi.
From stdpp Require Import gmap.
Import Qmi.
From S2P Require Import QmiDev QmiClient GobiSkb GobiNet GobiDrv GobiFrames.

#[local] Open Scope Z_scope.
#[local] Open Scope c_scope.

(** ** What the network stack receives *)

Definition received_skb (o : net_out) : option (netid * Z * list Z) :=
  match o with
  | Netif_rx skb | Usbnet_skb_return skb => Some (skb_dev skb, skb_protocol skb, skb_data skb)
  | _ => None
  end.
Definition received (s : gobi) : list (netid * Z * list Z) := omap received_skb (rev (gtrace s)).

Definition delivery (p : packet) : netid * Z * list Z :=
  (Qmap_net (pk_chan p), default 0 (protocol_of (f_payload (pk_frame p))),
   f_payload (pk_frame p)).

(** Only the receive counters and the trace change. *)
Definition uncounted (q : qmap_net) : qmap_net :=
  let d := q_dev q in
  QNet (NetDev (dev_ether d) (dev_addr d) (hard_header_len d) (queue_stopped d) (if_up d) 0 0
          (tx_packets d) (tx_bytes d) (tx_errors d)) (q_carrier q) (q_priv q).
Definition counts_only (s s' : gobi) : Prop :=
  ∃ nets t, s' = set_gtrace t (set_nets nets s) ∧
    ∀ i, uncounted <$> nets !! i = uncounted <$> qmap_nets s !! i.

Lemma counts_only_refl s : counts_only s s.
Proof. exists (qmap_nets s), (gtrace s). by destruct s. Qed.

Lemma counts_only_trans s1 s2 s3 : counts_only s1 s2 → counts_only s2 s3 → counts_only s1 s3.
Proof.
  intros (n2 & t2 & -> & H2) (n3 & t3 & -> & H3). exists n3, t3. split; [done|].
  intros i. rewrite H3. simpl. apply H2.
Qed.

Lemma counts_only_net s s' i q : counts_only s s' → qmap_nets s !! i = Some q →
  ∃ q', qmap_nets s' !! i = Some q' ∧ dev_ether (q_dev q') = dev_ether (q_dev q) ∧
    dev_addr (q_dev q') = dev_addr (q_dev q) ∧ q_priv q' = q_priv q.
Proof.
  intros (nets & t & -> & H) E. specialize (H i). rewrite E in H. simpl.
  destruct (nets !! i) as [q'|]; [|done]. exists q'. injection H as H. by destruct q, q'; simplify_eq/=.
Qed.

Lemma counts_only_queued s s' p skb : counts_only s s' → queued_for s p skb → queued_for s' p skb.
Proof.
  intros C (Hd & Hp & q & hdr & Hq & Hl & E).
  destruct (counts_only_net _ _ _ _ C Hq) as (q' & Hq' & He & _).
  split; [done|]. split; [done|]. exists q', hdr. by rewrite He.
Qed.

Lemma counts_only_multiplexed s s' : counts_only s s' → multiplexed s → multiplexed s'.
Proof.
  intros C M. pose proof C as (nets & t & E & _).
  assert (mode s' = mode s) as Hm by by rewrite E.
  assert (mpQmapNetDev s' = mpQmapNetDev s) as Hs by by rewrite E.
  split; rewrite ?Hm, ?Hs; try apply M.
  - intros i Hi. destruct (mx_net s M i Hi) as (q & Hq & Ha & Hb).
    destruct (counts_only_net _ _ _ _ C Hq) as (q' & Hq' & _ & Ha' & Hp').
    exists q'. by rewrite Ha', Hp'.
  - rewrite E. apply (mx_allocs s M).
Qed.

(** ** Delivery *)

Lemma rx_deliver_packet s p skb : queued_for s p skb →
  runs (rx_deliver skb) s (λ _ s', counts_only s s' ∧ received s' = received s ++ [delivery p]).
Proof.
  intros (Hdev & Hproto & q & hdr & Hq & Hl & Hd). unfold rx_deliver. rewrite Hdev.
  apply runs_bind. eapply runs_exact; [by apply get_dev_at|]. cbv beta.
  set (skb' := if dev_ether (q_dev q) then _ else _).
  assert (skb_dev skb' = Qmap_net (pk_chan p) ∧ skb_protocol skb' = skb_protocol skb ∧
          skb_data skb' = f_payload (pk_frame p)) as (Hdev' & Hproto' & Hd').
  { unfold skb'. revert Hl. destruct (dev_ether (q_dev q)); intros Hl.
    - unfold skb_pull. rewrite (proj2 (andb_true_iff _ _)).
      2:{ unfold len, ETH_HLEN. rewrite Hd, length_app, Hl, Z.leb_le, Z.leb_le. lia. }
      change (Z.to_nat ETH_HLEN) with 14%nat.
      split_and!; [done..|]. cbn [default from_option id skb_data set_buffer].
      by rewrite Hd, <- Hl, drop_app_length.
    - destruct hdr; [|done]. by rewrite Hd. }
  unfold rmnet_vnd_update_rx_stats, upd_dev. apply runs_bind, runs_bind.
  eapply runs_exact; [by apply get_net_at|]. apply runs_modify, runs_modify. split.
  - eexists _, _. split; [reflexivity|]. intros i. simpl.
    destruct (decide (i = pk_chan p)) as [->|Hi]; [|by rewrite lookup_insert_ne].
    by rewrite lookup_insert_eq, Hq.
  - unfold received. simpl. rewrite omap_app. simpl. unfold delivery.
    by rewrite Hdev', Hproto', Hd', <- Hproto.
Qed.

Lemma rx_deliver_all_packets ps chain s : Forall2 (queued_for s) ps chain →
  runs (rx_deliver_all chain) s
    (λ _ s', counts_only s s' ∧ received s' = received s ++ map delivery ps).
Proof.
  revert chain s. induction ps as [|p ps IH]; intros chain s H; inversion H as [|? skb ? chain' Hp Hps]; subst.
  - apply runs_ret. split; [apply counts_only_refl|]. by rewrite app_nil_r.
  - simpl. apply runs_bind. eapply runs_mono; [by apply rx_deliver_packet|].
    intros _ s1 (C1 & E1). eapply runs_mono.
    { apply IH. eapply Forall2_impl; [exact Hps|]. intros. by eapply counts_only_queued. }
    intros _ s2 (C2 & E2). split; [by eapply counts_only_trans|]. by rewrite E2, E1, <- app_assoc.
Qed.

(** The receiver on a buffer of frames. *)
Lemma rx_handler_packets s ps skb : multiplexed s → rx_minimum_padding s = 0 →
  Forall (receivable (mode s)) ps → skb_data skb = concat (map packet_bytes ps) →
  runs (_rmnet_usb_rx_handler skb) s
    (λ _ s', counts_only s s' ∧ received s' = received s ++ map delivery ps).
Proof.
  intros M Hm Hps Hd. unfold _rmnet_usb_rx_handler. apply runs_bind, runs_get. rewrite Hm.
  apply runs_bind. eapply runs_mono; [by eapply rx_frames_packets|].
  intros chain s' [-> Hc]. by apply rx_deliver_all_packets.
Qed.

(** ** Every buffer comes to an end

    [finishes m s Φ]: [m] does not run for ever, and if it stays inside memory its
    result satisfies [Φ]. *)

Definition finishes {S A} (m : stm S A) (s : S) (Φ : A → S → Prop) : Prop :=
  match m s with Done (a, s') => Φ a s' | OutOfBounds => True | OutOfFuel => False end.

Section Finishes.
Context {S : Type}.
Implicit Types s : S.

Lemma finishes_ret {A} (a : A) s (Φ : A → S → Prop) : Φ a s → finishes (mret a) s Φ.
Proof. done. Qed.
Lemma finishes_get s (Φ : S → S → Prop) : Φ s s → finishes get_state s Φ.
Proof. done. Qed.
Lemma finishes_modify f s (Φ : () → S → Prop) : Φ () (f s) → finishes (modify f) s Φ.
Proof. done. Qed.
Lemma finishes_fault {A} s (Φ : A → S → Prop) : finishes fault s Φ.
Proof. done. Qed.
Lemma finishes_mono {A} (m : stm S A) s (Φ Ψ : A → S → Prop) :
  finishes m s Φ → (∀ a s', Φ a s' → Ψ a s') → finishes m s Ψ.
Proof. unfold finishes. destruct (m s) as [[a s']| |]; auto. Qed.
Lemma finishes_bind {A B} (m : stm S A) (f : A → stm S B) s Φ :
  finishes m s (λ a s', finishes (f a) s' Φ) → finishes (m ≫= f) s Φ.
Proof. unfold finishes, mbind, stm_bind. by destruct (m s) as [[a s']| |]. Qed.
Lemma finishes_lift {A} (o : outcome A) s (Φ : A → S → Prop) :
  o ≠ OutOfFuel → (∀ a, o = Done a → Φ a s) → finishes (lift o) s Φ.
Proof. unfold finishes, lift. destruct o; cbn; auto. Qed.
Lemma finishes_if {A} (b : bool) (m n : stm S A) s (Φ : A → S → Prop) :
  finishes m s Φ → finishes n s Φ → finishes (if b then m else n) s Φ.
Proof. by destruct b. Qed.
End Finishes.

(** Any result will do. *)
Definition finished {S A} (m : stm S A) : Prop := ∀ s, finishes m s (λ _ _, True).

Lemma finished_bind {S A B} (m : stm S A) (f : A → stm S B) :
  finished m → (∀ a, finished (f a)) → finished (m ≫= f).
Proof. intros Hm Hf s. apply finishes_bind. eapply finishes_mono; [apply Hm|]. intros. apply Hf. Qed.
Lemma finished_ret {S A} (a : A) : finished (mret a : stm S A).
Proof. by intros s. Qed.
Lemma finished_get {S} : finished (get_state : stm S S).
Proof. by intros s. Qed.
Lemma finished_modify {S} (f : S → S) : finished (modify f).
Proof. by intros s. Qed.
Lemma finished_fault {S A} : finished (fault : stm S A).
Proof. by intros s. Qed.
Lemma finished_lift {S A} (o : outcome A) : o ≠ OutOfFuel → finished (lift o : stm S A).
Proof. intros H s. by apply finishes_lift. Qed.

Create HintDb finished discriminated.
#[export] Hint Resolve finished_ret finished_get finished_modify finished_fault finished_lift : finished.
#[export] Hint Resolve get8_ends get_bytes_ends put_bytes_ends : finished.

(** Follow the code: a bind, a test, a match. *)
Ltac finish_all :=
  repeat first
    [ apply finished_bind; [|intros]
    | progress auto with finished
    | match goal with |- finished (match ?x with _ => _ end) => destruct x end ].

Lemma skb_byte_ends skb off : skb_byte skb off ≠ OutOfFuel.
Proof. apply get8_ends. Qed.
Lemma skb_push_ends skb l : skb_push skb l ≠ OutOfFuel.
Proof. unfold skb_push. by case_match. Qed.
Lemma skb_put_data_ends skb l : skb_put_data skb l ≠ OutOfFuel.
Proof. unfold skb_put_data. by case_match. Qed.
Lemma set_h_dest_ends l skb : set_h_dest l skb ≠ OutOfFuel.
Proof.
  unfold set_h_dest. destruct (put_bytes _ _ _) eqn:E; try done. by apply put_bytes_ends in E.
Qed.
#[export] Hint Resolve skb_byte_ends skb_push_ends skb_put_data_ends set_h_dest_ends : finished.

Lemma finished_get_net i : finished (get_net i).
Proof. unfold get_net. finish_all. Qed.
Lemma finished_put_net i q : finished (put_net i q).
Proof. by intros s. Qed.
#[export] Hint Resolve finished_get_net finished_put_net : finished.
Lemma finished_get_dev n : finished (get_dev n).
Proof. destruct n; unfold get_dev; finish_all. Qed.
Lemma finished_get_priv i : finished (get_priv i).
Proof. unfold get_priv. finish_all. Qed.
Lemma finished_upd_dev n f : finished (upd_dev n f).
Proof. destruct n; unfold upd_dev; finish_all. Qed.
Lemma finished_slot i : finished (slot i).
Proof. unfold slot, check_index. finish_all. Qed.
Lemma finished_netdev_alloc_skb n size : finished (netdev_alloc_skb n size).
Proof. unfold netdev_alloc_skb, net_alloc. finish_all. Qed.
#[export] Hint Resolve finished_get_dev finished_get_priv finished_upd_dev finished_slot
  finished_netdev_alloc_skb : finished.

Lemma finished_copy_packet n skb off size : finished (copy_packet n skb off size).
Proof. unfold copy_packet, skb_bytes. finish_all. Qed.
Lemma finished_rx_push_eth n protocol skb : finished (rx_push_eth n protocol skb).
Proof. unfold rx_push_eth, push_eth, bridge_mode_rx_fixup. finish_all. Qed.
Lemma finished_rx_deliver skb : finished (rx_deliver skb).
Proof. unfold rx_deliver, rmnet_vnd_update_rx_stats, emit. finish_all. Qed.
#[export] Hint Resolve finished_copy_packet finished_rx_push_eth finished_rx_deliver : finished.
Lemma finished_rx_deliver_all chain : finished (rx_deliver_all chain).
Proof. induction chain; simpl; finish_all. Qed.

(** *** The loop *)

Definition buffer_ok (skb : sk_buff) : Prop := bytes_ok (skb_data skb ++ skb_tail skb).

Lemma skb_byte_range skb off b : buffer_ok skb → skb_byte skb off = Done b → 0 ≤ b < 256.
Proof.
  intros Hok. unfold skb_byte, get8, get_bytes. case_match; [|done]. simpl. intros [= <-].
  set (l := take _ _). assert (bytes_ok l) as Hl by (apply bytes_ok_take, bytes_ok_drop, Hok).
  assert (length l ≤ 1)%nat by (unfold l; rewrite length_take; lia).
  destruct l as [|x [|? ?]]; simpl in *; [lia| |lia]. apply Forall_cons in Hl as [? _]. lia.
Qed.

Lemma skb_be16_range skb off v : buffer_ok skb → skb_be16 skb off = Done v → 0 ≤ v.
Proof.
  intros Hok. unfold skb_be16. destruct (skb_byte skb off) as [hi| |] eqn:E1; [|done..].
  simpl. destruct (skb_byte skb (off + 1)) as [lo| |] eqn:E2; [|done..]. intros [= <-].
  apply skb_byte_range in E1, E2; [lia|done..].
Qed.

Lemma outcome_bind_ends {A B} (m : outcome A) (f : A → outcome B) :
  m ≠ OutOfFuel → (∀ a, f a ≠ OutOfFuel) → m ≫= f ≠ OutOfFuel.
Proof. destruct m; simpl; auto. Qed.

Lemma read_map_header_ends skb : read_map_header skb ≠ OutOfFuel.
Proof.
  unfold read_map_header, skb_be16.
  repeat (apply outcome_bind_ends; [|intros]); done || auto with finished.
Qed.

Lemma read_map_header_len skb h : buffer_ok skb → read_map_header skb = Done h → 0 ≤ hdr_pkt_len h.
Proof.
  intros Hok H. unfold read_map_header in H. apply outcome_bind_inv in H as (b & _ & H).
  apply outcome_bind_inv in H as (m & _ & H). apply outcome_bind_inv in H as (l & El & H).
  injection H as <-. simpl. by eapply skb_be16_range.
Qed.

Lemma skb_pull_rest skb n rest : skb_pull skb n = Some rest → buffer_ok skb →
  buffer_ok rest ∧ n + len rest = len skb.
Proof.
  unfold skb_pull. intros E Hok. case_match eqn:Hn; [|done]. injection E as <-. bool_to_prop.
  unfold buffer_ok, len in *. simpl. apply bytes_ok_app in Hok as [Hd Ht].
  split; [auto with buf|]. rewrite length_drop. lia.
Qed.

(** A turn takes at least a header off. *)
Lemma rx_frame_finishes pad skb s : buffer_ok skb →
  finishes (rx_frame pad skb) s (λ r _,
    match r with Error_pkt => True | Next _ rest => buffer_ok rest ∧ 4 + len rest ≤ len skb end).
Proof.
  intros Hok. unfold rx_frame. apply finishes_bind, finishes_lift; [apply read_map_header_ends|].
  intros h Hh. apply read_map_header_len in Hh; [|done]. apply finishes_if; [done|].
  destruct (skb_pull skb _) as [rest|] eqn:Hr; [|done].
  apply skb_pull_rest in Hr as [Hrest Hlen]; [|done].
  assert (buffer_ok rest ∧ 4 + len rest ≤ len skb).
  { split; [done|]. unfold hdr_size, QMAP_HDR, V5_CSUM_HEADER in Hlen. destruct (next_hdr h); lia. }
  apply finishes_if; [done|].
  apply finishes_bind, finishes_lift; [apply skb_byte_ends|]. intros first _.
  destruct (ip_protocol first); [|done]. apply finishes_bind, finishes_get. apply finishes_if; [done|].
  apply finishes_bind. eapply finishes_mono; [apply finished_slot|]. intros [n|] s1 _; [|done].
  apply finishes_bind. eapply finishes_mono; [apply finished_copy_packet|]. intros [q|] s2 _; [|done].
  apply finishes_bind. eapply finishes_mono; [apply finished_rx_push_eth|]. by intros.
Qed.

Lemma rx_frames_finishes fuel pad skb s : buffer_ok skb → (length (skb_data skb) ≤ fuel)%nat →
  finishes (rx_frames fuel pad skb) s (λ _ _, True).
Proof.
  revert skb s. induction fuel as [|fuel IH]; intros skb s Hok Hf; simpl.
  - replace (len skb <=? QMAP_HDR) with true; [done|]. unfold len, QMAP_HDR. lia.
  - apply finishes_if; [done|]. apply finishes_bind.
    eapply finishes_mono; [by apply rx_frame_finishes|].
    intros [|q rest] s1 H; [done|]. destruct H as [Hrest Hl]. unfold len in Hl.
    apply finishes_bind. eapply finishes_mono; [apply IH; [done|lia]|]. by intros.
Qed.
