(* ===== verification/GobiAgg.v ===== *)
(** * Aggregation on the channels of the GobiNet driver

    The aggregated packet of a channel holds whole frames in order.  A packet that
    is transmitted joins it, sends it, or goes out alone; what is sent are the
    frames in order, in groups within the limits the modem gave. *)

From S2P Require Import Prelude Kernel GobiQmi.
From stdpp Require Import gmap.
Import Qmi.
From S2P Require Import QmiDev QmiClient GobiSkb GobiNet GobiDrv GobiFrames.

#[local] Open Scope Z_scope.
#[local] Open Scope c_scope.

(** ** What is handed to the modem's device *)

Definition sent_skb (o : net_out) : option (list Z) :=
  match o with Dev_queue_xmit skb => Some (skb_data skb) | _ => None end.
Definition sent (s : gobi) : list (list Z) := omap sent_skb (rev (gtrace s)).

(** A step of channel [i]: its device becomes [q], [new] is sent. *)
Definition chan_step (i : Z) (s s' : gobi) (q : qmap_net) (new : list (list Z)) : Prop :=
  ∃ e t, s' = set_gtrace t (set_genv e (set_nets (<[i := q]> (qmap_nets s)) s)) ∧
    sent s' = sent s ++ new.

Lemma chan_step_net i s s' q new : chan_step i s s' q new → qmap_nets s' !! i = Some q.
Proof. intros (e & t & -> & _). apply lookup_insert_eq. Qed.

Lemma chan_step_trans i s1 s2 s3 q2 q3 new2 new3 :
  chan_step i s1 s2 q2 new2 → chan_step i s2 s3 q3 new3 → chan_step i s1 s3 q3 (new2 ++ new3).
Proof.
  intros (e2 & t2 & -> & H2) (e3 & t3 & -> & H3). exists e3, t3. split.
  - unfold set_gtrace, set_genv, set_nets. simpl. by rewrite insert_insert_eq.
  - by rewrite H3, H2, app_assoc.
Qed.

Lemma chan_step_here i s q : qmap_nets s !! i = Some q → chan_step i s s q [].
Proof.
  intros E. exists (genv s), (gtrace s). rewrite (insert_id _ _ _ E), app_nil_r. by destruct s.
Qed.

Lemma chan_step_put i s q q' : qmap_nets s !! i = Some q → chan_step i s (set_nets (<[i := q']> (qmap_nets s)) s) q' [].
Proof. intros E. exists (genv s), (gtrace s). rewrite app_nil_r. by destruct s. Qed.

Section Steps.
Context (i : Z).

Lemma put_priv_runs s q p (Φ : () → gobi → Prop) : qmap_nets s !! i = Some q →
  (∀ s', chan_step i s s' (QNet (q_dev q) (q_carrier q) p) [] → Φ () s') →
  runs (put_priv i p) s Φ.
Proof.
  intros E H. apply runs_bind. eapply runs_exact; [by apply get_net_at|].
  apply runs_modify, H. by eapply chan_step_put.
Qed.

Lemma ktime_runs s q (Φ : Z → gobi → Prop) : qmap_nets s !! i = Some q →
  (∀ t s', chan_step i s s' q [] → params s' = params s → Φ t s') → runs ktime_get_ts64 s Φ.
Proof.
  intros E H. apply runs_bind, runs_get. destruct (clock (genv s)) as [|t l].
  - apply runs_ret, H; [by apply chan_step_here|done].
  - apply runs_bind, runs_modify, runs_ret, H; [|done]. eexists _, (gtrace s).
    rewrite (insert_id _ _ _ E), app_nil_r. by split.
Qed.

Lemma alloc_skb_runs s q size (Φ : option sk_buff → gobi → Prop) : qmap_nets s !! i = Some q →
  (∀ s', chan_step i s s' q [] → Φ None s') →
  (∀ s' skb, chan_step i s s' q [] → skb_data skb = [] → size ≤ skb_tailroom skb →
     Φ (Some skb) s') →
  runs (alloc_skb size) s Φ.
Proof.
  intros E Hn Hs. apply runs_bind, runs_bind, runs_get.
  assert (∀ s', chan_step i s s' q [] → ∀ b : bool, runs
    (s0 ← get_state; mret (if b then
       Some (Skb [] [] (fresh (genv s0) (Z.to_nat size + slack (genv s0))) 0 Real_net
               No_destructor false) else None)) s' Φ) as H.
  { intros s' C b. apply runs_bind, runs_get, runs_ret. destruct b; [|by apply Hn].
    apply Hs; [done..|]. unfold skb_tailroom. simpl. rewrite length_junk. lia. }
  destruct (allocs (genv s)) as [|b l].
  - apply runs_ret. refine (H _ _ true). by apply chan_step_here.
  - apply runs_bind, runs_modify, runs_ret. refine (H _ _ b). eexists _, (gtrace s).
    rewrite (insert_id _ _ _ E), app_nil_r. by split.
Qed.

Lemma emit_runs s q o (Φ : () → gobi → Prop) : qmap_nets s !! i = Some q →
  (∀ s', chan_step i s s' q (option_list (sent_skb o)) → Φ () s') → runs (emit o) s Φ.
Proof.
  intros E H. apply runs_modify, H. eexists (genv s), _. split.
  - rewrite (insert_id _ _ _ E). by destruct s.
  - unfold sent. simpl. rewrite omap_app. by destruct o.
Qed.

Lemma net_result_runs s q (Φ : Z → gobi → Prop) : qmap_nets s !! i = Some q →
  (∀ r s', chan_step i s s' q [] → Φ r s') → runs net_result s Φ.
Proof.
  intros E H. apply runs_bind, runs_get. destruct (results (genv s)) as [|r l].
  - apply runs_ret, H. by apply chan_step_here.
  - apply runs_bind, runs_modify, runs_ret, H. eexists _, (gtrace s).
    rewrite (insert_id _ _ _ E), app_nil_r. by split.
Qed.

Lemma upd_dev_runs s q f (Φ : () → gobi → Prop) : qmap_nets s !! i = Some q →
  (∀ s', chan_step i s s' (QNet (f (q_dev q)) (q_carrier q) (q_priv q)) [] → Φ () s') →
  runs (upd_dev (Qmap_net i) f) s Φ.
Proof.
  intros E H. apply runs_bind. eapply runs_exact; [by apply get_net_at|].
  apply runs_modify, H. by eapply chan_step_put.
Qed.

(** The packet is sent, whatever the kernel answers. *)
Lemma xmit_real_runs s q skb (Φ : () → gobi → Prop) : qmap_nets s !! i = Some q →
  (∀ s' d, chan_step i s s' (QNet d (q_carrier q) (q_priv q)) [skb_data skb] →
     dev_ether d = dev_ether (q_dev q) ∧ queue_stopped d = queue_stopped (q_dev q) → Φ () s') →
  runs (xmit_real i skb) s Φ.
Proof.
  intros E H. apply runs_bind. unfold dev_queue_xmit. apply runs_bind.
  eapply emit_runs; [done|]. intros s1 C1.
  eapply net_result_runs; [by eapply chan_step_net|]. intros r s2 C2.
  pose proof (chan_step_trans _ _ _ _ _ _ _ _ C1 C2) as C. simpl in C.
  destruct (r =? NET_XMIT_SUCCESS); simpl.
  - apply runs_ret, (H _ (q_dev q)); [|done]. by destruct q.
  - eapply upd_dev_runs; [by eapply chan_step_net|]. intros s3 C3.
    apply (H _ (add_tx_error (q_dev q))); [|done].
    exact (chan_step_trans _ _ _ _ _ _ _ _ C C3).
Qed.
End Steps.

(** ** The aggregated packet *)

(** The channel's settings: version, mux id, size and number of frames. *)
Record settings := Settings { st_version : Z; st_mux : Z; st_size : Z; st_datagrams : Z }.

Section Channel.
Context (i : Z) (c : settings).

Definition fbytes : frame → list Z := frame_bytes (st_version c) (st_mux c).
Definition group_bytes (g : list frame) : list Z := concat (map fbytes g).

(** Frames that are sent together: one, or several within the limits. *)
Definition group_ok (g : list frame) : Prop :=
  g ≠ [] ∧ Z.of_nat (length g) ≤ Z.max 1 (st_datagrams c) ∧
  ((1 < length g)%nat → flen (group_bytes g) < st_size c).

(** [pend] waits in the aggregated packet, which has room up to the size. *)
Definition agg_data (p : qmap_priv) (pend : list frame) : Prop :=
  match agg_skb p with
  | None => pend = [] ∧ agg_count p = 0
  | Some a =>
    skb_data a = group_bytes pend ∧ agg_count p = Z.of_nat (length pend) ∧
    group_ok pend ∧ Z.of_nat (length pend) < st_datagrams c ∧
    len a ≤ st_size c ≤ len a + skb_tailroom a
  end.

Definition settings_of (p : qmap_priv) : settings :=
  Settings (priv_version p) (mux_id p) (ul_data_aggregation_max_size p)
    (ul_data_aggregation_max_datagrams p).

(** The device: Ethernet, not bridged, with the settings. *)
Definition chan_ok (q : qmap_net) (pend : list frame) : Prop :=
  dev_ether (q_dev q) = true ∧ settings_of (q_priv q) = c ∧
  m_bridge_mode (priv_bridge (q_priv q)) = 0 ∧ agg_data (q_priv q) pend.

(** What waits is going to be sent: the timer is queued, or the work scheduled. *)
Definition has_timer (p : qmap_priv) : Prop := agg_hrtimer p = true ∨ agg_wq p = true.
Definition flushes (q : qmap_net) (pend : list frame) : Prop :=
  pend ≠ [] → has_timer (q_priv q).

(** A packet with a frame of the channel, in a buffer the look ahead stays in. *)
Definition carries (skb : sk_buff) (f : frame) : Prop :=
  skb_data skb = fbytes f ∧ len skb ≤ st_size c ∧
  (62 ≤ length (skb_data skb ++ skb_tail skb))%nat.

Definition limits_ok : Prop := 1 ≤ st_datagrams c < 2 ^ 32 ∧ 0 ≤ st_size c < 2 ^ 31.

Lemma skb_byte_in skb off : 0 ≤ off < Z.of_nat (length (skb_data skb ++ skb_tail skb)) →
  ∃ b, skb_byte skb off = Done b.
Proof.
  intros H. destruct (lookup_lt_is_Some_2 (skb_data skb ++ skb_tail skb) (Z.to_nat off)) as [b E].
  { lia. }
  exists b. apply skb_byte_at; [lia|done].
Qed.

Lemma agg_skip_done skb more : (62 ≤ length (skb_data skb ++ skb_tail skb))%nat →
  ∃ b, agg_skip skb more = Done b.
Proof.
  intros Hl. unfold agg_skip, packet_offset, rmnet_usb_tx_agg_skip, tcp_psh.
  destruct more; [by eexists|].
  assert (∀ off, 0 ≤ off < 62 → ∃ b, skb_byte skb off = Done b) as Hb
    by (intros; apply skb_byte_in; lia).
  destruct (Hb 0) as [b ->]; [lia|]. rewrite outcome_bind_Done. cbn [mbind outcome_bind].
  set (o := QMAP_HDR + _).
  assert (4 ≤ o ≤ 8) by (unfold o, QMAP_HDR, V5_CSUM_HEADER; destruct (Z.testbit b 6); lia).
  unfold IPHDR, IPV6HDR.
  destruct (Hb (o + 9)) as [b1 ->]; [lia|]. destruct (Hb (o + 20 + 13)) as [b2 ->]; [lia|].
  destruct (Hb (o + 6)) as [b3 ->]; [lia|]. destruct (Hb (o + 40 + 13)) as [b4 ->]; [lia|].
  destruct (Hb (o + 40)) as [b5 ->]; [lia|]. cbn [mbind outcome_bind].
  repeat case_match; eauto.
Qed.

Lemma group_bytes_snoc g f : group_bytes (g ++ [f]) = group_bytes g ++ fbytes f.
Proof. unfold group_bytes. rewrite map_app, concat_app. simpl. by rewrite app_nil_r. Qed.

Lemma group_ok_one f : 1 ≤ st_datagrams c → group_ok [f].
Proof. unfold group_ok. simpl. intros. split_and!; [done|lia|lia]. Qed.

(** [skb_put_data] into the room that is left. *)
Lemma agg_put a bytes : flen bytes ≤ skb_tailroom a → ∃ a',
  skb_put_data a bytes = Done a' ∧ skb_data a' = skb_data a ++ bytes ∧
  len a' + skb_tailroom a' = len a + skb_tailroom a ∧ skb_destr a' = skb_destr a.
Proof.
  intros H. unfold skb_put_data. rewrite (proj2 (in_range_true _ _ _)).
  2:{ unfold flen, skb_tailroom in *. lia. }
  eexists. split; [done|]. unfold len, skb_tailroom, flen in *. simpl.
  rewrite length_app, length_drop. split; [done|]. split; [lia|done].
Qed.
(** *** Under the lock *)

Definition same_timer (q q' : qmap_net) : Prop :=
  agg_hrtimer (q_priv q') = agg_hrtimer (q_priv q) ∧ agg_wq (q_priv q') = agg_wq (q_priv q).

(** The packet joins; or is sent with what waited; or what waited is sent first. *)
Definition locked_result (skb : sk_buff) (f : frame) (pend pend' : list frame)
    (r : option sk_buff * option sk_buff) : Prop :=
  (r = (None, None) ∧ pend' = pend ++ [f]) ∨
  (∃ a, r = (Some a, None) ∧ pend' = [] ∧ skb_data a = group_bytes (pend ++ [f]) ∧
     group_ok (pend ++ [f])) ∨
  (∃ a, r = (Some a, Some skb) ∧ pend' = [] ∧ pend ≠ [] ∧ skb_data a = group_bytes pend ∧
     group_ok pend).

Lemma chan_ok_empty q pend t n : chan_ok q pend →
  chan_ok (QNet (q_dev q) (q_carrier q) (set_agg_time t (set_agg_skb None n (q_priv q)))) [] ↔ n = 0.
Proof.
  intros (He & Hs & Hb & _). unfold chan_ok, agg_data. simpl. split; [by intros (_ & _ & _ & _ & ?)|].
  by intros ->.
Qed.

Lemma locked_join s q skb more f pend a : limits_ok → chan_ok q pend → carries skb f →
  qmap_nets s !! i = Some q → agg_skb (q_priv q) = Some a →
  runs (tx_agg_locked i skb more) s (λ r s', ∃ q' pend',
    chan_step i s s' q' [] ∧ chan_ok q' pend' ∧ same_timer q q' ∧
    locked_result skb f pend pend' r).
Proof.
  intros [Hdg Hsz] Hq (Hd & Hl & Hbuf) E Ha. pose proof Hq as (He & Hs & Hb & Hag).
  unfold agg_data in Hag. rewrite Ha in Hag.
  destruct Hag as (Had & Hc & Hg & Hlt & Hla & Hroom). pose proof Hg as (Hne & _ & _).
  unfold tx_agg_locked. apply runs_bind. eapply ktime_runs; [done|]. intros now s1 C1 _.
  pose proof (chan_step_net _ _ _ _ _ C1) as E1.
  apply runs_bind. eapply runs_exact; [by apply get_priv_at|]. apply runs_bind, runs_get.
  rewrite Ha. assert (ul_data_aggregation_max_size (q_priv q) = st_size c) as -> by by rewrite <- Hs.
  assert (ul_data_aggregation_max_datagrams (q_priv q) = st_datagrams c) as -> by by rewrite <- Hs.
  assert (0 ≤ len a) by (unfold len; lia). assert (0 ≤ len skb) by (unfold len; lia).
  rewrite u32_small by lia. destruct (Z.ltb_spec (len a + len skb) (st_size c)) as [Hfit|Hfull].
  - destruct (agg_put a (skb_data skb)) as (a' & Eput & Hd' & Hroom' & _).
    { unfold flen, len in *. lia. }
    apply runs_bind. eapply runs_lift; [exact Eput|]. rewrite Hc.
    destruct (agg_skip_done skb more Hbuf) as [b Hb'].
    set (count := u32 _). assert (count = Z.of_nat (length pend) + 1) as Hcount.
    { unfold count. apply u32_small. lia. }
    assert (skb_data a' = group_bytes (pend ++ [f])) as Hdata.
    { by rewrite Hd', Had, Hd, group_bytes_snoc. }
    assert (len a' = len a + len skb) as Hlen'.
    { unfold len. rewrite Hd', length_app. lia. }
    assert (group_ok (pend ++ [f])) as Hok.
    { unfold group_ok. rewrite length_app. simpl. split_and!; [by destruct pend|lia|].
      intros _. rewrite <- Hdata. change (len a' < st_size c). lia. }
    apply runs_bind. eapply runs_mono with (Φ := λ ready s', s' = s1 ∧
      (ready = false → count ≠ st_datagrams c)).
    { destruct (late _ _); [eapply runs_lift; [done|]; done|].
      destruct (Z.eqb_spec count (st_datagrams c)); [eapply runs_lift; [done|]; done|].
      eapply runs_lift; [exact Hb'|]. done. }
    intros ready s1' [-> Hready]. apply runs_bind. eapply emit_runs; [done|]. intros s2 C2.
    pose proof (chan_step_trans _ _ _ _ _ _ _ _ C1 C2) as C12. simpl in C12.
    destruct ready; apply runs_bind; (eapply put_priv_runs; [by eapply chan_step_net|]);
      intros s3 C3; apply runs_ret;
      pose proof (chan_step_trans _ _ _ _ _ _ _ _ C12 C3) as C; simpl in C.
    + eexists _, []. split_and!; [exact C|by apply (chan_ok_empty _ pend)|done|].
      right; left. by exists a'.
    + eexists _, (pend ++ [f]). split_and!; [exact C| |done|by left].
      unfold chan_ok, agg_data. simpl. split_and!; try done.
      * rewrite Hcount, length_app. simpl. lia.
      * specialize (Hready eq_refl). rewrite length_app. simpl. lia.
      * lia.
      * lia.
  - apply runs_bind. eapply put_priv_runs; [done|]. intros s2 C2. apply runs_ret.
    pose proof (chan_step_trans _ _ _ _ _ _ _ _ C1 C2) as C. simpl in C.
    eexists _, []. split_and!; [exact C|by apply (chan_ok_empty _ pend)|done|].
    right; right. by exists a.
Qed.

(** Nothing waits: the packet is sent, or is the first that waits. *)
Lemma locked_first s q skb more f : limits_ok → 1 < st_datagrams c → chan_ok q [] →
  carries skb f → qmap_nets s !! i = Some q →
  runs (tx_agg_locked i skb more) s (λ r s', ∃ q' pend',
    chan_step i s s' q' [] ∧ chan_ok q' pend' ∧ same_timer q q' ∧
    locked_result skb f [] pend' r).
Proof.
  intros [Hdg Hsz] Hdg1 Hq (Hd & Hl & Hbuf) E. pose proof Hq as (He & Hs & Hb & Hag).
  assert (agg_skb (q_priv q) = None ∧ agg_count (q_priv q) = 0) as [Ha Hc].
  { unfold agg_data in Hag. destruct (agg_skb (q_priv q)); [|by destruct Hag].
    by destruct Hag as (_ & _ & [? _] & _). }
  unfold tx_agg_locked. apply runs_bind. eapply ktime_runs; [done|]. intros now s1 C1 _.
  pose proof (chan_step_net _ _ _ _ _ C1) as E1.
  apply runs_bind. eapply runs_exact; [by apply get_priv_at|]. apply runs_bind, runs_get. rewrite Ha.
  assert (ul_data_aggregation_max_size (q_priv q) = st_size c) as -> by by rewrite <- Hs.
  assert (∀ s2, chan_step i s s2 q [] → runs
    (put_priv i (set_agg_time now (q_priv q));; mret (Some skb, None)) s2 (λ r s', ∃ q' pend',
       chan_step i s s' q' [] ∧ chan_ok q' pend' ∧ same_timer q q' ∧
       locked_result skb f [] pend' r)) as Halone.
  { intros s2 C2. apply runs_bind. eapply put_priv_runs; [by eapply chan_step_net|].
    intros s3 C3. apply runs_ret.
    pose proof (chan_step_trans _ _ _ _ _ _ _ _ C2 C3) as C. simpl in C.
    eexists _, []. split_and!; [exact C| |done|].
    - unfold chan_ok, agg_data. simpl. by rewrite Ha.
    - right; left. exists skb. split_and!; [done..| |by apply group_ok_one; lia].
      rewrite Hd. unfold group_bytes. simpl. by rewrite app_nil_r. }
  destruct (agg_skip_done skb more Hbuf) as [b Hb'].
  apply runs_bind. eapply runs_mono with (Φ := λ ready s', s' = s1).
  { destruct (late _ _); [eapply runs_lift; done|]. eapply runs_lift; [exact Hb'|done]. }
  intros ready s1' ->. destruct ready.
  { apply runs_bind, runs_ret. exact (Halone _ C1). }
  apply runs_bind. eapply alloc_skb_runs; [done|..].
  { intros s2 C2. exact (Halone _ (chan_step_trans _ _ _ _ _ _ _ _ C1 C2)). }
  intros s2 a C2 Hempty Hroom.
  pose proof (chan_step_trans _ _ _ _ _ _ _ _ C1 C2) as C12. simpl in C12.
  destruct (agg_put a (skb_data skb)) as (a' & Eput & Hd' & Hroom' & _).
  { unfold flen, len in *. lia. }
  assert (len a = 0) by (unfold len; by rewrite Hempty).
  apply runs_bind. eapply runs_lift; [exact Eput|]. rewrite Hc.
  apply runs_bind. eapply put_priv_runs; [by eapply chan_step_net|]. intros s3 C3.
  apply runs_bind. eapply emit_runs; [by eapply chan_step_net|]. intros s4 C4. apply runs_ret.
  pose proof (chan_step_trans _ _ _ _ _ _ _ _ C12 (chan_step_trans _ _ _ _ _ _ _ _ C3 C4)) as C.
  simpl in C. eexists _, [f]. split_and!; [exact C| |done|by left].
  assert (len a' = len skb) as Hlen by (unfold len; by rewrite Hd', Hempty).
  unfold chan_ok, agg_data. simpl. split_and!; try done; try apply group_ok_one; try lia.
  - rewrite Hd', Hempty, Hd. unfold group_bytes. simpl. by rewrite app_nil_r.
Qed.

Lemma tx_agg_locked_runs s q skb more f pend : limits_ok → 1 < st_datagrams c →
  chan_ok q pend → carries skb f → qmap_nets s !! i = Some q →
  runs (tx_agg_locked i skb more) s (λ r s', ∃ q' pend',
    chan_step i s s' q' [] ∧ chan_ok q' pend' ∧ same_timer q q' ∧
    locked_result skb f pend pend' r).
Proof.
  intros. destruct (agg_skb (q_priv q)) as [a|] eqn:Ha; [by eapply locked_join|].
  assert (pend = []) as ->; [|by apply locked_first].
  destruct H1 as (_ & _ & _ & Hag). unfold agg_data in Hag. rewrite Ha in Hag. by destruct Hag.
Qed.

(** *** A packet is transmitted

    [gs] are the groups that are sent, [pend'] what waits after. *)

Definition agg_result (q' : qmap_net) (f : frame) (pend pend' : list frame)
    (gs : list (list frame)) : Prop :=
  chan_ok q' pend' ∧ flushes q' pend' ∧ concat gs ++ pend' = pend ++ [f] ∧ Forall group_ok gs.

Lemma start_agg_timer_runs s q pend : chan_ok q pend → qmap_nets s !! i = Some q →
  runs (start_agg_timer i) s (λ _ s', ∃ q', chan_step i s s' q' [] ∧ chan_ok q' pend ∧
    flushes q' pend).
Proof.
  intros Hq E. unfold start_agg_timer. apply runs_bind.
  eapply runs_exact; [by apply get_priv_at|]. destruct Hq as (He & Hs & Hb & Hag).
  unfold agg_data in Hag. destruct (agg_skb (q_priv q)) as [a|] eqn:Ha.
  - destruct (agg_hrtimer (q_priv q)) eqn:Ht.
    + apply runs_ret. exists q. split; [by apply chan_step_here|].
      split; [|by left]. unfold chan_ok, agg_data. by rewrite Ha.
    + eapply put_priv_runs; [done|]. intros s' C. eexists. split; [exact C|].
      split; [|by left]. unfold chan_ok, agg_data. simpl. by rewrite Ha.
  - apply runs_ret. exists q. split; [by apply chan_step_here|]. destruct Hag as [-> Hc].
    split; [|by intros ?]. unfold chan_ok, agg_data. by rewrite Ha.
Qed.

Lemma chan_ok_dev q pend d : chan_ok q pend → dev_ether d = dev_ether (q_dev q) →
  chan_ok (QNet d (q_carrier q) (q_priv q)) pend.
Proof. intros (He & H) Hd. unfold chan_ok. simpl. by rewrite Hd. Qed.

Lemma to_real_data skb : skb_data (or_destructor (to_real skb)) = skb_data skb.
Proof. done. Qed.

Lemma tx_agg_loop_runs fuel s q skb more f pend : limits_ok → 1 < st_datagrams c →
  (1 < fuel ∨ pend = [] ∧ fuel = 1)%nat →
  chan_ok q pend → carries skb f → qmap_nets s !! i = Some q →
  runs (tx_agg_loop fuel i skb more) s (λ _ s', ∃ q' pend' gs,
    chan_step i s s' q' (map group_bytes gs) ∧ agg_result q' f pend pend' gs).
Proof.
  intros Hlim Hdg. revert s q pend. induction fuel as [|fuel IH]; intros s q pend Hf Hq Hskb E; [lia|].
  simpl. apply runs_bind. eapply runs_mono; [by eapply tx_agg_locked_runs|].
  intros r s1 (q1 & pend1 & C1 & Hq1 & Ht1 & [[-> ->]|[(a & -> & -> & Ha & Hg)|(a & -> & -> & Hp & Ha & Hg)]]).
  - apply runs_bind, runs_ret.
    eapply runs_mono; [by eapply start_agg_timer_runs, chan_step_net|].
    intros _ s2 (q2 & C2 & Hq2 & Hfl). exists q2, (pend ++ [f]), [].
    split; [exact (chan_step_trans _ _ _ _ _ _ _ _ C1 C2)|]. unfold agg_result. simpl. auto.
  - apply runs_bind. eapply xmit_real_runs; [by eapply chan_step_net|]. intros s2 d C2 [Hd _].
    rewrite to_real_data, Ha in C2.
    eapply runs_mono.
    { eapply start_agg_timer_runs; [by eapply chan_ok_dev|by eapply chan_step_net]. }
    intros _ s3 (q3 & C3 & Hq3 & Hfl). exists q3, [], [pend ++ [f]].
    split; [exact (chan_step_trans _ _ _ _ _ _ _ _ C1 (chan_step_trans _ _ _ _ _ _ _ _ C2 C3))|].
    unfold agg_result. simpl. rewrite !app_nil_r. auto.
  - destruct fuel as [|fuel]; [by destruct Hf as [|[-> _]]; [lia|]|].
    apply runs_bind. eapply xmit_real_runs; [by eapply chan_step_net|]. intros s2 d C2 [Hd _].
    rewrite to_real_data, Ha in C2.
    eapply runs_mono.
    { apply (IH s2 (QNet d (q_carrier q1) (q_priv q1)) []); [destruct fuel; [by right|left; lia]|by eapply chan_ok_dev|done|by eapply chan_step_net]. }
    intros _ s3 (q3 & pend3 & gs & C3 & Hq3 & Hfl & Hc & Hgs). exists q3, pend3, (pend :: gs).
    split; [exact (chan_step_trans _ _ _ _ _ _ _ _ C1 (chan_step_trans _ _ _ _ _ _ _ _ C2 C3))|].
    unfold agg_result. simpl. rewrite <- app_assoc, Hc. auto.
Qed.

Lemma rmnet_usb_tx_agg_runs s q skb more f pend : limits_ok →
  chan_ok q pend → flushes q pend → carries skb f → qmap_nets s !! i = Some q →
  runs (rmnet_usb_tx_agg i skb more) s (λ r s', r = NET_XMIT_SUCCESS ∧ ∃ q' pend' gs,
    chan_step i s s' q' (map group_bytes gs) ∧ agg_result q' f pend pend' gs).
Proof.
  intros Hlim Hq Hfl Hskb E. unfold rmnet_usb_tx_agg, rmnet_vnd_update_tx_stats.
  apply runs_bind. eapply upd_dev_runs; [done|]. intros s1 C1.
  pose proof (chan_step_net _ _ _ _ _ C1) as E1.
  apply (chan_ok_dev _ _ (add_tx 1 (len skb) (q_dev q))) in Hq as Hq1; [|done].
  apply runs_bind. eapply runs_exact; [by apply get_priv_at|].
  replace (ul_data_aggregation_max_datagrams _) with (st_datagrams c)
    by (destruct Hq as (_ & <- & _); done).
  apply runs_bind. destruct (Z.eqb_spec (st_datagrams c) 1) as [H1|H1].
  - assert (pend = []) as ->.
    { destruct Hq as (_ & _ & _ & Hag). unfold agg_data in Hag.
      destruct (agg_skb (q_priv q)); [|by destruct Hag].
      destruct Hag as (_ & _ & [Hne _] & Hlt & _). destruct pend; [done|]. simpl in Hlt. lia. }
    eapply xmit_real_runs; [done|]. intros s2 d C2 [Hd _]. apply runs_ret. split; [done|].
    eexists _, [], [[f]].
    split; [|split_and!; [by eapply chan_ok_dev|by intros ?|done|
             apply Forall_singleton, group_ok_one; destruct Hlim; lia]].
    rewrite to_real_data in C2. replace (map group_bytes [[f]]) with [skb_data skb].
    { exact (chan_step_trans _ _ _ _ _ _ _ _ C1 C2). }
    destruct Hskb as (-> & _). unfold group_bytes. simpl. by rewrite app_nil_r.
  - eapply runs_mono.
    { eapply tx_agg_loop_runs; [done|destruct Hlim; lia|left; unfold tx_agg_fuel; lia|done..]. }
    intros _ s2 (q2 & pend2 & gs & C2 & H). apply runs_ret. split; [done|].
    exists q2, pend2, gs. split; [|done]. exact (chan_step_trans _ _ _ _ _ _ _ _ C1 C2).
Qed.

(** *** The work and the timer *)

Lemma run_agg_work_runs s q pend : chan_ok q pend → flushes q pend →
  qmap_nets s !! i = Some q →
  runs (run_agg_work i) s (λ _ s', ∃ q' pend' gs,
    chan_step i s s' q' (map group_bytes gs) ∧ chan_ok q' pend' ∧ flushes q' pend' ∧
    concat gs ++ pend' = pend ∧ Forall group_ok gs).
Proof.
  intros Hq Hfl E. unfold run_agg_work. apply runs_bind.
  eapply runs_exact; [by apply get_priv_at|]. destruct (agg_wq (q_priv q)) eqn:Hw.
  2:{ apply runs_ret. exists q, pend, []. split; [by apply chan_step_here|]. auto. }
  apply runs_bind. eapply put_priv_runs; [done|]. intros s1 C1.
  pose proof (chan_step_net _ _ _ _ _ C1) as E1.
  unfold rmnet_usb_tx_agg_work. apply runs_bind. eapply runs_exact; [by apply get_priv_at|]. simpl.
  pose proof Hq as (He & Hs & Hb & Hag). unfold agg_data in Hag.
  destruct (agg_skb (q_priv q)) as [a|] eqn:Ha.
  - destruct Hag as (Hd & _ & Hg & _). apply runs_bind. eapply ktime_runs; [done|].
    intros now s2 C2 _. apply runs_bind. eapply put_priv_runs; [by eapply chan_step_net|].
    intros s3 C3. eapply xmit_real_runs; [by eapply chan_step_net|]. intros s4 d C4 [Hd4 _].
    change (skb_data (to_real a)) with (skb_data a) in C4. rewrite Hd in C4.
    pose proof (chan_step_trans _ _ _ _ _ _ _ _ C1 (chan_step_trans _ _ _ _ _ _ _ _ C2
      (chan_step_trans _ _ _ _ _ _ _ _ C3 C4))) as C.
    eexists _, [], [pend]. split; [exact C|]. split; [|split; [by intros ?|split]].
    + unfold chan_ok, agg_data. simpl in *. by rewrite Hd4.
    + simpl. by rewrite !app_nil_r.
    + by apply Forall_singleton.
  - destruct Hag as [-> Hc]. apply runs_ret. eexists _, [], []. split; [exact C1|].
    split_and!; [|by intros ?|done|done]. unfold chan_ok, agg_data. simpl. by rewrite Ha.
Qed.

Lemma timer_runs s q pend : chan_ok q pend → flushes q pend → qmap_nets s !! i = Some q →
  runs (rmnet_usb_tx_agg_timer_cb i) s (λ _ s', ∃ q',
    chan_step i s s' q' [] ∧ chan_ok q' pend ∧ flushes q' pend).
Proof.
  intros Hq Hfl E. unfold rmnet_usb_tx_agg_timer_cb. apply runs_bind.
  eapply runs_exact; [by apply get_priv_at|]. destruct (agg_hrtimer (q_priv q)).
  - eapply put_priv_runs; [done|]. intros s' C. eexists. split; [exact C|].
    split; [done|by right].
  - apply runs_ret. exists q. split; [by apply chan_step_here|]. auto.
Qed.
End Channel.
