(* ===== verification/GobiTx.v ===== *)
(** * Transmission on all channels of the GobiNet driver

    Packets are transmitted on the channels, timers fire, works run and the modem's
    queue stops and wakes, in any order.  What is handed to the modem's device are
    groups of frames; those of one channel carry its packets in order. *)

From S2P Require Import Prelude Kernel GobiQmi.
From stdpp Require Import gmap.
Import Qmi.
From S2P Require Import QmiDev QmiClient GobiSkb GobiNet GobiDrv GobiFrames GobiRx GobiAgg.

#[local] Open Scope Z_scope.
#[local] Open Scope c_scope.

(** ** Runs *)

Inductive tx_op :=
| Xmit (i : Z) (skb : sk_buff) (xmit_more : bool)
| Agg_timer (i : Z)
| Agg_work (i : Z)
| Real_queue (stopped : bool).

Definition run_tx_op (op : tx_op) : gn () :=
  match op with
  | Xmit i skb more => ignore (qmap_start_xmit i skb more)
  | Agg_timer i => rmnet_usb_tx_agg_timer_cb i
  | Agg_work i => run_agg_work i
  | Real_queue b => upd_dev Real_net (set_stopped b)
  end.

(** The IP packet the driver takes: unless the modem's queue is stopped. *)
Definition accepted (s : gobi) (op : tx_op) : list (Z * list Z) :=
  match op with
  | Xmit i skb _ =>
    if queue_stopped (real_net s) then [] else
    match ether_to_ip_fixup skb with Done (Some skb) => [(i, skb_data skb)] | _ => [] end
  | _ => []
  end.

(** The packets that were taken, with their channels. *)
Fixpoint run_tx_ops (ops : list tx_op) : gn (list (Z * list Z)) :=
  match ops with
  | [] => mret []
  | op :: ops =>
    s ← get_state;
    run_tx_op op;; rest ← run_tx_ops ops; mret (accepted s op ++ rest)
  end.

Definition of_chan {A} (i : Z) (l : list (Z * A)) : list A := map snd (filter (λ x, x.1 = i) l).

Lemma of_chan_app {A} i (l1 l2 : list (Z * A)) : of_chan i (l1 ++ l2) = of_chan i l1 ++ of_chan i l2.
Proof. unfold of_chan. by rewrite filter_app, map_app. Qed.
Lemma of_chan_same {A} i (l : list A) : of_chan i (map (pair i) l) = l.
Proof.
  unfold of_chan. induction l as [|x l IH]; [done|]. simpl.
  rewrite filter_cons_True by done. simpl. by rewrite IH.
Qed.
Lemma of_chan_other {A} i j (l : list A) : i ≠ j → of_chan i (map (pair j) l) = [].
Proof.
  intros Hij. unfold of_chan. induction l as [|x l IH]; [done|]. simpl.
  by rewrite filter_cons_False by (simpl; congruence).
Qed.

(** ** One operation on one channel *)

Section Op.
Context (i : Z) (c : settings).

(** A packet from the stack: the buffer holds the headers the driver looks at, it
    has room for an Ethernet header at least, and its frame fits. *)
Definition skb_ok (skb : sk_buff) : Prop :=
  (72 ≤ length (skb_data skb ++ skb_tail skb))%nat ∧ 14 ≤ len skb ≤ st_size c.

Definition settings_ok : Prop := is_version (st_version c) ∧ limits_ok c.

Lemma ether_to_ip_done skb : skb_ok skb → ∃ o, ether_to_ip_fixup skb = Done o ∧
  match o with
  | Some skb' => ∃ h, length h = 14%nat ∧ skb_data skb = h ++ skb_data skb' ∧
      skb_head skb' = skb_head skb ++ h ∧ skb_tail skb' = skb_tail skb
  | None => True
  end.
Proof.
  intros [Hb Hl]. unfold ether_to_ip_fixup, skb_be16.
  destruct (skb_byte_in skb 12) as [x Hx]; [lia|].
  destruct (skb_byte_in skb (12 + 1)) as [y Hy]; [lia|]. rewrite Hx, Hy. cbn [mbind outcome_bind].
  assert (∃ skb', skb_pull skb ETH_HLEN = Some skb' ∧ ∃ h, length h = 14%nat ∧
    skb_data skb = h ++ skb_data skb' ∧ skb_head skb' = skb_head skb ++ h ∧
    skb_tail skb' = skb_tail skb) as (skb' & Hp & Hrest).
  { unfold skb_pull, len, ETH_HLEN in *. rewrite (proj2 (andb_true_iff _ _)) by (rewrite !Z.leb_le; lia).
    eexists. split; [done|]. exists (take 14 (skb_data skb)). simpl.
    rewrite length_take, take_drop. split_and!; [lia|done..]. }
  rewrite Hp. repeat case_match; eexists; (split; [done|]); done.
Qed.

(** A frame as the channel writes it. *)
Definition frame_ok (f : frame) : Prop := (length (f_padding f) < 4)%nat.

Lemma qmap_start_xmit_runs s q skb more pend : settings_ok → chan_ok c q pend →
  flushes q pend → skb_ok skb → qmap_nets s !! i = Some q →
  runs (qmap_start_xmit i skb more) s (λ _ s', ∃ q' pend' gs fs,
    chan_step i s s' q' (map (group_bytes c) gs) ∧ chan_ok c q' pend' ∧ flushes q' pend' ∧
    concat gs ++ pend' = pend ++ fs ∧ Forall (group_ok c) gs ∧ Forall frame_ok fs ∧
    map (pair i) (map f_payload fs) = accepted s (Xmit i skb more)).
Proof.
  intros [Hv Hlim] Hq Hfl Hskb E. unfold qmap_start_xmit, accepted.
  apply runs_bind, runs_bind, runs_bind, runs_get, runs_ret, runs_ret. destruct (queue_stopped (real_net s)).
  { apply runs_bind. eapply upd_dev_runs; [done|]. intros s1 C1. apply runs_ret.
    eexists _, pend, [], []. split; [exact C1|]. rewrite app_nil_r.
    split; [by apply chan_ok_dev|]. split; [exact Hfl|]. auto. }
  destruct (ether_to_ip_done skb Hskb) as (o & Ho & Hrest). rewrite Ho.
  pose proof Hq as (He & Hs & Hbr & _).
  apply runs_bind. unfold qmap_eth_fixup. apply runs_bind.
  eapply runs_exact; [by apply get_dev_at|]. rewrite He. simpl negb. cbv iota.
  apply runs_bind. eapply runs_exact; [by apply get_priv_at|]. rewrite Hbr. simpl negb. cbv iota.
  apply runs_bind, runs_ret. simpl negb. cbv iota. eapply runs_lift; [done|].
  destruct o as [skb1|].
  2:{ apply runs_bind. eapply emit_runs; [done|]. intros s1 C1. apply runs_ret.
      exists q, pend, [], []. split; [exact C1|]. rewrite app_nil_r. split_and!; done || constructor. }
  destruct Hrest as (h & Hh & Hd & Hhead & Htail).
  apply runs_bind. eapply runs_exact; [by apply get_priv_at|].
  apply runs_bind. destruct Hskb as [Hbuf Hlen].
  destruct (qmap_encap_frame (st_version c) (st_mux c) skb1) as (pad & skb2 & Hen & Hpad & Hd2 & _ & _ & Hb2).
  { done. }
  { unfold skb_headroom. rewrite Hhead, length_app. lia. }
  eapply runs_lift.
  { rewrite <- Hs in Hen. exact Hen. }
  eapply runs_mono.
  { apply (rmnet_usb_tx_agg_runs i c s q skb2 more (Frame (skb_data skb1) pad) pend); try done.
    split; [exact Hd2|].
    assert (length (skb_data skb) = 14 + length (skb_data skb1))%nat as Hl1
      by (rewrite Hd, length_app; lia).
    split.
    - unfold len in *. rewrite Hd2, length_frame. simpl. rewrite length_app.
      unfold header_size. destruct (_ =? 9); lia.
    - rewrite Hb2. rewrite !length_app, Htail in *. unfold header_size.
      destruct (_ =? 9); lia. }
  intros r s' (-> & q' & pend' & gs & C & Hq' & Hfl' & Hc & Hg).
  exists q', pend', gs, [Frame (skb_data skb1) pad]. split_and!; try done.
  by apply Forall_singleton.
Qed.
End Op.

(** ** All channels *)

(** What was sent: groups of frames, each of a channel. *)
Definition tag_bytes (cfg : gmap Z settings) (t : Z * list frame) : list Z :=
  match cfg !! t.1 with Some c => group_bytes c t.2 | None => [] end.
Definition chan_frames (i : Z) (tags : list (Z * list frame)) : list frame :=
  concat (of_chan i tags).

(** The channel's part: its groups and what waits carry [hist], the packets taken. *)
Definition chan_inv (i : Z) (c : settings) (s : gobi) (tags : list (Z * list frame))
    (hist : list (Z * list Z)) : Prop :=
  ∃ q pend, qmap_nets s !! i = Some q ∧ chan_ok c q pend ∧ flushes q pend ∧
    map f_payload (chan_frames i tags ++ pend) = of_chan i hist ∧
    Forall (group_ok c) (of_chan i tags) ∧ Forall frame_ok (chan_frames i tags ++ pend).

Record tx_inv (cfg : gmap Z settings) (before : list (list Z)) (s : gobi)
    (tags : list (Z * list frame)) (hist : list (Z * list Z)) : Prop := {
  ti_sent : sent s = before ++ map (tag_bytes cfg) tags;
  ti_tags : Forall (λ t, is_Some (cfg !! t.1)) tags;
  ti_chan i c : cfg !! i = Some c → chan_inv i c s tags hist;
}.

Definition config_ok (cfg : gmap Z settings) : Prop := ∀ i c, cfg !! i = Some c → settings_ok c.

Definition op_ok (cfg : gmap Z settings) (op : tx_op) : Prop :=
  match op with
  | Xmit i skb _ => ∃ c, cfg !! i = Some c ∧ skb_ok c skb
  | Agg_timer i | Agg_work i => is_Some (cfg !! i)
  | Real_queue _ => True
  end.

(** Nothing waits on the channels. *)
Definition idle_channels (cfg : gmap Z settings) (s : gobi) : Prop :=
  ∀ i c, cfg !! i = Some c → ∃ q, qmap_nets s !! i = Some q ∧ chan_ok c q [].

(** A step of a channel that sends [gs] and leaves [pend'] keeps the invariant. *)
Lemma tx_inv_step cfg before s s' tags hist i c q q' pend pend' gs fs :
  tx_inv cfg before s tags hist → cfg !! i = Some c →
  qmap_nets s !! i = Some q →
  map f_payload (chan_frames i tags ++ pend) = of_chan i hist →
  Forall (group_ok c) (of_chan i tags) → Forall frame_ok (chan_frames i tags ++ pend) →
  chan_step i s s' q' (map (group_bytes c) gs) → chan_ok c q' pend' → flushes q' pend' →
  concat gs ++ pend' = pend ++ fs → Forall (group_ok c) gs → Forall frame_ok fs →
  tx_inv cfg before s' (tags ++ map (pair i) gs) (hist ++ map (pair i) (map f_payload fs)).
Proof.
  intros [Hs Ht Hch] Hc Hq Hpay Hgrp Hfr C Hq' Hfl Hcat Hgs Hfs.
  assert (chan_frames i (tags ++ map (pair i) gs) ++ pend' = (chan_frames i tags ++ pend) ++ fs) as Hall.
  { unfold chan_frames. rewrite of_chan_app, of_chan_same, concat_app, <- !app_assoc.
    by rewrite Hcat. }
  split.
  - destruct C as (e & t & _ & ->). rewrite Hs, map_app, <- app_assoc. f_equal. f_equal.
    rewrite map_map. apply map_ext. intros g. unfold tag_bytes. simpl. by rewrite Hc.
  - apply Forall_app. split; [done|]. apply Forall_forall. intros x Hx.
    apply list_elem_of_In, in_map_iff in Hx as (g & <- & _). by eexists.
  - intros j cj Hj. destruct (decide (j = i)) as [->|Hij].
    + assert (cj = c) as -> by congruence. exists q', pend'.
      split; [by eapply chan_step_net|]. split; [done|]. split; [done|].
      rewrite Hall, map_app, Hpay, of_chan_app, of_chan_same. split; [done|].
      split; [|by apply Forall_app]. rewrite of_chan_app, of_chan_same. by apply Forall_app.
    + destruct (Hch j cj Hj) as (qj & pj & Hqj & Hokj & Hflj & Hpayj & Hgj & Hfj).
      exists qj, pj. unfold chan_frames in *.
      rewrite !of_chan_app, !of_chan_other, !app_nil_r by done.
      destruct C as (e & t & -> & _). simpl. rewrite lookup_insert_ne by done. auto 10.
Qed.

Lemma run_tx_op_inv cfg before s tags hist op : config_ok cfg → op_ok cfg op →
  tx_inv cfg before s tags hist →
  runs (run_tx_op op) s (λ _ s', ∃ tags', tx_inv cfg before s' tags' (hist ++ accepted s op)).
Proof.
  intros Hcfg Hop HI. pose proof (ti_chan _ _ _ _ _ HI) as Hch. destruct op as [i skb more|i|i|b].
  - destruct Hop as (c & Hc & Hskb). destruct (Hch i c Hc) as (q & pend & Hq & Hok & Hfl & Hpay & Hg & Hf).
    apply runs_bind. eapply runs_mono; [by eapply qmap_start_xmit_runs; eauto|].
    intros r s' (q' & pend' & gs & fs & C & Hok' & Hfl' & Hcat & Hgs & Hfs & <-). apply runs_ret.
    exists (tags ++ map (pair i) gs). by eapply tx_inv_step.
  - destruct Hop as (c & Hc). destruct (Hch i c Hc) as (q & pend & Hq & Hok & Hfl & Hpay & Hg & Hf).
    eapply runs_mono; [by eapply (timer_runs i c)|]. intros r s' (q' & C & Hok' & Hfl').
    exists (tags ++ map (pair i) []). apply (tx_inv_step _ _ s s' _ _ _ c q q' pend pend [] []); try done.
    by rewrite app_nil_r.
  - destruct Hop as (c & Hc). destruct (Hch i c Hc) as (q & pend & Hq & Hok & Hfl & Hpay & Hg & Hf).
    eapply runs_mono; [by eapply (run_agg_work_runs i c)|].
    intros r s' (q' & pend' & gs & C & Hok' & Hfl' & Hcat & Hgs).
    exists (tags ++ map (pair i) gs). apply (tx_inv_step _ _ s s' _ _ _ c q q' pend pend' gs []); try done.
    by rewrite app_nil_r.
  - apply runs_modify. exists tags. rewrite app_nil_r. destruct HI as [Hs Ht _]. by split.
Qed.

Lemma run_tx_ops_inv cfg before s tags hist ops : config_ok cfg → Forall (op_ok cfg) ops →
  tx_inv cfg before s tags hist →
  runs (run_tx_ops ops) s (λ new s', ∃ tags', tx_inv cfg before s' tags' (hist ++ new)).
Proof.
  intros Hcfg. revert s tags hist. induction ops as [|op ops IH]; intros s tags hist Hops HI.
  - apply runs_ret. exists tags. by rewrite app_nil_r.
  - inversion_clear Hops as [|?? Hop Hops']. simpl. apply runs_bind, runs_get, runs_bind.
    eapply runs_mono; [by eapply run_tx_op_inv|]. intros _ s1 (tags1 & HI1).
    apply runs_bind. eapply runs_mono; [by eapply IH|]. intros new s2 (tags2 & HI2).
    apply runs_ret. exists tags2. by rewrite app_assoc.
Qed.

Lemma tx_inv_start cfg s : idle_channels cfg s → tx_inv cfg (sent s) s [] [].
Proof.
  intros H. split; [by rewrite app_nil_r|constructor|]. intros i c Hc.
  destruct (H i c Hc) as (q & Hq & Hok). exists q, []. split_and!; try done; by constructor.
Qed.

(** ** The other end *)

(** The packets of a tagged group, for a receiver. *)
Definition tag_packets (cfg : gmap Z settings) (t : Z * list frame) : list packet :=
  map (Packet (default 0 (st_version <$> cfg !! t.1)) t.1) t.2.

Lemma tag_packets_bytes cfg t c : cfg !! t.1 = Some c → st_mux c = QUECTEL_QMAP_MUX_ID + t.1 →
  concat (map packet_bytes (tag_packets cfg t)) = tag_bytes cfg t.
Proof.
  intros Hc Hm. unfold tag_packets, tag_bytes. rewrite Hc, map_map. unfold group_bytes. f_equal.
  apply map_ext. intros f. unfold packet_bytes, fbytes. simpl. by rewrite Hm.
Qed.

(** What one receiver makes of a sequence of buffers. *)
Definition rx_all (skbs : list sk_buff) : gn () := for_each skbs _rmnet_usb_rx_handler.

(** The packets that were received on a channel. *)
Definition received_on (i : Z) (s : gobi) : list (list Z) :=
  omap (λ x, if decide (x.1.1 = Qmap_net i) then Some x.2 else None) (received s).

Lemma rx_all_packets r (pss : list (list packet)) skbs : multiplexed r → rx_minimum_padding r = 0 →
  Forall (Forall (receivable (mode r))) pss →
  map skb_data skbs = map (λ ps, concat (map packet_bytes ps)) pss →
  runs (rx_all skbs) r (λ _ r', received r' = received r ++ map delivery (concat pss)).
Proof.
  revert r pss. induction skbs as [|skb skbs IH]; intros r [|ps pss] M Hm Hps E; try done.
  - apply runs_ret. by rewrite app_nil_r.
  - inversion_clear Hps as [|?? Hp Hps']. simpl in E. injection E as Ed E.
    apply runs_bind. eapply runs_mono; [by eapply rx_handler_packets|].
    intros _ r1 (C & Hr). pose proof (counts_only_multiplexed _ _ C M) as M1.
    pose proof C as (nets & t & E1 & _).
    assert (mode r1 = mode r) as Hmode by by rewrite E1.
    assert (rx_minimum_padding r1 = 0) as Hm1 by by rewrite E1.
    eapply runs_mono; [eapply (IH r1 pss); [done|done|by rewrite Hmode|done]|].
    intros _ r2 ->. rewrite Hr. simpl. by rewrite map_app, app_assoc.
Qed.

Lemma received_on_tags cfg i tags :
  omap (λ x : netid * Z * list Z, if decide (x.1.1 = Qmap_net i) then Some x.2 else None)
    (map delivery (concat (map (tag_packets cfg) tags))) = map f_payload (chan_frames i tags).
Proof.
  unfold chan_frames. induction tags as [|[j fs] tags IH]; [done|]. simpl.
  rewrite map_app, omap_app, IH. clear IH.
  change (of_chan i ((j, fs) :: tags)) with (of_chan i ([(j, fs)] ++ tags)).
  rewrite of_chan_app, concat_app, map_app. f_equal. unfold of_chan, tag_packets.
  cbn [fst snd]. generalize (default 0 (st_version <$> cfg !! j)). intros v.
  destruct (decide (j = i)) as [->|Hij].
  - rewrite filter_cons_True by done. simpl. rewrite app_nil_r.
    induction fs as [|f fs IH]; [done|]. simpl. rewrite decide_True by done.
    f_equal. exact IH.
  - rewrite filter_cons_False by (simpl; congruence). simpl.
    induction fs as [|f fs IH]; [done|]. simpl. rewrite decide_False by congruence.
    exact IH.
Qed.
