(* ===== verification/GobiLife.v ===== *)
(** * Life cycle of the GobiNet channels

    Registration makes the devices of the channels, ready for the receiver and for
    transmission; the link state of the channels; the wake-up of the channels'
    queues; and what goes wrong when the device is removed or memory is short. *)

From S2P Require Import Prelude Kernel GobiQmi.
From stdpp Require Import gmap.
Import Qmi.
From S2P Require Import QmiDev QmiClient GobiSkb GobiNet GobiDrv GobiFrames GobiRx GobiAgg GobiTx.

#[local] Open Scope Z_scope.
#[local] Open Scope c_scope.

(** ** Registration *)

(** A channel's device fresh from [qmap_register_device]. *)
Definition fresh_priv (s : gobi) (i : Z) (p : qmap_priv) : Prop :=
  settings_of p = Settings (version s) (QUECTEL_QMAP_MUX_ID + i) 2048 1 ∧
  priv_link_state p = false ∧ agg_skb p = None ∧ agg_count p = 0 ∧
  m_bridge_mode (priv_bridge p) = (if Z.testbit (m_bridge_mode (g_bridge s)) i then 1 else 0) ∧
  length (mHostMAC (priv_bridge p)) = 6%nat.
Definition fresh_net (s : gobi) (i : Z) (q : qmap_net) : Prop :=
  q_dev q = zero_net true (dev_addr (real_net s)) ∧ fresh_priv s i (q_priv q).

Record registered (s0 : gobi) (n : Z) (s : gobi) : Prop := {
  rg_same : qmi s = qmi s0 ∧ g_bridge s = g_bridge s0 ∧ real_net s = real_net s0 ∧
    g_link_state s = g_link_state s0;
  rg_env : allocs (genv s) = [] ∧ results (genv s) = [];
  rg_slots : length (mpQmapNetDev s) = 4%nat;
  rg_slot i : 0 ≤ i < n → mpQmapNetDev s !! Z.to_nat i = Some (Some (Qmap_net i)) ∧
    ∃ q, qmap_nets s !! i = Some q ∧ fresh_net s0 i q;
}.

(** The state in front of the registration. *)
Record ready_to_register (s : gobi) : Prop := {
  rr_env : allocs (genv s) = [] ∧ results (genv s) = [];
  rr_slots : length (mpQmapNetDev s) = 4%nat;
  rr_addr : length (dev_addr (real_net s)) = 6%nat;
}.

Lemma ktime_any s (Φ : Z → gobi → Prop) :
  (∀ t l, Φ t (set_genv (set_clock l (genv s)) s)) → runs ktime_get_ts64 s Φ.
Proof.
  intros H. apply runs_bind, runs_get. destruct (clock (genv s)) as [|t l] eqn:E.
  - apply runs_ret. specialize (H 0 []). rewrite <- E in H. by destruct s as [????????????[]].
  - apply runs_bind, runs_modify, runs_ret, H.
Qed.

Lemma net_alloc_ok s (Φ : bool → gobi → Prop) :
  allocs (genv s) = [] → Φ true s → runs net_alloc s Φ.
Proof. intros E H. apply runs_bind, runs_get. rewrite E. by apply runs_ret. Qed.
Lemma net_result_ok s (Φ : Z → gobi → Prop) :
  results (genv s) = [] → Φ 0 s → runs net_result s Φ.
Proof. intros E H. apply runs_bind, runs_get. rewrite E. by apply runs_ret. Qed.

(** The device and its slot, up to the store into the array. *)
Lemma register_one s0 n s (Φ : Z → gobi → Prop) : registered s0 n s → 0 ≤ n < 4 →
  (∀ s', registered s0 (n + 1) s' → Φ 0 s') → runs (qmap_register_device n) s Φ.
Proof.
  intros [(Hqmi & Hbr & Hreal & Hlink) [Ha Hr] Hl Hs] Hn H. unfold qmap_register_device.
  apply runs_bind, net_alloc_ok; [done|]. apply runs_bind, ktime_any. intros t l.
  apply runs_bind, runs_get. apply runs_bind, runs_modify. apply runs_bind, net_result_ok; [done|].
  apply runs_bind, runs_modify, runs_bind, runs_get, runs_bind, runs_check.
  { simpl. rewrite Hl. lia. }
  apply runs_bind, runs_modify, runs_ret, H. split.
  - done.
  - done.
  - simpl. by rewrite length_insert.
  - intros i Hi. simpl. destruct (decide (i = n)) as [->|Hin].
    + rewrite list_lookup_insert_eq by (rewrite Hl; lia). split; [done|].
      rewrite lookup_insert_eq. eexists. split; [done|]. unfold fresh_net, fresh_priv. simpl.
      unfold version. simpl. by rewrite Hqmi, Hbr, Hreal.
    + rewrite list_lookup_insert_ne by lia. rewrite lookup_insert_ne by done. apply Hs. lia.
Qed.

Lemma register_loop s0 k n s : registered s0 n s → 0 ≤ n → n + Z.of_nat k ≤ 4 →
  runs (for_slots k n (λ i, ignore (qmap_register_device i))) s
    (λ _ s', registered s0 (n + Z.of_nat k) s').
Proof.
  revert n s. induction k as [|k IH]; intros n s H Hn Hk; simpl.
  - apply runs_ret. by rewrite Z.add_0_r.
  - apply runs_bind, runs_bind. eapply register_one; [done|lia|]. intros s' H'.
    apply runs_ret. eapply runs_mono; [apply IH; [done|lia|lia]|].
    intros [] s'' H''. by replace (n + Z.of_nat (S k)) with (n + 1 + Z.of_nat k) by lia.
Qed.

Lemma ready_registered s : ready_to_register s → registered s 0 s.
Proof. intros [Henv Hl Ha]. split; [done..|]. intros i Hi. lia. Qed.

(** The settings the channels start with. *)
Definition start_config (s : gobi) : gmap Z settings :=
  list_to_map (map (λ k, (Z.of_nat k, Settings (version s) (QUECTEL_QMAP_MUX_ID + Z.of_nat k) 2048 1))
    (seq 0 (Z.to_nat (mode s)))).

Lemma start_config_lookup s i c : start_config s !! i = Some c →
  0 ≤ i < mode s ∧ c = Settings (version s) (QUECTEL_QMAP_MUX_ID + i) 2048 1.
Proof.
  intros H. apply elem_of_list_to_map_2, list_elem_of_fmap in H as (k & E & Hk).
  injection E as -> ->. apply elem_of_seq in Hk. split; [lia|done].
Qed.

Lemma registered_multiplexed s s' : ready_to_register s → 1 < mode s ≤ 4 →
  registered s (mode s) s' → multiplexed s'.
Proof.
  intros [Henv Hl Ha] Hm [(Hqmi & Hbr & Hreal & _) [Ha' _] Hl' Hs].
  assert (mode s' = mode s) as Hmode by (unfold mode; by rewrite Hqmi).
  split; rewrite ?Hmode; try done.
  - intros i Hi. by apply Hs.
  - intros i Hi. destruct (Hs i Hi) as (_ & q & Hq & Hd & _ & _ & _ & _ & _ & Hmac).
    exists q. by rewrite Hd.
Qed.

Lemma registered_idle s s' : registered s (mode s) s' → m_bridge_mode (g_bridge s) = 0 →
  idle_channels (start_config s) s'.
Proof.
  intros [_ _ _ Hs] Hb i c Hc. apply start_config_lookup in Hc as [Hi ->].
  destruct (Hs i Hi) as (_ & q & Hq & Hd & Hset & _ & Hskb & Hcount & Hbr & _).
  exists q. split; [done|]. unfold chan_ok, agg_data. rewrite Hd, Hset, Hskb, Hbr, Hb, Z.bits_0. done.
Qed.

(** More channels than the array has slots. *)
Lemma register_overrun s0 k n s : registered s0 n s → 0 ≤ n ≤ 4 → 4 < n + Z.of_nat k →
  for_slots k n (λ i, ignore (qmap_register_device i)) s = OutOfBounds.
Proof.
  revert n s. induction k as [|k IH]; intros n s H Hn Hk; [lia|]. simpl.
  destruct (decide (n = 4)) as [->|Hn4].
  - destruct H as [_ [Ha Hr] Hl _].
    unfold ignore, qmap_register_device, net_alloc, ktime_get_ts64, net_result, mbind, stm_bind,
      get_state. simpl. rewrite Ha. simpl.
    destruct (clock (genv s)); simpl; rewrite Hr; simpl; unfold check_index; rewrite Hl; done.
  - assert (runs (ignore (qmap_register_device n)) s (λ _ s', registered s0 (n + 1) s')) as (u & s' & E & H').
    { apply runs_bind. eapply register_one; [done|lia|]. intros s' H'. by apply runs_ret. }
    unfold mbind at 1, stm_bind at 1. rewrite E. simpl. apply IH; [done|lia|lia].
Qed.

(** ** Removal *)

(** The slot of a channel whose device is freed. *)
Definition dangling (s : gobi) (i : Z) : Prop := has_slot s i ∧ qmap_nets s !! i = None.

(** A frame for it is copied, and then its device is read. *)
Lemma removed_channel_frame s p skb : rx_minimum_padding s = 0 → receivable (mode s) p →
  dangling s (pk_chan p) → allocs (genv s) = [] → skb_data skb = packet_bytes p → mode s ≤ 4 →
  _rmnet_usb_rx_handler skb s = OutOfBounds.
Proof.
  intros Hmin Hp [Hslot Hnet] Hal Hd Hm4.
  destruct (rx_frame_copied s p skb []) as (proto & t & skb' & _ & _ & E);
    [done..|by rewrite app_nil_r|].
  unfold _rmnet_usb_rx_handler. bind_done; [reflexivity|]. rewrite Hmin. apply stm_bind_fault.
  assert (4 < len skb) as Hlen.
  { unfold len. rewrite Hd, length_packet, length_app. destruct Hp as [_ _ [? Hpr] _ _].
    unfold protocol_of in Hpr. unfold header_size.
    destruct (f_payload (pk_frame p)); [done|]. simpl. destruct (pk_version p =? 9); lia. }
  assert (∃ k, rx_fuel skb = S k) as [k ->].
  { unfold rx_fuel. unfold len in Hlen. destruct (skb_data skb); [done|]. by eexists. }
  simpl rx_frames. rewrite (proj2 (Z.leb_gt _ _)) by done. apply stm_bind_fault. rewrite E.
  apply stm_bind_fault. unfold rx_push_eth. apply stm_bind_fault. unfold get_dev.
  apply stm_bind_fault. unfold get_net, mbind, stm_bind, get_state. simpl. by rewrite Hnet.
Qed.
