(* ===== verification/GobiLink.v ===== *)
(** * Link state and queues of the GobiNet channels

    [link_state] has a bit per channel; the device of a channel follows its bit, the
    modem's carrier their disjunction.  The queues of the channels are woken when
    the modem's queue has room again. *)

From S2P Require Import Prelude Kernel GobiQmi.
From stdpp Require Import gmap.
Import Qmi.
From S2P Require Import QmiDev QmiClient GobiSkb GobiNet GobiDrv GobiFrames.

#[local] Open Scope Z_scope.
#[local] Open Scope c_scope.

(** ** Bits *)

Lemma bits_below n x : 0 ≤ n → 0 ≤ x → (∀ m, n ≤ m → Z.testbit x m = false) → x < 2 ^ n.
Proof.
  intros Hn Hx H. destruct (Z.lt_ge_cases x (2 ^ n)) as [|Hge]; [done|].
  assert (0 < x) by (pose proof (Z.pow_pos_nonneg 2 n); lia).
  assert (Z.testbit x (Z.log2 x) = false) as E by (apply H; by apply Z.log2_le_pow2).
  by rewrite Z.bit_log2 in E by done.
Qed.

Lemma testbit_above n x m : 0 ≤ x < 2 ^ n → n ≤ m → Z.testbit x m = false.
Proof.
  intros Hx Hm. destruct (Z.eq_dec x 0) as [->|]; [apply Z.bits_0|].
  apply Z.bits_above_log2; [lia|]. apply Z.log2_lt_pow2; [lia|].
  eapply Z.lt_le_trans; [apply Hx|]. apply Z.pow_le_mono_r; lia.
Qed.

Lemma testbit_set_bit r x i : 0 ≤ r → Z.testbit (set_bit r x) i = Z.testbit x i || (i =? r).
Proof.
  intros. unfold set_bit. by rewrite Z.lor_spec, Z.shiftl_1_l, Z.pow2_bits_eqb, (Z.eqb_sym r) by done.
Qed.
Lemma testbit_clear_bit r x i : 0 ≤ r →
  Z.testbit (clear_bit r x) i = Z.testbit x i && negb (i =? r).
Proof.
  intros. unfold clear_bit.
  by rewrite Z.ldiff_spec, Z.shiftl_1_l, Z.pow2_bits_eqb, (Z.eqb_sym r) by done.
Qed.

Definition put_bit (up : bool) (r x : Z) : Z := if up then set_bit r x else clear_bit r x.

Lemma testbit_put_bit up r x i : 0 ≤ r →
  Z.testbit (put_bit up r x) i = if i =? r then up else Z.testbit x i.
Proof.
  intros. destruct up; simpl; rewrite ?testbit_set_bit, ?testbit_clear_bit by done;
    destruct (i =? r), (Z.testbit x i); done.
Qed.
Lemma put_bit_range up r x n : 0 ≤ r < n → 0 ≤ x < 2 ^ n → 0 ≤ put_bit up r x < 2 ^ n.
Proof.
  intros Hr Hx. assert (0 ≤ put_bit up r x).
  { unfold put_bit, set_bit, clear_bit. destruct up; [apply Z.lor_nonneg|apply Z.ldiff_nonneg; left];
      try split; try apply Z.shiftl_nonneg; lia. }
  split; [done|]. apply bits_below; [lia|done|]. intros m Hm.
  rewrite testbit_put_bit, (proj2 (Z.eqb_neq m r)) by lia. by apply (testbit_above n).
Qed.

(** ** The invariant *)

Record link_inv (s : gobi) : Prop := {
  li_mx : multiplexed s;
  li_range : 0 ≤ g_link_state s < 2 ^ mode s;
  li_priv i q : 0 ≤ i < mode s → qmap_nets s !! i = Some q →
    priv_link_state (q_priv q) = Z.testbit (g_link_state s) i;
  li_carrier : carrier_of (trace (qmi s)) = negb (g_link_state s =? 0);
}.

(** The driver sets the modem's carrier. *)
Definition real_carried (on : bool) (s : gobi) : gobi :=
  set_qmi (set_trace (Carrier on :: trace (qmi s))
    (set_net (see_link (negb (g_link_state s =? 0)) (net (qmi s))) (qmi s))) s.

Lemma set_carrier_real on s : set_carrier on Real_net s = Done ((), real_carried on s).
Proof. done. Qed.

(** The device of a channel after a change of its bit. *)
Definition follows (up : bool) (q q' : qmap_net) : Prop :=
  q_carrier q' = up ∧ priv_link_state (q_priv q') = up ∧
  dev_addr (q_dev q') = dev_addr (q_dev q) ∧ priv_bridge (q_priv q') = priv_bridge (q_priv q).

Lemma wake_if_possible_runs i s q : qmap_nets s !! i = Some q →
  runs (wake_if_possible (Qmap_net i)) s (λ _ s', ∃ b, s' = set_nets
    (<[i := QNet (set_stopped b (q_dev q)) (q_carrier q) (q_priv q)]> (qmap_nets s)) s ∧
    (queue_stopped (real_net s) = false → b = false)).
Proof.
  intros E. assert (s = set_nets (<[i := QNet (set_stopped (queue_stopped (q_dev q)) (q_dev q))
    (q_carrier q) (q_priv q)]> (qmap_nets s)) s) as Hid.
  { rewrite insert_id; [by destruct s|]. rewrite E. by destruct q as [[]]. }
  unfold wake_if_possible, netif_queue_stopped. apply runs_bind, runs_bind.
  eapply runs_exact; [by apply get_dev_at|]. apply runs_ret.
  destruct (queue_stopped (q_dev q)) eqn:Hst; simpl.
  2:{ apply runs_ret. by exists false. }
  apply runs_bind, runs_bind, runs_bind, runs_get, runs_ret, runs_ret.
  destruct (queue_stopped (real_net s)).
  { apply runs_ret. by exists true. }
  unfold netif_wake_queue, upd_dev. apply runs_bind. eapply runs_exact; [by apply get_net_at|].
  apply runs_modify. by exists false.
Qed.

Lemma follow_link_runs i s q : qmap_nets s !! i = Some q →
  runs (follow_link i i) s (λ _ s', ∃ q', s' = set_nets (<[i := q']> (qmap_nets s)) s ∧
    follows (Z.testbit (g_link_state s) i) q q' ∧
    (Z.testbit (g_link_state s) i = true → queue_stopped (real_net s) = false →
     queue_stopped (q_dev q') = false)).
Proof.
  intros E. unfold follow_link. apply runs_bind, runs_get, runs_bind.
  eapply runs_exact; [by apply get_priv_at|]. set (up := Z.testbit _ _). apply runs_bind.
  unfold put_priv. apply runs_bind. eapply runs_exact; [by apply get_net_at|]. apply runs_modify.
  set (s1 := set_nets _ s). set (q1 := QNet _ _ _) in s1.
  assert (qmap_nets s1 !! i = Some q1) as E1 by apply lookup_insert_eq.
  destruct up eqn:Hup.
  - unfold netif_carrier_on, set_carrier. apply runs_bind, runs_bind.
    eapply runs_exact; [by apply get_net_at|]. apply runs_modify.
    set (s2 := set_nets _ s1). set (q2 := QNet _ _ _) in s2.
    assert (qmap_nets s2 !! i = Some q2) as E2 by apply lookup_insert_eq.
    eapply runs_mono; [by apply wake_if_possible_runs|]. intros [] s3 (b & -> & Hb).
    eexists. split.
    { unfold s2, s1, set_nets. simpl. by rewrite !insert_insert_eq. }
    split; [done|]. intros _. exact Hb.
  - unfold netif_carrier_off, set_carrier. apply runs_bind.
    eapply runs_exact; [by apply get_net_at|]. apply runs_modify. eexists. split.
    { unfold s1, set_nets. simpl. by rewrite insert_insert_eq. }
    done.
Qed.

(** The bit of a channel changes: the modem's carrier and the channel's device
    follow. *)
Definition link_set (s s' : gobi) (i : Z) (up : bool) : Prop := ∃ q q',
  qmap_nets s !! i = Some q ∧ follows up q q' ∧
  (up = true → queue_stopped (real_net s) = false → queue_stopped (q_dev q') = false) ∧
  let link := put_bit up i (g_link_state s) in
  s' = set_nets (<[i := q']> (qmap_nets s)) (real_carried (negb (link =? 0)) (set_link link s)).

Lemma link_set_inv s s' i up : link_inv s → 0 ≤ i < mode s → link_set s s' i up → link_inv s'.
Proof.
  intros [M Hr Hp Hc] Hi (q & q' & Hq & (Hcar & Hpl & Ha & Hb) & _ & E).
  assert (mode s' = mode s) as Hmode by by rewrite E.
  assert (qmap_nets s' = <[i := q']> (qmap_nets s)) as Hn by by rewrite E.
  assert (g_link_state s' = put_bit up i (g_link_state s)) as Hl by by rewrite E.
  split.
  - split; rewrite ?Hmode, ?Hn; [apply M|by rewrite E; apply M| | |by rewrite E; apply M].
    + intros j Hj. rewrite E. by apply M.
    + intros j Hj. destruct (mx_net s M j Hj) as (qj & Hqj & Haj & Hbj).
      destruct (decide (j = i)) as [->|]; [|rewrite lookup_insert_ne by done; by exists qj].
      rewrite lookup_insert_eq. exists q'. assert (qj = q) as -> by congruence. by rewrite Ha, Hb.
  - rewrite Hmode, Hl. by apply put_bit_range.
  - intros j qj Hj. rewrite Hmode in Hj. rewrite Hn, Hl, testbit_put_bit by lia.
    destruct (Z.eqb_spec j i) as [->|]; [rewrite lookup_insert_eq; by intros [= <-]|].
    rewrite lookup_insert_ne by done. by apply Hp.
  - by rewrite Hl, E.
Qed.

(** A value written to [link_state]: a channel's number in the low seven bits, and
    bit 7 for its link to go down. *)
Definition written_link (value : Z) : Z * bool :=
  ((u32 value &' 0x7F) - 1, negb (Z.testbit (u32 value) 7)).

Lemma link_state_store_runs s value count : link_inv s →
  let '(i, up) := written_link value in
  runs (link_state_store value count) s (λ r s', r = count ∧
    if (0 <=? i) && (i <? mode s) && negb (Bool.eqb (Z.testbit (g_link_state s) i) up)
    then link_set s s' i up else s' = s).
Proof.
  intros HI. unfold written_link. cbv zeta.
  set (link := u32 value). set (up := negb (Z.testbit link 7)).
  pose proof HI as [M Hr Hp Hc]. destruct (mx_mode s M) as [Hm1 Hm4].
  assert (0 ≤ (link &' 0x7F) < 128) as Hlow.
  { change 0x7F with (Z.ones 7). rewrite Z.land_ones by lia. apply Z.mod_pos_bound. lia. }
  unfold link_state_store. apply runs_bind, runs_get. fold link.
  rewrite (proj2 (Z.eqb_neq (mode s) 1)), (proj2 (Z.ltb_lt 1 (mode s))) by lia.
  set (i := (link &' 0x7F) - 1).
  destruct (decide (0 ≤ i < mode s)) as [Hi|Hi].
  2:{ rewrite (proj2 (Z.leb_le (mode s) _)).
      - apply runs_ret. split; [done|]. replace ((0 <=? i) && (i <? mode s)) with false by lia. done.
      - destruct (decide (i = -1)) as [->|]; [change (u32 (-1)) with (2 ^ 32 - 1); lia|].
        rewrite u32_small by lia. lia. }
  rewrite u32_small by lia. rewrite (proj2 (Z.leb_gt (mode s) i)) by lia.
  replace ((0 <=? i) && (i <? mode s)) with true by lia. rewrite andb_true_l.
  replace (if Z.testbit link 7 then _ else _) with (put_bit up i (g_link_state s))
    by (unfold up; by destruct (Z.testbit link 7)).
  apply runs_bind, runs_modify, runs_bind.
  destruct (Bool.eqb (Z.testbit (g_link_state s) i) up) eqn:Hsame; simpl negb; cbv iota.
  - apply Bool.eqb_prop in Hsame.
    assert (put_bit up i (g_link_state s) = g_link_state s) as ->.
    { apply Z.bits_inj'. intros n Hn. rewrite testbit_put_bit by lia.
      destruct (Z.eqb_spec n i) as [->|]; done. }
    rewrite Z.eqb_refl. apply runs_ret, runs_ret. by destruct s.
  - apply Bool.eqb_false_iff in Hsame. rewrite (proj2 (Z.eqb_neq _ _)).
    2:{ intros E. apply Hsame. rewrite E, testbit_put_bit, Z.eqb_refl by lia. done. }
    destruct (mx_net s M i Hi) as (q & Hq & _). unfold link_changed.
    set (s1 := set_link _ s).
    apply runs_bind. eapply runs_exact.
    { apply slot_at; [|by apply (mx_slot s M)]. unfold flen. simpl. rewrite (mx_slots s M). lia. }
    apply runs_bind, runs_get, runs_bind.
    eapply runs_exact with (w' := real_carried (negb (g_link_state s1 =? 0)) s1).
    { by destruct (g_link_state s1 =? 0). }
    eapply runs_mono; [by eapply follow_link_runs|].
    intros [] s' (q' & -> & Hf & Hw). apply runs_ret. split; [done|]. exists q, q'.
    simpl in Hf, Hw. rewrite testbit_put_bit, Z.eqb_refl in Hf, Hw by lia. done.
Qed.

(** ** The queues *)

(** A packet the driver marked is freed and the tasklet runs: when the modem's
    queue is awake, no channel's queue stays stopped. *)
Lemma wake_queues_runs k n s : multiplexed s → 0 ≤ n → n + Z.of_nat k = mode s →
  queue_stopped (real_net s) = false →
  (∀ i q, 0 ≤ i < n → qmap_nets s !! i = Some q → queue_stopped (q_dev q) = false) →
  runs (wake_queues k n) s (λ _ s',
    ∀ i q, 0 ≤ i < mode s → qmap_nets s' !! i = Some q → queue_stopped (q_dev q) = false).
Proof.
  revert n s. induction k as [|k IH]; intros n s M Hn Hk Hreal Hdone.
  - apply runs_ret. intros i q Hi. apply Hdone. lia.
  - assert (0 ≤ n < mode s) as Hns by lia. destruct (mx_mode s M) as [_ Hm4].
    destruct (mx_net s M n Hns) as (q & Hq & Ha & Hb). simpl.
    apply runs_bind. eapply runs_exact.
    { apply slot_at; [|by apply (mx_slot s M)]. unfold flen. rewrite (mx_slots s M). lia. }
    apply runs_bind.
    eapply runs_mono with (Φ := λ _ s', ∃ d, s' = set_nets
      (<[n := QNet d (q_carrier q) (q_priv q)]> (qmap_nets s)) s ∧ queue_stopped d = false ∧
      dev_addr d = dev_addr (q_dev q)).
    { apply runs_bind. unfold netif_queue_stopped. apply runs_bind.
      eapply runs_exact; [by apply get_dev_at|]. apply runs_ret.
      destruct (queue_stopped (q_dev q)) eqn:Hst.
      - apply runs_bind, runs_bind, runs_bind, runs_get, runs_ret, runs_ret. rewrite Hreal.
        apply runs_bind. eapply runs_exact; [by apply get_net_at|]. apply runs_modify.
        by exists (set_stopped false (q_dev q)).
      - apply runs_ret. exists (q_dev q). split; [|done]. rewrite insert_id; [by destruct s|].
        rewrite Hq. by destruct q. }
    intros [] s1 (d & E & Hd & Had).
    assert (mode s1 = mode s) as Hmode by by rewrite E.
    eapply runs_mono.
    { apply (IH (n + 1) s1); [|lia|rewrite Hmode; lia|by rewrite E|].
      - split; rewrite ?Hmode; try apply M; try (rewrite E; apply M).
        intros i Hi. destruct (mx_net s M i Hi) as (qi & Hqi & Hai & Hbi). rewrite E. simpl.
        destruct (decide (i = n)) as [->|]; [|rewrite lookup_insert_ne by done; by exists qi].
        rewrite lookup_insert_eq. eexists. split; [done|]. simpl. by rewrite Had.
      - intros i qi Hi. rewrite E. simpl. destruct (decide (i = n)) as [->|].
        + rewrite lookup_insert_eq. by intros [= <-].
        + rewrite lookup_insert_ne by done. apply Hdone. lia. }
    intros [] s2. by rewrite Hmode.
Qed.

Lemma schedule_if_stopped_runs k n s : multiplexed s → 0 ≤ n → n + Z.of_nat k = mode s →
  runs (schedule_if_stopped k n) s (λ _ s', (s' = set_txq true s ∧
      ∃ i q, n ≤ i < mode s ∧ qmap_nets s !! i = Some q ∧ queue_stopped (q_dev q) = true) ∨
    (s' = s ∧ ∀ i q, n ≤ i < mode s → qmap_nets s !! i = Some q → queue_stopped (q_dev q) = false)).
Proof.
  intros M. revert n. induction k as [|k IH]; intros n Hn Hk.
  - apply runs_ret. right. split; [done|]. intros. lia.
  - assert (0 ≤ n < mode s) as Hns by lia. destruct (mx_mode s M) as [_ Hm4].
    destruct (mx_net s M n Hns) as (q & Hq & _). simpl.
    apply runs_bind. eapply runs_exact.
    { apply slot_at; [|by apply (mx_slot s M)]. unfold flen. rewrite (mx_slots s M). lia. }
    apply runs_bind. unfold netif_queue_stopped. apply runs_bind.
    eapply runs_exact; [by apply get_dev_at|]. apply runs_ret.
    destruct (queue_stopped (q_dev q)) eqn:Hst.
    + apply runs_modify. left. split; [done|]. exists n, q. split; [lia|done].
    + eapply runs_mono; [apply IH; lia|].
      intros [] s' [(-> & i & qi & Hi & H)|(-> & H)]; [left|right]; (split; [done|]).
      * exists i, qi. split; [lia|done].
      * intros i qi Hi Hqi. destruct (decide (i = n)) as [->|]; [congruence|]. apply (H i); [lia|done].
Qed.
