(* ===== verification/GobiProps.v ===== *)
(** * Properties of the GobiNet network device *)

From S2P Require Import Prelude Kernel GobiQmi.
From stdpp Require Import gmap.
Import Qmi.
From S2P Require Import QmiDev QmiClient GobiSkb GobiNet GobiDrv GobiExample GobiFrames GobiRx.
From S2P Require Import GobiAgg GobiTx GobiLife GobiLink.

#[local] Open Scope Z_scope.
#[local] Open Scope c_scope.

(** ** The example modem *)

Definition modem : gobi := plugged 2 0x0125.

Lemma modem_multiplexed : multiplexed modem.
Proof.
  split.
  - vm_compute. by split.
  - by vm_compute.
  - intros i Hi. change (mode modem) with 2 in Hi.
    assert (i = 0 ∨ i = 1) as [-> | ->] by lia; by vm_compute.
  - intros i Hi. change (mode modem) with 2 in Hi.
    assert (i = 0 ∨ i = 1) as [-> | ->] by lia; vm_compute; eexists; by split_and!.
  - by vm_compute.
Qed.

(** The same modem once it has negotiated aggregation of up to four frames in 4096
    bytes, and its channels are open. *)
Definition open_modem : gobi :=
  result_state ((run_qmi (modify_data (set_agg (UlAgg 4 4096 0)));;
                 run_qmi (modify_data (set_ready true));;
                 ignore (qmap_open 0);; ignore (qmap_open 1)) modem) modem.

(** The channels of the open modem, as the configuration of the transmission. *)
Definition modem_config : gmap Z settings :=
  <[0 := Settings 5 0x81 4096 4]> (<[1 := Settings 5 0x82 4096 4]> ∅).

Lemma modem_config_lookup i c : modem_config !! i = Some c →
  (i = 0 ∨ i = 1) ∧ c = Settings 5 (QUECTEL_QMAP_MUX_ID + i) 4096 4.
Proof.
  unfold modem_config. destruct (decide (i = 0)) as [->|].
  { rewrite lookup_insert_eq. intros [= <-]. auto. }
  rewrite lookup_insert_ne by done. destruct (decide (i = 1)) as [->|].
  { rewrite lookup_insert_eq. intros [= <-]. auto. }
  by rewrite lookup_insert_ne, lookup_empty by done.
Qed.

Lemma modem_config_ok : config_ok modem_config.
Proof.
  intros i c H. apply modem_config_lookup in H as [_ ->]. split; [by left|].
  split; simpl; lia.
Qed.

Lemma modem_idle : idle_channels modem_config open_modem.
Proof.
  intros i c H. apply modem_config_lookup in H as [[-> | ->] ->]; vm_compute; eexists;
    (split; [done|]); by split_and!.
Qed.

(** An Ethernet packet: IPv4 and ICMP, with [n] bytes of payload. *)
Definition example_ip (n : nat) (x : Z) : list Z :=
  [0x45; 0; 0; 0; 0; 0; 0; 0; 64; 1; 0; 0; 10; 0; 0; 1; 10; 0; 0; 2] ++ replicate n x.
Definition example_eth (n : nat) (x : Z) : sk_buff :=
  Skb (replicate 16 0) (replicate 12 0 ++ [8; 0] ++ example_ip n x) (replicate 64 0)
    ETH_P_IP (Qmap_net 0) Socket_destructor false.

Lemma example_eth_ok c x : st_size c = 4096 → skb_ok c (example_eth 31 x).
Proof. intros E. unfold skb_ok. rewrite E. vm_compute. repeat split; try lia; by intros. Qed.

Definition example_ops : list tx_op :=
  [Xmit 0 (example_eth 31 1) true; Xmit 1 (example_eth 31 2) true; Xmit 0 (example_eth 31 3) true;
   Agg_timer 0; Agg_work 0; Xmit 1 (example_eth 31 4) false].

Lemma modem_config_at i : i = 0 ∨ i = 1 →
  modem_config !! i = Some (Settings 5 (QUECTEL_QMAP_MUX_ID + i) 4096 4).
Proof. by intros [-> | ->]; vm_compute. Qed.

Lemma example_xmit_ok i n x : i = 0 ∨ i = 1 → n = 31%nat →
  ∃ c, modem_config !! i = Some c ∧ skb_ok c (example_eth n x).
Proof. intros Hi ->. eexists. split; [by apply modem_config_at|by apply example_eth_ok]. Qed.

Lemma example_ops_ok : Forall (op_ok modem_config) example_ops.
Proof.
  apply Forall_forall. intros op Hop. unfold example_ops in Hop. set_unfold in Hop.
  destruct Hop as [->|[->|[->|[->|[->|[->|[]]]]]]];
    try (apply example_xmit_ok; auto; fail); eexists; apply modem_config_at; auto.
Qed.

(** ** Transmission *)

(** C7: for every sequence of transmissions, timers, works and stops of the modem's
    queue, what is handed to the modem's device are groups of whole frames, each of
    one channel and within its limits (at most the negotiated number of frames, and
    several frames only below the negotiated size); with what still waits, the frames
    of a channel carry exactly the packets it took, in order; and what waits has its
    timer queued or its work scheduled. *)
Theorem tx_groups (cfg : gmap Z settings) ops s : config_ok cfg → idle_channels cfg s → Forall (op_ok cfg) ops →
  runs (run_tx_ops ops) s (λ taken s', ∃ tags,
    sent s' = sent s ++ map (tag_bytes cfg) tags ∧
    Forall (λ t, is_Some (cfg !! t.1)) tags ∧
    ∀ i c, cfg !! i = Some c → chan_inv i c s' tags taken).
Proof.
  intros Hcfg Hidle Hops. eapply runs_mono.
  { eapply (run_tx_ops_inv cfg (sent s)); [done|done|by apply tx_inv_start]. }
  intros taken s' (tags & [Hs Ht Hc]). by exists tags.
Qed.

Lemma tx_groups_witness :
  config_ok modem_config ∧ idle_channels modem_config open_modem ∧
  Forall (op_ok modem_config) example_ops ∧
  runs (run_tx_ops example_ops) open_modem (λ taken s', ∃ tags,
    sent s' = sent open_modem ++ map (tag_bytes modem_config) tags ∧
    Forall (λ t, is_Some (modem_config !! t.1)) tags ∧
    ∀ i c, modem_config !! i = Some c → chan_inv i c s' tags taken).
Proof.
  split; [apply modem_config_ok|]. split; [apply modem_idle|]. split; [apply example_ops_ok|].
  apply tx_groups; [apply modem_config_ok|apply modem_idle|apply example_ops_ok].
Defined.

(** The packets a receiver takes: of an IP version, at most 1500 bytes. *)
Definition ip_packet (payload : list Z) : Prop :=
  is_Some (protocol_of payload) ∧ flen payload ≤ 1500.

(** Every packet a run takes satisfies [P]. *)
Definition takes_only (P : list Z → Prop) (op : tx_op) : Prop :=
  match op with
  | Xmit _ skb _ => ∀ skb', ether_to_ip_fixup skb = Done (Some skb') → P (skb_data skb')
  | _ => True
  end.

Lemma accepted_only P s op : takes_only P op → Forall (λ x, P x.2) (accepted s op).
Proof.
  destruct op; simpl; intros H; repeat case_match; try constructor; try done. by apply H.
Qed.

Lemma run_tx_ops_only P ops s taken s' : Forall (takes_only P) ops →
  run_tx_ops ops s = Done (taken, s') → Forall (λ x, P x.2) taken.
Proof.
  intros H. revert s taken. induction H as [|op ops Hop _ IH]; intros s taken E.
  - injection E as <- <-. constructor.
  - simpl in E. unfold mbind, stm_bind, get_state in E. simpl in E.
    destruct (run_tx_op op s) as [[u s1]| |]; [|done..]. simpl in E.
    destruct (run_tx_ops ops s1) as [[rest s2]| |] eqn:E1; [|done..]. simpl in E.
    injection E as <- <-. apply Forall_app. split; [by apply accepted_only|by eapply IH].
Qed.

(** Every frame of the tags is one of a packet that was taken. *)
Lemma chan_inv_receivable (cfg : gmap Z settings) i c s' tags taken n : cfg !! i = Some c → settings_ok c →
  0 ≤ i < n → Forall (λ x, ip_packet x.2) taken → chan_inv i c s' tags taken →
  Forall (receivable n) (map (Packet (st_version c) i) (chan_frames i tags)).
Proof.
  intros Hc [Hv _] Hi Htaken (q & pend & _ & _ & _ & Hpay & _ & Hfr).
  apply Forall_app in Hfr as [Hfr _]. apply Forall_forall. intros p Hp.
  apply list_elem_of_In, in_map_iff in Hp as (f & <- & Hf).
  assert (f_payload f ∈ of_chan i taken) as Hin.
  { rewrite <- Hpay, map_app. apply elem_of_app. left.
    by apply list_elem_of_In, in_map_iff; exists f. }
  apply list_elem_of_In, in_map_iff in Hin as ([j x] & Ex & Hx). simpl in Ex. subst x.
  apply list_elem_of_In, list_elem_of_filter in Hx as [_ Hx].
  rewrite Forall_forall in Htaken. destruct (Htaken _ Hx) as [Hproto Hlen].
  split; simpl; [done|done|done|done|]. rewrite Forall_forall in Hfr.
  by apply Hfr, list_elem_of_In.
Qed.

Lemma tags_receivable (cfg : gmap Z settings) s' tags taken n :
  (∀ i c, cfg !! i = Some c → settings_ok c ∧ 0 ≤ i < n ∧ chan_inv i c s' tags taken) →
  Forall (λ t, is_Some (cfg !! t.1)) tags → Forall (λ x, ip_packet x.2) taken →
  Forall (Forall (receivable n)) (map (tag_packets cfg) tags).
Proof.
  intros Hch Ht Htaken. apply Forall_forall. intros ps Hps.
  apply list_elem_of_In, in_map_iff in Hps as ([i fs] & <- & Htag).
  rewrite Forall_forall in Ht. apply list_elem_of_In in Htag as Htag'.
  destruct (Ht _ Htag') as [c Hc]. simpl in Hc. destruct (Hch i c Hc) as (Hset & Hi & Hinv).
  pose proof (chan_inv_receivable cfg i c s' tags taken n Hc Hset Hi Htaken Hinv) as Hall.
  rewrite Forall_forall in Hall. apply Forall_forall. intros p Hp.
  unfold tag_packets in Hp. simpl in Hp. rewrite Hc in Hp. simpl in Hp. apply Hall.
  apply list_elem_of_In, in_map_iff in Hp as (f & <- & Hf).
  apply list_elem_of_In, in_map_iff. exists f. split; [done|].
  unfold chan_frames. apply in_concat. exists fs. split; [|done].
  unfold of_chan. apply in_map_iff. exists (i, fs). split; [done|].
  by apply list_elem_of_In, list_elem_of_filter.
Qed.

(** C6: the two ends agree.  Whatever the order of transmissions, timers and works,
    when nothing waits any more a receiver that gets the buffers that were sent
    delivers, on every channel, exactly the packets that channel took, in order. *)
Theorem qmap_loopback (cfg : gmap Z settings) ops s r : config_ok cfg → idle_channels cfg s →
  Forall (op_ok cfg) ops → Forall (takes_only ip_packet) ops →
  multiplexed r → rx_minimum_padding r = 0 →
  (∀ i c, cfg !! i = Some c → 0 ≤ i < mode r ∧ st_mux c = QUECTEL_QMAP_MUX_ID + i) →
  runs (run_tx_ops ops) s (λ taken s', ∀ skbs,
    sent s' = sent s ++ map skb_data skbs →
    (∀ i q, is_Some (cfg !! i) → qmap_nets s' !! i = Some q → agg_skb (q_priv q) = None) →
    runs (rx_all skbs) r (λ _ r', ∀ i, is_Some (cfg !! i) →
      received_on i r' = received_on i r ++ of_chan i taken)).
Proof.
  intros Hcfg Hidle Hops Honly M Hm Hmux.
  destruct (run_tx_ops_inv cfg (sent s) s [] [] ops Hcfg Hops (tx_inv_start cfg s Hidle))
    as (taken & s' & E & tags & [Hs Ht Hc]).
  eapply runs_exact; [exact E|]. intros skbs Hsent Hempty. simpl in Hc.
  pose proof (run_tx_ops_only ip_packet ops s taken s' Honly E) as Htaken.
  assert (map skb_data skbs = map (λ ps, concat (map packet_bytes ps)) (map (tag_packets cfg) tags)) as Hdata.
  { rewrite Hs in Hsent. apply app_inv_head in Hsent. rewrite <- Hsent, map_map.
    apply map_ext_in. intros t Hin. apply list_elem_of_In in Hin. rewrite Forall_forall in Ht.
    destruct (Ht t Hin) as [c Hct]. symmetry. apply (tag_packets_bytes cfg t c Hct).
    by apply (Hmux _ _ Hct). }
  eapply runs_mono.
  { apply (rx_all_packets r (map (tag_packets cfg) tags)); [done|done| |exact Hdata].
    eapply tags_receivable; [|done|exact Htaken]. intros i c Hic.
    split; [by eapply Hcfg|]. split; [by apply (Hmux i c)|by apply Hc]. }
  intros [] r' Hr i [c Hic]. unfold received_on. rewrite Hr, omap_app. f_equal.
  rewrite received_on_tags. destruct (Hc i c Hic) as (q & pend & Hq & Hok & _ & Hpay & _).
  destruct Hok as (_ & _ & _ & Hag). unfold agg_data in Hag.
  rewrite (Hempty i q ltac:(by eexists) Hq) in Hag. destruct Hag as [-> _].
  by rewrite app_nil_r in Hpay.
Qed.

Lemma example_ops_only : Forall (takes_only ip_packet) example_ops.
Proof.
  apply Forall_forall. intros op Hop. unfold example_ops in Hop. set_unfold in Hop.
  destruct Hop as [->|[->|[->|[->|[->|[->|[]]]]]]]; try done;
    intros skb E; vm_compute in E; injection E as <-;
    (split; [vm_compute; by eexists|vm_compute; by intros]).
Qed.

Lemma qmap_loopback_witness :
  Forall (op_ok modem_config) example_ops ∧ Forall (takes_only ip_packet) example_ops ∧
  multiplexed modem ∧ rx_minimum_padding modem = 0 ∧
  runs (run_tx_ops example_ops) open_modem (λ taken s', ∀ skbs,
    sent s' = sent open_modem ++ map skb_data skbs →
    (∀ i q, is_Some (modem_config !! i) → qmap_nets s' !! i = Some q →
       agg_skb (q_priv q) = None) →
    runs (rx_all skbs) modem (λ _ r', ∀ i, is_Some (modem_config !! i) →
      received_on i r' = received_on i modem ++ of_chan i taken)).
Proof.
  split; [apply example_ops_ok|]. split; [apply example_ops_only|].
  split; [apply modem_multiplexed|]. split; [by vm_compute|].
  apply qmap_loopback; [apply modem_config_ok|apply modem_idle|apply example_ops_ok
    |apply example_ops_only|apply modem_multiplexed|by vm_compute|].
  intros i c H. apply modem_config_lookup in H as [Hi ->]. change (mode modem) with 2.
  split; [lia|done].
Defined.

(** The run of the example: two frames of channel 0 together when the work runs, then
    the two of channel 1, whose last packet asks to be sent at once. *)
Example loopback_example :
  match run_tx_ops example_ops open_modem with
  | Done (taken, s') =>
    map (λ l, length l) (sent s') = [112; 112]%nat ∧
    map fst taken = [0; 1; 0; 1] ∧
    match rx_all (map (λ l, Skb [] l [] ETH_P_MAP Real_net No_destructor false) (sent s')) modem with
    | Done (_, r') => received_on 0 r' = [example_ip 31 1; example_ip 31 3] ∧
                      received_on 1 r' = [example_ip 31 2; example_ip 31 4]
    | _ => False
    end
  | _ => False
  end.
Proof. by vm_compute. Qed.

(** ** Reception *)

(** C24: the receiver comes to an end on every buffer of bytes, whatever the state of
    the device. *)
Theorem rx_handler_ends skb s : buffer_ok skb → _rmnet_usb_rx_handler skb s ≠ OutOfFuel.
Proof.
  intros Hok E. assert (finishes (_rmnet_usb_rx_handler skb) s (λ _ _, True)) as H.
  { apply finishes_bind, finishes_get, finishes_bind.
    eapply finishes_mono; [by apply rx_frames_finishes|].
    intros chain s' _. apply finished_rx_deliver_all. }
  unfold finishes in H. by rewrite E in H.
Qed.

Lemma rx_handler_ends_witness :
  buffer_ok (Skb [] [0x45; 0x81; 0xff; 0xff; 0; 0; 0] [] 0 Real_net No_destructor false) ∧
  _rmnet_usb_rx_handler (Skb [] [0x45; 0x81; 0xff; 0xff; 0; 0; 0] [] 0 Real_net No_destructor false)
    modem ≠ OutOfFuel.
Proof.
  assert (buffer_ok (Skb [] [0x45; 0x81; 0xff; 0xff; 0; 0; 0] [] 0 Real_net No_destructor false)).
  { unfold buffer_ok. simpl. repeat (apply Forall_cons; split; [lia|]). constructor. }
  split; [done|by apply rx_handler_ends].
Defined.

(** The first frame of a buffer as the receiver reads it: a data frame of an IP
    version, whole, and not longer than 1500 bytes. *)
Definition plausible_frame (s : gobi) (skb : sk_buff) (h : map_header) : Prop :=
  QMAP_HDR < len skb ∧ read_map_header skb = Done h ∧ cd_bit h = false ∧
  s32 (hdr_pkt_len h - pad_len h - rx_minimum_padding s) ≤ 1500 ∧
  0 ≤ hdr_pkt_len h + hdr_size h ≤ len skb ∧
  ∃ b, skb_byte skb (hdr_size h) = Done b ∧ is_Some (ip_protocol b).

Lemma rx_first_frame s skb h : plausible_frame s skb h →
  rx_frame (rx_minimum_padding s) skb s = OutOfBounds →
  _rmnet_usb_rx_handler skb s = OutOfBounds.
Proof.
  intros (Hl & _) E. unfold _rmnet_usb_rx_handler, rx_fuel, mbind, stm_bind, get_state. simpl.
  destruct (skb_data skb) eqn:Hd; [by unfold len in Hl; rewrite Hd in Hl|]. simpl.
  rewrite (proj2 (Z.leb_gt _ _)) by done. unfold mbind, stm_bind. by rewrite E.
Qed.

(** C25: the receiver compares a channel only with the number of channels: a data
    frame with a mux id below 0x81 is looked up at a negative index of
    [mpQmapNetDev]; and a frame whose padding is more than its length makes the
    length of the copy negative. *)
Theorem rx_header_unchecked s skb h : multiplexed s → plausible_frame s skb h →
  hdr_mux_id h < QUECTEL_QMAP_MUX_ID ∨
  (0 ≤ hdr_mux_id h - QUECTEL_QMAP_MUX_ID < mode s ∧
   s32 (hdr_pkt_len h - pad_len h - rx_minimum_padding s) < 0) →
  _rmnet_usb_rx_handler skb s = OutOfBounds.
Proof.
  intros M Hp Hbad. eapply rx_first_frame; [done|].
  destruct Hp as (_ & Hh & Hcd & Hlen & Hpull & b & Hb & proto & Hproto).
  destruct (mx_mode s M) as [Hm1 Hm4].
  unfold rx_frame, mbind, stm_bind, lift. rewrite Hh. cbn beta iota delta [mbind outcome_bind].
  rewrite (proj2 (Z.ltb_ge _ _)) by done. unfold skb_pull.
  rewrite (proj2 (andb_true_iff _ _)) by (rewrite !Z.leb_le; lia).
  rewrite Hcd, Hb. cbn beta iota delta [mbind outcome_bind]. rewrite Hproto. unfold get_state.
  cbn beta iota delta [mbind outcome_bind].
  destruct Hbad as [Hneg|[Hmux Hneg]]; rewrite (proj2 (Z.leb_gt (mode s) _)) by lia.
  - unfold slot, mbind, stm_bind, get_state, check_index. cbn beta iota delta [mbind outcome_bind].
    by rewrite (proj2 (Z.leb_gt 0 _)) by lia.
  - rewrite (slot_at s _ (Some (Qmap_net (hdr_mux_id h - QUECTEL_QMAP_MUX_ID)))).
    2:{ unfold flen. rewrite (mx_slots s M). lia. }
    2:{ by apply (mx_slot s M). }
    cbn beta iota delta [mbind outcome_bind]. unfold copy_packet, mbind, stm_bind.
    rewrite netdev_alloc_done by apply (mx_allocs s M). cbn beta iota delta [mbind outcome_bind].
    by rewrite (proj2 (Z.ltb_lt _ 0)) by done.
Qed.

Definition bad_mux : sk_buff :=
  Skb [] ([0; 0x80; 0; 20] ++ example_ip 0 0) [] ETH_P_MAP Real_net No_destructor false.

Lemma rx_header_unchecked_witness :
  plausible_frame modem bad_mux (MapHeader 0 false false 0x80 20) ∧
  _rmnet_usb_rx_handler bad_mux modem = OutOfBounds.
Proof.
  assert (plausible_frame modem bad_mux (MapHeader 0 false false 0x80 20)) as H.
  { unfold plausible_frame. split; [by vm_compute|]. split; [by vm_compute|].
    split; [done|]. split; [by vm_compute|]. split; [by vm_compute|].
    exists 0x45. split; [by vm_compute|by eexists]. }
  split; [exact H|]. apply (rx_header_unchecked modem bad_mux _ modem_multiplexed H).
  left. by vm_compute.
Defined.

(** ** Life cycle *)

(** C9: when the devices of up to four channels are registered, the receiver finds
    every channel, and transmission can start on all of them with the initial
    settings: single frames with the mux ids 0x81, 0x82, ... *)
Theorem register_channels s : ready_to_register s → 1 < mode s ≤ 4 →
  m_bridge_mode (g_bridge s) = 0 →
  runs (for_slots (Z.to_nat (mode s)) 0 (λ i, ignore (qmap_register_device i))) s
    (λ _ s', multiplexed s' ∧ idle_channels (start_config s) s' ∧ g_link_state s' = g_link_state s).
Proof.
  intros R Hm Hb. eapply runs_mono.
  { apply (register_loop s); [by apply ready_registered|lia|lia]. }
  intros [] s' H. rewrite Z.add_0_l, Z2Nat.id in H by lia.
  split; [by eapply registered_multiplexed|]. split; [by apply registered_idle|].
  by destruct (rg_same _ _ _ H) as (_ & _ & _ & ?).
Qed.

(** The modem in front of the registration. *)
Definition unregistered (n : Z) : gobi :=
  set_slots (replicate 4 None) (set_nets ∅
    (set_qmi (set_net (with_modes true false n 5 (net (qmi modem))) (qmi modem)) modem)).

Lemma unregistered_ready n : ready_to_register (unregistered n).
Proof. by split; [split; vm_compute|vm_compute..]. Qed.

Lemma register_channels_witness :
  ready_to_register (unregistered 3) ∧ 1 < mode (unregistered 3) ≤ 4 ∧
  runs (for_slots (Z.to_nat (mode (unregistered 3))) 0 (λ i, ignore (qmap_register_device i)))
    (unregistered 3)
    (λ _ s', multiplexed s' ∧ idle_channels (start_config (unregistered 3)) s' ∧
       g_link_state s' = g_link_state (unregistered 3)).
Proof.
  assert (1 < mode (unregistered 3) ≤ 4) as H by (split; by vm_compute).
  split; [apply unregistered_ready|]. split; [exact H|].
  apply (register_channels (unregistered 3) (unregistered_ready 3) H). by vm_compute.
Defined.

(** C30: the parameter [qmap_mode] is not bounded: with more than four channels the
    registration stores behind the end of [mpQmapNetDev]. *)
Theorem too_many_channels s : ready_to_register s → 4 < mode s →
  for_slots (Z.to_nat (mode s)) 0 (λ i, ignore (qmap_register_device i)) s = OutOfBounds.
Proof.
  intros R Hm. apply (register_overrun s); [by apply ready_registered|lia|lia].
Qed.

Lemma too_many_channels_witness : ready_to_register (unregistered 8) ∧ 4 < mode (unregistered 8) ∧
  for_slots (Z.to_nat (mode (unregistered 8))) 0 (λ i, ignore (qmap_register_device i))
    (unregistered 8) = OutOfBounds.
Proof.
  assert (4 < mode (unregistered 8)) as H by by vm_compute.
  split; [apply unregistered_ready|]. split; [exact H|].
  exact (too_many_channels (unregistered 8) (unregistered_ready 8) H).
Defined.

(** C26: disconnection frees the devices of the channels first and leaves their
    addresses in [mpQmapNetDev]: a frame that arrives before the modem's device is
    gone is delivered to freed memory. *)
Theorem removed_channel_fault s p skb : multiplexed s → rx_minimum_padding s = 0 →
  receivable (mode s) p → skb_data skb = packet_bytes p →
  runs (qmap_unregister_device (pk_chan p)) s
    (λ _ s', _rmnet_usb_rx_handler skb s' = OutOfBounds).
Proof.
  intros M Hmin Hp Hd. destruct (mx_mode s M) as [Hm1 Hm4]. pose proof (rc_chan _ _ Hp) as Hi.
  destruct (mx_net s M _ Hi) as (q & Hq & _). set (i := pk_chan p) in *.
  unfold qmap_unregister_device. apply runs_bind. eapply runs_exact.
  { apply slot_at; [|by apply (mx_slot s M)]. unfold flen. rewrite (mx_slots s M). lia. }
  cbv beta iota. unfold netif_carrier_off, set_carrier. apply runs_bind, runs_bind.
  eapply runs_exact; [by apply get_net_at|]. apply runs_modify.
  unfold netif_stop_queue, upd_dev. apply runs_bind, runs_bind.
  eapply runs_exact; [apply get_net_at, lookup_insert_eq|]. apply runs_modify.
  apply runs_bind. eapply runs_exact; [apply get_priv_at, lookup_insert_eq|]. apply runs_bind.
  unfold put_priv. apply runs_bind. eapply runs_exact; [apply get_net_at, lookup_insert_eq|].
  apply runs_modify. apply runs_bind.
  eapply runs_mono with (Φ := λ _ s', qmi s' = qmi s ∧ mpQmapNetDev s' = mpQmapNetDev s ∧
    allocs (genv s') = []).
  { simpl. destruct (agg_skb (q_priv q)); [apply runs_modify|apply runs_ret];
      (split; [done|split; [done|apply (mx_allocs s M)]]). }
  intros [] s1 (Hqmi & Hsl & Hal). apply runs_bind, runs_modify, runs_modify.
  set (s2 := set_nets _ _).
  assert (mode s2 = mode s) as Hmode by (unfold mode; simpl; by rewrite Hqmi).
  assert (rx_minimum_padding s2 = 0) as Hmin2.
  { unfold rx_minimum_padding, version in *. simpl. by rewrite Hqmi. }
  apply (removed_channel_frame s2 p skb); rewrite ?Hmode; try done.
  split; [|apply lookup_delete_eq]. unfold has_slot. simpl. rewrite Hsl.
  split; [apply (mx_slots s M)|by apply (mx_slot s M)].
Qed.

Definition example_packet : packet := Packet 5 1 (Frame (example_ip 2 7) [0; 0]).

Lemma example_packet_receivable : receivable (mode modem) example_packet.
Proof.
  split; simpl; [by left|change (mode modem) with 2; lia|by eexists|by vm_compute|lia].
Qed.

Lemma removed_channel_fault_witness :
  receivable (mode modem) example_packet ∧
  runs (qmap_unregister_device 1) modem
    (λ _ s', _rmnet_usb_rx_handler
       (Skb [] (packet_bytes example_packet) [] ETH_P_MAP Real_net No_destructor false) s'
     = OutOfBounds).
Proof.
  split; [apply example_packet_receivable|].
  apply (removed_channel_fault modem example_packet); [apply modem_multiplexed|by vm_compute
    |apply example_packet_receivable|done].
Defined.

(** when the memory for the device structure or for its operations is short, the
    clean-up of the probe reads a structure that is not there, or frees the
    operations of the usbnet module. *)
Theorem probe_without_memory s l : results (genv s) = [] → data0 s = false →
  allocs (genv s) = false :: l ∨ allocs (genv s) = true :: false :: l →
  GobiUSBNetProbe true s = OutOfBounds.
Proof.
  destruct s as [q d o li sl br dn re rx ns tx pa [al rs ck ju sk] tr]. simpl.
  by intros -> -> [-> | ->].
Qed.

Definition short_of_memory (n : nat) : gobi :=
  set_genv (NetEnv (replicate n true ++ [false]) [] [] (λ _, 0) 0) (example_net 1 0x0125).

Lemma probe_without_memory_witness :
  GobiUSBNetProbe true (short_of_memory 0) = OutOfBounds ∧
  GobiUSBNetProbe true (short_of_memory 1) = OutOfBounds.
Proof.
  split.
  - apply (probe_without_memory (short_of_memory 0) []); [done|done|by left].
  - apply (probe_without_memory (short_of_memory 1) []); [done|done|by right].
Defined.

(** ** Link state and queues *)

(** What a write makes of the bits. *)
Definition link_after (channels link value : Z) : Z :=
  let '(i, up) := written_link value in
  if (0 <=? i) && (i <? channels) then put_bit up i link else link.

Lemma link_store_after s value : link_inv s →
  runs (link_state_store value 0) s (λ _ s', link_inv s' ∧ mode s' = mode s ∧
    g_link_state s' = link_after (mode s) (g_link_state s) value).
Proof.
  intros HI. pose proof (link_state_store_runs s value 0 HI) as H. unfold link_after.
  destruct (written_link value) as [i up]. eapply runs_mono; [exact H|].
  intros r s' [_ H']. destruct ((0 <=? i) && (i <? mode s)) eqn:Hi; simpl in H'.
  2:{ by subst s'. }
  apply andb_true_iff in Hi as [Hi1%Z.leb_le Hi2%Z.ltb_lt].
  destruct (Bool.eqb (Z.testbit (g_link_state s) i) up) eqn:Hsame; simpl in H'.
  - subst s'. split; [done|]. split; [done|]. apply Bool.eqb_prop in Hsame.
    apply Z.bits_inj'. intros n Hn. rewrite testbit_put_bit by lia.
    by destruct (Z.eqb_spec n i) as [->|].
  - split; [by eapply link_set_inv|]. by destruct H' as (q & q' & _ & _ & _ & ->).
Qed.

(** C8: whatever is written to [link_state], a write changes the bit of the channel it
    names, or nothing when there is no such channel; the link state of every channel's
    device is its bit, and the modem has a carrier exactly when a bit is set. *)
Theorem link_state_invariant values s : link_inv s →
  runs (for_each values (λ v, ignore (link_state_store v 0))) s (λ _ s', link_inv s' ∧
    g_link_state s' = foldl (link_after (mode s)) (g_link_state s) values).
Proof.
  revert s. induction values as [|v values IH]; intros s HI; [by apply runs_ret|].
  apply runs_bind, runs_bind. eapply runs_mono; [by apply link_store_after|].
  intros r s1 (HI1 & Hmode & Hlink). apply runs_ret.
  eapply runs_mono; [by apply IH|]. intros [] s2 (HI2 & ->). by rewrite Hmode, Hlink.
Qed.

Lemma modem_link_inv : link_inv modem.
Proof.
  split; [apply modem_multiplexed|by vm_compute| |by vm_compute].
  intros i q Hi Hq. change (mode modem) with 2 in Hi.
  assert (i = 0 ∨ i = 1) as [-> | ->] by lia; vm_compute in Hq; by injection Hq as <-.
Qed.

Lemma link_state_invariant_witness : link_inv modem ∧
  runs (for_each [1; 2; 0; 0x81; 9] (λ v, ignore (link_state_store v 0))) modem
    (λ _ s', link_inv s' ∧ g_link_state s' = 2).
Proof.
  split; [apply modem_link_inv|].
  exact (link_state_invariant [1; 2; 0; 0x81; 9] modem modem_link_inv).
Defined.

(** C27: when a packet that the driver marked is freed and the tasklet runs while the
    modem's queue is awake, no channel's queue stays stopped. *)
Theorem release_wakes_channels s skb : multiplexed s → queue_stopped (real_net s) = false →
  skb_destr skb = Rmnet_destructor →
  runs (skb_release skb;; run_txq) s (λ _ s',
    ∀ i q, 0 ≤ i < mode s → qmap_nets s' !! i = Some q → queue_stopped (q_dev q) = false).
Proof.
  intros M Hreal Hd. destruct (mx_mode s M) as [Hm1 _]. unfold skb_release. rewrite Hd.
  apply runs_bind, runs_bind, runs_get. eapply runs_mono.
  { apply schedule_if_stopped_runs; [done|lia|lia]. }
  assert (∀ s1, multiplexed s1 → queue_stopped (real_net s1) = false → runs
    rmnet_usb_tx_wake_queue s1 (λ _ s', ∀ i q, 0 ≤ i < mode s1 → qmap_nets s' !! i = Some q →
      queue_stopped (q_dev q) = false)) as Hwake.
  { intros s1 M1 Hr1. destruct (mx_mode s1 M1) as [Hm _]. apply runs_bind, runs_get.
    apply wake_queues_runs; [done|lia|lia|done|]. intros; lia. }
  intros [] s1 [(-> & _)|(-> & Hawake)]; apply runs_bind, runs_get.
  - apply runs_bind, runs_modify. apply (Hwake (set_txq false (set_txq true s))); [|done].
    by destruct M; split.
  - destruct (txq s); [|apply runs_ret; intros; eapply Hawake; eauto].
    apply runs_bind, runs_modify. apply (Hwake (set_txq false s)); [|done]. by destruct M; split.
Qed.

(** The modem with the queue of channel 1 stopped. *)
Definition stopped_modem : gobi := result_state (netif_stop_queue (Qmap_net 1) modem) modem.

Lemma stopped_multiplexed : multiplexed stopped_modem.
Proof.
  split.
  - vm_compute. by split.
  - by vm_compute.
  - intros i Hi. change (mode stopped_modem) with 2 in Hi.
    assert (i = 0 ∨ i = 1) as [-> | ->] by lia; by vm_compute.
  - intros i Hi. change (mode stopped_modem) with 2 in Hi.
    assert (i = 0 ∨ i = 1) as [-> | ->] by lia; vm_compute; eexists; by split_and!.
  - by vm_compute.
Qed.

Lemma release_wakes_channels_witness : multiplexed stopped_modem ∧
  runs (skb_release (or_destructor bad_mux);; run_txq) stopped_modem (λ _ s',
    ∀ i q, 0 ≤ i < mode stopped_modem → qmap_nets s' !! i = Some q →
    queue_stopped (q_dev q) = false).
Proof.
  split; [apply stopped_multiplexed|].
  apply release_wakes_channels; [apply stopped_multiplexed|by vm_compute|done].
Defined.

(** An aggregated packet without a destructor, which is what [rmnet_usb_tx_agg_work]
    passes on: after it is sent by the work and freed, every channel's queue is
    as it was, stopped or not. *)
Theorem agg_work_wakes_nobody s i q a : qmap_nets s !! i = Some q →
  agg_skb (q_priv q) = Some a → agg_wq (q_priv q) = true → skb_destr a = No_destructor →
  txq s = false →
  runs (run_agg_work i;; skb_release (to_real a);; run_txq) s (λ _ s',
    sent s' = sent s ++ [skb_data a] ∧
    ∀ j qj, qmap_nets s !! j = Some qj → ∃ qj', qmap_nets s' !! j = Some qj' ∧
      queue_stopped (q_dev qj') = queue_stopped (q_dev qj)).
Proof.
  intros E Ha Hw Hd Htx. apply runs_bind. unfold run_agg_work. apply runs_bind.
  eapply runs_exact; [by apply get_priv_at|]. rewrite Hw. apply runs_bind.
  eapply put_priv_runs; [done|]. intros s1 C1. pose proof (chan_step_net _ _ _ _ _ C1) as E1.
  unfold rmnet_usb_tx_agg_work. apply runs_bind. eapply runs_exact; [by apply get_priv_at|].
  simpl. rewrite Ha. apply runs_bind. eapply ktime_runs; [done|]. intros now s2 C2 _.
  apply runs_bind. eapply put_priv_runs; [by eapply chan_step_net|]. intros s3 C3.
  eapply xmit_real_runs; [by eapply chan_step_net|]. intros s4 d C4 [_ Hq].
  pose proof (chan_step_trans _ _ _ _ _ _ _ _ C1 (chan_step_trans _ _ _ _ _ _ _ _ C2
    (chan_step_trans _ _ _ _ _ _ _ _ C3 C4))) as (e & t & -> & Hsent).
  apply runs_bind. unfold skb_release. simpl. rewrite Hd. apply runs_ret.
  apply runs_bind, runs_get. simpl. rewrite Htx. apply runs_ret. split; [exact Hsent|].
  intros j qj Hj. simpl. destruct (decide (j = i)) as [->|].
  - rewrite lookup_insert_eq. eexists. split; [done|]. simpl in Hq |- *. congruence.
  - rewrite lookup_insert_ne by done. by exists qj.
Qed.

(** Frames wait on channel 0, its work is scheduled, and the queue of channel 1 is
    stopped. *)
Definition waiting_modem : gobi :=
  result_state ((ignore (run_tx_ops [Xmit 0 (example_eth 31 1) true; Agg_timer 0]);;
                 netif_stop_queue (Qmap_net 1)) open_modem) open_modem.
Definition waiting_net : qmap_net :=
  default (QNet (zero_net true []) true
    (QmapPriv 0 0 false 0 0 0 None 0 0 false false (Bridge 0 0 []))) (qmap_nets waiting_modem !! 0).
Definition waiting_skb : sk_buff := default bad_mux (agg_skb (q_priv waiting_net)).

Lemma agg_work_wakes_nobody_witness :
  qmap_nets waiting_modem !! 0 = Some waiting_net ∧
  runs (run_agg_work 0;; skb_release (to_real waiting_skb);; run_txq) waiting_modem (λ _ s',
    sent s' = sent waiting_modem ++ [skb_data waiting_skb] ∧
    ∀ j qj, qmap_nets waiting_modem !! j = Some qj → ∃ qj', qmap_nets s' !! j = Some qj' ∧
      queue_stopped (q_dev qj') = queue_stopped (q_dev qj)).
Proof.
  assert (qmap_nets waiting_modem !! 0 = Some waiting_net) as E by by vm_compute.
  split; [exact E|].
  apply (agg_work_wakes_nobody waiting_modem 0 waiting_net waiting_skb E); by vm_compute.
Defined.

(** In that state the queue of channel 1 stays stopped though the modem's is awake. *)
Example stalled_channel :
  match (run_agg_work 0;; skb_release (to_real waiting_skb);; run_txq) waiting_modem with
  | Done (_, s') => queue_stopped (real_net s') = false ∧
      (queue_stopped ∘ q_dev) <$> qmap_nets s' !! 1 = Some true
  | _ => False
  end.
Proof. by vm_compute. Qed.
