(* ===== verification/CmMsg.v ===== *)
(** * Messages of the connection manager

    Model of the message layer of [src/utils/quectel-cm/src/QMIThread.c] and
    [QmiWwanCM.c]: the search for a TLV ([GetTLV]), the composition of QMUX and
    control requests in a local buffer of [WDM_DEFAULT_BUFSIZE] bytes, and the
    functions that fill in each request.  A message is the list of its bytes; a
    read or write outside the buffer or the allocated copy is [OutOfBounds].  A C
    string is the list of its bytes without the terminator, a pointer to one is
    [None] when it is NULL.  The host is little endian. *)

From S2P Require Import Prelude.

#[local] Open Scope Z_scope.
#[local] Open Scope c_scope.

(** ** Layout

    [QCQMI_HDR] is packed: IFType at 0, Length at 1, CtlFlags at 3, QMIType at 4,
    ClientId at 5.  The QMUX header follows: CtlFlags at 6, TransactionId at 7;
    then the message header: Type at 9, Length at 11; then the TLVs at 13, of which
    the first one of a response is the result: QMUXResult at 16, QMUXError at 18.
    In a control message, CtlFlags is at 6, TransactionId at 7, QMICTLType at 8,
    Length at 10, the TLVs at 12, QMUXResult at 15 and QMUXError at 17. *)

Definition SIZEOF_QCQMI_HDR : Z := 1 + 2 + 1 + 1 + 1.
Definition SIZEOF_QCQMUX_HDR : Z := 1 + 2.
Definition SIZEOF_QCQMUX_MSG_HDR : Z := 2 + 2.
Definition SIZEOF_QMI_TLV_HDR : Z := 1 + 2.
Definition SIZEOF_QCQMICTL_MSG_HDR : Z := 1 + 1 + 2 + 2.

(** Offsets of [pMUXMsg->QMUXMsgHdr] and of the first TLV. *)
Definition OFF_MSG : Z := SIZEOF_QCQMI_HDR + SIZEOF_QCQMUX_HDR.
Definition OFF_TLV : Z := OFF_MSG + SIZEOF_QCQMUX_MSG_HDR.
Definition OFF_CTL : Z := SIZEOF_QCQMI_HDR.
Definition OFF_CTL_TLV : Z := OFF_CTL + SIZEOF_QCQMICTL_MSG_HDR.

Definition WDM_DEFAULT_BUFSIZE : Z := 256.

Definition QMUX_TYPE_CTL : Z := 0x00.
Definition QMUX_TYPE_WDS : Z := 0x01.
Definition QMUX_TYPE_DMS : Z := 0x02.
Definition QMUX_TYPE_NAS : Z := 0x03.
Definition QMUX_TYPE_UIM : Z := 0x0B.
Definition QMUX_TYPE_WDS_IPV6 : Z := 0x11.
Definition QMUX_TYPE_WDS_ADMIN : Z := 0x1A.
Definition QMUX_TYPE_ALL : Z := 0xFF.

Definition IpFamilyV4 : Z := 0x04.
Definition IpFamilyV6 : Z := 0x06.

Definition get_le32 (b : list Z) (off : Z) : outcome Z :=
  bs ← get_bytes b off 4; Done (le_val bs).

(** ** The search for a TLV

    The result is the offset of the TLV.  [Length] is a USHORT: the subtraction
    wraps. *)
Fixpoint GetTLV_search (fuel : nat) (msg : list Z) (TLVType Length pos TLVFind : Z)
  : outcome (option Z) :=
  match fuel with
  | O => OutOfFuel
  | S fuel =>
    if Length <? SIZEOF_QMI_TLV_HDR then Done None else
    let TLVFind := TLVFind + 1 in
    found ← (if 0x1000 <? TLVType then Done (TLVFind + 0x1000 =? TLVType)
             else t ← get8 msg pos; Done (t =? TLVType));
    if found : bool then Done (Some pos) else
    TLVLength ← get_le16 msg (pos + 1);
    GetTLV_search fuel msg TLVType (u16 (Length - (TLVLength + SIZEOF_QMI_TLV_HDR)))
      (pos + TLVLength + SIZEOF_QMI_TLV_HDR) TLVFind
  end.

(** Every turn moves on by at least the TLV header, so the bytes of the message
    bound the turns ([CmWire.GetTLV_search_ends]). *)
Definition GetTLV (msg : list Z) (TLVType : Z) : outcome (option Z) :=
  Length ← get_le16 msg (OFF_MSG + 2);
  GetTLV_search (S (length msg)) msg TLVType Length OFF_TLV 0.

(** ** Filling in the requests

    A [CUSTOMQMUX] function writes to the buffer and returns the size of the
    message from its header on. *)
Definition custom := list Z → outcome (list Z * Z).

Definition sized (n : Z) (b : list Z) : outcome (list Z * Z) := Done (b, n).

(** The writes of a packed TLV with a value of one or four bytes. *)
Definition put_tlv8 (b : list Z) (off type v : Z) : outcome (list Z) :=
  b ← put8 b off type; b ← put_le16 b (off + 1) 1; put8 b (off + 3) v.
Definition put_tlv32 (b : list Z) (off type v : Z) : outcome (list Z) :=
  b ← put8 b off type; b ← put_le16 b (off + 1) 4; put_le32 b (off + 3) v.

(** [qstrcpy]: the string and its terminator. *)
Definition qstrcpy (b : list Z) (off : Z) (from : list Z) : outcome (list Z) :=
  put_bytes b off (from ++ [0]).

Definition strlen (s : list Z) : Z := Z.of_nat (length s).

(** A TLV that carries a string, and the offset behind it. *)
Definition put_tlv_string (b : list Z) (off type : Z) (s : list Z) : outcome (list Z * Z) :=
  b ← put8 b off type;
  b ← put_le16 b (off + 1) (strlen s);
  b ← qstrcpy b (off + 3) s;
  Done (b, off + u16 (strlen s) + 3).

(** Settings of a data call ([PROFILE_T], as far as the requests use it). *)
Record credentials := Credentials {
  apn : option (list Z);
  user : option (list Z);
  password : option (list Z);
  auth : Z
}.

(** "ctnet@mycdma.cn" and "vnet.mobi". *)
Definition cdma_user : list Z :=
  [0x63; 0x74; 0x6E; 0x65; 0x74; 0x40; 0x6D; 0x79; 0x63; 0x64; 0x6D; 0x61; 0x2E; 0x63; 0x6E].
Definition cdma_password : list Z := [0x76; 0x6E; 0x65; 0x74; 0x2E; 0x6D; 0x6F; 0x62; 0x69].

Definition no_string (s : option (list Z)) : bool :=
  match s with None | Some [] => true | Some _ => false end.

Definition start_credentials (is_cdma : bool) (c : credentials) : credentials :=
  if is_cdma && no_string (user c) && no_string (password c)
  then Credentials (apn c) (Some cdma_user) (Some cdma_password) 2 else c.

Definition put_opt {A} (o : option A) (f : A → list Z → Z → outcome (list Z * Z))
    (b : list Z) (off : Z) : outcome (list Z * Z) :=
  match o with Some x => f x b off | None => Done (b, off) end.

Definition put8_at (type v : Z) (b : list Z) (off : Z) : outcome (list Z * Z) :=
  b ← put_tlv8 b off type v; Done (b, off + 1 + 3).

Definition put_string_at (type : Z) (s : list Z) (b : list Z) (off : Z) : outcome (list Z * Z) :=
  put_tlv_string b off type s.

(** [s_hdr_personality] is read only when [s_is_cdma] is set, which the guard of the
    profile index excludes. *)
Definition WdsStartNwInterfaceReq (is_cdma : bool) (profile : credentials)
    (curIpFamily profile_index : Z) : custom := λ b,
  let c := start_credentials is_cdma profile in
  let pTLV := OFF_TLV in
  b ← put_le16 b (OFF_MSG + 2) 0;
  '(b, p) ← put8_at 0x30 (if is_cdma then 0x02 else 0x01) b pTLV;
  '(b, p) ← put_opt (if is_cdma then None else apn c) (put_string_at 0x14) b p;
  '(b, p) ← put_opt (user c) (put_string_at 0x17) b p;
  '(b, p) ← put_opt (password c) (put_string_at 0x18) b p;
  '(b, p) ← put_opt (match user c, password c with Some _, Some _ => Some (auth c) | _, _ => None end)
              (put8_at 0x16) b p;
  '(b, p) ← put8_at 0x19 curIpFamily b p;
  '(b, p) ← put_opt (if negb (profile_index =? 0) && negb is_cdma then Some profile_index else None)
              (put8_at 0x31) b p;
  sized (u16 (SIZEOF_QCQMUX_MSG_HDR + (p - pTLV))) b.

Definition WdsStopNwInterfaceReq (Handle : Z) : custom := λ b,
  b ← put_tlv32 b OFF_TLV 0x01 Handle; sized (SIZEOF_QCQMUX_MSG_HDR + 7) b.

Definition WdsSetClientIPFamilyPref (IpPreference : Z) : custom := λ b,
  b ← put_tlv8 b OFF_TLV 0x01 IpPreference; sized (SIZEOF_QCQMUX_MSG_HDR + 4) b.

Definition WdsSetAutoConnect (autoconnect_setting : Z) : custom := λ b,
  b ← put_tlv8 b OFF_TLV 0x01 autoconnect_setting; sized (SIZEOF_QCQMUX_MSG_HDR + 4) b.

Record QMAP_SETTING := QmapSetting {
  rx_urb_size : Z;
  ep_type : Z;
  iface_id : Z;
  MuxId : Z;
  ul_data_aggregation_max_datagrams : Z;
  ul_data_aggregation_max_size : Z;
  dl_minimum_padding : Z
}.

(** An endpoint TLV: type and interface. *)
Definition put_ep_tlv (b : list Z) (off type : Z) (q : QMAP_SETTING) : outcome (list Z) :=
  b ← put8 b off type; b ← put_le16 b (off + 1) 8;
  b ← put_le32 b (off + 3) (ep_type q); put_le32 b (off + 7) (iface_id q).

Definition WdsSetQMUXBindMuxDataPort (q : QMAP_SETTING) : custom := λ b,
  b ← put_ep_tlv b OFF_TLV 0x10 q;
  b ← put_tlv8 b (OFF_TLV + 11) 0x11 (MuxId q);
  b ← put_tlv32 b (OFF_TLV + 15) 0x13 1;
  sized (SIZEOF_QCQMUX_MSG_HDR + 22) b.

Definition WdaSetDataFormat (qmap_version : Z) (q : QMAP_SETTING) : custom := λ b,
  if rx_urb_size q =? 0 then
    b ← put_tlv8 b OFF_TLV 0x10 0;
    b ← put_tlv32 b (OFF_TLV + 4) 0x11 0x01;
    b ← put_tlv32 b (OFF_TLV + 11) 0x13 0x00;
    sized (SIZEOF_QCQMUX_MSG_HDR + 4 + 7 + 7) b
  else
    b ← put_tlv8 b OFF_TLV 0x10 0;
    b ← put_tlv32 b (OFF_TLV + 4) 0x11 0x02;
    b ← put_tlv32 b (OFF_TLV + 11) 0x12 qmap_version;
    b ← put_tlv32 b (OFF_TLV + 18) 0x13 qmap_version;
    b ← put_tlv32 b (OFF_TLV + 25) 0x15 (rx_urb_size q / 512);
    b ← put_tlv32 b (OFF_TLV + 32) 0x16 (rx_urb_size q);
    b ← put_ep_tlv b (OFF_TLV + 39) 0x17 q;
    if ul_data_aggregation_max_datagrams q =? 0 then sized (SIZEOF_QCQMUX_MSG_HDR + 50) b else
    b ← put_tlv32 b (OFF_TLV + 50) 0x19 (dl_minimum_padding q);
    b ← put_tlv32 b (OFF_TLV + 57) 0x1B (ul_data_aggregation_max_datagrams q);
    b ← put_tlv32 b (OFF_TLV + 64) 0x1C (ul_data_aggregation_max_size q);
    sized (SIZEOF_QCQMUX_MSG_HDR + 71) b.

Definition DmsUIMVerifyPinReqSend (pin : list Z) : custom := λ b,
  b ← put8 b OFF_TLV 0x01;
  b ← put8 b (OFF_TLV + 3) 0x01;
  b ← put8 b (OFF_TLV + 4) (strlen pin);
  b ← qstrcpy b (OFF_TLV + 5) pin;
  b ← put_le16 b (OFF_TLV + 1) (2 + strlen pin);
  sized (u16 (SIZEOF_QCQMUX_MSG_HDR + 6 + (strlen pin - 1))) b.

Definition UimVerifyPinReqSend (pin : list Z) : custom := λ b,
  b ← put8 b OFF_TLV 0x01;
  b ← put_le16 b (OFF_TLV + 1) 0x02;
  b ← put8 b (OFF_TLV + 3) 0x00;
  b ← put8 b (OFF_TLV + 4) 0x00;
  b ← put8 b (OFF_TLV + 5) 0x02;
  b ← put_le16 b (OFF_TLV + 6) (2 + strlen pin);
  b ← put8 b (OFF_TLV + 8) 0x01;
  b ← put8 b (OFF_TLV + 9) (strlen pin);
  b ← qstrcpy b (OFF_TLV + 10) pin;
  sized (u16 (SIZEOF_QCQMUX_MSG_HDR + 11 + (strlen pin - 1))) b.

Definition WdsGetProfileListReqSend : custom := λ b,
  b ← put_le16 b (OFF_MSG + 2) 0; sized SIZEOF_QCQMUX_MSG_HDR b.

Definition WdsCreateProfileSettingsReqSend (pdp : Z) : custom := λ b,
  b ← put_le16 b (OFF_MSG + 2) 8;
  b ← put_tlv8 b OFF_TLV 0x01 0x00;
  b ← put_tlv8 b (OFF_TLV + 4) 0x25 pdp;
  sized (SIZEOF_QCQMUX_MSG_HDR + 8) b.

Definition put_profile_tlv (b : list Z) (profile_index : Z) : outcome (list Z) :=
  b ← put_le16 b (OFF_MSG + 2) 5;
  b ← put8 b OFF_TLV 0x01;
  b ← put_le16 b (OFF_TLV + 1) 0x02;
  b ← put8 b (OFF_TLV + 3) 0x00;
  put8 b (OFF_TLV + 4) profile_index.

Definition WdsGetProfileSettingsReqSend (profile_index : Z) : custom := λ b,
  b ← put_profile_tlv b profile_index; sized (SIZEOF_QCQMUX_MSG_HDR + 5) b.

Definition WdsModifyProfileSettingsReq (profile : credentials) (profile_index iptype : Z) : custom := λ b,
  let c := profile in
  b ← put_profile_tlv b profile_index;
  let pTLV := OFF_TLV + 5 in
  '(b, p) ← put8_at 0x11 iptype b pTLV;
  '(b, p) ← put_opt (apn c) (put_string_at 0x14) b p;
  '(b, p) ← put_opt (user c) (put_string_at 0x1B) b p;
  '(b, p) ← put_opt (password c) (put_string_at 0x1C) b p;
  '(b, p) ← put_opt (match user c, password c with Some _, Some _ => Some (auth c) | _, _ => None end)
              (put8_at 0x1D) b p;
  sized (u16 (SIZEOF_QCQMUX_MSG_HDR + 5 + (p - pTLV))) b.

Definition RUNTIME_SETTINGS_MASK : Z :=
  (1 ≪ 4) |' (1 ≪ 8) |' (1 ≪ 13) |' (1 ≪ 9) |' (1 ≪ 11) |' (1 ≪ 14).

Definition WdsGetRuntimeSettingReq : custom := λ b,
  b ← put_tlv32 b OFF_TLV 0x10 RUNTIME_SETTINGS_MASK; sized (SIZEOF_QCQMUX_MSG_HDR + 7) b.

Definition DmsSetOperatingModeReq (OperatingMode : Z) : custom := λ b,
  b ← put_tlv8 b OFF_TLV 0x01 OperatingMode; sized (SIZEOF_QCQMUX_MSG_HDR + 4) b.

Definition UimSetCardSlotReq (slot : Z) : custom := λ b,
  b ← put_tlv8 b OFF_TLV 0x01 slot; sized (SIZEOF_QCQMUX_MSG_HDR + 4) b.

(** ** Composition

    The header, the custom part and the lengths are written to the local buffer,
    the message is copied from it. *)
Definition ComposeQMUXMsg_buf (QMIType MsgType TransactionId : Z) (fill : option custom)
  : outcome (list Z) :=
  let b := replicate (Z.to_nat WDM_DEFAULT_BUFSIZE) 0 in
  b ← put8 b 0 0x01;
  b ← put8 b 3 0x00;
  b ← put8 b 4 QMIType;
  b ← put8 b 6 0x00;
  b ← put_le16 b 7 TransactionId;
  b ← put_le16 b OFF_MSG MsgType;
  b ← match fill with
      | Some f => '(b, n) ← f b; put_le16 b (OFF_MSG + 2) (n - SIZEOF_QCQMUX_MSG_HDR)
      | None => put_le16 b (OFF_MSG + 2) 0
      end;
  len ← get_le16 b (OFF_MSG + 2);
  b ← put_le16 b 1 (len + SIZEOF_QCQMUX_MSG_HDR + SIZEOF_QCQMUX_HDR + SIZEOF_QCQMI_HDR - 1);
  Length ← get_le16 b 1;
  get_bytes b 0 (Length + 1).

(** [QMIBuf] is not initialised here: its bytes are unspecified, but every byte of
    the message is written before it is copied. *)
Definition ComposeQCTLMsg_buf (QMICTLType TransactionId : Z) (fill : option custom)
  : outcome (list Z) :=
  let b := replicate (Z.to_nat WDM_DEFAULT_BUFSIZE) 0 in
  b ← put8 b 0 0x01;
  b ← put8 b 3 0x00;
  b ← put8 b 4 QMUX_TYPE_CTL;
  b ← put8 b 5 0x00;
  b ← put8 b 6 0x00;
  b ← put8 b 7 TransactionId;
  b ← put_le16 b 8 QMICTLType;
  b ← match fill with
      | Some f => '(b, n) ← f b; put_le16 b 10 (n - SIZEOF_QCQMICTL_MSG_HDR)
      | None => put_le16 b 10 0
      end;
  len ← get_le16 b 10;
  b ← put_le16 b 1 (len + SIZEOF_QCQMICTL_MSG_HDR + SIZEOF_QCQMI_HDR - 1);
  Length ← get_le16 b 1;
  get_bytes b 0 (Length + 1).

(** The control requests. *)
Definition CtlGetVersionReq : custom := λ b,
  b ← put_tlv8 b OFF_CTL_TLV 0x01 QMUX_TYPE_ALL; sized (SIZEOF_QCQMICTL_MSG_HDR + 4) b.

Definition CtlGetClientIdReq (QMIType : Z) : custom := λ b,
  b ← put_tlv8 b OFF_CTL_TLV 0x01 QMIType; sized (SIZEOF_QCQMICTL_MSG_HDR + 4) b.

Definition CtlReleaseClientIdReq (QMIType ClientId : Z) : custom := λ b,
  b ← put8 b OFF_CTL_TLV 0x01;
  b ← put_le16 b (OFF_CTL_TLV + 1) 0x0002;
  b ← put8 b (OFF_CTL_TLV + 3) QMIType;
  b ← put8 b (OFF_CTL_TLV + 4) ClientId;
  sized (SIZEOF_QCQMICTL_MSG_HDR + 5) b.

Definition CtlLibQmiProxyOpenReq (device_path : list Z) : custom := λ b,
  b ← put8 b OFF_CTL_TLV 0x01;
  b ← put_le16 b (OFF_CTL_TLV + 1) (strlen device_path);
  b ← put_bytes b (OFF_CTL_TLV + 3) device_path;
  sized (u16 (SIZEOF_QCQMICTL_MSG_HDR + 3 + strlen device_path)) b.

Example start_request_bytes :
  ComposeQMUXMsg_buf QMUX_TYPE_WDS 0x20 1
    (Some (WdsStartNwInterfaceReq false (Credentials (Some [0x33]) None None 0) 4 1)) =
  Done [1; 28; 0; 0; 1; 0; 0; 1; 0; 0x20; 0; 16; 0;
        0x30; 1; 0; 1; 0x14; 1; 0; 0x33; 0x19; 1; 0; 4; 0x31; 1; 0; 1].
Proof. vm_compute. reflexivity. Qed.
