(* ===== verification/CmDev.v ===== *)
(** * The connection manager: state, device thread and exchange of messages

    Model of the rest of [src/utils/quectel-cm/src/QmiWwanCM.c] and of the exchange
    in [QMIThread.c]: a request is handed to the device and the caller waits until
    the thread that reads the device finds the response ([QmiThreadSendQMITimeout],
    [QmiThreadRecvQMI]); the thread itself ([QmiWwanThread]); the client ids
    ([QmiWwanInit], [QmiWwanDeInit]).  The device, the clock and the allocator are an
    interface ([Env]) of the definitions.  What other threads do while one waits is
    a list of happenings that the device's answer determines; the mutex makes each
    of them atomic with respect to the exchange. *)

From S2P Require Import Prelude Kernel CmMsg.

#[local] Open Scope Z_scope.
#[local] Open Scope c_scope.

(** ** Data *)

(** What is written to a socket: a number, with data behind it or not. *)
Inductive event := Event (n : Z) | Event_data (n : Z) (data : list Z).

Inductive output :=
| Sent (msg : list Z)
| Udhcpc_start (link : Z)
| Udhcpc_stop
| Driver_qmap_setting (q : QMAP_SETTING).

(** What the user and the detection of the device fix before [qmi_main]. *)
Record config := Config {
  pincode : option (list Z);
  proxy : list Z;
  qmichannel : list Z;
  qmapnet : bool;
  pdp : Z;
  enable_ipv4 : bool;
  enable_ipv6 : bool;
  qmap_mode : Z;
  qmap_size : Z;
  muxid : Z;
  pcie : bool;
  rmnet_info : option (QMAP_SETTING * Z)
}.



(** The IPv4 and IPv6 settings of the interface. *)
Record IPV4_T := IPv4 {
  Address : Z;
  Gateway : Z;
  SubnetMask : Z;
  DnsPrimary : Z;
  DnsSecondary : Z;
  Mtu : Z
}.



Record IPV6_T := IPv6 {
  Address6 : list Z;
  Gateway6 : list Z;
  DnsPrimary6 : list Z;
  DnsSecondary6 : list Z;
  PrefixLengthIPAddr : Z;
  PrefixLengthGateway : Z;
  Mtu6 : Z
}.



(** The settings that [requestGetProfile] reads from the modem. *)
Record old_profile := OldProfile {
  old_apn : list Z;
  old_user : list Z;
  old_password : list Z;
  old_auth : Z;
  old_iptype : Z
}.



(** The part of [PROFILE_T] that the code changes. *)
Record profile_state := ProfileState {
  cred : credentials;
  iptype : Z;
  profile_index : Z;
  p_qmap_version : Z;
  curIpFamily : Z;
  rawIP : Z;
  wda_client : Z;
  udhcpc_ip : Z;
  ipv4 : IPV4_T;
  ipv6 : IPV6_T;
  pcscf4 : list Z * list Z;
  pcscf6 : list Z * list Z;
  loopback_state : Z;
  replication_factor : Z;
  BaseBandVersion : list Z;
  old : old_profile
}.

Definition set_cred (x : credentials) (p : profile_state) : profile_state :=
  ProfileState x (iptype p) (profile_index p) (p_qmap_version p) (curIpFamily p) (rawIP p)
    (wda_client p) (udhcpc_ip p) (ipv4 p) (ipv6 p) (pcscf4 p) (pcscf6 p) (loopback_state p)
    (replication_factor p) (BaseBandVersion p) (old p).
Definition set_iptype (x : Z) (p : profile_state) : profile_state :=
  ProfileState (cred p) x (profile_index p) (p_qmap_version p) (curIpFamily p) (rawIP p)
    (wda_client p) (udhcpc_ip p) (ipv4 p) (ipv6 p) (pcscf4 p) (pcscf6 p) (loopback_state p)
    (replication_factor p) (BaseBandVersion p) (old p).
Definition set_profile_index (x : Z) (p : profile_state) : profile_state :=
  ProfileState (cred p) (iptype p) x (p_qmap_version p) (curIpFamily p) (rawIP p)
    (wda_client p) (udhcpc_ip p) (ipv4 p) (ipv6 p) (pcscf4 p) (pcscf6 p) (loopback_state p)
    (replication_factor p) (BaseBandVersion p) (old p).
Definition set_p_qmap_version (x : Z) (p : profile_state) : profile_state :=
  ProfileState (cred p) (iptype p) (profile_index p) x (curIpFamily p) (rawIP p) (wda_client
    p) (udhcpc_ip p) (ipv4 p) (ipv6 p) (pcscf4 p) (pcscf6 p) (loopback_state p)
    (replication_factor p) (BaseBandVersion p) (old p).
Definition set_curIpFamily (x : Z) (p : profile_state) : profile_state :=
  ProfileState (cred p) (iptype p) (profile_index p) (p_qmap_version p) x (rawIP p)
    (wda_client p) (udhcpc_ip p) (ipv4 p) (ipv6 p) (pcscf4 p) (pcscf6 p) (loopback_state p)
    (replication_factor p) (BaseBandVersion p) (old p).
Definition set_rawIP (x : Z) (p : profile_state) : profile_state :=
  ProfileState (cred p) (iptype p) (profile_index p) (p_qmap_version p) (curIpFamily p) x
    (wda_client p) (udhcpc_ip p) (ipv4 p) (ipv6 p) (pcscf4 p) (pcscf6 p) (loopback_state p)
    (replication_factor p) (BaseBandVersion p) (old p).
Definition set_wda_client (x : Z) (p : profile_state) : profile_state :=
  ProfileState (cred p) (iptype p) (profile_index p) (p_qmap_version p) (curIpFamily p)
    (rawIP p) x (udhcpc_ip p) (ipv4 p) (ipv6 p) (pcscf4 p) (pcscf6 p) (loopback_state p)
    (replication_factor p) (BaseBandVersion p) (old p).
Definition set_ipv4 (x : IPV4_T) (p : profile_state) : profile_state :=
  ProfileState (cred p) (iptype p) (profile_index p) (p_qmap_version p) (curIpFamily p)
    (rawIP p) (wda_client p) (udhcpc_ip p) x (ipv6 p) (pcscf4 p) (pcscf6 p) (loopback_state
    p) (replication_factor p) (BaseBandVersion p) (old p).
Definition set_ipv6 (x : IPV6_T) (p : profile_state) : profile_state :=
  ProfileState (cred p) (iptype p) (profile_index p) (p_qmap_version p) (curIpFamily p)
    (rawIP p) (wda_client p) (udhcpc_ip p) (ipv4 p) x (pcscf4 p) (pcscf6 p) (loopback_state
    p) (replication_factor p) (BaseBandVersion p) (old p).
Definition set_pcscf4 (x : list Z * list Z) (p : profile_state) : profile_state :=
  ProfileState (cred p) (iptype p) (profile_index p) (p_qmap_version p) (curIpFamily p)
    (rawIP p) (wda_client p) (udhcpc_ip p) (ipv4 p) (ipv6 p) x (pcscf6 p) (loopback_state p)
    (replication_factor p) (BaseBandVersion p) (old p).
Definition set_pcscf6 (x : list Z * list Z) (p : profile_state) : profile_state :=
  ProfileState (cred p) (iptype p) (profile_index p) (p_qmap_version p) (curIpFamily p)
    (rawIP p) (wda_client p) (udhcpc_ip p) (ipv4 p) (ipv6 p) (pcscf4 p) x (loopback_state p)
    (replication_factor p) (BaseBandVersion p) (old p).
Definition set_loopback_state (x : Z) (p : profile_state) : profile_state :=
  ProfileState (cred p) (iptype p) (profile_index p) (p_qmap_version p) (curIpFamily p)
    (rawIP p) (wda_client p) (udhcpc_ip p) (ipv4 p) (ipv6 p) (pcscf4 p) (pcscf6 p) x
    (replication_factor p) (BaseBandVersion p) (old p).
Definition set_replication_factor (x : Z) (p : profile_state) : profile_state :=
  ProfileState (cred p) (iptype p) (profile_index p) (p_qmap_version p) (curIpFamily p)
    (rawIP p) (wda_client p) (udhcpc_ip p) (ipv4 p) (ipv6 p) (pcscf4 p) (pcscf6 p)
    (loopback_state p) x (BaseBandVersion p) (old p).
Definition set_BaseBandVersion (x : list Z) (p : profile_state) : profile_state :=
  ProfileState (cred p) (iptype p) (profile_index p) (p_qmap_version p) (curIpFamily p)
    (rawIP p) (wda_client p) (udhcpc_ip p) (ipv4 p) (ipv6 p) (pcscf4 p) (pcscf6 p)
    (loopback_state p) (replication_factor p) x (old p).
Definition set_old (x : old_profile) (p : profile_state) : profile_state :=
  ProfileState (cred p) (iptype p) (profile_index p) (p_qmap_version p) (curIpFamily p)
    (rawIP p) (wda_client p) (udhcpc_ip p) (ipv4 p) (ipv6 p) (pcscf4 p) (pcscf6 p)
    (loopback_state p) (replication_factor p) (BaseBandVersion p) x.

(** The static variables of [QMIThread.c] and [QmiWwanCM.c]. *)
Record statics := Statics {
  WdsConnectionIPv4Handle : Z;
  WdsConnectionIPv6Handle : Z;
  s_is_cdma : bool;
  s_5g_type : Z;
  s_hdr_personality : Z;
  s_9x07 : Z;
  TransactionId : Z;
  ctl_TransactionId : Z;
  qmap_version : Z
}.

Definition set_h4 (x : Z) (s : statics) : statics :=
  Statics x (WdsConnectionIPv6Handle s) (s_is_cdma s) (s_5g_type s) (s_hdr_personality s)
    (s_9x07 s) (TransactionId s) (ctl_TransactionId s) (qmap_version s).
Definition set_h6 (x : Z) (s : statics) : statics :=
  Statics (WdsConnectionIPv4Handle s) x (s_is_cdma s) (s_5g_type s) (s_hdr_personality s)
    (s_9x07 s) (TransactionId s) (ctl_TransactionId s) (qmap_version s).
Definition set_is_cdma (x : bool) (s : statics) : statics :=
  Statics (WdsConnectionIPv4Handle s) (WdsConnectionIPv6Handle s) x (s_5g_type s)
    (s_hdr_personality s) (s_9x07 s) (TransactionId s) (ctl_TransactionId s) (qmap_version
    s).
Definition set_5g_type (x : Z) (s : statics) : statics :=
  Statics (WdsConnectionIPv4Handle s) (WdsConnectionIPv6Handle s) (s_is_cdma s) x
    (s_hdr_personality s) (s_9x07 s) (TransactionId s) (ctl_TransactionId s) (qmap_version
    s).
Definition set_hdr_personality (x : Z) (s : statics) : statics :=
  Statics (WdsConnectionIPv4Handle s) (WdsConnectionIPv6Handle s) (s_is_cdma s) (s_5g_type
    s) x (s_9x07 s) (TransactionId s) (ctl_TransactionId s) (qmap_version s).
Definition set_9x07 (x : Z) (s : statics) : statics :=
  Statics (WdsConnectionIPv4Handle s) (WdsConnectionIPv6Handle s) (s_is_cdma s) (s_5g_type
    s) (s_hdr_personality s) x (TransactionId s) (ctl_TransactionId s) (qmap_version s).
Definition set_tid (x : Z) (s : statics) : statics :=
  Statics (WdsConnectionIPv4Handle s) (WdsConnectionIPv6Handle s) (s_is_cdma s) (s_5g_type
    s) (s_hdr_personality s) (s_9x07 s) x (ctl_TransactionId s) (qmap_version s).
Definition set_ctl_tid (x : Z) (s : statics) : statics :=
  Statics (WdsConnectionIPv4Handle s) (WdsConnectionIPv6Handle s) (s_is_cdma s) (s_5g_type
    s) (s_hdr_personality s) (s_9x07 s) (TransactionId s) x (qmap_version s).
Definition set_qmap_version (x : Z) (s : statics) : statics :=
  Statics (WdsConnectionIPv4Handle s) (WdsConnectionIPv6Handle s) (s_is_cdma s) (s_5g_type
    s) (s_hdr_personality s) (s_9x07 s) (TransactionId s) (ctl_TransactionId s) x.

(** The exchange of messages with the device and the thread that reads them. *)
Record channel := Channel {
  s_pRequest : option (list Z);
  s_pResponse : option (list Z);
  cdc_wdm_open : bool;
  qmiclientId : list Z;
  thread_running : bool;
  wait_for_request_quit : bool;
  cm_recv_buf : list Z
}.

Definition set_request (x : option (list Z)) (c : channel) : channel :=
  Channel x (s_pResponse c) (cdc_wdm_open c) (qmiclientId c) (thread_running c)
    (wait_for_request_quit c) (cm_recv_buf c).
Definition set_response (x : option (list Z)) (c : channel) : channel :=
  Channel (s_pRequest c) x (cdc_wdm_open c) (qmiclientId c) (thread_running c)
    (wait_for_request_quit c) (cm_recv_buf c).
Definition set_wdm_open (x : bool) (c : channel) : channel :=
  Channel (s_pRequest c) (s_pResponse c) x (qmiclientId c) (thread_running c)
    (wait_for_request_quit c) (cm_recv_buf c).
Definition set_clients (x : list Z) (c : channel) : channel :=
  Channel (s_pRequest c) (s_pResponse c) (cdc_wdm_open c) x (thread_running c)
    (wait_for_request_quit c) (cm_recv_buf c).
Definition set_running (x : bool) (c : channel) : channel :=
  Channel (s_pRequest c) (s_pResponse c) (cdc_wdm_open c) (qmiclientId c) x
    (wait_for_request_quit c) (cm_recv_buf c).
Definition set_wait_quit (x : bool) (c : channel) : channel :=
  Channel (s_pRequest c) (s_pResponse c) (cdc_wdm_open c) (qmiclientId c) (thread_running c)
    x (cm_recv_buf c).
Definition set_recv_buf (x : list Z) (c : channel) : channel :=
  Channel (s_pRequest c) (s_pResponse c) (cdc_wdm_open c) (qmiclientId c) (thread_running c)
    (wait_for_request_quit c) x.

(** The sockets between the threads and the signal handler, and the alarm. *)
Record sockets := Sockets {
  signals : list Z;
  events : list event;
  to_thread : list Z;
  alarm_set : option Z;
  donot_exit_when_modem_hangup : Z
}.

Definition set_signals (x : list Z) (k : sockets) : sockets :=
  Sockets x (events k) (to_thread k) (alarm_set k) (donot_exit_when_modem_hangup k).
Definition set_events (x : list event) (k : sockets) : sockets :=
  Sockets (signals k) x (to_thread k) (alarm_set k) (donot_exit_when_modem_hangup k).
Definition set_to_thread (x : list Z) (k : sockets) : sockets :=
  Sockets (signals k) (events k) x (alarm_set k) (donot_exit_when_modem_hangup k).
Definition set_alarm (x : option Z) (k : sockets) : sockets :=
  Sockets (signals k) (events k) (to_thread k) x (donot_exit_when_modem_hangup k).
Definition set_donot_exit (x : Z) (k : sockets) : sockets :=
  Sockets (signals k) (events k) (to_thread k) (alarm_set k) x.

(** What happens while the main thread waits: the device thread gets something
    from the device, a hang-up, a number from the main thread or a timeout of its
    poll; or a signal arrives. *)
Inductive happening :=
| Dev_read (chunk : list Z)
| Dev_hup
| Ctl_read
| Thread_idle
| Sig_alarm
| Sig_stop.

(** The device's answer to a request: the results of [poll] and [write], what
    happens during the wait that follows, and whether the wait wakes up on its own. *)
Record reaction := Reaction {
  r_poll : Z;
  r_pollout : bool;
  r_write : Z;
  r_happens : list happening;
  r_spurious : bool
}.

(** One wait of the main loop: the result of [poll], the error flags of the two
    sockets, and what happens meanwhile. *)
Record revents := Revents { rv_err : bool; rv_hup : bool }.
Record turn := Turn {
  t_poll_failed : bool;
  t_happens : list happening;
  t_signal : revents;
  t_device : revents
}.

(** The surroundings: the device, the clock in milliseconds, [malloc], and what
    happens while the main loop is idle.  [ulong_bits] is the width of the type of
    the times. *)
Class Env := {
  World : Type;
  ulong_bits : Z;
  react : World → list Z → World * reaction;
  clock : World → World * Z;
  malloc_ok : World → World * bool;
  idle : World → World * turn
}.

Definition SIG_EVENT_START : Z := 0.
Definition SIG_EVENT_CHECK : Z := 1.
Definition SIG_EVENT_STOP : Z := 2.

Definition RIL_REQUEST_QUIT : Z := 0x1000.
Definition RIL_INDICATE_DEVICE_CONNECTED : Z := 0x1002.
Definition RIL_INDICATE_DEVICE_DISCONNECTED : Z := 0x1003.
Definition RIL_UNSOL_RESPONSE_VOICE_NETWORK_STATE_CHANGED : Z := 0x1004.
Definition RIL_UNSOL_DATA_CALL_LIST_CHANGED : Z := 0x1005.
Definition MODEM_REPORT_RESET_EVENT : Z := 0x1006.
Definition RIL_UNSOL_LOOPBACK_CONFIG_IND : Z := 0x1007.

Definition ETIMEDOUT : Z := 110.

Section Device.
Context `{Env}.

Record cm := Cm {
  cfg : config;
  prof : profile_state;
  st : statics;
  chan : channel;
  sock : sockets;
  s_link : Z;
  out : list output;
  world : World
}.

Definition upd_prof (f : profile_state → profile_state) (s : cm) : cm :=
  Cm (cfg s) (f (prof s)) (st s) (chan s) (sock s) (s_link s) (out s) (world s).
Definition upd_st (f : statics → statics) (s : cm) : cm :=
  Cm (cfg s) (prof s) (f (st s)) (chan s) (sock s) (s_link s) (out s) (world s).
Definition upd_chan (f : channel → channel) (s : cm) : cm :=
  Cm (cfg s) (prof s) (st s) (f (chan s)) (sock s) (s_link s) (out s) (world s).
Definition upd_sock (f : sockets → sockets) (s : cm) : cm :=
  Cm (cfg s) (prof s) (st s) (chan s) (f (sock s)) (s_link s) (out s) (world s).
Definition set_s_link (x : Z) (s : cm) : cm :=
  Cm (cfg s) (prof s) (st s) (chan s) (sock s) x (out s) (world s).
Definition set_world (x : World) (s : cm) : cm :=
  Cm (cfg s) (prof s) (st s) (chan s) (sock s) (s_link s) (out s) x.
Definition add_out (o : output) (s : cm) : cm :=
  Cm (cfg s) (prof s) (st s) (chan s) (sock s) (s_link s) (o :: out s) (world s).

Definition cmm (A : Type) : Type := stm cm A.

(** What the surroundings answer. *)
Definition ask {A} (f : World → World * A) : cmm A := λ s,
  let '(w, a) := f (world s) in Done (a, set_world w s).

Definition malloc : cmm bool := ask malloc_ok.

(** ** The sockets *)

Definition send_signo_to_main (n : Z) : cmm () :=
  modify (upd_sock (λ k, set_signals (signals k ++ [n]) k)).
Definition main_send_event_to_qmidevice (n : Z) : cmm () :=
  modify (upd_sock (λ k, set_to_thread (to_thread k ++ [n]) k)).
Definition qmidevice_send_event_to_main (n : Z) : cmm () :=
  modify (upd_sock (λ k, set_events (events k ++ [Event n]) k)).
Definition qmidevice_send_event_to_main_ext (n : Z) (data : list Z) : cmm () :=
  modify (upd_sock (λ k, set_events (events k ++ [Event_data n data]) k)).

(** The signal handler. *)
Definition ql_sigaction (alarm : bool) : cmm () :=
  if alarm then send_signo_to_main SIG_EVENT_START else
  modify (upd_sock (set_donot_exit 0));;
  send_signo_to_main SIG_EVENT_STOP;;
  main_send_event_to_qmidevice SIG_EVENT_STOP.

(** ** Reception *)

Definition is_response (pRequest pResponse : list Z) : outcome bool :=
  t ← get8 pRequest 4;
  t' ← get8 pResponse 4;
  c ← get8 pRequest 5;
  c' ← get8 pResponse 5;
  if (t =? t') && (c =? c') then
    requestTID ← (if t =? QMUX_TYPE_CTL then get8 pRequest 7 else get_le16 pRequest 7);
    responseTID ← (if t =? QMUX_TYPE_CTL then get8 pResponse 7 else get_le16 pResponse 7);
    Done (requestTID =? responseTID)
  else Done false.

(** The notifications that [QmiThreadRecvQMI] passes on to the main thread: those of
    a type and message number. *)
Definition indication (QMIType MsgType : Z) : option Z :=
  if (QMIType =? QMUX_TYPE_NAS) && (MsgType =? 0x0024)
  then Some RIL_UNSOL_RESPONSE_VOICE_NETWORK_STATE_CHANGED
  else if (QMIType =? QMUX_TYPE_WDS) && (MsgType =? 0x0022)
  then Some RIL_UNSOL_DATA_CALL_LIST_CHANGED
  else if (QMIType =? QMUX_TYPE_NAS) && (MsgType =? 0x004E)
  then Some RIL_UNSOL_RESPONSE_VOICE_NETWORK_STATE_CHANGED
  else None.

(** [pResponse] is NULL or the receive buffer; the result tells whether the
    condition variable is signalled. *)
Definition QmiThreadRecvQMI (pResponse : option (list Z)) : cmm bool :=
  s ← get_state;
  match pResponse with
  | None =>
    match s_pRequest (chan s) with
    | Some _ => modify (upd_chan (λ c, set_response None (set_request None c)));; mret true
    | None => mret false
    end
  | Some m =>
    Length ← lift (get_le16 m 1);
    mine ← lift (match s_pRequest (chan s) with Some r => is_response r m | None => Done false end);
    if mine : bool then
      ok ← malloc;
      copy ← lift (get_bytes m 0 (Length + 1));
      modify (upd_chan (λ c, set_response (if ok : bool then Some copy else None)
                                          (set_request None c)));;
      mret true
    else
      QMIType ← lift (get8 m 4);
      QMICTLType ← lift (get_le16 m 8);
      MsgType ← lift (get_le16 m OFF_MSG);
      (if (QMIType =? QMUX_TYPE_CTL) && (QMICTLType =? 0x0024)
       then qmidevice_send_event_to_main MODEM_REPORT_RESET_EVENT
       else match indication QMIType MsgType with
            | Some n => qmidevice_send_event_to_main n
            | None =>
              if (QMIType =? QMUX_TYPE_WDS_ADMIN) && (MsgType =? 0x002F) then
                ind ← lift (get_bytes m OFF_MSG 15);
                qmidevice_send_event_to_main_ext RIL_UNSOL_LOOPBACK_CONFIG_IND ind
              else mret ()
            end);;
      mret false
  end.

(** ** The device thread

    One event of the loop of [QmiWwanThread]; when both descriptors are ready, its
    body is two of them in a row.  The thread has no timeout unless
    [wait_for_request_quit] is set. *)
Definition QmiWwanThread_quit : cmm bool :=
  modify (upd_chan (set_wdm_open false));;
  qmidevice_send_event_to_main RIL_INDICATE_DEVICE_DISCONNECTED;;
  woken ← QmiThreadRecvQMI None;
  modify (upd_chan (set_running false));;
  mret woken.

(** [read] puts the bytes at the front of the buffer of 4096 bytes. *)
Definition dev_read (chunk : list Z) : cmm bool :=
  s ← get_state;
  let nreads := Z.of_nat (length chunk) in
  if nreads =? 0 then mret false else
  buf ← lift (put_bytes (cm_recv_buf (chan s)) 0 chunk);
  modify (upd_chan (set_recv_buf buf));;
  Length ← lift (get_le16 buf 1);
  if negb (nreads =? Length + 1) then mret false else QmiThreadRecvQMI (Some buf).

Definition ctl_read : cmm bool :=
  s ← get_state;
  match to_thread (sock s) with
  | [] => mret false
  | triger_event :: rest =>
    modify (upd_sock (set_to_thread rest));;
    if triger_event =? RIL_REQUEST_QUIT then QmiWwanThread_quit
    else if triger_event =? SIG_EVENT_STOP
    then modify (upd_chan (set_wait_quit true));; mret false
    else mret false
  end.

Definition happen (h : happening) : cmm bool :=
  s ← get_state;
  let running := thread_running (chan s) in
  match h with
  | Sig_alarm =>
    match alarm_set (sock s) with
    | Some _ => modify (upd_sock (set_alarm None));; ql_sigaction true;; mret false
    | None => mret false
    end
  | Sig_stop => ql_sigaction false;; mret false
  | Dev_read chunk => if running then dev_read chunk else mret false
  | Dev_hup => if running then QmiWwanThread_quit else mret false
  | Ctl_read => if running then ctl_read else mret false
  | Thread_idle => if running && wait_for_request_quit (chan s) then QmiThreadRecvQMI None else mret false
  end.

(** All that happens during a wait; whether a waiter is woken. *)
Fixpoint happen_all (l : list happening) : cmm bool :=
  match l with
  | [] => mret false
  | h :: l => woken ← happen h; rest ← happen_all l; mret (woken || rest)
  end.

(** ** Sending *)

Definition upd_request (m : list Z) : cmm () := modify (upd_chan (set_request (Some m))).

(** [pRequest] is also [s_pRequest]: the client id and the service that are filled in
    here are the ones that the response is compared with. *)
Definition QmiWwanSendQMI (pRequest : list Z) : cmm (Z * option reaction) :=
  s ← get_state;
  if negb (cdc_wdm_open (chan s)) then mret (- ENODEV, None) else
  QMIType ← lift (get8 pRequest 4);
  '(m, ok) ← (if QMIType =? QMUX_TYPE_CTL then mret (pRequest, true) else
    match qmiclientId (chan s) !! Z.to_nat QMIType with
    | None => fault
    | Some ClientId =>
      m ← lift (put8 pRequest 5 ClientId);
      upd_request m;;
      if ClientId =? 0 then mret (m, false) else
      m ← (if QMIType =? QMUX_TYPE_WDS_IPV6 then lift (put8 m 4 QMUX_TYPE_WDS) else mret m);
      upd_request m;; mret (m, true)
    end);
  if negb ok then mret (- ENODEV, None) else
  Length ← lift (get_le16 m 1);
  let nwrites := Length + 1 in
  bytes ← lift (get_bytes m 0 nwrites);
  r ← ask (λ w, react w bytes);
  if r_pollout r then
    modify (add_out (Sent bytes));;
    mret (if r_write r =? nwrites then 0 else r_write r, Some r)
  else mret (r_poll r, Some r).

(** What the caller's response pointer is after the exchange. *)
Inductive ptr := Indeterminate | Null | Ptr (m : list Z).

(** [pthread_cond_timeout_np]: 0 when it is signalled or wakes up on its own. *)
Definition wait_response (r : option reaction) : cmm Z :=
  woken ← happen_all (match r with Some r => r_happens r | None => [] end);
  mret (if woken || (match r with Some r => r_spurious r | None => false end) then 0 else ETIMEDOUT).

(** [want] is whether the caller passes a pointer for the response. *)
Definition QmiThreadSendQMITimeout (pRequest : option (list Z)) (want : bool) : cmm (Z * ptr) :=
  match pRequest with
  | None => mret (- EINVAL, Indeterminate)
  | Some m =>
    modify (upd_chan (λ c, set_response None (set_request (Some m) c)));;
    '(ret, r) ← QmiWwanSendQMI m;
    if negb (ret =? 0) then mret (ret, Null) else
    ret ← wait_response r;
    if negb (ret =? 0) then mret (ret, Null) else
    s ← get_state;
    match s_pResponse (chan s) with
    | Some resp =>
      if want then mret (ret, Ptr resp)
      else modify (upd_chan (set_response None));; mret (ret, Null)
    | None => mret (ret, Null)
    end
  end.

(** ** Composition of requests *)

Definition GetQMUXTransactionId : cmm Z :=
  modify (upd_st (λ t, set_tid (TransactionId t + 1) t));;
  s ← get_state;
  if 0xFFFF <? TransactionId (st s) then modify (upd_st (set_tid 1));; mret 1
  else mret (TransactionId (st s)).

Definition GetQCTLTransactionId : cmm Z :=
  modify (upd_st (λ t, set_ctl_tid (ctl_TransactionId t + 1) t));;
  s ← get_state;
  if 0xFF <? ctl_TransactionId (st s) then modify (upd_st (set_ctl_tid 1));; mret 1
  else mret (ctl_TransactionId (st s)).

Definition ComposeQMUXMsg (QMIType MsgType : Z) (fill : option custom) : cmm (option (list Z)) :=
  tid ← GetQMUXTransactionId;
  m ← lift (ComposeQMUXMsg_buf QMIType MsgType tid fill);
  ok ← malloc;
  mret (if ok : bool then Some m else None).

Definition ComposeQCTLMsg (QMICTLType : Z) (fill : option custom) : cmm (option (list Z)) :=
  tid ← GetQCTLTransactionId;
  m ← lift (ComposeQCTLMsg_buf QMICTLType tid fill);
  ok ← malloc;
  mret (if ok : bool then Some m else None).

(** Composing a request and exchanging it, as every request function does. *)
Definition exchange (QMIType MsgType : Z) (fill : option custom) : cmm (Z * ptr) :=
  pRequest ← ComposeQMUXMsg QMIType MsgType fill;
  QmiThreadSendQMITimeout pRequest true.

Definition ctl_exchange (QMICTLType : Z) (fill : option custom) (want : bool) : cmm (Z * ptr) :=
  pRequest ← ComposeQCTLMsg QMICTLType fill;
  QmiThreadSendQMITimeout pRequest want.

(** ** Client ids *)

(** Whether a control response reports success. *)
Definition ctl_success (m : list Z) : outcome bool :=
  QMUXResult ← get_le16 m 15;
  if negb (QMUXResult =? 0) then Done false else
  QMUXError ← get_le16 m 17;
  Done (QMUXError =? 0).

Definition libqmi_proxy_open (cdc_wdm : list Z) : cmm Z :=
  '(ret, pResponse) ← ctl_exchange 0xFF00 (Some (CtlLibQmiProxyOpenReq cdc_wdm)) true;
  if negb (ret =? 0) then mret (-1) else
  match pResponse with
  | Indeterminate => fault
  | Null => mret (-1)
  | Ptr m => ok ← lift (ctl_success m); mret (if ok : bool then 0 else -1)
  end.

(** When the request cannot be allocated, [pResponse] is not set before it is
    tested. *)
Definition QmiWwanGetClientID (QMIType : Z) : cmm Z :=
  '(_, pResponse) ← ctl_exchange 0x0022 (Some (CtlGetClientIdReq QMIType)) true;
  match pResponse with
  | Indeterminate => fault
  | Null => mret 0
  | Ptr m =>
    ok ← lift (ctl_success m);
    ClientId ← lift (get8 m 23);
    t ← lift (get8 m 22);
    mret (if (ok : bool) && (QMIType =? t) then ClientId else 0)
  end.

Definition QmiWwanReleaseClientID (QMIType ClientId : Z) : cmm () :=
  ignore (ctl_exchange 0x0023 (Some (CtlReleaseClientIdReq QMIType ClientId)) false).

Definition set_client (i : Z) (id : Z) : cmm () :=
  modify (upd_chan (λ c, set_clients (<[Z.to_nat i := id]> (qmiclientId c)) c)).

Definition get_client (i : Z) : cmm () := id ← QmiWwanGetClientID i; set_client i id.

(** The synchronisation is tried up to ten times. *)
Fixpoint sync_loop (n : nat) : cmm Z :=
  match n with
  | O => mret ETIMEDOUT
  | S n =>
    '(ret, _) ← ctl_exchange 0x0027 None false;
    if ret =? 0 then mret 0 else
    match n with O => mret ret | _ => sync_loop n end
  end.

(** The elements of the version response: type and versions, five bytes each. *)
Fixpoint version_loop (n : nat) (m : list Z) (i : Z) : cmm () :=
  match n with
  | O => mret ()
  | S n =>
    QMUXType ← lift (get8 m (23 + 5 * i));
    (if QMUXType =? QMUX_TYPE_WDS_ADMIN then
       MinorVersion ← lift (get_le16 m (23 + 5 * i + 3));
       modify (upd_prof (set_p_qmap_version (if 16 <? MinorVersion then 1 else 0)))
     else mret ());;
    version_loop n m (i + 1)
  end.

Definition qmap_capable (pResponse : ptr) : cmm () :=
  s ← get_state;
  if qmap_mode (cfg s) =? 0 then mret () else
  match pResponse with
  | Indeterminate => fault
  | Null => mret ()
  | Ptr m =>
    ok ← lift (ctl_success m);
    if ok : bool then n ← lift (get8 m 22); version_loop (Z.to_nat n) m 0 else mret ()
  end.

(** "qmi-proxy". *)
Definition LIBQMI_PROXY : list Z := [0x71; 0x6D; 0x69; 0x2D; 0x70; 0x72; 0x6F; 0x78; 0x79].

Definition no_proxy (c : config) : bool := match proxy c with [] => true | _ => false end.

Definition QmiWwanInit : cmm Z :=
  s ← get_state;
  ret ← (if bool_decide (proxy (cfg s) = LIBQMI_PROXY) then libqmi_proxy_open (qmichannel (cfg s))
         else mret 0);
  if negb (ret =? 0) then mret ret else
  ret ← (if no_proxy (cfg s) then sync_loop 10 else mret 0);
  if negb (ret =? 0) then mret ret else
  '(_, pResponse) ← ctl_exchange 0x0021 (Some CtlGetVersionReq) true;
  qmap_capable pResponse;;
  get_client QMUX_TYPE_WDS;;
  (if enable_ipv6 (cfg s) then id ← QmiWwanGetClientID QMUX_TYPE_WDS; set_client QMUX_TYPE_WDS_IPV6 id
   else mret ());;
  get_client QMUX_TYPE_DMS;;
  get_client QMUX_TYPE_NAS;;
  get_client QMUX_TYPE_UIM;;
  get_client QMUX_TYPE_WDS_ADMIN;;
  s ← get_state;
  modify (upd_prof (set_wda_client (default 0 (qmiclientId (chan s) !! Z.to_nat QMUX_TYPE_WDS_ADMIN))));;
  mret 0.

Definition release_client (i : nat) : cmm () :=
  s ← get_state;
  match qmiclientId (chan s) !! i with
  | Some id =>
    if id =? 0 then mret () else
    QmiWwanReleaseClientID (if Z.of_nat i =? QMUX_TYPE_WDS_IPV6 then QMUX_TYPE_WDS else Z.of_nat i) id;;
    set_client (Z.of_nat i) 0
  | None => mret ()
  end.

Definition QmiWwanDeInit : cmm () := for_each (seq 0 (Z.to_nat QMUX_TYPE_ALL)) release_client.

End Device.
