(* ===== verification/CmReq.v ===== *)
(** * The connection manager: requests to the modem

    Model of the request functions of [src/utils/quectel-cm/src/QMIThread.c] that
    [qmi_request_ops] lists.  Each composes a request, exchanges it for a response
    and takes the response apart; the result is the error number the code returns.
    What only goes to the log is left out, the reads of the message it makes are
    not.  A NULL or freed pointer that is followed is [OutOfBounds]. *)

From S2P Require Import Prelude Kernel CmMsg CmDev.

#[local] Open Scope Z_scope.
#[local] Open Scope c_scope.

Definition QWDS_PKT_DATA_UNKNOW : Z := 0x00.
Definition QWDS_PKT_DATA_DISCONNECTED : Z := 0x01.
Definition QWDS_PKT_DATA_CONNECTED : Z := 0x02.

Definition QMI_ERR_OP_DEVICE_UNSUPPORTED : Z := 0x0019.
Definition QMI_ERR_INVALID_QMI_CMD : Z := 0x0047.

(** [SIM_Status]. *)
Definition SIM_ABSENT : Z := 0.
Definition SIM_READY : Z := 2.
Definition SIM_PIN : Z := 3.
Definition SIM_PUK : Z := 4.
Definition SIM_BAD : Z := 6.

Definition QMI_PIN_STATUS_NOT_INIT : Z := 0.
Definition QMI_PIN_STATUS_NOT_VERIF : Z := 1.
Definition QMI_PIN_STATUS_VERIFIED : Z := 2.
Definition QMI_PIN_STATUS_DISABLED : Z := 3.
Definition QMI_PIN_STATUS_BLOCKED : Z := 4.
Definition QMI_PIN_STATUS_PERM_BLOCKED : Z := 5.

Section Requests.
Context `{Env}.

(** ** Checking a response

    [qmi_rsp_check_and_return]: the function goes on with the message, or returns. *)
Definition qmi_rsp_check_and_return (r : Z * ptr) (k : list Z → cmm Z) : cmm Z :=
  let '(err, pResponse) := r in
  if err <? 0 then mret err else
  match pResponse with
  | Indeterminate => fault
  | Null => mret err
  | Ptr m =>
    QMUXResult ← lift (get_le16 m 16);
    QMUXError ← lift (get_le16 m 18);
    if negb (QMUXResult =? 0) || negb (QMUXError =? 0) then mret QMUXError else k m
  end.

(** A request whose response is only checked. *)
Definition simple_request (QMIType MsgType : Z) (fill : option custom) : cmm Z :=
  r ← exchange QMIType MsgType fill;
  qmi_rsp_check_and_return r (λ _, mret 0).

(** What follows a TLV when it is there. *)
Definition with_tlv (m : list Z) (type : Z) (k : Z → cmm ()) : cmm () :=
  tlv ← lift (GetTLV m type);
  match tlv with Some pos => k pos | None => mret () end.

(** ** Data calls *)

Definition wds_type (curIpFamily : Z) : Z :=
  if curIpFamily =? IpFamilyV4 then QMUX_TYPE_WDS else QMUX_TYPE_WDS_IPV6.

Definition set_handle (curIpFamily Handle : Z) : cmm () :=
  modify (upd_st (if curIpFamily =? IpFamilyV4 then set_h4 Handle else set_h6 Handle)).

Definition handle_of (t : statics) (curIpFamily : Z) : Z :=
  if curIpFamily =? IpFamilyV4 then WdsConnectionIPv4Handle t else WdsConnectionIPv6Handle t.

(** [*pConnectionStatus] is passed in and returned. *)
Definition requestQueryDataCall (status curIpFamily : Z) : cmm (Z * Z) :=
  r ← exchange (wds_type curIpFamily) 0x0022 None;
  let '(err, pResponse) := r in
  if err <? 0 then mret (err, status) else
  match pResponse with
  | Indeterminate => fault
  | Null => mret (err, status)
  | Ptr m =>
    QMUXResult ← lift (get_le16 m 16);
    QMUXError ← lift (get_le16 m 18);
    if negb (QMUXResult =? 0) || negb (QMUXError =? 0) then mret (QMUXError, status) else
    tlv ← lift (GetTLV m 0x01);
    status ← (match tlv with
      | None => mret QWDS_PKT_DATA_DISCONNECTED
      | Some pos =>
        ConnectionStatus ← lift (get8 m (pos + 3));
        TLVLength ← lift (get_le16 m (pos + 1));
        if TLVLength =? 2 then
          ReconfigReqd ← lift (get8 m (pos + 4));
          mret (if ReconfigReqd =? 0x01 then QWDS_PKT_DATA_DISCONNECTED else ConnectionStatus)
        else mret ConnectionStatus
      end);
    (if status =? QWDS_PKT_DATA_DISCONNECTED then set_handle curIpFamily 0 else mret ());;
    mret (0, status)
  end.

(** The reasons of a refused call are read for the log. *)
Definition call_end_reasons (m : list Z) : cmm () :=
  with_tlv m 0x10 (λ pos, ignore (lift (get_le16 m (pos + 3))));;
  with_tlv m 0x11 (λ pos, ignore (lift (get_le16 m (pos + 3)));; ignore (lift (get_le16 m (pos + 5)))).

(** The handle is read at a fixed place, behind the result. *)
Definition requestSetupDataCall (family : Z) : cmm Z :=
  modify (upd_prof (set_curIpFamily family));;
  s ← get_state;
  r ← exchange (wds_type family) 0x0020
        (Some (WdsStartNwInterfaceReq (s_is_cdma (st s)) (cred (prof s)) (curIpFamily (prof s))
                 (profile_index (prof s))));
  let '(err, pResponse) := r in
  if err <? 0 then mret err else
  match pResponse with
  | Indeterminate => fault
  | Null => mret err
  | Ptr m =>
    QMUXResult ← lift (get_le16 m 16);
    QMUXError ← lift (get_le16 m 18);
    if negb (QMUXResult =? 0) || negb (QMUXError =? 0) then
      call_end_reasons m;; mret QMUXError
    else
      Handle ← lift (get_le32 m (OFF_MSG + 14));
      set_handle family Handle;; mret 0
  end.

Definition requestDeactivateDefaultPDP (family : Z) : cmm Z :=
  s ← get_state;
  if handle_of (st s) family =? 0 then mret 0 else
  r ← exchange (wds_type family) 0x0021 (Some (WdsStopNwInterfaceReq (handle_of (st s) family)));
  qmi_rsp_check_and_return r (λ _, set_handle family 0;; mret 0).

Definition zero_ipv4 : IPV4_T := IPv4 0 0 0 0 0 0.
Definition zero_ipv6 : IPV6_T :=
  IPv6 (replicate 16 0) (replicate 16 0) (replicate 16 0) (replicate 16 0) 0 0 0.

Definition upd_ipv4 (f : IPV4_T → IPV4_T) : cmm () := modify (upd_prof (λ p, set_ipv4 (f (ipv4 p)) p)).
Definition upd_ipv6 (f : IPV6_T → IPV6_T) : cmm () := modify (upd_prof (λ p, set_ipv6 (f (ipv6 p)) p)).

(** An IPv4 address TLV is copied to a field. *)
Definition take_ipv4 (m : list Z) (type : Z) (f : Z → IPV4_T → IPV4_T) : cmm () :=
  with_tlv m type (λ pos, a ← lift (get_le32 m (pos + 3)); upd_ipv4 (f a)).

(** An IPv6 address TLV, with the prefix length for those that use it. *)
Definition take_ipv6 (m : list Z) (type : Z) (prefix : bool) (f : list Z → Z → IPV6_T → IPV6_T) : cmm () :=
  with_tlv m type (λ pos,
    a ← lift (get_bytes m (pos + 3) 16);
    n ← (if prefix then lift (get8 m (pos + 19)) else mret 0);
    upd_ipv6 (f a n)).

(** One or two addresses of [n] bytes behind their number. *)
Definition take_pcscf (m : list Z) (type n : Z) (set : list Z → option (list Z) → profile_state → profile_state)
  : cmm () :=
  with_tlv m type (λ pos,
    PCSCFNumber ← lift (get8 m (pos + 3));
    if PCSCFNumber =? 1 then
      a ← lift (get_bytes m (pos + 4) n); modify (upd_prof (set a None))
    else if PCSCFNumber =? 2 then
      a ← lift (get_bytes m (pos + 4) n);
      a2 ← lift (get_bytes m (pos + 4 + n) n);
      modify (upd_prof (set a (Some a2)))
    else mret ()).

Definition runtime_settings (m : list Z) (family : Z) : cmm () :=
  take_pcscf m 0x2e 16 (λ a o p, set_pcscf6 (a, default (pcscf6 p).2 o) p);;
  take_pcscf m 0x23 4 (λ a o p, set_pcscf4 (a, default (pcscf4 p).2 o) p);;
  take_ipv4 m 0x15 (λ a i, IPv4 (Address i) (Gateway i) (SubnetMask i) a (DnsSecondary i) (Mtu i));;
  take_ipv4 m 0x16 (λ a i, IPv4 (Address i) (Gateway i) (SubnetMask i) (DnsPrimary i) a (Mtu i));;
  take_ipv4 m 0x20 (λ a i, IPv4 (Address i) a (SubnetMask i) (DnsPrimary i) (DnsSecondary i) (Mtu i));;
  take_ipv4 m 0x21 (λ a i, IPv4 (Address i) (Gateway i) a (DnsPrimary i) (DnsSecondary i) (Mtu i));;
  take_ipv4 m 0x1E (λ a i, IPv4 a (Gateway i) (SubnetMask i) (DnsPrimary i) (DnsSecondary i) (Mtu i));;
  take_ipv6 m 0x27 false (λ a _ i, IPv6 (Address6 i) (Gateway6 i) a (DnsSecondary6 i)
                                     (PrefixLengthIPAddr i) (PrefixLengthGateway i) (Mtu6 i));;
  take_ipv6 m 0x28 false (λ a _ i, IPv6 (Address6 i) (Gateway6 i) (DnsPrimary6 i) a
                                     (PrefixLengthIPAddr i) (PrefixLengthGateway i) (Mtu6 i));;
  take_ipv6 m 0x26 true (λ a n i, IPv6 (Address6 i) a (DnsPrimary6 i) (DnsSecondary6 i)
                                    (PrefixLengthIPAddr i) n (Mtu6 i));;
  take_ipv6 m 0x25 true (λ a n i, IPv6 a (Gateway6 i) (DnsPrimary6 i) (DnsSecondary6 i)
                                    n (PrefixLengthGateway i) (Mtu6 i));;
  with_tlv m 0x29 (λ pos,
    mtu ← lift (get_le32 m (pos + 3));
    if family =? IpFamilyV4
    then upd_ipv4 (λ i, IPv4 (Address i) (Gateway i) (SubnetMask i) (DnsPrimary i) (DnsSecondary i) mtu)
    else upd_ipv6 (λ i, IPv6 (Address6 i) (Gateway6 i) (DnsPrimary6 i) (DnsSecondary6 i)
                          (PrefixLengthIPAddr i) (PrefixLengthGateway i) mtu)).

Definition requestGetIPAddress (family : Z) : cmm Z :=
  s ← get_state;
  (if family =? IpFamilyV4 then upd_ipv4 (λ _, zero_ipv4)
   else if family =? IpFamilyV6 then upd_ipv6 (λ _, zero_ipv6) else mret ());;
  if ((family =? IpFamilyV4) || (family =? IpFamilyV6)) && (handle_of (st s) family =? 0)
  then mret 0 else
  r ← exchange (wds_type family) 0x002D (Some WdsGetRuntimeSettingReq);
  qmi_rsp_check_and_return r (λ m, runtime_settings m family;; mret 0).

(** ** Registration *)

(** The network numbers only go to the log. *)
Definition requestGetHomeNetwork : cmm Z :=
  r ← exchange QMUX_TYPE_NAS 0x0025 None;
  qmi_rsp_check_and_return r (λ m,
    with_tlv m 0x01 (λ pos, ignore (lift (get_le16 m (pos + 3)));; ignore (lift (get_le16 m (pos + 5))));;
    ignore (lift (GetTLV m 0x10));;
    mret 0).

(** What the loop over the system information finds out. *)
Record sys_info := SysInfo {
  attached : Z;
  is_lte : bool;
  DataCapList : Z;
  class_cdma : bool;
  endc : option Z;
  dcnr : option Z
}.

Definition WWAN_DATA_CLASS_LTE : Z := 0x20.
Definition WWAN_DATA_CLASS_5G_NSA : Z := 0x40.
Definition WWAN_DATA_CLASS_5G_SA : Z := 0x80.

(** A network in service: capabilities and device class. *)
Definition in_service (caps : Z) (cdma : bool) (i : sys_info) : sys_info :=
  SysInfo (attached i) (is_lte i) caps cdma (endc i) (dcnr i).
Definition lte_found (i : sys_info) : sys_info :=
  SysInfo (attached i) true (DataCapList i) (class_cdma i) (endc i) (dcnr i).
Definition ps_attached (i : sys_info) : sys_info :=
  SysInfo 1 (is_lte i) (DataCapList i) (class_cdma i) (endc i) (dcnr i).

Definition is_cdma (b : bool) : cmm () := modify (upd_st (set_is_cdma b)).

(** [if (SrvDomainValid == 1 && (SrvDomain & 2))]. *)
Definition domain_ps (m : list Z) (pos : Z) : outcome bool :=
  v ← get8 m (pos + 3);
  if v =? 0x01 then d ← get8 m (pos + 4); Done (negb (d &' 0x02 =? 0)) else Done false.

(** The network id is read for the log when it is valid. *)
Definition network_id (m : list Z) (pos off : Z) : cmm () :=
  v ← lift (get8 m (pos + off));
  if v =? 0x01 then
    ignore (lift (get_bytes m (pos + off + 1) 3));; ignore (lift (get_bytes m (pos + off + 4) 3))
  else mret ().

(** One TLV of the system information. *)
Definition sys_info_tlv (m : list Z) (pos : Z) (i : sys_info) : cmm sys_info :=
  type ← lift (get8 m pos);
  let status (k : sys_info → cmm sys_info) : cmm sys_info :=
    v ← lift (get8 m (pos + 3)); if v =? 0x02 then k i else mret i in
  let attach (k : sys_info → cmm sys_info) : cmm sys_info :=
    ps ← lift (domain_ps m pos); if ps : bool then k (ps_attached i) else mret i in
  match type with
  | 0x10 => status (λ i, is_cdma (negb (is_lte i));; mret (in_service 0x2F0000 true i))
  | 0x11 => status (λ i, is_cdma (negb (is_lte i));; mret (in_service 0x500000 true i))
  | 0x12 => status (λ i, mret (in_service 0x03 false i))
  | 0x13 => status (λ i, mret (in_service 0x04 false i))
  | 0x14 => status (λ i, is_cdma false;; mret (lte_found (in_service WWAN_DATA_CLASS_LTE false i)))
  | 0x4A => status (λ i, is_cdma false;;
                         mret (lte_found (in_service (DataCapList i |' WWAN_DATA_CLASS_5G_SA) false i)))
  | 0x4B => i ← attach mret; network_id m pos 22;; mret i
  | 0x4E => v ← lift (get8 m (pos + 3));
            mret (SysInfo (attached i) (is_lte i) (DataCapList i) (class_cdma i) (Some v) (dcnr i))
  | 0x4F => v ← lift (get8 m (pos + 3));
            mret (SysInfo (attached i) (is_lte i) (DataCapList i) (class_cdma i) (endc i) (Some v))
  | 0x24 => status mret
  | 0x15 => i ← attach (λ i, is_cdma (negb (is_lte i));; mret i); network_id m pos 38;; mret i
  | 0x16 => i ← attach (λ i, is_cdma (negb (is_lte i));; mret i);
            (if attached i =? 0 then mret () else
             v ← lift (get8 m (pos + 13));
             if v =? 0x01 then
               h ← lift (get8 m (pos + 14));
               if h =? 0x03 then modify (upd_st (set_hdr_personality 0x02)) else mret ()
             else mret ());;
            ignore requestGetHomeNetwork;; mret i
  | 0x17 | 0x18 | 0x25 => i ← attach mret; network_id m pos 22;; mret i
  | 0x19 => i ← attach (λ i, is_cdma false;; mret (lte_found i)); network_id m pos 22;; mret i
  | _ => mret i
  end.

(** [remainingLen] is signed: a TLV that is longer than the rest ends the loop. *)
Fixpoint sys_info_loop (fuel : nat) (m : list Z) (remainingLen pos : Z) (i : sys_info) : cmm sys_info :=
  match fuel with
  | O => hang
  | S fuel =>
    if remainingLen <=? 0 then mret i else
    i ← sys_info_tlv m pos i;
    TLVLength ← lift (get_le16 m (pos + 1));
    sys_info_loop fuel m (remainingLen - (TLVLength + 3)) (pos + 3 + TLVLength) i
  end.

(** The 5G type is only read by code that is not compiled in. *)
Definition set_5g (i : sys_info) : cmm () :=
  let caps :=
    match endc i, dcnr i with
    | Some e, Some r =>
      if negb (DataCapList i &' WWAN_DATA_CLASS_LTE =? 0) && negb (e =? 0) && (r =? 0)
      then DataCapList i |' WWAN_DATA_CLASS_5G_NSA else DataCapList i
    | _, _ => DataCapList i
    end in
  if class_cdma i then mret () else
  if negb (caps &' WWAN_DATA_CLASS_5G_SA =? 0) then modify (upd_st (set_5g_type WWAN_DATA_CLASS_5G_SA))
  else if negb (caps &' WWAN_DATA_CLASS_5G_NSA =? 0)
  then modify (upd_st (set_5g_type WWAN_DATA_CLASS_5G_NSA)) else mret ().

(** [*pPSAttachedState] is returned with the error. *)
Definition requestRegistrationState2 : cmm (Z * Z) :=
  r ← exchange QMUX_TYPE_NAS 0x004D None;
  let '(err, pResponse) := r in
  if err <? 0 then mret (err, 0) else
  match pResponse with
  | Indeterminate => fault
  | Null => mret (err, 0)
  | Ptr m =>
    QMUXResult ← lift (get_le16 m 16);
    QMUXError ← lift (get_le16 m 18);
    if negb (QMUXResult =? 0) || negb (QMUXError =? 0) then mret (QMUXError, 0) else
    remainingLen ← lift (get_le16 m (OFF_MSG + 2));
    modify (upd_st (λ t, set_hdr_personality 0 (set_5g_type 0 (set_is_cdma false t))));;
    i ← sys_info_loop (S (length m)) m remainingLen OFF_TLV (SysInfo 0 false 0 false None None);
    set_5g i;;
    mret (0, attached i)
  end.

(** The data capabilities, for the log. *)
Definition data_capabilities (m : list Z) : cmm () :=
  with_tlv m 0x11 (λ pos,
    n ← lift (get8 m (pos + 3));
    if n =? 0 then mret () else
    c ← lift (get8 m (pos + 4));
    if (n =? 2) && (c =? 0x06) then ignore (lift (get8 m (pos + 5))) else mret ()).

Definition requestRegistrationState (state : Z) : cmm (Z * Z) :=
  s ← get_state;
  if negb (s_9x07 (st s) =? 0) then requestRegistrationState2 else
  r ← exchange QMUX_TYPE_NAS 0x0024 None;
  let '(err, pResponse) := r in
  if err <? 0 then mret (err, state) else
  match pResponse with
  | Indeterminate => fault
  | Null => mret (err, state)
  | Ptr m =>
    QMUXResult ← lift (get_le16 m 16);
    QMUXError ← lift (get_le16 m 18);
    if negb (QMUXResult =? 0) || negb (QMUXError =? 0) then mret (QMUXError, state) else
    with_tlv m 0x12 (λ pos, ignore (lift (get_le16 m (pos + 3)));; ignore (lift (get_le16 m (pos + 5))));;
    serving ← lift (GetTLV m 0x01);
    RegistrationState ← (match serving with Some pos => lift (get8 m (pos + 3)) | None => mret 0 end);
    state ← (match serving with
      | None => mret 0
      | Some pos => if RegistrationState =? 0x01 then lift (get8 m (pos + 5)) else mret 0x02
      end);
    data_capabilities m;;
    is_cdma false;;
    (match serving with
     | Some pos =>
       if negb (RegistrationState =? 0x01) then mret () else
       InUseRadioIF ← lift (get8 m (pos + 7));
       if InUseRadioIF =? 0 then mret () else
       RadioIF ← lift (get8 m (pos + 8));
       if (RadioIF =? 0x01) || (RadioIF =? 0x02) then
         is_cdma true;;
         ignore requestGetHomeNetwork;;
         tlv ← lift (GetTLV m 0x23);
         match tlv with
         | Some pos => v ← lift (get8 m (pos + 3)); modify (upd_st (set_hdr_personality v))
         | None => modify (upd_st (set_hdr_personality 0))
         end
       else mret ()
     | None => mret ()
     end);;
    mret (0, state)
  end.

(** ** The SIM card *)

(** [*pSIMStatus] is passed in and returned. *)
Definition pin_status (status v : Z) : Z :=
  if v =? QMI_PIN_STATUS_NOT_VERIF then SIM_PIN
  else if v =? QMI_PIN_STATUS_BLOCKED then SIM_PUK
  else if v =? QMI_PIN_STATUS_PERM_BLOCKED then SIM_BAD else status.

(** The service and number of the card status request. *)
Definition sim_exchange (dms_type : Z) : cmm (Z * ptr) :=
  s ← get_state;
  if negb (s_9x07 (st s) =? 0) then exchange QMUX_TYPE_UIM 0x002F None
  else exchange QMUX_TYPE_DMS dms_type None.

(** The checks of a response whose request fills in [status]. *)
Definition sim_check (r : Z * ptr) (status : Z) (k : list Z → cmm Z) : cmm (Z * Z) :=
  let '(err, pResponse) := r in
  if err <? 0 then mret (err, status) else
  match pResponse with
  | Indeterminate => fault
  | Null => mret (err, status)
  | Ptr m =>
    QMUXResult ← lift (get_le16 m 16);
    QMUXError ← lift (get_le16 m 18);
    if negb (QMUXResult =? 0) || negb (QMUXError =? 0) then mret (QMUXError, status)
    else status ← k m; mret (0, status)
  end.

Definition requestGetPINStatus (status : Z) : cmm (Z * Z) :=
  r ← sim_exchange 0x002B;
  sim_check r status (λ m,
    tlv ← lift (GetTLV m 0x11);
    match tlv with
    | Some pos => v ← lift (get8 m (pos + 3)); mret (pin_status status v)
    | None => mret status
    end).

(** The state of the card and of its PIN: the PIN state follows the application id. *)
Definition card_state (m : list Z) (pos : Z) : outcome (Z * Z) :=
  AIDLength ← get8 m (pos + 24);
  CardState ← get8 m (pos + 12);
  if CardState =? 0x01 then
    let pPINState := pos + 25 + AIDLength in
    UnivPIN ← get8 m pPINState;
    PIN1State ← (if UnivPIN =? 1 then get8 m (pos + 13) else get8 m (pPINState + 1));
    Done (CardState, PIN1State)
  else Done (CardState, QMI_PIN_STATUS_NOT_VERIF).

Definition sim_of_card (CardState PIN1State : Z) : Z :=
  if negb (CardState =? 0x01) then SIM_ABSENT else
  if (PIN1State =? QMI_PIN_STATUS_VERIFIED) || (PIN1State =? QMI_PIN_STATUS_DISABLED) then SIM_READY else
  let status := if PIN1State =? QMI_PIN_STATUS_NOT_VERIF then SIM_PIN else SIM_ABSENT in
  if PIN1State =? QMI_PIN_STATUS_BLOCKED then SIM_PUK
  else if PIN1State =? QMI_PIN_STATUS_PERM_BLOCKED then SIM_BAD
  else if PIN1State =? QMI_PIN_STATUS_NOT_INIT then SIM_READY else status.

(** The log message indexes a table of six names with the status. *)
Definition SIM_Status_String (status : Z) : cmm () :=
  if (0 <=? status) && (status <? 6) then mret () else fault.

Definition requestGetSIMStatus (status : Z) : cmm (Z * Z) :=
  s ← get_state;
  r ← sim_exchange 0x0044;
  sim_check r status (λ m,
    status ← (if negb (s_9x07 (st s) =? 0) then
      tlv ← lift (GetTLV m 0x10);
      match tlv with
      | Some pos => '(c, p) ← lift (card_state m pos); mret (sim_of_card c p)
      | None => mret (sim_of_card 0x01 QMI_PIN_STATUS_NOT_VERIF)
      end
    else
      UIMState ← lift (get8 m (OFF_MSG + 14));
      if UIMState =? 0x00 then mret SIM_READY
      else if UIMState =? 0x01 then '(_, status) ← requestGetPINStatus SIM_ABSENT; mret status
      else mret SIM_ABSENT);
    SIM_Status_String status;;
    mret status).

Definition requestEnterSimPin (pPinCode : list Z) : cmm Z :=
  s ← get_state;
  if negb (s_9x07 (st s) =? 0)
  then simple_request QMUX_TYPE_UIM 0x0026 (Some (UimVerifyPinReqSend pPinCode))
  else simple_request QMUX_TYPE_DMS 0x0028 (Some (DmsUIMVerifyPinReqSend pPinCode)).

(** ** The profile *)

(** Up to the terminator. *)
Fixpoint c_string (b : list Z) : list Z :=
  match b with
  | [] => []
  | x :: b => if x =? 0 then [] else x :: c_string b
  end.

(** [uchar2char] of [src_len] bytes at [off] to an array of [dst_len]. *)
Definition uchar2char (dst_len : Z) (m : list Z) (off src_len : Z) : outcome (list Z) :=
  src ← get_bytes m off (Z.min (dst_len - 1) src_len);
  Done (c_string src).

(** A string of the profile settings, kept in an array of 64 bytes. *)
Definition take_string (m : list Z) (type : Z) (f : list Z → old_profile → old_profile) : cmm () :=
  with_tlv m type (λ pos,
    n ← lift (get_le16 m (pos + 1));
    s ← lift (uchar2char 64 m (pos + 3) n);
    modify (upd_prof (λ p, set_old (f s (old p)) p))).

Definition take_byte (m : list Z) (type : Z) (f : Z → old_profile → old_profile) : cmm () :=
  with_tlv m type (λ pos,
    v ← lift (get8 m (pos + 3));
    modify (upd_prof (λ p, set_old (f v (old p)) p))).

Definition profile_settings (m : list Z) : cmm () :=
  take_string m 0x14 (λ s o, OldProfile s (old_user o) (old_password o) (old_auth o) (old_iptype o));;
  take_string m 0x1B (λ s o, OldProfile (old_apn o) s (old_password o) (old_auth o) (old_iptype o));;
  take_string m 0x1C (λ s o, OldProfile (old_apn o) (old_user o) s (old_auth o) (old_iptype o));;
  take_byte m 0x1D (λ v o, OldProfile (old_apn o) (old_user o) (old_password o) v (old_iptype o));;
  take_byte m 0x11 (λ v o, OldProfile (old_apn o) (old_user o) (old_password o) (old_auth o) v).

(** The profile list: index, and a name behind its length, for each; [k] is a byte.
    The indices are stored in an array of 42. *)
Fixpoint profile_list (n : nat) (m : list Z) (base k : Z) (acc : list Z) : outcome (list Z) :=
  match n with
  | O => Done acc
  | S n =>
    index ← get8 m (base + k);
    if 42 <=? Z.of_nat (length acc) then OutOfBounds else
    let k := u8 (k + 1) in
    len ← get8 m (base + k);
    profile_list n m base (if len =? 0 then u8 (k + 2) else u8 (k + 2 + len)) (acc ++ [index])
  end.

(** The result of looking at the profiles: the settings of the one for the PDP
    context, none of them, or an error to return. *)
Inductive found := Found (m : list Z) | Not_found | Failed (err : Z).

(** [pPdpContext] is followed without a test. *)
Fixpoint find_profile (l : list Z) : cmm found :=
  match l with
  | [] => mret Not_found
  | index :: l =>
    modify (upd_prof (set_profile_index index));;
    '(err, pResponse) ← exchange QMUX_TYPE_WDS 0x002B (Some (WdsGetProfileSettingsReqSend index));
    if err <? 0 then mret (Failed err) else
    match pResponse with
    | Indeterminate => fault
    | Null => mret (Failed err)
    | Ptr m =>
      QMUXResult ← lift (get_le16 m 16);
      QMUXError ← lift (get_le16 m 18);
      if negb (QMUXResult =? 0) || negb (QMUXError =? 0) then mret (Failed QMUXError) else
      tlv ← lift (GetTLV m 0x25);
      match tlv with
      | None => fault
      | Some pos =>
        s ← get_state;
        pdp_context ← lift (get8 m (pos + 3));
        if pdp_context =? pdp (cfg s) then mret (Found m) else find_profile l
      end
    end
  end.

(** The stray [malloc] behind the exchange follows [pResponse] before it is tested,
    and stores a block of unspecified bytes in [s_pResponse]. *)
Definition stray_malloc (pResponse : ptr) : cmm () :=
  match pResponse with
  | Ptr m =>
    Length ← lift (get_le16 m 1);
    ok ← malloc;
    modify (upd_chan (set_response (if ok : bool then Some (replicate (Z.to_nat (Length + 1)) 0) else None)))
  | _ => fault
  end.

(** The log message indexes a table of four names with the type found. *)
Definition ipStr : cmm () :=
  s ← get_state; if old_iptype (old (prof s)) <? 4 then mret () else fault.

(** [_re_check]: with no profile at all, the settings are read from the list that has
    been freed; when no profile has the PDP context, one is created and the list is
    read again. *)
Fixpoint get_profile (fuel : nat) : cmm Z :=
  match fuel with
  | O => hang
  | S fuel =>
    r ← exchange QMUX_TYPE_WDS 0x002A (Some WdsGetProfileListReqSend);
    stray_malloc r.2;;
    qmi_rsp_check_and_return r (λ m,
      tlv ← lift (GetTLV m 0x01);
      match tlv with
      | None => fault
      | Some pos =>
        profile_num ← lift (get8 m (pos + 3));
        indices ← lift (profile_list (Z.to_nat profile_num) m (pos + 3) 2 []);
        if profile_num =? 0 then fault else
        f ← find_profile indices;
        match f with
        | Failed err => mret err
        | Found m => profile_settings m;; ipStr;; mret 0
        | Not_found =>
          s ← get_state;
          r ← exchange QMUX_TYPE_WDS 0x0027 (Some (WdsCreateProfileSettingsReqSend (pdp (cfg s))));
          qmi_rsp_check_and_return r (λ _, get_profile fuel)
        end
      end)
  end.

Definition requestGetProfile (fuel : nat) : cmm Z :=
  s ← get_state;
  modify (upd_prof (λ p, set_iptype
    (if enable_ipv4 (cfg s) && enable_ipv6 (cfg s) then 3 else if enable_ipv6 (cfg s) then 2 else 0)
    (set_old (OldProfile [] [] [] 0 0) p)));;
  if pdp (cfg s) =? 0 then mret 0 else get_profile fuel.

Definition requestSetProfile : cmm Z :=
  s ← get_state;
  let p := prof s in
  if profile_index p =? 0 then mret (-1) else
  let o := old p in
  if bool_decide (old_apn o = default [] (apn (cred p))) &&
     bool_decide (old_user o = default [] (user (cred p))) &&
     bool_decide (old_password o = default [] (password (cred p))) &&
     (old_iptype o =? iptype p) && (old_auth o =? auth (cred p))
  then mret 0 else
  r ← exchange QMUX_TYPE_WDS 0x0028 (Some (WdsModifyProfileSettingsReq (cred p) (profile_index p) (iptype p)));
  qmi_rsp_check_and_return r (λ _, mret 1).

(** ** The device *)

Definition requestBaseBandVersion : cmm Z :=
  r ← exchange QMUX_TYPE_DMS 0x0023 None;
  qmi_rsp_check_and_return r (λ m,
    with_tlv m 0x01 (λ pos,
      n ← lift (get_le16 m (pos + 1));
      if n =? 0 then mret () else
      s ← lift (uchar2char 64 m (pos + 3) n);
      modify (upd_prof (set_BaseBandVersion s)));;
    mret 0).

Definition requestRadioPower (state : Z) : cmm Z :=
  let on := negb (state =? 0) in
  r ← exchange QMUX_TYPE_DMS 0x002E (Some (DmsSetOperatingModeReq (if on then 0 else 1)));
  qmi_rsp_check_and_return r (λ _,
    simple_request QMUX_TYPE_UIM (if on then 0x0031 else 0x0030) (Some (UimSetCardSlotReq 0x01))).

(** The values are put into the composed request, which is not tested for NULL; the
    factor is cut to 16 bits. *)
Definition WdaSetLoopBackReq : custom := λ b,
  b ← put8 b OFF_TLV 0x01;
  b ← put_le16 b (OFF_TLV + 1) 1;
  b ← put8 b (OFF_TLV + 4) 0x10;
  b ← put_le16 b (OFF_TLV + 5) 4;
  sized (SIZEOF_QCQMUX_MSG_HDR + 11) b.

Definition requestSetLoopBackState (loopback_state replication_factor : Z) : cmm Z :=
  pRequest ← ComposeQMUXMsg QMUX_TYPE_WDS_ADMIN 0x002F (Some WdaSetLoopBackReq);
  match pRequest with
  | None => fault
  | Some m =>
    m ← lift (put8 m (OFF_TLV + 3) loopback_state);
    m ← lift (put_le32 m (OFF_TLV + 7) (u16 replication_factor));
    r ← QmiThreadSendQMITimeout (Some m) true;
    qmi_rsp_check_and_return r (λ _, mret 0)
  end.

(** The settings of the multiplexed data path. *)
Definition qmap_settings_of (s : cm) : QMAP_SETTING * Z :=
  let q := QmapSetting (qmap_size (cfg s)) (if pcie (cfg s) then 3 else 2) 4 (muxid (cfg s)) 11 (8 * 1024) 0 in
  let v := if p_qmap_version (prof s) =? 0x09 then 0x09 else 0x05 in
  match rmnet_info (cfg s) with
  | Some (i, v') =>
    (QmapSetting (rx_urb_size i) (ep_type i) (iface_id i) (MuxId q) (ul_data_aggregation_max_datagrams q)
       (ul_data_aggregation_max_size q) (dl_minimum_padding i), v')
  | None => (q, v)
  end.

Definition read_value (m : list Z) (type : Z) : outcome (option Z) :=
  tlv ← GetTLV m type;
  match tlv with Some pos => v ← get_le32 m (pos + 3); Done (Some v) | None => Done None end.

(** The answer to the data format: link protocol and the limits of aggregation. *)
Definition data_format (m : list Z) (q : QMAP_SETTING) : cmm () :=
  s ← get_state;
  link ← lift (read_value m 0x11);
  (match link with
   | Some v =>
     modify (upd_prof (set_rawIP (if v =? 2 then 1 else 0)));;
     modify (upd_st (set_9x07 (if v =? 2 then 1 else 0)))
   | None => mret ()
   end);;
  tlv ← lift (GetTLV m 0x16);
  rx ← (match tlv with
        | Some pos => if qmap_mode (cfg s) =? 0 then mret (rx_urb_size q) else lift (get_le32 m (pos + 3))
        | None => mret (rx_urb_size q)
        end);
  if ul_data_aggregation_max_datagrams q =? 0 then mret () else
  n ← lift (read_value m 0x17);
  sz ← lift (read_value m 0x18);
  pad ← lift (read_value m 0x1A);
  let least (o : option Z) (x : Z) := match o with Some v => Z.min x v | None => x end in
  let q := QmapSetting rx (ep_type q) (iface_id q) (MuxId q) (least n (ul_data_aggregation_max_datagrams q))
             (least sz (ul_data_aggregation_max_size q)) (default (dl_minimum_padding q) pad) in
  if 1 <? ul_data_aggregation_max_datagrams q then modify (add_out (Driver_qmap_setting q)) else mret ().

(** [if (pResponse) free(pResponse)]: the pointer keeps its old value when the request
    is not allocated, which may be that of a block already freed. *)
Definition free_response (dangling : bool) (p : ptr) (k : bool → cmm Z) : cmm Z :=
  match p with
  | Ptr _ => k true
  | Null => k false
  | Indeterminate => if dangling then fault else k false
  end.

(** The family preference and, on a multiplexed device, the port of a client. *)
Definition bind_client (QMIType family : Z) (q : QMAP_SETTING) (check dangling : bool)
    (k : bool → cmm Z) : cmm Z :=
  s ← get_state;
  let pref (dangling : bool) :=
    r ← exchange QMIType 0x004D (Some (WdsSetClientIPFamilyPref family));
    if check then qmi_rsp_check_and_return r (λ _, k true)
    else free_response dangling r.2 k in
  if qmapnet (cfg s) then
    r ← exchange QMIType 0x00A2 (Some (WdsSetQMUXBindMuxDataPort q));
    qmi_rsp_check_and_return r (λ _, pref true)
  else pref dangling.

Definition bind_clients (q : QMAP_SETTING) (dangling : bool) : cmm Z :=
  s ← get_state;
  let auto (dangling : bool) :=
    r ← exchange QMUX_TYPE_WDS 0x0051 (Some (WdsSetAutoConnect 0));
    free_response dangling r.2 (λ _, mret 0) in
  let v6 (dangling : bool) :=
    if enable_ipv6 (cfg s)
    then bind_client QMUX_TYPE_WDS_IPV6 IpFamilyV6 q true dangling auto else auto dangling in
  if enable_ipv4 (cfg s)
  then bind_client QMUX_TYPE_WDS IpFamilyV4 q false dangling v6 else v6 dangling.

Definition requestSetEthMode : cmm Z :=
  s ← get_state;
  '(q, skip) ← (if qmap_mode (cfg s) =? 0 then mret (QmapSetting 0 0 0 0 0 0 0, false) else
    let '(q, v) := qmap_settings_of s in
    modify (upd_prof (λ p, set_p_qmap_version (if p_qmap_version p =? 0x09 then 0x09 else 0x05) (set_rawIP 1 p)));;
    modify (upd_st (λ t, set_qmap_version v (set_9x07 1 t)));;
    mret (q, wda_client (prof s) =? 0));
  if skip : bool then bind_clients q false else
  s ← get_state;
  r ← exchange QMUX_TYPE_WDS_ADMIN 0x0020 (Some (WdaSetDataFormat (qmap_version (st s)) q));
  qmi_rsp_check_and_return r (λ m, data_format m q;; bind_clients q true).

End Requests.
