(* ===== verification/CmMain.v ===== *)
(** * The connection manager: the main loop

    Model of [qmi_main] of [src/utils/quectel-cm/src/main.c] with the functions it
    is made of: the preparation of the modem, the loop over the two sockets, the
    handlers of the three signal events and of the events of the device thread, and
    the ways out.  The requests to the modem are the operations of a
    [request_ops] record, of which [qmi_request_ops] is the instance for QMI. *)

From S2P Require Import Prelude Kernel CmMsg CmDev CmReq.

#[local] Open Scope Z_scope.
#[local] Open Scope c_scope.

(** Which of the tables [request_ops] is; the code compares their addresses. *)
Inductive ops_kind := Qmi_request_ops | Mbim_request_ops | Atc_request_ops.
#[export] Instance ops_kind_eq_dec : EqDecision ops_kind.
Proof. solve_decision. Defined.

(** The local variables of [qmi_main] that live through the loop. *)
Record locals := Locals {
  PSAttachedState : Z;
  IPv4ConnectionStatus : Z;
  IPv6ConnectionStatus : Z;
  SetupCallFail : Z;
  SetupCallAllowTime : Z
}.

Definition set_ps (x : Z) (l : locals) : locals :=
  Locals x (IPv4ConnectionStatus l) (IPv6ConnectionStatus l) (SetupCallFail l) (SetupCallAllowTime l).
Definition set_v4 (x : Z) (l : locals) : locals :=
  Locals (PSAttachedState l) x (IPv6ConnectionStatus l) (SetupCallFail l) (SetupCallAllowTime l).
Definition set_v6 (x : Z) (l : locals) : locals :=
  Locals (PSAttachedState l) (IPv4ConnectionStatus l) x (SetupCallFail l) (SetupCallAllowTime l).
Definition set_fail (x : Z) (l : locals) : locals :=
  Locals (PSAttachedState l) (IPv4ConnectionStatus l) (IPv6ConnectionStatus l) x (SetupCallAllowTime l).
Definition set_allow (x : Z) (l : locals) : locals :=
  Locals (PSAttachedState l) (IPv4ConnectionStatus l) (IPv6ConnectionStatus l) (SetupCallFail l) x.

Definition connected (status : Z) : bool := status =? QWDS_PKT_DATA_CONNECTED.
Definition disconnected (status : Z) : bool := status =? QWDS_PKT_DATA_DISCONNECTED.

(** The bit of a family in the state of the link. *)
Definition link_bit (family : Z) : Z := 1 ≪ family.

Definition allow_time : list Z := [5; 10; 20; 40; 60].

(** Either the loop goes on, or it is left. *)
Inductive next := Go (l : locals) | Main_quit.

Section Main.
Context `{Env}.

Record request_ops := RequestOps {
  kind : ops_kind;
  ops_BaseBandVersion : option (cmm Z);
  ops_SetEthMode : option (cmm Z);
  ops_SetLoopBackState : option (Z → Z → cmm Z);
  ops_GetSIMStatus : option (Z → cmm (Z * Z));
  ops_EnterSimPin : option (list Z → cmm Z);
  ops_SetProfile : option (cmm Z);
  ops_GetProfile : option (cmm Z);
  ops_RegistrationState : Z → cmm (Z * Z);
  ops_SetupDataCall : Z → cmm Z;
  ops_QueryDataCall : Z → Z → cmm (Z * Z);
  ops_DeactivateDefaultPDP : Z → cmm Z;
  ops_GetIPAddress : Z → cmm Z;
  ops_GetSignalInfo : option (cmm Z);
  ops_GetCellInfoList : option (cmm Z);
  ops_GetICCID : option (cmm Z);
  ops_GetIMSI : option (cmm Z);
  ops_GetCoexWWANState : option (cmm Z)
}.

(** The table for QMI, in the default configuration; [fuel] bounds the rounds of
    [requestGetProfile]. *)
Definition qmi_request_ops (fuel : nat) : request_ops :=
  RequestOps Qmi_request_ops (Some requestBaseBandVersion) (Some requestSetEthMode)
    (Some requestSetLoopBackState) (Some requestGetSIMStatus) (Some requestEnterSimPin)
    (Some requestSetProfile) (Some (requestGetProfile fuel))
    requestRegistrationState requestSetupDataCall requestQueryDataCall requestDeactivateDefaultPDP
    requestGetIPAddress None None None None None.

Definition ulong (x : Z) : Z := x mod 2 ^ ulong_bits.

Definition clock_msec : cmm Z := t ← ask clock; mret (ulong t).

(** [alarm(0)] cancels it. *)
Definition alarm (seconds : Z) : cmm () :=
  modify (upd_sock (set_alarm (if u32 seconds =? 0 then None else Some (u32 seconds)))).

Definition usbnet_link_change (link : Z) : cmm () :=
  s ← get_state;
  if s_link s =? link then mret () else
  modify (set_s_link link);;
  (if link &' link_bit IpFamilyV4 =? 0 then upd_ipv4 (λ _, zero_ipv4) else mret ());;
  (if link &' link_bit IpFamilyV6 =? 0 then upd_ipv6 (λ _, zero_ipv6) else mret ());;
  modify (add_out (if negb (link =? 0) then Udhcpc_start link else Udhcpc_stop)).

Definition optional {A} (o : option (cmm A)) : cmm () :=
  match o with Some f => ignore f | None => mret () end.

Section Loop.
Context (ops : request_ops).

Definition check_ipv4_address : cmm bool :=
  s ← get_state;
  let compare (oldAddress : Z) :=
    err ← ops_GetIPAddress ops IpFamilyV4;
    if err =? 0 then s ← get_state; mret (Address (ipv4 (prof s)) =? oldAddress) else mret false in
  match kind ops with
  | Mbim_request_ops => mret true
  | Atc_request_ops => if udhcpc_ip (prof s) =? 0 then mret true else compare (udhcpc_ip (prof s))
  | Qmi_request_ops => compare (Address (ipv4 (prof s)))
  end.

(** IPv6 shares the IPv4 call unless the table is that of QMI. *)
Definition shares_call (c : config) : bool :=
  enable_ipv4 c && negb (bool_decide (kind ops = Qmi_request_ops)).

(** ** [SIG_EVENT_START] *)

(** A data call and its address; the connection status afterwards. *)
Definition finish_call (family qmierr status : Z) : cmm Z :=
  if negb (qmierr =? 0) then mret status else
  qmierr ← ops_GetIPAddress ops family;
  mret (if qmierr =? 0 then QWDS_PKT_DATA_CONNECTED else status).

Definition set_auth (x : Z) : cmm () :=
  modify (upd_prof (λ p, set_cred (Credentials (apn (cred p)) (user (cred p)) (password (cred p)) x) p)).

(** A refused call with user and password is tried again with the other way of
    authentication, which is kept when it works. *)
Definition setup_v4 : cmm Z :=
  qmierr ← ops_SetupDataCall ops IpFamilyV4;
  s ← get_state;
  let c := cred (prof s) in
  if (0 <? qmierr) && negb (no_string (user c)) && negb (no_string (password c)) then
    let old_auto := auth c in
    set_auth (if old_auto =? 1 then 2 else 1);;
    qmierr ← ops_SetupDataCall ops IpFamilyV4;
    (if negb (qmierr =? 0) then set_auth old_auto else mret ());;
    mret qmierr
  else mret qmierr.

Definition start_v4 (status : Z) : cmm Z :=
  s ← get_state;
  if enable_ipv4 (cfg s) && negb (connected status)
  then qmierr ← setup_v4; finish_call IpFamilyV4 qmierr status else mret status.

Definition start_v6 (v4 status : Z) : cmm Z :=
  s ← get_state;
  if enable_ipv6 (cfg s) && negb (connected status) then
    if shares_call (cfg s) then mret v4
    else qmierr ← ops_SetupDataCall ops IpFamilyV6; finish_call IpFamilyV6 qmierr status
  else mret status.

(** An enabled family without a connection. *)
Definition missing (c : config) (l : locals) : bool :=
  (enable_ipv4 c && disconnected (IPv4ConnectionStatus l)) ||
  (enable_ipv6 c && disconnected (IPv6ConnectionStatus l)).

(** When a family is still missing the next attempt is put off. *)
Definition schedule_redial (l : locals) : cmm locals :=
  s ← get_state;
  if missing (cfg s) l then
    let t := default 60 (allow_time !! Z.to_nat (SetupCallFail l)) in
    alarm t;;
    now ← clock_msec;
    mret (set_allow (ulong (t * 1000 + now)) (set_fail (u32 (SetupCallFail l + 1)) l))
  else if connected (IPv4ConnectionStatus l) || connected (IPv6ConnectionStatus l) then
    now ← clock_msec;
    mret (set_allow now (set_fail 0 l))
  else mret l.

Definition sig_event_start (l : locals) : cmm locals :=
  s ← get_state;
  if negb (PSAttachedState l =? 1) && (loopback_state (prof s) =? 0) then mret l else
  now ← clock_msec;
  if now <? SetupCallAllowTime l then
    now ← clock_msec;
    alarm (ulong (SetupCallAllowTime l - now + 999) / 1000);;
    mret l
  else
  v4 ← start_v4 (IPv4ConnectionStatus l);
  v6 ← start_v6 v4 (IPv6ConnectionStatus l);
  schedule_redial (set_v6 v6 (set_v4 v4 l)).

(** ** [SIG_EVENT_CHECK] *)

Definition check_v4 (status : Z) : cmm Z :=
  s ← get_state;
  if negb (enable_ipv4 (cfg s) && negb (disconnected status)) then mret QWDS_PKT_DATA_DISCONNECTED else
  '(err, status) ← ops_QueryDataCall ops status IpFamilyV4;
  if negb (err =? 0) then mret QWDS_PKT_DATA_DISCONNECTED else
  s ← get_state;
  status ← (if connected status && (Address (ipv4 (prof s)) =? 0) then
              qmierr ← ops_GetIPAddress ops IpFamilyV4;
              mret (if negb (qmierr =? 0) then QWDS_PKT_DATA_DISCONNECTED else status)
            else mret status);
  if connected status then
    same ← check_ipv4_address;
    if same : bool then mret status else
    ignore (ops_DeactivateDefaultPDP ops IpFamilyV4);;
    mret QWDS_PKT_DATA_DISCONNECTED
  else mret status.

(** The result of the query is not looked at. *)
Definition check_v6 (v4 status : Z) : cmm Z :=
  s ← get_state;
  if negb (enable_ipv6 (cfg s) && negb (disconnected status)) then mret QWDS_PKT_DATA_DISCONNECTED else
  if shares_call (cfg s) then mret v4
  else '(_, status) ← ops_QueryDataCall ops status IpFamilyV6; mret status.

(** The link follows the connections; it is left as it is when a status is neither
    connected nor disconnected and no family is connected. *)
Definition link_of (l : locals) : option Z :=
  let v4 := IPv4ConnectionStatus l in
  let v6 := IPv6ConnectionStatus l in
  if disconnected v4 && disconnected v6 then Some 0
  else if connected v4 || connected v6 then
    Some ((if connected v4 then link_bit IpFamilyV4 else 0) |'
          (if connected v6 then link_bit IpFamilyV6 else 0))
  else None.

Definition sig_event_check (l : locals) : cmm locals :=
  optional (ops_GetSignalInfo ops);;
  optional (ops_GetCellInfoList ops);;
  optional (ops_GetCoexWWANState ops);;
  l ← (if negb (PSAttachedState l =? 1) then
         '(_, ps) ← ops_RegistrationState ops (PSAttachedState l); mret (set_ps ps l)
       else mret l);
  v4 ← check_v4 (IPv4ConnectionStatus l);
  v6 ← check_v6 v4 (IPv6ConnectionStatus l);
  let l := set_v6 v6 (set_v4 v4 l) in
  (match link_of l with Some link => usbnet_link_change link | None => mret () end);;
  s ← get_state;
  (if missing (cfg s) l then send_signo_to_main SIG_EVENT_START else mret ());;
  mret l.

(** ** [SIG_EVENT_STOP] *)

Definition sig_event_stop (l : locals) : cmm () :=
  s ← get_state;
  (if enable_ipv4 (cfg s) && connected (IPv4ConnectionStatus l)
   then ignore (ops_DeactivateDefaultPDP ops IpFamilyV4) else mret ());;
  (if enable_ipv6 (cfg s) && connected (IPv6ConnectionStatus l) && negb (shares_call (cfg s))
   then ignore (ops_DeactivateDefaultPDP ops IpFamilyV6) else mret ());;
  usbnet_link_change 0;;
  QmiWwanDeInit;;
  main_send_event_to_qmidevice RIL_REQUEST_QUIT.

Definition on_signal (signo : Z) (l : locals) : cmm next :=
  alarm 0;;
  if signo =? SIG_EVENT_START then Go <$> sig_event_start l
  else if signo =? SIG_EVENT_CHECK then Go <$> sig_event_check l
  else if signo =? SIG_EVENT_STOP then sig_event_stop l;; mret Main_quit
  else mret (Go l).

(** ** Events of the device thread *)

Definition on_network_state (l : locals) : cmm locals :=
  '(_, ps) ← ops_RegistrationState ops (PSAttachedState l);
  let l := set_ps ps l in
  if ps =? 1 then
    s ← get_state;
    (if missing (cfg s) l then send_signo_to_main SIG_EVENT_START else mret ());;
    mret l
  else now ← clock_msec; mret (set_allow now l).

Definition on_call_list (l : locals) : cmm locals :=
  l ← (if connected (IPv4ConnectionStatus l) || connected (IPv6ConnectionStatus l)
       then now ← clock_msec; mret (set_allow (ulong (now + 1000)) l) else mret l);
  send_signo_to_main SIG_EVENT_CHECK;;
  mret l.

(** The notification: the TLV of the state at 4, that of the factor at 8. *)
Definition on_loopback (data : list Z) : cmm () :=
  state ← lift (get8 data 7);
  factor ← lift (get_le32 data 11);
  modify (upd_prof (λ p, set_replication_factor factor (set_loopback_state state p)));;
  if negb (state =? 0) then send_signo_to_main SIG_EVENT_START else mret ().

Definition on_event (e : event) (l : locals) : cmm next :=
  let n := match e with Event n | Event_data n _ => n end in
  if n =? RIL_INDICATE_DEVICE_DISCONNECTED then usbnet_link_change 0;; mret Main_quit
  else if n =? RIL_UNSOL_RESPONSE_VOICE_NETWORK_STATE_CHANGED then Go <$> on_network_state l
  else if n =? RIL_UNSOL_DATA_CALL_LIST_CHANGED then Go <$> on_call_list l
  else if n =? MODEM_REPORT_RESET_EVENT then
    main_send_event_to_qmidevice RIL_REQUEST_QUIT;;
    modify (upd_sock (set_donot_exit 1));;
    mret Main_quit
  else if n =? RIL_UNSOL_LOOPBACK_CONFIG_IND then
    match e with
    | Event_data _ data => on_loopback data;; mret (Go l)
    | Event _ => hang
    end
  else mret (Go l).

(** ** The loop *)

(** The number in front of a socket. *)
Definition read_signal : cmm (option Z) :=
  s ← get_state;
  match signals (sock s) with
  | [] => mret None
  | n :: rest => modify (upd_sock (set_signals rest));; mret (Some n)
  end.

Definition read_event : cmm (option event) :=
  s ← get_state;
  match events (sock s) with
  | [] => mret None
  | e :: rest => modify (upd_sock (set_events rest));; mret (Some e)
  end.

(** The error flags of a socket, then its input. *)
Definition poll_fd (r : revents) (input : cmm next) (l : locals) : cmm next :=
  (if rv_err r || rv_hup r then main_send_event_to_qmidevice RIL_REQUEST_QUIT else mret ());;
  if rv_hup r then mret Main_quit else input.

Definition signal_input (l : locals) : cmm next :=
  n ← read_signal; match n with Some n => on_signal n l | None => mret (Go l) end.

Definition event_input (l : locals) : cmm next :=
  e ← read_event; match e with Some e => on_event e l | None => mret (Go l) end.

(** What is ready is what [poll] has found. *)
Definition main_turn (l : locals) : cmm next :=
  t ← ask idle;
  ignore (happen_all (t_happens t));;
  if t_poll_failed t then mret Main_quit else
  s ← get_state;
  let signal_ready := negb (bool_decide (signals (sock s) = [])) in
  let event_ready := negb (bool_decide (events (sock s) = [])) in
  let flags (r : revents) := rv_err r || rv_hup r in
  if negb (signal_ready || event_ready || flags (t_signal t) || flags (t_device t))
  then send_signo_to_main SIG_EVENT_CHECK;; mret (Go l) else
  r ← poll_fd (t_signal t) (if signal_ready then signal_input l else mret (Go l)) l;
  match r with
  | Main_quit => mret Main_quit
  | Go l => poll_fd (t_device t) (if event_ready then event_input l else mret (Go l)) l
  end.

Fixpoint main_loop (turns : nat) (l : locals) : cmm next :=
  match turns with
  | O => mret (Go l)
  | S turns =>
    r ← main_turn l;
    match r with Main_quit => mret Main_quit | Go l => main_loop turns l end
  end.

(** [__main_quit]: the device thread is waited for. *)
Definition main_quit : cmm Z :=
  usbnet_link_change 0;;
  t ← ask idle;
  ignore (happen_all (t_happens t));;
  s ← get_state;
  if thread_running (chan s) then hang else mret 0.

(** ** The preparation *)

(** The start of the device thread; [opened] is whether the device could be opened. *)
Definition QmiWwanThread_start (opened : bool) : cmm () :=
  if opened then
    modify (upd_chan (λ c, set_running true (set_wait_quit false (set_wdm_open true c))));;
    qmidevice_send_event_to_main RIL_INDICATE_DEVICE_CONNECTED
  else qmidevice_send_event_to_main RIL_INDICATE_DEVICE_DISCONNECTED.

Fixpoint sim_loop (fuel : nat) (get : Z → cmm (Z * Z)) (status : Z) : cmm Z :=
  match fuel with
  | O => hang
  | S fuel =>
    '(qmierr, status) ← get status;
    if qmierr =? QMI_ERR_OP_DEVICE_UNSUPPORTED then sim_loop fuel get status else mret status
  end.

Definition prepare_loopback : cmm () :=
  s ← get_state;
  match ops_SetLoopBackState ops with
  | Some f =>
    if loopback_state (prof s) =? 0 then mret () else
    qmierr ← f (loopback_state (prof s)) (replication_factor (prof s));
    if negb (qmierr =? QMI_ERR_INVALID_QMI_CMD)
    then modify (upd_prof (set_loopback_state 0)) else mret ()
  | None => mret ()
  end.

Definition prepare_sim (fuel : nat) : cmm () :=
  s ← get_state;
  SIMStatus ← (match ops_GetSIMStatus ops with
    | Some get =>
      status ← sim_loop fuel get SIM_ABSENT;
      (match pincode (cfg s), ops_EnterSimPin ops with
       | Some pin, Some enter => if status =? SIM_PIN then ignore (enter pin) else mret ()
       | _, _ => mret ()
       end);;
      mret status
    | None => mret SIM_ABSENT
    end);
  if SIMStatus =? SIM_READY then optional (ops_GetICCID ops);; optional (ops_GetIMSI ops) else mret ().

Definition prepare_profile : cmm () :=
  optional (ops_GetProfile ops);;
  s ← get_state;
  let c := cred (prof s) in
  match apn c, user c, password c with
  | None, None, None => mret ()
  | _, _, _ => optional (ops_SetProfile ops)
  end.

(** A call that an earlier run has left behind is ended. *)
Definition end_old_call (status : Z) : cmm Z :=
  s ← get_state;
  if enable_ipv4 (cfg s) && bool_decide (kind ops = Atc_request_ops) then
    '(err, status) ← ops_QueryDataCall ops status IpFamilyV4;
    (if (err =? 0) && connected status then ignore (ops_DeactivateDefaultPDP ops IpFamilyV4) else mret ());;
    mret status
  else mret status.

Definition prepare (fuel : nat) (l : locals) : cmm locals :=
  optional (ops_BaseBandVersion ops);;
  optional (ops_SetEthMode ops);;
  prepare_loopback;;
  prepare_sim fuel;;
  prepare_profile;;
  '(_, ps) ← ops_RegistrationState ops (PSAttachedState l);
  v4 ← end_old_call (IPv4ConnectionStatus l);
  send_signo_to_main SIG_EVENT_CHECK;;
  mret (set_v4 v4 (set_ps ps l)).

(** From the start of the device thread on; [None] is a loop that is still running
    after [turns] turns. *)
Definition qmi_main (fuel turns : nat) (opened : bool) : cmm (option Z) :=
  now ← clock_msec;
  QmiWwanThread_start opened;;
  e ← read_event;
  match e with
  | Some (Event n) =>
    if negb (n =? RIL_INDICATE_DEVICE_CONNECTED) then mret (Some 0) else
    err ← QmiWwanInit;
    if negb (err =? 0) then mret (Some 0) else
    l ← prepare fuel (Locals 0 QWDS_PKT_DATA_UNKNOW QWDS_PKT_DATA_UNKNOW 0 now);
    r ← main_loop turns l;
    match r with Main_quit => Some <$> main_quit | Go _ => mret None end
  | _ => mret (Some 0)
  end.

End Loop.
End Main.
