(* ===== verification/CmFrame.v ===== *)
(** * The connection manager: what the requests leave alone

    The requests to the modem, with everything that happens while they wait, do not
    touch the state of the link.  The theorems on the main loop are proved for any
    table of operations with this property ([OpsFrame]); here it is proved for the
    functions of [QMIThread.c] and [QmiWwanCM.c]. *)

From S2P Require Import Prelude Kernel CmMsg CmDev CmReq CmMain.

#[local] Open Scope Z_scope.
#[local] Open Scope c_scope.

(** ** Code that keeps a relation *)

Section Preserves.
Context `{Env} (R : cm → cm → Prop) `{!PreOrder R}.

Definition preserves {A} (m : cmm A) : Prop := ∀ s, ends m s (λ _ s', R s s').

Lemma preserves_ret {A} (a : A) : preserves (mret a).
Proof. intros s. by apply ends_ret. Qed.

Lemma preserves_bind {A B} (m : cmm A) (f : A → cmm B) :
  preserves m → (∀ a, preserves (f a)) → preserves (m ≫= f).
Proof.
  intros Hm Hf s. apply ends_bind. eapply ends_mono; [apply Hm|]. intros a s' H1 b s'' E.
  etrans; [exact H1|]. by apply (Hf a s' b).
Qed.

(** The same where the code goes on from the state it has read. *)
Lemma preserves_get {B} (f : cm → cmm B) : (∀ s, preserves (f s)) → preserves (get_state ≫= f).
Proof. intros Hf s. apply ends_bind, ends_get. apply Hf. Qed.

Lemma preserves_fmap {A B} (f : A → B) (m : cmm A) : preserves m → preserves (f <$> m).
Proof. intros Hm. apply preserves_bind; [done|]. intros a. apply preserves_ret. Qed.

Lemma preserves_modify (f : cm → cm) : (∀ s, R s (f s)) → preserves (modify f).
Proof. intros Hf s. by apply ends_modify. Qed.

Lemma preserves_lift {A} (o : outcome A) : preserves (lift o).
Proof. intros s. apply ends_lift. by intros. Qed.

Lemma preserves_fault {A} : preserves (fault : cmm A).
Proof. intros s. apply ends_fault. Qed.

Lemma preserves_hang {A} : preserves (hang : cmm A).
Proof. by intros s ? ?. Qed.

Lemma preserves_ask {A} (f : World → World * A) :
  (∀ s w, R s (set_world w s)) → preserves (ask f).
Proof. intros Hf s a s'. unfold ask. destruct (f (world s)) as [w a']. intros [= <- <-]. apply Hf. Qed.

Lemma preserves_ignore {A} (m : cmm A) : preserves m → preserves (ignore m).
Proof. intros Hm. apply preserves_bind; [done|]. intros a. apply preserves_ret. Qed.

Lemma preserves_for_each {A} (l : list A) (f : A → cmm ()) :
  (∀ x, preserves (f x)) → preserves (for_each l f).
Proof.
  intros Hf. induction l as [|x l IH]; [apply preserves_ret|].
  apply preserves_bind; [apply Hf|by intros []].
Qed.
End Preserves.

(** Case analysis of the code down to its steps; what is left are the steps that
    change the state, and the calls for which there is a hint. *)
Create HintDb keeps.

Ltac keeps_step :=
  match goal with
  | |- PreOrder _ => exact _
  | |- preserves _ (mret _) => apply preserves_ret
  | |- preserves _ (get_state ≫= _) => apply preserves_get
  | |- preserves _ (_ ≫= _) => apply preserves_bind
  | |- preserves _ (_ <$> _) => apply preserves_fmap
  | |- preserves _ (lift _) => apply preserves_lift
  | |- preserves _ fault => apply preserves_fault
  | |- preserves _ hang => apply preserves_hang
  | |- preserves _ (ignore _) => apply preserves_ignore
  | |- preserves _ (for_each _ _) => apply preserves_for_each
  | |- preserves _ (match ?x with _ => _ end) => destruct x
  | |- preserves _ (let '_ := ?x in _) => destruct x
  | |- preserves _ (if ?x then _ else _) => destruct x
  end.

Ltac keeps := repeat (intros; first [assumption | keeps_step | solve [auto with keeps]]).

(** ** The state of the link *)

(** What was last done to the DHCP client: -1 is nothing. *)
Fixpoint dhcp_of (o : list output) : Z :=
  match o with
  | [] => -1
  | Udhcpc_start link :: _ => link
  | Udhcpc_stop :: _ => 0
  | _ :: o => dhcp_of o
  end.

Section Frame.
Context `{Env}.

Record frame (s s' : cm) : Prop := Frame {
  frame_cfg : cfg s' = cfg s;
  frame_link : s_link s' = s_link s;
  frame_dhcp : dhcp_of (out s') = dhcp_of (out s)
}.

Lemma frame_preorder : PreOrder frame.
Proof.
  split; [by intros s|]. intros s1 s2 s3 [] [].
  split; congruence.
Qed.

Lemma keeps_ask {A} (f : World → World * A) : preserves frame (ask f).
Proof. by apply preserves_ask. Qed.
Lemma keeps_malloc : preserves frame malloc.
Proof. apply keeps_ask. Qed.
Lemma keeps_prof f : preserves frame (modify (upd_prof f)).
Proof. by apply preserves_modify. Qed.
Lemma keeps_st f : preserves frame (modify (upd_st f)).
Proof. by apply preserves_modify. Qed.
Lemma keeps_chan f : preserves frame (modify (upd_chan f)).
Proof. by apply preserves_modify. Qed.
Lemma keeps_sock f : preserves frame (modify (upd_sock f)).
Proof. by apply preserves_modify. Qed.
Lemma keeps_sent m : preserves frame (modify (add_out (Sent m))).
Proof. by apply preserves_modify. Qed.
Lemma keeps_setting q : preserves frame (modify (add_out (Driver_qmap_setting q))).
Proof. by apply preserves_modify. Qed.
End Frame.

#[export] Existing Instance frame_preorder.

#[export] Hint Resolve keeps_ask keeps_malloc keeps_prof keeps_st keeps_chan keeps_sock keeps_sent
  keeps_setting : keeps.

(** ** The device thread and the exchange *)

Section Exchange.
Context `{Env}.

Lemma keeps_signo n : preserves frame (send_signo_to_main n).
Proof. unfold send_signo_to_main. keeps. Qed.
Lemma keeps_to_device n : preserves frame (main_send_event_to_qmidevice n).
Proof. unfold main_send_event_to_qmidevice. keeps. Qed.
Lemma keeps_event n : preserves frame (qmidevice_send_event_to_main n).
Proof. unfold qmidevice_send_event_to_main. keeps. Qed.
Lemma keeps_event_ext n data : preserves frame (qmidevice_send_event_to_main_ext n data).
Proof. unfold qmidevice_send_event_to_main_ext. keeps. Qed.
#[local] Hint Resolve keeps_signo keeps_to_device keeps_event keeps_event_ext : keeps.

Lemma keeps_sigaction b : preserves frame (ql_sigaction b).
Proof. unfold ql_sigaction. keeps. Qed.
Lemma keeps_recv_qmi m : preserves frame (QmiThreadRecvQMI m).
Proof. unfold QmiThreadRecvQMI. keeps. Qed.
#[local] Hint Resolve keeps_sigaction keeps_recv_qmi : keeps.

Lemma keeps_happen h : preserves frame (happen h).
Proof. unfold happen, dev_read, ctl_read, QmiWwanThread_quit. keeps. Qed.
#[local] Hint Resolve keeps_happen : keeps.

Lemma keeps_happen_all l : preserves frame (happen_all l).
Proof. induction l as [|h l IH]; simpl happen_all; keeps. Qed.
#[local] Hint Resolve keeps_happen_all : keeps.

Lemma keeps_send_qmi m want : preserves frame (QmiThreadSendQMITimeout m want).
Proof. unfold QmiThreadSendQMITimeout, QmiWwanSendQMI, wait_response, upd_request. keeps. Qed.
#[local] Hint Resolve keeps_send_qmi : keeps.

Lemma keeps_compose t n f : preserves frame (ComposeQMUXMsg t n f).
Proof. unfold ComposeQMUXMsg, GetQMUXTransactionId. keeps. Qed.
Lemma keeps_compose_ctl n f : preserves frame (ComposeQCTLMsg n f).
Proof. unfold ComposeQCTLMsg, GetQCTLTransactionId. keeps. Qed.
#[local] Hint Resolve keeps_compose keeps_compose_ctl : keeps.

Lemma keeps_exchange t n f : preserves frame (exchange t n f).
Proof. unfold exchange. keeps. Qed.
Lemma keeps_ctl_exchange n f want : preserves frame (ctl_exchange n f want).
Proof. unfold ctl_exchange. keeps. Qed.
#[local] Hint Resolve keeps_exchange keeps_ctl_exchange : keeps.

Lemma keeps_deinit : preserves frame QmiWwanDeInit.
Proof. unfold QmiWwanDeInit, release_client, QmiWwanReleaseClientID, set_client. keeps. Qed.

Lemma keeps_sync n : preserves frame (sync_loop n).
Proof. induction n as [|n IH]; simpl sync_loop; keeps. Qed.
Lemma keeps_version n m i : preserves frame (version_loop n m i).
Proof. revert i. induction n as [|n IH]; intros i; simpl version_loop; keeps. Qed.
#[local] Hint Resolve keeps_sync keeps_version : keeps.

Lemma keeps_init : preserves frame QmiWwanInit.
Proof.
  unfold QmiWwanInit, libqmi_proxy_open, qmap_capable, get_client, QmiWwanGetClientID, set_client. keeps.
Qed.
End Exchange.

#[export] Hint Resolve keeps_signo keeps_to_device keeps_event keeps_event_ext keeps_happen_all
  keeps_send_qmi keeps_compose keeps_exchange keeps_deinit keeps_init : keeps.

(** ** The requests *)

Section Requests.
Context `{Env}.

Lemma keeps_rsp_check r k : (∀ m, preserves frame (k m)) → preserves frame (qmi_rsp_check_and_return r k).
Proof. intros Hk. unfold qmi_rsp_check_and_return. keeps. Qed.
Lemma keeps_sim_check r status k : (∀ m, preserves frame (k m)) → preserves frame (sim_check r status k).
Proof. intros Hk. unfold sim_check. keeps. Qed.
Lemma keeps_tlv m t k : (∀ pos, preserves frame (k pos)) → preserves frame (with_tlv m t k).
Proof. intros Hk. unfold with_tlv. keeps. Qed.

(** The same analysis, with the functions that take the rest of the code. *)
Ltac keeps_req :=
  repeat (intros; first [assumption | apply keeps_rsp_check | apply keeps_sim_check | apply keeps_tlv
                        | keeps_step | solve [auto with keeps]]).

Lemma keeps_ipv4 f : preserves frame (upd_ipv4 f).
Proof. unfold upd_ipv4. keeps_req. Qed.
Lemma keeps_ipv6 f : preserves frame (upd_ipv6 f).
Proof. unfold upd_ipv6. keeps_req. Qed.
#[local] Hint Resolve keeps_ipv4 keeps_ipv6 : keeps.

Lemma keeps_query status family : preserves frame (requestQueryDataCall status family).
Proof. unfold requestQueryDataCall, set_handle. keeps_req. Qed.
Lemma keeps_setup family : preserves frame (requestSetupDataCall family).
Proof. unfold requestSetupDataCall, call_end_reasons, set_handle. keeps_req. Qed.
Lemma keeps_deactivate family : preserves frame (requestDeactivateDefaultPDP family).
Proof. unfold requestDeactivateDefaultPDP, set_handle. keeps_req. Qed.
Lemma keeps_get_ip family : preserves frame (requestGetIPAddress family).
Proof.
  unfold requestGetIPAddress, runtime_settings, take_pcscf, take_ipv4, take_ipv6. keeps_req.
Qed.

Lemma keeps_home : preserves frame requestGetHomeNetwork.
Proof. unfold requestGetHomeNetwork. keeps_req. Qed.
#[local] Hint Resolve keeps_home : keeps.

Lemma keeps_sys_info_tlv m pos i : preserves frame (sys_info_tlv m pos i).
Proof. unfold sys_info_tlv, network_id, is_cdma. keeps_req. Qed.
#[local] Hint Resolve keeps_sys_info_tlv : keeps.

Lemma keeps_sys_info fuel m len pos i : preserves frame (sys_info_loop fuel m len pos i).
Proof. revert len pos i. induction fuel as [|fuel IH]; intros len pos i; simpl sys_info_loop; keeps_req. Qed.
#[local] Hint Resolve keeps_sys_info : keeps.

Lemma keeps_registration state : preserves frame (requestRegistrationState state).
Proof.
  unfold requestRegistrationState, requestRegistrationState2, data_capabilities, set_5g, is_cdma.
  keeps_req.
Qed.

Lemma keeps_pin status : preserves frame (requestGetPINStatus status).
Proof. unfold requestGetPINStatus, sim_exchange. keeps_req. Qed.
#[local] Hint Resolve keeps_pin : keeps.
Lemma keeps_sim status : preserves frame (requestGetSIMStatus status).
Proof. unfold requestGetSIMStatus, sim_exchange, SIM_Status_String. keeps_req. Qed.
Lemma keeps_simple t n f : preserves frame (simple_request t n f).
Proof. unfold simple_request. keeps_req. Qed.
#[local] Hint Resolve keeps_simple : keeps.
Lemma keeps_enter_pin pin : preserves frame (requestEnterSimPin pin).
Proof. unfold requestEnterSimPin. keeps_req. Qed.

Lemma keeps_find l : preserves frame (find_profile l).
Proof. induction l as [|i l IH]; simpl find_profile; keeps_req. Qed.
#[local] Hint Resolve keeps_find : keeps.
Lemma keeps_profile_settings m : preserves frame (profile_settings m).
Proof. unfold profile_settings, take_string, take_byte. keeps_req. Qed.
#[local] Hint Resolve keeps_profile_settings : keeps.
Lemma keeps_profile fuel : preserves frame (get_profile fuel).
Proof. induction fuel as [|fuel IH]; simpl get_profile; unfold stray_malloc, ipStr; keeps_req. Qed.
#[local] Hint Resolve keeps_profile : keeps.
Lemma keeps_get_profile fuel : preserves frame (requestGetProfile fuel).
Proof. unfold requestGetProfile. keeps_req. Qed.
Lemma keeps_set_profile : preserves frame requestSetProfile.
Proof. unfold requestSetProfile. keeps_req. Qed.

Lemma keeps_version_info : preserves frame requestBaseBandVersion.
Proof. unfold requestBaseBandVersion. keeps_req. Qed.
Lemma keeps_loopback a b : preserves frame (requestSetLoopBackState a b).
Proof. unfold requestSetLoopBackState. keeps_req. Qed.

Lemma keeps_bind_clients q d : preserves frame (bind_clients q d).
Proof. unfold bind_clients, bind_client, free_response. keeps_req. Qed.
#[local] Hint Resolve keeps_bind_clients : keeps.
Lemma keeps_format m q : preserves frame (data_format m q).
Proof. unfold data_format. keeps_req. Qed.
#[local] Hint Resolve keeps_format : keeps.
Lemma keeps_eth_mode : preserves frame requestSetEthMode.
Proof. unfold requestSetEthMode. keeps_req. Qed.
End Requests.

#[export] Hint Resolve keeps_ipv4 keeps_ipv6 keeps_query keeps_setup keeps_deactivate keeps_get_ip
  keeps_registration keeps_sim keeps_enter_pin keeps_get_profile keeps_set_profile keeps_version_info
  keeps_loopback keeps_eth_mode : keeps.

(** ** The interface *)

Definition optional_keeps `{Env} {A} (o : option (cmm A)) : Prop :=
  match o with Some m => preserves frame m | None => True end.

(** What the main loop relies on: no operation touches the state of the link. *)
Class OpsFrame `{Env} (ops : request_ops) : Prop := {
  of_version : optional_keeps (ops_BaseBandVersion ops);
  of_eth_mode : optional_keeps (ops_SetEthMode ops);
  of_loopback a b : optional_keeps (f ← ops_SetLoopBackState ops; Some (f a b));
  of_sim a : optional_keeps (f ← ops_GetSIMStatus ops; Some (f a));
  of_pin a : optional_keeps (f ← ops_EnterSimPin ops; Some (f a));
  of_set_profile : optional_keeps (ops_SetProfile ops);
  of_get_profile : optional_keeps (ops_GetProfile ops);
  of_registration a : preserves frame (ops_RegistrationState ops a);
  of_setup a : preserves frame (ops_SetupDataCall ops a);
  of_query a b : preserves frame (ops_QueryDataCall ops a b);
  of_deactivate a : preserves frame (ops_DeactivateDefaultPDP ops a);
  of_get_ip a : preserves frame (ops_GetIPAddress ops a);
  of_signal_info : optional_keeps (ops_GetSignalInfo ops);
  of_cell_info : optional_keeps (ops_GetCellInfoList ops);
  of_iccid : optional_keeps (ops_GetICCID ops);
  of_imsi : optional_keeps (ops_GetIMSI ops);
  of_coex : optional_keeps (ops_GetCoexWWANState ops)
}.

#[export] Hint Resolve of_registration of_setup of_query of_deactivate of_get_ip : keeps.

#[export] Instance qmi_ops_frame `{Env} fuel : OpsFrame (qmi_request_ops fuel).
Proof. split; intros; simpl; auto with keeps. Qed.
