(* ===== verification/CmLink.v ===== *)
(** * The connection manager: the link follows the connections

    The invariant of the main loop, for any table of operations that leaves the
    state of the link alone: the DHCP client runs exactly for the families of
    [s_link], which are enabled ones, and a status is connected only for an enabled
    family.  Whatever ends the loop, the link is down afterwards. *)

From S2P Require Import Prelude Kernel CmMsg CmDev CmReq CmMain CmFrame.
From stdpp Require Import sets.

#[local] Open Scope Z_scope.
#[local] Open Scope c_scope.

(** ** The invariant *)

(** The values of [s_link]: not set yet, or the families that are up. *)
Definition links (c : config) : list Z :=
  [-1; 0] ++ (if enable_ipv4 c then [16] else []) ++ (if enable_ipv6 c then [64] else []) ++
  (if enable_ipv4 c && enable_ipv6 c then [80] else []).

Definition families_ok (c : config) (l : locals) : Prop :=
  (connected (IPv4ConnectionStatus l) = true → enable_ipv4 c = true) ∧
  (connected (IPv6ConnectionStatus l) = true → enable_ipv6 c = true).

Section Link.
Context `{Env}.

Record link_ok (s : cm) : Prop := LinkOk {
  link_known : s_link s ∈ links (cfg s);
  link_dhcp : dhcp_of (out s) = s_link s
}.

Lemma frame_link_ok s s' : frame s s' → link_ok s → link_ok s'.
Proof. intros [Hc Hl Ho] []. split; congruence. Qed.

(** ** Partial correctness with a frame *)

(** The code ends in a state with the same link and its result satisfies [Φ]. *)
Definition frames {A} (m : cmm A) (s : cm) (Φ : A → Prop) : Prop :=
  ends m s (λ a s', frame s s' ∧ Φ a).

Lemma frames_keep {A} (m : cmm A) s : preserves frame m → frames m s (λ _, True).
Proof. intros Hm. eapply ends_mono; [apply Hm|]. by intros a s' ?. Qed.

Lemma frames_ret {A} (a : A) s (Φ : A → Prop) : Φ a → frames (mret a) s Φ.
Proof. intros. by apply ends_ret. Qed.

Lemma frames_bind {A B} (m : cmm A) (f : A → cmm B) s (Ψ : A → Prop) (Φ : B → Prop) :
  frames m s Ψ → (∀ a s', frame s s' → Ψ a → frames (f a) s' Φ) → frames (m ≫= f) s Φ.
Proof.
  intros Hm Hf. apply ends_bind. eapply ends_mono; [exact Hm|]. intros a s' [F Ha].
  eapply ends_mono; [by apply Hf|]. intros b s'' [F' Hb]. split; [by etrans|done].
Qed.

Lemma frames_get {B} (f : cm → cmm B) s (Φ : B → Prop) : frames (f s) s Φ → frames (get_state ≫= f) s Φ.
Proof. intros Hf. apply ends_bind, ends_get. done. Qed.

Lemma frames_mono {A} (m : cmm A) s (Φ Ψ : A → Prop) :
  frames m s Φ → (∀ a, Φ a → Ψ a) → frames m s Ψ.
Proof. intros Hm H'. eapply ends_mono; [exact Hm|]. intros b s' []. auto. Qed.

Lemma ends_frame {A B} (m : cmm A) (f : A → cmm B) s (Ψ : A → Prop) (Φ : B → cm → Prop) :
  frames m s Ψ → (∀ a s', frame s s' → Ψ a → ends (f a) s' Φ) → ends (m ≫= f) s Φ.
Proof. intros Hm Hf. apply ends_bind. eapply ends_mono; [exact Hm|]. intros a s' []. auto. Qed.

Lemma ends_keep {A B} (m : cmm A) (f : A → cmm B) s (Φ : B → cm → Prop) :
  preserves frame m → (∀ a s', frame s s' → ends (f a) s' Φ) → ends (m ≫= f) s Φ.
Proof. intros Hm Hf. eapply ends_frame; [by apply frames_keep|]. auto. Qed.

(** ** The link *)

Lemma keeps_clock : preserves frame clock_msec.
Proof. unfold clock_msec. keeps. Qed.
Lemma keeps_alarm n : preserves frame (alarm n).
Proof. unfold alarm. keeps. Qed.

(** Setting the state of the link: the new state is recorded and the DHCP client
    follows it; the settings of the families that are down are cleared. *)
Lemma link_change_spec link s :
  runs (usbnet_link_change link) s (λ _ s',
    cfg s' = cfg s ∧ s_link s' = link ∧ sock s' = sock s ∧
    (dhcp_of (out s) = s_link s → dhcp_of (out s') = link) ∧
    (s_link s ≠ link → link &' link_bit IpFamilyV4 = 0 → ipv4 (prof s') = zero_ipv4) ∧
    (s_link s ≠ link → link &' link_bit IpFamilyV6 = 0 → ipv6 (prof s') = zero_ipv6)).
Proof.
  unfold usbnet_link_change. apply runs_bind, runs_get. destruct (Z.eqb_spec (s_link s) link) as [E|E].
  { apply runs_ret. split_and!; [done|done|done|congruence|done|done]. }
  apply runs_bind, runs_modify.
  apply runs_bind. destruct (Z.eqb_spec (link &' link_bit IpFamilyV4) 0) as [E4|E4];
    (eapply runs_exact; [reflexivity|]); apply runs_bind;
    destruct (Z.eqb_spec (link &' link_bit IpFamilyV6) 0) as [E6|E6];
    (eapply runs_exact; [reflexivity|]); apply runs_modify;
    split_and!; try done; intros _; simpl; destruct (Z.eqb_spec link 0); simpl; congruence.
Qed.

Lemma ends_runs {A} (m : cmm A) s (Φ : A → cm → Prop) : runs m s Φ → ends m s Φ.
Proof. intros (a & s' & E & HΦ) b s'' E'. rewrite E in E'. by simplify_eq. Qed.

(** Every way to set the link to a value for the enabled families keeps it right. *)
Lemma link_change_ok link s :
  link ∈ links (cfg s) → link_ok s →
  ends (usbnet_link_change link) s (λ _ s', link_ok s' ∧ s_link s' = link ∧ cfg s' = cfg s).
Proof.
  intros Hl [_ Hd]. eapply ends_mono; [apply ends_runs, link_change_spec|].
  intros [] s' (Hc & E & _ & Ho & _). split; [|done]. split; [by rewrite Hc, E|rewrite Ho; congruence].
Qed.

Lemma links_zero c : 0 ∈ links c.
Proof. unfold links. set_solver. Qed.

Lemma link_of_enabled c l link : families_ok c l → link_of l = Some link → link ∈ links c.
Proof.
  intros [H4 H6]. unfold link_of, links, disconnected.
  destruct (connected (IPv4ConnectionStatus l)) eqn:E4, (connected (IPv6ConnectionStatus l)) eqn:E6;
    simpl; unfold connected in *; case_bools; simpl; intros; simplify_eq;
    try rewrite H4 by done; try rewrite H6 by done; simpl; set_solver.
Qed.
End Link.

#[export] Hint Resolve keeps_clock keeps_alarm : keeps.

(** ** The handlers *)

Section Handlers.
Context `{Env} (ops : request_ops) `{!OpsFrame ops}.

Lemma keeps_optional {A} (o : option (cmm A)) : optional_keeps o → preserves frame (optional o).
Proof. destruct o; simpl; intros; keeps. Qed.

Lemma keeps_check_ipv4 : preserves frame (check_ipv4_address ops).
Proof. unfold check_ipv4_address. keeps. Qed.
Lemma keeps_setup_v4 : preserves frame (setup_v4 ops).
Proof. unfold setup_v4, set_auth. keeps. Qed.
#[local] Hint Resolve keeps_check_ipv4 keeps_setup_v4 : keeps.

(** A call that is finished connects its family or leaves the status. *)
Lemma finish_call_spec family err status s :
  frames (finish_call ops family err status) s
    (λ v, v = status ∨ v = QWDS_PKT_DATA_CONNECTED ∧ err = 0).
Proof.
  unfold finish_call. destruct (Z.eqb_spec err 0) as [->|]; simpl; [|by apply frames_ret; left].
  eapply frames_bind; [apply frames_keep, of_get_ip|]. intros q s' _ _. apply frames_ret.
  destruct (q =? 0); auto.
Qed.

Lemma start_v4_spec status s :
  frames (start_v4 ops status) s (λ v, v = status ∨ connected v = true ∧ enable_ipv4 (cfg s) = true).
Proof.
  unfold start_v4. apply frames_get. destruct (enable_ipv4 (cfg s)) eqn:E; simpl; [|by apply frames_ret; left].
  destruct (connected status); simpl; [by apply frames_ret; left|].
  eapply frames_bind; [apply frames_keep, keeps_setup_v4|]. intros q s' _ _.
  eapply frames_mono; [apply finish_call_spec|]. intros v [->|[-> _]]; auto.
Qed.

Lemma start_v6_spec v4 status s :
  frames (start_v6 ops v4 status) s
    (λ v, v = status ∨ (v = v4 ∨ connected v = true) ∧ enable_ipv6 (cfg s) = true).
Proof.
  unfold start_v6. apply frames_get. destruct (enable_ipv6 (cfg s)) eqn:E; simpl; [|by apply frames_ret; left].
  destruct (connected status); simpl; [by apply frames_ret; left|].
  destruct (shares_call ops (cfg s)); [apply frames_ret; auto|].
  eapply frames_bind; [apply frames_keep, of_setup|]. intros q s' _ _.
  eapply frames_mono; [apply finish_call_spec|]. intros v [->|[-> _]]; auto.
Qed.

(** The backoff changes neither status. *)
Definition same_status (l l' : locals) : Prop :=
  IPv4ConnectionStatus l' = IPv4ConnectionStatus l ∧ IPv6ConnectionStatus l' = IPv6ConnectionStatus l.

Lemma schedule_status l s : frames (schedule_redial l) s (same_status l).
Proof.
  unfold schedule_redial. apply frames_get. destruct (missing _ _).
  { eapply frames_bind; [apply frames_keep, keeps_alarm|]. intros [] s1 _ _.
    eapply frames_bind; [apply frames_keep, keeps_clock|]. intros now s2 _ _. by apply frames_ret. }
  destruct (_ || _); [|by apply frames_ret].
  eapply frames_bind; [apply frames_keep, keeps_clock|]. intros now s2 _ _. by apply frames_ret.
Qed.

Lemma start_families l s :
  families_ok (cfg s) l → frames (sig_event_start ops l) s (families_ok (cfg s)).
Proof.
  intros [H4 H6]. unfold sig_event_start. apply frames_get. destruct (_ && _); [by apply frames_ret|].
  eapply frames_bind; [apply frames_keep, keeps_clock|]. intros now s1 F1 _. destruct (_ <? _).
  { eapply frames_bind; [apply frames_keep, keeps_clock|]. intros now' s2 _ _.
    eapply frames_bind; [apply frames_keep, keeps_alarm|]. intros [] s3 _ _. by apply frames_ret. }
  eapply frames_bind; [apply start_v4_spec|]. intros v4 s2 F2 Hv4.
  eapply frames_bind; [apply start_v6_spec|]. intros v6 s3 F3 Hv6.
  eapply frames_mono; [apply schedule_status|]. intros l' [E4 E6]. unfold families_ok.
  rewrite E4, E6. simpl. rewrite (frame_cfg _ _ F1) in *.
  rewrite (frame_cfg _ _ F2), (frame_cfg _ _ F1) in Hv6.
  split; [destruct Hv4 as [-> | []]; auto|]. destruct Hv6 as [-> | [_ ?]]; auto.
Qed.

Lemma check_v4_spec status s :
  frames (check_v4 ops status) s (λ v, connected v = true → enable_ipv4 (cfg s) = true).
Proof.
  unfold check_v4. apply frames_get. destruct (enable_ipv4 (cfg s)) eqn:E; simpl.
  - eapply frames_mono; [apply frames_keep|done]. keeps.
  - by apply frames_ret.
Qed.

Lemma check_v6_spec v4 status s :
  frames (check_v6 ops v4 status) s (λ v, connected v = true → enable_ipv6 (cfg s) = true).
Proof.
  unfold check_v6. apply frames_get. destruct (enable_ipv6 (cfg s)) eqn:E; simpl.
  - eapply frames_mono; [apply frames_keep|done]. keeps.
  - by apply frames_ret.
Qed.

(** The check sets the link to the families that are connected, and asks for another
    attempt exactly when an enabled family is missing. *)
Lemma check_spec l s : link_ok s →
  ends (sig_event_check ops l) s (λ l' s',
    cfg s' = cfg s ∧ families_ok (cfg s) l' ∧ link_ok s' ∧ s_link s' = default (s_link s) (link_of l') ∧
    (missing (cfg s) l' = true → last (signals (sock s')) = Some SIG_EVENT_START)).
Proof.
  intros Hs. unfold sig_event_check.
  apply ends_keep; [apply keeps_optional, of_signal_info|]. intros _ s1 F1.
  apply ends_keep; [apply keeps_optional, of_cell_info|]. intros _ s2 F2.
  apply ends_keep; [apply keeps_optional, of_coex|]. intros _ s3 F3.
  apply ends_keep; [keeps|]. intros l1 s4 F4.
  eapply ends_frame; [apply check_v4_spec|]. intros v4 s5 F5 Hv4.
  eapply ends_frame; [apply check_v6_spec|]. intros v6 s6 F6 Hv6.
  assert (frame s s4) as F' by (do 3 (etrans; [eassumption|]); done).
  assert (frame s s6) as F by (do 2 (etrans; [eassumption|]); done).
  assert (families_ok (cfg s) (set_v6 v6 (set_v4 v4 l1))) as Hfam.
  { split; simpl; intros E.
    - rewrite <- (frame_cfg _ _ F'). by apply Hv4.
    - rewrite <- (frame_cfg _ _ F'), <- (frame_cfg _ _ F5). by apply Hv6. }
  assert (link_ok s6) as Hs6 by (by eapply (frame_link_ok s)).
  cbv zeta. set (l2 := set_v6 v6 (set_v4 v4 l1)) in *.
  apply ends_bind. eapply ends_mono with
    (Φ := λ _ s', link_ok s' ∧ s_link s' = default (s_link s) (link_of l2) ∧ cfg s' = cfg s).
  { destruct (link_of l2) as [link|] eqn:El.
    - eapply ends_mono; [apply link_change_ok|].
      + rewrite (frame_cfg _ _ F). by eapply link_of_enabled.
      + done.
      + intros [] s' (? & ? & E). rewrite E. split_and!; try done. apply F.
    - apply ends_ret. split_and!; [done|apply F|apply F]. }
  intros [] s7 (Hs7 & El & Ec). apply ends_bind, ends_get. apply ends_bind.
  destruct (missing (cfg s7) l2) eqn:Em.
  - apply ends_modify, ends_ret. split_and!; [done|done|by destruct Hs7|done|].
    intros _. simpl. by rewrite last_snoc.
  - apply ends_ret, ends_ret. rewrite Ec in Em. split_and!; [done..|congruence].
Qed.
End Handlers.

(** ** The loop *)

Section Loop.
Context `{Env} (ops : request_ops) `{!OpsFrame ops}.

(** What a turn starts from and ends with. *)
Definition goes_on (s : cm) (r : next) (s' : cm) : Prop :=
  cfg s' = cfg s ∧ link_ok s' ∧ match r with Go l => families_ok (cfg s) l | Main_quit => True end.

Lemma goes_on_frame s s1 r s' : frame s s1 → goes_on s1 r s' → goes_on s r s'.
Proof. intros F (Hc & Hl & Hr). rewrite (frame_cfg _ _ F) in *. done. Qed.

(** Code that leaves the link alone, and what follows it. *)
Lemma goes_on_keep {A} (m : cmm A) (f : A → cmm next) s :
  link_ok s → preserves frame m →
  (∀ a s1, link_ok s1 → cfg s1 = cfg s → ends (f a) s1 (goes_on s1)) → ends (m ≫= f) s (goes_on s).
Proof.
  intros Hs Hm Hf. apply ends_keep; [done|]. intros a s1 F1.
  eapply ends_mono; [apply Hf|].
  - by eapply frame_link_ok.
  - apply F1.
  - intros r s'. by apply goes_on_frame.
Qed.

Lemma goes_on_ret r s :
  link_ok s → match r with Go l => families_ok (cfg s) l | Main_quit => True end →
  ends (mret r) s (goes_on s).
Proof. intros. by apply ends_ret. Qed.

Lemma goes_on_get (f : cm → cmm next) s : ends (f s) s (goes_on s) → ends (get_state ≫= f) s (goes_on s).
Proof. intros Hf. by apply ends_bind, ends_get. Qed.

(** A handler whose result is the new locals. *)
Lemma goes_on_locals (m : cmm locals) s :
  ends m s (λ l' s', cfg s' = cfg s ∧ families_ok (cfg s) l' ∧ link_ok s') →
  ends (Go <$> m) s (goes_on s).
Proof. intros Hm. apply ends_bind. eapply ends_mono; [exact Hm|]. intros l' s' (? & ? & ?). by apply ends_ret. Qed.

Lemma goes_on_frames (m : cmm locals) s :
  link_ok s → frames m s (families_ok (cfg s)) → ends (Go <$> m) s (goes_on s).
Proof.
  intros Hs Hm. apply goes_on_locals. eapply ends_mono; [exact Hm|]. intros l' s' [F Hl].
  split_and!; [apply F|done|by eapply frame_link_ok].
Qed.

(** Taking the link down and leaving. *)
Lemma goes_on_down s : link_ok s → ends (usbnet_link_change 0;; mret Main_quit) s (goes_on s).
Proof.
  intros Hs. apply ends_bind. eapply ends_mono; [apply link_change_ok; [apply links_zero|done]|].
  intros [] s' (Hl & _ & Hc). by apply ends_ret.
Qed.

Lemma stop_ok l s : link_ok s → ends (sig_event_stop ops l;; mret Main_quit) s (goes_on s).
Proof.
  intros Hs. apply ends_bind. unfold sig_event_stop. apply ends_bind, ends_get.
  apply ends_keep; [keeps|]. intros _ s1 F1. apply ends_keep; [keeps|]. intros _ s2 F2.
  assert (frame s s2) as F by by etrans.
  apply ends_bind. eapply ends_mono; [apply link_change_ok; [apply links_zero|by eapply frame_link_ok]|].
  intros [] s3 (Hl & _ & Hc). apply ends_keep; [apply keeps_deinit|]. intros [] s4 F4.
  eapply ends_mono; [apply keeps_to_device|]. intros [] s5 F5. apply ends_ret.
  split_and!; [|by do 2 (eapply frame_link_ok; [eassumption|])|done].
  by rewrite (frame_cfg _ _ F5), (frame_cfg _ _ F4), Hc, (frame_cfg _ _ F).
Qed.

Lemma on_signal_ok n l s :
  link_ok s → families_ok (cfg s) l → ends (on_signal ops n l) s (goes_on s).
Proof.
  intros Hs Hl. unfold on_signal. apply goes_on_keep; [done|apply keeps_alarm|]. intros _ s1 Hs1 Hc.
  rewrite <- Hc in Hl. destruct (n =? SIG_EVENT_START).
  { apply goes_on_frames; [done|]. by apply start_families. }
  destruct (n =? SIG_EVENT_CHECK).
  { apply goes_on_locals. eapply ends_mono; [by apply check_spec|]. intros l' s' (? & ? & ? & _). done. }
  destruct (n =? SIG_EVENT_STOP); [by apply stop_ok|]. by apply goes_on_ret.
Qed.

Lemma same_families c l l' : same_status l l' → families_ok c l → families_ok c l'.
Proof. intros [E4 E6]. unfold families_ok. by rewrite E4, E6. Qed.

(** The events that only look at the statuses. *)
Lemma network_state_same l s : frames (on_network_state ops l) s (same_status l).
Proof.
  unfold on_network_state. eapply frames_bind; [apply frames_keep, of_registration|].
  intros [q ps] s1 _ _. destruct (ps =? 1).
  - apply frames_get. eapply frames_bind; [apply frames_keep; keeps|]. intros [] s2 _ _. by apply frames_ret.
  - eapply frames_bind; [apply frames_keep, keeps_clock|]. intros now s2 _ _. by apply frames_ret.
Qed.

Lemma call_list_same l s : frames (on_call_list l) s (same_status l).
Proof.
  unfold on_call_list. eapply frames_bind with (Ψ := same_status l).
  - destruct (_ || _); [|by apply frames_ret].
    eapply frames_bind; [apply frames_keep, keeps_clock|]. intros now s2 _ _. by apply frames_ret.
  - intros l' s1 _ Hl. eapply frames_bind; [apply frames_keep, keeps_signo|]. intros [] s2 _ _.
    by apply frames_ret.
Qed.

Lemma on_event_ok e l s :
  link_ok s → families_ok (cfg s) l → ends (on_event ops e l) s (goes_on s).
Proof.
  intros Hs Hl. unfold on_event. set (n := match e with Event n | Event_data n _ => n end).
  destruct (n =? _); [by apply goes_on_down|].
  destruct (n =? _).
  { apply goes_on_frames; [done|]. eapply frames_mono; [apply network_state_same|].
    intros l' E. by eapply same_families. }
  destruct (n =? _).
  { apply goes_on_frames; [done|]. eapply frames_mono; [apply call_list_same|].
    intros l' E. by eapply same_families. }
  destruct (n =? _).
  { apply goes_on_keep; [done|keeps|]. intros _ s1 Hs1 Hc1.
    apply goes_on_keep; [done|keeps|]. intros _ s2 Hs2 Hc2. by apply goes_on_ret. }
  destruct (n =? _); [|by apply goes_on_ret]. destruct e as [?|? data]; [by intros ? ?|].
  apply goes_on_keep; [done|unfold on_loopback; keeps|]. intros _ s1 Hs1 Hc1.
  rewrite <- Hc1 in Hl. by apply goes_on_ret.
Qed.

Lemma poll_fd_ok r input l s :
  link_ok s → (∀ s1, link_ok s1 → cfg s1 = cfg s → ends input s1 (goes_on s1)) →
  ends (poll_fd r input l) s (goes_on s).
Proof.
  intros Hs Hi. unfold poll_fd. apply goes_on_keep; [done|keeps|]. intros _ s1 Hs1 Hc1.
  destruct (rv_hup r); [by apply goes_on_ret|]. by apply Hi.
Qed.

Lemma signal_input_ok l s :
  link_ok s → families_ok (cfg s) l → ends (signal_input ops l) s (goes_on s).
Proof.
  intros Hs Hl. unfold signal_input. apply goes_on_keep; [done|unfold read_signal; keeps|].
  intros [n|] s1 Hs1 Hc1; rewrite <- Hc1 in Hl; [by apply on_signal_ok|by apply goes_on_ret].
Qed.

Lemma event_input_ok l s :
  link_ok s → families_ok (cfg s) l → ends (event_input ops l) s (goes_on s).
Proof.
  intros Hs Hl. unfold event_input. apply goes_on_keep; [done|unfold read_event; keeps|].
  intros [n|] s1 Hs1 Hc1; rewrite <- Hc1 in Hl; [by apply on_event_ok|by apply goes_on_ret].
Qed.

Lemma main_turn_ok l s :
  link_ok s → families_ok (cfg s) l → ends (main_turn ops l) s (goes_on s).
Proof.
  intros Hs Hl. unfold main_turn. apply goes_on_keep; [done|keeps|]. intros t s1 Hs1 Hc1.
  apply goes_on_keep; [done|keeps|]. intros _ s2 Hs2 Hc2.
  destruct (t_poll_failed t); [by apply goes_on_ret|].
  apply goes_on_get. rewrite <- Hc1, <- Hc2 in Hl. cbv zeta. destruct (negb _).
  { apply goes_on_keep; [done|keeps|]. intros _ s3 Hs3 Hc3. rewrite <- Hc3 in Hl. by apply goes_on_ret. }
  apply ends_bind. eapply ends_mono.
  { apply poll_fd_ok; [done|]. intros s3 Hs3 Hc3. rewrite <- Hc3 in Hl.
    destruct (negb _); [by apply signal_input_ok|by apply goes_on_ret]. }
  intros [l'|] s3 (Hc3 & Hs3 & Hl3); [|by apply ends_ret]. rewrite <- Hc3 in Hl3.
  eapply ends_mono.
  { apply poll_fd_ok; [done|]. intros s4 Hs4 Hc4. rewrite <- Hc4 in Hl3.
    destruct (negb _); [by apply event_input_ok|by apply goes_on_ret]. }
  intros r s4 (Hc4 & Hs4 & Hl4). unfold goes_on. by rewrite Hc4, <- Hc3.
Qed.

Lemma main_loop_ok turns l s :
  link_ok s → families_ok (cfg s) l → ends (main_loop ops turns l) s (goes_on s).
Proof.
  revert l s. induction turns as [|turns IH]; intros l s Hs Hl; simpl main_loop; [by apply goes_on_ret|].
  apply ends_bind. eapply ends_mono; [by apply main_turn_ok|].
  intros [l'|] s1 (Hc1 & Hs1 & Hl1); [|by apply ends_ret]. rewrite <- Hc1 in Hl1.
  eapply ends_mono; [by apply IH|]. intros r s2 (? & ? & ?). unfold goes_on. by rewrite <- Hc1.
Qed.
End Loop.

(** ** The whole of [qmi_main] *)

Section Whole.
Context `{Env} (ops : request_ops) `{!OpsFrame ops}.

Lemma keeps_sim_loop fuel get status :
  (∀ a, preserves frame (get a)) → preserves frame (sim_loop fuel get status).
Proof.
  intros Hg. revert status. induction fuel as [|fuel IH]; intros status; simpl sim_loop; keeps.
Qed.

Lemma keeps_prepare_sim fuel : preserves frame (prepare_sim ops fuel).
Proof.
  pose proof (of_sim (ops := ops)) as Hget. pose proof (of_pin (ops := ops)) as Hpin.
  pose proof (keeps_optional _ (of_iccid (ops := ops))). pose proof (keeps_optional _ (of_imsi (ops := ops))).
  unfold prepare_sim.
  destruct (ops_GetSIMStatus ops) as [get|], (ops_EnterSimPin ops) as [enter|]; simpl in Hget, Hpin;
    keeps; apply keeps_sim_loop, Hget.
Qed.

Lemma keeps_prepare_loopback : preserves frame (prepare_loopback ops).
Proof.
  pose proof (of_loopback (ops := ops)) as Hf. unfold prepare_loopback.
  destruct (ops_SetLoopBackState ops) as [f|]; simpl in Hf; keeps.
Qed.

Lemma keeps_prepare_profile : preserves frame (prepare_profile ops).
Proof.
  pose proof (keeps_optional _ (of_get_profile (ops := ops))).
  pose proof (keeps_optional _ (of_set_profile (ops := ops))).
  unfold prepare_profile. keeps.
Qed.

Lemma end_old_call_spec status s :
  connected status = false →
  frames (end_old_call ops status) s (λ v, connected v = true → enable_ipv4 (cfg s) = true).
Proof.
  intros Hs. unfold end_old_call. apply frames_get. destruct (enable_ipv4 (cfg s)); simpl.
  - eapply frames_mono; [apply frames_keep; keeps|done].
  - apply frames_ret. congruence.
Qed.

Lemma prepare_spec fuel now s :
  frames (prepare ops fuel (Locals 0 QWDS_PKT_DATA_UNKNOW QWDS_PKT_DATA_UNKNOW 0 now)) s
    (families_ok (cfg s)).
Proof.
  unfold prepare.
  eapply frames_bind; [apply frames_keep, keeps_optional, of_version|]. intros _ s1 F1 _.
  eapply frames_bind; [apply frames_keep, keeps_optional, of_eth_mode|]. intros _ s2 F2 _.
  eapply frames_bind; [apply frames_keep, keeps_prepare_loopback|]. intros _ s3 F3 _.
  eapply frames_bind; [apply frames_keep, keeps_prepare_sim|]. intros _ s4 F4 _.
  eapply frames_bind; [apply frames_keep, keeps_prepare_profile|]. intros _ s5 F5 _.
  eapply frames_bind; [apply frames_keep, of_registration|]. intros [q ps] s6 F6 _.
  assert (frame s s6) as F by (do 5 (etrans; [eassumption|]); done).
  eapply frames_bind; [by apply end_old_call_spec|]. intros v4 s7 F7 Hv4.
  eapply frames_bind; [apply frames_keep, keeps_signo|]. intros [] s8 _ _. apply frames_ret.
  rewrite (frame_cfg _ _ F) in Hv4. by split.
Qed.

(** The invariant from the start of the device thread on. *)
Lemma qmi_main_ok fuel turns opened s :
  link_ok s → s_link s ≤ 0 →
  ends (qmi_main ops fuel turns opened) s (λ r s',
    cfg s' = cfg s ∧ link_ok s' ∧ (r ≠ None → s_link s' ≤ 0)).
Proof.
  intros Hs Hl. unfold qmi_main. apply ends_keep; [apply keeps_clock|]. intros now s1 F1.
  apply ends_keep; [unfold QmiWwanThread_start; keeps|]. intros [] s2 F2.
  apply ends_keep; [unfold read_event; keeps|]. intros e s3 F3.
  assert (frame s s3) as F by (do 2 (etrans; [eassumption|]); done).
  assert (∀ s', frame s s' → ends (mret (Some 0)) s' (λ r s', cfg s' = cfg s ∧ link_ok s' ∧
    (r ≠ None → s_link s' ≤ 0))) as Hret.
  { intros s' F'. apply ends_ret. split_and!; [apply F'|by eapply frame_link_ok|].
    intros _. by rewrite (frame_link _ _ F'). }
  destruct e as [[n|]|]; [|by apply Hret..]. destruct (negb _); [by apply Hret|].
  apply ends_keep; [apply keeps_init|]. intros err s4 F4. destruct (negb _); [apply Hret; by etrans|].
  eapply ends_frame; [apply prepare_spec|]. intros l s5 F5 Hfam.
  assert (frame s s5) as F' by (do 2 (etrans; [eassumption|]); done).
  apply ends_bind. eapply ends_mono; [apply main_loop_ok; [done|by eapply frame_link_ok|]|].
  { by rewrite (frame_cfg _ _ F5). }
  intros [l'|] s6 (Hc6 & Hs6 & _); rewrite (frame_cfg _ _ F') in Hc6; [by apply ends_ret|].
  apply ends_bind. unfold main_quit. apply ends_bind.
  eapply ends_mono; [apply link_change_ok; [apply links_zero|done]|].
  intros [] s7 (Hs7 & E7 & Hc7). apply ends_keep; [keeps|]. intros t s8 F8.
  apply ends_keep; [keeps|]. intros _ s9 F9. apply ends_bind, ends_get.
  destruct (thread_running _); [by intros ? ?|]. apply ends_ret, ends_ret.
  assert (frame s7 s9) as F79 by by etrans.
  split_and!; [by rewrite (frame_cfg _ _ F79), Hc7|by eapply frame_link_ok|].
  intros _. rewrite (frame_link _ _ F79), E7. lia.
Qed.
End Whole.
