(* ===== verification/CmWire.v ===== *)
(** * The connection manager: messages on the wire

    What the message layer of [CmMsg] builds and takes apart, in terms of lists of
    TLVs: the search finds the first TLV of its type, on any message it comes to an
    end, and the request that starts a data call is the encoding of its TLVs,
    provided that they fit in the local buffer. *)

From S2P Require Import Prelude GobiQmi CmMsg.

#[local] Open Scope Z_scope.
#[local] Open Scope c_scope.

Import Qmi (tlv, Tlv, tlv_type, tlv_value, tlv_ok, encode_tlv, encode_tlvs, encode_tlvs_cons,
  length_encode_tlv).

Definition blen (b : list Z) : Z := Z.of_nat (length b).

(** ** The search on a list of TLVs *)

(** The place of the first TLV of a type, and its value. *)
Fixpoint find_at (type : Z) (ts : list tlv) (pos : Z) : option (Z * list Z) :=
  match ts with
  | [] => None
  | t :: ts =>
    if tlv_type t =? type then Some (pos, tlv_value t)
    else find_at type ts (pos + 3 + blen (tlv_value t))
  end.

Lemma encode_tlv_app t rest :
  encode_tlv t ++ rest =
  tlv_type t :: le_bytes 2 (blen (tlv_value t)) ++ tlv_value t ++ rest.
Proof. unfold encode_tlv, blen. rewrite <- app_comm_cons. by rewrite <- app_assoc. Qed.

Lemma get8_at pre x rest : get8 (pre ++ x :: rest) (blen pre) = Done x.
Proof.
  unfold get8. rewrite (get_bytes_app_mid pre [x] rest) by (simpl; unfold blen; lia).
  simpl. by rewrite Z.add_0_r.
Qed.

Lemma le16_val v : 0 ≤ v < 65536 → le_val (le_bytes 2 v) = v.
Proof. intros. rewrite le_val_le_bytes. by rewrite Z.mod_small by lia. Qed.

Lemma get_le16_at pre v rest :
  0 ≤ v < 65536 → get_le16 (pre ++ le_bytes 2 v ++ rest) (blen pre) = Done v.
Proof.
  intros Hv. unfold get_le16.
  rewrite (get_bytes_app_mid pre (le_bytes 2 v) rest) by (rewrite ?length_le_bytes; unfold blen; lia).
  rewrite outcome_bind_Done. by rewrite le16_val.
Qed.

Lemma get_le32_at pre v rest :
  0 ≤ v < 4294967296 → get_le32 (pre ++ le_bytes 4 v ++ rest) (blen pre) = Done v.
Proof.
  intros Hv. unfold get_le32.
  rewrite (get_bytes_app_mid pre (le_bytes 4 v) rest) by (rewrite ?length_le_bytes; unfold blen; lia).
  rewrite outcome_bind_Done, le_val_le_bytes. by rewrite Z.mod_small by lia.
Qed.

(** One turn of the search. *)
Lemma GetTLV_search_S fuel msg type Length pos n :
  GetTLV_search (S fuel) msg type Length pos n =
  if Length <? 3 then Done None else
  found ← (if 0x1000 <? type then Done (n + 1 + 0x1000 =? type)
           else t ← get8 msg pos; Done (t =? type));
  if found : bool then Done (Some pos) else
  TLVLength ← get_le16 msg (pos + 1);
  GetTLV_search fuel msg type (u16 (Length - (TLVLength + 3))) (pos + TLVLength + 3) (n + 1).
Proof. reflexivity. Qed.

Lemma GetTLV_search_spec ts type fuel pre tail n :
  Forall tlv_ok ts → type < 256 → blen (encode_tlvs ts) < 65536 → (length ts < fuel)%nat →
  GetTLV_search fuel (pre ++ encode_tlvs ts ++ tail) type (blen (encode_tlvs ts)) (blen pre) n =
  Done (fst <$> find_at type ts (blen pre)).
Proof.
  intros Hts Ht. revert fuel pre n.
  induction Hts as [|t ts (Htt & Hb & Hl) Hts IH]; intros fuel pre n Hlen Hf;
    (destruct fuel as [|fuel]; [simpl in Hf; lia|]); rewrite GetTLV_search_S; [done|].
  rewrite encode_tlvs_cons in *. unfold blen in Hlen at 1. rewrite length_app, length_encode_tlv in Hlen.
  rewrite (proj2 (Z.ltb_ge _ 3))
    by (unfold blen; rewrite length_app, length_encode_tlv; lia).
  rewrite (proj2 (Z.ltb_ge 0x1000 type)) by lia.
  rewrite <- app_assoc, encode_tlv_app, get8_at, !outcome_bind_Done. simpl find_at.
  destruct (tlv_type t =? type); [done|].
  assert (blen pre + 1 = blen (pre ++ [tlv_type t])) as -> by (unfold blen; rewrite length_app; simpl; lia).
  rewrite (cons_middle (tlv_type t) pre), app_assoc, get_le16_at by (unfold blen; lia).
  rewrite outcome_bind_Done.
  assert (∀ a, u16 a = a ↔ 0 ≤ a < 65536) as Hu.
  { intros a. split; [intros <-; apply u16_range|apply u16_small]. }
  assert (blen (encode_tlv t ++ encode_tlvs ts) - (blen (tlv_value t) + 3) = blen (encode_tlvs ts)) as ->.
  { unfold blen. rewrite length_app, length_encode_tlv. lia. }
  rewrite (proj2 (Hu (blen (encode_tlvs ts)))) by (unfold blen; lia).
  specialize (IH fuel (pre ++ encode_tlv t) (n + 1)).
  assert (blen (pre ++ encode_tlv t) = blen pre + blen (tlv_value t) + 3) as Hp.
  { unfold blen. rewrite length_app, length_encode_tlv. lia. }
  rewrite Hp, <- app_assoc, encode_tlv_app in IH. rewrite <- app_assoc. simpl app in *.
  rewrite IH by (unfold blen; simpl in Hf; lia).
  by replace (blen pre + 3 + blen (tlv_value t)) with (blen pre + blen (tlv_value t) + 3) by lia.
Qed.

(** What is found is where it says, with its length and value behind the type. *)
Lemma find_at_split type ts pre pos v :
  find_at type ts (blen pre) = Some (pos, v) →
  ∃ p1 p2, pre ++ encode_tlvs ts = p1 ++ type :: le_bytes 2 (blen v) ++ v ++ p2 ∧ blen p1 = pos.
Proof.
  revert pre. induction ts as [|t ts IH]; intros pre; simpl find_at; [done|].
  destruct (Z.eqb_spec (tlv_type t) type) as [<-|].
  - intros [= <- <-]. exists pre, (encode_tlvs ts). split; [|done].
    by rewrite encode_tlvs_cons, encode_tlv_app.
  - intros E. destruct (IH (pre ++ encode_tlv t)) as (p1 & p2 & Hp & Hl).
    + rewrite <- E. f_equal. unfold blen. rewrite length_app, length_encode_tlv. lia.
    + exists p1, p2. split; [|done]. by rewrite encode_tlvs_cons, <- Hp, <- app_assoc.
Qed.

(** A message: 13 bytes of headers, of which the last two are the length of the TLVs. *)
Definition with_header (h : list Z) (ts : list tlv) : list Z :=
  h ++ le_bytes 2 (blen (encode_tlvs ts)) ++ encode_tlvs ts.

Lemma GetTLV_spec h ts type :
  length h = 11%nat → Forall tlv_ok ts → type < 256 → blen (encode_tlvs ts) < 65536 →
  GetTLV (with_header h ts) type = Done (fst <$> find_at type ts OFF_TLV).
Proof.
  intros Hh Hts Ht Hl. unfold GetTLV, with_header.
  assert (OFF_MSG + 2 = blen h) as -> by (unfold blen; rewrite Hh; done).
  rewrite get_le16_at by (unfold blen in *; lia). rewrite outcome_bind_Done.
  assert (OFF_TLV = blen (h ++ le_bytes 2 (blen (encode_tlvs ts)))) as ->.
  { unfold blen. by rewrite length_app, length_le_bytes, Hh. }
  rewrite app_assoc.
  pose proof (GetTLV_search_spec ts type (S (length ((h ++ le_bytes 2 (blen (encode_tlvs ts))) ++ encode_tlvs ts)))
    (h ++ le_bytes 2 (blen (encode_tlvs ts))) [] 0 Hts Ht Hl) as Hs.
  rewrite app_nil_r in Hs. apply Hs. clear Hs.
  assert (length ts ≤ length (encode_tlvs ts))%nat.
  { clear. induction ts as [|t ts IH]; [simpl; lia|]. rewrite encode_tlvs_cons, length_app, length_encode_tlv.
    simpl. lia. }
  rewrite !length_app. lia.
Qed.

(** Reading the value of what is found. *)
Lemma get_value_bytes h ts type pos v n :
  length h = 11%nat → find_at type ts OFF_TLV = Some (pos, v) → 0 ≤ n ≤ blen v →
  get_bytes (with_header h ts) (pos + 3) n = Done (take (Z.to_nat n) v).
Proof.
  intros Hh Hf Hn. unfold with_header. rewrite app_assoc.
  set (pre := h ++ le_bytes 2 (blen (encode_tlvs ts))) in *.
  assert (OFF_TLV = blen pre) as E by (unfold pre, blen; by rewrite length_app, length_le_bytes, Hh).
  rewrite E in Hf. apply find_at_split in Hf as (p1 & p2 & -> & <-).
  assert (p1 ++ type :: le_bytes 2 (blen v) ++ v ++ p2 =
    (p1 ++ type :: le_bytes 2 (blen v)) ++ take (Z.to_nat n) v ++ (drop (Z.to_nat n) v ++ p2)) as ->.
  { by rewrite (app_assoc (take _ _)), take_drop, <- app_assoc. }
  unfold blen in *. rewrite (get_bytes_app_mid _ (take (Z.to_nat n) v)); [done| |].
  - rewrite length_app. simpl. lia.
  - rewrite length_take. lia.
Qed.

Lemma get_value_length h ts type pos v :
  length h = 11%nat → Forall tlv_ok ts → find_at type ts OFF_TLV = Some (pos, v) →
  get_le16 (with_header h ts) (pos + 1) = Done (blen v).
Proof.
  intros Hh Hts Hf. assert (blen v < 65536) as Hv.
  { clear Hh h. revert Hf. generalize OFF_TLV. induction Hts as [|t ts (_ & _ & Hl) _ IH]; intros p; simpl; [done|].
    destruct (_ =? _); [by intros [= _ <-]|apply IH]. }
  unfold with_header. rewrite app_assoc.
  set (pre := h ++ le_bytes 2 (blen (encode_tlvs ts))) in *.
  assert (OFF_TLV = blen pre) as E by (unfold pre, blen; by rewrite length_app, length_le_bytes, Hh).
  rewrite E in Hf. apply find_at_split in Hf as (p1 & p2 & -> & <-).
  rewrite (cons_middle type p1), app_assoc.
  assert (blen p1 + 1 = blen (p1 ++ [type])) as -> by (unfold blen; rewrite length_app; simpl; lia).
  apply get_le16_at. unfold blen in *. lia.
Qed.

(** ** The search on any message *)

Lemma get_le16_Done b off v :
  bytes_ok b → get_le16 b off = Done v → 0 ≤ off ∧ off + 2 ≤ blen b ∧ 0 ≤ v < 65536.
Proof.
  intros Hb. unfold get_le16, get_bytes. destruct (in_range b off 2) eqn:E; [|done].
  apply in_range_true in E as (? & ?). rewrite outcome_bind_Done. change (Z.to_nat 2) with 2%nat. intros [= <-].
  split_and!; [done|done| |]; pose proof (le_val_range (take 2 (drop (Z.to_nat off) b))
    (bytes_ok_take _ _ (bytes_ok_drop _ _ Hb))) as Hr; [lia|].
  eapply Z.lt_le_trans; [apply Hr|]. change 65536 with (2 ^ 16). apply Z.pow_le_mono_r; [lia|].
  rewrite length_take. lia.
Qed.

Lemma GetTLV_search_ends fuel msg type Length pos n :
  bytes_ok msg → 0 ≤ pos → (0 < fuel)%nat → blen msg - pos < Z.of_nat fuel →
  GetTLV_search fuel msg type Length pos n ≠ OutOfFuel.
Proof.
  intros Hb. revert Length pos n. induction fuel as [|fuel IH]; intros Length pos n Hp H0 Hf; [lia|].
  rewrite GetTLV_search_S. destruct (Length <? 3); [done|].
  assert (∀ o : outcome bool, o ≠ OutOfFuel →
    (found ← o; if found : bool then Done (Some pos) else
     TLVLength ← get_le16 msg (pos + 1);
     GetTLV_search fuel msg type (u16 (Length - (TLVLength + 3))) (pos + TLVLength + 3) (n + 1)) ≠ OutOfFuel)
    as Hk.
  { intros [[]| |] Ho; [done| |done|done]. rewrite outcome_bind_Done.
    destruct (get_le16 msg (pos + 1)) as [l| |] eqn:E.
    - apply get_le16_Done in E as (? & ? & ?); [|done]. rewrite outcome_bind_Done. apply IH; lia.
    - done.
    - unfold get_le16, get_bytes in E. by destruct (in_range _ _ _). }
  apply Hk. destruct (0x1000 <? type); [done|]. unfold get8, get_bytes. by destruct (in_range _ _ _).
Qed.

(** ** Composing a request

    The buffer is the part that is written and a rest whose bytes do not matter.  A
    step appends TLVs to the part that is written; a string also writes its
    terminator behind them. *)
Record step := Step {
  act : list Z → Z → outcome (list Z * Z);
  step_tlvs : list tlv;
  step_nul : Z
}.

Definition step_size (s : step) : Z := blen (encode_tlvs (step_tlvs s)).

Definition buffer (p rest : list Z) : Prop := length (p ++ rest) = 256%nat.

Record step_ok (s : step) : Prop := StepOk {
  step_fits p rest : buffer p rest → blen p + step_size s + step_nul s ≤ 256 →
    ∃ rest', act s (p ++ rest) (blen p) =
      Done ((p ++ encode_tlvs (step_tlvs s)) ++ rest', blen p + step_size s) ∧
      buffer (p ++ encode_tlvs (step_tlvs s)) rest';
  step_oob p rest : buffer p rest → 256 < blen p + step_size s + step_nul s →
    act s (p ++ rest) (blen p) = OutOfBounds;
  step_sizes : 0 ≤ step_nul s
}.

Fixpoint run_steps {A} (l : list step) (b : list Z) (p : Z) (k : list Z → Z → outcome A) : outcome A :=
  match l with
  | [] => k b p
  | s :: l => '(b, p) ← act s b p; run_steps l b p k
  end.

Definition tlvs_of (l : list step) : list tlv := l ≫= step_tlvs.

(** Every terminator has a TLV behind it that is written later. *)
Fixpoint nul_ok (l : list step) : Prop :=
  match l with
  | [] => True
  | s :: l => step_nul s ≤ blen (encode_tlvs (tlvs_of l)) ∧ nul_ok l
  end.

Lemma encode_tlvs_app ts1 ts2 : encode_tlvs (ts1 ++ ts2) = encode_tlvs ts1 ++ encode_tlvs ts2.
Proof.
  induction ts1 as [|t ts1 IH]; [done|]. by rewrite <- app_comm_cons, !encode_tlvs_cons, IH, app_assoc.
Qed.

Lemma blen_app b1 b2 : blen (b1 ++ b2) = blen b1 + blen b2.
Proof. unfold blen. rewrite length_app. lia. Qed.

Lemma blen_nonneg b : 0 ≤ blen b.
Proof. unfold blen. lia. Qed.

Lemma run_steps_fits {A} l p rest (k : list Z → Z → outcome A) :
  Forall step_ok l → nul_ok l → buffer p rest → blen p + blen (encode_tlvs (tlvs_of l)) ≤ 256 →
  ∃ rest', run_steps l (p ++ rest) (blen p) k =
    k ((p ++ encode_tlvs (tlvs_of l)) ++ rest') (blen p + blen (encode_tlvs (tlvs_of l))) ∧
    buffer (p ++ encode_tlvs (tlvs_of l)) rest'.
Proof.
  intros Hl. revert p rest. induction Hl as [|s l Hs Hl IH]; intros p rest; simpl nul_ok; intros Hn Hb Hf.
  { exists rest. simpl. change (encode_tlvs []) with (@nil Z). by rewrite app_nil_r, Z.add_0_r. }
  destruct Hn as [Hn1 Hn2]. simpl tlvs_of in *. change (tlvs_of (s :: l)) with (step_tlvs s ++ tlvs_of l) in *.
  rewrite encode_tlvs_app, blen_app in *.
  destruct (step_fits s Hs p rest Hb) as (r1 & E & Hb1); [unfold step_size; lia|].
  simpl run_steps. rewrite E, outcome_bind_Done. unfold step_size in *. rewrite <- blen_app.
  destruct (IH (p ++ encode_tlvs (step_tlvs s)) r1) as (r2 & E2 & Hb2); [done|done|rewrite blen_app; lia|].
  exists r2. rewrite E2, !blen_app, !Z.add_assoc, <- !(app_assoc p). split; [done|].
  by rewrite <- (app_assoc p) in Hb2.
Qed.

Lemma run_steps_oob {A} l p rest (k : list Z → Z → outcome A) :
  Forall step_ok l → buffer p rest → blen p + blen (encode_tlvs (tlvs_of l)) > 256 →
  run_steps l (p ++ rest) (blen p) k = OutOfBounds.
Proof.
  intros Hl. revert p rest. induction Hl as [|s l Hs Hl IH]; intros p rest Hb Hf.
  { simpl in Hf. change (blen (encode_tlvs [])) with 0 in Hf. unfold buffer in Hb.
    apply (f_equal Z.of_nat) in Hb. change (Z.of_nat (length (p ++ rest))) with (blen (p ++ rest)) in Hb.
    rewrite blen_app in Hb. pose proof (blen_nonneg rest). lia. }
  change (tlvs_of (s :: l)) with (step_tlvs s ++ tlvs_of l) in *.
  rewrite encode_tlvs_app, blen_app in Hf. simpl run_steps.
  destruct (Z.ltb_spec 256 (blen p + step_size s + step_nul s)) as [H1|H1].
  { by rewrite (step_oob s Hs p rest Hb H1). }
  destruct (step_fits s Hs p rest Hb H1) as (r1 & E & Hb1). rewrite E, outcome_bind_Done.
  unfold step_size. rewrite <- blen_app. apply IH; [done|]. rewrite blen_app. lia.
Qed.

(** *** The steps *)

Lemma put_at_end p rest bs :
  buffer p rest → blen p + blen bs ≤ 256 →
  put_bytes (p ++ rest) (blen p) bs = Done ((p ++ bs) ++ drop (length bs) rest) ∧
  buffer (p ++ bs) (drop (length bs) rest).
Proof.
  unfold buffer, blen. rewrite length_app. intros Hb Hf. split.
  - rewrite put_bytes_Done by (rewrite ?length_app; lia). rewrite Nat2Z.id, take_app_length, <- app_assoc.
    by rewrite drop_app_add.
  - rewrite !length_app, length_drop. lia.
Qed.

Lemma put_at_end_oob p rest bs :
  buffer p rest → 256 < blen p + blen bs → put_bytes (p ++ rest) (blen p) bs = OutOfBounds.
Proof. unfold buffer, blen. intros Hb Hf. apply put_bytes_oob. lia. Qed.

(** Writes that follow each other, as one. *)
Lemma put_bytes_join {A} b off bs1 bs2 (k : list Z → outcome A) :
  0 ≤ off → (b1 ← put_bytes b off bs1; b2 ← put_bytes b1 (off + blen bs1) bs2; k b2) =
            (b2 ← put_bytes b off (bs1 ++ bs2); k b2).
Proof.
  intros Ho. destruct (Z.leb_spec (off + blen bs1 + blen bs2) (blen b)) as [Hl|Hl]; unfold blen in *.
  { by apply put_bytes_bind_app. }
  rewrite (put_bytes_oob b off (bs1 ++ bs2)) by (rewrite length_app; lia).
  apply put_bytes_bind_oob. intros b' Hb'. by rewrite put_bytes_oob by lia.
Qed.

Lemma put8_at_eq type v b off : 0 ≤ off → 0 ≤ type < 256 → 0 ≤ v < 256 →
  put8_at type v b off =
  (b ← put_bytes b off (encode_tlv (Tlv type [v])); Done (b, off + 4)).
Proof.
  intros Ho Ht Hv. unfold put8_at, put_tlv8, put8, put_le16. rewrite !outcome_bind_assoc.
  change (off + 1) with (off + blen (le_bytes 1 type)).
  assert (off + 3 = off + blen (le_bytes 1 type ++ le_bytes 2 1)) as -> by done.
  transitivity (b0 ← put_bytes b off (le_bytes 1 type ++ le_bytes 2 1);
    b1 ← put_bytes b0 (off + blen (le_bytes 1 type ++ le_bytes 2 1)) (le_bytes 1 v);
    Done (b1, off + blen (le_bytes 1 type) + 3)).
  { rewrite <- put_bytes_join by done. destruct (put_bytes b off _); simpl; [|done|done].
    by rewrite outcome_bind_assoc. }
  rewrite put_bytes_join by done. unfold encode_tlv. simpl.
  rewrite !Z.mod_small by done. by rewrite <- Z.add_assoc.
Qed.

Definition byte_step (type v : Z) : step := Step (put8_at type v) [Tlv type [v]] 0.

Lemma encode_one t : encode_tlvs [t] = encode_tlv t.
Proof. rewrite encode_tlvs_cons. apply app_nil_r. Qed.

Lemma byte_step_ok type v : 0 ≤ type < 256 → 0 ≤ v < 256 → step_ok (byte_step type v).
Proof.
  intros Ht Hv. split; [| |done]; simpl; unfold step_size; simpl step_tlvs; rewrite encode_one; intros p rest Hb Hf;
    rewrite put8_at_eq by (done || apply blen_nonneg).
  - destruct (put_at_end p rest (encode_tlv (Tlv type [v])) Hb) as [-> Hb']; [lia|].
    eexists. by rewrite outcome_bind_Done.
  - rewrite put_at_end_oob; [done..|lia].
Qed.

(** The terminator is behind the TLV, in the rest. *)
Definition string_step (type : Z) (s : list Z) : step := Step (put_string_at type s) [Tlv type s] 1.

Lemma put_string_at_eq type s b off : 0 ≤ off → 0 ≤ type < 256 →
  put_string_at type s b off =
  (b ← put_bytes b off (encode_tlv (Tlv type s) ++ [0]); Done (b, off + u16 (blen s) + 3)).
Proof.
  intros Ho Ht. unfold put_string_at, put_tlv_string, put8, put_le16, qstrcpy, strlen. fold (blen s).
  change (off + 1) with (off + blen (le_bytes 1 type)).
  assert (off + 3 = off + blen (le_bytes 1 type ++ le_bytes 2 (blen s))) as ->.
  { unfold blen at 1. by rewrite length_app, !length_le_bytes. }
  rewrite put_bytes_join by done.
  assert (off + blen (le_bytes 1 type ++ le_bytes 2 (blen s)) = off + 3) as E.
  { unfold blen at 1. by rewrite length_app, !length_le_bytes. }
  rewrite put_bytes_join by done. unfold encode_tlv. simpl.
  rewrite (Z.mod_small type) by done. done.
Qed.

Lemma string_step_ok type s : 0 ≤ type < 256 → step_ok (string_step type s).
Proof.
  intros Ht.
  assert (∀ x : Z, blen (encode_tlv (Tlv type s) ++ [x]) = blen (encode_tlv (Tlv type s)) + 1) as Hlen
    by (intros; rewrite blen_app; done).
  assert (blen (encode_tlv (Tlv type s)) = blen s + 3) as Hs by (unfold blen; rewrite length_encode_tlv; simpl; lia).
  split; [| |done]; simpl; unfold step_size; simpl step_tlvs; rewrite encode_one; intros p rest Hb Hf;
    rewrite put_string_at_eq by (done || apply blen_nonneg).
  - destruct (put_at_end p rest (encode_tlv (Tlv type s) ++ [0]) Hb) as [-> Hb']; [rewrite Hlen; lia|].
    rewrite outcome_bind_Done. exists (0 :: drop (length (encode_tlv (Tlv type s) ++ [0])) rest).
    unfold buffer in *. rewrite (app_assoc p), <- (app_assoc _ [0]) in *. split; [|exact Hb'].
    pose proof (blen_nonneg s). pose proof (blen_nonneg p).
    rewrite u16_small by lia. do 2 f_equal. lia.
  - rewrite put_at_end_oob; [done..|rewrite Hlen; lia].
Qed.

(** A step that is not taken. *)
Definition skip_step : step := Step (λ b p, Done (b, p)) [] 0.

Lemma skip_step_ok : step_ok skip_step.
Proof.
  split; [| |done]; simpl; unfold step_size; simpl step_tlvs; change (encode_tlvs []) with (@nil Z);
    change (blen []) with 0; intros p rest Hb Hf.
  - exists rest. by rewrite app_nil_r, Z.add_0_r.
  - apply (f_equal Z.of_nat) in Hb. change (Z.of_nat (length (p ++ rest))) with (blen (p ++ rest)) in Hb.
    rewrite blen_app in Hb. pose proof (blen_nonneg rest). lia.
Qed.

Definition opt_step {A} (o : option A) (f : A → step) : step :=
  match o with Some x => f x | None => skip_step end.

(** ** The request that starts a data call *)

Definition start_steps (is_cdma : bool) (profile : credentials) (curIpFamily profile_index : Z) : list step :=
  let c := start_credentials is_cdma profile in
  [byte_step 0x30 (if is_cdma then 0x02 else 0x01);
   opt_step (if is_cdma then None else apn c) (string_step 0x14);
   opt_step (user c) (string_step 0x17);
   opt_step (password c) (string_step 0x18);
   opt_step (match user c, password c with Some _, Some _ => Some (auth c) | _, _ => None end) (byte_step 0x16);
   byte_step 0x19 curIpFamily;
   opt_step (if negb (profile_index =? 0) && negb is_cdma then Some profile_index else None) (byte_step 0x31)].

(** The TLVs of the request. *)
Definition start_tlvs (is_cdma : bool) (profile : credentials) (curIpFamily profile_index : Z) : list tlv :=
  tlvs_of (start_steps is_cdma profile curIpFamily profile_index).

(** The numbers are bytes; the strings have any length. *)
Definition start_args (profile : credentials) (curIpFamily profile_index : Z) : Prop :=
  0 ≤ auth profile < 256 ∧ 0 ≤ curIpFamily < 256 ∧ 0 ≤ profile_index < 256.

Definition request_header (QMIType MsgType TransactionId : Z) : list Z :=
  [0x01; 0; 0; 0x00] ++ le_bytes 1 QMIType ++ [0; 0x00] ++ le_bytes 2 TransactionId ++ le_bytes 2 MsgType.

(** A finished message: the length of all but the first byte in front. *)
Definition finished_header (QMIType MsgType TransactionId len : Z) : list Z :=
  [0x01] ++ le_bytes 2 (len + 12) ++ [0x00] ++ le_bytes 1 QMIType ++ [0; 0x00] ++
  le_bytes 2 TransactionId ++ le_bytes 2 MsgType.

Lemma start_auth is_cdma c : 0 ≤ auth c < 256 → 0 ≤ auth (start_credentials is_cdma c) < 256.
Proof. unfold start_credentials. destruct (_ && _); simpl; lia. Qed.

Lemma start_steps_ok is_cdma c family index :
  start_args c family index → Forall step_ok (start_steps is_cdma c family index).
Proof.
  intros (Ha & Hf & Hi). pose proof (start_auth is_cdma c Ha).
  unfold start_steps. repeat constructor; try (apply byte_step_ok; [lia|destruct is_cdma; lia]);
    unfold opt_step; repeat case_match; try apply skip_step_ok; try (apply string_step_ok; lia);
    simplify_eq; apply byte_step_ok; lia.
Qed.

Lemma start_nul_ok is_cdma c family index : nul_ok (start_steps is_cdma c family index).
Proof.
  unfold start_steps, tlvs_of.
  destruct (if is_cdma then None else apn _), (user (start_credentials is_cdma c)),
    (password (start_credentials is_cdma c)), (if _ && negb is_cdma then _ else _); simpl opt_step;
    simpl nul_ok; cbn [mbind list_bind byte_step string_step skip_step step_tlvs step_nul opt_step app];
    rewrite ?encode_tlvs_cons, ?blen_app; unfold blen; rewrite ?length_encode_tlv; simpl length;
    split_and!; try lia; done.
Qed.

(** The header part of the composition. *)
Lemma compose_header QMIType MsgType tid f :
  ComposeQMUXMsg_buf QMIType MsgType tid (Some f) =
  (b ← ('(b, n) ← f (request_header QMIType MsgType tid ++ replicate 245 0);
         put_le16 b (OFF_MSG + 2) (n - SIZEOF_QCQMUX_MSG_HDR));
   len ← get_le16 b (OFF_MSG + 2);
   b ← put_le16 b 1 (len + SIZEOF_QCQMUX_MSG_HDR + SIZEOF_QCQMUX_HDR + SIZEOF_QCQMI_HDR - 1);
   Length ← get_le16 b 1;
   get_bytes b 0 (Length + 1)).
Proof.
  unfold ComposeQMUXMsg_buf, request_header, put8, put_le16. simpl le_bytes.
  generalize (QMIType mod 256), (MsgType mod 256), ((MsgType / 256) mod 256), (tid mod 256), ((tid / 256) mod 256).
  intros. reflexivity.
Qed.

Lemma put_le16_in p q x y rest v :
  put_le16 (p ++ x :: y :: q ++ rest) (blen p) v = Done (p ++ le_bytes 2 v ++ q ++ rest).
Proof.
  unfold put_le16. rewrite put_bytes_Done.
  - unfold blen. rewrite Nat2Z.id, take_app_length, length_le_bytes. f_equal. f_equal. f_equal.
    rewrite drop_app_add. done.
  - apply blen_nonneg.
  - unfold blen. rewrite length_app. simpl. lia.
Qed.

(** The lengths are filled in and the message is copied. *)
Lemma finish_message QMIType MsgType tid T rest :
  buffer (request_header QMIType MsgType tid ++ [0; 0] ++ T) rest →
  (b ← put_le16 ((request_header QMIType MsgType tid ++ [0; 0] ++ T) ++ rest) (OFF_MSG + 2)
         (u16 (4 + blen T) - SIZEOF_QCQMUX_MSG_HDR);
   len ← get_le16 b (OFF_MSG + 2);
   b ← put_le16 b 1 (len + SIZEOF_QCQMUX_MSG_HDR + SIZEOF_QCQMUX_HDR + SIZEOF_QCQMI_HDR - 1);
   Length ← get_le16 b 1;
   get_bytes b 0 (Length + 1)) =
  Done (finished_header QMIType MsgType tid (blen T) ++ le_bytes 2 (blen T) ++ T).
Proof.
  intros Hb. set (h := request_header QMIType MsgType tid) in *.
  assert (blen T ≤ 243) as HT.
  { unfold buffer in Hb. rewrite !length_app in Hb. simpl in Hb. unfold blen. lia. }
  pose proof (blen_nonneg T). rewrite u16_small by lia.
  replace (4 + blen T - SIZEOF_QCQMUX_MSG_HDR) with (blen T) by (unfold SIZEOF_QCQMUX_MSG_HDR; lia).
  change (OFF_MSG + 2) with (blen h). rewrite <- (app_assoc h).
  change (([0; 0] ++ T) ++ rest) with (0 :: 0 :: T ++ rest).
  rewrite put_le16_in, outcome_bind_Done, get_le16_at, outcome_bind_Done by lia.
  change (blen T + SIZEOF_QCQMUX_MSG_HDR + SIZEOF_QCQMUX_HDR + SIZEOF_QCQMI_HDR - 1) with (blen T + 4 + 3 + 6 - 1).
  replace (blen T + 4 + 3 + 6 - 1) with (blen T + 12) by lia.
  pose (h' := [0x00] ++ le_bytes 1 QMIType ++ [0; 0x00] ++ le_bytes 2 tid ++ le_bytes 2 MsgType).
  change (h ++ le_bytes 2 (blen T) ++ T ++ rest) with
    ([0x01] ++ 0 :: 0 :: h' ++ (le_bytes 2 (blen T) ++ T ++ rest)).
  rewrite (put_le16_in [0x01] h'), outcome_bind_Done.
  rewrite (get_le16_at [0x01]), outcome_bind_Done by lia.
  rewrite (app_assoc (le_bytes 2 (blen T)) T), (app_assoc h'), (app_assoc (le_bytes 2 (blen T + 12))), app_assoc.
  rewrite get_bytes_app_front.
  - unfold finished_header, h'. by rewrite <- !app_assoc.
  - rewrite !length_app. unfold h'. simpl length. unfold blen. lia.
Qed.

(** The request is the encoding of its TLVs when they fit in the buffer, and writes
    behind the buffer when they do not. *)
Lemma start_request is_cdma c family index QMIType tid :
  start_args c family index →
  ComposeQMUXMsg_buf QMIType 0x20 tid (Some (WdsStartNwInterfaceReq is_cdma c family index)) =
  let T := encode_tlvs (start_tlvs is_cdma c family index) in
  if 13 + blen T <=? WDM_DEFAULT_BUFSIZE
  then Done (finished_header QMIType 0x20 tid (blen T) ++ le_bytes 2 (blen T) ++ T) else OutOfBounds.
Proof.
  intros Hargs. cbv zeta. set (T := encode_tlvs _). rewrite compose_header.
  set (h := request_header QMIType 0x20 tid).
  set (l := start_steps is_cdma c family index) in *.
  assert (WdsStartNwInterfaceReq is_cdma c family index (h ++ replicate 245 0) =
    run_steps l ((h ++ [0; 0]) ++ replicate 243 0) (blen (h ++ [0; 0]))
      (λ b p, sized (u16 (SIZEOF_QCQMUX_MSG_HDR + (p - OFF_TLV))) b)) as ->.
  { unfold WdsStartNwInterfaceReq, l, start_steps.
    assert (put_le16 (h ++ replicate 245 0) (OFF_MSG + 2) 0 = Done ((h ++ [0; 0]) ++ replicate 243 0)) as ->.
    { change (h ++ replicate 245 0) with (h ++ 0 :: 0 :: [] ++ replicate 243 0).
      change (OFF_MSG + 2) with (blen h). rewrite put_le16_in. by rewrite <- app_assoc. }
    rewrite outcome_bind_Done. change OFF_TLV with (blen (h ++ [0; 0])).
    by destruct (if is_cdma then None else apn _), (user (start_credentials is_cdma c)),
      (password (start_credentials is_cdma c)), (if _ && negb is_cdma then _ else _). }
  assert (buffer (h ++ [0; 0]) (replicate 243 0)) as Hb by done.
  destruct (Z.leb_spec (13 + blen T) WDM_DEFAULT_BUFSIZE) as [Hf|Hf]; unfold WDM_DEFAULT_BUFSIZE in *.
  - destruct (run_steps_fits l (h ++ [0; 0]) (replicate 243 0)
      (λ b p, sized (u16 (SIZEOF_QCQMUX_MSG_HDR + (p - OFF_TLV))) b)) as (rest & -> & Hb');
      [by apply start_steps_ok|apply start_nul_ok|done|by change (blen (h ++ [0; 0])) with 13|].
    unfold sized. rewrite outcome_bind_Done. change (encode_tlvs (tlvs_of l)) with T in *.
    change (blen (h ++ [0; 0])) with 13. change OFF_TLV with 13. change SIZEOF_QCQMUX_MSG_HDR with 4.
    replace (13 + blen T - 13) with (blen T) by lia.
    rewrite <- (app_assoc h) in *. by apply finish_message.
  - rewrite run_steps_oob; [done|by apply start_steps_ok|done|].
    change (blen (h ++ [0; 0])) with 13. change (encode_tlvs (tlvs_of l)) with T. lia.
Qed.

(** ** Reading the values back *)

(** The value of a TLV, as the code reads it: the search, the length, the bytes. *)
Definition read_tlv (m : list Z) (type : Z) : outcome (option (list Z)) :=
  tlv ← GetTLV m type;
  match tlv with
  | None => Done None
  | Some pos => n ← get_le16 m (pos + 1); v ← get_bytes m (pos + 3) n; Done (Some v)
  end.

(** The value of the first TLV of a type. *)
Fixpoint value_of (type : Z) (ts : list tlv) : option (list Z) :=
  match ts with
  | [] => None
  | t :: ts => if tlv_type t =? type then Some (tlv_value t) else value_of type ts
  end.

Lemma find_at_value type ts pos : snd <$> find_at type ts pos = value_of type ts.
Proof. revert pos. induction ts as [|t ts IH]; intros pos; simpl; [done|]. by destruct (_ =? _). Qed.

Lemma read_tlv_spec h ts type :
  length h = 11%nat → Forall tlv_ok ts → type < 256 → blen (encode_tlvs ts) < 65536 →
  read_tlv (with_header h ts) type = Done (value_of type ts).
Proof.
  intros Hh Hts Ht Hl. unfold read_tlv. rewrite GetTLV_spec by done. rewrite outcome_bind_Done.
  rewrite <- (find_at_value type ts OFF_TLV). destruct (find_at type ts OFF_TLV) as [[pos v]|] eqn:E; [|done].
  simpl. rewrite (get_value_length _ _ _ _ _ Hh Hts E), outcome_bind_Done.
  rewrite (get_value_bytes _ _ _ _ _ (blen v) Hh E) by (pose proof (blen_nonneg v); lia).
  unfold blen. by rewrite Nat2Z.id, take_ge.
Qed.

Lemma value_of_cons type t ts :
  value_of type (t :: ts) = if tlv_type t =? type then Some (tlv_value t) else value_of type ts.
Proof. done. Qed.

(** The strings of the credentials are bytes. *)
Definition strings_ok (c : credentials) : Prop :=
  Forall bytes_ok (option_list (apn c) ++ option_list (user c) ++ option_list (password c)).

Lemma start_strings is_cdma c : strings_ok c → strings_ok (start_credentials is_cdma c).
Proof.
  unfold start_credentials. destruct (_ && _); [|done]. unfold strings_ok. rewrite !Forall_app.
  intros [Ha _]. split; [done|]. split; constructor; [|done| |done]; repeat constructor; lia.
Qed.

(** A TLV's value is no longer than the list it is in. *)
Lemma tlv_value_le t ts : t ∈ ts → blen (tlv_value t) ≤ blen (encode_tlvs ts).
Proof.
  induction ts as [|t' ts IH]; [by intros ?%not_elem_of_nil|].
  rewrite encode_tlvs_cons, blen_app. intros [->|H]%elem_of_cons.
  - pose proof (blen_nonneg (encode_tlvs ts)). unfold blen in *. rewrite length_encode_tlv. lia.
  - pose proof (blen_nonneg (encode_tlv t')). specialize (IH H). lia.
Qed.

Lemma start_tlvs_ok is_cdma c family index :
  start_args c family index → strings_ok c → blen (encode_tlvs (start_tlvs is_cdma c family index)) < 65536 →
  Forall tlv_ok (start_tlvs is_cdma c family index).
Proof.
  intros (Ha & Hf & Hi) Hs%(start_strings is_cdma) Hl. pose proof (start_auth is_cdma c Ha) as Hau.
  assert (Forall (λ t, 0 ≤ tlv_type t < 256 ∧ bytes_ok (tlv_value t)) (start_tlvs is_cdma c family index)) as Hw.
  { unfold strings_ok in Hs. rewrite !Forall_app in Hs. destruct Hs as (H1 & H2 & H3).
    unfold start_tlvs, tlvs_of, start_steps.
    destruct is_cdma, (apn _), (user _), (password _), (index =? 0); simpl in *; simpl mbind;
      repeat (apply Forall_cons; split; [split; [simpl; lia|simpl]|]); try done;
      first [lia | by eapply Forall_inv]. }
  rewrite Forall_forall in Hw |- *. intros t Ht. destruct (Hw t Ht). split_and!; try done; try lia.
  apply tlv_value_le in Ht. unfold blen in *. lia.
Qed.
