(* ===== verification/CmTyped.v ===== *)
(** * The connection manager: the requests are messages

    Every request that the manager composes is a well-formed message: its elements
    are bytes, and the length in its header is its own. *)

From S2P Require Import Prelude CmMsg CmReq CmWire.

#[local] Open Scope Z_scope.
#[local] Open Scope c_scope.

(** Partial correctness of the code on buffers. *)
Definition good {A} (o : outcome A) (Q : A → Prop) : Prop := ∀ a, o = Done a → Q a.

Lemma good_Done {A} (a : A) (Q : A → Prop) : Q a → good (Done a) Q.
Proof. by intros ? ? [= <-]. Qed.

Lemma good_bind {A B} (o : outcome A) (f : A → outcome B) (Q : B → Prop) :
  good o (λ a, good (f a) Q) → good (o ≫= f) Q.
Proof. intros Ho b E. apply outcome_bind_inv in E as (a & E & Eb). by apply (Ho a). Qed.

(** The local buffer. *)
Definition local_buf (b : list Z) : Prop := bytes_ok b ∧ length b = 256%nat.

Lemma good_put b off bs (Q : list Z → Prop) :
  local_buf b → bytes_ok bs →
  (∀ b', local_buf b' → 0 ≤ off → off + blen bs ≤ 256 → Q b') → good (put_bytes b off bs) Q.
Proof.
  intros [Hb Hl] Hbs HQ b' E. assert (length b' = length b) as Hl' by by eapply put_bytes_length.
  unfold put_bytes in E. destruct (in_range _ _ _) eqn:Er; [|done]. apply in_range_true in Er as [H0 H1].
  apply HQ; [|done|unfold blen; lia]. split; [|lia]. injection E as <-. unfold bytes_ok in *.
  apply Forall_app. split; [by apply Forall_take|]. apply Forall_app. split; [done|by apply Forall_drop].
Qed.

Lemma good_put_le n b off v (Q : list Z → Prop) :
  local_buf b → (∀ b', local_buf b' → 0 ≤ off → off + Z.of_nat n ≤ 256 → Q b') →
  good (put_bytes b off (le_bytes n v)) Q.
Proof.
  intros Hb HQ. apply good_put; [done|apply le_bytes_ok|]. intros b' Hb' H0 H1. apply HQ; try done.
  unfold blen in H1. by rewrite length_le_bytes in H1.
Qed.

Create HintDb fills.

(** The writes of a builder, one by one. *)
Ltac fill_step :=
  match goal with
  | |- good (Done _) _ => apply good_Done
  | |- good (_ ≫= _) _ => apply good_bind
  | |- good (put_bytes _ _ (le_bytes _ _)) _ => apply good_put_le; [done|intros]
  | |- good (if ?x then _ else _) _ => destruct x
  | |- good (match ?x with _ => _ end) _ => destruct x
  end.
Ltac fill :=
  unfold put_tlv8, put_tlv32, put_ep_tlv, put_profile_tlv, sized; unfold put8, put_le16, put_le32;
  repeat fill_step.

(** What a builder leaves: a buffer, and a size from the message header on. *)
Definition filled (r : list Z * Z) : Prop := local_buf r.1 ∧ 4 ≤ r.2 ≤ 300.

(** Where the next TLV goes. *)
Definition placed (r : list Z * Z) : Prop := local_buf r.1 ∧ 13 ≤ r.2 ≤ 256.

Lemma good_byte_at type v b off : local_buf b → 13 ≤ off → good (put8_at type v b off) placed.
Proof.
  intros Hb Ho. unfold put8_at. fill. split; [done|]. simpl in *. lia.
Qed.

Lemma good_string_at type s b off :
  local_buf b → 13 ≤ off → bytes_ok s → good (put_string_at type s b off) placed.
Proof.
  intros Hb Ho Hs. unfold put_string_at, put_tlv_string, qstrcpy. fill.
  apply good_put; [done|apply Forall_app; split; [done|by apply Forall_singleton]|].
  intros b2 Hb2 Hl0 Hl1. apply good_Done. split; [done|]. simpl. rewrite blen_app in Hl1.
  change (blen [0]) with 1 in Hl1. unfold strlen. fold (blen s). pose proof (blen_nonneg s).
  rewrite u16_small by lia. lia.
Qed.

Lemma good_opt {A} (o : option A) f b off :
  local_buf b → 13 ≤ off ≤ 256 → (∀ x, o = Some x → good (f x b off) placed) → good (put_opt o f b off) placed.
Proof. intros Hb Ho Hf. destruct o as [x|]; simpl; [by apply Hf|]. by apply good_Done. Qed.

Lemma good_mono {A} (o : outcome A) (Q Q' : A → Prop) : good o Q → (∀ a, Q a → Q' a) → good o Q'.
Proof. intros Ho HQ a E. auto. Qed.

(** ** The builders *)

Definition fills (f : custom) : Prop := ∀ b, local_buf b → good (f b) filled.

(** Two steps of a builder that places TLVs. *)
Lemma good_placed {B} (o : outcome (list Z * Z)) (f : list Z → Z → outcome B) (Q : B → Prop) :
  good o placed → (∀ b p, local_buf b → 13 ≤ p ≤ 256 → good (f b p) Q) →
  good ('(b, p) ← o; f b p) Q.
Proof. intros Ho Hf. apply good_bind. eapply good_mono; [exact Ho|]. intros [b p] [Hb Hp]. by apply Hf. Qed.

Lemma some_bytes s : bytes_ok s ↔ Forall bytes_ok (option_list (Some s)).
Proof. unfold option_list. simpl. by rewrite Forall_singleton. Qed.

Lemma cred_bytes c : strings_ok c →
  (∀ s, apn c = Some s → bytes_ok s) ∧ (∀ s, user c = Some s → bytes_ok s) ∧
  (∀ s, password c = Some s → bytes_ok s).
Proof.
  unfold strings_ok. rewrite !Forall_app. intros (H1 & H2 & H3).
  split_and!; intros s E; rewrite E in *; by apply some_bytes.
Qed.

Lemma start_fills is_cdma c family index :
  strings_ok c → fills (WdsStartNwInterfaceReq is_cdma c family index).
Proof.
  intros Hs%(start_strings is_cdma) b Hb. apply cred_bytes in Hs as (H1 & H2 & H3).
  unfold WdsStartNwInterfaceReq. cbv zeta. apply good_bind. unfold put_le16. apply good_put_le; [done|].
  intros b1 Hb1 _ _.
  apply good_placed; [by apply good_byte_at|]. intros b2 p2 Hb2 Hp2.
  apply good_placed. { apply good_opt; [done..|]. intros s E. apply good_string_at; [done|lia|]. destruct is_cdma; [done|auto]. }
  intros b3 p3 Hb3 Hp3.
  apply good_placed. { apply good_opt; [done..|]. intros s E. apply good_string_at; [done|lia|auto]. }
  intros b4 p4 Hb4 Hp4.
  apply good_placed. { apply good_opt; [done..|]. intros s E. apply good_string_at; [done|lia|auto]. }
  intros b5 p5 Hb5 Hp5.
  apply good_placed. { apply good_opt; [done..|]. intros s E. apply good_byte_at; [done|lia]. }
  intros b6 p6 Hb6 Hp6.
  apply good_placed; [apply good_byte_at; [done|lia]|]. intros b7 p7 Hb7 Hp7.
  apply good_placed. { apply good_opt; [done..|]. intros s E. apply good_byte_at; [done|lia]. }
  intros b8 p8 Hb8 Hp8. apply good_Done. split; [done|]. simpl.
  unfold SIZEOF_QCQMUX_MSG_HDR. change OFF_TLV with 13. rewrite u16_small by lia. lia.
Qed.

Lemma modify_fills c index iptype : strings_ok c → fills (WdsModifyProfileSettingsReq c index iptype).
Proof.
  intros Hs b Hb. apply cred_bytes in Hs as (H1 & H2 & H3). unfold WdsModifyProfileSettingsReq. cbv zeta.
  apply good_bind. apply (good_mono _ local_buf); [by fill|]. intros b1 Hb1.
  apply good_placed; [by apply good_byte_at|]. intros b2 p2 Hb2 Hp2.
  apply good_placed. { apply good_opt; [done..|]. intros s E. apply good_string_at; [done|lia|auto]. }
  intros b3 p3 Hb3 Hp3.
  apply good_placed. { apply good_opt; [done..|]. intros s E. apply good_string_at; [done|lia|auto]. }
  intros b4 p4 Hb4 Hp4.
  apply good_placed. { apply good_opt; [done..|]. intros s E. apply good_string_at; [done|lia|auto]. }
  intros b5 p5 Hb5 Hp5.
  apply good_placed. { apply good_opt; [done..|]. intros s E. apply good_byte_at; [done|lia]. }
  intros b6 p6 Hb6 Hp6. apply good_Done. split; [done|]. simpl.
  unfold SIZEOF_QCQMUX_MSG_HDR. change (OFF_TLV + 5) with 18. rewrite u16_small by lia. lia.
Qed.

Lemma qstrcpy_good b off s (Q : list Z → Prop) :
  local_buf b → bytes_ok s → (∀ b', local_buf b' → off + strlen s + 1 ≤ 256 → Q b') → good (qstrcpy b off s) Q.
Proof.
  intros Hb Hs HQ. apply good_put; [done|apply Forall_app; split; [done|by apply Forall_singleton]|].
  intros b' Hb' _ Hl. apply HQ; [done|]. rewrite blen_app in Hl. change (blen [0]) with 1 in Hl.
  unfold strlen, blen in *. lia.
Qed.

Lemma pin_fills pin : bytes_ok pin → fills (DmsUIMVerifyPinReqSend pin) ∧ fills (UimVerifyPinReqSend pin).
Proof.
  intros Hp. split; intros b Hb; unfold DmsUIMVerifyPinReqSend, UimVerifyPinReqSend; fill;
    (apply qstrcpy_good; [done..|]); intros b2 Hb2 Hl; fill; (split; [done|]); simpl in *;
    change OFF_TLV with 13 in *; unfold SIZEOF_QCQMUX_MSG_HDR, strlen in *; rewrite u16_small by lia; lia.
Qed.

(** The requests of the manager: what each of them puts behind the headers. *)
Inductive request : option custom → Prop :=
| Rq_none : request None
| Rq_start is_cdma c family index : strings_ok c → request (Some (WdsStartNwInterfaceReq is_cdma c family index))
| Rq_stop handle : request (Some (WdsStopNwInterfaceReq handle))
| Rq_family pref : request (Some (WdsSetClientIPFamilyPref pref))
| Rq_auto setting : request (Some (WdsSetAutoConnect setting))
| Rq_bind q : request (Some (WdsSetQMUXBindMuxDataPort q))
| Rq_format version q : request (Some (WdaSetDataFormat version q))
| Rq_pin pin : bytes_ok pin → request (Some (DmsUIMVerifyPinReqSend pin))
| Rq_uim_pin pin : bytes_ok pin → request (Some (UimVerifyPinReqSend pin))
| Rq_profiles : request (Some WdsGetProfileListReqSend)
| Rq_create pdp : request (Some (WdsCreateProfileSettingsReqSend pdp))
| Rq_profile index : request (Some (WdsGetProfileSettingsReqSend index))
| Rq_modify c index iptype : strings_ok c → request (Some (WdsModifyProfileSettingsReq c index iptype))
| Rq_settings : request (Some WdsGetRuntimeSettingReq)
| Rq_mode mode : request (Some (DmsSetOperatingModeReq mode))
| Rq_slot slot : request (Some (UimSetCardSlotReq slot))
| Rq_loopback : request (Some WdaSetLoopBackReq).

Lemma request_fills o f : request o → o = Some f → fills f.
Proof.
  intros [] [= <-]; try by (intros b Hb;
    cbv beta delta [WdsStopNwInterfaceReq WdsSetClientIPFamilyPref WdsSetAutoConnect WdsSetQMUXBindMuxDataPort
      WdaSetDataFormat WdsGetProfileListReqSend WdsCreateProfileSettingsReqSend WdsGetProfileSettingsReqSend
      WdsGetRuntimeSettingReq DmsSetOperatingModeReq UimSetCardSlotReq WdaSetLoopBackReq]; fill).
  - by apply start_fills.
  - by apply pin_fills.
  - by apply pin_fills.
  - by apply modify_fills.
Qed.

(** ** Composition *)

Definition well_formed (m : list Z) : Prop :=
  bytes_ok m ∧ 13 ≤ blen m ≤ 256 ∧ get_le16 m 1 = Done (blen m - 1).

Lemma put_le16_buf b off v b' : local_buf b → put_le16 b off v = Done b' → local_buf b'.
Proof. intros Hb E. by apply (good_put_le 2 b off v local_buf Hb (λ _ H _ _, H) b' E). Qed.

(** What was written is read back. *)
Lemma put_get_le16 b off v b' :
  0 ≤ v < 65536 → put_le16 b off v = Done b' → get_le16 b' off = Done v.
Proof.
  intros Hv E. unfold get_le16. apply get_put_bytes in E. rewrite length_le_bytes in E.
  change (Z.of_nat 2) with 2 in E. by rewrite E, outcome_bind_Done, le16_val.
Qed.

(** The message is the front of the buffer, of the length that was filled in. *)
Lemma finish_good (b : list Z) (L : Z) :
  local_buf b → 0 ≤ L ≤ 296 → get_le16 b (OFF_MSG + 2) = Done L →
  good (len ← get_le16 b (OFF_MSG + 2);
        b ← put_le16 b 1 (len + SIZEOF_QCQMUX_MSG_HDR + SIZEOF_QCQMUX_HDR + SIZEOF_QCQMI_HDR - 1);
        Length ← get_le16 b 1; get_bytes b 0 (Length + 1)) well_formed.
Proof.
  intros Hb HL E. rewrite E, outcome_bind_Done.
  replace (L + SIZEOF_QCQMUX_MSG_HDR + SIZEOF_QCQMUX_HDR + SIZEOF_QCQMI_HDR - 1) with (L + 12)
    by (unfold SIZEOF_QCQMUX_MSG_HDR, SIZEOF_QCQMUX_HDR, SIZEOF_QCQMI_HDR; lia).
  apply good_bind. intros b' E1. assert (local_buf b') as Hb' by by eapply put_le16_buf.
  apply put_get_le16 in E1; [|lia]. rewrite E1, outcome_bind_Done. intros m Em.
  destruct Hb' as [Hok Hlen]. unfold get_bytes in Em. destruct (in_range _ _ _) eqn:Er; [|done].
  apply in_range_true in Er as [_ Hr]. simpl in Em. rewrite drop_0 in Em. injection Em as Em.
  assert (blen m = L + 13) as Hm by (rewrite <- Em; unfold blen; rewrite length_take; lia).
  split; [rewrite <- Em; by apply bytes_ok_take|]. split; [rewrite Hm; lia|].
  rewrite Hm. rewrite <- (take_drop (Z.to_nat (L + 12 + 1)) b'), Em, get_le16_prefix in E1 by (unfold blen in Hm; lia).
  rewrite E1. f_equal. lia.
Qed.

Lemma compose_good QMIType MsgType tid o :
  request o → good (ComposeQMUXMsg_buf QMIType MsgType tid o) well_formed.
Proof.
  intros Ho. unfold ComposeQMUXMsg_buf. cbv zeta.
  assert (local_buf (replicate (Z.to_nat WDM_DEFAULT_BUFSIZE) 0)) as Hb0.
  { split; [|done]. by apply Forall_replicate. }
  revert Hb0. generalize (replicate (Z.to_nat WDM_DEFAULT_BUFSIZE) 0). intros b0 Hb0.
  unfold put8, put_le16 at 1 2. do 6 (apply good_bind, good_put_le; [done|]; intros ? ? _ _).
  apply good_bind. eapply good_mono with (Q := λ b, local_buf b ∧ ∃ L, 0 ≤ L ≤ 296 ∧ get_le16 b (OFF_MSG + 2) = Done L).
  - destruct o as [f|].
    + apply good_bind. eapply good_mono; [by eapply request_fills|]. intros [c n] [Hc Hn]. simpl in *.
      intros r E. split; [by (eapply put_le16_buf; [|exact E])|].
      exists (n - SIZEOF_QCQMUX_MSG_HDR). unfold SIZEOF_QCQMUX_MSG_HDR in *.
      split; [lia|]. eapply put_get_le16; [|exact E]. lia.
    + intros r E. split; [by (eapply put_le16_buf; [|exact E])|].
      exists 0. split; [done|]. by eapply put_get_le16.
  - intros c (Hc & L & HL & E). by eapply finish_good.
Qed.
