(* ===== verification/CmExchange.v ===== *)
(** * The connection manager: a request and its response

    The exchange of messages of [CmDev]: whatever happens while a request waits, a
    response that it returns answers that request; and when the device answers, the
    exchange returns the answer. *)

From S2P Require Import Prelude Kernel CmMsg CmDev CmReq CmMain CmFrame CmWire.

#[local] Open Scope Z_scope.
#[local] Open Scope c_scope.

(** A response for a request: it was recognised in the receive buffer, whose first
    bytes it is. *)
Definition matched (req resp : list Z) : Prop :=
  ∃ buf, is_response req buf = Done true ∧ get_bytes buf 0 (blen resp) = Done resp.

(** The message as it is sent: the client id is filled in, and the service of the
    second WDS client is WDS. *)
Definition addressed (m : list Z) (QMIType ClientId : Z) : outcome (list Z) :=
  m ← put8 m 5 ClientId;
  if QMIType =? QMUX_TYPE_WDS_IPV6 then put8 m 4 QMUX_TYPE_WDS else Done m.

Section Waiting.
Context `{Env}.

(** A request that waits: it is still there, or it is gone and its response, if
    there is one, is the right one. *)
Definition waiting (req : list Z) (s : cm) : Prop :=
  (s_pRequest (chan s) = Some req ∧ s_pResponse (chan s) = None) ∨
  (s_pRequest (chan s) = None ∧ ∀ resp, s_pResponse (chan s) = Some resp → matched req resp).

(** Nothing is sent, and the request waits on. *)
Definition waits_on (req : list Z) (s s' : cm) : Prop :=
  out s' = out s ∧ (waiting req s → waiting req s').

Lemma waits_on_preorder req : PreOrder (waits_on req).
Proof.
  split; [by intros s|]. intros s1 s2 s3 [E1 H1] [E2 H2]. split; [congruence|auto].
Qed.
#[local] Existing Instance waits_on_preorder.

Lemma preserves_at {A} R (m : cmm A) s : preserves R m → ends m s (λ _ s', R s s').
Proof. intros Hm. apply Hm. Qed.

(** Code that leaves the request and the response alone. *)
Lemma waits_on_chan req s s' :
  out s' = out s → s_pRequest (chan s') = s_pRequest (chan s) → s_pResponse (chan s') = s_pResponse (chan s) →
  waits_on req s s'.
Proof. intros Ho Hr Hp. split; [done|]. unfold waiting. by rewrite Hr, Hp. Qed.

Lemma waits_sock req f : preserves (waits_on req) (modify (upd_sock f)).
Proof. apply preserves_modify. intros s. by apply waits_on_chan. Qed.
Lemma waits_ask {A} req (f : World → World * A) : preserves (waits_on req) (ask f).
Proof. apply preserves_ask. intros s w. by apply waits_on_chan. Qed.
Lemma waits_chan req f :
  (∀ c, s_pRequest (f c) = s_pRequest c) → (∀ c, s_pResponse (f c) = s_pResponse c) →
  preserves (waits_on req) (modify (upd_chan f)).
Proof. intros Hr Hp. apply preserves_modify. intros s. by apply waits_on_chan; simpl. Qed.

Lemma get_bytes_own b n c : get_bytes b 0 n = Done c → get_bytes b 0 (blen c) = Done c.
Proof.
  unfold get_bytes. destruct (in_range b 0 n) eqn:E; [|done]. apply in_range_true in E as [_ Hl].
  intros [= <-]. assert (length (take (Z.to_nat n) b) = Z.to_nat n) as Hn by (rewrite length_take; lia).
  simpl. unfold blen. rewrite drop_0, Hn.
  replace (in_range b 0 (Z.of_nat (Z.to_nat n))) with true by (symmetry; apply in_range_true; lia).
  by rewrite Nat2Z.id.
Qed.

(** A response that is found for the request that waits. *)
Lemma waits_found req m n copy (ok : bool) (s : cm) :
  match s_pRequest (chan s) with Some r => is_response r m | None => Done false end = Done true →
  get_bytes m 0 n = Done copy →
  waits_on req s (upd_chan (λ c, set_response (if ok then Some copy else None) (set_request None c)) s).
Proof.
  intros Hmine Hcopy. split; [done|]. intros [[Hr _]|[Hr _]]; rewrite Hr in Hmine; [|done].
  right. split; [done|]. simpl. destruct ok; [|done]. intros resp [= <-]. exists m.
  split; [done|]. by eapply get_bytes_own.
Qed.

#[local] Hint Resolve waits_sock waits_ask : keeps.

(** The reception: the case that matters is the one of the response. *)
Lemma waits_recv req m : preserves (waits_on req) (QmiThreadRecvQMI m).
Proof.
  unfold QmiThreadRecvQMI, qmidevice_send_event_to_main, qmidevice_send_event_to_main_ext.
  intros s. apply ends_bind, ends_get. destruct m as [m|].
  - apply ends_bind, ends_lift. intros len Hlen. apply ends_bind, ends_lift. intros mine Hmine.
    revert Hmine. destruct mine; intros Hmine.
    + apply ends_bind. intros ok s1 E. unfold malloc, ask in E. destruct (malloc_ok _) as [w a].
      injection E as <- <-. apply ends_bind, ends_lift. intros copy Hcopy.
      apply ends_bind, ends_modify, ends_ret. etrans; [by apply (waits_on_chan req s (set_world w s))|].
      by eapply waits_found.
    + clear Hmine. apply preserves_at. keeps.
  - apply preserves_at. destruct (s_pRequest (chan s)); [|keeps].
    apply preserves_bind; [exact _| |keeps].
    apply preserves_modify. clear s. intros s. split; [done|]. by right.
Qed.
#[local] Hint Resolve waits_recv : keeps.

Lemma waits_happen req h : preserves (waits_on req) (happen h).
Proof.
  unfold happen, dev_read, ctl_read, QmiWwanThread_quit, ql_sigaction, send_signo_to_main,
    main_send_event_to_qmidevice, qmidevice_send_event_to_main. keeps; by apply waits_chan.
Qed.
#[local] Hint Resolve waits_happen : keeps.

Lemma waits_happen_all req l : preserves (waits_on req) (happen_all l).
Proof. induction l as [|h l IH]; simpl happen_all; keeps. Qed.
#[local] Hint Resolve waits_happen_all : keeps.

Lemma waits_wait req r : preserves (waits_on req) (wait_response r).
Proof. unfold wait_response. keeps. Qed.

(** What is on the wire after a request: nothing, when the device takes nothing, or the
    first bytes of the request. *)
Definition sent_of (req : list Z) (s s' : cm) : Prop :=
  out s' = out s ∨ ∃ n bytes, get_bytes req 0 n = Done bytes ∧ out s' = Sent bytes :: out s.

(** The last part of the sending, from the address on. *)
Lemma transmit_waiting m s :
  s_pRequest (chan s) = Some m → s_pResponse (chan s) = None →
  ends (Length ← lift (get_le16 m 1);
        let nwrites := Length + 1 in
        bytes ← lift (get_bytes m 0 nwrites);
        r ← ask (λ w, react w bytes);
        if r_pollout r then
          modify (add_out (Sent bytes));;
          mret (if r_write r =? nwrites then 0 else r_write r, Some r)
        else mret (r_poll r, Some r)) s
    (λ _ s', ∃ req, waiting req s' ∧ sent_of req s s').
Proof.
  intros Hr Hp. apply ends_bind, ends_lift. intros len _. apply ends_bind, ends_lift. intros bytes Hb.
  apply ends_bind. intros r s1 E. unfold ask in E. destruct (react _ _) as [w a]. injection E as <- <-.
  destruct (r_pollout a).
  - apply ends_bind, ends_modify, ends_ret. exists m. split; [by left|]. right. by exists (len + 1), bytes.
  - apply ends_ret. exists m. split; [by left|by left].
Qed.

(** A request that was handed to the device waits in the form in which it was sent. *)
Lemma send_waiting m s :
  s_pRequest (chan s) = Some m → s_pResponse (chan s) = None →
  ends (QmiWwanSendQMI m) s (λ r s', r.1 = 0 → ∃ req, waiting req s' ∧ sent_of req s s').
Proof.
  intros Hr Hp. unfold QmiWwanSendQMI, upd_request. apply ends_bind, ends_get.
  destruct (negb _); [by apply ends_ret|]. apply ends_bind, ends_lift. intros type _.
  apply ends_bind. eapply ends_mono with (Φ := λ r s', r.2 = true →
    s_pRequest (chan s') = Some r.1 ∧ s_pResponse (chan s') = None ∧ out s' = out s).
  - destruct (type =? QMUX_TYPE_CTL); [by apply ends_ret|]. destruct (_ !! _) as [id|]; [|apply ends_fault].
    apply ends_bind, ends_lift. intros m1 _. apply ends_bind, ends_modify.
    destruct (id =? 0); [by apply ends_ret|].
    apply ends_bind. destruct (type =? QMUX_TYPE_WDS_IPV6).
    + apply ends_lift. intros m2 _. by apply ends_bind, ends_modify, ends_ret.
    + apply ends_ret. by apply ends_bind, ends_modify, ends_ret.
  - intros [m' []] s1 Hs; simpl; [|by apply ends_ret]. destruct (Hs eq_refl) as (Hr1 & Hp1 & Ho).
    eapply ends_mono; [by apply transmit_waiting|]. intros r s2 (req & Hw & Hsent) _. exists req.
    split; [done|]. unfold sent_of in *. by rewrite <- Ho.
Qed.

(** A response that the exchange returns answers the request that was sent. *)
Lemma exchange_matched m s :
  ends (QmiThreadSendQMITimeout (Some m) true) s (λ r s', ∀ resp, r.2 = Ptr resp →
    r.1 = 0 ∧ ∃ req, matched req resp ∧ sent_of req s s').
Proof.
  unfold QmiThreadSendQMITimeout. apply ends_bind, ends_modify. apply ends_bind.
  eapply ends_mono; [by apply send_waiting|]. intros [ret r] s1 Hs. simpl in Hs.
  destruct (Z.eqb_spec ret 0) as [->|]; simpl; [|by apply ends_ret].
  destruct (Hs eq_refl) as (req & Hw & Hsent). apply ends_bind.
  eapply ends_mono; [apply (waits_wait req)|]. intros ret s2 [Ho Hw2].
  destruct (Z.eqb_spec ret 0) as [->|]; simpl; [|by apply ends_ret].
  apply ends_bind, ends_get. destruct (s_pResponse (chan s2)) as [x|] eqn:E; [|by apply ends_ret].
  apply ends_ret. simpl. intros resp [= <-]. split; [done|]. exists req. split.
  - destruct (Hw2 Hw) as [[_ Hn]|[_ Hm]]; [congruence|]. by apply Hm.
  - unfold sent_of in *. rewrite Ho. done.
Qed.
End Waiting.

(** ** A device that answers *)

(** A message that the receiver takes for the response to a request. *)
Record response_ok (req resp : list Z) : Prop := ResponseOk {
  resp_size : 9 ≤ blen resp ≤ 4096;
  resp_length : get_le16 resp 1 = Done (blen resp - 1);
  resp_matches : is_response req resp = Done true
}.

Lemma is_response_prefix req resp rest :
  9 ≤ blen resp → is_response req (resp ++ rest) = is_response req resp.
Proof.
  unfold blen. intros Hl. unfold is_response. rewrite !get8_prefix, get_le16_prefix by lia. done.
Qed.

Section Answer.
Context `{Env}.

Lemma done_bind {A B} (m : cmm A) (f : A → cmm B) s a s' : m s = Done (a, s') → (m ≫= f) s = f a s'.
Proof. intros E. unfold mbind, stm_bind. by rewrite E. Qed.

(** The channel is open, and the device gives the answer. *)
Record listens (s : cm) : Prop := Listens {
  li_open : cdc_wdm_open (chan s) = true;
  li_thread : thread_running (chan s) = true;
  li_buf : blen (cm_recv_buf (chan s)) = 4096
}.

Definition answers (w w' : World) (req resp : list Z) : Prop :=
  response_ok req resp ∧ ∃ w1 r_poll r_spurious,
    react w req = (w1, Reaction r_poll true (blen req) [Dev_read resp] r_spurious) ∧
    malloc_ok w1 = (w', true).

(** The state after the answer. *)
Definition answered (s : cm) (req resp : list Z) (w : World) : cm :=
  Cm (cfg s) (prof s) (st s)
    (Channel None (Some resp) (cdc_wdm_open (chan s)) (qmiclientId (chan s)) (thread_running (chan s))
       (wait_for_request_quit (chan s)) (resp ++ drop (length resp) (cm_recv_buf (chan s))))
    (sock s) (s_link s) (Sent req :: out s) w.

(** The device thread takes the response to the waiting request. *)
Lemma read_answer s req resp w w' :
  listens s → response_ok req resp → s_pRequest (chan s) = Some req → malloc_ok w = (w', true) → world s = w →
  happen (Dev_read resp) s = Done (true,
    Cm (cfg s) (prof s) (st s)
      (Channel None (Some resp) (cdc_wdm_open (chan s)) (qmiclientId (chan s)) (thread_running (chan s))
         (wait_for_request_quit (chan s)) (resp ++ drop (length resp) (cm_recv_buf (chan s))))
      (sock s) (s_link s) (out s) w').
Proof.
  intros [Hopen Hrun Hbuf] [Hsize Hlen Hm] Hr Hw <-.
  assert (∀ o, 0 ≤ o → o + 2 ≤ blen resp → ∀ rest, get_le16 (resp ++ rest) o = get_le16 resp o) as Hpre.
  { unfold blen. intros. apply get_le16_prefix; lia. }
  unfold happen. erewrite done_bind by reflexivity. rewrite Hrun. unfold dev_read.
  erewrite done_bind by reflexivity. cbv zeta. fold (blen resp).
  destruct (Z.eqb_spec (blen resp) 0); [lia|].
  assert (put_bytes (cm_recv_buf (chan s)) 0 resp = Done (resp ++ drop (length resp) (cm_recv_buf (chan s)))) as Eb.
  { apply put_bytes_whole; [done|]. unfold blen in *. lia. }
  erewrite done_bind by (unfold lift; rewrite Eb; reflexivity).
  set (buf := resp ++ _) in *.
  erewrite done_bind by reflexivity.
  assert (get_le16 buf 1 = Done (blen resp - 1)) as El by (unfold buf; rewrite Hpre by lia; done).
  erewrite done_bind by (unfold lift; rewrite El; reflexivity).
  replace (blen resp =? blen resp - 1 + 1) with true by lia.
  change (negb true) with false. cbv iota.
  unfold QmiThreadRecvQMI. erewrite done_bind by reflexivity.
  erewrite done_bind by (unfold lift; rewrite El; reflexivity).
  assert (is_response req buf = Done true) as Ei by (unfold buf; rewrite is_response_prefix by lia; done).
  erewrite done_bind by (simpl; rewrite Hr; unfold lift; rewrite Ei; reflexivity).
  cbn iota. erewrite done_bind by (unfold malloc, ask; simpl; rewrite Hw; reflexivity).
  assert (get_bytes buf 0 (blen resp - 1 + 1) = Done resp) as Ec.
  { unfold buf. apply get_bytes_app_front. unfold blen. lia. }
  erewrite done_bind by (unfold lift; rewrite Ec; reflexivity).
  erewrite done_bind by reflexivity. unfold mret, stm_ret, upd_chan, set_response, set_request, set_recv_buf.
  simpl. by rewrite Hrun.
Qed.

(** The request on its way to the device. *)
Lemma send_answered s m type id req w1 rc :
  cdc_wdm_open (chan s) = true → get8 m 4 = Done type → type ≠ QMUX_TYPE_CTL →
  qmiclientId (chan s) !! Z.to_nat type = Some id → id ≠ 0 → addressed m type id = Done req →
  get_le16 req 1 = Done (blen req - 1) →
  react (world s) req = (w1, rc) → r_pollout rc = true → r_write rc = blen req →
  QmiWwanSendQMI m s = Done ((0, Some rc),
    Cm (cfg s) (prof s) (st s) (set_request (Some req) (chan s)) (sock s) (s_link s) (Sent req :: out s) w1).
Proof.
  intros Hopen Ht Hctl Hid Hid0 Haddr Hlen Hreact Hout Hwrite.
  unfold QmiWwanSendQMI. erewrite done_bind by reflexivity. rewrite Hopen.
  change (negb true) with false. cbv iota.
  erewrite done_bind by (unfold lift; rewrite Ht; reflexivity).
  destruct (Z.eqb_spec type QMUX_TYPE_CTL); [done|]. rewrite Hid.
  set (s1 := upd_chan (set_request (Some req)) s).
  erewrite (done_bind _ _ s (req, true) s1).
  - change (negb true) with false. cbv iota zeta.
    erewrite done_bind by (unfold lift; rewrite Hlen; reflexivity).
    assert (get_bytes req 0 (blen req - 1 + 1) = Done req) as Ec.
    { rewrite <- (app_nil_r req) at 1. apply get_bytes_app_front. unfold blen. lia. }
    erewrite done_bind by (unfold lift; rewrite Ec; reflexivity).
    erewrite done_bind by (unfold ask; simpl; rewrite Hreact; reflexivity). cbv beta. rewrite Hout, Hwrite.
    erewrite done_bind by reflexivity. cbv beta.
    replace (blen req =? blen req - 1 + 1) with true by lia. reflexivity.
  - unfold addressed in Haddr. destruct (put8 m 5 id) as [m1| |] eqn:E1; [|done..].
    rewrite outcome_bind_Done in Haddr. erewrite done_bind by reflexivity.
    erewrite done_bind by reflexivity. destruct (Z.eqb_spec id 0); [done|].
    destruct (type =? QMUX_TYPE_WDS_IPV6).
    + erewrite done_bind by (unfold lift; rewrite Haddr; reflexivity). reflexivity.
    + injection Haddr as <-. reflexivity.
Qed.

(** The whole exchange. *)
Lemma exchange_answered s m type id req resp w' :
  listens s → get8 m 4 = Done type → type ≠ QMUX_TYPE_CTL →
  qmiclientId (chan s) !! Z.to_nat type = Some id → id ≠ 0 → addressed m type id = Done req →
  get_le16 req 1 = Done (blen req - 1) → answers (world s) w' req resp →
  QmiThreadSendQMITimeout (Some m) true s = Done ((0, Ptr resp), answered s req resp w').
Proof.
  intros [Ho Hrun Hbuf] Ht Hctl Hid Hid0 Haddr Hlen (Hok & w1 & rp & sp & Hreact & Hmal).
  unfold QmiThreadSendQMITimeout. erewrite done_bind by reflexivity.
  erewrite done_bind by (by eapply (send_answered (upd_chan _ s))). cbv beta iota.
  change (negb (0 =? 0)) with false. cbv iota.
  unfold wait_response. erewrite done_bind.
  2: { erewrite done_bind; [|cbn [r_happens happen_all]; erewrite done_bind by (by eapply read_answer);
         erewrite done_bind by reflexivity; reflexivity]. reflexivity. }
  cbv beta. change (negb (0 =? 0)) with false. cbv iota. reflexivity.
Qed.
End Answer.
