(* ===== verification/CmDial.v ===== *)
(** * The connection manager: dialling

    What the requests of a data call and the main loop do with a modem that answers
    every request at once and with success ([Prompt]): the call is set up, the
    address is read, the link goes up. *)

From S2P Require Import Prelude Kernel GobiQmi CmMsg CmDev CmReq CmMain CmFrame CmLink CmWire CmExchange.

#[local] Open Scope Z_scope.
#[local] Open Scope c_scope.

Import Qmi (tlv, Tlv, tlv_type, tlv_value, tlv_ok, encode_tlv, encode_tlvs, encode_tlvs_cons,
  length_encode_tlv).

(** ** Messages *)

(** The front of a message for a client: flags of the headers, service, client,
    transaction, number and the length of what follows. *)
Definition wire_header (f1 f2 QMIType ClientId MsgType tid len : Z) : list Z :=
  [0x01] ++ le_bytes 2 (len + 12) ++ [f1; QMIType; ClientId; f2] ++ le_bytes 2 tid ++ le_bytes 2 MsgType.

Definition wire (f1 f2 QMIType ClientId MsgType tid : Z) (ts : list tlv) : list Z :=
  with_header (wire_header f1 f2 QMIType ClientId MsgType tid (blen (encode_tlvs ts))) ts.

(** The TLV of the result. *)
Definition success : tlv := Tlv 0x02 [0; 0; 0; 0].

Lemma length_wire_header f1 f2 t id n tid len : length (wire_header f1 f2 t id n tid len) = 11%nat.
Proof. done. Qed.

Lemma blen_wire f1 f2 t id n tid ts : blen (wire f1 f2 t id n tid ts) = 13 + blen (encode_tlvs ts).
Proof. unfold wire, with_header. rewrite !blen_app. change (blen (wire_header _ _ _ _ _ _ _)) with 11. change (blen (le_bytes 2 _)) with 2. lia. Qed.

(** What is read from the headers. *)
Lemma wire_type f1 f2 t id n tid ts : get8 (wire f1 f2 t id n tid ts) 4 = Done t.
Proof.
  unfold wire, with_header. rewrite get8_prefix by (rewrite ?length_wire_header; lia).
  unfold wire_header, get8. simpl. by rewrite Z.add_0_r.
Qed.
Lemma wire_client f1 f2 t id n tid ts : get8 (wire f1 f2 t id n tid ts) 5 = Done id.
Proof.
  unfold wire, with_header. rewrite get8_prefix by (rewrite ?length_wire_header; lia).
  unfold wire_header, get8. simpl. by rewrite Z.add_0_r.
Qed.
Lemma wire_tid f1 f2 t id n tid ts : get_le16 (wire f1 f2 t id n tid ts) 7 = Done (le_val (le_bytes 2 tid)).
Proof.
  unfold wire, with_header. by rewrite get_le16_prefix by (rewrite ?length_wire_header; lia).
Qed.
Lemma wire_length f1 f2 t id n tid ts :
  blen (encode_tlvs ts) < 60000 →
  get_le16 (wire f1 f2 t id n tid ts) 1 = Done (blen (wire f1 f2 t id n tid ts) - 1).
Proof.
  intros Hl. rewrite blen_wire. pose proof (blen_nonneg (encode_tlvs ts)).
  unfold wire, with_header, wire_header. rewrite <- !app_assoc.
  change 1 with (blen [0x01]) at 2. rewrite get_le16_at by lia. f_equal. lia.
Qed.

(** A request is built with client 0, and the sender fills in the client. *)
Lemma finished_wire t n tid ts :
  0 ≤ t < 256 →
  finished_header t n tid (blen (encode_tlvs ts)) ++ le_bytes 2 (blen (encode_tlvs ts)) ++ encode_tlvs ts =
  wire 0 0 t 0 n tid ts.
Proof.
  intros Ht. unfold wire, with_header, finished_header, wire_header. simpl. by rewrite (Z.mod_small t) by lia.
Qed.

(** The service of a client on the wire. *)
Definition wire_service (t : Z) : Z := if t =? QMUX_TYPE_WDS_IPV6 then QMUX_TYPE_WDS else t.

Lemma addressed_wire t id n tid ts :
  0 ≤ id < 256 → addressed (wire 0 0 t 0 n tid ts) t id = Done (wire 0 0 (wire_service t) id n tid ts).
Proof.
  intros Hid. unfold addressed, wire_service, put8, wire, with_header, wire_header.
  set (rest := le_bytes 2 (blen (encode_tlvs ts)) ++ encode_tlvs ts).
  assert (∀ a b c bs, ([0x01] ++ le_bytes 2 (blen (encode_tlvs ts) + 12) ++ [a; b; c; 0] ++ le_bytes 2 tid ++ le_bytes 2 n) ++ bs =
    0x01 :: ((blen (encode_tlvs ts) + 12) mod 256) :: (((blen (encode_tlvs ts) + 12) / 256) mod 256) ::
    a :: b :: c :: 0 :: (le_bytes 2 tid ++ le_bytes 2 n ++ bs)) as E by (intros; simpl; done).
  rewrite !E. rewrite put_bytes_Done by (simpl; lia). rewrite outcome_bind_Done.
  simpl. rewrite (Z.mod_small id) by lia. destruct (_ =? _); [|done].
  rewrite put_bytes_Done by (simpl; lia). done.
Qed.

(** The response to a request is recognised. *)
Lemma wire_response f1 f2 t id n n' tid ts ts' :
  t ≠ QMUX_TYPE_CTL → blen (encode_tlvs ts') ≤ 4000 →
  response_ok (wire 0 0 t id n tid ts) (wire f1 f2 t id n' tid ts').
Proof.
  intros Ht Hl. split.
  - rewrite blen_wire. pose proof (blen_nonneg (encode_tlvs ts')). lia.
  - apply wire_length. lia.
  - unfold is_response. rewrite !wire_type, !wire_client, !wire_tid, !outcome_bind_Done.
    rewrite !Z.eqb_refl. simpl. destruct (Z.eqb_spec t QMUX_TYPE_CTL); [done|].
    by rewrite !outcome_bind_Done, Z.eqb_refl.
Qed.

(** The result of a response. *)
Lemma wire_result f1 f2 t id n tid ts :
  get_le16 (wire f1 f2 t id n tid (success :: ts)) 16 = Done 0 ∧
  get_le16 (wire f1 f2 t id n tid (success :: ts)) 18 = Done 0.
Proof.
  unfold wire, with_header. rewrite encode_tlvs_cons, !app_assoc.
  split; rewrite get_le16_prefix by (rewrite ?length_app, ?length_le_bytes, ?length_wire_header; simpl; lia); done.
Qed.

(** The TLVs of a message. *)
Lemma wire_GetTLV f1 f2 t id n tid ts type :
  Forall tlv_ok ts → type < 256 → blen (encode_tlvs ts) < 60000 →
  GetTLV (wire f1 f2 t id n tid ts) type = Done (fst <$> find_at type ts OFF_TLV).
Proof. intros. apply GetTLV_spec; [done..|lia]. Qed.

Lemma wire_value8 f1 f2 t id n tid ts type pos v rest :
  find_at type ts OFF_TLV = Some (pos, v :: rest) → get8 (wire f1 f2 t id n tid ts) (pos + 3) = Done v.
Proof.
  intros Hf. unfold get8, wire. erewrite (get_value_bytes _ _ type pos _ 1 (length_wire_header _ _ _ _ _ _ _) Hf)
    by (unfold blen; simpl; lia).
  simpl. by rewrite Z.add_0_r.
Qed.

Lemma wire_value32 f1 f2 t id n tid ts type pos v :
  0 ≤ v < 2 ^ 32 → find_at type ts OFF_TLV = Some (pos, le_bytes 4 v) →
  get_le32 (wire f1 f2 t id n tid ts) (pos + 3) = Done v.
Proof.
  intros Hv Hf. unfold get_le32, wire.
  rewrite (get_value_bytes _ _ type pos _ 4 (length_wire_header _ _ _ _ _ _ _) Hf) by (unfold blen; simpl; lia).
  rewrite outcome_bind_Done. change (take (Z.to_nat 4) (le_bytes 4 v)) with (le_bytes 4 v).
  rewrite le_val_le_bytes, Z.mod_small; [done|]. exact Hv.
Qed.

Lemma success_ok : tlv_ok success.
Proof. split; [done|]. split; [|done]. repeat constructor; lia. Qed.

(** ** A modem that answers *)

(** The answer of the modem to a service's message is a list of TLVs behind the
    result. *)
Section Modem.
Context `{Env} (modem : Z → Z → list tlv).

Class Prompt : Prop := {
  prompt_malloc w : ∃ w', malloc_ok w = (w', true);
  prompt_tlvs t n : Forall tlv_ok (modem t n) ∧ blen (encode_tlvs (modem t n)) ≤ 3900;
  prompt_react w t id n tid ts : t ≠ QMUX_TYPE_CTL → 0 ≤ n < 2 ^ 16 → ∃ w' p sp,
    let req := wire 0 0 t id n tid ts in
    react w req =
    (w', Reaction p true (blen req) [Dev_read (wire 0x80 0x02 t id n tid (success :: modem t n))] sp)
}.

(** What the exchanges leave alone. *)
Record kept (s s' : cm) : Prop := Kept {
  kept_cfg : cfg s' = cfg s;
  kept_link : s_link s' = s_link s;
  kept_sock : sock s' = sock s;
  kept_dhcp : dhcp_of (out s') = dhcp_of (out s);
  kept_clients : qmiclientId (chan s') = qmiclientId (chan s);
  kept_listens : listens s → listens s'
}.

Lemma kept_preorder : PreOrder kept.
Proof.
  split; [by intros s|]. intros s1 s2 s3 [] []. split; try congruence. auto.
Qed.
#[local] Existing Instance kept_preorder.

(** The client of a service. *)
Definition has_client (s : cm) (t id : Z) : Prop :=
  qmiclientId (chan s) !! Z.to_nat t = Some id ∧ 0 < id < 256.

Lemma kept_answered s req resp w :
  listens s → blen resp ≤ 4096 → kept s (answered s req resp w).
Proof.
  intros [Ho Hr Hb] Hl. split; try done. intros _. split; try done. simpl.
  unfold blen in *. rewrite length_app, length_drop. lia.
Qed.

(** The next transaction. *)
Definition next_tid (s : cm) : Z := if 0xFFFF <? TransactionId (st s) + 1 then 1 else TransactionId (st s) + 1.

Lemma get_tid_done s : GetQMUXTransactionId s = Done (next_tid s, upd_st (set_tid (next_tid s)) s).
Proof.
  destruct s as [? ? [] ? ? ? ? ?]. unfold GetQMUXTransactionId, next_tid. simpl.
  unfold mbind, stm_bind. simpl. by destruct (_ <? _).
Qed.

(** A request to a service is answered with the modem's TLVs. *)
Lemma exchange_prompt `{!Prompt} t n fill ts id s :
  listens s → 0 < t < 256 → has_client s t id → 0 ≤ n < 2 ^ 16 → blen (encode_tlvs ts) ≤ 4000 →
  ComposeQMUXMsg_buf t n (next_tid s) fill = Done (wire 0 0 t 0 n (next_tid s) ts) →
  runs (exchange t n fill) s (λ r s',
    r = (0, Ptr (wire 0x80 0x02 (wire_service t) id n (next_tid s) (success :: modem (wire_service t) n))) ∧
    kept s s' ∧ prof s' = prof s ∧ st s' = set_tid (next_tid s) (st s)).
Proof.
  intros Hli Ht [Hid Hr] Hn Hts Hc. unfold exchange, ComposeQMUXMsg.
  apply runs_bind, runs_bind. eapply runs_exact; [apply get_tid_done|].
  set (s1 := upd_st _ s).
  apply runs_bind. eapply runs_lift; [exact Hc|]. apply runs_bind.
  destruct (prompt_malloc (world s1)) as [w1 Hw1]. eapply runs_exact.
  { unfold malloc, ask. rewrite Hw1. reflexivity. }
  apply runs_ret. set (s2 := set_world w1 s1).
  destruct (prompt_tlvs (wire_service t) n) as [_ Hm].
  assert (wire_service t ≠ QMUX_TYPE_CTL) as Hs.
  { unfold wire_service, QMUX_TYPE_CTL, QMUX_TYPE_WDS. destruct (_ =? _); lia. }
  destruct (prompt_react w1 (wire_service t) id n (next_tid s) ts Hs Hn) as (w2 & p & sp & Hreact).
  destruct (prompt_malloc w2) as [w3 Hw3].
  assert (blen (encode_tlvs (success :: modem (wire_service t) n)) ≤ 4000) as Hl.
  { rewrite encode_tlvs_cons, blen_app. change (blen (encode_tlv success)) with 7. lia. }
  assert (kept s s2) as K by (split; try done; by intros []).
  eapply runs_exact.
  { eapply (exchange_answered s2 _ t id _ _ w3); [|apply wire_type|unfold QMUX_TYPE_CTL; lia|exact Hid|lia| | |].
    - by apply K.
    - apply addressed_wire. lia.
    - apply wire_length. lia.
    - split; [by apply wire_response|]. by exists w2, p, sp. }
  split; [done|]. split; [|done]. etrans; [exact K|]. apply kept_answered; [by apply K|].
  rewrite blen_wire. lia.
Qed.

(** What a response to an accepted request says. *)
Lemma reply_tlvs `{!Prompt} t n : Forall tlv_ok (success :: modem t n) ∧
  blen (encode_tlvs (success :: modem t n)) < 60000.
Proof.
  destruct (prompt_tlvs t n) as [Hf Hl]. split; [constructor; [apply success_ok|done]|].
  rewrite encode_tlvs_cons, blen_app. change (blen (encode_tlv success)) with 7. lia.
Qed.

Lemma with_tlv_prompt `{!Prompt} f1 f2 t id n tid type k s Φ :
  type < 256 →
  (match find_at type (success :: modem t n) OFF_TLV with
   | Some (pos, v) => runs (k pos) s Φ
   | None => Φ () s
   end) →
  runs (with_tlv (wire f1 f2 t id n tid (success :: modem t n)) type k) s Φ.
Proof.
  intros Ht Hk. destruct (reply_tlvs t n) as [Hf Hl]. unfold with_tlv. apply runs_bind.
  eapply runs_lift; [by apply wire_GetTLV|]. destruct (find_at _ _ _) as [[pos v]|]; [done|by apply runs_ret].
Qed.

(** ** Setting up a call *)

Definition set_h (family h : Z) : statics → statics := if family =? IpFamilyV4 then set_h4 h else set_h6 h.

Definition fits (s : cm) (family : Z) : Prop :=
  let p := prof s in
  start_args (cred p) family (profile_index p) ∧
  13 + blen (encode_tlvs (start_tlvs (s_is_cdma (st s)) (cred p) family (profile_index p))) ≤ 256.

Lemma setup_prompt `{!Prompt} family id h s :
  listens s → has_client s (wds_type family) id → fits s family →
  modem QMUX_TYPE_WDS 0x20 = [Tlv 0x01 (le_bytes 4 h)] → 0 ≤ h < 2 ^ 32 →
  runs (requestSetupDataCall family) s (λ r s', r = 0 ∧ kept s s' ∧
    prof s' = set_curIpFamily family (prof s) ∧
    st s' = set_h family h (set_tid (next_tid s) (st s))).
Proof.
  intros Hli Hid [Hargs Hfit] Hm Hh. unfold requestSetupDataCall.
  apply runs_bind, runs_modify, runs_bind, runs_get. set (s1 := upd_prof _ s).
  assert (kept s s1) as K1 by (split; try done; by intros []).
  set (ts := start_tlvs (s_is_cdma (st s)) (cred (prof s)) family (profile_index (prof s))) in *.
  assert (0 < wds_type family < 256 ∧ wire_service (wds_type family) = QMUX_TYPE_WDS) as [Ht Hs].
  { unfold wds_type. by destruct (_ =? _). }
  apply runs_bind. eapply runs_mono.
  { eapply (exchange_prompt (wds_type family) 0x20 _ ts id s1); [by apply K1|done|done|done|lia|].
    simpl. rewrite start_request by done. cbv zeta. fold ts.
    unfold WDM_DEFAULT_BUFSIZE. replace (_ <=? 256) with true by lia.
    rewrite finished_wire by lia. done. }
  intros r s2 (-> & K2 & Hp2 & Hst2). rewrite Hs, Hm. cbn beta iota.
  change (0 <? 0) with false. cbv iota.
  destruct (wire_result 0x80 0x02 QMUX_TYPE_WDS id 32 (next_tid s1) [Tlv 0x01 (le_bytes 4 h)]) as [E16 E18].
  apply runs_bind. eapply runs_lift; [exact E16|]. apply runs_bind. eapply runs_lift; [exact E18|].
  change (negb (0 =? 0) || negb (0 =? 0)) with false. cbv iota.
  apply runs_bind. eapply runs_lift.
  { change (OFF_MSG + 14) with (20 + 3). apply (wire_value32 _ _ _ _ _ _ _ 0x01 20 h); [done|]. reflexivity. }
  apply runs_bind, runs_modify, runs_ret. split; [done|].
  assert (kept s2 (upd_st (set_h family h) s2)) as K3 by (split; try done; by intros []).
  split; [by etrans; [exact K1|etrans; [exact K2|exact K3]]|]. split; [done|].
  simpl. rewrite Hst2. done.
Qed.

(** ** The address *)

(** The IPv4 settings of the modem, as TLVs. *)
Definition ipv4_tlvs (i : IPV4_T) : list tlv :=
  [Tlv 0x15 (le_bytes 4 (DnsPrimary i)); Tlv 0x16 (le_bytes 4 (DnsSecondary i));
   Tlv 0x1E (le_bytes 4 (Address i)); Tlv 0x20 (le_bytes 4 (Gateway i));
   Tlv 0x21 (le_bytes 4 (SubnetMask i)); Tlv 0x29 (le_bytes 4 (Mtu i))].

Definition ipv4_ok (i : IPV4_T) : Prop :=
  Forall (λ x, 0 ≤ x < 2 ^ 32) [DnsPrimary i; DnsSecondary i; Address i; Gateway i; SubnetMask i; Mtu i].

Lemma runtime_request tid :
  ComposeQMUXMsg_buf QMUX_TYPE_WDS 0x2D tid (Some WdsGetRuntimeSettingReq) =
  Done (wire 0 0 QMUX_TYPE_WDS 0 0x2D tid [Tlv 0x10 (le_bytes 4 RUNTIME_SETTINGS_MASK)]).
Proof.
  unfold ComposeQMUXMsg_buf, wire, wire_header, with_header, put_le16. simpl le_bytes.
  generalize (tid mod 256), ((tid / 256) mod 256). intros. reflexivity.
Qed.

Lemma query_request tid :
  ComposeQMUXMsg_buf QMUX_TYPE_WDS 0x22 tid None = Done (wire 0 0 QMUX_TYPE_WDS 0 0x22 tid []).
Proof.
  unfold ComposeQMUXMsg_buf, wire, wire_header, with_header, put_le16. simpl le_bytes.
  generalize (tid mod 256), ((tid / 256) mod 256). intros. reflexivity.
Qed.

Lemma skip_tlv m type k s (Φ : () → cm → Prop) :
  GetTLV m type = Done None → Φ () s → runs (with_tlv m type k) s Φ.
Proof. intros E HΦ. apply runs_bind. eapply runs_lift; [exact E|]. by apply runs_ret. Qed.

Lemma take_ipv4_tlv m type f pos a s (Φ : () → cm → Prop) :
  GetTLV m type = Done (Some pos) → get_le32 m (pos + 3) = Done a →
  Φ () (upd_prof (λ p, set_ipv4 (f a (ipv4 p)) p) s) → runs (take_ipv4 m type f) s Φ.
Proof.
  intros E Ea HΦ. apply runs_bind. eapply runs_lift; [exact E|]. apply runs_bind.
  eapply runs_lift; [exact Ea|]. by apply runs_modify.
Qed.

(** All settings are taken from the response. *)
Lemma runtime_settings_prompt f1 f2 t id n tid i s :
  ipv4_ok i → blen (encode_tlvs (success :: ipv4_tlvs i)) < 60000 →
  Forall tlv_ok (success :: ipv4_tlvs i) →
  runs (runtime_settings (wire f1 f2 t id n tid (success :: ipv4_tlvs i)) IpFamilyV4) s
    (λ _ s', s' = upd_prof (set_ipv4 i) s).
Proof.
  intros Hi Hl Hok. apply Forall_cons in Hi as (H1 & Hi). apply Forall_cons in Hi as (H2 & Hi).
  apply Forall_cons in Hi as (H3 & Hi). apply Forall_cons in Hi as (H4 & Hi).
  apply Forall_cons in Hi as (H5 & Hi). apply Forall_cons in Hi as (H6 & _).
  set (ts := success :: ipv4_tlvs i) in *. set (m := wire f1 f2 t id n tid ts).
  assert (∀ type, type < 256 → GetTLV m type = Done (fst <$> find_at type ts OFF_TLV)) as Hg
    by (intros; by apply wire_GetTLV).
  assert (∀ type pos v, 0 ≤ v < 2 ^ 32 → find_at type ts OFF_TLV = Some (pos, le_bytes 4 v) →
    get_le32 m (pos + 3) = Done v) as Hv by (intros; by eapply wire_value32).
  unfold runtime_settings, take_pcscf.
  apply runs_bind, skip_tlv; [by rewrite Hg|].
  apply runs_bind, skip_tlv; [by rewrite Hg|].
  apply runs_bind. eapply take_ipv4_tlv; [by rewrite Hg|by apply (Hv 0x15 _ _ H1)|].
  apply runs_bind. eapply take_ipv4_tlv; [by rewrite Hg|by apply (Hv 0x16 _ _ H2)|].
  apply runs_bind. eapply take_ipv4_tlv; [by rewrite Hg|by apply (Hv 0x20 _ _ H4)|].
  apply runs_bind. eapply take_ipv4_tlv; [by rewrite Hg|by apply (Hv 0x21 _ _ H5)|].
  apply runs_bind. eapply take_ipv4_tlv; [by rewrite Hg|by apply (Hv 0x1E _ _ H3)|].
  unfold take_ipv6. do 4 (apply runs_bind, skip_tlv; [by rewrite Hg|]).
  apply runs_bind. eapply runs_lift; [by rewrite Hg|]. cbn.
  apply runs_bind. eapply runs_lift; [by apply (Hv 0x29 _ _ H6)|]. apply runs_modify. by destruct i.
Qed.

Lemma response_accepted f1 f2 t id n tid ts (k : list Z → cmm Z) s Φ :
  runs (k (wire f1 f2 t id n tid (success :: ts))) s Φ →
  runs (qmi_rsp_check_and_return (0, Ptr (wire f1 f2 t id n tid (success :: ts))) k) s Φ.
Proof.
  intros Hk. destruct (wire_result f1 f2 t id n tid ts) as [E16 E18]. unfold qmi_rsp_check_and_return.
  change (0 <? 0) with false. cbv iota. apply runs_bind. eapply runs_lift; [exact E16|].
  apply runs_bind. eapply runs_lift; [exact E18|]. exact Hk.
Qed.

Lemma kept_prof s f : kept s (upd_prof f s).
Proof. by split; try done; intros []. Qed.

(** The address of a call that is up. *)
Lemma get_ip_prompt `{!Prompt} id i s :
  listens s → has_client s QMUX_TYPE_WDS id → WdsConnectionIPv4Handle (st s) ≠ 0 →
  modem QMUX_TYPE_WDS 0x2D = ipv4_tlvs i → ipv4_ok i →
  runs (requestGetIPAddress IpFamilyV4) s (λ r s', r = 0 ∧ kept s s' ∧
    prof s' = set_ipv4 i (prof s) ∧ st s' = set_tid (next_tid s) (st s)).
Proof.
  intros Hli Hid Hh Hm Hi. unfold requestGetIPAddress. apply runs_bind, runs_get.
  apply runs_bind. change (IpFamilyV4 =? IpFamilyV4) with true. cbv iota. apply runs_modify.
  cbn [orb andb]. unfold handle_of. change (IpFamilyV4 =? IpFamilyV4) with true. cbv iota.
  destruct (Z.eqb_spec (WdsConnectionIPv4Handle (st s)) 0); [done|].
  set (s1 := upd_prof _ s). assert (kept s s1) as K1 by apply kept_prof.
  apply runs_bind. eapply runs_mono.
  { eapply (exchange_prompt QMUX_TYPE_WDS 0x2D _ _ id s1); [by apply K1|done|done|done| |apply runtime_request].
    done. }
  intros r s2 (-> & K2 & Hp2 & Hs2). change (wire_service QMUX_TYPE_WDS) with QMUX_TYPE_WDS. rewrite Hm.
  destruct (reply_tlvs QMUX_TYPE_WDS 0x2D) as [Hok Hl]. rewrite Hm in Hok, Hl.
  apply response_accepted, runs_bind. eapply runs_mono; [by apply runtime_settings_prompt|].
  intros [] s3 ->. apply runs_ret. split; [done|].
  split; [by etrans; [exact K1|etrans; [exact K2|apply kept_prof]]|].
  split; [|simpl; by rewrite Hs2]. simpl. by rewrite Hp2.
Qed.

(** The state of the call: the modem reports it as connected. *)
Lemma query_prompt `{!Prompt} id status s :
  listens s → has_client s QMUX_TYPE_WDS id →
  modem QMUX_TYPE_WDS 0x22 = [Tlv 0x01 [QWDS_PKT_DATA_CONNECTED]] →
  runs (requestQueryDataCall status IpFamilyV4) s (λ r s', r = (0, QWDS_PKT_DATA_CONNECTED) ∧ kept s s' ∧
    prof s' = prof s ∧ st s' = set_tid (next_tid s) (st s)).
Proof.
  intros Hli Hid Hm. unfold requestQueryDataCall. apply runs_bind. eapply runs_mono.
  { eapply (exchange_prompt QMUX_TYPE_WDS 0x22 _ [] id s); [done|done|done|done|done|apply query_request]. }
  intros r s2 (-> & K2 & Hp2 & Hs2). change (wire_service QMUX_TYPE_WDS) with QMUX_TYPE_WDS. rewrite Hm.
  destruct (reply_tlvs QMUX_TYPE_WDS 0x22) as [Hok Hl]. rewrite Hm in Hok, Hl.
  set (ts := success :: [Tlv 0x01 [QWDS_PKT_DATA_CONNECTED]]) in *.
  cbv beta iota. change (0 <? 0) with false. cbv iota.
  destruct (wire_result 0x80 0x02 QMUX_TYPE_WDS id 0x22 (next_tid s) [Tlv 0x01 [QWDS_PKT_DATA_CONNECTED]])
    as [E16 E18].
  apply runs_bind. eapply runs_lift; [exact E16|]. apply runs_bind. eapply runs_lift; [exact E18|].
  change (negb (0 =? 0) || negb (0 =? 0)) with false. cbv iota.
  apply runs_bind. eapply runs_lift; [by apply wire_GetTLV|]. cbn.
  apply runs_bind, runs_bind. eapply runs_lift.
  { by apply (wire_value8 _ _ _ _ _ _ ts 0x01 20 QWDS_PKT_DATA_CONNECTED []). }
  apply runs_bind. eapply runs_lift.
  { by apply (get_value_length _ ts 0x01 20 [QWDS_PKT_DATA_CONNECTED] (length_wire_header _ _ _ _ _ _ _)). }
  apply runs_ret. apply runs_bind, runs_ret, runs_ret. done.
Qed.

(** ** The main loop *)

Lemma kept_client s s' t id : kept s s' → has_client s t id → has_client s' t id.
Proof. intros K [E Hr]. split; [|done]. by rewrite (kept_clients _ _ K). Qed.

Lemma clock_runs s (Φ : Z → cm → Prop) :
  (∀ w now, ulong (clock (world s)).2 = now → Φ now (set_world w s)) → runs clock_msec s Φ.
Proof.
  intros HΦ. unfold clock_msec, ask. destruct (clock (world s)) as [w t] eqn:E.
  eexists _, _. unfold mbind, stm_bind. rewrite E. split; [reflexivity|]. apply HΦ. done.
Qed.

Lemma kept_world w s : kept s (set_world w s).
Proof. by split; try done; intros []. Qed.

(** What the modem says about a call with handle [h] and settings [i]. *)
Record call_modem (h : Z) (i : IPV4_T) : Prop := CallModem {
  cm_start : modem QMUX_TYPE_WDS 0x20 = [Tlv 0x01 (le_bytes 4 h)];
  cm_status : modem QMUX_TYPE_WDS 0x22 = [Tlv 0x01 [QWDS_PKT_DATA_CONNECTED]];
  cm_settings : modem QMUX_TYPE_WDS 0x2D = ipv4_tlvs i;
  cm_handle : 0 < h < 2 ^ 32;
  cm_ok : ipv4_ok i
}.

(** A manager that may dial: an open channel with a client, IPv4 only. *)
Record may_dial (id : Z) (s : cm) : Prop := MayDial {
  md_listens : listens s;
  md_client : has_client s QMUX_TYPE_WDS id;
  md_v4 : enable_ipv4 (cfg s) = true;
  md_v6 : enable_ipv6 (cfg s) = false
}.

Lemma kept_dial id s s' : kept s s' → may_dial id s → may_dial id s'.
Proof.
  intros K []. split; [by apply K|by eapply kept_client|by rewrite (kept_cfg _ _ K)..].
Qed.

Lemma start_prompt `{!Prompt} fuel h i id l s :
  call_modem h i → may_dial id s → fits s IpFamilyV4 →
  PSAttachedState l = 1 → connected (IPv4ConnectionStatus l) = false →
  (∀ w, SetupCallAllowTime l ≤ ulong (clock w).2) →
  runs (sig_event_start (qmi_request_ops fuel) l) s (λ l' s', kept s s' ∧ ipv4 (prof s') = i ∧
    WdsConnectionIPv4Handle (st s') = h ∧
    PSAttachedState l' = 1 ∧ IPv4ConnectionStatus l' = QWDS_PKT_DATA_CONNECTED ∧ SetupCallFail l' = 0).
Proof.
  intros [Hm1 Hm2 Hm3 Hh Hi] Hd Hfit Hps Hst Hnow. unfold sig_event_start. apply runs_bind, runs_get.
  rewrite Hps. change (negb (1 =? 1)) with false. cbn [andb].
  apply runs_bind, clock_runs. intros w now Hw. specialize (Hnow (world s)). rewrite Hw in Hnow.
  replace (now <? SetupCallAllowTime l) with false by lia.
  set (s1 := set_world w s). assert (kept s s1) as K1 by apply kept_world.
  pose proof (kept_dial _ _ _ K1 Hd) as Hd1. apply runs_bind. unfold start_v4.
  apply runs_bind, runs_get. rewrite (md_v4 _ _ Hd1), Hst. cbn [andb negb].
  apply runs_bind. unfold setup_v4. apply runs_bind. eapply runs_mono.
  { apply (setup_prompt IpFamilyV4 id h s1); [apply Hd1|apply Hd1|exact Hfit|done|lia]. }
  intros r s2 (-> & K2 & Hp2 & Hs2). apply runs_bind, runs_get.
  change (0 <? 0) with false. cbn [andb]. apply runs_ret.
  pose proof (kept_dial _ _ _ K2 Hd1) as Hd2.
  unfold finish_call. change (negb (0 =? 0)) with false. cbv iota. apply runs_bind. eapply runs_mono.
  { apply (get_ip_prompt id i s2); [apply Hd2|apply Hd2| |done|done]. rewrite Hs2. simpl. lia. }
  intros r s3 (-> & K3 & Hp3 & Hs3). apply runs_ret. change (0 =? 0) with true. cbv iota.
  assert (kept s s3) as K by (do 2 (etrans; [eassumption|]); done).
  pose proof (kept_dial _ _ _ K Hd) as Hd3.
  apply runs_bind. unfold start_v6. apply runs_bind, runs_get. rewrite (md_v6 _ _ Hd3). cbn [andb].
  apply runs_ret. unfold schedule_redial. apply runs_bind, runs_get.
  unfold missing. rewrite (md_v4 _ _ Hd3), (md_v6 _ _ Hd3). cbn.
  apply runs_bind, clock_runs. intros w' now' _. apply runs_ret.
  split; [etrans; [exact K|apply kept_world]|]. simpl. rewrite Hp3, Hs3, Hs2. done.
Qed.

(** The bits of the link. *)
Definition LINK_V4 : Z := 0x10.

Lemma link_up s (Φ : () → cm → Prop) :
  dhcp_of (out s) = s_link s →
  (∀ s', s_link s' = LINK_V4 ∧ dhcp_of (out s') = LINK_V4 ∧ ipv4 (prof s') = ipv4 (prof s) ∧ st s' = st s ∧
    sock s' = sock s ∧ cfg s' = cfg s → Φ () s') →
  runs (usbnet_link_change LINK_V4) s Φ.
Proof.
  intros Hd HΦ. unfold usbnet_link_change. apply runs_bind, runs_get.
  destruct (Z.eqb_spec (s_link s) LINK_V4) as [E|E]; [apply runs_ret, HΦ; split_and!; congruence|].
  apply runs_bind, runs_modify. cbn. apply runs_bind, runs_ret, runs_bind, runs_modify, runs_modify, HΦ. done.
Qed.

Lemma check_prompt `{!Prompt} fuel h i id l s :
  call_modem h i → may_dial id s → WdsConnectionIPv4Handle (st s) = h → ipv4 (prof s) = i → Address i ≠ 0 →
  PSAttachedState l = 1 → connected (IPv4ConnectionStatus l) = true →
  dhcp_of (out s) = s_link s →
  runs (sig_event_check (qmi_request_ops fuel) l) s (λ l' s', s_link s' = LINK_V4 ∧ dhcp_of (out s') = LINK_V4 ∧
    ipv4 (prof s') = i ∧ WdsConnectionIPv4Handle (st s') = h ∧
    connected (IPv4ConnectionStatus l') = true ∧ SetupCallFail l' = SetupCallFail l ∧ sock s' = sock s).
Proof.
  intros [Hm1 Hm2 Hm3 Hh Hi] Hd Hhs His Ha Hps Hst Hdh. unfold sig_event_check. simpl optional.
  do 3 (apply runs_bind, runs_ret). rewrite Hps. change (negb (1 =? 1)) with false. cbv iota.
  apply runs_bind, runs_ret, runs_bind. unfold check_v4. apply runs_bind, runs_get.
  rewrite (md_v4 _ _ Hd).
  assert (IPv4ConnectionStatus l = QWDS_PKT_DATA_CONNECTED) as -> by (unfold connected in Hst; lia).
  change (negb (true && negb (disconnected QWDS_PKT_DATA_CONNECTED))) with false. cbv iota.
  apply runs_bind. eapply runs_mono; [apply (query_prompt id); [apply Hd|apply Hd|done]|].
  intros r s1 (-> & K1 & Hp1 & Hs1). cbv beta iota. change (negb (0 =? 0)) with false. cbv iota.
  apply runs_bind, runs_get. change (connected QWDS_PKT_DATA_CONNECTED) with true. cbn [andb].
  rewrite Hp1, His. destruct (Z.eqb_spec (Address i) 0); [done|]. apply runs_bind, runs_ret.
  change (connected QWDS_PKT_DATA_CONNECTED) with true. cbv iota.
  pose proof (kept_dial _ _ _ K1 Hd) as Hd1.
  apply runs_bind. unfold check_ipv4_address. apply runs_bind, runs_get. cbn [kind qmi_request_ops]. cbv zeta.
  apply runs_bind. eapply runs_mono.
  { apply (get_ip_prompt id i s1); [apply Hd1|apply Hd1| |done|done]. rewrite Hs1. simpl. lia. }
  intros r s2 (-> & K2 & Hp2 & Hs2). change (0 =? 0) with true. cbv iota.
  apply runs_bind, runs_get, runs_ret. rewrite Hp2, Hp1, His. cbn [ipv4 set_ipv4]. rewrite Z.eqb_refl.
  apply runs_ret. assert (kept s s2) as K by by etrans.
  pose proof (kept_dial _ _ _ K Hd) as Hd2.
  apply runs_bind. unfold check_v6. apply runs_bind, runs_get. rewrite (md_v6 _ _ Hd2). cbn [andb negb].
  apply runs_ret. cbv zeta. apply runs_bind.
  change (link_of _) with (Some LINK_V4). cbv iota.
  apply link_up; [by rewrite (kept_dhcp _ _ K), (kept_link _ _ K)|].
  intros s3 (Hl3 & Hd3 & Hp3 & Hs3 & Hk3 & Hc3). apply runs_bind, runs_get.
  unfold missing. rewrite Hc3, (md_v4 _ _ Hd2), (md_v6 _ _ Hd2). cbn.
  apply runs_bind, runs_ret, runs_ret. split; [done|]. split; [done|].
  rewrite Hp3, Hs3, Hk3, Hs2, Hs1, (kept_sock _ _ K), Hp2. done.
Qed.

(** A START and the CHECK behind it. *)
Lemma dial_prompt `{!Prompt} fuel h i id l s :
  call_modem h i → may_dial id s → fits s IpFamilyV4 → Address i ≠ 0 →
  PSAttachedState l = 1 → connected (IPv4ConnectionStatus l) = false →
  (∀ w, SetupCallAllowTime l ≤ ulong (clock w).2) → dhcp_of (out s) = s_link s →
  runs (r ← on_signal (qmi_request_ops fuel) SIG_EVENT_START l;
        match r with
        | Go l => on_signal (qmi_request_ops fuel) SIG_EVENT_CHECK l
        | Main_quit => mret Main_quit
        end) s
    (λ r s', s_link s' = LINK_V4 ∧ dhcp_of (out s') = LINK_V4 ∧ ipv4 (prof s') = i ∧
      WdsConnectionIPv4Handle (st s') = h ∧ ∃ l', r = Go l' ∧
      connected (IPv4ConnectionStatus l') = true ∧ SetupCallFail l' = 0).
Proof.
  intros Hm Hd Hfit Ha Hps Hst Hnow Hdh. unfold on_signal.
  assert (∀ s, may_dial id s → may_dial id (upd_sock (set_alarm None) s)) as Hal by (intros ? [[] ? ? ?]; split; [by split|done..]).
  apply runs_bind, runs_bind, runs_modify. cbn [Z.eqb SIG_EVENT_START]. cbv iota. apply runs_fmap.
  eapply runs_mono; [by apply (start_prompt fuel h i id); auto|].
  intros l1 s1 (K1 & Hi1 & Hh1 & Hps1 & Hst1 & Hf1). apply runs_bind, runs_modify.
  change (SIG_EVENT_CHECK =? SIG_EVENT_START) with false. change (SIG_EVENT_CHECK =? SIG_EVENT_CHECK) with true.
  cbv iota. apply runs_fmap. eapply runs_mono.
  { apply (check_prompt fuel h i id); try done.
    - apply Hal. eapply kept_dial; [exact K1|]. by apply Hal.
    - by rewrite Hst1.
    - change (dhcp_of (out s1) = s_link s1). by rewrite (kept_dhcp _ _ K1), (kept_link _ _ K1). }
  intros l2 s2 (Hl2 & Hd2 & Hi2 & Hh2 & Hst2 & Hf2 & _). split_and!; try done.
  exists l2. split_and!; [done..|]. congruence.
Qed.
End Modem.
