(* ===== verification/CmFaults.v ===== *)
(** * The connection manager: a device that does not answer

    What the exchange returns when the device is silent, and when it hangs up while
    the request waits. *)

From S2P Require Import Prelude Kernel GobiQmi CmMsg CmDev CmReq CmMain CmFrame CmLink CmWire CmExchange CmDial.

#[local] Open Scope Z_scope.
#[local] Open Scope c_scope.

Import Qmi (tlv, Tlv, encode_tlvs).

Section Faults.
Context `{Env}.

(** The device takes every request; [hs] is what happens while it waits. *)
Class Takes (hs : list happening) : Prop := {
  takes_malloc w : ∃ w', malloc_ok w = (w', true);
  takes_react w t id n tid ts : t ≠ QMUX_TYPE_CTL → 0 ≤ n < 2 ^ 16 → ∃ w' p,
    let req := wire 0 0 t id n tid ts in react w req = (w', Reaction p true (blen req) hs false)
}.

(** The state in which a request waits. *)
Definition asked (s : cm) (req : list Z) (w : World) : cm :=
  Cm (cfg s) (prof s) (set_tid (next_tid s) (st s))
    (set_request (Some req) (set_response None (chan s))) (sock s) (s_link s) (Sent req :: out s) w.

(** The exchange is the wait, from that state. *)
Lemma exchange_takes hs `{!Takes hs} t n fill ts id s :
  listens s → 0 < t < 256 → has_client s t id → 0 ≤ n < 2 ^ 16 → blen (encode_tlvs ts) < 60000 →
  ComposeQMUXMsg_buf t n (next_tid s) fill = Done (wire 0 0 t 0 n (next_tid s) ts) →
  ∃ req w, exchange t n fill s =
    (woken ← happen_all hs;
     if woken : bool then
       s ← get_state;
       mret (0, match s_pResponse (chan s) with Some resp => Ptr resp | None => Null end)
     else mret (ETIMEDOUT, Null)) (asked s req w).
Proof.
  intros Hli Ht [Hid Hr] Hn Hts Hc.
  assert (wire_service t ≠ QMUX_TYPE_CTL) as Hs.
  { unfold wire_service, QMUX_TYPE_CTL, QMUX_TYPE_WDS. destruct (_ =? _); lia. }
  set (s1 := upd_st (set_tid (next_tid s)) s).
  destruct (takes_malloc (world s)) as [w1 Hw1].
  destruct (takes_react w1 (wire_service t) id n (next_tid s) ts Hs Hn) as (w2 & p & Hreact). cbv zeta in Hreact.
  set (req := wire 0 0 (wire_service t) id n (next_tid s) ts) in *. exists req, w2.
  unfold exchange, ComposeQMUXMsg.
  erewrite done_bind.
  2: { erewrite done_bind by apply get_tid_done. cbv beta.
       erewrite done_bind by (unfold lift; rewrite Hc; reflexivity). cbv beta.
       erewrite done_bind by (unfold malloc, ask; simpl; rewrite Hw1; reflexivity). reflexivity. }
  cbv beta. unfold QmiThreadSendQMITimeout. cbv iota. etransitivity; [by eapply done_bind|]. cbv beta.
  etransitivity; [eapply done_bind|].
  { eapply (send_answered _ _ t id req w2); [apply Hli|apply wire_type|unfold QMUX_TYPE_CTL; lia|exact Hid|lia| | | | |];
         [apply addressed_wire; lia|by apply wire_length|exact Hreact|done|done]. }
  cbv beta iota. change (negb (0 =? 0)) with false. cbv iota. unfold wait_response.
  unfold asked, mbind, stm_bind. cbn [r_happens r_spurious].
  destruct (happen_all hs _) as [[[] s3]| |]; simpl; try done. by destruct (s_pResponse (chan s3)).
Qed.

(** A silent device: the request is given up. *)
Lemma exchange_silent `{!Takes nil} t n fill ts id s :
  listens s → 0 < t < 256 → has_client s t id → 0 ≤ n < 2 ^ 16 → blen (encode_tlvs ts) < 60000 →
  ComposeQMUXMsg_buf t n (next_tid s) fill = Done (wire 0 0 t 0 n (next_tid s) ts) →
  ∃ req w, exchange t n fill s = Done ((ETIMEDOUT, Null), asked s req w).
Proof.
  intros Hli Ht Hid Hn Hts Hc.
  destruct (exchange_takes [] t n fill ts id s Hli Ht Hid Hn Hts Hc) as (req & w & E). by exists req, w.
Qed.

(** What a hang-up leaves: the thread is gone, the device closed, the request freed. *)
Definition gone (s : cm) : Prop :=
  cdc_wdm_open (chan s) = false ∧ thread_running (chan s) = false ∧
  RIL_INDICATE_DEVICE_DISCONNECTED ∈ omap (λ e, match e with Event n => Some n | _ => None end) (events (sock s)).

(** A hang-up wakes the waiting request: it ends without an error and without a
    response. *)
Lemma exchange_hangup `{!Takes (cons Dev_hup nil)} t n fill ts id s :
  listens s → 0 < t < 256 → has_client s t id → 0 ≤ n < 2 ^ 16 → blen (encode_tlvs ts) < 60000 →
  ComposeQMUXMsg_buf t n (next_tid s) fill = Done (wire 0 0 t 0 n (next_tid s) ts) →
  runs (exchange t n fill) s (λ r s', r = (0, Null) ∧ gone s' ∧ cfg s' = cfg s ∧ prof s' = prof s ∧
    st s' = set_tid (next_tid s) (st s)).
Proof.
  intros Hli Ht Hid Hn Hts Hc.
  destruct (exchange_takes [Dev_hup] t n fill ts id s Hli Ht Hid Hn Hts Hc) as (req & w & E).
  eapply runs_exact; [rewrite E|].
  - unfold happen_all, happen, QmiWwanThread_quit, QmiThreadRecvQMI, asked, mbind, stm_bind. simpl.
    rewrite (li_thread s Hli). simpl. reflexivity.
  - split; [done|]. split; [|done]. split_and!; try done. simpl. rewrite omap_app. apply elem_of_app. right. left.
Qed.
End Faults.
