(* ===== verification/CmModem.v ===== *)
(** * A modem for the connection manager

    Surroundings for the examples: a modem that answers the requests, says nothing,
    or hangs up, each depending on the request; a clock; and a manager to run with
    it. *)

From S2P Require Import Prelude Kernel GobiQmi CmMsg CmDev CmReq CmMain CmFrame CmLink CmWire CmExchange CmDial CmFaults.

#[local] Open Scope Z_scope.
#[local] Open Scope c_scope.

Import Qmi (tlv, Tlv, encode_tlvs).

Inductive mood := Answers | Silent | Hangs_up.

(** The time, and what happens in the coming turns. *)
Record modem_world := ModemWorld { mw_now : Z; mw_turns : list turn }.

Definition quiet : turn := Turn false [] (Revents false false) (Revents false false).

Definition example_ipv4 : IPV4_T := IPv4 0x0A000002 0x0A000001 0xFFFFFF00 0x08080808 0x08080404 1500.

(** The TLVs of the answers: service and message. *)
Definition example_tlvs (t n : Z) : list tlv :=
  if t =? QMUX_TYPE_WDS then
    match n with
    | 0x20 => [Tlv 0x01 (le_bytes 4 0x1234)]
    | 0x22 => [Tlv 0x01 [QWDS_PKT_DATA_CONNECTED]]
    | 0x2D => ipv4_tlvs example_ipv4
    | 0x2A => [Tlv 0x01 [1; 0; 1; 0]]
    | 0x2B => [Tlv 0x25 [1]; Tlv 0x11 [0]]
    | _ => []
    end
  else if t =? QMUX_TYPE_NAS then [Tlv 0x19 ([1; 2] ++ replicate 27 0)]
  else if t =? QMUX_TYPE_UIM then [Tlv 0x10 (replicate 30 0)]
  else [].

Definition byte_at (b : list Z) (i : nat) : Z := default 0 (b !! i).
Definition word_at (b : list Z) (i : nat) : Z := byte_at b i + 256 * byte_at b (S i).

(** The answer to a control request: a client of its own for every service. *)
Definition control_reply (req : list Z) : list Z :=
  let tlvs := encode_tlvs (success ::
    (if word_at req 8 =? 0x22 then [Tlv 0x01 [byte_at req 15; byte_at req 15 + 1]] else [Tlv 0x01 [0]])) in
  [0x01] ++ le_bytes 2 (blen tlvs + 11) ++ [0x80; 0; 0; 0x01; byte_at req 7] ++ le_bytes 2 (word_at req 8) ++
  le_bytes 2 (blen tlvs) ++ tlvs.

Definition example_reply (req : list Z) : list Z :=
  let t := byte_at req 4 in
  if t =? QMUX_TYPE_CTL then control_reply req else
  let n := word_at req 9 in
  wire 0x80 0x02 t (byte_at req 5) n (word_at req 7) (success :: example_tlvs t n).

Definition example_react (moods : Z → Z → mood) (w : modem_world) (req : list Z) : modem_world * reaction :=
  (w, Reaction 1 true (blen req)
        (match moods (byte_at req 4) (word_at req 9) with
         | Answers => [Dev_read (example_reply req)]
         | Silent => []
         | Hangs_up => [Dev_hup]
         end) false).

(** A turn takes fifteen seconds. *)
Definition example_idle (w : modem_world) : modem_world * turn :=
  match mw_turns w with
  | [] => (w, quiet)
  | t :: ts => (ModemWorld (mw_now w + 15000) ts, t)
  end.

Definition modem_env (bits : Z) (moods : Z → Z → mood) : Env :=
  {| World := modem_world; ulong_bits := bits; react := example_react moods;
     clock w := (w, mw_now w); malloc_ok w := (w, true); idle := example_idle |}.

Definition good_modem : Env := modem_env 64 (λ _ _, Answers).

(** The modem that answers is prompt. *)
Lemma wire_bytes f1 f2 t id n tid ts : 0 ≤ n < 2 ^ 16 →
  byte_at (wire f1 f2 t id n tid ts) 4 = t ∧ byte_at (wire f1 f2 t id n tid ts) 5 = id ∧
  word_at (wire f1 f2 t id n tid ts) 9 = n ∧ le_bytes 2 (word_at (wire f1 f2 t id n tid ts) 7) = le_bytes 2 tid.
Proof.
  intros Hn. split; [done|]. split; [done|]. split.
  - transitivity (le_val (le_bytes 2 n)); [simpl; rewrite Z.add_0_r; done|].
    rewrite le_val_le_bytes. by apply Z.mod_small.
  - transitivity (le_bytes 2 (le_val (le_bytes 2 tid))); [simpl; rewrite Z.add_0_r; done|].
    apply (le_bytes_le_val (le_bytes 2 tid)), le_bytes_ok.
Qed.

Lemma wire_tid_bytes f1 f2 t id n tid tid' ts :
  le_bytes 2 tid = le_bytes 2 tid' → wire f1 f2 t id n tid ts = wire f1 f2 t id n tid' ts.
Proof. intros E. unfold wire, wire_header. by rewrite E. Qed.

#[local] Instance tlv_ok_dec t : Decision (Qmi.tlv_ok t).
Proof. unfold Qmi.tlv_ok, bytes_ok. apply _. Defined.

Lemma example_tlvs_ok t n : Forall Qmi.tlv_ok (example_tlvs t n) ∧ blen (encode_tlvs (example_tlvs t n)) ≤ 3900.
Proof.
  unfold example_tlvs. repeat case_match; (split; [apply (bool_decide_unpack _); by vm_compute|done]).
Qed.

#[export] Instance good_modem_prompt : Prompt (H := good_modem) example_tlvs.
Proof.
  split.
  - intros w. by exists w.
  - apply example_tlvs_ok.
  - intros w t id n tid ts Ht Hn. destruct (wire_bytes 0 0 t id n tid ts Hn) as (E4 & E5 & E9 & E7).
    exists w, 1, false. cbv zeta. simpl. unfold example_react, example_reply.
    rewrite E4, E5, E9. destruct (Z.eqb_spec t QMUX_TYPE_CTL); [done|].
    by rewrite (wire_tid_bytes _ _ _ _ _ _ _ _ E7).
Qed.

(** The ones that do not answer take every request. *)
Definition silent_modem : Env := modem_env 64 (λ _ _, Silent).
Definition hanging_modem : Env := modem_env 64 (λ _ _, Hangs_up).

#[export] Instance silent_modem_takes : Takes (H := silent_modem) nil.
Proof. split; [intros w; by exists w|]. intros w t id n tid ts _ _. by exists w, 1. Qed.
#[export] Instance hanging_modem_takes : Takes (H := hanging_modem) (cons Dev_hup nil).
Proof. split; [intros w; by exists w|]. intros w t id n tid ts _ _. by exists w, 1. Qed.

(** ** A manager *)

Definition example_cfg (v4 v6 : bool) : config := Config None [] [0x77] false 1 v4 v6 0 0 0 false None.

Definition zero_channel (clients : list Z) (up : bool) : channel :=
  Channel None None up clients up false (replicate 4096 0).

(** The state at the start of the program. *)
Definition example_cm `{Env} (c : config) (cred : credentials) (w : World) : cm :=
  Cm c (ProfileState cred 0 0 0 0 0 0 0 zero_ipv4 zero_ipv6 ([], []) ([], []) 0 0 [] (OldProfile [] [] [] 0 0))
    (Statics 0 0 false 0 0 1 0 0 5) (zero_channel (replicate 255 0) false) (Sockets [] [] [] None 0) (-1) [] w.

Definition internet : credentials := Credentials (Some [0x33; 0x67; 0x6E; 0x65; 0x74]) None None 0.

(** The device thread and its clients are there, and IPv4 is wanted. *)
Definition dialling_cm `{Env} (w : World) : cm :=
  upd_chan (λ _, zero_channel (<[1%nat := 2]> (replicate 255 0)) true)
    (example_cm (example_cfg true false) internet w).

Definition dialling_locals : locals := Locals 1 QWDS_PKT_DATA_DISCONNECTED QWDS_PKT_DATA_DISCONNECTED 0 0.

(** The user stops the program in the third turn. *)
Definition stop_later : list turn :=
  [quiet; quiet; Turn false [Sig_stop; Ctl_read] (Revents false false) (Revents false false);
   quiet; Turn false [Ctl_read] (Revents false false) (Revents false false)].
