(* ===== verification/CmProps.v ===== *)
(** * The connection manager: properties

    What the preceding files add up to: the link follows the data calls, a call is
    dialled, attempts are spaced out, requests and responses fit together; and what
    happens when the device does not answer. *)

From S2P Require Import Prelude Kernel GobiQmi CmMsg CmDev CmReq CmMain CmFrame CmLink CmWire CmTyped CmExchange CmDial CmFaults CmModem.

#[local] Open Scope Z_scope.
#[local] Open Scope c_scope.

Import Qmi (tlv, Tlv, encode_tlvs).

(** ** The pause before the next attempt *)




Section Redial.
Context `{Env}.




End Redial.

(** ** The link *)

(** The state of the link and the DHCP client, for the enabled families. *)
Definition link_follows `{Env} (c : config) (s : cm) : Prop :=
  s_link s ∈ links c ∧ dhcp_of (out s) = s_link s.

(** C12: Invariant of the whole program, for any table of operations that leaves the
    state of the link alone ([OpsFrame], proved for those of QMI): if [qmi_main]
    returns, or its loop has made any number of turns, then whatever the device
    and the user did the DHCP client runs exactly for the state of the link, which
    has only enabled families; and when [qmi_main] has returned the link is down. *)
Theorem link_invariant `{Env} ops `{!OpsFrame ops} fuel turns opened s :
  link_follows (cfg s) s → s_link s ≤ 0 →
  ends (qmi_main ops fuel turns opened) s (λ r s',
    link_follows (cfg s) s' ∧ (r ≠ None → s_link s' ≤ 0 ∧ dhcp_of (out s') ≤ 0)).
Proof.
  intros [Hk Hd] Hl. eapply ends_mono; [by apply qmi_main_ok|]. intros r s' (Hc & [Hk' Hd'] & Hr).
  rewrite Hc in Hk'. split; [done|]. rewrite Hd'. auto.
Qed.

#[local] Existing Instance good_modem.

(** A program that is started, and stopped in the third turn. *)
Definition example_start : cm :=
  example_cm (H := good_modem) (example_cfg true false) internet (ModemWorld 0 stop_later).

(** It ends. *)
Lemma example_run : ∃ s', qmi_main (qmi_request_ops 5) 5 10 true example_start = Done (Some 0, s') ∧ length (out s') = 25%nat.
Proof.
  assert (match qmi_main (qmi_request_ops 5) 5 10 true example_start with
          | Done (Some 0, s') => length (out s') = 25%nat | _ => False end) as E by (vm_compute; reflexivity).
  revert E. destruct (qmi_main _ _ _ _ _) as [[[[]|] s']| |]; try done. by exists s'.
Qed.

Lemma link_invariant_witness :
  ∃ s', qmi_main (qmi_request_ops 5) 5 10 true example_start = Done (Some 0, s') ∧ length (out s') = 25%nat ∧
    s_link s' ≤ 0 ∧ dhcp_of (out s') ≤ 0.
Proof.
  destruct example_run as (s' & E & Hn). exists s'. split; [exact E|]. split; [exact Hn|].
  assert (link_follows (cfg example_start) example_start) as Hf by (split; [by left|done]).
  assert (s_link example_start ≤ 0) as Hl by done.
  apply (proj2 (link_invariant (qmi_request_ops 5) 5 10 true example_start Hf Hl (Some 0) s' E)). discriminate.
Defined.

(** C14: What the periodic check does when it ends, for any table of operations that
    leaves the state of the link alone ([OpsFrame], proved for those of QMI) and
    whatever the device answers: with both families down the link goes down; when
    one is connected the link gets exactly the connected families, and the DHCP
    client follows; only enabled families are connected; and when an enabled family
    is missing the next attempt is requested, behind the signals that wait already. *)
Theorem check_follows_calls `{Env} ops `{!OpsFrame ops} l s :
  link_follows (cfg s) s →
  ends (sig_event_check ops l) s (λ l' s',
    let v4 := connected (IPv4ConnectionStatus l') in
    let v6 := connected (IPv6ConnectionStatus l') in
    link_follows (cfg s) s' ∧
    (v4 || v6 = true → s_link s' = (if v4 then 16 else 0) + (if v6 then 64 else 0)) ∧
    (disconnected (IPv4ConnectionStatus l') && disconnected (IPv6ConnectionStatus l') = true → s_link s' = 0) ∧
    (v4 = true → enable_ipv4 (cfg s) = true) ∧ (v6 = true → enable_ipv6 (cfg s) = true) ∧
    (missing (cfg s) l' = true → last (signals (sock s')) = Some SIG_EVENT_START)).
Proof.
  intros [Hk Hd]. eapply ends_mono; [by apply check_spec|].
  intros l' s' (Hc & [Hv4 Hv6] & [Hk' Hd'] & Hl & Hm). cbv zeta. rewrite Hc in Hk'.
  unfold link_of in Hl. split; [done|]. split_and!; try done.
  - unfold disconnected, connected, QWDS_PKT_DATA_DISCONNECTED, QWDS_PKT_DATA_CONNECTED in *. intros Hv. rewrite Hl.
    case_bools; first [done|exfalso; lia].
  - intros Hv. by rewrite Hl, Hv.
Qed.

(** The modem that answers says that the call is connected, and its address is the one
    that is known. *)
Definition dialling_start : cm := dialling_cm (H := good_modem) (ModemWorld 0 []).
Definition called_cm : cm := upd_st (set_h4 0x1234) (upd_prof (set_ipv4 example_ipv4) dialling_start).
Definition called_locals : locals := Locals 1 QWDS_PKT_DATA_CONNECTED QWDS_PKT_DATA_DISCONNECTED 0 0.

Lemma called_check : ∃ l' s', sig_event_check (qmi_request_ops 5) called_locals called_cm = Done (l', s') ∧
  connected (IPv4ConnectionStatus l') = true ∧ connected (IPv6ConnectionStatus l') = false.
Proof.
  assert (match sig_event_check (qmi_request_ops 5) called_locals called_cm with
          | Done (l', s') => connected (IPv4ConnectionStatus l') = true ∧ connected (IPv6ConnectionStatus l') = false
          | _ => False end) as E by (vm_compute; split; reflexivity).
  revert E. destruct (sig_event_check _ _ _) as [[l' s']| |]; try done. by exists l', s'.
Qed.

Lemma check_follows_calls_witness : ∃ l' s',
  sig_event_check (qmi_request_ops 5) called_locals called_cm = Done (l', s') ∧ s_link s' = 16.
Proof.
  destruct called_check as (l' & s' & E & E4 & E6). exists l', s'. split; [exact E|].
  assert (link_follows (cfg called_cm) called_cm) as Hf by (split; [by left|done]).
  destruct (check_follows_calls (qmi_request_ops 5) called_locals called_cm Hf l' s' E) as (_ & Hl & _).
  rewrite E4, E6 in Hl. by apply Hl.
Defined.

(** ** A call *)

(** C13: Dialling works.  A manager for IPv4 alone, with the device open and its
    client id, attached to the network and not yet connected, credentials that fit
    into the request and a pause that is over, meets a modem that answers every
    request at once and with success, and whose answers describe a call with
    handle [h] and IPv4 settings [i] (and memory is available): a START followed
    by a CHECK ends with the link up, the DHCP client running for it, the settings
    and the handle stored, the family connected and the failures forgotten. *)
Theorem dial_connects `{Env} modem `{!Prompt modem} fuel h i id l s :
  call_modem modem h i → may_dial id s → fits s IpFamilyV4 → Address i ≠ 0 →
  PSAttachedState l = 1 → connected (IPv4ConnectionStatus l) = false →
  (∀ w, SetupCallAllowTime l ≤ ulong (clock w).2) → dhcp_of (out s) = s_link s →
  runs (r ← on_signal (qmi_request_ops fuel) SIG_EVENT_START l;
        match r with
        | Go l => on_signal (qmi_request_ops fuel) SIG_EVENT_CHECK l
        | Main_quit => mret Main_quit
        end) s
    (λ r s', s_link s' = 0x10 ∧ dhcp_of (out s') = 0x10 ∧ ipv4 (prof s') = i ∧
      WdsConnectionIPv4Handle (st s') = h ∧
      ∃ l', r = Go l' ∧ connected (IPv4ConnectionStatus l') = true ∧ SetupCallFail l' = 0).
Proof. intros. by eapply dial_prompt. Qed.

Lemma dial_connects_witness : ∃ r s',
  (r ← on_signal (qmi_request_ops 5) SIG_EVENT_START dialling_locals;
   match r with
   | Go l => on_signal (qmi_request_ops 5) SIG_EVENT_CHECK l
   | Main_quit => mret Main_quit
   end) dialling_start = Done (r, s') ∧ s_link s' = 0x10 ∧ ipv4 (prof s') = example_ipv4.
Proof.
  destruct (dial_connects example_tlvs 5 0x1234 example_ipv4 2 dialling_locals dialling_start)
    as (r & s' & E & Hl & _ & Hi & _).
  - split; try done. by repeat constructor.
  - split; try done.
  - done.
  - done.
  - done.
  - done.
  - intros w. apply Z.mod_pos_bound. done.
  - done.
  - exists r, s'. split; [exact E|]. split; [exact Hl|exact Hi].
Defined.

(** ** Requests *)

(** The bytes of the START request behind the headers: four for each number, and each
    string behind a TLV header.  A CDMA device is given no APN and no profile. *)
Definition start_size (is_cdma : bool) (c : credentials) (profile_index : Z) : Z :=
  let string (o : option (list Z)) := match o with Some s => 3 + strlen s | None => 0 end in
  8 + (if is_cdma then 0 else string (apn c)) + string (user c) + string (password c) +
  (match user c, password c with Some _, Some _ => 4 | _, _ => 0 end) +
  (if negb (profile_index =? 0) && negb is_cdma then 4 else 0).

Lemma size_cons x l : blen (encode_tlvs (tlvs_of (x :: l))) = step_size x + blen (encode_tlvs (tlvs_of l)).
Proof. unfold step_size. change (tlvs_of (x :: l)) with (step_tlvs x ++ tlvs_of l). by rewrite encode_tlvs_app, blen_app. Qed.

Lemma size_byte type v : step_size (byte_step type v) = 4.
Proof. done. Qed.

Lemma size_string o type :
  step_size (opt_step o (string_step type)) = match o with Some s => 3 + strlen s | None => 0 end.
Proof.
  destruct o as [s|]; [|done]. unfold step_size. simpl step_tlvs. rewrite encode_one. unfold blen, strlen.
  rewrite Qmi.length_encode_tlv. simpl Qmi.tlv_value. lia.
Qed.

Lemma size_opt_byte o type : step_size (opt_step o (byte_step type)) = match o with Some _ => 4 | None => 0 end.
Proof. by destruct o. Qed.

Lemma start_tlvs_size is_cdma c family index :
  blen (encode_tlvs (start_tlvs is_cdma c family index)) =
  start_size is_cdma (start_credentials is_cdma c) index.
Proof.
  unfold start_tlvs, start_steps, start_size. cbv zeta. rewrite !size_cons, !size_byte, !size_string, !size_opt_byte.
  change (blen (encode_tlvs (tlvs_of []))) with 0.
  generalize (start_credentials is_cdma c). intros [a u p au]. cbn [apn user password auth].
  destruct is_cdma, u, p, (negb (index =? 0)); simpl; lia.
Qed.

(** C21: round trip of the request that starts a data call.  When it fits into the
    local buffer it is composed, and what the code reads back from it is what was put
    in: the service, the technology, the APN, user and password, the way of
    authentication when both of these are there, the family and the profile. *)
Theorem start_request_roundtrip is_cdma cred family index QMIType tid :
  let c := start_credentials is_cdma cred in
  start_args cred family index → strings_ok cred → 0 ≤ QMIType < 256 →
  13 + start_size is_cdma c index ≤ WDM_DEFAULT_BUFSIZE →
  ∃ m, ComposeQMUXMsg_buf QMIType 0x20 tid (Some (WdsStartNwInterfaceReq is_cdma cred family index)) = Done m ∧
    blen m = 13 + start_size is_cdma c index ∧ get8 m 4 = Done QMIType ∧
    read_tlv m 0x30 = Done (Some [if is_cdma then 2 else 1]) ∧
    read_tlv m 0x14 = Done (if is_cdma then None else apn c) ∧
    read_tlv m 0x17 = Done (user c) ∧ read_tlv m 0x18 = Done (password c) ∧
    read_tlv m 0x16 = Done (match user c, password c with Some _, Some _ => Some [auth c] | _, _ => None end) ∧
    read_tlv m 0x19 = Done (Some [family]) ∧
    read_tlv m 0x31 = Done (if negb (index =? 0) && negb is_cdma then Some [index] else None).
Proof.
  cbv zeta. intros Hargs Hs Ht Hf. rewrite <- (start_tlvs_size _ _ family) in Hf |- *.
  set (ts := start_tlvs is_cdma cred family index) in *.
  rewrite start_request by done. cbv zeta. fold ts. replace (_ <=? WDM_DEFAULT_BUFSIZE) with true by lia.
  set (h := finished_header QMIType 0x20 tid (blen (encode_tlvs ts))).
  exists (with_header h ts). split; [done|]. unfold WDM_DEFAULT_BUFSIZE in Hf.
  assert (∀ type, type < 256 → read_tlv (with_header h ts) type = Done (value_of type ts)) as Hr.
  { intros type Hty. apply read_tlv_spec; [done| |done|lia]. apply start_tlvs_ok; [done..|fold ts; lia]. }
  rewrite !Hr by done. split; [unfold with_header; rewrite !blen_app; change (blen h) with 11;
    change (blen (le_bytes 2 _)) with 2; lia|].
  split; [unfold with_header, h; rewrite finished_wire by done; apply wire_type|].
  unfold ts, start_tlvs, tlvs_of, start_steps.
  destruct (start_credentials is_cdma cred) as [a u p au]; cbn [apn user password auth].
  destruct is_cdma, a, u, p, (index =? 0); done.
Qed.

Lemma start_request_roundtrip_witness :
  ∃ m, ComposeQMUXMsg_buf QMUX_TYPE_WDS 0x20 7 (Some (WdsStartNwInterfaceReq false
      (Credentials (Some [0x33; 0x67]) (Some [0x75]) (Some [0x70; 0x77]) 2) IpFamilyV4 1)) = Done m ∧
    read_tlv m 0x18 = Done (Some [0x70; 0x77]) ∧ read_tlv m 0x16 = Done (Some [2]).
Proof.
  destruct (start_request_roundtrip false (Credentials (Some [0x33; 0x67]) (Some [0x75]) (Some [0x70; 0x77]) 2)
    IpFamilyV4 1 QMUX_TYPE_WDS 7) as (m & E & _ & _ & _ & _ & _ & E18 & E16 & _).
  - done.
  - repeat constructor; lia.
  - done.
  - done.
  - exists m. split; [exact E|]. split; [exact E18|exact E16].
Defined.

(** C32: The request that starts a data call is built in a buffer of 256 bytes whose
    bounds are not checked: with authentication, family and profile index of a
    byte each, it is written past the end exactly when APN, user and password are
    together too long for it. *)
Theorem start_request_overflow is_cdma cred family index QMIType tid :
  start_args cred family index →
  ComposeQMUXMsg_buf QMIType 0x20 tid (Some (WdsStartNwInterfaceReq is_cdma cred family index)) = OutOfBounds ↔
  243 < start_size is_cdma (start_credentials is_cdma cred) index.
Proof.
  intros Hargs. rewrite start_request by done. cbv zeta. rewrite start_tlvs_size. unfold WDM_DEFAULT_BUFSIZE.
  destruct (Z.leb_spec (13 + start_size is_cdma (start_credentials is_cdma cred) index) 256); split; intros; done || lia.
Qed.

Lemma start_request_overflow_witness :
  ComposeQMUXMsg_buf QMUX_TYPE_WDS 0x20 1 (Some (WdsStartNwInterfaceReq false
    (Credentials (Some (replicate 250 0x61)) None None 0) IpFamilyV4 0)) = OutOfBounds.
Proof. apply start_request_overflow; [done|vm_compute; reflexivity]. Defined.








(** ** The next attempt *)






(** ** A device that does not answer *)

Section Silent.
Context `{Env}.

Lemma profiles_request tid :
  ComposeQMUXMsg_buf QMUX_TYPE_WDS 0x2A tid (Some WdsGetProfileListReqSend) =
  Done (wire 0 0 QMUX_TYPE_WDS 0 0x2A tid []).
Proof.
  unfold ComposeQMUXMsg_buf, wire, wire_header, with_header, put_le16. simpl le_bytes.
  generalize (tid mod 256), ((tid / 256) mod 256). intros. reflexivity.
Qed.

(** A hang-up while the START request waits. *)
Lemma setup_hangup `{!Takes (cons Dev_hup nil)} id s :
  may_dial id s → fits s IpFamilyV4 →
  runs (requestSetupDataCall IpFamilyV4) s (λ r s', r = 0 ∧ gone s' ∧ cfg s' = cfg s ∧
    WdsConnectionIPv4Handle (st s') = WdsConnectionIPv4Handle (st s)).
Proof.
  intros [Hli Hid _ _] [Hargs Hfit]. unfold requestSetupDataCall.
  apply runs_bind, runs_modify, runs_bind, runs_get. set (s1 := upd_prof _ s).
  set (ts := start_tlvs (s_is_cdma (st s)) (cred (prof s)) IpFamilyV4 (profile_index (prof s))) in *.
  apply runs_bind. eapply runs_mono.
  { eapply (exchange_hangup (wds_type IpFamilyV4) 0x20 _ ts id s1); [by destruct Hli|done|done|done|lia|].
    simpl. rewrite start_request by done. cbv zeta. fold ts.
    unfold WDM_DEFAULT_BUFSIZE. replace (_ <=? 256) with true by lia.
    rewrite finished_wire by done. done. }
  intros r s2 (-> & Hg & Hc & _ & Hs). change (0 <? 0) with false. cbv beta iota. apply runs_ret.
  split; [done|]. split; [exact Hg|]. split; [exact Hc|]. by rewrite Hs.
Qed.
End Silent.

(** C29: A lost device is reported as a connection.  When the device hangs up while the
    request of a first call for IPv4 waits (no handle is stored yet, the
    credentials fit into the request), the request ends with the error number 0,
    no handle is stored, the address of a call without a handle is not asked for
    but counts as read, and the status of the family is CONNECTED, with the device
    thread gone. *)
Theorem hangup_reported_connected `{Env} `{!Takes (cons Dev_hup nil)} fuel id status s :
  may_dial id s → fits s IpFamilyV4 → WdsConnectionIPv4Handle (st s) = 0 → connected status = false →
  runs (start_v4 (qmi_request_ops fuel) status) s (λ status' s',
    status' = QWDS_PKT_DATA_CONNECTED ∧ WdsConnectionIPv4Handle (st s') = 0 ∧
    thread_running (chan s') = false ∧ cdc_wdm_open (chan s') = false).
Proof.
  intros Hd Hf Hh Hst. unfold start_v4. apply runs_bind, runs_get.
  rewrite (md_v4 _ _ Hd), Hst. cbn [andb negb]. apply runs_bind. unfold setup_v4.
  apply runs_bind. eapply runs_mono; [by eapply setup_hangup|]. intros r s1 (-> & (Hop & Hth & _) & Hc & Hs).
  apply runs_bind, runs_get. change (0 <? 0) with false. cbn [andb]. apply runs_ret.
  unfold finish_call. change (negb (0 =? 0)) with false. cbv iota. apply runs_bind.
  simpl ops_GetIPAddress. unfold requestGetIPAddress. apply runs_bind, runs_get, runs_bind.
  change (IpFamilyV4 =? IpFamilyV4) with true. cbv iota. apply runs_modify. cbn [orb andb].
  assert (handle_of (st s1) IpFamilyV4 = 0) as -> by (unfold handle_of; by rewrite Hs).
  apply runs_ret, runs_ret. split; [done|]. split; [|split]; [by simpl; rewrite Hs|exact Hth|exact Hop].
Qed.

Definition hanging_start : cm (H := hanging_modem) := dialling_cm (H := hanging_modem) (ModemWorld 0 []).

Lemma hangup_reported_connected_witness : ∃ s',
  start_v4 (qmi_request_ops 5) QWDS_PKT_DATA_DISCONNECTED hanging_start = Done (QWDS_PKT_DATA_CONNECTED, s') ∧
  thread_running (chan s') = false.
Proof.
  destruct (hangup_reported_connected (H := hanging_modem) 5 2 QWDS_PKT_DATA_DISCONNECTED hanging_start)
    as (v & s' & E & -> & _ & Ht & _); [by split|by vm_compute|done..|].
  exists s'. split; [exact E|exact Ht].
Defined.

(** a device that does not answer the request for the profile list.  With a PDP
    context configured, [requestGetProfile] follows the NULL pointer that the timeout
    has left, whatever the number of rounds it may take. *)
Theorem profile_timeout_fault `{Env} `{!Takes nil} fuel id s :
  listens s → has_client s QMUX_TYPE_WDS id → pdp (cfg s) ≠ 0 →
  requestGetProfile (S fuel) s = OutOfBounds.
Proof.
  intros Hli Hid Hp. unfold requestGetProfile. etransitivity; [by eapply done_bind|].
  cbv beta. etransitivity; [by eapply done_bind|].
  cbv beta. destruct (Z.eqb_spec (pdp (cfg s)) 0); [done|].
  match goal with |- get_profile _ ?x = _ => set (s1 := x) end. cbn [get_profile].
  assert (listens s1) as Hli1 by by destruct Hli.
  destruct (exchange_silent QMUX_TYPE_WDS 0x2A (Some WdsGetProfileListReqSend) [] id s1) as (req & w & E);
    [done..|apply profiles_request|].
  etransitivity; [by eapply done_bind|]. done.
Qed.

Lemma profile_timeout_fault_witness :
  requestGetProfile 5 (dialling_cm (H := silent_modem) (ModemWorld 0 [])) = OutOfBounds.
Proof. by apply (profile_timeout_fault (H := silent_modem) 4 2). Defined.
